(* ===== verification/_CoqProject ===== *)
-Q . S2P
Prelude.v
TimedStorage.v
DHTID.v
Base58.v
Text.v
Base32.v
HashTable.v
Framing.v
PeerIdentity.v
CID.v
Multiaddr.v
MultiaddrFacts.v
Streams.v
Control.v
Daemon.v
P2P.v
Routing.v
RoutingFacts.v
RoutingInvariant.v
Storage.v
Traverse.v
TraverseWorkers.v
Base64.v
Validation.v
Crypto.v
Auth.v
AuthStream.v
ProofOfStake.v
Limiter.v
Epoch.v
ChainClient.v
ChainData.v
CommitReveal.v
Scores.v
PyFloat.v
Task.v
Consensus.v
MockChain.v
Protocol.v
Blacklist.v
Client.v
Search.v
Replicas.v
NodeStore.v
NodeGet.v
CacheRefresh.v
MPFuture.v
Heartbeat.v
Discovery.v
Nested.v
Tensors.v
Serializer.v
StorageV2.v
Compression.v
AsyncTools.v
KeyFiles.v
Utilities.v
Lifecycle.v
