(* ===== verification/Prelude.v ===== *)
(** * Verification of the commit-reveal subnet

    This library models the [mesh] Python package: a Kademlia-style distributed hash table whose records are signed
    and validated, and on top of it a subnet in which validators commit to their answers, reveal them one phase
    later, score each other and bring the scores to a blockchain.  Names in the files are those of the source.

    ** The parts and where they are modelled

    - [TimedStorage.v]: [mesh/utils/timed_storage.py], the expiring key-value storage under everything else.
    - [DHTID.v], [Routing.v], [RoutingFacts.v], [RoutingInvariant.v]: [mesh/dht/routing.py].  Identifiers and XOR
      distance; buckets and the routing table; the tiling invariant, totality of insertion, nearest neighbours.
    - [Storage.v]: [mesh/dht/storage.py], dictionaries with expiring entries as shared objects, and the local storage.
    - [Traverse.v], [TraverseWorkers.v]: [mesh/dht/traverse.py].  The beam search for one query as a function, and
      the search of several workers for several queries as a step relation.
    - [Base64.v], [Validation.v], [Crypto.v]: [mesh/dht/validation.py], [mesh/dht/crypto.py], [mesh/utils/crypto.py].
      Record validators, their composition, and signed records.
    - [Protocol.v]: [mesh/dht/protocol.py], the RPC handlers and calls of a node.  [Blacklist.v], [Search.v],
      [Replicas.v], [NodeStore.v], [NodeGet.v], [CacheRefresh.v]: the parts of [mesh/dht/node.py]: bans, searches and caching,
      replication, the grouping and signing of stores and the pings of the bootstrap, GET requests with their callbacks as
      events, and the queue of keys to refresh with its coroutine as a state machine.  [MPFuture.v]: [mesh/dht/dht.py] and
      [mesh/utils/mpfuture.py], the process around the node and the futures its callers wait for.
    - [Base58.v], [HashTable.v], [PeerIdentity.v]: [mesh/utils/base58], [mesh/utils/multihash], [PeerID] and
      [mesh/utils/peer_id.py].  [Framing.v]: [mesh/p2p/p2p_daemon_bindings/utils.py].
    - [Text.v], [Base32.v]: what is used of Python's [str], UTF-8 and base32.  [CID.v], [Multiaddr.v], [MultiaddrFacts.v]:
      [mesh/utils/multiaddr], the registry of protocols, the codecs, parsing and printing of addresses.
    - [Control.v], [Daemon.v]: [mesh/p2p/p2p_daemon_bindings/control.py], the persistent connection to the p2p daemon as
      a state machine, and the single requests.  [Streams.v], [P2P.v]: [mesh/p2p/p2p_daemon.py] and [servicer.py], streaming
      calls as an interleaving of the two coroutines of the callee, the command line and output of the daemon, and
      the registration of RPC methods and the stubs that call them.
    - [Auth.v], [AuthStream.v], [ProofOfStake.v], [Limiter.v]: [mesh/utils/authorizers] and [mesh/utils/proof_of_stake.py].  The class
      [Authorizer] is [AuthorizerBase]; the signature, proof-of-stake and rate-limiting authorizers are instances, the
      last one over any other; the class [NonceLaws] is what they promise about replayed requests.
    - [Epoch.v]: the epoch arithmetic of [mesh/substrate/chain_functions.py].  [ChainClient.v], [ChainData.v]: its extrinsics,
      queries and retries, and the types and dataclasses of [mesh/substrate/chain_data.py].  [CommitReveal.v]:
      [mesh/subnet/utils/mock_commit_reveal.py], the predicate that says which record may be stored when.  [Scores.v],
      [Task.v]: [mesh/subnet/consensus/utils.py] and [task.py]; [PyFloat.v]: the Python floats of its arithmetic.  [Consensus.v]: [mesh/subnet/consensus/consensus.py].
    - [Client.v]: [mesh/subnet/client] and [mesh/utils/ping.py], the choice of a server and the retries of a session.
      [Heartbeat.v]: the announcements of [mesh/subnet/server/server.py] and the records of [mesh/utils/dht.py].
      [Discovery.v]: both together, how clients find servers.
    - [MockChain.v]: [mesh/substrate/mock/mock_db.py] and [local_chain_functions.py], the SQLite file that stands in for the
      chain, and a round of the consensus of [Consensus.v] over it.
    - [Tensors.v], [Compression.v]: [mesh/compression], [mesh/utils/streaming.py], [tensor_descr.py] and [math.py].  The bytes of
      compressed tensors, streams of parts; the choice of a compression, the averages of its buckets, descriptors.
    - [Serializer.v]: [mesh/utils/serializer.py].  [StorageV2.v]: [mesh/utils/timed_storage_v2.py] and [mesh/dht/storage_v2.py].
      [Nested.v]: [mesh/utils/nested.py].  [AsyncTools.v]: [mesh/utils/asyncio.py], with the background tasks of its
      iterators as step relations.  [Utilities.v]: [performance_ema.py], [networking.py], [ban.py], [reachability.py] of [mesh/utils].
    - [KeyFiles.v]: [mesh/utils/key.py] and [mesh/mesh_cli/crypto/keygen.py], key files and the identifiers that follow from them;
      the RPC methods of [mesh/subnet/protocols], with tensors over the formats of [Tensors.v].
    - [Lifecycle.v]: identity files, start, replication and shutdown of the daemon in [mesh/p2p/p2p_daemon.py], and what they hold.

    The interfaces between parts are classes: [RecordValidator] and [RecordChecker] (what the protocol asks of
    validators), [CryptoLib] with [CryptoLaws], [Authorizer] with [NonceLaws], [Varint] with [VarintLaws], [KeyLib]; and for
    other packages [Unicode] (character classes), [Multiformats], [NetAddr] and [Idna] with their laws (multicodec and multibase,
    netaddr, idna), [Protobuf] with [ProtobufLaws], [SubstrateChain] with [SubstrateLaws] (nonces of a chain),
    [ScaleCodec] with [ScaleCodecLaws], [Pydantic] with [PydanticLaws], [Numerics] with [NumericsLaws] (casts and quantization of
    PyTorch and bitsandbytes), [MsgPack] with [MsgPackLaws], [KeyFiles] with [KeyFilesLaws].

    ** How Python is modelled

    - A call that may raise returns a [result]; [let*] is its bind.  A handler that changes state before it raises
      returns the new state next to the result.
    - A [dict] is an association list in insertion order ([pydict]); a [defaultdict] inserts on reading where the
      insertion can be observed.  A [heapq] heap is its sorted list: the code reads the root, pushes, pops and takes
      the smallest or largest entries, which the multiset of entries determines.  This takes entries that can be compared;
      [TimedStorage.v] also has the comparisons of [heappush] with keys of different types.
    - Times are integers.  An operation reads the clock once: two readings within one operation are taken to be equal.
      [float("inf")] as a limit or a time is [None].  The scores of [Task.v] are floats with infinities, NaN and overflow.
      Other floats are rationals; where rounding can matter, results are rounded by an arbitrary function with the
      monotonicity that IEEE rounding has.
    - [asyncio] code is atomic between two [await]s; in [MPFuture.v], where two processes share memory, the check and the
      write of a method are separate steps.  Background tasks are returned as values or are steps of a relation;
      polling loops and concurrent calls take the list of what they will observe.
    - Code of other packages (cryptography, protobuf, msgpack, pickle, SHA, the chain) is a parameter; what is
      assumed of it is a class of laws or a hypothesis, with an instance in the witnesses.

    ** What the theorems show

    Commit-reveal: limits per peer and epoch, the order of the phases, honest reveals verify, only committed data is
    scored, scores of a reasonable size are bounded and reach the chain, nothing else is proposed or attested.  Records: protected records are
    authentic, signing round-trips.  DHT: the storage never raises on keys that can be compared, and
    keeps what it reports as stored; a node judges every record it is asked to store; the routing table
    keeps its invariant and its nearest-neighbour query equals a reference definition; both traversals return
    the nearest nodes, terminate or, as long as no request raises, never deadlock; stores reach enough replicas; GET requests return the best value seen; the
    refresh coroutine oversleeps no refresh, unless a key is rescheduled to an earlier time.
    Authorization: no request is accepted twice, honest calls and streams complete, rate limits and blocks hold, stake verdicts are
    cached for their time only.  Formats: identifiers, varints, frames, base58, multihashes, peer identifiers and addresses
    round-trip, codecs store what their type says.  Network: answers reach the calls they belong to, streams arrive in
    order, and the callee waits for nothing but its caller, except in one case; stubs reach the methods that are registered.  Processes: a future gets
    the first result that was set if no cancellation races with it, requests are served in order.  Chain: extrinsics are repeated only when they are
    signed anew, queries end after four attempts, every dataclass that is decoded fits its registered type.  Servers renew
    their records in time, if their stores are fast enough and not rejected too often.  Tensors: a stream of parts gives back the tensors, formats and descriptors round-trip, adaptive compressions can be
    read without knowing the choice, averages keep the sum; what a model produces arrives at the caller.  Identities: a key file
    gives back its key, and every way to its peer identifier leads to the same one; a node keeps its identity, and a failed start or a
    shutdown of its daemon releases what it held.  Utilities: nested structures and serialized values round-trip, the second
    storage behaves as the first, iterators with background tasks keep the order and do not get stuck, estimates of speed and verdicts
    on reachability are within what was measured.  Some theorems state defects: [dictionary_store_fails], [rejected_store_shortens_lifetime], [midpoint_node_lost],
    [overwatch_epoch_data_fails], [get_writes_into_storage], [ed25519_clients_share_limits], [asap_refresh_holds_up_queue],
    [attest_not_recorded], [bad_record_blocks_get], [early_return_hangs], [late_answer_ends_reader], [handler_replies],
    [refused_upgrade_unnoticed], [truncated_address_accepted], [colliding_keys_hang], [failed_cancel_loses_result],
    [lost_answer_duplicates], [hotkey_owner_unreadable], [overwatch_commit_always_open], [consensus_record_rejected],
    [null_records], [failed_collection_is_kept], [signed_servers_block_clients], [malformed_record_stops_heartbeat],
    [retry_sends_last_output], [failing_server_asked_again], [namedtuple_not_restored], [leaf_matches_everything],
    [unpacking_renews_creation], [overwritten_code_misread], [ed25519_caller_not_recognised], [failed_call_strands_worker],
    [incomparable_key_breaks_storage], [infinite_score_stops_scoring], [racing_cancel_loses_result]; two that the documentation says otherwise:
    [should_continue_inverted], [visited_node_reported].

    ** Fuel

    [bucket_index_loop] gets the number of buckets, which each iteration decreases; [add_loop] gets 162 iterations,
    more than the 160 bits that splitting can consume; [traverse_loop] gets at least as many iterations as there are
    nodes; the base58 and varint loops get the binary length of their argument, which each iteration decreases;
    the regular expressions get the length of the text; [collect_due] gets the size of the queue, from which each
    iteration removes a key; the loops over a text, over the bytes of an address and over chunks of data get the length of their input;
    [read_from_stream] gets one more than the number of bytes, since every message has a header; [retry] has the four
    attempts of the source; [slices] gets the length of the buffer, [flatten_loop] the number of axes, [loads] the length of its
    input, since the data of an extension is shorter than what contains it; [siftdown] the position, which each iteration at least halves.  Each bound is proved to be enough by the theorem on the function.

    ** Not modelled

    What processes, sockets, threads, shared memory and the external p2p daemon do: system calls and another program, whose outcomes
    are arguments.  The construction of [Server] and [DHT] objects from their options.  The command
    line and HTTP interfaces: argument parsing and calls of the parts above.  The arithmetic of PyTorch, NumPy and bitsandbytes, the
    schemas of pydantic: other packages. *)

From stdpp Require Export prelude gmap sorting list strings pretty.
From Stdlib Require Export ZArith Lia.

#[export] Set Default Goal Selector "!".
#[export] Set Warnings "-clear-no-such-hyp".

(** ** Python exceptions and the error monad *)

Inductive exn : Type :=
  | KeyError | ValueError | AssertionError | TypeError
  | AttributeError | IndexError | ZeroDivisionError | NotImplementedError
  | ValidationError | OverflowError | RuntimeError | EOFError | ImportError | OSError | StructError
  (* [mesh/utils/multiaddr/exceptions.py] *)
  | StringParseError | BinaryParseError | ProtocolLookupError | ProtocolRegistryLocked | ProtocolExistsError
  | ProtocolNotFoundError
  (* [mesh/p2p/p2p_daemon_bindings/utils.py], [mesh/p2p/p2p_daemon.py] and [asyncio] *)
  | ControlFailure | DispatchFailure | P2PHandlerError | P2PDaemonError | InvalidStateError | CancelledError
  | ConnectionError | DecodeError
  (* [tenacity] *)
  | RetryError
  (* generators, timeouts and processes *)
  | StopIteration | StopAsyncIteration | TimeoutError | CalledProcessError | UnicodeDecodeError | UnboundLocalError.

Inductive result (A : Type) : Type :=
  | Ok (a : A)
  | Raise (e : exn).
Arguments Ok {A} a.
Arguments Raise {A} e.

#[export] Instance exn_eq_dec : EqDecision exn.
Proof. solve_decision. Defined.

#[export] Instance result_eq_dec `{EqDecision A} : EqDecision (result A).
Proof. solve_decision. Defined.

Declare Scope py_scope.
Delimit Scope py_scope with py.

Definition rbind {A B} (c : result A) (k : A -> result B) : result B :=
  match c with Ok a => k a | Raise e => Raise e end.

Definition rmap {A B} (f : A -> B) (c : result A) : result B :=
  match c with Ok a => Ok (f a) | Raise e => Raise e end.

(** [d[k]] on a value that may be missing. *)
Definition of_option {A} (e : exn) (o : option A) : result A :=
  match o with Some a => Ok a | None => Raise e end.

Definition is_ok {A} (c : result A) : bool :=
  match c with Ok _ => true | Raise _ => false end.

(** [assert b] *)
Definition py_assert (b : bool) : result unit :=
  if b then Ok tt else Raise AssertionError.

Notation "'let*' p := c 'in' k" := (rbind c (fun p => k))
  (at level 10, p pattern, c at level 100, k at level 200) : py_scope.

Open Scope py_scope.
Open Scope Z_scope.

Fixpoint mapM_r {A B} (f : A -> result B) (l : list A) : result (list B) :=
  match l with
  | [] => Ok []
  | x :: t => let* y := f x in let* ys := mapM_r f t in Ok (y :: ys)
  end.

Fixpoint foldM_r {A S} (f : S -> A -> result S) (s : S) (l : list A) : result S :=
  match l with
  | [] => Ok s
  | x :: t => let* s' := f s x in foldM_r f s' t
  end.

Lemma rbind_ok {A B} (c : result A) (k : A -> result B) b :
  rbind c k = Ok b -> exists a, c = Ok a /\ k a = Ok b.
Proof. destruct c; simpl; [eauto | discriminate]. Qed.

Lemma foldM_r_invariant {A S} (P : S -> Prop) (f : S -> A -> result S) :
  (forall s x, P s -> exists s', f s x = Ok s' /\ P s') ->
  forall l s, P s -> exists s', foldM_r f s l = Ok s' /\ P s'.
Proof.
  intros Hf l. induction l as [|x t IH]; intros s Hs; simpl; [eauto|].
  destruct (Hf s x Hs) as (s1 & -> & H1). simpl. eauto.
Qed.

Lemma mapM_r_Ok {A B} (f : A -> result B) (g : A -> B) l :
  (forall x, x ∈ l -> f x = Ok (g x)) -> mapM_r f l = Ok (map g l).
Proof.
  induction l as [|x t IH]; intros H; simpl; [done|].
  rewrite (H x) by set_solver. simpl. rewrite IH by set_solver. done.
Qed.

(** ** Tactics *)

(** Turn boolean comparisons in the context into propositions. *)
Ltac propify :=
  repeat match goal with
  | H : context [Z.eqb _ _ = true] |- _ => rewrite Z.eqb_eq in H
  | H : context [Z.eqb _ _ = false] |- _ => rewrite Z.eqb_neq in H
  | H : context [Z.ltb _ _ = true] |- _ => rewrite Z.ltb_lt in H
  | H : context [Z.ltb _ _ = false] |- _ => rewrite Z.ltb_ge in H
  | H : context [Z.leb _ _ = true] |- _ => rewrite Z.leb_le in H
  | H : context [Z.leb _ _ = false] |- _ => rewrite Z.leb_gt in H
  | H : context [Nat.ltb _ _ = true] |- _ => rewrite Nat.ltb_lt in H
  | H : context [Nat.ltb _ _ = false] |- _ => rewrite Nat.ltb_ge in H
  | H : context [Nat.leb _ _ = true] |- _ => rewrite Nat.leb_le in H
  | H : context [Nat.leb _ _ = false] |- _ => rewrite Nat.leb_gt in H
  | H : context [andb _ _ = true] |- _ => rewrite andb_true_iff in H
  | H : context [andb _ _ = false] |- _ => rewrite andb_false_iff in H
  | H : context [orb _ _ = true] |- _ => rewrite orb_true_iff in H
  | H : context [orb _ _ = false] |- _ => rewrite orb_false_iff in H
  | H : context [negb _ = true] |- _ => rewrite negb_true_iff in H
  | H : context [negb _ = false] |- _ => rewrite negb_false_iff in H
  | H : bool_decide _ = true |- _ => apply bool_decide_eq_true_1 in H
  | H : bool_decide _ = false |- _ => apply bool_decide_eq_false_1 in H
  end.

(** Unfold one monadic bind in a hypothesis that it returned. *)
Ltac mon_inv :=
  repeat match goal with
  | H : rbind _ _ = Ok _ |- _ =>
      let a := fresh "a" in let E := fresh "E" in
      apply rbind_ok in H; destruct H as (a & E & H)
  | H : Ok _ = Ok _ |- _ => injection H as H; subst
  | H : Raise _ = Ok _ |- _ => discriminate H
  | H : Ok _ = Raise _ |- _ => discriminate H
  end.

(** ** Mapping a fallible function *)

Lemma mapM_r_total {A B : Type} (f : A -> result B) l :
  (forall x, x ∈ l -> exists y, f x = Ok y) -> exists ys, mapM_r f l = Ok ys.
Proof.
  induction l as [|x l IH]; intros H; simpl; [eauto|].
  destruct (H x) as [y ->]; [set_solver|]. destruct IH as [ys ->]; [set_solver|]. simpl. eauto.
Qed.

Lemma mapM_r_Forall2 {A B : Type} (f : A -> result B) l ys :
  mapM_r f l = Ok ys -> Forall2 (fun x y => f x = Ok y) l ys.
Proof.
  revert ys. induction l as [|x l IH]; intros ys H; simpl in H; [simplify_eq; constructor|].
  mon_inv. simplify_eq. constructor; auto.
Qed.

Lemma mapM_r_lookup {A B} (f : A -> result B) l ys i x :
  mapM_r f l = Ok ys -> l !! i = Some x -> exists y, f x = Ok y /\ ys !! i = Some y.
Proof. intros H Hx. apply mapM_r_Forall2 in H. destruct (Forall2_lookup_l _ _ _ _ _ H Hx) as (y & ? & ?). eauto. Qed.

Lemma mapM_r_length {A B} (f : A -> result B) l ys : mapM_r f l = Ok ys -> length ys = length l.
Proof. intros H. apply mapM_r_Forall2 in H. symmetry. by eapply Forall2_length. Qed.

Create HintDb py.
Create Rewrite HintDb pydict.

(** ** Python dictionaries

    A [dict] iterates in insertion order, assignment to an existing key keeps
    its position, and deletion followed by assignment moves the key to the end.
    It is modelled as an association list with at most one entry per key. *)

Abbreviation pydict K V := (list (K * V)) (only parsing).

Section dict.
Context {K V : Type} `{EqDecision K}.
Implicit Types (d : pydict K V) (k : K) (v : V).

(** [d.get(k)] *)
Fixpoint dget d k : option V :=
  match d with
  | [] => None
  | (k', v) :: t => if decide (k' = k) then Some v else dget t k
  end.

(** [k in d] *)
Definition dmem d k : bool := bool_decide (is_Some (dget d k)).

(** [d[k] = v] *)
Fixpoint dset d k v : pydict K V :=
  match d with
  | [] => [(k, v)]
  | (k', v') :: t => if decide (k' = k) then (k', v) :: t else (k', v') :: dset t k v
  end.

(** [d.pop(k, None)]: remove the key when it is there. *)
Definition ddel d k : pydict K V := filter (fun e => e.1 <> k) d.

(** [del d[k]] *)
Definition pydel d k : result (pydict K V) :=
  if dmem d k then Ok (ddel d k) else Raise KeyError.

(** [d[k]] *)
Definition dgetitem d k : result V := of_option KeyError (dget d k).

Definition dkeys d : list K := d.*1.
Definition dvalues d : list V := d.*2.

(** [dict.update] and the dictionary built from a sequence of pairs. *)
Definition dupdate d (l : list (K * V)) : pydict K V :=
  foldl (fun d kv => dset d kv.1 kv.2) d l.
Definition dict_of_list (l : list (K * V)) : pydict K V := dupdate [] l.

(** [d.popitem()]: the last inserted entry. *)
Definition dpopitem d : option (K * V * pydict K V) :=
  match last d with Some kv => Some (kv, removelast d) | None => None end.

Definition dwf d : Prop := NoDup (dkeys d).

Lemma dget_dset_eq d k v : dget (dset d k v) k = Some v.
Proof.
  induction d as [|[k' v'] t IH]; simpl.
  - by rewrite decide_True.
  - destruct (decide (k' = k)); simpl; [by rewrite decide_True | by rewrite decide_False].
Qed.

Lemma dget_dset_ne d k k' v : k <> k' -> dget (dset d k v) k' = dget d k'.
Proof.
  intros Hne. induction d as [|[k1 v1] t IH]; simpl.
  - by rewrite decide_False.
  - destruct (decide (k1 = k)); simpl; destruct (decide (k1 = k')); congruence.
Qed.

Lemma dget_ddel_eq d k : dget (ddel d k) k = None.
Proof.
  induction d as [|[k' v'] t IH]; [done|]. unfold ddel in *. rewrite filter_cons. simpl.
  case_decide; simpl; [by rewrite decide_False | done].
Qed.

Lemma dget_ddel_ne d k k' : k <> k' -> dget (ddel d k) k' = dget d k'.
Proof.
  intros Hne. induction d as [|[k1 v1] t IH]; [done|]. unfold ddel in *.
  rewrite filter_cons. simpl. case_decide; simpl; destruct (decide (k1 = k')); congruence.
Qed.

Lemma dget_elem_of d k v : dget d k = Some v -> (k, v) ∈ d.
Proof.
  induction d as [|[k' v'] t IH]; simpl; [done|].
  destruct (decide (k' = k)); intros; simplify_eq; set_solver.
Qed.

Lemma dget_dkeys d k : is_Some (dget d k) <-> k ∈ dkeys d.
Proof.
  unfold dkeys. induction d as [|[k' v'] t IH]; simpl.
  - split; [intros [? ?]; done | set_solver].
  - destruct (decide (k' = k)) as [->|]; [split; [set_solver | eauto]|].
    rewrite IH. set_solver.
Qed.

Lemma dget_None_dkeys d k : dget d k = None <-> k ∉ dkeys d.
Proof. rewrite <- dget_dkeys, <- not_eq_None_Some. destruct (dget d k); naive_solver. Qed.

Lemma dmem_true d k : dmem d k = true <-> is_Some (dget d k).
Proof. unfold dmem. apply bool_decide_eq_true. Qed.

Lemma dmem_false d k : dmem d k = false <-> dget d k = None.
Proof. unfold dmem. rewrite bool_decide_eq_false. symmetry. apply eq_None_not_Some. Qed.

Lemma dwf_elem_dget d k v : dwf d -> (k, v) ∈ d -> dget d k = Some v.
Proof.
  unfold dwf, dkeys. induction d as [|[k' v'] t IH]; simpl; [set_solver|].
  rewrite NoDup_cons. intros [Hn Hd] Hin. apply elem_of_cons in Hin as [Hin|Hin].
  - simplify_eq. by rewrite decide_True.
  - destruct (decide (k' = k)) as [->|]; [|auto].
    destruct Hn. apply list_elem_of_fmap. by exists (k, v).
Qed.

Lemma dkeys_dset_in d k v : k ∈ dkeys d -> dkeys (dset d k v) = dkeys d.
Proof.
  unfold dkeys. induction d as [|[k' v'] t IH]; simpl; intros Hin; [set_solver|].
  apply elem_of_cons in Hin. destruct (decide (k' = k)); simpl; [done|].
  destruct Hin; [congruence|]. f_equal. auto.
Qed.

Lemma dkeys_dset_notin d k v : k ∉ dkeys d -> dset d k v = d ++ [(k, v)].
Proof.
  unfold dkeys. induction d as [|[k' v'] t IH]; simpl; intros Hin; [done|].
  apply not_elem_of_cons in Hin as [? ?]. destruct (decide (k' = k)); simpl; [congruence|].
  f_equal. auto.
Qed.

Lemma dkeys_dset d k v :
  dkeys (dset d k v) = if decide (k ∈ dkeys d) then dkeys d else dkeys d ++ [k].
Proof.
  case_decide; [by apply dkeys_dset_in|].
  rewrite dkeys_dset_notin by done. unfold dkeys. by rewrite fmap_app.
Qed.

Lemma dkeys_ddel d k : dkeys (ddel d k) = filter (fun x => x <> k) (dkeys d).
Proof.
  unfold dkeys, ddel. induction d as [|[k' v'] t IH]; [done|].
  rewrite fmap_cons, !filter_cons. simpl.
  destruct (decide (k' <> k)); [|done]. rewrite fmap_cons. by f_equal.
Qed.

Lemma dwf_dset d k v : dwf d -> dwf (dset d k v).
Proof.
  unfold dwf. rewrite dkeys_dset. case_decide; [done|]. intros.
  apply NoDup_app. repeat split; [done | set_solver | apply NoDup_singleton].
Qed.

Lemma dwf_ddel d k : dwf d -> dwf (ddel d k).
Proof. unfold dwf. rewrite dkeys_ddel. apply NoDup_filter. Qed.

Lemma dwf_nil : dwf [].
Proof. apply NoDup_nil_2. Qed.

Lemma dset_length d k v :
  length (dset d k v) = (if dmem d k then length d else S (length d)).
Proof.
  rewrite <- (length_fmap fst), <- (length_fmap fst d). fold (dkeys (dset d k v)) (dkeys d).
  rewrite dkeys_dset. unfold dmem. case_decide as Hk.
  - rewrite bool_decide_eq_true_2 by by apply dget_dkeys. done.
  - rewrite bool_decide_eq_false_2 by by rewrite dget_dkeys.
    rewrite length_app. simpl. lia.
Qed.

Lemma ddel_notin d k : k ∉ dkeys d -> ddel d k = d.
Proof.
  unfold ddel, dkeys. induction d as [|[k' v'] t IH]; [done|]. simpl. intros Hn.
  rewrite filter_cons_True by (simpl; set_solver). f_equal. apply IH. set_solver.
Qed.

Lemma ddel_length d k : dwf d -> is_Some (dget d k) -> length d = S (length (ddel d k)).
Proof.
  unfold dwf, dkeys. induction d as [|[k' v'] t IH]; simpl; [intros _ [? ?]; done|].
  rewrite NoDup_cons. intros [Hn Hd] Hs. unfold ddel. rewrite filter_cons. simpl.
  destruct (decide (k' = k)) as [->|Hne].
  - rewrite decide_False by tauto. fold (ddel t k). by rewrite ddel_notin.
  - rewrite decide_True by done. simpl. f_equal. fold (ddel t k). by apply IH.
Qed.

Lemma dget_app_None d1 d2 k : dget d1 k = None -> dget (d1 ++ d2) k = dget d2 k.
Proof.
  induction d1 as [|[k' v'] t IH]; simpl; [done|].
  destruct (decide (k' = k)); [done|auto].
Qed.

Lemma pydel_ok d k : is_Some (dget d k) -> pydel d k = Ok (ddel d k).
Proof. unfold pydel. intros. by rewrite (proj2 (dmem_true d k)). Qed.

Lemma dget_dupdate_other (l : list (K * V)) : forall d k, (k ∉ l.*1) -> dget (dupdate d l) k = dget d k.
Proof.
  induction l as [|[k' v'] l' IH]; intros d k Hk; [done|]. unfold dupdate in *. cbn [foldl fmap list_fmap fst snd] in *.
  apply not_elem_of_cons in Hk as [Hne Hk]. rewrite IH by done. by apply dget_dset_ne.
Qed.

Lemma dget_dupdate_nodup (l : list (K * V)) : forall d k v,
  NoDup l.*1 -> (k, v) ∈ l -> dget (dupdate d l) k = Some v.
Proof.
  induction l as [|[k' v'] l IH]; intros d k v Hn Hin; [by apply elem_of_nil in Hin|].
  cbn [fmap list_fmap fst] in Hn. apply NoDup_cons in Hn as [Hnot Hn].
  change (dupdate d ((k', v') :: l)) with (dupdate (dset d k' v') l). apply elem_of_cons in Hin as [[= -> ->]|Hin].
  - rewrite dget_dupdate_other by done. apply dget_dset_eq.
  - by apply IH.
Qed.

Lemma dkeys_dupdate_in (l : list (K * V)) : forall d, (forall k, k ∈ l.*1 -> k ∈ dkeys d) -> dkeys (dupdate d l) = dkeys d.
Proof.
  induction l as [|[k v] l IH]; intros d Hd; [done|]. change (dupdate d ((k, v) :: l)) with (dupdate (dset d k v) l).
  assert (Hk : dkeys (dset d k v) = dkeys d) by (apply dkeys_dset_in, Hd; left).
  rewrite IH; [done|]. intros k' Hk'. rewrite Hk. apply Hd. by right.
Qed.
End dict.

#[export] Hint Resolve dwf_nil dwf_dset dwf_ddel : py.
#[export] Hint Rewrite @dget_dset_eq @dget_ddel_eq : pydict.


(** ** Total orders and heaps

    [heapq] keeps a list whose first element is the smallest; the code reads the
    root, pushes, pops and asks for the [k] smallest or largest elements, all of
    which are determined by the multiset of entries when the order is total.
    The heap is modelled by its sorted list. *)

Class PyOrd (A : Type) := py_leb : A -> A -> bool.

Class PyOrdLaws (A : Type) `{PyOrd A} : Prop := {
  py_total : forall a b : A, py_leb a b = true \/ py_leb b a = true;
  py_trans : forall a b c : A, py_leb a b = true -> py_leb b c = true -> py_leb a c = true;
  py_antisym : forall a b : A, py_leb a b = true -> py_leb b a = true -> a = b;
}.

#[export] Instance Z_pyord : PyOrd Z := Z.leb.
#[export] Instance Z_pyord_laws : PyOrdLaws Z.
Proof. split; unfold py_leb, Z_pyord; intros; rewrite ?Z.leb_le in *; lia. Qed.

(** Tuples compare by their first differing component. *)
#[export] Instance prod_pyord `{PyOrd A, PyOrd B} : PyOrd (A * B) :=
  fun x y => if py_leb x.1 y.1 then (if py_leb y.1 x.1 then py_leb x.2 y.2 else true) else false.
#[export] Instance prod_pyord_laws `{PyOrdLaws A, PyOrdLaws B} : PyOrdLaws (A * B).
Proof.
  split; unfold py_leb, prod_pyord.
  - intros [a b] [a' b']; simpl.
    destruct (py_leb a a') eqn:E1, (py_leb a' a) eqn:E2; try tauto; [apply py_total|].
    destruct (py_total a a'); congruence.
  - intros [a b] [a' b'] [a2 b2]; simpl.
    destruct (py_leb a a') eqn:E1; [|done]. destruct (py_leb a' a2) eqn:E2; [|done].
    rewrite (py_trans _ _ _ E1 E2).
    destruct (py_leb a' a) eqn:E3, (py_leb a2 a') eqn:E4; intros H3 H4.
    + assert (a = a') by (by apply py_antisym). assert (a' = a2) by (by apply py_antisym).
      subst. rewrite E1. eapply py_trans; eauto.
    + assert (a = a') by (by apply py_antisym). subst. by rewrite E4.
    + assert (a' = a2) by (by apply py_antisym). subst. by rewrite E3.
    + destruct (py_leb a2 a) eqn:E5; [|done].
      rewrite (py_trans _ _ _ E2 E5) in E3. done.
  - intros [a b] [a' b']; simpl.
    destruct (py_leb a a') eqn:E1, (py_leb a' a) eqn:E2; try done. intros H3 H4.
    f_equal; by apply py_antisym.
Qed.

(** Sequences ([bytes], [str], [tuple]) compare lexicographically. *)
Fixpoint lex_leb `{PyOrd A} (x y : list A) : bool :=
  match x, y with
  | [], _ => true
  | _ :: _, [] => false
  | a :: x', b :: y' =>
      if py_leb a b then (if py_leb b a then lex_leb x' y' else true) else false
  end.
#[export] Instance list_pyord `{PyOrd A} : PyOrd (list A) := lex_leb.
#[export] Instance list_pyord_laws `{PyOrdLaws A} : PyOrdLaws (list A).
Proof.
  split; unfold py_leb, list_pyord.
  - induction a as [|a x IH]; intros [|b y]; simpl; auto.
    destruct (py_leb a b) eqn:E1, (py_leb b a) eqn:E2; auto.
    destruct (py_total a b); congruence.
  - induction a as [|a x IH]; intros [|b y] [|c z]; simpl; auto; try done.
    destruct (py_leb a b) eqn:E1; [|done]. destruct (py_leb b c) eqn:E2; [|done].
    rewrite (py_trans _ _ _ E1 E2).
    destruct (py_leb b a) eqn:E3, (py_leb c b) eqn:E4; intros H3 H4.
    + assert (a = b) by (by apply py_antisym). assert (b = c) by (by apply py_antisym).
      subst. rewrite E1. eapply IH; eauto.
    + assert (a = b) by (by apply py_antisym). subst. by rewrite E4.
    + assert (b = c) by (by apply py_antisym). subst. by rewrite E3.
    + destruct (py_leb c a) eqn:E5; [|done].
      rewrite (py_trans _ _ _ E2 E5) in E3. done.
  - induction a as [|a x IH]; intros [|b y]; simpl; auto; try done.
    destruct (py_leb a b) eqn:E1, (py_leb b a) eqn:E2; try done. intros.
    f_equal; [by apply py_antisym | auto].
Qed.

Section heap.
Context {A : Type} `{PyOrdLaws A}.
Implicit Types (h l : list A) (x y : A).

(** The order as a relation. *)
Definition ple x y : Prop := py_leb x y = true.

Lemma ple_refl x : ple x x.
Proof. unfold ple. destruct (py_total x x); done. Qed.

Lemma ple_total x y : ple x y \/ ple y x.
Proof. apply py_total. Qed.

Lemma ple_false x y : py_leb x y = false -> ple y x.
Proof. unfold ple. destruct (py_total x y); congruence. Qed.

#[export] Instance ple_trans : Transitive ple.
Proof. intros x y z. apply py_trans. Qed.

Fixpoint heappush x h : list A :=
  match h with
  | [] => [x]
  | y :: t => if py_leb x y then x :: y :: t else y :: heappush x t
  end.

Definition heappop h : option (A * list A) :=
  match h with [] => None | x :: t => Some (x, t) end.

Definition heapify l : list A := foldr heappush [] l.

(** [sorted(l)], [heapq.nsmallest(n, l)] and [heapq.nlargest(n, l)]. *)
Definition py_sorted l : list A := heapify l.
Definition nsmallest (n : nat) l : list A := take n (py_sorted l).
Definition nlargest (n : nat) l : list A := take n (reverse (py_sorted l)).

(** [heapq.heappushpop(h, x)]: push, then drop the smallest. *)
Definition heappushpop x h : list A := tail (heappush x h).

Definition sorted_heap h : Prop := StronglySorted ple h.

Lemma heappush_perm x h : heappush x h ≡ₚ x :: h.
Proof.
  induction h as [|y t IH]; simpl; [done|].
  destruct (py_leb x y); [done|]. rewrite IH. apply Permutation_swap.
Qed.

Lemma heapify_perm l : heapify l ≡ₚ l.
Proof. induction l as [|x t IH]; simpl; [done|]. by rewrite heappush_perm, IH. Qed.

Lemma heappush_sorted x h : sorted_heap h -> sorted_heap (heappush x h).
Proof.
  unfold sorted_heap. induction 1 as [|y t Hs IH Hf]; simpl; [repeat constructor|].
  destruct (py_leb x y) eqn:E.
  - repeat constructor; auto. eapply Forall_impl; [apply Hf|].
    intros z Hz. by transitivity y.
  - constructor; [done|]. rewrite heappush_perm. constructor; [by apply ple_false | done].
Qed.

Lemma heapify_sorted l : sorted_heap (heapify l).
Proof. induction l; simpl; [constructor | by apply heappush_sorted]. Qed.

Lemma sorted_heap_unique h1 h2 :
  sorted_heap h1 -> sorted_heap h2 -> h1 ≡ₚ h2 -> h1 = h2.
Proof.
  intros. eapply (StronglySorted_unique_strong ple); auto.
  intros. by apply py_antisym.
Qed.

Lemma heapify_Permutation l1 l2 : l1 ≡ₚ l2 -> heapify l1 = heapify l2.
Proof.
  intros Hp. apply sorted_heap_unique; try apply heapify_sorted. by rewrite !heapify_perm.
Qed.

Lemma heappush_heapify x l : heappush x (heapify l) = heapify (x :: l).
Proof. done. Qed.

Lemma heapify_id h : sorted_heap h -> heapify h = h.
Proof. intros. apply sorted_heap_unique; auto using heapify_sorted. apply heapify_perm. Qed.

Lemma sorted_heap_root x h y : sorted_heap (x :: h) -> y ∈ x :: h -> ple x y.
Proof.
  intros Hs Hy. apply elem_of_cons in Hy as [->|Hy]; [apply ple_refl|].
  apply StronglySorted_inv in Hs as [_ Hf]. rewrite Forall_forall in Hf. auto.
Qed.

Lemma sorted_heap_tail x h : sorted_heap (x :: h) -> sorted_heap h.
Proof. intros Hs. by apply StronglySorted_inv in Hs as [? _]. Qed.

Lemma sorted_heap_app l1 l2 :
  sorted_heap (l1 ++ l2) -> sorted_heap l1 /\ sorted_heap l2 /\
    (forall x y, x ∈ l1 -> y ∈ l2 -> ple x y).
Proof.
  induction l1 as [|a t IH]; simpl; intros Hs.
  - split; [constructor|]. split; [done|]. set_solver.
  - apply StronglySorted_inv in Hs as [Hs Hf]. destruct (IH Hs) as (H1 & H2 & H3).
    apply Forall_app in Hf as [Hf1 Hf2]. repeat split; auto.
    + by constructor.
    + intros x y Hx Hy. rewrite Forall_forall in Hf2.
      apply elem_of_cons in Hx as [->|Hx]; auto.
Qed.

(** What [nsmallest] promises: the chosen elements are below the others. *)
(** Elements below all others form a prefix of the sorted list. *)
Lemma sorted_prefix h l1 l2 :
  sorted_heap h -> h ≡ₚ l1 -> (forall x y, x ∈ l1 -> y ∈ l2 -> ple x y) ->
  py_sorted (l1 ++ l2) = h ++ py_sorted l2.
Proof.
  intros Hs Hp Hle. apply sorted_heap_unique; [apply heapify_sorted| |].
  - apply StronglySorted_app. split_and!; [|done|apply heapify_sorted].
    intros x y Hx Hy.
    apply Hle; [by rewrite <- Hp | by rewrite <- (heapify_perm l2)].
  - unfold py_sorted. by rewrite !heapify_perm, Hp.
Qed.

Lemma nsmallest_spec n l :
  exists rest, l ≡ₚ nsmallest n l ++ rest /\ sorted_heap (nsmallest n l) /\
    length (nsmallest n l) = Nat.min n (length l) /\
    (forall x y, x ∈ nsmallest n l -> y ∈ rest -> ple x y).
Proof.
  exists (drop n (heapify l)). unfold nsmallest, py_sorted.
  pose proof (heapify_sorted l) as Hs. rewrite <- (take_drop n (heapify l)) in Hs.
  apply sorted_heap_app in Hs as (H1 & H2 & H3).
  repeat split; auto.
  - by rewrite take_drop, heapify_perm.
  - rewrite length_take. by rewrite heapify_perm.
Qed.
End heap.

#[export] Hint Resolve heappush_sorted heapify_sorted sorted_heap_tail : py.
