(* ===== verification/TimedStorage.v ===== *)
(** * Expiring key-value storage ([mesh/utils/timed_storage.py])

    [TimedStorage] maps keys to values until their expiration time or until the
    storage exceeds its capacity.  It keeps a dictionary, a heap of
    [(expiration_time, key)] entries with stale ("ghost") entries left behind by
    updates and deletions, and the entry currently valid for each key.

    Every operation takes the clock reading [now] of the call.  Times are integer
    ticks; [maxsize = None] is Python's [float("inf")].

    The operations are those of a storage whose keys can be compared with each other: the heap is the sorted list of its
    entries, and no comparison raises.  The section [MixedKeys] is about the first half of [store] with the heap of [heapq] and a
    comparison of keys that may raise. *)

From S2P Require Import Prelude.

(** [ValueWithExpiration] *)
Record ValueWithExpiration (V : Type) : Type := VWE {
  value : V;
  expiration_time : Z;
}.
Arguments VWE {V} _ _.
Arguments value {V} _.
Arguments expiration_time {V} _.

#[export] Instance VWE_eq_dec `{EqDecision V} : EqDecision (ValueWithExpiration V).
Proof. solve_decision. Defined.

Section TimedStorage.
Context {K V : Type} `{EqK : EqDecision K} `{OrdK : PyOrd K} {LawK : PyOrdLaws K}.

(** [HeapEntry(expiration_time, key)], compared as a tuple. *)
Definition HeapEntry : Type := (Z * K)%type.

Record TimedStorage : Type := mkTS {
  frozen : bool;
  maxsize : option nat;
  data : pydict K (ValueWithExpiration V);
  expiration_heap : list (Z * K);
  key_to_heap : pydict K (Z * K);
}.

Implicit Types (s : TimedStorage) (k : K) (v : V) (now e : Z).

(** [__init__]: [maxsize or float("inf")], so [0] means unbounded too. *)
Definition init (frozen : bool) (size : option nat) : TimedStorage :=
  {| frozen := frozen;
     maxsize := match size with Some (S n) => Some (S n) | _ => None end;
     data := []; expiration_heap := []; key_to_heap := [] |}.

(** [len(self.data) > self.maxsize] *)
Definition over_capacity (size : option nat) (d : pydict K (ValueWithExpiration V)) : bool :=
  match size with None => false | Some n => (n <? length d)%nat end.

(** The loop of [_remove_outdated]: it pops one heap entry per iteration. *)
Fixpoint remove_loop (fz : bool) (size : option nat) now
    (h : list (Z * K)) (d : pydict K (ValueWithExpiration V)) (k2h : pydict K (Z * K))
    : result TimedStorage :=
  match h with
  | [] => Ok (mkTS fz size d [] k2h)
  | (e, k) :: h' =>
      if negb fz && ((e <? now) || over_capacity size d) then
        if decide (dget k2h k = Some (e, k)) then
          let* d' := pydel d k in
          let* k2h' := pydel k2h k in
          remove_loop fz size now h' d' k2h'
        else remove_loop fz size now h' d k2h
      else Ok (mkTS fz size d h k2h)
  end.

Definition _remove_outdated now s : result TimedStorage :=
  remove_loop (frozen s) (maxsize s) now (expiration_heap s) (data s) (key_to_heap s).

(** [store], for keys that can be compared with each other (see [MixedKeys] for others) *)
Definition store now s k v e : result (TimedStorage * bool) :=
  if (e <? now) && negb (frozen s) then Ok (s, false)
  else
    let entry := (e, k) in
    let k2h := dset (key_to_heap s) k entry in
    let h := heappush entry (expiration_heap s) in
    match dget (data s) k with
    | Some old =>
        if expiration_time old <? e then
          Ok (mkTS (frozen s) (maxsize s) (dset (data s) k (VWE v e)) h k2h, true)
        else Ok (mkTS (frozen s) (maxsize s) (data s) h k2h, false)
    | None =>
        let* s' := _remove_outdated now
                     (mkTS (frozen s) (maxsize s) (dset (data s) k (VWE v e)) h k2h) in
        Ok (s', true)
    end.

(** [get] *)
Definition get now s k : result (TimedStorage * option (ValueWithExpiration V)) :=
  let* s' := _remove_outdated now s in Ok (s', dget (data s') k).

(** [items] *)
Definition items now s : result (TimedStorage * pydict K (ValueWithExpiration V)) :=
  let* s' := _remove_outdated now s in Ok (s', data s').

(** The inner loop of [top]: drop ghost entries from the root. *)
Fixpoint skip_ghosts (h : list (Z * K)) (k2h : pydict K (Z * K)) : result (list (Z * K)) :=
  match h with
  | [] => Raise IndexError
  | (e, k) :: h' =>
      if decide (dget k2h k = Some (e, k)) then Ok h else skip_ghosts h' k2h
  end.

Definition set_heap s h : TimedStorage :=
  mkTS (frozen s) (maxsize s) (data s) h (key_to_heap s).

(** [top] *)
Definition top now s : result (TimedStorage * option (K * ValueWithExpiration V)) :=
  let* s' := _remove_outdated now s in
  if decide (data s' = []) then Ok (s', None)
  else
    let* h := skip_ghosts (expiration_heap s') (key_to_heap s') in
    let* root := of_option IndexError (head h) in
    let* item := dgetitem (data s') root.2 in
    Ok (set_heap s' h, Some (root.2, item)).

(** [clear] *)
Definition clear s : TimedStorage := mkTS (frozen s) (maxsize s) [] [] [].

(** [__contains__] *)
Definition contains now s k : result (TimedStorage * bool) :=
  let* s' := _remove_outdated now s in Ok (s', dmem (data s') k).

(** [__len__] *)
Definition len now s : result (TimedStorage * nat) :=
  let* s' := _remove_outdated now s in Ok (s', length (data s')).

(** [__delitem__]: a missing key is ignored, the heap entry stays behind. *)
Definition delitem s k : result TimedStorage :=
  if dmem (key_to_heap s) k then
    let* d' := pydel (data s) k in
    let* k2h' := pydel (key_to_heap s) k in
    Ok (mkTS (frozen s) (maxsize s) d' (expiration_heap s) k2h')
  else Ok s.

(** [__bool__] *)
Definition bool_ s : bool := bool_decide (data s <> []).

(** [freeze]: the context manager sets the flag on entry and restores it on exit. *)
Definition set_frozen s (b : bool) : TimedStorage :=
  mkTS b (maxsize s) (data s) (expiration_heap s) (key_to_heap s).

(** ** Invariant *)

(** The entry of [key_to_heap] for a key is that key's, it is still in the heap,
    and exactly the keys with a value have one. *)
Record wf s : Prop := {
  wf_data : dwf (data s);
  wf_k2h : dwf (key_to_heap s);
  wf_sorted : sorted_heap (expiration_heap s);
  wf_dom k : is_Some (dget (data s) k) <-> is_Some (dget (key_to_heap s) k);
  wf_entry k p : dget (key_to_heap s) k = Some p -> p.2 = k /\ p ∈ expiration_heap s;
  wf_evict k p x : dget (key_to_heap s) k = Some p -> dget (data s) k = Some x ->
    p.1 <= expiration_time x;
}.

(** The time at which the current entry of a key is dropped. *)
Definition evict_time s k : option Z := fst <$> dget (key_to_heap s) k.

Lemma wf_init fz size : wf (init fz size).
Proof. split; simpl; eauto with py; try done; constructor. Qed.

Lemma wf_set_frozen s b : wf s -> wf (set_frozen s b).
Proof. intros []; split; done. Qed.

Lemma wf_clear s : wf (clear s).
Proof. split; simpl; eauto with py; try done; constructor. Qed.

Lemma wf_no_data_no_entry s k : wf s -> dget (data s) k = None -> dget (key_to_heap s) k = None.
Proof.
  intros Hwf Hd. destruct (dget (key_to_heap s) k) eqn:E; [|done].
  destruct (proj2 (wf_dom s Hwf k)) as [? ?]; [eauto | congruence].
Qed.

(** ** What one clean-up pass does *)

Record cleaned now s s' : Prop := {
  cl_wf : wf s';
  cl_frozen : frozen s' = frozen s;
  cl_maxsize : maxsize s' = maxsize s;
  (* survivors are unchanged *)
  cl_kept k x : dget (data s') k = Some x ->
    dget (data s) k = Some x /\ dget (key_to_heap s') k = dget (key_to_heap s) k;
  cl_frozen_same : frozen s = true -> s' = s;
  cl_fresh k e : frozen s = false -> evict_time s' k = Some e -> now <= e;
  cl_capacity : frozen s = false -> over_capacity (maxsize s) (data s') = false;
  (* only expired entries go, or the earliest ones of an over-full storage *)
  cl_dropped k x : dget (data s) k = Some x -> dget (data s') k = None ->
    frozen s = false /\ exists e, dget (key_to_heap s) k = Some (e, k) /\
      (e < now \/ over_capacity (maxsize s) (data s) = true /\
         forall k' p, dget (key_to_heap s') k' = Some p -> ple (e, k) p);
}.

Lemma wf_pop_ghost fz size d e k h k2h :
  wf (mkTS fz size d ((e, k) :: h) k2h) -> dget k2h k <> Some (e, k) ->
  wf (mkTS fz size d h k2h).
Proof.
  intros Hwf Hg. destruct Hwf as [H1 H2 H3 H4 H5 H6]. split; simpl in *; eauto with py.
  intros k' p Hp. destruct (H5 _ _ Hp) as [Hk Hin]. split; [done|].
  apply elem_of_cons in Hin as [->|]; [|done]. simpl in *. by subst.
Qed.

Lemma wf_pop_live fz size d e k h k2h :
  wf (mkTS fz size d ((e, k) :: h) k2h) ->
  wf (mkTS fz size (ddel d k) h (ddel k2h k)).
Proof.
  intros [H1 H2 H3 H4 H5 H6]. split; simpl in *; eauto with py.
  - intros k'. destruct (decide (k = k')) as [->|].
    + rewrite !dget_ddel_eq. split; intros [? ?]; done.
    + by rewrite !dget_ddel_ne.
  - intros k' p Hp. destruct (decide (k = k')) as [->|Hne].
    { by rewrite dget_ddel_eq in Hp. }
    rewrite dget_ddel_ne in Hp by done. destruct (H5 _ _ Hp) as [Hk Hin]. split; [done|].
    apply elem_of_cons in Hin as [->|]; [|done]. simpl in *. congruence.
  - intros k' p x. destruct (decide (k = k')) as [->|]; [by rewrite !dget_ddel_eq|].
    rewrite !dget_ddel_ne by done. eauto.
Qed.

Lemma over_capacity_ddel size (d : pydict K (ValueWithExpiration V)) k :
  dwf d -> is_Some (dget d k) -> over_capacity size (ddel d k) = true -> over_capacity size d = true.
Proof.
  intros Hw Hs. destruct size; simpl; [|done].
  rewrite (ddel_length d k) by done. rewrite !Nat.ltb_lt. lia.
Qed.

Lemma over_capacity_empty size : over_capacity size [] = false.
Proof. by destruct size. Qed.

Lemma wf_empty_heap s : wf s -> expiration_heap s = [] -> data s = [].
Proof.
  intros Hwf Hh. destruct (data s) as [|[k x] t] eqn:Ed; [done|].
  destruct (proj1 (wf_dom s Hwf k)) as [p Hp].
  { rewrite Ed. simpl. rewrite decide_True by done. eauto. }
  destruct (wf_entry s Hwf _ _ Hp) as [_ Hin]. rewrite Hh in Hin. set_solver.
Qed.

Lemma cleaned_refl now s :
  wf s -> (frozen s = false -> over_capacity (maxsize s) (data s) = false) ->
  (frozen s = false -> forall k e, evict_time s k = Some e -> now <= e) -> cleaned now s s.
Proof. intros. split; eauto; congruence. Qed.

Lemma cleaned_step_ghost now fz size d e k h k2h s' :
  wf (mkTS fz size d ((e, k) :: h) k2h) ->
  cleaned now (mkTS fz size d h k2h) s' -> fz = false ->
  cleaned now (mkTS fz size d ((e, k) :: h) k2h) s'.
Proof. intros Hwf [] ->. split; simpl in *; eauto. done. Qed.

Lemma cleaned_step_live now size d e k h k2h s' :
  let s := mkTS false size d ((e, k) :: h) k2h in
  wf s -> dget k2h k = Some (e, k) -> (e < now \/ over_capacity size d = true) ->
  cleaned now (mkTS false size (ddel d k) h (ddel k2h k)) s' ->
  cleaned now s s'.
Proof.
  intros s Hwf Hk Hwhy [C1 C2 C3 C4 C5 C6 C7 C8]. simpl in *.
  assert (Hnk : forall k' x, dget (data s') k' = Some x -> k <> k').
  { intros k' x Hx ->. apply C4 in Hx as [Hx _]. by rewrite dget_ddel_eq in Hx. }
  split; simpl; eauto; try done.
  - intros k' x Hx. pose proof (Hnk _ _ Hx). apply C4 in Hx.
    by rewrite !dget_ddel_ne in Hx by done.
  - intros k' x Hx Hn. split; [done|]. destruct (decide (k = k')) as [->|Hne].
    + exists e. split; [done|]. destruct Hwhy as [|Hcap]; [by left | right].
      split; [done|]. intros k2 p Hp.
      assert (Hin : p ∈ (e, k') :: h).
      { destruct (proj2 (wf_dom _ C1 k2)) as [y Hy]; [eauto|].
        pose proof (Hnk _ _ Hy). apply C4 in Hy as [_ Hy].
        rewrite Hp, dget_ddel_ne in Hy by done. symmetry in Hy.
        by apply (wf_entry _ Hwf) in Hy as [_ ?]. }
      by apply (sorted_heap_root _ h); [apply (wf_sorted _ Hwf)|].
    + destruct (C8 k' x) as [_ (e' & He' & Hor)]; [by rewrite dget_ddel_ne|done|].
      rewrite dget_ddel_ne in He' by done. exists e'. split; [done|].
      destruct Hor as [|[Hcap Hle]]; [by left|right]. split; [|done].
      eapply over_capacity_ddel; [| |exact Hcap]; [apply (wf_data _ Hwf)|].
      apply (wf_dom _ Hwf). simpl. eauto.
Qed.

(** A clean-up pass never raises [KeyError] and leaves a clean storage. *)
Lemma remove_loop_spec fz size now h : forall d k2h,
  wf (mkTS fz size d h k2h) ->
  exists s', remove_loop fz size now h d k2h = Ok s' /\
    cleaned now (mkTS fz size d h k2h) s'.
Proof.
  induction h as [|[e k] h IH]; intros d k2h Hwf; simpl.
  - eexists; split; [done|]. pose proof (wf_empty_heap _ Hwf eq_refl) as Hd. simpl in Hd. subst.
    apply cleaned_refl; [done| intros; apply over_capacity_empty |].
    intros _ k e. unfold evict_time. simpl. destruct (dget k2h k) eqn:E; [|done].
    destruct (wf_entry _ Hwf _ _ E) as [_ Hin]. simpl in Hin. set_solver.
  - destruct (negb fz && _) eqn:Egd.
    + propify. destruct Egd as [-> Hwhy].
      case_decide as Hk.
      * assert (Hd : is_Some (dget d k)).
        { apply (wf_dom _ Hwf). simpl. eauto. }
        rewrite (pydel_ok d k) by done. simpl. rewrite (pydel_ok k2h k) by eauto. simpl.
        destruct (IH _ _ (wf_pop_live _ _ _ _ _ _ _ Hwf)) as (s' & -> & Hc).
        exists s'. split; [done|]. by apply cleaned_step_live.
      * destruct (IH _ _ (wf_pop_ghost _ _ _ _ _ _ _ Hwf Hk)) as (s' & -> & Hc).
        exists s'. split; [done|]. by apply cleaned_step_ghost.
    + eexists; split; [done|]. propify. apply cleaned_refl; [done|simpl; intros ->..].
      * by destruct Egd as [|[_ ?]].
      * intros k' e'. destruct Egd as [|[He _]]; [done|]. unfold evict_time. simpl.
        destruct (dget k2h k') as [p|] eqn:E; simpl; [|done]. intros. simplify_eq.
        destruct (wf_entry _ Hwf _ _ E) as [_ Hin].
        pose proof (sorted_heap_root _ _ _ (wf_sorted _ Hwf) Hin) as Hle.
        unfold ple, py_leb, prod_pyord, py_leb, Z_pyord in Hle. simpl in Hle.
        destruct (e <=? p.1) eqn:E2; [|done]. lia.
Qed.

Lemma remove_outdated_spec now s :
  wf s -> exists s', _remove_outdated now s = Ok s' /\ cleaned now s s'.
Proof. destruct s. apply remove_loop_spec. Qed.

(** ** The operations *)

Lemma wf_store_new fz size d h k2h k v e :
  wf (mkTS fz size d h k2h) ->
  wf (mkTS fz size (dset d k (VWE v e)) (heappush (e, k) h) (dset k2h k (e, k))).
Proof.
  intros [H1 H2 H3 H4 H5 H6]. split; simpl in *; eauto with py.
  - by apply heappush_sorted.
  - intros k'. destruct (decide (k = k')) as [->|].
    + rewrite !dget_dset_eq. split; eauto.
    + by rewrite !dget_dset_ne.
  - intros k' p. rewrite heappush_perm. destruct (decide (k = k')) as [->|].
    + rewrite dget_dset_eq. intros; simplify_eq. set_solver.
    + rewrite dget_dset_ne by done. intros Hp. apply H5 in Hp. set_solver.
  - intros k' p x. destruct (decide (k = k')) as [->|].
    + rewrite !dget_dset_eq. intros; simplify_eq. simpl. lia.
    + rewrite !dget_dset_ne by done. eauto.
Qed.

Lemma wf_store_rejected fz size d h k2h k e old :
  wf (mkTS fz size d h k2h) -> dget d k = Some old -> e <= expiration_time old ->
  wf (mkTS fz size d (heappush (e, k) h) (dset k2h k (e, k))).
Proof.
  intros [H1 H2 H3 H4 H5 H6] Hd He. split; simpl in *; eauto with py.
  - by apply heappush_sorted.
  - intros k'. destruct (decide (k = k')) as [->|].
    + rewrite dget_dset_eq, Hd. split; eauto.
    + by rewrite dget_dset_ne.
  - intros k' p. rewrite heappush_perm. destruct (decide (k = k')) as [->|].
    + rewrite dget_dset_eq. intros; simplify_eq. set_solver.
    + rewrite dget_dset_ne by done. intros Hp. apply H5 in Hp. set_solver.
  - intros k' p x. destruct (decide (k = k')) as [->|].
    + rewrite !dget_dset_eq, Hd. intros; simplify_eq. done.
    + rewrite !dget_dset_ne by done. eauto.
Qed.

(** Does [store] report success? *)
Definition accepts now s k e : bool :=
  negb ((e <? now) && negb (frozen s)) &&
  match dget (data s) k with Some old => expiration_time old <? e | None => true end.

Lemma store_spec now s k v e :
  wf s -> exists s', store now s k v e = Ok (s', accepts now s k e) /\ wf s' /\
    frozen s' = frozen s /\ maxsize s' = maxsize s.
Proof.
  intros Hwf. unfold store, accepts. destruct (_ && negb (frozen s)) eqn:Eg; [by eauto|].
  simpl. destruct (dget (data s) k) as [old|] eqn:Ed.
  - destruct (expiration_time old <? e) eqn:E; (eexists; split; [done|]); simpl.
    + split; [|done]. destruct s. by apply wf_store_new.
    + split; [|done]. destruct s. propify. by eapply wf_store_rejected.
  - destruct (remove_outdated_spec now
      (mkTS (frozen s) (maxsize s) (dset (data s) k (VWE v e))
         (heappush (e, k) (expiration_heap s)) (dset (key_to_heap s) k (e, k))))
      as (s' & -> & Hc); [destruct s; by apply wf_store_new|].
    eexists; split; [done|]. by destruct Hc.
Qed.

Lemma wf_delete fz size d h k2h k :
  wf (mkTS fz size d h k2h) -> wf (mkTS fz size (ddel d k) h (ddel k2h k)).
Proof.
  intros [W1 W2 W3 W4 W5 W6]. split; simpl in *; eauto with py.
  - intros k'. destruct (decide (k = k')) as [->|].
    + rewrite !dget_ddel_eq. split; intros [? ?]; done.
    + by rewrite !dget_ddel_ne.
  - intros k' p. destruct (decide (k = k')) as [->|]; [by rewrite dget_ddel_eq|].
    rewrite dget_ddel_ne by done. apply W5.
  - intros k' p x. destruct (decide (k = k')) as [->|]; [by rewrite dget_ddel_eq|].
    rewrite !dget_ddel_ne by done. apply W6.
Qed.

Lemma delitem_spec s k :
  wf s -> exists s', delitem s k = Ok s' /\ wf s' /\ frozen s' = frozen s /\
    maxsize s' = maxsize s /\ dget (data s') k = None /\
    (forall k', k <> k' -> dget (data s') k' = dget (data s) k' /\
                           dget (key_to_heap s') k' = dget (key_to_heap s) k').
Proof.
  intros Hwf. unfold delitem. destruct (dmem (key_to_heap s) k) eqn:E.
  - apply dmem_true in E. pose proof (proj2 (wf_dom s Hwf k) E) as Hd.
    rewrite (pydel_ok (data s)) by done. simpl. rewrite (pydel_ok (key_to_heap s)) by done.
    simpl. eexists. split; [done|]. simpl. rewrite dget_ddel_eq.
    split; [destruct s; by apply wf_delete|]. repeat split; auto; by apply dget_ddel_ne.
  - apply dmem_false in E. exists s. do 4 (split; [done|]). split; [|done].
    destruct (dget (data s) k) eqn:Ed; [|done].
    destruct (proj1 (wf_dom s Hwf k)); [eauto | congruence].
Qed.

Lemma skip_ghosts_spec h k2h k0 p0 :
  sorted_heap h -> dget k2h k0 = Some p0 -> p0.2 = k0 ->
  (forall k p, dget k2h k = Some p -> p.2 = k /\ p ∈ h) ->
  exists e k h', skip_ghosts h k2h = Ok ((e, k) :: h') /\ sorted_heap ((e, k) :: h') /\
    dget k2h k = Some (e, k) /\
    (forall k' p, dget k2h k' = Some p -> p ∈ (e, k) :: h').
Proof.
  intros Hs H0 Hk0. induction h as [|[e k] h IH]; intros Hin; simpl.
  - destruct (Hin _ _ H0) as [_ ?]. set_solver.
  - case_decide as Hk.
    + exists e, k, h. repeat split; auto. intros k' p Hp. by apply Hin in Hp as [_ ?].
    + apply IH; [by eapply sorted_heap_tail|]. intros k' p Hp.
      destruct (Hin _ _ Hp) as [Hk' Hi]. split; [done|].
      apply elem_of_cons in Hi as [->|]; [|done]. simpl in *. by subst.
Qed.

Lemma top_spec now s :
  wf s -> exists s' r, top now s = Ok (s', r) /\ wf s' /\ frozen s' = frozen s /\
    maxsize s' = maxsize s /\
    (exists s1, cleaned now s s1 /\ data s' = data s1 /\ key_to_heap s' = key_to_heap s1) /\
    match r with
    | None => data s' = []
    | Some (k, x) => dget (data s') k = Some x /\
        exists e, evict_time s' k = Some e /\
          forall k' e', evict_time s' k' = Some e' -> e <= e'
    end.
Proof.
  intros Hwf. unfold top. destruct (remove_outdated_spec now s Hwf) as (s1 & -> & Hc).
  simpl. case_decide as Hd.
  { exists s1, None. pose proof Hc as []. do 4 (split; [done|]). split; [by exists s1 | done]. }
  pose proof Hc as [C1 C2 C3 _ _ _ _ _].
  destruct (data s1) as [|[k0 x0] t] eqn:Ed; [done|].
  destruct (proj1 (wf_dom s1 C1 k0)) as [p0 Hp0].
  { rewrite Ed. simpl. rewrite decide_True by done. eauto. }
  destruct (skip_ghosts_spec (expiration_heap s1) (key_to_heap s1) k0 p0)
    as (e & k & h' & -> & Hs & Hk & Hin); [apply C1|done|by apply (wf_entry s1 C1)|apply C1|].
  simpl. destruct (proj2 (wf_dom s1 C1 k)) as [x Hx]; [eauto|]. rewrite Ed in Hx.
  unfold dgetitem. rewrite Hx. simpl. eexists _, _. split; [done|]. split.
  { destruct C1 as [W1 W2 W3 W4 W5 W6]. split; simpl in *; auto.
    intros k' p Hp. split; [by apply (W5 _ _ Hp) | by eapply Hin]. }
  simpl. do 2 (split; [done|]). split; [exists s1; simpl; by rewrite Ed|].
  rewrite Ed. split; [done|]. exists e. unfold evict_time. simpl. rewrite Hk. split; [done|].
  intros k' e'. destruct (dget (key_to_heap s1) k') as [p|] eqn:Ep; [|done]. simpl. intros.
  simplify_eq. pose proof (sorted_heap_root _ _ _ Hs (Hin _ _ Ep)) as Hle.
  unfold ple, py_leb, prod_pyord, py_leb, Z_pyord in Hle. simpl in Hle.
  destruct (e <=? p.1) eqn:E2; [lia|done].
Qed.

(** ** Sequences of operations *)

Inductive op : Type :=
  | OStore (k : K) (v : V) (e : Z) | OGet (k : K) | OItems | OTop | OClear
  | OContains (k : K) | OLen | ODel (k : K) | OFreeze (b : bool).

Definition run_op s (top_ : Z * op) : result TimedStorage :=
  let '(now, o) := top_ in
  match o with
  | OStore k v e => rmap fst (store now s k v e)
  | OGet k => rmap fst (get now s k)
  | OItems => rmap fst (items now s)
  | OTop => rmap fst (top now s)
  | OClear => Ok (clear s)
  | OContains k => rmap fst (contains now s k)
  | OLen => rmap fst (len now s)
  | ODel k => delitem s k
  | OFreeze b => Ok (set_frozen s b)
  end.

Lemma run_op_clean now s o : o ∈ [OItems; OLen] \/ (exists k, o = OGet k \/ o = OContains k) ->
  run_op s (now, o) = _remove_outdated now s.
Proof.
  intros [Ho|(k & [->| ->])]; simpl; unfold get, items, len, contains.
  - apply elem_of_cons in Ho as [->|Ho]; [|apply list_elem_of_singleton in Ho as ->];
      simpl; unfold items, len; by destruct (_remove_outdated now s).
  - by destruct (_remove_outdated now s).
  - by destruct (_remove_outdated now s).
Qed.

Lemma run_op_wf s to : wf s -> exists s', run_op s to = Ok s' /\ wf s'.
Proof.
  intros Hwf. destruct to as [now o].
  destruct (remove_outdated_spec now s Hwf) as (s1 & Hr & Hc).
  destruct o; try (rewrite run_op_clean by set_solver); simpl.
  - destruct (store_spec now s k v e Hwf) as (s' & -> & ? & _). eauto.
  - eauto using cl_wf.
  - eauto using cl_wf.
  - destruct (top_spec now s Hwf) as (s' & r & -> & ? & _). eauto.
  - eauto using wf_clear.
  - eauto using cl_wf.
  - eauto using cl_wf.
  - destruct (delitem_spec s k Hwf) as (s' & -> & ? & _). eauto.
  - eauto using wf_set_frozen.
Qed.

(** A value that will be served until its expiration time. *)
Definition holds s k v e : Prop :=
  wf s /\ maxsize s = None /\ dget (data s) k = Some (VWE v e) /\
  dget (key_to_heap s) k = Some (e, k).

Lemma holds_cleaned now s s' k v e :
  holds s k v e -> cleaned now s s' -> now <= e -> holds s' k v e.
Proof.
  intros (Hwf & Hm & Hd & Hk) Hc He. destruct (dget (data s') k) as [x|] eqn:E.
  - destruct (cl_kept _ _ _ Hc _ _ E) as [Hx Hk']. rewrite Hd in Hx. simplify_eq.
    split; [apply Hc|]. split; [by rewrite (cl_maxsize _ _ _ Hc)|]. split; congruence.
  - destruct (cl_dropped _ _ _ Hc _ _ Hd E) as (_ & e' & Hk' & [Hlt|[Hcap _]]).
    + rewrite Hk in Hk'. simplify_eq. lia.
    + rewrite Hm in Hcap. done.
Qed.

Lemma store_true_holds now s s' k v e :
  wf s -> maxsize s = None -> now <= e -> store now s k v e = Ok (s', true) -> holds s' k v e.
Proof.
  intros Hwf Hm He. unfold store. destruct (_ && negb (frozen s)); [done|].
  destruct (dget (data s) k) as [old|] eqn:Ed; [destruct (expiration_time old <? e) eqn:Eo|].
  - intros. simplify_eq. unfold holds. simpl. rewrite !dget_dset_eq.
    split; [|done]. destruct s. by apply wf_store_new.
  - done.
  - destruct (remove_outdated_spec now
      (mkTS (frozen s) (maxsize s) (dset (data s) k (VWE v e))
         (heappush (e, k) (expiration_heap s)) (dset (key_to_heap s) k (e, k))))
      as (s1 & -> & Hc); [destruct s; by apply wf_store_new|].
    simpl. intros. simplify_eq. eapply holds_cleaned; [|exact Hc|done].
    unfold holds. simpl. rewrite !dget_dset_eq. split; [|done]. destruct s. by apply wf_store_new.
Qed.

Lemma holds_store_other now s k v e k' v' e' :
  holds s k v e -> k <> k' -> now <= e ->
  exists s' b, store now s k' v' e' = Ok (s', b) /\ holds s' k v e.
Proof.
  intros (Hwf & Hm & Hd & Hk) Hne He.
  destruct (store_spec now s k' v' e' Hwf) as (s' & Hs & Hwf' & Hf & Hm').
  exists s', (accepts now s k' e'). split; [done|]. revert Hs. unfold store.
  destruct (_ && negb (frozen s)); [intros; by simplify_eq|].
  destruct (dget (data s) k') as [old|] eqn:Ed; [destruct (expiration_time old <? e')|].
  - intros. simplify_eq. unfold holds. simpl. by rewrite !dget_dset_ne by done.
  - intros. simplify_eq. unfold holds. simpl. by rewrite !dget_dset_ne by done.
  - destruct (remove_outdated_spec now
      (mkTS (frozen s) (maxsize s) (dset (data s) k' (VWE v' e'))
         (heappush (e', k') (expiration_heap s)) (dset (key_to_heap s) k' (e', k'))))
      as (s1 & -> & Hc); [destruct s; by apply wf_store_new|].
    simpl. intros. simplify_eq. eapply holds_cleaned; [|exact Hc|done].
    unfold holds. simpl. rewrite !dget_dset_ne by done. split; [|done].
    destruct s. by apply wf_store_new.
Qed.

(** Operations that may change what is stored under [k]. *)
Definition touches k (o : op) : bool :=
  match o with
  | OStore k' _ _ | ODel k' => bool_decide (k = k')
  | OClear => true
  | _ => false
  end.

Lemma holds_run_op s k v e now o :
  holds s k v e -> touches k o = false -> now <= e ->
  exists s', run_op s (now, o) = Ok s' /\ holds s' k v e.
Proof.
  intros Hh Ht He. pose proof Hh as (Hwf & Hm & Hd & Hk).
  destruct (remove_outdated_spec now s Hwf) as (s1 & Hr & Hc).
  destruct o; try done; try (rewrite run_op_clean by set_solver); simpl in *; propify.
  - destruct (holds_store_other now s k v e k0 v0 e0) as (s' & b & -> & ?); eauto.
  - eauto using holds_cleaned.
  - eauto using holds_cleaned.
  - destruct (top_spec now s Hwf) as (s' & r & -> & Hwf' & Hf & Hm' & (s2 & Hc2 & Ed & Ek) & _).
    exists s'. split; [done|]. destruct (holds_cleaned _ _ _ _ _ _ Hh Hc2 He) as (?&?&?&?).
    unfold holds. rewrite Ed, Ek. split; [done|]. split; [congruence|]. done.
  - eauto using holds_cleaned.
  - eauto using holds_cleaned.
  - destruct (delitem_spec s k0 Hwf) as (s' & -> & ? & ? & ? & ? & Ho).
    exists s'. split; [done|]. destruct (Ho k) as [Hod Hok]; [done|].
    unfold holds. rewrite Hod, Hok. split; [done|]. split; [congruence | done].
  - eexists; split; [done|]. unfold holds. simpl. split; [by apply wf_set_frozen | done].
Qed.

Lemma holds_run_ops l : forall s k v e,
  holds s k v e -> Forall (fun to => touches k to.2 = false /\ to.1 <= e) l ->
  exists s', foldM_r run_op s l = Ok s' /\ holds s' k v e.
Proof.
  induction l as [|[now o] l IH]; intros s k v e Hh Hl; cbn [foldM_r]; [eauto|].
  apply Forall_cons in Hl as [[Ht He] Hl]. simpl in Ht, He.
  destruct (holds_run_op s k v e now o Hh Ht He) as (s1 & -> & Hh1). simpl. eauto.
Qed.

Lemma holds_get now s k v e :
  holds s k v e -> now <= e -> exists s', get now s k = Ok (s', Some (VWE v e)).
Proof.
  intros Hh He. unfold get. destruct (remove_outdated_spec now s) as (s1 & -> & Hc); [apply Hh|].
  simpl. destruct (holds_cleaned _ _ _ _ _ _ Hh Hc He) as (_ & _ & -> & _). eauto.
Qed.

(** * Theorems *)

(** C26: From an empty storage whose keys are totally ordered by [<] (comparing two of them never raises, as with the node ids,
    strings or integers alone), no sequence of operations at any clock readings
    raises: the dictionary, the heap and the entry table stay in agreement, so
    neither [del self.data[...]] nor [self.expiration_heap[ROOT]] ever fails. *)
Theorem timed_storage_never_raises (fz : bool) (size : option nat) (l : list (Z * op)) :
  exists s, foldM_r run_op (init fz size) l = Ok s /\ wf s.
Proof. apply foldM_r_invariant; [intros; by apply run_op_wf | apply wf_init]. Qed.

(** A store that reports success keeps the pair at least until its expiration
    time: in an unbounded storage, whatever other operations run before that time,
    [get] returns the value, provided they do not store, delete or clear that key. *)
Theorem stored_value_survives now now' s s1 k v e (l : list (Z * op)) :
  wf s -> maxsize s = None -> now <= e -> store now s k v e = Ok (s1, true) ->
  Forall (fun to => touches k to.2 = false /\ to.1 <= e) l -> now' <= e ->
  exists s2 s3, foldM_r run_op s1 l = Ok s2 /\ get now' s2 k = Ok (s3, Some (VWE v e)).
Proof.
  intros Hwf Hm He Hs Hl He'. pose proof (store_true_holds _ _ _ _ _ _ Hwf Hm He Hs) as Hh.
  destruct (holds_run_ops l _ _ _ _ Hh Hl) as (s2 & -> & Hh2).
  destruct (holds_get now' _ _ _ _ Hh2 He') as (s3 & Hg). eauto.
Qed.

(** An unfrozen storage never serves a value past its expiration time. *)
Theorem get_never_expired now s s' k x :
  wf s -> frozen s = false -> get now s k = Ok (s', Some x) -> now <= expiration_time x.
Proof.
  intros Hwf Hf. unfold get. destruct (remove_outdated_spec now s Hwf) as (s1 & -> & Hc).
  simpl. intros Hg. injection Hg as -> Hx. pose proof (cl_wf _ _ _ Hc) as Hw1.
  destruct (proj1 (wf_dom _ Hw1 k)) as [p Hp]; [eauto|].
  pose proof (wf_evict _ Hw1 _ _ _ Hp Hx). transitivity p.1; [|done].
  apply (cl_fresh _ _ _ Hc k); [done|]. unfold evict_time. by rewrite Hp.
Qed.

(** A store that is rejected because a newer value exists still replaces the
    key's heap entry, so the newer value is dropped at the rejected store's
    expiration time [e'], before its own expiration time [e]. *)
Theorem rejected_store_shortens_lifetime now t s s1 k v v' e e' :
  wf s -> frozen s = false -> maxsize s = None ->
  store now s k v e = Ok (s1, true) -> now <= e' -> e' < e -> e' < t ->
  exists s2 s3, store now s1 k v' e' = Ok (s2, false) /\ get t s2 k = Ok (s3, None).
Proof.
  intros Hwf Hf Hm Hs He' Hlt Ht.
  assert (Hf1 : frozen s1 = false).
  { destruct (store_spec now s k v e Hwf) as (s' & Hs' & _ & Hf' & _). congruence. }
  destruct (store_true_holds now s s1 k v e) as (Hwf1 & Hm1 & Hd1 & Hk1); [done..|lia|done|].
  unfold store. rewrite Hd1. replace (e' <? now) with false by (symmetry; lia). simpl.
  replace (e <? e') with false by (symmetry; lia). eexists.
  set (s2 := mkTS _ _ _ _ _).
  assert (Hwf2 : wf s2).
  { subst s2. destruct s1. eapply wf_store_rejected; simpl in *; eauto. simpl. lia. }
  unfold get. destruct (remove_outdated_spec t s2 Hwf2) as (s3 & -> & Hc).
  exists s3. split; [done|]. simpl. destruct (dget (data s3) k) as [x|] eqn:E; [|done].
  destruct (cl_kept _ _ _ Hc _ _ E) as [_ Hk3].
  assert (t <= e'); [|lia].
  apply (cl_fresh _ _ _ Hc k); [done|]. unfold evict_time. rewrite Hk3. simpl.
  by rewrite dget_dset_eq.
Qed.

Definition within (n : nat) s : Prop :=
  wf s /\ frozen s = false /\ maxsize s = Some n /\ (length (data s) <= n)%nat.

Lemma within_cleaned n now s s' :
  cleaned now s s' -> frozen s = false -> maxsize s = Some n -> within n s'.
Proof.
  intros Hc Hf Hm. pose proof (cl_capacity _ _ _ Hc Hf) as Hcap. rewrite Hm in Hcap.
  simpl in Hcap. propify. split; [apply Hc|].
  by rewrite (cl_frozen _ _ _ Hc), (cl_maxsize _ _ _ Hc).
Qed.

Lemma within_store n now s k v e :
  within n s -> exists s' b, store now s k v e = Ok (s', b) /\ within n s'.
Proof.
  intros (Hwf & Hf & Hm & Hl). destruct (store_spec now s k v e Hwf) as (s' & Hs & Hwf' & Hf' & Hm').
  exists s', (accepts now s k e). split; [done|].
  split; [done|]. split; [congruence|]. split; [congruence|]. revert Hs. unfold store.
  destruct (_ && negb (frozen s)); [intros; by simplify_eq|].
  destruct (dget (data s) k) as [old|] eqn:Ed; [destruct (expiration_time old <? e)|].
  - intros. simplify_eq. simpl. rewrite dset_length, (proj2 (dmem_true _ _)); [done|eauto].
  - intros. by simplify_eq.
  - set (s0 := mkTS _ _ (dset _ _ _) _ _).
    destruct (remove_outdated_spec now s0) as (s1 & -> & Hc); [destruct s; by apply wf_store_new|].
    simpl. intros. simplify_eq.
    destruct (within_cleaned n _ _ _ Hc) as (_ & _ & _ & ?); done.
Qed.

(** A storage created with capacity [n] and never frozen holds at most [n]
    values after any sequence of operations. *)
Theorem capacity_respected (n : nat) (l : list (Z * op)) :
  Forall (fun to => forall b, to.2 <> OFreeze b) l ->
  exists s, foldM_r run_op (init false (Some (S n))) l = Ok s /\ (length (data s) <= S n)%nat.
Proof.
  intros Hl. assert (Hi : within (S n) (init false (Some (S n)))).
  { split; [apply wf_init|]. simpl. repeat split. lia. }
  enough (exists s, foldM_r run_op (init false (Some (S n))) l = Ok s /\ within (S n) s)
    as (s & ? & _ & _ & _ & ?) by eauto.
  revert Hi. generalize (init false (Some (S n))). induction l as [|[now o] l IH]; intros s Hs.
  { eauto. }
  apply Forall_cons in Hl as [Hno Hl]. simpl in Hno. cbn [foldM_r].
  enough (exists s', run_op s (now, o) = Ok s' /\ within (S n) s') as (s' & -> & ?).
  { simpl. by apply IH. }
  pose proof Hs as (Hwf & Hf & Hm & Hle).
  destruct (remove_outdated_spec now s Hwf) as (s1 & Hr & Hc).
  destruct o; try (rewrite run_op_clean by set_solver); simpl; try by eauto using within_cleaned.
  - destruct (within_store (S n) now s k v e Hs) as (s' & b & -> & ?). eauto.
  - destruct (top_spec now s Hwf) as (s' & r & -> & ? & Hf' & Hm' & (s2 & Hc2 & Ed & _) & _).
    exists s'. split; [done|]. destruct (within_cleaned _ _ _ _ Hc2 Hf Hm) as (_ & _ & _ & ?).
    split; [done|]. rewrite Ed. split; [congruence|]. split; [congruence|done].
  - eexists. split; [done|]. split; [apply wf_clear|]. simpl. repeat split; [done | done | lia].
  - destruct (delitem_spec s k Hwf) as (s' & Hd & ? & Hf' & Hm' & _). exists s'. split; [done|].
    split; [done|]. split; [congruence|]. split; [congruence|].
    revert Hd. unfold delitem. destruct (dmem _ _) eqn:E; [|intros; by simplify_eq].
    apply dmem_true in E. apply (wf_dom s Hwf) in E.
    rewrite (pydel_ok (data s)) by done. simpl. unfold pydel. destruct (dmem _ _); [|done].
    simpl. intros. simplify_eq. simpl. pose proof (ddel_length (data s) k (wf_data s Hwf) E). lia.
Qed.

(** [top] returns a stored pair whose eviction time is the earliest of all
    stored keys, or nothing exactly when the storage is empty. *)
Theorem top_is_earliest now s :
  wf s -> exists s' r, top now s = Ok (s', r) /\ wf s' /\
    match r with
    | None => data s' = []
    | Some (k, x) => dget (data s') k = Some x /\ exists e, evict_time s' k = Some e /\
          forall k' e', evict_time s' k' = Some e' -> e <= e'
    end.
Proof. intros Hwf. destruct (top_spec now s Hwf) as (s' & r & ? & ? & _ & _ & _ & ?). eauto. Qed.
End TimedStorage.
Arguments TimedStorage : clear implicits.

(** ** Keys that cannot be compared *)

Section MixedKeys.
Context {K V : Type} `{EqK : EqDecision K}.
(** [<] on keys; it raises [TypeError] for, say, an integer and a string. *)
Variable lt : K -> K -> result bool.
Implicit Types (s : TimedStorage K V) (k : K) (e now : Z) (h : list (Z * K)).

(** The generated [HeapEntry.__lt__] compares tuples: the keys only when the expiration times are equal. *)
Definition entry_lt (x y : Z * K) : result bool :=
  if x.1 =? y.1 then if decide (x.2 = y.2) then Ok false else lt x.2 y.2 else Ok (x.1 <? y.1).

(** The last part of [heapq.heappush]: the entry at [pos] moves up while it is smaller than its parent; the list as it is when a
    comparison raises.  The position at least halves, so [pos] steps are enough. *)
Fixpoint siftdown (fuel : nat) h (pos : nat) : list (Z * K) * result unit :=
  match fuel, pos with
  | S fuel', S p =>
      let parentpos := Nat.div2 p in
      match h !! pos, h !! parentpos with
      | Some newitem, Some parent =>
          match entry_lt newitem parent with
          | Raise x => (h, Raise x)
          | Ok true => siftdown fuel' (<[parentpos := newitem]> (<[pos := parent]> h)) parentpos
          | Ok false => (h, Ok tt)
          end
      | _, _ => (h, Ok tt)
      end
  | _, _ => (h, Ok tt)
  end.

Definition push_entry (x : Z * K) h : list (Z * K) * result unit := siftdown (length h) (h ++ [x]) (length h).

(** [store] up to and including [heappush], with the storage an exception leaves behind. *)
Definition store_entry now s k e : TimedStorage K V * result unit :=
  if (e <? now) && negb (frozen s) then (s, Ok tt)
  else
    let '(h, r) := push_entry (e, k) (expiration_heap s) in
    (mkTS (frozen s) (maxsize s) (data s) h (dset (key_to_heap s) k (e, k)), r).

(** More fuel than the position changes nothing. *)
Lemma siftdown_fuel fuel : forall fuel' h pos, (pos <= fuel)%nat -> (pos <= fuel')%nat -> siftdown fuel h pos = siftdown fuel' h pos.
Proof.
  induction fuel as [|fuel IH]; intros fuel' h pos H1 H2; destruct pos as [|p]; [by destruct fuel'|lia|by destruct fuel'|].
  destruct fuel' as [|fuel']; [lia|]. cbn [siftdown]. pose proof (Nat.le_div2_diag_l p).
  destruct (h !! S p), (h !! Nat.div2 p); try done. destruct (entry_lt _ _) as [[]|]; [|done..]. apply IH; lia.
Qed.

Lemma siftdown_total fuel : (forall a b, exists c, lt a b = Ok c) -> forall h pos, (siftdown fuel h pos).2 = Ok tt.
Proof.
  intros Hlt. induction fuel as [|fuel IH]; intros h pos; [done|]. destruct pos as [|p]; [done|]. cbn [siftdown].
  destruct (h !! S p) as [x|]; [|done]. destruct (h !! Nat.div2 p) as [y|]; [|done].
  unfold entry_lt. destruct (x.1 =? y.1); [destruct (decide _); [done|]; destruct (Hlt x.2 y.2) as [c ->]|]; [destruct c|destruct (x.1 <? y.1)];
    first [done|apply IH].
Qed.

(** If no comparison raises, neither does this part of [store]. *)
Lemma comparable_keys_stored now s k e : (forall a b, exists c, lt a b = Ok c) -> (store_entry now s k e).2 = Ok tt.
Proof.
  intros Hlt. unfold store_entry. destruct (_ && _); [done|]. unfold push_entry.
  pose proof (siftdown_total (length (expiration_heap s)) Hlt (expiration_heap s ++ [(e, k)]) (length (expiration_heap s))) as H.
  by destruct (siftdown _ _ _).
Qed.

(** A new key that expires together with the entry its own is first compared with, and cannot be compared with that key, makes
    [store] raise after [key_to_heap] was changed: the storage has an entry for a key without a value, and deleting
    the key raises [KeyError]. *)
Theorem incomparable_key_breaks_storage now s k k0 e x :
  now <= e -> dget (data s) k = None -> k <> k0 -> lt k k0 = Raise x ->
  expiration_heap s !! Nat.div2 (pred (length (expiration_heap s))) = Some (e, k0) ->
  exists s', store_entry now s k e = (s', Raise x) /\
    is_Some (dget (key_to_heap s') k) /\ dget (data s') k = None /\ delitem s' k = Raise KeyError.
Proof.
  intros He Hd Hne Hlt Hp. unfold store_entry. replace (e <? now) with false by (symmetry; lia). cbn [andb].
  unfold push_entry. destruct (length (expiration_heap s)) as [|n] eqn:El.
  { by rewrite (nil_length_inv _ El) in Hp. }
  cbn [siftdown pred] in *. rewrite <- El, lookup_app_r, Nat.sub_diag by done. cbn [lookup list_lookup].
  rewrite lookup_app_l by (by eapply lookup_lt_Some). rewrite Hp. unfold entry_lt. cbn [fst snd].
  rewrite Z.eqb_refl, decide_False, Hlt by done. eexists. split; [reflexivity|]. cbn. split_and!.
  - rewrite dget_dset_eq. eauto.
  - done.
  - unfold delitem. cbn. rewrite (proj2 (dmem_true _ _)) by (rewrite dget_dset_eq; eauto). unfold pydel.
    by rewrite (proj2 (dmem_false _ _)).
Qed.
End MixedKeys.

(** ** Witnesses *)

Definition demo : TimedStorage Z Z := init false None.

Lemma stored_value_survives_witness :
  exists s2 s3 : TimedStorage Z Z,
    foldM_r run_op (mkTS false None [(7, VWE 70 100)] [(100, 7)] [(7, (100, 7))])
      [(20, OStore 8 80 30); (40, OGet 8); (50, OTop)] = Ok s2 /\
    get 100 s2 7 = Ok (s3, Some (VWE 70 100)).
Proof.
  apply (stored_value_survives 10 100 demo _ 7 70 100
           [(20, OStore 8 80 30); (40, OGet 8); (50, OTop)]).
  - apply wf_init.
  - reflexivity.
  - lia.
  - vm_compute. reflexivity.
  - repeat constructor; simpl; lia.
  - lia.
Defined.

Lemma get_never_expired_witness : 30 <= expiration_time (VWE 70 100).
Proof.
  apply (get_never_expired 30 (mkTS (K:=Z) false None [(7, VWE 70 100)] [(100, 7)] [(7, (100, 7))])
           (mkTS false None [(7, VWE 70 100)] [(100, 7)] [(7, (100, 7))]) 7 (VWE 70 100)).
  - destruct (store_true_holds 10 demo
      (mkTS false None [(7, VWE 70 100)] [(100, 7)] [(7, (100, 7))]) 7 70 100) as [Hw _];
      [apply wf_init | reflexivity | lia | vm_compute; reflexivity | exact Hw].
  - reflexivity.
  - vm_compute. reflexivity.
Defined.

Lemma rejected_store_shortens_lifetime_witness :
  exists s2 s3 : TimedStorage Z Z,
    store 10 (mkTS false None [(7, VWE 70 100)] [(100, 7)] [(7, (100, 7))]) 7 71 50 = Ok (s2, false) /\
    get 60 s2 7 = Ok (s3, None).
Proof.
  apply (rejected_store_shortens_lifetime 10 60 demo _ 7 70 71 100 50);
    [apply wf_init | reflexivity | reflexivity | vm_compute; reflexivity | lia | lia | lia].
Defined.

Lemma capacity_respected_witness :
  exists s : TimedStorage Z Z,
    foldM_r run_op (init false (Some 2%nat))
      [(0, OStore 1 10 30); (0, OStore 2 20 10); (0, OStore 3 30 20)] = Ok s /\
    (length (data s) <= 2)%nat.
Proof.
  apply (capacity_respected 1 [(0, OStore 1 10 30); (0, OStore 2 20 10); (0, OStore 3 30 20)]).
  repeat constructor; intros b; discriminate.
Defined.

Lemma top_is_earliest_witness :
  exists (s' : TimedStorage Z Z) r, top 0 demo = Ok (s', r) /\ wf s' /\
    match r with
    | None => data s' = []
    | Some (k, x) => dget (data s') k = Some x /\ exists e, evict_time s' k = Some e /\
          forall k' e', evict_time s' k' = Some e' -> e <= e'
    end.
Proof. apply (top_is_earliest 0 demo). apply wf_init. Defined.

Lemma timed_storage_never_raises_witness :
  exists s : TimedStorage Z Z,
    foldM_r run_op (init false None) [(0, OStore 1 10 30); (5, ODel 1); (6, OTop)] = Ok s /\ wf s.
Proof. apply (timed_storage_never_raises false None). Defined.

(** Keys that are integers or strings: [1 < 'a'] raises [TypeError]. *)
Definition mixed_lt (a b : Z + string) : result bool :=
  match a, b with
  | inl x, inl y => Ok (x <? y)
  | inr x, inr y => Ok (String.ltb x y)
  | _, _ => Raise TypeError
  end.

Abbreviation one_key := (mkTS (V:=Z) false None [(inl 1, VWE 10 30)] [(30, inl 1)] [(inl 1, (30, inl 1))]).

Lemma incomparable_key_breaks_storage_witness :
  exists s', store_entry mixed_lt 5 one_key (inr "a"%string) 30 = (s', Raise TypeError) /\
    delitem s' (inr "a"%string) = Raise KeyError.
Proof.
  destruct (incomparable_key_breaks_storage mixed_lt 5 one_key (inr "a"%string) (inl 1) 30 TypeError) as (s' & H & _ & _ & Hd);
    [lia|reflexivity|discriminate|reflexivity|reflexivity|].
  exists s'. split; [exact H|exact Hd].
Defined.
