(* ===== verification/DHTID.v ===== *)
(** * DHT identifiers ([mesh/dht/routing.py], class [DHTID])

    A [DHTID] is an integer in [0, 2^160).  The hash function and the message
    serializer it is generated with are parameters. *)

From Stdlib Require Import Ascii.
From S2P Require Import Prelude.

(** A [bytes] object, and a literal. *)
Abbreviation bytes := (list Z).

Definition lit (s : string) : bytes := map (fun c => Z.of_N (N_of_ascii c)) (String.list_ascii_of_string s).

Definition is_byte (b : Z) : Prop := 0 <= b < 256.

Definition HASH_NBYTES : Z := 20.
Definition ID_BITS : Z := HASH_NBYTES * 8.
Definition MIN : Z := 0.
Definition MAX : Z := 2 ^ (HASH_NBYTES * 8).

Definition valid_id (x : Z) : Prop := MIN <= x < MAX.

(** [DHTID.__new__] *)
Definition new (value : Z) : result Z :=
  let* _ := py_assert ((MIN <=? value) && (value <? MAX)) in Ok value.

(** [int.from_bytes(raw, "big")] *)
Definition from_be (raw : bytes) : Z := foldl (fun acc b => acc * 256 + b) 0 raw.

(** [x.to_bytes(n, "big")] *)
Fixpoint to_be (n : nat) (x : Z) : bytes :=
  match n with
  | O => []
  | S n' => (x / 2 ^ (8 * Z.of_nat n')) mod 256 :: to_be n' x
  end.

(** [DHTID.to_bytes] and [DHTID.from_bytes] *)
Definition to_bytes (x : Z) : result bytes :=
  if (0 <=? x) && (x <? 2 ^ (8 * HASH_NBYTES)) then Ok (to_be (Z.to_nat HASH_NBYTES) x)
  else Raise OverflowError.

Definition from_bytes (raw : bytes) : result Z := new (from_be raw).

(** [DHTID.xor_distance] for one identifier and for several. *)
Definition xor_distance (a b : Z) : Z := Z.lxor a b.
Definition xor_distances (a : Z) (others : list Z) : list Z := map (xor_distance a) others.

(** [DHTID.longest_common_prefix_length]: the identifiers as 160 binary digits,
    and [os.path.commonprefix] on them (that of the least and the greatest). *)
Definition id_bits (x : Z) : list bool :=
  map (fun i => Z.testbit x (ID_BITS - 1 - Z.of_nat i)) (seq 0 (Z.to_nat ID_BITS)).

Fixpoint common_prefix (a b : list bool) : list bool :=
  match a, b with
  | x :: a', y :: b' => if eqb x y then x :: common_prefix a' b' else []
  | _, _ => []
  end.

Definition longest_common_prefix_length (ids : list Z) : nat :=
  match ids with
  | [] => 0
  | x :: t => length (foldl common_prefix (id_bits x) (map id_bits t))
  end.

Section generate.
(** [hashlib.sha1(...).digest()] and [MSGPackSerializer.dumps] *)
Context {Src : Type} (sha1 : bytes -> bytes) (dumps : Src -> bytes).

(** [DHTID.generate(source)] for a source that is not [bytes]. *)
Definition generate (source : Src) : result Z := new (from_be (sha1 (dumps source))).
End generate.

(** ** Lemmas *)

Lemma from_be_acc raw acc :
  foldl (fun a b => a * 256 + b) acc raw = acc * 256 ^ Z.of_nat (length raw) + from_be raw.
Proof.
  unfold from_be. revert acc. induction raw as [|b t IH]; intros acc; cbn [foldl length].
  - change (256 ^ Z.of_nat 0) with 1. lia.
  - rewrite IH. rewrite (IH (0 * 256 + b)). rewrite Nat2Z.inj_succ, Z.pow_succ_r by lia. lia.
Qed.

Lemma from_be_cons b t : from_be (b :: t) = b * 256 ^ Z.of_nat (length t) + from_be t.
Proof. unfold from_be at 1. simpl. by rewrite from_be_acc. Qed.

Lemma from_be_bound raw : Forall is_byte raw -> 0 <= from_be raw < 256 ^ Z.of_nat (length raw).
Proof.
  induction 1 as [|b t Hb Ht IH]; [done|]. rewrite from_be_cons. cbn [length].
  rewrite Nat2Z.inj_succ, Z.pow_succ_r by lia. unfold is_byte in Hb. nia.
Qed.

Lemma length_to_be n x : length (to_be n x) = n.
Proof. induction n; simpl; auto. Qed.

Lemma pow_256_8 m : 0 <= m -> 256 ^ m = 2 ^ (8 * m).
Proof. intros. change 256 with (2 ^ 8). by rewrite Z.pow_mul_r. Qed.

Lemma from_be_to_be n x : from_be (to_be n x) = x mod 2 ^ (8 * Z.of_nat n).
Proof.
  induction n as [|n IH]; cbn [to_be].
  - change (2 ^ (8 * Z.of_nat 0)) with 1. by rewrite Z.mod_1_r.
  - rewrite from_be_cons, length_to_be, IH, pow_256_8 by lia.
    replace (8 * Z.of_nat (S n)) with (8 * Z.of_nat n + 8) by lia.
    rewrite Z.pow_add_r by lia. change (2 ^ 8) with 256.
    assert (0 < 2 ^ (8 * Z.of_nat n)) by (apply Z.pow_pos_nonneg; lia).
    rewrite Z.rem_mul_r by lia. ring.
Qed.

Lemma to_be_bytes n x : Forall is_byte (to_be n x).
Proof. induction n; simpl; constructor; auto. apply Z.mod_pos_bound. lia. Qed.

Lemma to_be_from_be raw : Forall is_byte raw -> to_be (length raw) (from_be raw) = raw.
Proof.
  intros Hr. assert (Hgen : forall x, x mod 256 ^ Z.of_nat (length raw) = from_be raw ->
                               to_be (length raw) x = raw); [|by apply Hgen, Z.mod_small, from_be_bound].
  induction Hr as [|b t Hb Ht IH]; intros x Hx; [done|]. cbn [length to_be] in *.
  rewrite from_be_cons in Hx. pose proof (from_be_bound t Ht) as Hbt.
  rewrite Nat2Z.inj_succ, Z.pow_succ_r, Z.mul_comm in Hx by lia.
  set (p := 256 ^ Z.of_nat (length t)) in *.
  assert (0 < p) by (apply Z.pow_pos_nonneg; lia).
  rewrite Z.rem_mul_r in Hx by lia. rewrite <- pow_256_8 by lia. fold p.
  pose proof (Z.mod_pos_bound x p).
  destruct (Z.div_mod_unique p ((x / p) mod 256) b (x mod p) (from_be t)) as [E1 E2]; [lia..|].
  f_equal; [done|]. by apply IH.
Qed.

(** Two identifiers share the top bits above [2^m] iff their distance is below [2^m]. *)
Lemma xor_distance_block a b m :
  0 <= a -> 0 <= b -> 0 <= m ->
  xor_distance a b < 2 ^ m <-> a / 2 ^ m = b / 2 ^ m.
Proof.
  intros Ha Hb Hm. unfold xor_distance.
  assert (Hd : Z.lxor a b / 2 ^ m = Z.lxor (a / 2 ^ m) (b / 2 ^ m)).
  { rewrite <- !Z.shiftr_div_pow2 by done. apply Z.shiftr_lxor. }
  assert (0 <= Z.lxor a b) by (apply Z.lxor_nonneg; lia).
  assert (0 < 2 ^ m) by (apply Z.pow_pos_nonneg; lia). split; intros Hx.
  - rewrite Z.div_small in Hd by lia. symmetry in Hd. by apply Z.lxor_eq in Hd.
  - rewrite Hx, Z.lxor_nilpotent in Hd. apply Z.div_small_iff in Hd; lia.
Qed.

Lemma xor_distance_bound a b : valid_id a -> valid_id b -> valid_id (xor_distance a b).
Proof.
  unfold valid_id, MIN, MAX. intros Ha Hb. unfold xor_distance. split.
  - apply Z.lxor_nonneg. lia.
  - apply (xor_distance_block a b (HASH_NBYTES * 8)); [lia|lia|done|].
    rewrite !Z.div_small by lia. done.
Qed.

Lemma xor_distance_0 a b : xor_distance a b = 0 -> a = b.
Proof. apply Z.lxor_eq. Qed.

Lemma xor_distance_inj q a b : xor_distance q a = xor_distance q b -> a = b.
Proof.
  unfold xor_distance. intros Hq. apply Z.lxor_eq.
  rewrite <- (Z.lxor_0_l (Z.lxor a b)), <- (Z.lxor_nilpotent q) at 1.
  rewrite Z.lxor_assoc, (Z.lxor_comm a b), <- (Z.lxor_assoc q b a), <- Hq.
  rewrite (Z.lxor_comm q a), Z.lxor_assoc.
  rewrite (Z.lxor_comm q a), <- (Z.lxor_assoc a a q), Z.lxor_nilpotent, Z.lxor_0_l.
  apply Z.lxor_nilpotent.
Qed.

Lemma lxor_le_add a b : 0 <= a -> 0 <= b -> Z.lxor a b <= a + b.
Proof.
  intros Ha Hb.
  assert (Hc : a + b = Z.lxor a b + 2 * Z.land a b).
  { pose proof (Z.add_lor_land a b) as H1.
    assert (H2 : Z.lor a b = Z.lxor a b + Z.land a b).
    { assert (Hd : Z.land (Z.lxor a b) (Z.land a b) = 0).
      { apply Z.bits_inj'. intros n Hn. rewrite !Z.land_spec, Z.lxor_spec, Z.bits_0.
        by destruct (Z.testbit a n), (Z.testbit b n). }
      rewrite (Z.add_nocarry_lxor _ _ Hd), Z.lxor_lor by done.
      apply Z.bits_inj'. intros n Hn. rewrite !Z.lor_spec, Z.lxor_spec, Z.land_spec.
      by destruct (Z.testbit a n), (Z.testbit b n). }
    lia. }
  assert (0 <= Z.land a b) by (apply Z.land_nonneg; lia). lia.
Qed.

(** Identifiers and their 20 bytes. *)
Lemma to_from_bytes x : valid_id x -> exists b, to_bytes x = Ok b /\ length b = 20%nat /\ from_bytes b = Ok x.
Proof.
  unfold to_bytes, from_bytes, new, valid_id, MIN, MAX.
  intros Hx. replace ((0 <=? x) && (x <? 2 ^ (8 * HASH_NBYTES))) with true.
  2: { symmetry. rewrite Z.mul_comm. apply andb_true_iff. lia. }
  eexists. split; [done|]. rewrite length_to_be. split; [done|].
  rewrite from_be_to_be. change (8 * Z.of_nat (Z.to_nat HASH_NBYTES)) with (HASH_NBYTES * 8).
  rewrite Z.mod_small by lia.
  replace ((0 <=? x) && (x <? _)) with true; [done|]. symmetry. apply andb_true_iff. lia.
Qed.

(** * Theorems *)

(** Identifiers survive their wire format: a valid [DHTID] is serialized to
    20 bytes that deserialize to it, and every 20-byte string deserializes. *)
Theorem dhtid_bytes_roundtrip (x : Z) (raw : bytes) :
  (valid_id x -> exists b, to_bytes x = Ok b /\ length b = 20%nat /\ from_bytes b = Ok x) /\
  (Forall is_byte raw -> length raw = 20%nat ->
     exists y, from_bytes raw = Ok y /\ valid_id y /\ to_bytes y = Ok raw).
Proof.
  split; [apply to_from_bytes|]. unfold to_bytes, from_bytes, new, valid_id, MIN, MAX.
  intros Hr Hl. pose proof (from_be_bound raw Hr) as Hb. rewrite Hl in Hb.
  change (256 ^ Z.of_nat 20) with (2 ^ (HASH_NBYTES * 8)) in Hb. exists (from_be raw).
  replace ((0 <=? from_be raw) && (from_be raw <? 2 ^ (HASH_NBYTES * 8))) with true.
  2: { symmetry. apply andb_true_iff. lia. }
  split; [done|]. split; [done|]. rewrite (Z.mul_comm 8).
  replace ((0 <=? from_be raw) && (from_be raw <? 2 ^ (HASH_NBYTES * 8))) with true.
  2: { symmetry. apply andb_true_iff. lia. }
  f_equal. rewrite <- (to_be_from_be raw Hr) at 2. by rewrite Hl.
Qed.

Lemma dhtid_bytes_roundtrip_witness :
  exists b, to_bytes 258 = Ok b /\ length b = 20%nat /\ from_bytes b = Ok 258.
Proof.
  apply (proj1 (dhtid_bytes_roundtrip 258 [])). unfold valid_id. vm_compute. split; congruence.
Defined.

(** [xor_distance] is a metric on identifiers, it keeps distances in range, and
    no two identifiers are at the same distance from a query (so ties never occur). *)
Theorem xor_distance_metric (a b c : Z) :
  valid_id a -> valid_id b -> valid_id c ->
  valid_id (xor_distance a b) /\
  (xor_distance a b = 0 <-> a = b) /\
  xor_distance a b = xor_distance b a /\
  xor_distance a c <= xor_distance a b + xor_distance b c /\
  (xor_distance a b = xor_distance a c -> b = c).
Proof.
  intros Ha Hb Hc. split; [by apply xor_distance_bound|]. repeat split.
  - apply xor_distance_0.
  - intros ->. apply Z.lxor_nilpotent.
  - apply Z.lxor_comm.
  - unfold xor_distance. transitivity (Z.lxor (Z.lxor a b) (Z.lxor b c)).
    + rewrite Z.lxor_assoc, <- (Z.lxor_assoc b b c), Z.lxor_nilpotent, Z.lxor_0_l. lia.
    + apply lxor_le_add; apply xor_distance_bound; done.
  - apply xor_distance_inj.
Qed.

Lemma xor_distance_metric_witness :
  xor_distance 5 9 <= xor_distance 5 3 + xor_distance 3 9.
Proof.
  apply (xor_distance_metric 5 3 9); unfold valid_id; vm_compute; split; congruence.
Defined.
