(* ===== verification/Base58.v ===== *)
(** * Base58 ([mesh/utils/base58/__init__.py])

    The text form of peer identifiers.  Arguments are [bytes]; [BITCOIN_ALPHABET] is the default of every
    function.  [b58encode_check] and [b58decode_check] take the SHA-256 function as a parameter. *)

From S2P Require Import Prelude DHTID.

Definition BITCOIN_ALPHABET : bytes := lit "123456789ABCDEFGHJKLMNPQRSTUVWXYZabcdefghijkmnopqrstuvwxyz".
Definition RIPPLE_ALPHABET : bytes := lit "rpshnaf39wBUDNEGHJKLM4PQRST7VWXYZ2bcdeCg65jkm8oFqi1tuvAxyz".

(** [v.lstrip(chars)] and [v.rstrip()] *)
Fixpoint lstrip (chars v : bytes) : bytes :=
  match v with
  | [] => []
  | b :: v' => if bool_decide (b ∈ chars) then lstrip chars v' else v
  end.

Definition is_space (b : Z) : bool := bool_decide (b ∈ [32; 9; 10; 13; 11; 12]).
Fixpoint drop_spaces (v : bytes) : bytes :=
  match v with
  | [] => []
  | b :: v' => if is_space b then drop_spaces v' else v
  end.
Definition rstrip (v : bytes) : bytes := reverse (drop_spaces (reverse v)).

(** [int.bit_length] of a non-negative integer *)
Definition bit_length (x : Z) : Z := if x =? 0 then 0 else Z.log2 x + 1.

Section Base58.
Context (alphabet : bytes).

Definition base : Z := Z.of_nat (length alphabet).

(** [alphabet[idx:idx+1]] *)
Definition slice1 (idx : Z) : bytes := take 1 (drop (Z.to_nat idx) alphabet).

(** The loop of [b58encode_int]. *)
Fixpoint encode_loop (fuel : nat) (i : Z) (string : bytes) : bytes :=
  match fuel with
  | O => string
  | S n => if i =? 0 then string else encode_loop n (i / base) (slice1 (i mod base) ++ string)
  end.

(** [b58encode_int]; every iteration at least halves [i]. *)
Definition b58encode_int (i : Z) (default_one : bool) : bytes :=
  if (i =? 0) && default_one then slice1 0 else encode_loop (S (Z.to_nat (Z.log2 i))) i [].

(** [b58encode] *)
Definition b58encode (v : bytes) : bytes :=
  let stripped := lstrip [0] v in
  mjoin (replicate (length v - length stripped) (slice1 0)) ++ b58encode_int (from_be stripped) false.

(** One group of look-alikes: when exactly one is in the alphabet, the others decode like it. *)
Definition autofix_group (invmap : pydict Z Z) (group : bytes) : pydict Z Z :=
  match filter (fun c => dmem invmap c = true) group with
  | [pivot] =>
      match dget invmap pivot with
      | Some i => foldl (fun m alternative => dset m alternative i) invmap group
      | None => invmap
      end
  | _ => invmap
  end.

(** [_get_base58_decode_map] *)
Definition get_base58_decode_map (autofix : bool) : pydict Z Z :=
  let invmap := dict_of_list (zip alphabet (map Z.of_nat (seq 0 (length alphabet)))) in
  if autofix then foldl autofix_group invmap [lit "0Oo"; lit "Il1"] else invmap.

(** [b58decode_int] *)
Definition b58decode_int (v : bytes) (autofix : bool) : result Z :=
  let v := if bool_decide (32 ∈ alphabet) then v else rstrip v in
  let m := get_base58_decode_map autofix in
  foldM_r (fun decimal char =>
    match dget m char with
    | Some d => Ok (decimal * base + d)
    | None => Raise ValueError
    end) 0 v.

(** [b58decode] *)
Definition b58decode (v : bytes) (autofix : bool) : result bytes :=
  let v := rstrip v in
  let stripped := lstrip (slice1 0) v in
  let* acc := b58decode_int stripped autofix in
  Ok (to_be (Z.to_nat (Z.of_nat (length v - length stripped) + (bit_length acc + 7) / 8)) acc).

Section Check.
Context (sha256 : bytes -> bytes).

(** [b58encode_check] and [b58decode_check] *)
Definition b58encode_check (v : bytes) : bytes := b58encode (v ++ take 4 (sha256 (sha256 v))).

Definition b58decode_check (v : bytes) (autofix : bool) : result bytes :=
  let* decoded := b58decode v autofix in
  let n := (length decoded - 4)%nat in
  let '(body, check) := (take n decoded, drop n decoded) in
  if decide (check = take 4 (sha256 (sha256 body))) then Ok body else Raise ValueError.
End Check.
End Base58.

(** An alphabet of at least two characters, all different, none of them a space. *)
Class Alphabet (alphabet : bytes) : Prop := {
  alphabet_NoDup : NoDup alphabet;
  alphabet_base : (2 <= length alphabet)%nat;
  alphabet_space : Forall (fun c => is_space c = false) alphabet;
}.

#[export] Instance bitcoin_alphabet : Alphabet BITCOIN_ALPHABET.
Proof. split; [apply (bool_decide_unpack _); vm_compute; exact I | vm_compute; lia | repeat constructor]. Qed.

#[export] Instance ripple_alphabet : Alphabet RIPPLE_ALPHABET.
Proof. split; [apply (bool_decide_unpack _); vm_compute; exact I | vm_compute; lia | repeat constructor]. Qed.

(** ** Lemmas *)

Lemma lstrip_spec chars v :
  exists p, v = p ++ lstrip chars v /\ Forall (fun b => b ∈ chars) p /\
    match lstrip chars v with b :: _ => b ∉ chars | [] => True end.
Proof.
  induction v as [|b v (p & Hv & Hp & Hh)]; cbn [lstrip]; [by exists []|]. case_bool_decide as Hb.
  - exists (b :: p). simpl. rewrite <- Hv. auto.
  - by exists [].
Qed.

Lemma lstrip_app chars p v :
  Forall (fun b => b ∈ chars) p -> match v with b :: _ => b ∉ chars | [] => True end -> lstrip chars (p ++ v) = v.
Proof.
  intros Hp Hv. induction Hp as [|b p Hb Hp IH]; cbn [app lstrip]; [|by rewrite bool_decide_true].
  destruct v; cbn [lstrip]; [done|]. by rewrite bool_decide_false.
Qed.

Lemma rstrip_id v : Forall (fun b => is_space b = false) v -> rstrip v = v.
Proof.
  unfold rstrip. intros Hv. rewrite <- (reverse_involutive v) at 2. f_equal.
  destruct (reverse v) as [|b w] eqn:E; [done|]. simpl.
  assert (Hb : b ∈ v) by (rewrite <- (reverse_involutive v), E, elem_of_reverse; set_solver).
  rewrite Forall_forall in Hv. by rewrite (Hv b Hb).
Qed.

Lemma bit_length_bytes w :
  Forall is_byte w -> match w with b :: _ => b <> 0 | [] => True end ->
  (bit_length (from_be w) + 7) / 8 = Z.of_nat (length w).
Proof.
  intros Hw Hh. destruct w as [|b w]; [done|]. apply Forall_cons in Hw as [Hb Hw].
  pose proof (from_be_bound w Hw) as Hlo. rewrite from_be_cons. set (n := Z.of_nat (length w)) in *.
  rewrite pow_256_8 in * by lia. assert (0 < 2 ^ (8 * n)) by (apply Z.pow_pos_nonneg; lia).
  unfold is_byte in Hb. unfold bit_length. rewrite (proj2 (Z.eqb_neq _ 0)) by nia.
  assert (H1 : 8 * n <= Z.log2 (b * 2 ^ (8 * n) + from_be w)) by (apply Z.log2_le_pow2; nia).
  assert (H2 : Z.log2 (b * 2 ^ (8 * n) + from_be w) < 8 * n + 8).
  { apply Z.log2_lt_pow2; [nia|]. rewrite Z.pow_add_r by lia. nia. }
  cbn [length]. rewrite Nat2Z.inj_succ. fold n.
  symmetry. apply (Z.div_unique _ _ _ (Z.log2 (b * 2 ^ (8 * n) + from_be w) - 8 * n)); lia.
Qed.

Lemma from_be_zeros p w : Forall (fun b => b ∈ [0]) p -> from_be (p ++ w) = from_be w.
Proof.
  induction 1 as [|b p Hb Hp IH]; [done|]. cbn [app]. apply list_elem_of_singleton in Hb as ->.
  rewrite from_be_cons, IH. lia.
Qed.

Lemma dget_dupdate_notin (l : bytes) c : forall (d : pydict Z Z) (js : list Z),
  c ∉ l -> dget (dupdate d (zip l js)) c = dget d c.
Proof.
  induction l as [|x l IH]; intros d js Hc; [done|]. destruct js as [|j js]; [done|].
  apply not_elem_of_cons in Hc as [Hne Hc]. cbn [zip_with].
  change (dget (dupdate (dset d x j) (zip l js)) c = dget d c).
  rewrite IH by done. by apply dget_dset_ne.
Qed.

Lemma dget_zip_index (l : bytes) : forall k i c (d : pydict Z Z),
  NoDup l -> l !! i = Some c ->
  dget (dupdate d (zip l (map Z.of_nat (seq k (length l))))) c = Some (Z.of_nat (k + i)).
Proof.
  induction l as [|a l IH]; intros k i c d Hn Hi; [done|]. apply NoDup_cons in Hn as [Ha Hn].
  cbn [length seq map zip_with].
  change (dget (dupdate (dset d a (Z.of_nat k)) (zip l (map Z.of_nat (seq (S k) (length l))))) c = Some (Z.of_nat (k + i))).
  destruct i as [|i]; simpl in Hi.
  - simplify_eq. rewrite dget_dupdate_notin, dget_dset_eq by done. do 2 f_equal. lia.
  - rewrite (IH _ i) by done. do 2 f_equal. lia.
Qed.

Section RoundTrip.
Context (alphabet : bytes) `{HA : Alphabet alphabet}.
Local Abbreviation base := (base alphabet).

(** The digits of a number in this base, and the characters that stand for them. *)
Definition is_digit (d : Z) : Prop := 0 <= d < base.
Definition chars (ds : list Z) : bytes := mjoin (map (slice1 alphabet) ds).
Definition number (ds : list Z) : Z := foldl (fun acc d => acc * base + d) 0 ds.

Lemma number_acc ds acc : foldl (fun a d => a * base + d) acc ds = acc * base ^ Z.of_nat (length ds) + number ds.
Proof.
  unfold number. revert acc. induction ds as [|b t IH]; intros acc; cbn [foldl length].
  - change (base ^ Z.of_nat 0) with 1. lia.
  - rewrite IH. rewrite (IH (0 * base + b)). rewrite Nat2Z.inj_succ, Z.pow_succ_r by lia. lia.
Qed.

Lemma slice1_digit d : is_digit d -> exists c, slice1 alphabet d = [c] /\ alphabet !! Z.to_nat d = Some c.
Proof.
  intros Hd. unfold is_digit, Base58.base in Hd. destruct (lookup_lt_is_Some_2 alphabet (Z.to_nat d)) as [c Hc]; [lia|].
  exists c. split; [|done]. unfold slice1. by rewrite (drop_S _ _ _ Hc).
Qed.

Lemma slice1_0 : slice1 alphabet 0 = take 1 alphabet.
Proof. done. Qed.

Lemma encode_loop_spec n : forall i acc, 0 <= i < 2 ^ Z.of_nat n ->
  exists ds, encode_loop alphabet n i acc = chars ds ++ acc /\ Forall is_digit ds /\ number ds = i /\
    match ds with d :: _ => d <> 0 | [] => True end.
Proof.
  pose proof (alphabet_base (alphabet := alphabet)) as Hb.
  induction n as [|n IH]; intros i acc Hi; cbn [encode_loop].
  - exists []. change (2 ^ Z.of_nat 0) with 1 in Hi. split_and!; [done|done|change (number []) with 0; lia|done].
  - destruct (i =? 0) eqn:E; propify; [by exists []; subst|].
    assert (2 <= base) by (unfold Base58.base; lia).
    rewrite Nat2Z.inj_succ, Z.pow_succ_r in Hi by lia.
    pose proof (Z.mod_pos_bound i base). pose proof (Z.div_mod i base).
    destruct (IH (i / base) (slice1 alphabet (i mod base) ++ acc)) as (ds & -> & Hds & Hnum & Hh).
    { split; [apply Z.div_pos; lia|]. apply Z.div_lt_upper_bound; nia. }
    exists (ds ++ [i mod base]). split_and!.
    + unfold chars. rewrite map_app, join_app. cbn. by rewrite app_nil_r, app_assoc.
    + apply Forall_app. split; [done|]. repeat constructor; lia.
    + unfold number. rewrite foldl_app. fold (number ds). cbn. lia.
    + destruct ds as [|d ds]; [|done]. change (number []) with 0 in Hnum. simpl. lia.
Qed.

Lemma chars_elem ds c : Forall is_digit ds -> c ∈ chars ds -> c ∈ alphabet.
Proof.
  intros Hds. unfold chars. rewrite list_elem_of_join. intros (l & Hc & Hl).
  apply list_elem_of_In, in_map_iff in Hl as (d & <- & Hd). apply list_elem_of_In in Hd.
  rewrite Forall_forall in Hds. destruct (slice1_digit d (Hds d Hd)) as (c' & Hs & Ha). rewrite Hs in Hc.
  apply list_elem_of_singleton in Hc as ->. by apply list_elem_of_lookup_2 in Ha.
Qed.

Lemma no_spaces v : (forall c, c ∈ v -> c ∈ alphabet) -> rstrip v = v.
Proof.
  intros Hv. apply rstrip_id, Forall_forall. intros c Hc.
  pose proof (alphabet_space (alphabet := alphabet)) as Hs. rewrite Forall_forall in Hs. auto.
Qed.

Lemma decode_digits ds : forall acc, Forall is_digit ds ->
  foldM_r (fun decimal char =>
    match dget (get_base58_decode_map alphabet false) char with
    | Some d => Ok (decimal * base + d)
    | None => Raise ValueError
    end) acc (chars ds) = Ok (foldl (fun a d => a * base + d) acc ds).
Proof.
  induction ds as [|d ds IH]; intros acc Hds; [done|]. apply Forall_cons in Hds as [Hd Hds].
  destruct (slice1_digit d Hd) as (c & Hs & Hc). unfold chars. cbn [map mjoin list_join]. rewrite Hs.
  cbn [app foldM_r foldl].
  unfold get_base58_decode_map at 1, dict_of_list.
  rewrite (dget_zip_index alphabet 0 _ c [] (alphabet_NoDup (alphabet := alphabet)) Hc). simpl.
  unfold is_digit in Hd. rewrite Z2Nat.id by lia. apply (IH _ Hds).
Qed.

Lemma decode_int_chars ds : Forall is_digit ds -> b58decode_int alphabet (chars ds) false = Ok (number ds).
Proof.
  intros Hds. unfold b58decode_int. rewrite no_spaces by (intros; by eapply chars_elem).
  case_bool_decide; by apply decode_digits.
Qed.

(** Decoding an encoded text gives it back. *)
Lemma decode_encode v : Forall is_byte v -> b58decode alphabet (b58encode alphabet v) false = Ok v.
Proof.
  intros Hv. unfold b58encode, b58encode_int. rewrite andb_false_r.
  destruct (lstrip_spec [0] v) as (p & Hp & Hz & Hh). set (w := lstrip [0] v) in *.
  assert (Hw : Forall is_byte w) by (rewrite Hp in Hv; apply Forall_app in Hv; tauto).
  pose proof (from_be_bound w Hw) as Hlo.
  destruct (encode_loop_spec (S (Z.to_nat (Z.log2 (from_be w)))) (from_be w) []) as (ds & Hc & Hds & Hnum & Hd).
  { split; [lia|]. rewrite Nat2Z.inj_succ, Z2Nat.id by apply Z.log2_nonneg.
    destruct (decide (from_be w = 0)) as [->|]; [done|]. apply Z.log2_spec. lia. }
  rewrite Hc, app_nil_r. assert (Hlen : (length v - length w = length p)%nat) by (rewrite Hp, length_app; lia).
  rewrite Hlen. destruct (slice1_digit 0) as (one & Hone & H0).
  { pose proof (alphabet_base (alphabet := alphabet)). unfold is_digit, Base58.base. lia. }
  rewrite Hone. assert (Hj : mjoin (replicate (length p) [one]) = replicate (length p) one).
  { clear. induction (length p) as [|n IH]; [done|]. cbn. by f_equal. }
  rewrite Hj. unfold b58decode. rewrite no_spaces.
  2: { intros c [Hin|Hin]%elem_of_app; [|by eapply chars_elem]. apply elem_of_replicate in Hin as [-> _].
       by apply list_elem_of_lookup_2 in H0. }
  rewrite Hone, lstrip_app.
  - rewrite length_app, length_replicate. rewrite decode_int_chars by done. cbn [rbind]. rewrite Hnum.
    rewrite bit_length_bytes by (done || (destruct w; [done|]; set_solver)). f_equal.
    transitivity (to_be (length v) (from_be v)); [|by apply to_be_from_be].
    assert (Hval : from_be v = from_be w) by (rewrite Hp; by apply from_be_zeros). rewrite Hval. f_equal.
    apply (f_equal length) in Hp. rewrite length_app in Hp. lia.
  - apply Forall_forall. intros c Hin. apply elem_of_replicate in Hin as [-> _]. set_solver.
  - destruct ds as [|d ds]; [done|]. apply Forall_cons in Hds as [Hd' _].
    destruct (slice1_digit d Hd') as (c & Hs & Hc'). unfold chars. cbn [map mjoin list_join]. rewrite Hs. cbn [app].
    rewrite list_elem_of_singleton. intros ->. unfold is_digit in Hd'.
    pose proof (NoDup_lookup _ _ _ _ (alphabet_NoDup (alphabet := alphabet)) Hc' H0). lia.
Qed.
End RoundTrip.

(** * Theorems *)

(** The text form of a byte string decodes to it, with either alphabet, also when it starts with zero bytes
    or is empty; so distinct byte strings have distinct texts. *)
Theorem base58_roundtrip (alphabet v : bytes) :
  Alphabet alphabet -> Forall is_byte v -> b58decode alphabet (b58encode alphabet v) false = Ok v.
Proof. intros HA Hv. by apply decode_encode. Qed.

Lemma base58_roundtrip_witness :
  b58decode BITCOIN_ALPHABET (b58encode BITCOIN_ALPHABET [0; 0; 18; 32; 255]) false = Ok [0; 0; 18; 32; 255].
Proof. apply (base58_roundtrip BITCOIN_ALPHABET [0; 0; 18; 32; 255]); [apply bitcoin_alphabet | repeat constructor; lia]. Defined.

(** The checksum variant gives the text back as well, for a hash of at least four bytes. *)
Lemma check_roundtrip (sha256 : bytes -> bytes) (v : bytes) :
  Forall is_byte v -> (forall m, Forall is_byte (sha256 m) /\ (4 <= length (sha256 m))%nat) ->
  b58decode_check BITCOIN_ALPHABET sha256 (b58encode_check BITCOIN_ALPHABET sha256 v) false = Ok v.
Proof.
  intros Hv Hh. unfold b58decode_check, b58encode_check. destruct (Hh (sha256 v)) as [Hb Hl].
  rewrite (decode_encode BITCOIN_ALPHABET) by (apply Forall_app; auto using Forall_take). cbn [rbind].
  rewrite length_app, length_take, Nat.min_l by done. rewrite Nat.add_sub.
  rewrite take_app_length, drop_app_length. by rewrite decide_True.
Qed.

Example b58_text : b58encode BITCOIN_ALPHABET (lit "Hello World!") = lit "2NEpo7TZRRrLZSi2U".
Proof. reflexivity. Qed.
