(* ===== verification/Text.v ===== *)
(** * Texts: what the package uses of Python's [str]

    A [str] is the list of its code points.  UTF-8 with the strict and the [surrogateescape] error handlers, [int(s, 10)]
    and [str(n)], [split], [join] and [rstrip].  The Unicode database beyond ASCII is a parameter. *)

From S2P Require Import Prelude DHTID Base58.

Abbreviation text := (list Z).

(** The character database for code points beyond ASCII: decimal digits, white space, [str.upper]. *)
Class Unicode := {
  uni_decimal : Z -> option Z;
  uni_space : Z -> bool;
  uni_upper : Z -> text;
}.

(** ** UTF-8 *)

Definition surrogate (c : Z) : bool := (55296 <=? c) && (c <? 57344).

(** A Unicode scalar value *)
Definition scalar (c : Z) : bool := (0 <=? c) && (c <? 1114112) && negb (surrogate c).

Definition utf8_char (c : Z) : bytes :=
  if c <? 128 then [c]
  else if c <? 2048 then [192 + c / 64; 128 + c mod 64]
  else if c <? 65536 then [224 + c / 4096; 128 + c / 64 mod 64; 128 + c mod 64]
  else [240 + c / 262144; 128 + c / 4096 mod 64; 128 + c / 64 mod 64; 128 + c mod 64].

(** [s.encode("utf-8")]; a [UnicodeEncodeError] is a [ValueError]. *)
Fixpoint utf8_encode (s : text) : result bytes :=
  match s with
  | [] => Ok []
  | c :: s' => if scalar c then let* b := utf8_encode s' in Ok (utf8_char c ++ b) else Raise ValueError
  end.

Definition continuation (b : Z) : bool := (128 <=? b) && (b <? 192).

(** The first code point and the remaining bytes, when the bytes start with a valid sequence. *)
Definition utf8_next (b : bytes) : option (Z * bytes) :=
  match b with
  | [] => None
  | b0 :: r =>
      if b0 <? 128 then Some (b0, r)
      else if b0 <? 194 then None
      else if b0 <? 224 then
        match r with
        | b1 :: r => if continuation b1 then Some ((b0 - 192) * 64 + (b1 - 128), r) else None
        | _ => None
        end
      else if b0 <? 240 then
        match r with
        | b1 :: b2 :: r =>
            let c := (b0 - 224) * 4096 + (b1 - 128) * 64 + (b2 - 128) in
            if continuation b1 && continuation b2 && (2048 <=? c) && negb (surrogate c) then Some (c, r) else None
        | _ => None
        end
      else if b0 <? 245 then
        match r with
        | b1 :: b2 :: b3 :: r =>
            let c := (b0 - 240) * 262144 + (b1 - 128) * 4096 + (b2 - 128) * 64 + (b3 - 128) in
            if continuation b1 && continuation b2 && continuation b3 && (65536 <=? c) && (c <? 1114112)
            then Some (c, r) else None
        | _ => None
        end
      else None
  end.

(** [b.decode("utf-8")], and with the [surrogateescape] handler: a byte that does not start a valid sequence
    becomes the surrogate [0xDC00 + byte].  Every iteration consumes a byte. *)
Fixpoint utf8_decode_loop (escape : bool) (fuel : nat) (b : bytes) : result text :=
  match b, fuel with
  | [], _ => Ok []
  | _ :: _, O => Raise RuntimeError
  | b0 :: r0, S n =>
      match utf8_next b with
      | Some (c, r) => let* t := utf8_decode_loop escape n r in Ok (c :: t)
      | None => if escape then let* t := utf8_decode_loop escape n r0 in Ok (56320 + b0 :: t) else Raise ValueError
      end
  end.

Definition utf8_decode (b : bytes) : result text := utf8_decode_loop false (length b) b.

(** [os.fsdecode] and [os.fsencode], where the file system encoding is UTF-8. *)
Definition fsdecode (b : bytes) : result text := utf8_decode_loop true (length b) b.

Definition escaped (c : Z) : bool := (56448 <=? c) && (c <? 56576).

Fixpoint fsencode (s : text) : result bytes :=
  match s with
  | [] => Ok []
  | c :: s' =>
      if escaped c then let* b := fsencode s' in Ok (c - 56320 :: b)
      else if scalar c then let* b := fsencode s' in Ok (utf8_char c ++ b)
      else Raise ValueError
  end.

(** ** Decimal numbers *)

Definition is_decimal (c : Z) : bool := (48 <=? c) && (c <=? 57).

Fixpoint str_loop (fuel : nat) (n : Z) (acc : text) : text :=
  match fuel with
  | O => acc
  | S f => let acc := 48 + n mod 10 :: acc in if n <? 10 then acc else str_loop f (n / 10) acc
  end.

(** [str(n)] for a non-negative integer *)
Definition str_nat (n : Z) : text := str_loop (S (Z.to_nat (Z.log2 n))) n [].

(** A run of digits with single underscores between them: its value and what follows. *)
Fixpoint digit_run (acc : Z) (underscore : bool) (s : text) : option (Z * text) :=
  match s with
  | [] => if underscore then None else Some (acc, [])
  | c :: s' =>
      if is_decimal c then digit_run (acc * 10 + (c - 48)) false s'
      else if c =? 95 then (if underscore then None else digit_run acc true s')
      else if underscore then None else Some (acc, s)
  end.

Section Int.
Context `{Unicode}.

(** Characters beyond ASCII count as the space or digit they are. *)
Definition to_ascii (c : Z) : option Z :=
  if c <? 127 then Some c
  else if uni_space c then Some 32
  else match uni_decimal c with Some d => Some (48 + d) | None => None end.

(** [int(s, 10)]: white space around, a sign, digits. *)
Definition py_int (s : text) : result Z :=
  match mapM to_ascii s with
  | None => Raise ValueError
  | Some a =>
      let a := drop_spaces a in
      let '(sign, a) :=
        match a with
        | 43 :: a' => (1, a')
        | 45 :: a' => (-1, a')
        | _ => (1, a)
        end in
      match a with
      | c :: _ =>
          if is_decimal c then
            match digit_run 0 false a with
            | Some (v, rest) => if forallb is_space rest then Ok (sign * v) else Raise ValueError
            | None => Raise ValueError
            end
          else Raise ValueError
      | [] => Raise ValueError
      end
  end.

(** [s.upper()] *)
Definition upper_char (c : Z) : text :=
  if c <? 128 then [if (97 <=? c) && (c <=? 122) then c - 32 else c] else uni_upper c.
Definition upper (s : text) : text := mjoin (map upper_char s).
End Int.

(** [s.lower()] of an ASCII text *)
Definition lower_char (c : Z) : Z := if (65 <=? c) && (c <=? 90) then c + 32 else c.
Definition lower_ascii (s : text) : text := map lower_char s.

(** ** Splitting and joining *)

(** [s.split(sep)] for a separator of one character *)
Fixpoint split_on (sep : Z) (s : text) : list text :=
  match s with
  | [] => [[]]
  | c :: s' =>
      if c =? sep then [] :: split_on sep s'
      else match split_on sep s' with p :: ps => (c :: p) :: ps | [] => [[c]] end
  end.

(** [sep.join(parts)] *)
Fixpoint join_with (sep : Z) (parts : list text) : text :=
  match parts with
  | [] => []
  | [p] => p
  | p :: ps => p ++ sep :: join_with sep ps
  end.

(** [s.rstrip(c)] *)
Definition rstrip_char (c : Z) (s : text) : text := reverse (lstrip [c] (reverse s)).

(** ** Lemmas on UTF-8 *)

Ltac utf8_bits := Z.div_mod_to_equations; lia.

Ltac decide_tests :=
  repeat match goal with
  | |- context [Z.ltb ?a ?b] => first
      [ rewrite (proj2 (Z.ltb_lt a b)) by utf8_bits | rewrite (proj2 (Z.ltb_ge a b)) by utf8_bits ]
  | |- context [Z.leb ?a ?b] => first
      [ rewrite (proj2 (Z.leb_le a b)) by utf8_bits | rewrite (proj2 (Z.leb_gt a b)) by utf8_bits ]
  end.

Lemma scalar_spec c : scalar c = true <-> 0 <= c < 1114112 /\ ~ (55296 <= c < 57344).
Proof. unfold scalar, surrogate. rewrite !andb_true_iff, negb_true_iff, andb_false_iff. rewrite !Z.leb_le, !Z.ltb_lt, Z.leb_gt, Z.ltb_ge. lia. Qed.

Lemma utf8_char_nonempty c : utf8_char c <> [].
Proof. unfold utf8_char. repeat case_match; done. Qed.

Lemma utf8_next_char c rest : scalar c = true -> utf8_next (utf8_char c ++ rest) = Some (c, rest).
Proof.
  rewrite scalar_spec. intros [Hc Hs]. unfold utf8_char.
  destruct (Z.ltb_spec c 128); [|destruct (Z.ltb_spec c 2048); [|destruct (Z.ltb_spec c 65536)]];
    cbn [app utf8_next]; unfold continuation, surrogate; decide_tests; cbn [andb negb].
  - done.
  - do 2 f_equal. utf8_bits.
  - assert (E : (224 + c / 4096 - 224) * 4096 + (128 + c / 64 mod 64 - 128) * 64 + (128 + c mod 64 - 128) = c) by utf8_bits.
    rewrite E. destruct (Z.leb_spec 55296 c), (Z.ltb_spec c 57344); try done. lia.
  - do 2 f_equal. utf8_bits.
Qed.

Lemma utf8_next_inv b c r : Forall is_byte b -> utf8_next b = Some (c, r) -> scalar c = true /\ b = utf8_char c ++ r.
Proof.
  intros Hb. destruct b as [|b0 r0]; [done|]. apply Forall_cons in Hb as [H0 Hb]. unfold is_byte in *. cbn [utf8_next].
  destruct (Z.ltb_spec b0 128).
  { intros [= <- <-]. rewrite scalar_spec. unfold utf8_char. decide_tests. split; [lia|done]. }
  destruct (Z.ltb_spec b0 194); [done|]. unfold continuation, surrogate.
  destruct (Z.ltb_spec b0 224); [|destruct (Z.ltb_spec b0 240); [|destruct (Z.ltb_spec b0 245); [|done]]].
  - destruct r0 as [|b1 r1]; [done|]. destruct (_ && _) eqn:E; [|done]. propify. intros [= <- <-].
    rewrite scalar_spec. unfold utf8_char. decide_tests. split; [lia|]. cbn [app]. repeat f_equal; utf8_bits.
  - destruct r0 as [|b1 [|b2 r2]]; [done..|]. destruct (_ && _) eqn:E; [|done]. propify. intros [= <- <-].
    rewrite scalar_spec. unfold utf8_char. decide_tests. split; [lia|]. cbn [app]. repeat f_equal; utf8_bits.
  - destruct r0 as [|b1 [|b2 [|b3 r3]]]; [done..|]. destruct (_ && _) eqn:E; [|done]. propify. intros [= <- <-].
    rewrite scalar_spec. unfold utf8_char. decide_tests. split; [lia|]. cbn [app]. repeat f_equal; utf8_bits.
Qed.

Lemma utf8_char_bytes c : scalar c = true -> Forall is_byte (utf8_char c).
Proof.
  rewrite scalar_spec. intros [Hc _]. unfold utf8_char, is_byte.
  repeat case_match; propify; repeat constructor; utf8_bits.
Qed.

Lemma utf8_char_ascii c b : scalar c = true -> b ∈ utf8_char c -> b < 128 -> c = b.
Proof.
  rewrite scalar_spec. intros [Hc _]. unfold utf8_char.
  repeat case_match; propify; rewrite ?elem_of_cons, elem_of_nil; intros Hb Hlt; destruct_or?; subst; utf8_bits.
Qed.

(** ** Encoding and decoding *)

Lemma utf8_encode_bytes s : forall b, utf8_encode s = Ok b -> Forall is_byte b.
Proof.
  induction s as [|c s IH]; intros b Hb; simpl in Hb; [by simplify_eq|].
  destruct (scalar c) eqn:E; [|done]. mon_inv. apply Forall_app. auto using utf8_char_bytes.
Qed.

Lemma utf8_decode_loop_fuel escape n : forall m b, (length b <= n)%nat -> (length b <= m)%nat -> Forall is_byte b ->
  utf8_decode_loop escape n b = utf8_decode_loop escape m b.
Proof.
  induction n as [|n IH]; intros [|m] [|b0 r] Hn Hm Hb; simpl in Hn, Hm; try done; try lia. cbn [utf8_decode_loop].
  assert (Hr : Forall is_byte r) by (by apply Forall_cons in Hb as [_ ?]).
  destruct (utf8_next (b0 :: r)) as [[c r']|] eqn:E.
  - destruct (utf8_next_inv _ _ _ Hb E) as [Hc Hd]. pose proof (utf8_char_nonempty c).
    assert (Hl : (length r' <= length r)%nat).
    { apply (f_equal length) in Hd. rewrite length_app in Hd. destruct (utf8_char c); [done|]. simpl in Hd. lia. }
    rewrite (IH m r'); [done|lia|lia|]. rewrite Hd in Hb. by apply Forall_app in Hb as [_ ?].
  - destruct escape; [|done]. rewrite (IH m r); [done|lia|lia|done].
Qed.

Lemma decode_char_step escape c rest : scalar c = true -> Forall is_byte rest ->
  utf8_decode_loop escape (length (utf8_char c ++ rest)) (utf8_char c ++ rest) =
  (let* t := utf8_decode_loop escape (length rest) rest in Ok (c :: t)).
Proof.
  intros Hc Hr. pose proof (utf8_next_char c rest Hc) as Hn. pose proof (utf8_char_nonempty c).
  rewrite length_app. destruct (utf8_char c) as [|b0 u]; [done|]. cbn [app length Nat.add utf8_decode_loop] in *. rewrite Hn.
  by rewrite (utf8_decode_loop_fuel _ _ (length rest)) by (done || lia).
Qed.

(** Decoding what was encoded gives the text back, ... *)
Lemma utf8_decode_encode s : forall b, utf8_encode s = Ok b -> utf8_decode b = Ok s.
Proof.
  unfold utf8_decode. induction s as [|c s IH]; intros b Hb; simpl in Hb; [by simplify_eq|].
  destruct (scalar c) eqn:E; [|done]. mon_inv.
  rewrite decode_char_step by eauto using utf8_encode_bytes. by rewrite (IH _ E0).
Qed.

(** ... and encoding what was decoded gives the bytes back. *)
Lemma utf8_encode_decode b s : Forall is_byte b -> utf8_decode b = Ok s -> utf8_encode s = Ok b.
Proof.
  unfold utf8_decode. generalize (length b). intros n. revert b s.
  induction n as [|n IH]; intros [|b0 r] s Hb Hs; cbn [utf8_decode_loop] in Hs; mon_inv; try done.
  destruct (utf8_next (b0 :: r)) as [[c r']|] eqn:E; [|done]. mon_inv.
  destruct (utf8_next_inv _ _ _ Hb E) as [Hc Hd]. cbn [utf8_encode]. rewrite Hc, Hd in *.
  apply Forall_app in Hb as [_ Hb]. by rewrite (IH _ _ Hb E0).
Qed.

Lemma utf8_encode_decodable b s : Forall is_byte b -> utf8_decode b = Ok s -> Forall (fun c => scalar c = true) s.
Proof.
  intros Hb Hs. apply utf8_encode_decode in Hs; [|done]. clear Hb. revert b Hs.
  induction s as [|c s IH]; intros b Hs; [constructor|]. simpl in Hs. destruct (scalar c) eqn:E; [|done]. mon_inv.
  constructor; eauto.
Qed.

(** [os.fsdecode] accepts every byte string and [os.fsencode] inverts it. *)
Lemma fsencode_fsdecode b : Forall is_byte b -> exists s, fsdecode b = Ok s /\ fsencode s = Ok b.
Proof.
  unfold fsdecode. intros Hb. assert (Hl : (length b <= length b)%nat) by lia. revert Hl.
  generalize (length b) at 2 3. intros n. revert b Hb.
  induction n as [|n IH]; intros [|b0 r] Hb Hn; cbn [utf8_decode_loop length] in *; [exists []; done|lia|exists []; done|].
  destruct (utf8_next (b0 :: r)) as [[c r']|] eqn:E.
  - destruct (utf8_next_inv _ _ _ Hb E) as [Hc Hd]. pose proof (utf8_char_nonempty c).
    assert (Hl : (length r' <= n)%nat).
    { apply (f_equal length) in Hd. rewrite length_app in Hd. destruct (utf8_char c); [done|]. simpl in Hd. lia. }
    rewrite Hd in Hb. apply Forall_app in Hb as [_ Hb]. destruct (IH r' Hb Hl) as (s & -> & Hs).
    exists (c :: s). split; [done|]. cbn [fsencode].
    assert (He : escaped c = false).
    { apply scalar_spec in Hc. unfold escaped. apply andb_false_iff. rewrite Z.leb_gt, Z.ltb_ge. lia. }
    rewrite He, Hc, Hs, Hd. done.
  - apply Forall_cons in Hb as [H0 Hb]. destruct (IH r Hb ltac:(lia)) as (s & -> & Hs).
    exists (56320 + b0 :: s). split; [done|]. cbn [fsencode].
    assert (128 <= b0) by (cbn [utf8_next] in E; destruct (Z.ltb_spec b0 128); [done|lia]).
    unfold is_byte in H0. unfold escaped. rewrite Hs. decide_tests. cbn [andb rbind]. do 2 f_equal. lia.
Qed.

Lemma fsencode_bytes s : forall b, fsencode s = Ok b -> Forall is_byte b.
Proof.
  induction s as [|c s IH]; intros b Hb; simpl in Hb; [by simplify_eq|]. destruct (escaped c) eqn:He.
  - mon_inv. constructor; [|eauto]. unfold escaped in He. propify. unfold is_byte. lia.
  - destruct (scalar c) eqn:E; [|done]. mon_inv. apply Forall_app. eauto using utf8_char_bytes.
Qed.

(** ** Lemmas on decimal numbers *)

Definition decimal_text (s : text) : Prop := Forall (fun c => is_decimal c = true) s.

Lemma is_decimal_spec c : is_decimal c = true <-> 48 <= c <= 57.
Proof. unfold is_decimal. rewrite andb_true_iff, !Z.leb_le. done. Qed.

Lemma digit_run_digit v d rest : is_decimal d = true -> digit_run v false (d :: rest) = digit_run (v * 10 + (d - 48)) false rest.
Proof. intros Hd. cbn [digit_run]. by rewrite Hd. Qed.

Lemma str_loop_spec f : forall n acc, 0 <= n < 2 ^ Z.of_nat f -> (0 < f)%nat ->
  exists ds, str_loop f n acc = ds ++ acc /\ ds <> [] /\ decimal_text ds /\
    forall v rest, digit_run v false (ds ++ rest) = digit_run (v * 10 ^ Z.of_nat (length ds) + n) false rest.
Proof.
  induction f as [|f IH]; intros n acc Hn Hf; [lia|]. cbn [str_loop].
  assert (Hd : is_decimal (48 + n mod 10) = true) by (apply is_decimal_spec; Z.div_mod_to_equations; lia).
  destruct (Z.ltb_spec n 10) as [Hlt|Hge].
  - exists [48 + n mod 10]. split_and!; [done|done|by repeat constructor|]. intros v rest. cbn [app length].
    rewrite digit_run_digit by done. f_equal. rewrite Z.mod_small by lia. change (10 ^ Z.of_nat 1) with 10. lia.
  - rewrite Nat2Z.inj_succ, Z.pow_succ_r in Hn by lia.
    destruct (IH (n / 10) (48 + n mod 10 :: acc)) as (ds & -> & Hne & Hds & Hrun).
    { Z.div_mod_to_equations. lia. } { destruct f; [|lia]. simpl in Hn. lia. }
    exists (ds ++ [48 + n mod 10]). rewrite <- app_assoc. split_and!; [done|by destruct ds|apply Forall_app; by repeat constructor|].
    intros v rest. rewrite <- app_assoc. cbn [app]. rewrite Hrun, digit_run_digit by done. f_equal.
    rewrite length_app. cbn [length]. rewrite Nat2Z.inj_add, Z.pow_add_r by lia. change (10 ^ Z.of_nat 1) with 10.
    Z.div_mod_to_equations. lia.
Qed.

Lemma str_nat_spec n : 0 <= n -> str_nat n <> [] /\ decimal_text (str_nat n) /\ digit_run 0 false (str_nat n) = Some (n, []).
Proof.
  intros Hn. unfold str_nat. destruct (str_loop_spec (S (Z.to_nat (Z.log2 n))) n []) as (ds & -> & Hne & Hds & Hrun); [|lia|].
  - split; [done|]. rewrite Nat2Z.inj_succ, Z2Nat.id by apply Z.log2_nonneg.
    destruct (decide (n = 0)) as [->|]; [done|]. apply Z.log2_spec. lia.
  - rewrite app_nil_r. split_and!; [done..|]. specialize (Hrun 0 []). rewrite app_nil_r in Hrun. rewrite Hrun. simpl. done.
Qed.

Section IntFacts.
Context `{Unicode}.

Lemma to_ascii_decimal s : decimal_text s -> mapM to_ascii s = Some s.
Proof.
  intros Hs. apply mapM_Some. induction Hs as [|c s Hc Hs IH]; constructor; [|done].
  apply is_decimal_spec in Hc. unfold to_ascii. by rewrite (proj2 (Z.ltb_lt _ _)) by lia.
Qed.

(** [int(str(n), 10) = n] *)
Lemma py_int_str n : 0 <= n -> py_int (str_nat n) = Ok n.
Proof.
  intros Hn. destruct (str_nat_spec n Hn) as (Hne & Hds & Hrun). unfold py_int. rewrite to_ascii_decimal by done.
  destruct (str_nat n) as [|c s]; [done|]. apply Forall_cons in Hds as [Hc _]. pose proof Hc as Hc'. apply is_decimal_spec in Hc'.
  assert (Hsp : is_space c = false) by (unfold is_space; apply bool_decide_eq_false; set_solver by lia).
  cbn [drop_spaces]. rewrite Hsp.
  assert (Hm : match c :: s with 43 :: a' => (1, a') | 45 :: a' => (-1, a') | _ => (1, c :: s) end = (1, c :: s)).
  { assert (c ∈ seqZ 48 10) by (apply elem_of_seqZ; lia).
    repeat (rewrite list_elem_of_In in H0; simpl in H0). intuition subst; reflexivity. }
  rewrite Hm, Hc, Hrun. simpl. f_equal. destruct n; done.
Qed.
End IntFacts.

(** ** Lemmas on splitting and joining *)

Lemma split_on_nonempty sep s : split_on sep s <> [].
Proof. destruct s; simpl; [done|]. repeat case_match; done. Qed.

Lemma join_split sep s : join_with sep (split_on sep s) = s.
Proof.
  induction s as [|c s IH]; [done|]. cbn [split_on]. pose proof (split_on_nonempty sep s) as Hne.
  destruct (Z.eqb_spec c sep) as [->|Hc].
  - destruct (split_on sep s) as [|p ps]; [done|]. cbn [join_with app] in *. by f_equal.
  - destruct (split_on sep s) as [|p ps]; [done|]. rewrite <- IH. by destruct ps.
Qed.

Lemma split_no_sep sep s : sep ∉ s -> split_on sep s = [s].
Proof.
  induction s as [|c s IH]; intros Hn; [done|]. cbn [split_on]. apply not_elem_of_cons in Hn as [Hc Hn].
  rewrite (proj2 (Z.eqb_neq _ _)) by congruence. by rewrite IH.
Qed.

Lemma split_app sep p s : sep ∉ p -> split_on sep (p ++ sep :: s) = p :: split_on sep s.
Proof.
  induction p as [|c p IH]; intros Hn; cbn [app split_on]; [by rewrite Z.eqb_refl|].
  apply not_elem_of_cons in Hn as [Hc Hn]. rewrite (proj2 (Z.eqb_neq _ _)) by congruence. by rewrite IH.
Qed.

Lemma split_join sep parts : parts <> [] -> Forall (fun p => sep ∉ p) parts -> split_on sep (join_with sep parts) = parts.
Proof.
  intros Hne Hp. induction Hp as [|p ps Hp Hps IH]; [done|]. destruct ps as [|q qs]; [by apply split_no_sep|].
  change (join_with sep (p :: q :: qs)) with (p ++ sep :: join_with sep (q :: qs)).
  rewrite split_app by done. f_equal. by apply IH.
Qed.

Lemma split_on_parts sep s : Forall (fun p => sep ∉ p) (split_on sep s).
Proof.
  induction s as [|c s IH]; cbn [split_on]; [repeat constructor; set_solver|].
  destruct (Z.eqb_spec c sep); [constructor; [set_solver|done]|].
  pose proof (split_on_nonempty sep s). destruct (split_on sep s) as [|p ps]; [done|].
  apply Forall_cons in IH as [Hp Hps]. constructor; [set_solver|done].
Qed.

Lemma rstrip_char_id c s : match last s with Some x => x <> c | None => True end -> rstrip_char c s = s.
Proof.
  unfold rstrip_char. intros Hl. rewrite <- (reverse_involutive s) at 2. f_equal. rewrite <- head_reverse in Hl.
  destruct (reverse s) as [|x w]; [done|]. simpl in *. by rewrite bool_decide_false by set_solver.
Qed.

Lemma rstrip_char_last c s : match last (rstrip_char c s) with Some x => x <> c | None => True end.
Proof.
  unfold rstrip_char. rewrite last_reverse. destruct (lstrip_spec [c] (reverse s)) as (p & _ & _ & H).
  destruct (lstrip [c] (reverse s)); simpl; [done|]. set_solver.
Qed.
