(* ===== verification/Base32.v ===== *)
(** * Base32, as [base64.b32encode] and [base64.b32decode] compute it *)

From S2P Require Import Prelude DHTID Base58 Text.

Definition b32alphabet : bytes := lit "ABCDEFGHIJKLMNOPQRSTUVWXYZ234567".

Definition b32char (n : Z) : Z := nth (Z.to_nat n) b32alphabet 0.

(** [_b32rev] *)
Definition b32rev (c : Z) : option Z :=
  if (65 <=? c) && (c <=? 90) then Some (c - 65)
  else if (50 <=? c) && (c <=? 55) then Some (c - 24) else None.

(** The [n] last base-32 digits of [x], the most significant first. *)
Fixpoint quintets (n : nat) (x : Z) : list Z :=
  match n with
  | O => []
  | S n' => x / 32 ^ Z.of_nat n' mod 32 :: quintets n' x
  end.

(** Whole groups of five bytes. *)
Fixpoint b32encode_groups (n : nat) (s : bytes) : bytes :=
  match n with
  | O => []
  | S n' => map b32char (quintets 8 (from_be (take 5 s))) ++ b32encode_groups n' (drop 5 s)
  end.

(** [b32encode]: the last group is filled with zeros, and the characters they produced are replaced by [=]. *)
Definition b32encode (s : bytes) : bytes :=
  let leftover := (length s `mod` 5)%nat in
  let s := if (leftover =? 0)%nat then s else s ++ replicate (5 - leftover) 0 in
  let encoded := b32encode_groups (length s / 5) s in
  let pad n := take (length encoded - n) encoded ++ replicate n 61 in
  match leftover with
  | 1%nat => pad 6%nat
  | 2%nat => pad 4%nat
  | 3%nat => pad 3%nat
  | 4%nat => pad 1%nat
  | _ => encoded
  end.

(** The value of one group of characters. *)
Definition b32quantum (quanta : bytes) : result Z :=
  foldM_r (fun acc c => match b32rev c with Some v => Ok (acc * 32 + v) | None => Raise ValueError end) 0 quanta.

(** The loop over groups of eight characters; it also returns the value of the last group. *)
Fixpoint b32decode_groups (n : nat) (acc : Z) (s : bytes) : result (bytes * Z) :=
  match n with
  | O => Ok ([], acc)
  | S n' =>
      let* acc := b32quantum (take 8 s) in
      let* (decoded, last) := b32decode_groups n' acc (drop 8 s) in
      Ok (to_be 5 acc ++ decoded, last)
  end.

(** [b32decode] of a text; a [binascii.Error] is a [ValueError]. *)
Definition b32decode (s : text) : result bytes :=
  if negb (forallb (fun c => c <? 128) s) then Raise ValueError
  else if negb (length s `mod` 8 =? 0)%nat then Raise ValueError
  else
    let stripped := rstrip_char 61 s in
    let padchars := (length s - length stripped)%nat in
    let* (decoded, acc) := b32decode_groups ((length stripped + 7) / 8) 0 stripped in
    if negb (bool_decide (padchars ∈ [0; 1; 3; 4; 6]%nat)) then Raise ValueError
    else if negb (padchars =? 0)%nat && negb (length decoded =? 0)%nat then
      let last := to_be 5 (acc * 32 ^ Z.of_nat padchars) in
      let leftover := ((43 - 5 * padchars) / 8)%nat in
      Ok (take (length decoded - 5) decoded ++ take leftover last)
    else Ok decoded.

(** ** Lemmas *)

(** The characters an encoding without padding is made of. *)
Definition b32_text (s : text) : Prop := Forall (fun c => is_Some (b32rev c)) s.

Lemma b32char_rev n : 0 <= n < 32 -> b32rev (b32char n) = Some n.
Proof.
  intros Hn. assert (Hin : n ∈ seqZ 0 32) by (apply elem_of_seqZ; lia).
  assert (Hall : Forall (fun n => b32rev (b32char n) = Some n) (seqZ 0 32)) by (vm_compute; repeat constructor).
  rewrite Forall_forall in Hall. auto.
Qed.

Lemma b32rev_range c n : b32rev c = Some n -> (65 <= c <= 90 \/ 50 <= c <= 55) /\ 0 <= n < 32.
Proof. unfold b32rev. repeat case_match; intros; simplify_eq; propify; lia. Qed.

Lemma quintets_digits n x : Forall (fun d => 0 <= d < 32) (quintets n x).
Proof. induction n; simpl; constructor; [apply Z.mod_pos_bound; lia | done]. Qed.

Lemma length_quintets n x : length (quintets n x) = n.
Proof. induction n; simpl; congruence. Qed.

Lemma quantum_acc ds acc : Forall (fun d => 0 <= d < 32) ds ->
  foldM_r (fun acc c => match b32rev c with Some v => Ok (acc * 32 + v) | None => Raise ValueError end) acc (map b32char ds) =
  Ok (foldl (fun a d => a * 32 + d) acc ds).
Proof.
  intros Hds. revert acc. induction Hds as [|d ds Hd Hds IH]; intros acc; [done|]. cbn [map foldM_r foldl].
  rewrite b32char_rev by done. simpl. apply IH.
Qed.

Lemma quintets_value n x acc : 0 <= acc ->
  foldl (fun a d => a * 32 + d) acc (quintets n x) = acc * 32 ^ Z.of_nat n + x mod 32 ^ Z.of_nat n.
Proof.
  revert acc. induction n as [|n IH]; intros acc Ha; cbn [quintets foldl].
  - change (32 ^ Z.of_nat 0) with 1. rewrite Z.mod_1_r. lia.
  - assert (0 < 32 ^ Z.of_nat n) by (apply Z.pow_pos_nonneg; lia).
    rewrite IH by (pose proof (Z.mod_pos_bound (x / 32 ^ Z.of_nat n) 32); lia).
    rewrite Nat2Z.inj_succ, Z.pow_succ_r by lia. rewrite (Z.mul_comm 32 (32 ^ Z.of_nat n)).
    rewrite Z.rem_mul_r by lia. ring.
Qed.

Lemma b32quantum_encode g : Forall is_byte g -> (length g <= 5)%nat ->
  b32quantum (map b32char (quintets 8 (from_be g))) = Ok (from_be g).
Proof.
  intros Hg Hl. unfold b32quantum. rewrite quantum_acc by apply quintets_digits. rewrite quintets_value by lia. f_equal.
  rewrite Z.mod_small; [lia|]. pose proof (from_be_bound g Hg) as Hb. split; [lia|].
  eapply Z.lt_le_trans; [apply Hb|]. change (32 ^ Z.of_nat 8) with (256 ^ 5). apply Z.pow_le_mono_r; lia.
Qed.

Lemma decode_groups_encode n : forall s acc, Forall is_byte s -> length s = (5 * n)%nat ->
  exists last, b32decode_groups n acc (b32encode_groups n s) = Ok (s, last).
Proof.
  induction n as [|n IH]; intros s acc Hs Hl; cbn [b32encode_groups b32decode_groups].
  - destruct s; [eauto|done].
  - set (g := map b32char _). assert (Hg : length g = 8%nat) by (unfold g; by rewrite length_map, length_quintets).
    rewrite take_app_length', drop_app_length' by done. unfold g.
    assert (H5 : length (take 5 s) = 5%nat) by (rewrite length_take; lia).
    rewrite b32quantum_encode by (auto using Forall_take with lia). cbn [rbind].
    destruct (IH (drop 5 s) (from_be (take 5 s))) as [last ->]; [by apply Forall_drop|rewrite length_drop; lia|].
    exists last. cbn [rbind]. rewrite <- H5 at 1. rewrite to_be_from_be by by apply Forall_take. by rewrite take_drop.
Qed.

Lemma encode_groups_text n : forall s, b32_text (b32encode_groups n s) /\ length (b32encode_groups n s) = (8 * n)%nat.
Proof.
  induction n as [|n IH]; intros s; cbn [b32encode_groups]; [split; [constructor|done]|].
  destruct (IH (drop 5 s)) as [Ht Hl]. split.
  - apply Forall_app. split; [|done]. apply Forall_forall. intros c Hc. apply list_elem_of_In, in_map_iff in Hc as (d & <- & Hd).
    pose proof (quintets_digits 8 (from_be (take 5 s))) as Hq. rewrite Forall_forall in Hq.
    rewrite b32char_rev by (apply Hq; by apply list_elem_of_In). eauto.
  - rewrite length_app, length_map, length_quintets, Hl. lia.
Qed.

Lemma b32_text_last s : b32_text s -> rstrip_char 61 s = s.
Proof.
  intros Hs. apply rstrip_char_id. destruct (last s) as [x|] eqn:E; [|done]. apply last_Some in E as [l ->].
  apply Forall_app in Hs as [_ Hs]. apply Forall_cons in Hs as [[n Hn] _]. apply b32rev_range in Hn. lia.
Qed.

(** A text in the alphabet decodes without padding. *)
Lemma b32decode_text s n : b32_text s -> length s = (8 * n)%nat ->
  b32decode s = (let* (decoded, _) := b32decode_groups n 0 s in Ok decoded).
Proof.
  intros Hs Hl. unfold b32decode.
  assert (Ha : forallb (fun c => c <? 128) s = true).
  { apply forallb_forall. intros c Hc. apply list_elem_of_In in Hc. unfold b32_text in Hs. rewrite Forall_forall in Hs.
    destruct (Hs c Hc) as [v Hv]. apply b32rev_range in Hv. apply Z.ltb_lt. lia. }
  assert (Hm : (length s `mod` 8)%nat = O) by (rewrite Hl, Nat.mul_comm; apply Nat.Div0.mod_mul).
  rewrite Ha, Hm, b32_text_last, Nat.sub_diag by done. cbn [negb Nat.eqb].
  replace ((length s + 7) / 8)%nat with n by (rewrite Hl; apply (Nat.div_unique _ _ _ 7); lia).
  destruct (b32decode_groups n 0 s) as [[d l]|e]; reflexivity.
Qed.

(** Whole groups round-trip: onion addresses are two or seven groups. *)
Lemma b32_roundtrip n s : Forall is_byte s -> length s = (5 * n)%nat ->
  b32decode (b32encode s) = Ok s /\ b32_text (b32encode s) /\ length (b32encode s) = (8 * n)%nat.
Proof.
  intros Hs Hl. assert (Hm : (length s `mod` 5)%nat = O) by (rewrite Hl, Nat.mul_comm; apply Nat.Div0.mod_mul).
  assert (He : b32encode s = b32encode_groups n s).
  { unfold b32encode. rewrite Hm. cbn [Nat.eqb]. f_equal. rewrite Hl, Nat.mul_comm. by apply Nat.div_mul. }
  rewrite He. destruct (encode_groups_text n s) as [Ht Hlen]. split_and!; [|done..].
  rewrite (b32decode_text _ n) by done. destruct (decode_groups_encode n s 0 Hs Hl) as [last ->]. done.
Qed.

(** The number of bytes decoded. *)
Lemma decode_groups_length n : forall acc s d l, b32decode_groups n acc s = Ok (d, l) -> length d = (5 * n)%nat /\ Forall is_byte d.
Proof.
  induction n as [|n IH]; intros acc s d l H; cbn [b32decode_groups] in H; [by simplify_eq|].
  mon_inv. destruct a0 as [d' l']. mon_inv. simplify_eq. destruct (IH _ _ _ _ E0) as [Hl Hb].
  cbn [length]. rewrite Hl. split; [lia|]. repeat constructor; auto; apply Z.mod_pos_bound; lia.
Qed.

Lemma b32decode_bytes s b : b32decode s = Ok b -> Forall is_byte b.
Proof.
  unfold b32decode. intros E. repeat (case_match; [done|]). apply rbind_ok in E as ([d l] & Hd & E).
  destruct (decode_groups_length _ _ _ _ _ Hd) as [_ Hby]. case_match; [done|]. case_match.
  - assert (Hb : forall n x, Forall is_byte (take n (to_be 5 x))) by (intros; apply Forall_take, to_be_bytes).
    apply (f_equal (fun r => match r with Ok a => a | Raise _ => [] end)) in E. subst b. apply Forall_app. auto using Forall_take.
  - by mon_inv.
Qed.

(** Upper case inverts lower case on the alphabet. *)
Lemma upper_lower_b32 `{Unicode} s : b32_text s -> upper (lower_ascii s) = s /\ Forall (fun c => c <> 47 /\ c <> 58) (lower_ascii s).
Proof.
  induction 1 as [|c s [n Hn] Hs IH]; [by repeat constructor|]. apply b32rev_range in Hn as [Hc _]. destruct IH as [IH1 IH2].
  assert (Hu : upper_char (lower_char c) = [c] /\ lower_char c <> 47 /\ lower_char c <> 58).
  { unfold upper_char, lower_char. destruct ((65 <=? c) && (c <=? 90)) eqn:E; propify;
      repeat match goal with |- context [if ?b then _ else _] => destruct b eqn:?; propify end;
      try lia; (split; [f_equal|]; lia). }
  destruct Hu as (Hu & ? & ?). unfold upper in *. cbn [lower_ascii map mjoin list_join]. rewrite Hu. split; [|constructor; auto].
  cbn [app]. f_equal. apply IH1.
Qed.
