(* ===== verification/HashTable.v ===== *)
(** * The multihash table ([mesh/utils/multihash/constants.py])

    The codes, digest lengths and names of the hash functions, in the order of the source; in three
    parts. *)

From S2P Require Import Prelude.

Local Open Scope string_scope.

Record HashEntry : Type := mkHash { hash_code : Z; hash_length : option Z; hash_name : string }.

Definition HASH_TABLE_1 : list HashEntry := [
  mkHash 0 (None) "id";
  mkHash 17 (Some 20) "sha1";
  mkHash 18 (Some 32) "sha2-256";
  mkHash 19 (Some 64) "sha2-512";
  mkHash 20 (Some 64) "sha3-512";
  mkHash 21 (Some 48) "sha3-384";
  mkHash 22 (Some 32) "sha3-256";
  mkHash 23 (Some 28) "sha3-224";
  mkHash 24 (Some 32) "shake-128";
  mkHash 25 (Some 64) "shake-256";
  mkHash 26 (Some 28) "keccak-224";
  mkHash 27 (Some 32) "keccak-256";
  mkHash 28 (Some 48) "keccak-384";
  mkHash 29 (Some 64) "keccak-512";
  mkHash 34 (Some 32) "murmur3-128";
  mkHash 35 (None) "murmur3-32";
  mkHash 86 (Some 32) "dbl-sha2-256";
  mkHash 45569 (Some 1) "blake2b-8";
  mkHash 45570 (Some 2) "blake2b-16";
  mkHash 45571 (Some 3) "blake2b-24";
  mkHash 45572 (Some 4) "blake2b-32";
  mkHash 45573 (Some 5) "blake2b-40";
  mkHash 45574 (Some 6) "blake2b-48";
  mkHash 45575 (Some 7) "blake2b-56";
  mkHash 45576 (Some 8) "blake2b-64";
  mkHash 45577 (Some 9) "blake2b-72";
  mkHash 45578 (Some 10) "blake2b-80";
  mkHash 45579 (Some 11) "blake2b-88";
  mkHash 45580 (Some 12) "blake2b-96";
  mkHash 45581 (Some 13) "blake2b-104";
  mkHash 45582 (Some 14) "blake2b-112";
  mkHash 45583 (Some 15) "blake2b-120";
  mkHash 45584 (Some 16) "blake2b-128";
  mkHash 45585 (Some 17) "blake2b-136";
  mkHash 45586 (Some 18) "blake2b-144";
  mkHash 45587 (Some 19) "blake2b-152";
  mkHash 45588 (Some 20) "blake2b-160";
  mkHash 45589 (Some 21) "blake2b-168";
  mkHash 45590 (Some 22) "blake2b-176";
  mkHash 45591 (Some 23) "blake2b-184";
  mkHash 45592 (Some 24) "blake2b-192";
  mkHash 45593 (Some 25) "blake2b-200";
  mkHash 45594 (Some 26) "blake2b-208";
  mkHash 45595 (Some 27) "blake2b-216";
  mkHash 45596 (Some 28) "blake2b-224";
  mkHash 45597 (Some 29) "blake2b-232";
  mkHash 45598 (Some 30) "blake2b-240";
  mkHash 45599 (Some 31) "blake2b-248";
  mkHash 45600 (Some 32) "blake2b-256";
  mkHash 45601 (Some 33) "blake2b-264";
  mkHash 45602 (Some 34) "blake2b-272";
  mkHash 45603 (Some 35) "blake2b-280";
  mkHash 45604 (Some 36) "blake2b-288";
  mkHash 45605 (Some 37) "blake2b-296";
  mkHash 45606 (Some 38) "blake2b-304";
  mkHash 45607 (Some 39) "blake2b-312";
  mkHash 45608 (Some 40) "blake2b-320";
  mkHash 45609 (Some 41) "blake2b-328";
  mkHash 45610 (Some 42) "blake2b-336";
  mkHash 45611 (Some 43) "blake2b-344";
  mkHash 45612 (Some 44) "blake2b-352";
  mkHash 45613 (Some 45) "blake2b-360";
  mkHash 45614 (Some 46) "blake2b-368";
  mkHash 45615 (Some 47) "blake2b-376";
  mkHash 45616 (Some 48) "blake2b-384";
  mkHash 45617 (Some 49) "blake2b-392";
  mkHash 45618 (Some 50) "blake2b-400";
  mkHash 45619 (Some 51) "blake2b-408";
  mkHash 45620 (Some 52) "blake2b-416";
  mkHash 45621 (Some 53) "blake2b-424";
  mkHash 45622 (Some 54) "blake2b-432";
  mkHash 45623 (Some 55) "blake2b-440";
  mkHash 45624 (Some 56) "blake2b-448";
  mkHash 45625 (Some 57) "blake2b-456";
  mkHash 45626 (Some 58) "blake2b-464";
  mkHash 45627 (Some 59) "blake2b-472";
  mkHash 45628 (Some 60) "blake2b-480";
  mkHash 45629 (Some 61) "blake2b-488";
  mkHash 45630 (Some 62) "blake2b-496";
  mkHash 45631 (Some 63) "blake2b-504";
  mkHash 45632 (Some 64) "blake2b-512";
  mkHash 45633 (Some 1) "blake2s-8";
  mkHash 45634 (Some 2) "blake2s-16";
  mkHash 45635 (Some 3) "blake2s-24";
  mkHash 45636 (Some 4) "blake2s-32";
  mkHash 45637 (Some 5) "blake2s-40";
  mkHash 45638 (Some 6) "blake2s-48";
  mkHash 45639 (Some 7) "blake2s-56";
  mkHash 45640 (Some 8) "blake2s-64";
  mkHash 45641 (Some 9) "blake2s-72";
  mkHash 45642 (Some 10) "blake2s-80";
  mkHash 45643 (Some 11) "blake2s-88";
  mkHash 45644 (Some 12) "blake2s-96";
  mkHash 45645 (Some 13) "blake2s-104";
  mkHash 45646 (Some 14) "blake2s-112";
  mkHash 45647 (Some 15) "blake2s-120";
  mkHash 45648 (Some 16) "blake2s-128";
  mkHash 45649 (Some 17) "blake2s-136";
  mkHash 45650 (Some 18) "blake2s-144";
  mkHash 45651 (Some 19) "blake2s-152";
  mkHash 45652 (Some 20) "blake2s-160";
  mkHash 45653 (Some 21) "blake2s-168";
  mkHash 45654 (Some 22) "blake2s-176";
  mkHash 45655 (Some 23) "blake2s-184";
  mkHash 45656 (Some 24) "blake2s-192";
  mkHash 45657 (Some 25) "blake2s-200";
  mkHash 45658 (Some 26) "blake2s-208";
  mkHash 45659 (Some 27) "blake2s-216";
  mkHash 45660 (Some 28) "blake2s-224";
  mkHash 45661 (Some 29) "blake2s-232";
  mkHash 45662 (Some 30) "blake2s-240";
  mkHash 45663 (Some 31) "blake2s-248";
  mkHash 45664 (Some 32) "blake2s-256"
].

Definition HASH_TABLE_2 : list HashEntry := [
  mkHash 45825 (Some 1) "Skein256-8";
  mkHash 45826 (Some 2) "Skein256-16";
  mkHash 45827 (Some 3) "Skein256-24";
  mkHash 45828 (Some 4) "Skein256-32";
  mkHash 45829 (Some 5) "Skein256-40";
  mkHash 45830 (Some 6) "Skein256-48";
  mkHash 45831 (Some 7) "Skein256-56";
  mkHash 45832 (Some 8) "Skein256-64";
  mkHash 45833 (Some 9) "Skein256-72";
  mkHash 45834 (Some 10) "Skein256-80";
  mkHash 45835 (Some 11) "Skein256-88";
  mkHash 45836 (Some 12) "Skein256-96";
  mkHash 45837 (Some 13) "Skein256-104";
  mkHash 45838 (Some 14) "Skein256-112";
  mkHash 45839 (Some 15) "Skein256-120";
  mkHash 45840 (Some 16) "Skein256-128";
  mkHash 45841 (Some 17) "Skein256-136";
  mkHash 45842 (Some 18) "Skein256-144";
  mkHash 45843 (Some 19) "Skein256-152";
  mkHash 45844 (Some 20) "Skein256-160";
  mkHash 45845 (Some 21) "Skein256-168";
  mkHash 45846 (Some 22) "Skein256-176";
  mkHash 45847 (Some 23) "Skein256-184";
  mkHash 45848 (Some 24) "Skein256-192";
  mkHash 45849 (Some 25) "Skein256-200";
  mkHash 45850 (Some 26) "Skein256-208";
  mkHash 45851 (Some 27) "Skein256-216";
  mkHash 45852 (Some 28) "Skein256-224";
  mkHash 45853 (Some 29) "Skein256-232";
  mkHash 45854 (Some 30) "Skein256-240";
  mkHash 45855 (Some 31) "Skein256-248";
  mkHash 45856 (Some 32) "Skein256-256";
  mkHash 45857 (Some 1) "Skein512-8";
  mkHash 45858 (Some 2) "Skein512-16";
  mkHash 45859 (Some 3) "Skein512-24";
  mkHash 45860 (Some 4) "Skein512-32";
  mkHash 45861 (Some 5) "Skein512-40";
  mkHash 45862 (Some 6) "Skein512-48";
  mkHash 45863 (Some 7) "Skein512-56";
  mkHash 45864 (Some 8) "Skein512-64";
  mkHash 45865 (Some 9) "Skein512-72";
  mkHash 45866 (Some 10) "Skein512-80";
  mkHash 45867 (Some 11) "Skein512-88";
  mkHash 45868 (Some 12) "Skein512-96";
  mkHash 45869 (Some 13) "Skein512-104";
  mkHash 45870 (Some 14) "Skein512-112";
  mkHash 45871 (Some 15) "Skein512-120";
  mkHash 45872 (Some 16) "Skein512-128";
  mkHash 45873 (Some 17) "Skein512-136";
  mkHash 45874 (Some 18) "Skein512-144";
  mkHash 45875 (Some 19) "Skein512-152";
  mkHash 45876 (Some 20) "Skein512-160";
  mkHash 45877 (Some 21) "Skein512-168";
  mkHash 45878 (Some 22) "Skein512-176";
  mkHash 45879 (Some 23) "Skein512-184";
  mkHash 45880 (Some 24) "Skein512-192";
  mkHash 45881 (Some 25) "Skein512-200";
  mkHash 45882 (Some 26) "Skein512-208";
  mkHash 45883 (Some 27) "Skein512-216";
  mkHash 45884 (Some 28) "Skein512-224";
  mkHash 45885 (Some 29) "Skein512-232";
  mkHash 45886 (Some 30) "Skein512-240";
  mkHash 45887 (Some 31) "Skein512-248";
  mkHash 45888 (Some 32) "Skein512-256";
  mkHash 45889 (Some 33) "Skein512-264";
  mkHash 45890 (Some 34) "Skein512-272";
  mkHash 45891 (Some 35) "Skein512-280";
  mkHash 45892 (Some 36) "Skein512-288";
  mkHash 45893 (Some 37) "Skein512-296";
  mkHash 45894 (Some 38) "Skein512-304";
  mkHash 45895 (Some 39) "Skein512-312";
  mkHash 45896 (Some 40) "Skein512-320";
  mkHash 45897 (Some 41) "Skein512-328";
  mkHash 45898 (Some 42) "Skein512-336";
  mkHash 45899 (Some 43) "Skein512-344";
  mkHash 45900 (Some 44) "Skein512-352";
  mkHash 45901 (Some 45) "Skein512-360";
  mkHash 45902 (Some 46) "Skein512-368";
  mkHash 45903 (Some 47) "Skein512-376";
  mkHash 45904 (Some 48) "Skein512-384";
  mkHash 45905 (Some 49) "Skein512-392";
  mkHash 45906 (Some 50) "Skein512-400";
  mkHash 45907 (Some 51) "Skein512-408";
  mkHash 45908 (Some 52) "Skein512-416";
  mkHash 45909 (Some 53) "Skein512-424";
  mkHash 45910 (Some 54) "Skein512-432";
  mkHash 45911 (Some 55) "Skein512-440";
  mkHash 45912 (Some 56) "Skein512-448";
  mkHash 45913 (Some 57) "Skein512-456";
  mkHash 45914 (Some 58) "Skein512-464";
  mkHash 45915 (Some 59) "Skein512-472";
  mkHash 45916 (Some 60) "Skein512-480";
  mkHash 45917 (Some 61) "Skein512-488";
  mkHash 45918 (Some 62) "Skein512-496";
  mkHash 45919 (Some 63) "Skein512-504";
  mkHash 45920 (Some 64) "Skein512-512";
  mkHash 45921 (Some 1) "Skein1024-8";
  mkHash 45922 (Some 2) "Skein1024-16";
  mkHash 45923 (Some 3) "Skein1024-24";
  mkHash 45924 (Some 4) "Skein1024-32";
  mkHash 45925 (Some 5) "Skein1024-40";
  mkHash 45926 (Some 6) "Skein1024-48";
  mkHash 45927 (Some 7) "Skein1024-56";
  mkHash 45928 (Some 8) "Skein1024-64";
  mkHash 45929 (Some 9) "Skein1024-72";
  mkHash 45930 (Some 10) "Skein1024-80";
  mkHash 45931 (Some 11) "Skein1024-88";
  mkHash 45932 (Some 12) "Skein1024-96";
  mkHash 45933 (Some 13) "Skein1024-104";
  mkHash 45934 (Some 14) "Skein1024-112";
  mkHash 45935 (Some 15) "Skein1024-120";
  mkHash 45936 (Some 16) "Skein1024-128";
  mkHash 45937 (Some 17) "Skein1024-136"
].

Definition HASH_TABLE_3 : list HashEntry := [
  mkHash 45938 (Some 18) "Skein1024-144";
  mkHash 45939 (Some 19) "Skein1024-152";
  mkHash 45940 (Some 20) "Skein1024-160";
  mkHash 45941 (Some 21) "Skein1024-168";
  mkHash 45942 (Some 22) "Skein1024-176";
  mkHash 45943 (Some 23) "Skein1024-184";
  mkHash 45944 (Some 24) "Skein1024-192";
  mkHash 45945 (Some 25) "Skein1024-200";
  mkHash 45946 (Some 26) "Skein1024-208";
  mkHash 45947 (Some 27) "Skein1024-216";
  mkHash 45948 (Some 28) "Skein1024-224";
  mkHash 45949 (Some 29) "Skein1024-232";
  mkHash 45950 (Some 30) "Skein1024-240";
  mkHash 45951 (Some 31) "Skein1024-248";
  mkHash 45952 (Some 32) "Skein1024-256";
  mkHash 45953 (Some 33) "Skein1024-264";
  mkHash 45954 (Some 34) "Skein1024-272";
  mkHash 45955 (Some 35) "Skein1024-280";
  mkHash 45956 (Some 36) "Skein1024-288";
  mkHash 45957 (Some 37) "Skein1024-296";
  mkHash 45958 (Some 38) "Skein1024-304";
  mkHash 45959 (Some 39) "Skein1024-312";
  mkHash 45960 (Some 40) "Skein1024-320";
  mkHash 45961 (Some 41) "Skein1024-328";
  mkHash 45962 (Some 42) "Skein1024-336";
  mkHash 45963 (Some 43) "Skein1024-344";
  mkHash 45964 (Some 44) "Skein1024-352";
  mkHash 45965 (Some 45) "Skein1024-360";
  mkHash 45966 (Some 46) "Skein1024-368";
  mkHash 45967 (Some 47) "Skein1024-376";
  mkHash 45968 (Some 48) "Skein1024-384";
  mkHash 45969 (Some 49) "Skein1024-392";
  mkHash 45970 (Some 50) "Skein1024-400";
  mkHash 45971 (Some 51) "Skein1024-408";
  mkHash 45972 (Some 52) "Skein1024-416";
  mkHash 45973 (Some 53) "Skein1024-424";
  mkHash 45974 (Some 54) "Skein1024-432";
  mkHash 45975 (Some 55) "Skein1024-440";
  mkHash 45976 (Some 56) "Skein1024-448";
  mkHash 45977 (Some 57) "Skein1024-456";
  mkHash 45978 (Some 58) "Skein1024-464";
  mkHash 45979 (Some 59) "Skein1024-472";
  mkHash 45980 (Some 60) "Skein1024-480";
  mkHash 45981 (Some 61) "Skein1024-488";
  mkHash 45982 (Some 62) "Skein1024-496";
  mkHash 45983 (Some 63) "Skein1024-504";
  mkHash 45984 (Some 64) "Skein1024-512";
  mkHash 45985 (Some 65) "Skein1024-520";
  mkHash 45986 (Some 66) "Skein1024-528";
  mkHash 45987 (Some 67) "Skein1024-536";
  mkHash 45988 (Some 68) "Skein1024-544";
  mkHash 45989 (Some 69) "Skein1024-552";
  mkHash 45990 (Some 70) "Skein1024-560";
  mkHash 45991 (Some 71) "Skein1024-568";
  mkHash 45992 (Some 72) "Skein1024-576";
  mkHash 45993 (Some 73) "Skein1024-584";
  mkHash 45994 (Some 74) "Skein1024-592";
  mkHash 45995 (Some 75) "Skein1024-600";
  mkHash 45996 (Some 76) "Skein1024-608";
  mkHash 45997 (Some 77) "Skein1024-616";
  mkHash 45998 (Some 78) "Skein1024-624";
  mkHash 45999 (Some 79) "Skein1024-632";
  mkHash 46000 (Some 80) "Skein1024-640";
  mkHash 46001 (Some 81) "Skein1024-648";
  mkHash 46002 (Some 82) "Skein1024-656";
  mkHash 46003 (Some 83) "Skein1024-664";
  mkHash 46004 (Some 84) "Skein1024-672";
  mkHash 46005 (Some 85) "Skein1024-680";
  mkHash 46006 (Some 86) "Skein1024-688";
  mkHash 46007 (Some 87) "Skein1024-696";
  mkHash 46008 (Some 88) "Skein1024-704";
  mkHash 46009 (Some 89) "Skein1024-712";
  mkHash 46010 (Some 90) "Skein1024-720";
  mkHash 46011 (Some 91) "Skein1024-728";
  mkHash 46012 (Some 92) "Skein1024-736";
  mkHash 46013 (Some 93) "Skein1024-744";
  mkHash 46014 (Some 94) "Skein1024-752";
  mkHash 46015 (Some 95) "Skein1024-760";
  mkHash 46016 (Some 96) "Skein1024-768";
  mkHash 46017 (Some 97) "Skein1024-776";
  mkHash 46018 (Some 98) "Skein1024-784";
  mkHash 46019 (Some 99) "Skein1024-792";
  mkHash 46020 (Some 100) "Skein1024-800";
  mkHash 46021 (Some 101) "Skein1024-808";
  mkHash 46022 (Some 102) "Skein1024-816";
  mkHash 46023 (Some 103) "Skein1024-824";
  mkHash 46024 (Some 104) "Skein1024-832";
  mkHash 46025 (Some 105) "Skein1024-840";
  mkHash 46026 (Some 106) "Skein1024-848";
  mkHash 46027 (Some 107) "Skein1024-856";
  mkHash 46028 (Some 108) "Skein1024-864";
  mkHash 46029 (Some 109) "Skein1024-872";
  mkHash 46030 (Some 110) "Skein1024-880";
  mkHash 46031 (Some 111) "Skein1024-888";
  mkHash 46032 (Some 112) "Skein1024-896";
  mkHash 46033 (Some 113) "Skein1024-904";
  mkHash 46034 (Some 114) "Skein1024-912";
  mkHash 46035 (Some 115) "Skein1024-920";
  mkHash 46036 (Some 116) "Skein1024-928";
  mkHash 46037 (Some 117) "Skein1024-936";
  mkHash 46038 (Some 118) "Skein1024-944";
  mkHash 46039 (Some 119) "Skein1024-952";
  mkHash 46040 (Some 120) "Skein1024-960";
  mkHash 46041 (Some 121) "Skein1024-968";
  mkHash 46042 (Some 122) "Skein1024-976";
  mkHash 46043 (Some 123) "Skein1024-984";
  mkHash 46044 (Some 124) "Skein1024-992";
  mkHash 46045 (Some 125) "Skein1024-1000";
  mkHash 46046 (Some 126) "Skein1024-1008";
  mkHash 46047 (Some 127) "Skein1024-1016";
  mkHash 46048 (Some 128) "Skein1024-1024"
].

Definition HASH_TABLE : list HashEntry := (HASH_TABLE_1 ++ HASH_TABLE_2 ++ HASH_TABLE_3)%list.

Definition HASH_CODES : pydict string Z := dict_of_list (map (fun x => (hash_name x, hash_code x)) HASH_TABLE).
Definition CODE_HASHES : pydict Z string := dict_of_list (map (fun x => (hash_code x, hash_name x)) HASH_TABLE).
Definition HASH_LENGTHS : pydict Z (option Z) := dict_of_list (map (fun x => (hash_code x, hash_length x)) HASH_TABLE).
