(* ===== verification/Framing.v ===== *)
(** * Length-prefixed messages ([mesh/p2p/p2p_daemon_bindings/utils.py])

    The control channel of the p2p daemon: unsigned varints and protobuf messages that are preceded by their size.
    A stream is the list of the bytes still to be read; writing returns the bytes written.  Protobuf's serializer
    and parser are parameters. *)

From S2P Require Import Prelude DHTID.

Definition DEFAULT_MAX_BITS : Z := 64.

(** The loop of [write_unsigned_varint]. *)
Fixpoint write_loop (fuel : nat) (integer : Z) : bytes :=
  match fuel with
  | O => []
  | S n =>
      let value := Z.land integer 127 in
      let integer := Z.shiftr integer 7 in
      if integer =? 0 then [value] else Z.lor value 128 :: write_loop n integer
  end.

(** [write_unsigned_varint]; the loop runs once per seven bits. *)
Definition write_unsigned_varint (integer max_bits : Z) : result bytes :=
  if integer <? 0 then Raise ValueError
  else if Z.shiftl 1 max_bits <=? integer then Raise ValueError
  else Ok (write_loop (S (Z.to_nat (Z.log2 integer))) integer).

(** The loop of [read_unsigned_varint]; at the end of the stream [readexactly] raises. *)
Fixpoint read_loop (max_int iteration result : Z) (stream : bytes) : Prelude.result (Z * bytes) :=
  match stream with
  | [] => Raise EOFError
  | c :: stream' =>
      let value := Z.land c 127 in
      let result := Z.lor result (Z.shiftl value (iteration * 7)) in
      if max_int <=? result then Raise ValueError
      else if Z.land c 128 =? 0 then Ok (result, stream') else read_loop max_int (iteration + 1) result stream'
  end.

Definition read_unsigned_varint (max_bits : Z) (stream : bytes) : result (Z * bytes) :=
  read_loop (Z.shiftl 1 max_bits) 0 0 stream.

(** [stream.readexactly(n)] *)
Definition readexactly (n : Z) (stream : bytes) : result (bytes * bytes) :=
  if (length stream <? Z.to_nat n)%nat then Raise EOFError
  else Ok (take (Z.to_nat n) stream, drop (Z.to_nat n) stream).

Section Messages.
Context {Msg : Type} (SerializeToString : Msg -> bytes) (ParseFromString : bytes -> result Msg).

(** [write_pbmsg]; [ByteSize] is the length of the serialized message. *)
Definition write_pbmsg (m : Msg) : result bytes :=
  let msg_bytes := SerializeToString m in
  let* size := write_unsigned_varint (Z.of_nat (length msg_bytes)) DEFAULT_MAX_BITS in
  Ok (size ++ msg_bytes).

(** [read_pbmsg_safe] *)
Definition read_pbmsg_safe (stream : bytes) : result (Msg * bytes) :=
  let* (len_msg_bytes, s1) := read_unsigned_varint DEFAULT_MAX_BITS stream in
  let* (msg_bytes, s2) := readexactly len_msg_bytes s1 in
  let* m := ParseFromString msg_bytes in
  Ok (m, s2).

(** Several messages in a row. *)
Fixpoint write_all (ms : list Msg) : result bytes :=
  match ms with
  | [] => Ok []
  | m :: ms' => let* b := write_pbmsg m in let* bs := write_all ms' in Ok (b ++ bs)
  end.

Fixpoint read_all (n : nat) (stream : bytes) : result (list Msg * bytes) :=
  match n with
  | O => Ok ([], stream)
  | S n' => let* (m, s1) := read_pbmsg_safe stream in let* (ms, s2) := read_all n' s1 in Ok (m :: ms, s2)
  end.
End Messages.

(** ** Lemmas *)

Lemma land_127 x : Z.land x 127 = x mod 128.
Proof. change 127 with (Z.ones 7). by rewrite Z.land_ones. Qed.

Lemma shiftr_7 x : Z.shiftr x 7 = x / 128.
Proof. by rewrite Z.shiftr_div_pow2. Qed.

(** A number below [2^n] and a multiple of [2^n] have no bit in common. *)
Lemma lor_disjoint a b n : 0 <= n -> 0 <= a < 2 ^ n -> Z.lor a (Z.shiftl b n) = a + b * 2 ^ n.
Proof.
  intros Hn Ha. rewrite <- Z.shiftl_mul_pow2 by done.
  assert (Hd : Z.land a (Z.shiftl b n) = 0).
  { apply Z.bits_inj'. intros i Hi. rewrite Z.land_spec, Z.bits_0, Z.shiftl_spec by done.
    destruct (decide (i < n)); [rewrite (Z.testbit_neg_r b) by lia; apply andb_false_r|].
    destruct (decide (a = 0)) as [->|]; [by rewrite Z.bits_0|].
    rewrite (Z.bits_above_log2 a i); [done|lia|]. apply Z.lt_le_trans with n; [apply Z.log2_lt_pow2; lia|lia]. }
  by rewrite (Z.add_nocarry_lxor _ _ Hd), Z.lxor_lor.
Qed.

Lemma continued_byte v : 0 <= v < 128 -> Z.lor v 128 = v + 128 /\ Z.land (v + 128) 127 = v /\ Z.land (v + 128) 128 <> 0.
Proof.
  intros Hv. split_and!.
  - pose proof (lor_disjoint v 1 7) as H. change (Z.shiftl 1 7) with 128 in H. change (1 * 2 ^ 7) with 128 in H. apply H; lia.
  - rewrite land_127. symmetry. apply (Z.mod_unique _ _ 1); lia.
  - intros H0. apply (f_equal (fun x => Z.testbit x 7)) in H0. rewrite Z.land_spec, Z.bits_0 in H0.
    change (Z.testbit 128 7) with true in H0. rewrite andb_true_r in H0.
    apply Z.testbit_false in H0; [|lia].
    change (2 ^ 7) with 128 in H0. replace ((v + 128) / 128) with 1 in H0 by (apply (Z.div_unique _ _ _ v); lia). done.
Qed.

Lemma last_byte v : 0 <= v < 128 -> Z.land v 127 = v /\ Z.land v 128 = 0.
Proof.
  intros Hv. split; [rewrite land_127; by apply Z.mod_small|].
  apply Z.bits_inj'. intros i Hi. rewrite Z.land_spec, Z.bits_0.
  destruct (decide (i = 7)) as [->|Hne].
  - replace (Z.testbit v 7) with false; [done|]. symmetry. apply Z.testbit_false; [lia|].
    by rewrite Z.div_small.
  - change 128 with (2 ^ 7). rewrite Z.pow2_bits_false by done. apply andb_false_r.
Qed.

Lemma read_write fuel : forall m k r rest max_int,
  0 <= m < 2 ^ Z.of_nat fuel -> (0 < fuel)%nat -> 0 <= k -> 0 <= r < 2 ^ (k * 7) -> r + m * 2 ^ (k * 7) < max_int ->
  read_loop max_int k r (write_loop fuel m ++ rest) = Ok (r + m * 2 ^ (k * 7), rest).
Proof.
  induction fuel as [|n IH]; intros m k r rest max_int Hm Hf Hk Hr Hmax; [lia|]. cbn [write_loop].
  rewrite land_127, shiftr_7. pose proof (Z.mod_pos_bound m 128) as Hv. pose proof (Z.div_mod m 128) as Hdm.
  assert (0 < 2 ^ (k * 7)) by (apply Z.pow_pos_nonneg; lia).
  assert (Hk1 : 2 ^ ((k + 1) * 7) = 128 * 2 ^ (k * 7)).
  { replace ((k + 1) * 7) with (7 + k * 7) by lia. by rewrite Z.pow_add_r by lia. }
  destruct (m / 128 =? 0) eqn:E; propify; cbn [app read_loop].
  - destruct (last_byte (m mod 128)) as [-> ->]; [lia|]. rewrite lor_disjoint by lia.
    rewrite (proj2 (Z.leb_gt _ _)) by nia. simpl. do 2 f_equal. nia.
  - destruct (continued_byte (m mod 128)) as (-> & -> & H128); [lia|]. rewrite lor_disjoint by lia.
    assert (0 < m / 128) by (assert (0 <= m / 128) by (apply Z.div_pos; lia); lia).
    rewrite (proj2 (Z.leb_gt _ _)) by nia. rewrite (proj2 (Z.eqb_neq _ _)) by done.
    rewrite Nat2Z.inj_succ, Z.pow_succ_r in Hm by lia.
    destruct n as [|n']; [simpl in Hm; nia|].
    rewrite IH; [|split; [lia|]|lia|lia|rewrite Hk1|rewrite Hk1].
    + rewrite Hk1. do 2 f_equal. nia.
    + apply Z.div_lt_upper_bound; nia.
    + split; nia.
    + nia.
Qed.

Lemma varint_read_back n max_bits rest :
  0 <= max_bits -> 0 <= n < 2 ^ max_bits ->
  exists b, write_unsigned_varint n max_bits = Ok b /\ read_unsigned_varint max_bits (b ++ rest) = Ok (n, rest).
Proof.
  intros Hb Hn. unfold write_unsigned_varint, read_unsigned_varint. rewrite Z.shiftl_mul_pow2, Z.mul_1_l by done.
  rewrite (proj2 (Z.ltb_ge _ _)) by lia. rewrite (proj2 (Z.leb_gt _ _)) by lia.
  eexists. split; [done|]. rewrite read_write.
  - f_equal. f_equal. change (2 ^ (0 * 7)) with 1. lia.
  - split; [lia|]. rewrite Nat2Z.inj_succ, Z2Nat.id by apply Z.log2_nonneg.
    destruct (decide (n = 0)) as [->|]; [done|]. apply Z.log2_spec. lia.
  - lia.
  - lia.
  - by split.
  - change (2 ^ (0 * 7)) with 1. lia.
Qed.

Lemma write_loop_bytes fuel : forall n, Forall is_byte (write_loop fuel n).
Proof.
  induction fuel as [|f IH]; intros n; cbn [write_loop]; [constructor|].
  assert (Hm : 0 <= Z.land n 127 < 128) by (rewrite land_127; apply Z.mod_pos_bound; lia).
  destruct (continued_byte (Z.land n 127) Hm) as [Hc _].
  destruct (_ =? 0); constructor; auto; unfold is_byte; lia.
Qed.

Lemma read_loop_shorter stream : forall max_int k r n rest,
  read_loop max_int k r stream = Ok (n, rest) -> (length rest < length stream)%nat.
Proof.
  induction stream as [|c s IH]; intros max_int k r n rest H; cbn [read_loop] in H; [done|].
  destruct (max_int <=? _); [done|]. destruct (_ =? 0); [simplify_eq; simpl; lia|].
  apply IH in H. simpl. lia.
Qed.

(** What a read returns fits in the width, whatever the stream holds. *)
Lemma read_bounded stream : forall max_int k r n rest,
  0 <= k -> 0 <= r -> read_loop max_int k r stream = Ok (n, rest) -> 0 <= n < max_int.
Proof.
  induction stream as [|c s IH]; intros max_int k r n rest Hk Hr H; cbn [read_loop] in H; [done|].
  assert (0 <= Z.lor r (Z.shiftl (Z.land c 127) (k * 7))).
  { apply Z.lor_nonneg. split; [done|]. apply Z.shiftl_nonneg, Z.land_nonneg. lia. }
  destruct (max_int <=? _) eqn:E; [done|]. propify. destruct (_ =? 0); [by simplify_eq|]. eapply IH; [..|exact H]; lia.
Qed.

Section Frames.
Context {Msg : Type} (SerializeToString : Msg -> bytes) (ParseFromString : bytes -> result Msg).
Hypothesis parse_serialize : forall m, ParseFromString (SerializeToString m) = Ok m.

Lemma frame_read_back m rest : (Z.of_nat (length (SerializeToString m)) < 2 ^ DEFAULT_MAX_BITS) ->
  exists b, write_pbmsg SerializeToString m = Ok b /\ read_pbmsg_safe ParseFromString (b ++ rest) = Ok (m, rest).
Proof using parse_serialize.
  intros Hl. unfold write_pbmsg, read_pbmsg_safe.
  destruct (varint_read_back (Z.of_nat (length (SerializeToString m))) DEFAULT_MAX_BITS (SerializeToString m ++ rest))
    as (b & -> & Hr); [done|lia|]. cbn [rbind]. eexists. split; [done|]. rewrite <- app_assoc, Hr. cbn [rbind].
  unfold readexactly. rewrite Nat2Z.id. rewrite (proj2 (Nat.ltb_ge _ _)) by (rewrite length_app; lia). cbn [rbind].
  rewrite take_app_length, drop_app_length, parse_serialize. done.
Qed.

(** Messages written one after another are read back one by one, whatever follows them: each read takes exactly
    the bytes of its message.  The parser is assumed to give back what the serializer wrote. *)
Theorem framing_roundtrip (ms : list Msg) (rest : bytes) :
  Forall (fun m => Z.of_nat (length (SerializeToString m)) < 2 ^ DEFAULT_MAX_BITS) ms ->
  exists b, write_all SerializeToString ms = Ok b /\ read_all ParseFromString (length ms) (b ++ rest) = Ok (ms, rest).
Proof using parse_serialize.
  induction 1 as [|m ms Hm Hms (bs & Hw & Hr)]; [by exists []|]. cbn [write_all length read_all].
  destruct (frame_read_back m (bs ++ rest) Hm) as (b & -> & Hb). rewrite Hw. cbn [rbind].
  eexists. split; [done|]. rewrite <- app_assoc, Hb. cbn [rbind]. by rewrite Hr.
Qed.
End Frames.

Lemma framing_roundtrip_witness :
  exists b, write_all (fun m : bytes => m) [replicate 300 7; []; [1; 2]] = Ok b /\
            read_all (fun b => Ok b) 3 (b ++ [9]) = Ok ([replicate 300 7; []; [1; 2]], [9]).
Proof.
  apply (framing_roundtrip (fun m : bytes => m) (fun b => Ok b) (fun m => eq_refl) [replicate 300 7; []; [1; 2]] [9]).
  repeat constructor.
Defined.

(** An unsigned varint of any width is read back exactly, the integers outside the width are refused, and no
    stream makes a read return an integer outside the width. *)
Theorem varint_roundtrip (n max_bits : Z) (rest stream : bytes) :
  0 <= max_bits ->
  (0 <= n < 2 ^ max_bits -> exists b, write_unsigned_varint n max_bits = Ok b /\
     read_unsigned_varint max_bits (b ++ rest) = Ok (n, rest)) /\
  (~ 0 <= n < 2 ^ max_bits -> write_unsigned_varint n max_bits = Raise ValueError) /\
  (forall m s, read_unsigned_varint max_bits stream = Ok (m, s) -> 0 <= m < 2 ^ max_bits).
Proof.
  intros Hb. split_and!.
  - by apply varint_read_back.
  - intros Hn. unfold write_unsigned_varint. rewrite Z.shiftl_mul_pow2, Z.mul_1_l by done.
    destruct (n <? 0) eqn:E; [done|]. propify. by rewrite (proj2 (Z.leb_le _ _)) by lia.
  - intros m s Hr. unfold read_unsigned_varint in Hr. rewrite Z.shiftl_mul_pow2, Z.mul_1_l in Hr by done.
    eapply read_bounded; [..|exact Hr]; lia.
Qed.

Lemma varint_roundtrip_witness :
  exists b, write_unsigned_varint 70000 64 = Ok b /\ read_unsigned_varint 64 (b ++ [1; 2]) = Ok (70000, [1; 2]).
Proof. apply (varint_roundtrip 70000 64 [1; 2] []); lia. Defined.

Example varint_300 : write_unsigned_varint 300 64 = Ok [172; 2].
Proof. reflexivity. Qed.
