(* ===== verification/PeerIdentity.v ===== *)
(** * Multihashes and peer identifiers ([mesh/utils/multihash/multihash.py], [PeerID] of
    [mesh/p2p/p2p_daemon_bindings/datastructures.py], [mesh/utils/peer_id.py] and the identity functions of
    [mesh/utils/key.py])

    A peer identifier is a byte string: the SHA-256 multihash of an RSA public key, or the Ed25519 public key itself
    behind a fixed prefix.  The [varint] package, SHA-256, the protobuf encoding of a public key and the key
    encodings of the [cryptography] package are parameters. *)

From S2P Require Import Prelude DHTID Base58 HashTable Framing.

(** ** The [varint] package *)

Class Varint := {
  varint_encode : Z -> bytes;
  decode_stream : bytes -> result (Z * bytes);
}.

(** What an encoding promises: the integer and the rest of the stream are recovered, a small integer is one byte,
    and reading consumes a byte at least. *)
Class VarintLaws `{Varint} : Prop := {
  varint_nonempty n : varint_encode n <> [];
  varint_small n : 0 <= n < 128 -> varint_encode n = [n];
  varint_bytes n : 0 <= n -> Forall is_byte (varint_encode n);
  varint_consumes s n rest : decode_stream s = Ok (n, rest) -> (length rest < length s)%nat;
  varint_decode n rest : 0 <= n < 2 ^ 32 -> decode_stream (varint_encode n ++ rest) = Ok (n, rest);
}.

(** ** Multihashes *)

(** The argument of [coerce_code]: a name, a code, or a value of another type. *)
Inductive HashFn : Type := HName (name : string) | HCode (code : Z) | HOther.

Definition is_app_code (code : Z) : bool := (0 <? code) && (code <? 16).

Definition is_valid_code (code : Z) : bool := is_app_code code || dmem CODE_HASHES code.

Definition coerce_code (hash_fn : HashFn) : result Z :=
  match hash_fn with
  | HName name => of_option ValueError (dget HASH_CODES name)
  | HCode code => if dmem CODE_HASHES code || is_app_code code then Ok code else Raise ValueError
  | HOther => Raise TypeError
  end.

(** [name] is the code itself when the table has none. *)
Record Multihash : Type := mkMultihash { mh_code : Z; mh_name : string + Z; mh_length : Z; mh_digest : bytes }.

Section Multihash.
Context `{Varint}.

(** A [TypeError] of the package is reported as a [ValueError]. *)
Definition decode_varint (s : bytes) : result (Z * bytes) :=
  match decode_stream s with Raise TypeError => Raise ValueError | r => r end.

Definition multihash_decode (multihash : bytes) : result Multihash :=
  if (length multihash <? 3)%nat then Raise ValueError
  else
    let* (code, s1) := decode_varint multihash in
    if negb (is_valid_code code) then Raise ValueError
    else
      let* (len, buf) := decode_varint s1 in
      if Z.of_nat (length buf) =? len
      then Ok (mkMultihash code (match dget CODE_HASHES code with Some n => inl n | None => inr code end) len buf)
      else Raise ValueError.

Definition multihash_encode (digest : bytes) (code : HashFn) (len : option Z) : result bytes :=
  let* hash_code := coerce_code code in
  let encoded n := Ok (varint_encode hash_code ++ varint_encode n ++ digest) in
  match len with
  | None => encoded (Z.of_nat (length digest))
  | Some n => if n =? Z.of_nat (length digest) then encoded n else Raise ValueError
  end.

(** [is_valid]: only a [ValueError] means no. *)
Definition is_valid (multihash : bytes) : result bool :=
  match multihash_decode multihash with
  | Ok _ => Ok true
  | Raise ValueError => Ok false
  | Raise e => Raise e
  end.

Definition get_prefix (multihash : bytes) : result bytes :=
  let* ok := is_valid multihash in if ok then Ok (take 2 multihash) else Raise ValueError.

Definition to_b58_string (multihash : bytes) : bytes := b58encode BITCOIN_ALPHABET multihash.
Definition from_b58_string (text : bytes) : result bytes := b58decode BITCOIN_ALPHABET text false.
End Multihash.

(** ** [PeerID] *)

(** The object keeps its bytes and their text; two identifiers are equal when their bytes are. *)
Record PeerID : Type := mkPeerID { peer_bytes : bytes; b58_str : bytes }.

Definition PeerID_init (peer_id_bytes : bytes) : PeerID :=
  mkPeerID peer_id_bytes (b58encode BITCOIN_ALPHABET peer_id_bytes).

Definition to_base58 (p : PeerID) : bytes := b58_str p.

Definition from_base58 (base58_id : bytes) : result PeerID :=
  rmap PeerID_init (b58decode BITCOIN_ALPHABET base58_id false).

(** What [__eq__] compares with. *)
Inductive Other : Type := OText (s : bytes) | OBytes (b : bytes) | OPeer (p : PeerID) | OAny.

Definition peer_eqb (p : PeerID) (other : Other) : bool :=
  match other with
  | OText s => bool_decide (to_base58 p = s)
  | OBytes b => bool_decide (peer_bytes p = b)
  | OPeer q => bool_decide (peer_bytes p = peer_bytes q)
  | OAny => false
  end.

(** ** Identifiers from keys *)

Inductive KeyKind : Type := RSA | Ed25519 | Secp256k1 | ECDSA.

Definition key_type_code (k : KeyKind) : Z := match k with RSA => 0 | Ed25519 => 1 | Secp256k1 => 2 | ECDSA => 3 end.

(** The kind of a key, its DER and raw encodings, the serialized protobuf [PublicKey] message, and the hash. *)
Class KeyLib (PublicKey : Type) := {
  key_kind : PublicKey -> KeyKind;
  der_bytes : PublicKey -> bytes;
  raw_bytes : PublicKey -> bytes;
  pb_public_key : Z -> bytes -> bytes;
  sha256 : bytes -> bytes;
}.

Section Identity.
Context {PublicKey : Type} `{KeyLib PublicKey} `{Varint}.

Definition rsa_peer_bytes (pk : PublicKey) : result bytes :=
  let* code := coerce_code (HName "sha2-256") in
  multihash_encode (sha256 (pb_public_key (key_type_code RSA) (der_bytes pk))) (HCode code) None.

Definition ed25519_peer_bytes (pk : PublicKey) : bytes :=
  [0; 36] ++ pb_public_key (key_type_code Ed25519) (raw_bytes pk).

(** [get_rsa_peer_id] and [get_ed25519_peer_id]: an exception gives [None]. *)
Definition get_rsa_peer_id (pk : PublicKey) : option PeerID :=
  match rsa_peer_bytes pk with Ok b => Some (PeerID_init b) | Raise _ => None end.

Definition get_ed25519_peer_id (pk : PublicKey) : option PeerID := Some (PeerID_init (ed25519_peer_bytes pk)).

(** [get_peer_id_from_pubkey] *)
Definition get_peer_id_from_pubkey (pk : PublicKey) : option PeerID :=
  match key_kind pk with
  | RSA => get_rsa_peer_id pk
  | Ed25519 => get_ed25519_peer_id pk
  | _ => None
  end.

(** [extract_peer_id_from_public_key] on a loaded key. *)
Definition extract_peer_id_from_public_key (pk : PublicKey) : result (option PeerID) :=
  match key_kind pk with
  | RSA => let* b := rsa_peer_bytes pk in Ok (Some (PeerID_init b))
  | Ed25519 => Ok (Some (PeerID_init (ed25519_peer_bytes pk)))
  | _ => Ok None
  end.

(** [PeerID.from_identity], from the kind of the private key in the identity file and its public key. *)
Definition from_identity (kind : KeyKind) (pk : PublicKey) : result PeerID :=
  match kind with
  | RSA => rmap PeerID_init (rsa_peer_bytes pk)
  | Ed25519 => Ok (PeerID_init (ed25519_peer_bytes pk))
  | Secp256k1 | ECDSA => Raise ValueError
  end.
End Identity.

(** ** Lemmas *)

(** Every code of the table is found again, in both directions, and fits in 32 bits. *)
Lemma tables_agree :
  forallb (fun x => dmem CODE_HASHES x.2 && (0 <=? x.2) && (x.2 <? 2 ^ 32)) HASH_CODES = true /\
  forallb (fun x => dmem HASH_CODES x.2 && (0 <=? x.1) && (x.1 <? 2 ^ 32)) CODE_HASHES = true.
Proof. split; vm_compute; reflexivity. Qed.

Lemma coerce_code_valid fn code : coerce_code fn = Ok code -> is_valid_code code = true /\ 0 <= code < 2 ^ 32.
Proof.
  destruct tables_agree as [Hn Hc]. rewrite forallb_forall in Hn, Hc. unfold is_valid_code, is_app_code.
  destruct fn as [name|c|]; cbn [coerce_code]; [..|done].
  - destruct (dget HASH_CODES name) as [c|] eqn:E; cbn [of_option]; [|done]. intros [= ->].
    apply dget_elem_of, list_elem_of_In in E. specialize (Hn _ E). cbn [snd] in Hn. propify. destruct Hn as [[Hm ?] ?].
    rewrite Hm, orb_true_r. lia.
  - unfold is_app_code. destruct (dmem CODE_HASHES c) eqn:E; cbn [orb].
    + intros [= ->]. rewrite E, orb_true_r. split; [done|]. apply dmem_true in E as [n E].
      apply dget_elem_of, list_elem_of_In in E. specialize (Hc _ E). cbn [fst] in Hc. propify. lia.
    + destruct (_ && _) eqn:Ea; [|done]. intros [= ->]. rewrite Ea. propify. split; [done|lia].
Qed.

Section Laws.
Context `{VarintLaws}.

Definition name_of (code : Z) : string + Z := match dget CODE_HASHES code with Some n => inl n | None => inr code end.

(** Decoding what starts with the code, the length and the digest. *)
Lemma decode_parts code digest :
  is_valid_code code = true -> 0 <= code < 2 ^ 32 -> digest <> [] -> Z.of_nat (length digest) < 2 ^ 32 ->
  multihash_decode (varint_encode code ++ varint_encode (Z.of_nat (length digest)) ++ digest) =
    Ok (mkMultihash code (name_of code) (Z.of_nat (length digest)) digest).
Proof.
  intros Hv Hc Hd Hl. unfold multihash_decode. rewrite (proj2 (Nat.ltb_ge _ _)).
  2: { rewrite !length_app. pose proof (varint_nonempty code). pose proof (varint_nonempty (Z.of_nat (length digest))).
       destruct (varint_encode code), (varint_encode (Z.of_nat (length digest))), digest; simpl; done || lia. }
  unfold decode_varint. rewrite varint_decode by done. cbn [rbind]. rewrite Hv. cbn [negb].
  rewrite varint_decode by lia. cbn [rbind]. by rewrite Z.eqb_refl.
Qed.

Lemma encode_decodes digest fn b :
  multihash_encode digest fn None = Ok b -> digest <> [] -> Z.of_nat (length digest) < 2 ^ 32 ->
  exists code, coerce_code fn = Ok code /\
    multihash_decode b = Ok (mkMultihash code (name_of code) (Z.of_nat (length digest)) digest).
Proof.
  unfold multihash_encode. intros He Hd Hl. mon_inv. simplify_eq. destruct (coerce_code_valid _ _ E) as [Hv Hc].
  eexists. split; [done|]. by apply decode_parts.
Qed.
End Laws.

(** * Theorems *)

Section Theorems.
Context {PublicKey : Type} `{KL : KeyLib PublicKey} `{VL : VarintLaws}.

(** A multihash decodes to the hash function it was made with, its name in the table, and the digest; and its
    text form decodes to it. *)
Theorem multihash_roundtrip (digest : bytes) (fn : HashFn) (b : bytes) :
  multihash_encode digest fn None = Ok b -> digest <> [] -> Z.of_nat (length digest) < 2 ^ 32 ->
  (exists code, coerce_code fn = Ok code /\
     multihash_decode b = Ok (mkMultihash code (name_of code) (Z.of_nat (length digest)) digest)) /\
  (Forall is_byte b -> from_b58_string (to_b58_string b) = Ok b).
Proof using VL.
  intros He Hd Hl. split; [by apply encode_decodes|]. intros Hb. by apply (decode_encode BITCOIN_ALPHABET).
Qed.

Hypothesis sha256_digest : forall m : bytes, sha256 m <> [] /\ Z.of_nat (length (sha256 m)) < 2 ^ 32.

Lemma rsa_bytes pk : exists b, rsa_peer_bytes pk = Ok b /\
  rmap mh_code (multihash_decode b) = Ok 18 /\
  rmap mh_digest (multihash_decode b) = Ok (sha256 (pb_public_key 0 (der_bytes pk))).
Proof using VL sha256_digest.
  destruct (sha256_digest (pb_public_key 0 (der_bytes pk))) as [Hne Hl].
  assert (Hc : coerce_code (HName "sha2-256") = Ok 18) by (vm_compute; reflexivity).
  assert (Hc' : coerce_code (HCode 18) = Ok 18) by (vm_compute; reflexivity).
  unfold rsa_peer_bytes. rewrite Hc. cbn [rbind]. unfold multihash_encode. rewrite Hc'. cbn [rbind key_type_code].
  eexists. split; [reflexivity|]. destruct (coerce_code_valid _ _ Hc') as [Hv Hr]. by rewrite decode_parts.
Qed.

(** An Ed25519 identifier is never a SHA-256 multihash. *)
Lemma ed_not_sha256 pk : rmap mh_code (multihash_decode (ed25519_peer_bytes pk)) <> Ok 18.
Proof using VL.
  unfold multihash_decode, ed25519_peer_bytes, decode_varint. destruct (_ <? 3)%nat; [done|].
  change ([0; 36] ++ ?x) with ([0] ++ [36] ++ x). rewrite <- (varint_small 0), varint_decode by done. cbn [rbind].
  destruct (negb _); [done|]. set (r := match decode_stream _ with Ok _ => _ | Raise _ => _ end).
  destruct r as [[len buf]|]; cbn [rbind]; [|done]. by destruct (_ =? len).
Qed.

Lemma PeerID_init_inj b b' : PeerID_init b = PeerID_init b' -> b = b'.
Proof using Type. intros E. by apply (f_equal peer_bytes) in E. Qed.

(** Every place that derives a peer identifier from an RSA or Ed25519 key gives the same one (the authorizers,
    the record validators and the identity file), and the identifier's text leads back to it. *)
Theorem peer_id_functions_agree (pk : PublicKey) :
  key_kind pk = RSA \/ key_kind pk = Ed25519 ->
  exists b, get_peer_id_from_pubkey pk = Some (PeerID_init b) /\
    extract_peer_id_from_public_key pk = Ok (Some (PeerID_init b)) /\
    from_identity (key_kind pk) pk = Ok (PeerID_init b) /\
    (Forall is_byte b -> from_base58 (to_base58 (PeerID_init b)) = Ok (PeerID_init b)).
Proof using VL sha256_digest.
  intros Hk. unfold get_peer_id_from_pubkey, extract_peer_id_from_public_key, from_identity, get_rsa_peer_id.
  assert (Ht : forall b, Forall is_byte b -> from_base58 (to_base58 (PeerID_init b)) = Ok (PeerID_init b)).
  { intros b Hb. unfold from_base58, to_base58. cbn [PeerID_init b58_str].
    by rewrite (decode_encode BITCOIN_ALPHABET). }
  destruct Hk as [-> | ->].
  - destruct (rsa_bytes pk) as (b & -> & _). exists b. cbn [rbind rmap]. auto.
  - exists (ed25519_peer_bytes pk). auto.
Qed.

(** A peer identifier determines the kind of its key, for an RSA key the hash of the encoded key, and for an
    Ed25519 key the encoded key itself: an identifier of one kind is never one of the other. *)
Theorem peer_id_determines_key (pk pk' : PublicKey) (p : PeerID) :
  get_peer_id_from_pubkey pk = Some p -> get_peer_id_from_pubkey pk' = Some p ->
  key_kind pk = key_kind pk' /\
  (key_kind pk = RSA -> sha256 (pb_public_key 0 (der_bytes pk)) = sha256 (pb_public_key 0 (der_bytes pk'))) /\
  (key_kind pk = Ed25519 -> pb_public_key 1 (raw_bytes pk) = pb_public_key 1 (raw_bytes pk')).
Proof using VL sha256_digest.
  unfold get_peer_id_from_pubkey, get_rsa_peer_id, get_ed25519_peer_id.
  destruct (rsa_bytes pk) as (b & -> & Hc & Hd), (rsa_bytes pk') as (b' & -> & Hc' & Hd').
  destruct (key_kind pk), (key_kind pk'); try discriminate; intros H1 H2;
    rewrite <- H2 in H1; apply (inj Some), PeerID_init_inj in H1.
  - split; [reflexivity|]. split; [intros _|discriminate]. subst. rewrite Hd in Hd'. by injection Hd'.
  - subst. by destruct (ed_not_sha256 pk').
  - subst. by destruct (ed_not_sha256 pk).
  - split; [reflexivity|]. split; [discriminate|intros _]. unfold ed25519_peer_bytes in H1. by simplify_eq.
Qed.
End Theorems.

(** ** Witnesses *)

(** An instance of the varint package, by the daemon's own encoding. *)
Definition leb_varint : Varint := {|
  varint_encode n := write_loop (S (Z.to_nat (Z.log2 n))) n;
  decode_stream s := read_unsigned_varint 64 s;
|}.

#[local] Existing Instance leb_varint.

Lemma leb_varint_laws : VarintLaws.
Proof.
  split.
  - intros n. simpl. by destruct (_ =? 0).
  - intros n Hn. destruct (last_byte n Hn) as [Hl _]. cbn [varint_encode leb_varint write_loop].
    rewrite shiftr_7, Z.div_small, Hl by done. done.
  - intros n Hn. apply write_loop_bytes.
  - intros s n rest. apply read_loop_shorter.
  - intros n rest Hn. destruct (varint_read_back n 64 rest) as (b & Hw & Hr); [lia|lia|].
    unfold write_unsigned_varint in Hw. rewrite (proj2 (Z.ltb_ge _ _)), (proj2 (Z.leb_gt _ _)) in Hw; [by simplify_eq| |lia].
    change (Z.shiftl 1 64) with (2 ^ 64). lia.
Qed.

#[local] Existing Instance leb_varint_laws.

(** Keys that are their kind and their bytes, with a hash that pads to 32 bytes. *)
#[local] Instance toy_keys : KeyLib (KeyKind * bytes) := {|
  key_kind := fst; der_bytes := snd; raw_bytes := snd;
  pb_public_key k b := [8; k; 18; Z.of_nat (length b)] ++ b;
  sha256 m := take 32 (m ++ replicate 32 0);
|}.

Lemma toy_sha256 (m : bytes) :
  sha256 (KeyLib := toy_keys) m <> [] /\ Z.of_nat (length (sha256 (KeyLib := toy_keys) m)) < 2 ^ 32.
Proof.
  simpl. rewrite length_take. split; [|lia]. by destruct m.
Qed.

Lemma multihash_roundtrip_witness :
  exists code, coerce_code (HName "sha2-256") = Ok code /\
    multihash_decode [18; 3; 7; 8; 9] = Ok (mkMultihash code (name_of code) 3 [7; 8; 9]).
Proof.
  refine (proj1 (multihash_roundtrip [7; 8; 9] (HName "sha2-256") [18; 3; 7; 8; 9] _ _ _));
    [vm_compute; reflexivity | done | done].
Defined.

Lemma peer_id_functions_agree_witness :
  exists b, get_peer_id_from_pubkey (RSA, [1; 2; 3]) = Some (PeerID_init b) /\
    extract_peer_id_from_public_key (RSA, [1; 2; 3]) = Ok (Some (PeerID_init b)) /\
    from_identity RSA (RSA, [1; 2; 3]) = Ok (PeerID_init b) /\
    (Forall is_byte b -> from_base58 (to_base58 (PeerID_init b)) = Ok (PeerID_init b)).
Proof. apply (peer_id_functions_agree toy_sha256 (RSA, [1; 2; 3])). by left. Defined.

Lemma peer_id_determines_key_witness :
  exists p, get_peer_id_from_pubkey (Ed25519, [1; 2; 3]) = Some p /\
    pb_public_key 1 (raw_bytes (Ed25519, [1; 2; 3])) = pb_public_key 1 (raw_bytes (Ed25519, [1; 2; 3])).
Proof.
  eexists. split; [reflexivity|].
  refine (proj2 (proj2 (peer_id_determines_key toy_sha256 (Ed25519, [1; 2; 3]) (Ed25519, [1; 2; 3]) _ _ _)) _); reflexivity.
Defined.
