(* ===== verification/CID.v ===== *)
(** * Content identifiers ([mesh/utils/multiaddr/codecs/cid.py])

    The codec of the [p2p] protocol: a peer identifier in a multiaddress.  The text is the base58 multihash (CIDv0) or a
    multibase text (CIDv1); the bytes are a CIDv1.  The packages [multibase], [multicodec] and [morphys] are
    parameters; base58 and multihashes are those of the package. *)

From S2P Require Import Prelude DHTID Base58 HashTable Framing PeerIdentity Text.

(** ** The packages *)

Class Multiformats := {
  multibase_is_encoded : bytes -> bool;
  multibase_decode : bytes -> result bytes;
  multibase_encode : string -> bytes -> result bytes;
  is_codec : string -> bool;
  add_prefix : string -> bytes -> result bytes;
  get_codec : bytes -> result string;
  remove_prefix : bytes -> result bytes;
  ensure_bytes : text -> result bytes;
}.

(** What their documentation promises: a multicodec prefix names a codec and can be removed, the multibase names are
    printable characters, base32 texts are lower case letters and digits after a [b], [ensure_bytes] encodes; and that
    their results are [bytes]. *)
Class MultiformatsLaws `{Multiformats} : Prop := {
  prefix_read c m : is_codec c = true ->
    exists b, add_prefix c m = Ok b /\ b <> [] /\ get_codec b = Ok c /\ remove_prefix b = Ok m;
  prefix_bytes c m b : add_prefix c m = Ok b -> Forall is_byte m -> Forall is_byte b;
  suffix_bytes b m : remove_prefix b = Ok m -> Forall is_byte b -> Forall is_byte m;
  decoded_bytes t b : multibase_decode t = Ok b -> Forall is_byte b;
  ensured_bytes s b : ensure_bytes s = Ok b -> Forall is_byte b;
  libp2p_key : is_codec "libp2p-key" = true;
  binary_not_multibase b : multibase_is_encoded (1 :: b) = false;
  base32_read b t : multibase_encode "base32" b = Ok t ->
    multibase_is_encoded t = true /\ multibase_decode t = Ok b /\
    exists u, t = 98 :: u /\ (b <> [] -> u <> []) /\ Forall (fun c => 97 <= c <= 122 \/ 50 <= c <= 55) u;
  ensure_bytes_utf8 s b : utf8_encode s = Ok b -> ensure_bytes s = Ok b;
}.

(** ** The table of CIDv0 texts *)

Definition CIDv0_PREFIX_TO_LENGTH : pydict text (list Z) :=
  [
    (lit "12", [5; 12; 19; 23; 30; 41; 52; 56]); (lit "13", [9; 16; 34; 45]); (lit "14", [27; 38; 49; 60]);
    (lit "15", [3; 6; 20]); (lit "16", [3; 6; 13; 20; 31; 42; 53]); (lit "17", [3; 13; 42]); (lit "18", [3]);
    (lit "19", [3; 24; 57]); (lit "1A", [24; 35; 46]); (lit "1B", [35]); (lit "1D", [17]); (lit "1E", [10; 17]);
    (lit "1F", [10]); (lit "1G", [10; 28; 50]); (lit "1H", [28; 39]); (lit "1P", [21]); (lit "1Q", [21]);
    (lit "1R", [21; 54]); (lit "1S", [54]); (lit "1T", [7; 32; 43]); (lit "1U", [7; 32; 43]); (lit "1V", [7]);
    (lit "1W", [7; 14]); (lit "1X", [7; 14]); (lit "1Y", [7; 14]); (lit "1Z", [7; 14]); (lit "1f", [4]);
    (lit "1g", [4; 58]); (lit "1h", [4; 25; 58]); (lit "1i", [4; 25]); (lit "1j", [4; 25]); (lit "1k", [4; 25; 47]);
    (lit "1m", [4; 36; 47]); (lit "1n", [4; 36]); (lit "1o", [4; 36]); (lit "1p", [4]); (lit "1q", [4]);
    (lit "1r", [4]); (lit "1s", [4]); (lit "1t", [4]); (lit "1u", [4]); (lit "1v", [4]); (lit "1w", [4]);
    (lit "1x", [4]); (lit "1y", [4]); (lit "1z", [4; 18]); (lit "Qm", [46]) ].

Definition PROTO_NAME_TO_CIDv1_CODEC : pydict text string := [(lit "p2p", "libp2p-key"%string)].

(** [len(string) in CIDv0_PREFIX_TO_LENGTH.get(string[0:2], ())] *)
Definition is_cidv0_text (string : text) : bool :=
  bool_decide (Z.of_nat (length string) ∈ default [] (dget CIDv0_PREFIX_TO_LENGTH (take 2 string))).

(** [_is_binary_cidv0_multihash] *)
Definition is_binary_cidv0_multihash (buf : bytes) : result bool :=
  if bool_decide (take 2 buf = [18; 32]) && (length buf =? 34)%nat then Ok true
  else
    match buf with
    | [] => Raise IndexError
    | b0 :: r =>
        if b0 =? 0 then
          match r with
          | [] => Raise IndexError
          | b1 :: _ => Ok ((b1 <? 43) && (Z.of_nat (length buf) =? b1 + 2))
          end
        else Ok false
    end.

(** ** Content identifiers *)

Inductive CID : Type :=
  | CIDv0 (multihash : bytes)
  | CIDv1 (codec : string) (multihash : bytes).

Definition CIDv0_CODEC : string := "dag-pb".

Definition cid_version (c : CID) : Z := match c with CIDv0 _ => 0 | CIDv1 _ _ => 1 end.
Definition cid_codec (c : CID) : string := match c with CIDv0 _ => CIDv0_CODEC | CIDv1 codec _ => codec end.
Definition cid_multihash (c : CID) : bytes := match c with CIDv0 m => m | CIDv1 _ m => m end.

(** [BaseCID.__eq__] *)
Definition cid_eqb (a b : CID) : bool :=
  (cid_version a =? cid_version b) && bool_decide (cid_codec a = cid_codec b) &&
  bool_decide (cid_multihash a = cid_multihash b).

(** [CIDv0.to_v1] and [CIDv1.to_v0] *)
Definition to_v1 (multihash : bytes) : CID := CIDv1 CIDv0_CODEC multihash.
Definition to_v0 (codec : string) (multihash : bytes) : result CID :=
  if decide (codec = CIDv0_CODEC) then Ok (CIDv0 multihash) else Raise ValueError.

(** [b.decode("ascii")] *)
Definition ascii_decode (b : bytes) : result text := if forallb (fun c => c <? 128) b then Ok b else Raise ValueError.

(** The white space [str.rstrip] removes. *)
Definition str_space `{Unicode} (c : Z) : bool :=
  if c <? 128 then ((9 <=? c) && (c <=? 13)) || ((28 <=? c) && (c <=? 32)) else uni_space c.

Fixpoint drop_str_spaces `{Unicode} (s : text) : text :=
  match s with
  | [] => []
  | c :: s' => if str_space c then drop_str_spaces s' else s
  end.

(** [base58.b58decode] of a [str]: [scrub_input] encodes to ASCII. *)
Definition b58decode_str `{Unicode} (s : text) : result bytes :=
  let s := reverse (drop_str_spaces (reverse s)) in
  if forallb (fun c => c <? 128) s then b58decode BITCOIN_ALPHABET s false else Raise ValueError.

Section CID.
Context `{Varint} `{Multiformats} `{Unicode}.

(** The property [buffer] and the method [encode] of the two versions. *)
Definition cid_buffer (c : CID) : result bytes :=
  match c with
  | CIDv0 m => Ok m
  | CIDv1 codec m => let* data := add_prefix codec m in Ok (1 :: data)
  end.

(** Version 0 takes no encoding; version 1 has a default. *)
Definition cid_encode (c : CID) (encoding : option string) : result bytes :=
  match c, encoding with
  | CIDv0 m, None => Ok (b58encode BITCOIN_ALPHABET m)
  | CIDv0 _, Some _ => Raise TypeError
  | CIDv1 _ _, _ => let* buffer := cid_buffer c in multibase_encode (default "base58btc"%string encoding) buffer
  end.

(** [make_cid] with three arguments, the last of them [bytes] *)
Definition make_cid (version : Z) (codec : string) (multihash : bytes) : result CID :=
  if negb ((version =? 0) || (version =? 1)) then Raise ValueError
  else if negb (is_codec codec) then Raise ValueError
  else if version =? 0 then
    if decide (codec = CIDv0_CODEC) then Ok (CIDv0 multihash) else Raise ValueError
  else Ok (CIDv1 codec multihash).

(** [from_bytes]: the last [try] re-raises what [multihash.decode] raised. *)
Definition cid_from_bytes (cidbytes : bytes) : result CID :=
  match cidbytes with
  | b0 :: ((_ :: _) as data) =>
      let* parts :=
        if negb (b0 =? 0) && multibase_is_encoded cidbytes then
          let* cid := multibase_decode cidbytes in
          match cid with
          | version :: ((_ :: _) as data) =>
              let* codec := get_codec data in
              let* multihash := remove_prefix data in
              Ok (version, codec, multihash)
          | _ => Raise ValueError
          end
        else if (b0 =? 0) || (b0 =? 1) then
          let* codec := get_codec data in
          let* multihash := remove_prefix data in
          Ok (b0, codec, multihash)
        else
          let* multihash := b58decode BITCOIN_ALPHABET cidbytes false in
          Ok (0, CIDv0_CODEC, multihash) in
      let '(version, codec, multihash) := parts in
      let* _ := multihash_decode multihash in
      make_cid version codec multihash
  | _ => Raise ValueError
  end.

(** [from_string] *)
Definition cid_from_string (cidstr : text) : result CID :=
  let* cidbytes := ensure_bytes cidstr in cid_from_bytes cidbytes.

(** [make_cid] with one argument, and [is_cid] *)
Inductive CIDArg : Type := AStr (s : text) | ABytes (b : bytes) | AOther.

Definition make_cid_of (data : CIDArg) : result CID :=
  match data with
  | AStr s => cid_from_string s
  | ABytes b => cid_from_bytes b
  | AOther => Raise ValueError
  end.

Definition is_cid (cidstr : CIDArg) : result bool :=
  match make_cid_of cidstr with
  | Ok _ => Ok true
  | Raise ValueError => Ok false
  | Raise e => Raise e
  end.

(** A codec that is expected must be the codec of the parsed identifier. *)
Definition check_codec (expected : option string) (parsed : CID) : result unit :=
  match expected with
  | Some codec => if decide (cid_codec parsed = codec) then Ok tt else Raise ValueError
  | None => Ok tt
  end.

(** [to_bytes(proto, string)] and [to_string(proto, buf)]; the codec reads the name of the protocol. *)
Definition cid_to_bytes (proto_name string : text) : result bytes :=
  let expected_codec := dget PROTO_NAME_TO_CIDv1_CODEC proto_name in
  if is_cidv0_text string then
    let* multihash := b58decode_str string in
    match expected_codec with
    | Some codec => let* cid := make_cid 1 codec multihash in cid_buffer cid
    | None => Ok multihash
    end
  else
    let* parsed := cid_from_string string in
    let* _ := check_codec expected_codec parsed in
    cid_buffer parsed.

Definition cid_to_string (proto_name : text) (buf : bytes) : result text :=
  let expected_codec := dget PROTO_NAME_TO_CIDv1_CODEC proto_name in
  let* is_v0 := is_binary_cidv0_multihash buf in
  if is_v0 then Ok (b58encode BITCOIN_ALPHABET buf)
  else
    let* parsed := cid_from_bytes buf in
    let* _ := check_codec expected_codec parsed in
    let* short :=
      match expected_codec with
      | Some _ => is_binary_cidv0_multihash (cid_multihash parsed)
      | None => Ok false
      end in
    if short then Ok (b58encode BITCOIN_ALPHABET (cid_multihash parsed))
    else let* encoded := cid_encode parsed (Some "base32"%string) in ascii_decode encoded.
End CID.

(** ** The table is complete *)

(** The [n] last base58 digits of [D], as characters *)
Fixpoint leading (n : nat) (D : Z) : text :=
  match n with
  | O => []
  | S n' => slice1 BITCOIN_ALPHABET (D / 58 ^ Z.of_nat n' mod 58) ++ leading n' D
  end.

(** [58^k] for the lengths that occur *)
Definition powers : list Z := map (fun k => 58 ^ Z.of_nat k) (seq 0 64).

(** The texts made of [prefix] and the digits of a number between [lo] and [hi] are in the table; [n] is the number of
    leading digits that, with [prefix], are the key, and [k] digits follow them. *)
Definition covered (prefix : text) (n : nat) (lo hi : Z) (powers : list Z) : bool :=
  let first := 58 ^ (Z.of_nat n - 1) in
  forallb (fun '(k, p) =>
    if (first * p <? hi) && (lo <? first * 58 * p) then
      forallb (fun D =>
        if (D * p <? hi) && (lo <? (D + 1) * p)
        then bool_decide (Z.of_nat (length prefix + n + k) ∈ default [] (dget CIDv0_PREFIX_TO_LENGTH (prefix ++ leading n D)))
        else true) (seqZ first (57 * first))
    else true) (zip (seq 0 64) powers).

Lemma identity_covered n : n ∈ seqZ 1 42 -> covered (lit "1") 1 (n * 256 ^ n) ((n + 1) * 256 ^ n) powers = true.
Proof.
  intros Hn. assert (Hall : forallb (fun n => covered (lit "1") 1 (n * 256 ^ n) ((n + 1) * 256 ^ n) powers) (seqZ 1 42) = true).
  { vm_compute. reflexivity. }
  rewrite forallb_forall in Hall. by apply Hall, list_elem_of_In.
Qed.

Lemma sha256_covered : covered [] 2 (4640 * 256 ^ 32) (4641 * 256 ^ 32) powers = true.
Proof. vm_compute. reflexivity. Qed.

Lemma powers_lookup k : (k < 64)%nat -> (k, 58 ^ Z.of_nat k) ∈ zip (seq 0 64) powers.
Proof.
  intros Hk. apply list_elem_of_lookup. exists k. rewrite lookup_zip_with, lookup_seq_lt by done. unfold powers.
  change (map ?f ?l) with (f <$> l). rewrite list_lookup_fmap, lookup_seq_lt by done. done.
Qed.

Lemma covered_spec prefix n lo hi num D k :
  covered prefix n lo hi powers = true -> (0 < n)%nat -> (k < 64)%nat -> lo <= num < hi ->
  58 ^ (Z.of_nat n - 1) <= D < 58 * 58 ^ (Z.of_nat n - 1) -> D * 58 ^ Z.of_nat k <= num < (D + 1) * 58 ^ Z.of_nat k ->
  Z.of_nat (length prefix + n + k) ∈ default [] (dget CIDv0_PREFIX_TO_LENGTH (prefix ++ leading n D)).
Proof.
  unfold covered. intros Hc Hn Hk Hnum HD Hp. set (first := 58 ^ (Z.of_nat n - 1)) in *.
  rewrite forallb_forall in Hc. specialize (Hc _ (proj1 (list_elem_of_In _ _) (powers_lookup k Hk))). simpl in Hc.
  assert (Hpos : 0 < 58 ^ Z.of_nat k) by (apply Z.pow_pos_nonneg; lia).
  rewrite (proj2 (Z.ltb_lt _ hi)), (proj2 (Z.ltb_lt lo _)) in Hc by nia. cbn [andb] in Hc.
  rewrite forallb_forall in Hc. specialize (Hc D). rewrite (proj2 (Z.ltb_lt _ hi)), (proj2 (Z.ltb_lt lo _)) in Hc by lia.
  cbn [andb] in Hc. eapply bool_decide_eq_true_1, Hc. apply list_elem_of_In, elem_of_seqZ. lia.
Qed.

#[local] Existing Instance bitcoin_alphabet.

Lemma number_bound ds : Forall (is_digit BITCOIN_ALPHABET) ds -> 0 <= number BITCOIN_ALPHABET ds < 58 ^ Z.of_nat (length ds).
Proof.
  induction ds as [|d ds IH] using rev_ind; intros Hds; [done|]. apply Forall_app in Hds as [Hds Hd].
  apply Forall_cons in Hd as [Hd _]. unfold number. rewrite foldl_app. cbn [foldl]. fold (number BITCOIN_ALPHABET ds).
  rewrite length_app. cbn [length]. rewrite Nat2Z.inj_add, Z.pow_add_r by lia. change (58 ^ Z.of_nat 1) with 58.
  unfold is_digit in Hd. change (base BITCOIN_ALPHABET) with 58 in *. specialize (IH Hds). nia.
Qed.

Lemma number_app ds es : number BITCOIN_ALPHABET (ds ++ es) =
  number BITCOIN_ALPHABET ds * 58 ^ Z.of_nat (length es) + number BITCOIN_ALPHABET es.
Proof. unfold number at 1. rewrite foldl_app. fold (number BITCOIN_ALPHABET ds). apply (number_acc BITCOIN_ALPHABET). Qed.

Lemma chars_cons d ds : chars BITCOIN_ALPHABET (d :: ds) = slice1 BITCOIN_ALPHABET d ++ chars BITCOIN_ALPHABET ds.
Proof. done. Qed.

Lemma chars_length ds : Forall (is_digit BITCOIN_ALPHABET) ds -> length (chars BITCOIN_ALPHABET ds) = length ds.
Proof.
  induction 1 as [|d ds Hd Hds IH]; [done|]. rewrite chars_cons, length_app, IH.
  destruct (slice1_digit BITCOIN_ALPHABET d Hd) as (c & -> & _). done.
Qed.

Lemma leading_chars ds : Forall (is_digit BITCOIN_ALPHABET) ds ->
  forall x, x mod 58 ^ Z.of_nat (length ds) = number BITCOIN_ALPHABET ds -> leading (length ds) x = chars BITCOIN_ALPHABET ds.
Proof.
  induction 1 as [|d ds Hd Hds IH]; intros x Hx; [done|]. cbn [leading length]. rewrite chars_cons.
  change (d :: ds) with ([d] ++ ds) in Hx. rewrite number_app in Hx. change (number BITCOIN_ALPHABET [d]) with (0 * 58 + d) in Hx.
  cbn [app length] in Hx. rewrite Nat2Z.inj_succ, Z.pow_succ_r in Hx by lia. pose proof (number_bound ds Hds) as Hb.
  unfold is_digit in Hd. change (base BITCOIN_ALPHABET) with 58 in *. set (p := 58 ^ Z.of_nat (length ds)) in *.
  assert (Hp : 0 < p) by (apply Z.pow_pos_nonneg; lia). rewrite (Z.mul_comm 58 p), Z.rem_mul_r in Hx by lia.
  pose proof (Z.mod_pos_bound (x / p) 58) as Hq. pose proof (Z.mod_pos_bound x p Hp) as Hr.
  destruct (Z.div_mod_unique p ((x / p) mod 58) d (x mod p) (number BITCOIN_ALPHABET ds)) as [-> ?]; [lia..|].
  f_equal. by apply IH.
Qed.

(** The text of a positive number: its leading digits, and where they place the number. *)
Lemma encode_int_leading num n :
  (0 < n)%nat -> 58 ^ (Z.of_nat n - 1) <= num ->
  exists D k rest, b58encode_int BITCOIN_ALPHABET num false = leading n D ++ rest /\ length (leading n D ++ rest) = (n + k)%nat /\
    length (leading n D) = n /\ Forall (fun c => c ∈ BITCOIN_ALPHABET) (leading n D ++ rest) /\
    58 ^ (Z.of_nat n - 1) <= D < 58 * 58 ^ (Z.of_nat n - 1) /\ D * 58 ^ Z.of_nat k <= num < (D + 1) * 58 ^ Z.of_nat k.
Proof.
  intros Hn Hnum. assert (Hpos : 0 < 58 ^ (Z.of_nat n - 1)) by (apply Z.pow_pos_nonneg; lia).
  unfold b58encode_int. rewrite andb_false_r.
  destruct (encode_loop_spec BITCOIN_ALPHABET (S (Z.to_nat (Z.log2 num))) num []) as (ds & -> & Hds & Hv & Hh).
  { split; [lia|]. rewrite Nat2Z.inj_succ, Z2Nat.id by apply Z.log2_nonneg. apply Z.log2_spec. lia. }
  assert (Hl : (n <= length ds)%nat).
  { destruct (Nat.le_gt_cases n (length ds)); [done|]. pose proof (number_bound ds Hds) as Hb. rewrite Hv in Hb.
    assert (58 ^ Z.of_nat (length ds) <= 58 ^ (Z.of_nat n - 1)) by (apply Z.pow_le_mono_r; lia). lia. }
  rewrite <- (take_drop n ds) in Hv, Hds. rewrite number_app in Hv. apply Forall_app in Hds as [H1 H2].
  assert (Hln : length (take n ds) = n) by (rewrite length_take; lia).
  pose proof (number_bound _ H1) as B1. pose proof (number_bound _ H2) as B2. rewrite Hln in B1.
  set (D := number BITCOIN_ALPHABET (take n ds)) in *.
  assert (HL : leading n D = chars BITCOIN_ALPHABET (take n ds)).
  { rewrite <- Hln at 1. apply leading_chars; [done|]. apply Z.mod_small. rewrite Hln. done. }
  exists D, (length (drop n ds)), (chars BITCOIN_ALPHABET (drop n ds)). rewrite app_nil_r, HL.
  assert (Hch : chars BITCOIN_ALPHABET ds = chars BITCOIN_ALPHABET (take n ds) ++ chars BITCOIN_ALPHABET (drop n ds)).
  { rewrite <- (take_drop n ds) at 1. unfold chars. by rewrite map_app, join_app. }
  split_and!.
  - done.
  - rewrite length_app, !chars_length by done. lia.
  - by rewrite chars_length.
  - rewrite <- Hch. apply Forall_forall. intros c Hc. eapply chars_elem; [|done]. rewrite <- (take_drop n ds). by apply Forall_app.
  - unfold D. destruct (take n ds) as [|d t] eqn:E; [simpl in Hln; lia|]. destruct ds as [|d' ds']; [by destruct n|].
    assert (d = d') as -> by (destruct n; [lia|]; by injection E). change (d' :: t) with ([d'] ++ t). rewrite number_app.
    change (number BITCOIN_ALPHABET [d']) with (0 * 58 + d'). apply Forall_cons in H1 as [Hd1 Ht]. pose proof (number_bound t Ht).
    simpl in Hln. replace (Z.of_nat n - 1) with (Z.of_nat (length t)) by lia.
    unfold is_digit in Hd1. change (base BITCOIN_ALPHABET) with 58 in *.
    assert (0 < 58 ^ Z.of_nat (length t)) by (apply Z.pow_pos_nonneg; lia). nia.
  - replace (Z.of_nat n) with (Z.succ (Z.of_nat n - 1)) in B1 by lia. rewrite Z.pow_succ_r in B1 by lia. lia.
  - lia.
  - lia.
Qed.

(** A text that consists of [prefix] and the digits of a number in a covered range is in the table. *)
Lemma covered_text prefix n lo hi num :
  covered prefix n lo hi powers = true -> (0 < n)%nat -> length prefix = (2 - n)%nat -> (n <= 2)%nat ->
  58 ^ (Z.of_nat n - 1) <= num -> lo <= num < hi -> hi <= 58 ^ 64 ->
  is_cidv0_text (prefix ++ b58encode_int BITCOIN_ALPHABET num false) = true.
Proof.
  intros Hc Hn Hpre Hn2 Hfirst Hnum Hhi.
  destruct (encode_int_leading num n Hn Hfirst) as (D & k & rest & -> & Hlen & Hlead & _ & HD & Hp).
  unfold is_cidv0_text. apply bool_decide_eq_true. rewrite app_assoc, take_app_length' by (rewrite length_app; lia).
  rewrite <- app_assoc. rewrite length_app, Hlen, Nat.add_assoc. apply (covered_spec _ _ lo hi num); try done.
  destruct (Nat.lt_ge_cases k 64); [done|]. assert (58 ^ 64 <= 58 ^ Z.of_nat k) by (apply Z.pow_le_mono_r; lia).
  assert (0 < 58 ^ (Z.of_nat n - 1)) by (apply Z.pow_pos_nonneg; lia). nia.
Qed.

(** Every multihash that is printed in the short form is recognised as such when it is read back. *)
Lemma table_complete mh :
  Forall is_byte mh -> (3 <= length mh)%nat -> is_binary_cidv0_multihash mh = Ok true ->
  is_cidv0_text (b58encode BITCOIN_ALPHABET mh) = true.
Proof.
  intros Hb Hl Hm. unfold is_binary_cidv0_multihash in Hm. destruct mh as [|b0 [|b1 d]]; [simpl in Hl; lia..|].
  rewrite !Forall_cons in Hb. destruct Hb as (H0 & H1 & Hd). pose proof (from_be_bound d Hd) as Hfd.
  destruct (_ && _) eqn:E in Hm.
  - apply andb_true_iff in E as [E1 E2]. apply bool_decide_eq_true_1 in E1. cbn [take] in E1. injection E1 as -> ->.
    apply Nat.eqb_eq in E2. simpl in E2. assert (Hld : length d = 32%nat) by lia.
    assert (Hs : b58encode BITCOIN_ALPHABET (18 :: 32 :: d) = [] ++ b58encode_int BITCOIN_ALPHABET (from_be (18 :: 32 :: d)) false).
    { unfold b58encode. cbn [lstrip]. rewrite bool_decide_false by set_solver. rewrite Nat.sub_diag. done. }
    rewrite Hs. rewrite !from_be_cons in *. cbn [length] in *. rewrite Hld in *.
    assert (1 < 256 ^ 32) by reflexivity. change (256 ^ Z.of_nat 33) with (256 * 256 ^ 32). change (256 ^ Z.of_nat 32) with (256 ^ 32) in *.
    apply (covered_text [] 2 _ _ _ sha256_covered); [lia|done|lia| | |by vm_compute].
    + change (58 ^ (Z.of_nat 2 - 1)) with 58. generalize dependent (256 ^ 32). intros. lia.
    + generalize dependent (256 ^ 32). intros. lia.
  - destruct (Z.eqb_spec b0 0) as [->|]; [|done]. assert (Hm' : ((b1 <? 43) && (Z.of_nat (length (0 :: b1 :: d)) =? b1 + 2)) = true) by congruence.
    propify. destruct Hm' as [Hm1 Hm2]. cbn [length] in *.
    assert (Hld : Z.of_nat (length d) = b1) by lia.
    assert (Hs : b58encode BITCOIN_ALPHABET (0 :: b1 :: d) = lit "1" ++ b58encode_int BITCOIN_ALPHABET (from_be (b1 :: d)) false).
    { unfold b58encode. cbn [lstrip]. rewrite bool_decide_true by set_solver. rewrite bool_decide_false by (rewrite list_elem_of_singleton; lia).
      cbn [length]. replace (S (S (length d)) - S (length d))%nat with 1%nat by lia. done. }
    rewrite Hs. rewrite from_be_cons, Hld in *. assert (Hc : b1 ∈ seqZ 1 42) by (apply elem_of_seqZ; lia).
    assert (256 ^ b1 <= 256 ^ 42) by (apply Z.pow_le_mono_r; lia). assert (1 <= 256 ^ b1) by (apply (Z.pow_le_mono_r 256 0); lia).
    assert (43 * 256 ^ 42 <= 58 ^ 64) by by vm_compute.
    apply (covered_text (lit "1") 1 _ _ _ (identity_covered b1 Hc)); [lia|done|lia| | |].
    + change (58 ^ (Z.of_nat 1 - 1)) with 1. nia.
    + lia.
    + generalize dependent (58 ^ 64). generalize dependent (256 ^ 42). intros. nia.
Qed.

(** ** Texts of identifiers *)

Lemma b58encode_alphabet v : Forall is_byte v -> Forall (fun c => c ∈ BITCOIN_ALPHABET) (b58encode BITCOIN_ALPHABET v).
Proof.
  intros Hv. unfold b58encode. apply Forall_app. split.
  - induction (_ - _)%nat as [|k IH]; [constructor|]. cbn [replicate mjoin list_join]. apply Forall_app. split; [|done].
    repeat constructor.
  - assert (Hs : Forall is_byte (lstrip [0] v)).
    { destruct (lstrip_spec [0] v) as (q & Hq & _). rewrite Hq in Hv. by apply Forall_app in Hv as [_ ?]. }
    pose proof (from_be_bound _ Hs) as Hb. destruct (decide (from_be (lstrip [0] v) = 0)) as [->|Hnz]; [constructor|].
    destruct (encode_int_leading (from_be (lstrip [0] v)) 1) as (D & k & rest & -> & _ & _ & Ha & _); [lia|simpl; lia|done].
Qed.

Lemma alphabet_chars c : c ∈ BITCOIN_ALPHABET -> 49 <= c <= 122.
Proof.
  assert (Ha : Forall (fun c => 49 <= c <= 122) BITCOIN_ALPHABET) by (vm_compute; repeat constructor; discriminate).
  rewrite Forall_forall in Ha. auto.
Qed.

Lemma drop_str_spaces_id `{Unicode} s : match s with c :: _ => 33 <= c < 128 | [] => True end -> drop_str_spaces s = s.
Proof.
  destruct s as [|c s]; [done|]. intros Hc. cbn [drop_str_spaces]. unfold str_space.
  rewrite (proj2 (Z.ltb_lt _ _)), (proj2 (Z.leb_gt c 13)), (proj2 (Z.leb_gt c 32)) by lia. by rewrite !andb_false_r.
Qed.

Lemma b58decode_str_encode `{Unicode} v : Forall is_byte v -> b58decode_str (b58encode BITCOIN_ALPHABET v) = Ok v.
Proof.
  intros Hv. pose proof (b58encode_alphabet v Hv) as Ha. unfold b58decode_str. rewrite drop_str_spaces_id.
  - rewrite reverse_involutive. assert (Hf : forallb (fun c => c <? 128) (b58encode BITCOIN_ALPHABET v) = true).
    { apply forallb_forall. intros c Hc. apply list_elem_of_In in Hc. rewrite Forall_forall in Ha.
      specialize (Ha c Hc). apply alphabet_chars in Ha. apply Z.ltb_lt. lia. }
    rewrite Hf. by apply (decode_encode BITCOIN_ALPHABET).
  - destruct (reverse _) as [|c w] eqn:E; [done|]. rewrite Forall_forall in Ha. specialize (Ha c).
    rewrite <- elem_of_reverse, E in Ha. assert (Hc : c ∈ BITCOIN_ALPHABET) by set_solver. apply alphabet_chars in Hc. lia.
Qed.

Lemma b58decode_str_bytes `{Unicode} s b : b58decode_str s = Ok b -> Forall is_byte b.
Proof. unfold b58decode_str, b58decode. case_match; [|done]. intros. mon_inv. apply to_be_bytes. Qed.

(** A text of ASCII characters is its own encoding. *)
Lemma utf8_ascii s : Forall (fun c => 0 <= c < 128) s -> utf8_encode s = Ok s.
Proof.
  induction 1 as [|c s Hc Hs IH]; [done|]. cbn [utf8_encode]. rewrite (proj2 (scalar_spec c)) by lia. rewrite IH.
  unfold utf8_char. by rewrite (proj2 (Z.ltb_lt _ _)) by lia.
Qed.

(** No text of the table starts with a [b]. *)
Lemma base32_not_v0 u : is_cidv0_text (98 :: u) = false.
Proof.
  unfold is_cidv0_text. assert (Hn : dget CIDv0_PREFIX_TO_LENGTH (take 2 (98 :: u)) = None).
  { apply dget_None_dkeys. intros Hin.
    assert (Hk : Forall (fun k => head k <> Some 98) (dkeys CIDv0_PREFIX_TO_LENGTH)) by (vm_compute; repeat constructor; discriminate).
    rewrite Forall_forall in Hk. by apply (Hk _ Hin). }
  rewrite Hn. apply bool_decide_eq_false. set_solver.
Qed.

Section Facts.
Context `{VL : VarintLaws} `{ML : MultiformatsLaws} `{Unicode}.

Definition P2P : text := lit "p2p".

Lemma make_cid_v1 m : make_cid 1 "libp2p-key" m = Ok (CIDv1 "libp2p-key" m).
Proof. unfold make_cid. by rewrite libp2p_key. Qed.

(** The multihash of an identifier is made of bytes. *)
Lemma from_bytes_multihash b c : Forall is_byte b -> cid_from_bytes b = Ok c -> Forall is_byte (cid_multihash c).
Proof.
  intros Hby Hc. unfold cid_from_bytes in Hc. destruct b as [|b0 [|b1 r]]; [done..|].
  mon_inv. destruct a as [[version codec] m]. mon_inv.
  assert (cid_multihash c = m) as -> by (unfold make_cid in Hc; repeat case_match; simplify_eq; done).
  destruct (negb _ && _).
  - mon_inv. rename a0 into cid. pose proof (decoded_bytes _ _ E1) as Hd. destruct cid as [|v [|]]; [done..|]. mon_inv. simplify_eq.
    apply Forall_cons in Hd as [_ Hd]. eauto using suffix_bytes.
  - destruct (_ || _); mon_inv; simplify_eq; [|unfold b58decode in *; mon_inv; apply to_be_bytes].
    apply Forall_cons in Hby as [_ Hby]. eauto using suffix_bytes.
Qed.

(** What the [p2p] protocol stores: a CIDv1 with its own codec. *)
Lemma p2p_bytes_shape value buf : cid_to_bytes P2P value = Ok buf ->
  exists m data, buf = 1 :: data /\ add_prefix "libp2p-key" m = Ok data /\ Forall is_byte m.
Proof.
  unfold cid_to_bytes. change (dget PROTO_NAME_TO_CIDv1_CODEC P2P) with (Some "libp2p-key"%string). cbv iota.
  destruct (is_cidv0_text value); intros Hb; mon_inv.
  - rewrite make_cid_v1 in *. mon_inv. cbn [cid_buffer] in *. mon_inv. eauto 10 using b58decode_str_bytes.
  - unfold check_codec in *. case_decide as Hd; [|done]. destruct a as [m|codec m]; [done|]. cbn [cid_codec cid_buffer] in *. subst. mon_inv.
    exists m. eexists. split_and!; [done..|]. unfold cid_from_string in E. mon_inv.
    apply (from_bytes_multihash _ _ (ensured_bytes _ _ E0) E).
Qed.

(** Reading the stored form. *)
Lemma from_bytes_v1 m data : add_prefix "libp2p-key" m = Ok data -> data <> [] ->
  cid_from_bytes (1 :: data) = (let* _ := multihash_decode m in Ok (CIDv1 "libp2p-key" m)).
Proof.
  intros Ha Hne. destruct (prefix_read "libp2p-key" m libp2p_key) as (b & Hb & _ & Hg & Hr).
  assert (b = data) as -> by congruence. unfold cid_from_bytes. destruct data as [|x r]; [done|].
  rewrite binary_not_multibase. cbn [Z.eqb negb andb orb]. rewrite Hg, Hr. cbn [rbind].
  change (1 =? 1)%positive with true. cbn [rbind]. by rewrite make_cid_v1.
Qed.

Lemma multihash_length m h : multihash_decode m = Ok h -> (3 <= length m)%nat.
Proof. unfold multihash_decode. destruct (Nat.ltb_spec (length m) 3); [done|]. done. Qed.

(** A text that reads as CIDv0 gives the stored form of its multihash. *)
Lemma p2p_v0_bytes m data : Forall is_byte m -> is_cidv0_text (b58encode BITCOIN_ALPHABET m) = true ->
  add_prefix "libp2p-key" m = Ok data -> cid_to_bytes P2P (b58encode BITCOIN_ALPHABET m) = Ok (1 :: data).
Proof.
  intros Hm Ht Ha. unfold cid_to_bytes. rewrite Ht, b58decode_str_encode by done.
  change (dget PROTO_NAME_TO_CIDv1_CODEC P2P) with (Some "libp2p-key"%string). cbn [rbind]. rewrite make_cid_v1.
  cbn [rbind cid_buffer]. by rewrite Ha.
Qed.

(** Printing what was read gives a text that reads as the same bytes; it is not empty and has no slash. *)
Lemma p2p_stable value buf value' : cid_to_bytes P2P value = Ok buf -> cid_to_string P2P buf = Ok value' ->
  cid_to_bytes P2P value' = Ok buf /\ value' <> [] /\ 47 ∉ value'.
Proof.
  intros Hb Hs. destruct (p2p_bytes_shape _ _ Hb) as (m & data & -> & Ha & Hm). clear Hb value.
  assert (Hne : data <> []). { intros ->. unfold cid_to_string, cid_from_bytes in Hs. cbn in Hs. done. }
  unfold cid_to_string in Hs. change (dget PROTO_NAME_TO_CIDv1_CODEC P2P) with (Some "libp2p-key"%string) in Hs.
  assert (Hv0 : is_binary_cidv0_multihash (1 :: data) = Ok false) by (unfold is_binary_cidv0_multihash; by destruct data).
  rewrite Hv0, (from_bytes_v1 m) in Hs by done. cbn [rbind] in Hs. mon_inv.
  cbn [cid_multihash] in *. rename a1 into short. destruct short; mon_inv.
  - pose proof (table_complete m Hm (multihash_length _ _ E2) E1) as Ht. split_and!.
    + by apply p2p_v0_bytes.
    + intros E. rewrite E in Ht. vm_compute in Ht. done.
    + intros Hin. pose proof (b58encode_alphabet m Hm) as Hal. rewrite Forall_forall in Hal. apply Hal, alphabet_chars in Hin. lia.
  - cbn [cid_encode cid_buffer] in E. rewrite Ha in E. cbn [rbind default] in E.
    destruct (base32_read _ _ E) as (He & Hd & u & -> & Hne' & Hu). unfold ascii_decode in Hs. case_match; [|done]. mon_inv.
    assert (Hc : Forall (fun c => 50 <= c <= 122) (98 :: u)) by (constructor; [lia|]; eapply Forall_impl; [apply Hu|]; simpl; lia).
    split_and!; [|done|].
    + unfold cid_to_bytes. rewrite base32_not_v0. unfold cid_from_string.
      rewrite (ensure_bytes_utf8 (98 :: u) (98 :: u)) by (apply utf8_ascii; eapply Forall_impl; [apply Hc|]; simpl; lia). cbn [rbind].
      unfold cid_from_bytes. destruct u as [|u0 u']; [by destruct Hne'|].
      rewrite He, Hd. cbn [Z.eqb negb andb rbind]. destruct data as [|x r]; [done|].
      destruct (prefix_read "libp2p-key" m libp2p_key) as (b & Hb & _ & Hg & Hr). assert (b = x :: r) as -> by congruence.
      rewrite Hg, Hr. cbn [rbind]. rewrite E2. cbn [rbind]. rewrite make_cid_v1.
      cbn. by rewrite Ha.
    + intros Hin. rewrite Forall_forall in Hc. apply Hc in Hin. lia.
Qed.

Lemma cidv0_multihash_decodes m : (3 <= length m)%nat -> Forall is_byte m -> is_binary_cidv0_multihash m = Ok true -> exists h, multihash_decode m = Ok h.
Proof.
  intros Hl Hb Hm. destruct m as [|b0 [|b1 d]]; [simpl in Hl; lia..|]. rewrite !Forall_cons in Hb. destruct Hb as (H2 & H3 & Hd).
  assert (Hc : (b0 = 18 \/ b0 = 0) /\ b1 = Z.of_nat (length d) /\ 0 <= b1 < 128 /\ d <> []).
  { assert (d <> []) by (intros ->; simpl in Hl; lia). unfold is_binary_cidv0_multihash in Hm. unfold is_byte in *.
    destruct (_ && _) eqn:E in Hm.
    - apply andb_true_iff in E as [E1 E2]. apply bool_decide_eq_true_1 in E1. cbn [take] in E1. injection E1 as -> ->.
      apply Nat.eqb_eq in E2. simpl in E2. split_and!; auto; lia.
    - destruct (Z.eqb_spec b0 0) as [->|]; [|done].
      assert (Hm' : ((b1 <? 43) && (Z.of_nat (length (0 :: b1 :: d)) =? b1 + 2)) = true) by congruence.
      propify. cbn [length] in *. split_and!; auto; lia. }
  destruct Hc as (Hb0 & Hb1 & Hr & Hne). change (b0 :: b1 :: d) with ([b0] ++ [b1] ++ d).
  rewrite <- (varint_small b0), <- (varint_small b1), Hb1 by lia. eexists. apply decode_parts; [|lia|done|lia].
  destruct Hb0 as [-> | ->]; vm_compute; reflexivity.
Qed.
End Facts.

(** * Theorems *)

Section Theorems.
Context `{VL : VarintLaws} `{ML : MultiformatsLaws} `{Unicode}.

(** A peer identifier survives its way through a multiaddress: for a SHA-256 multihash, and for an identity multihash
    with a digest of 1 to 42 bytes, the table of prefixes and lengths recognises the base58 text, the [p2p] codec stores
    it as a CIDv1, and prints the stored bytes as the same text. *)
Theorem peer_id_text_roundtrip (mh : bytes) :
  Forall is_byte mh -> (3 <= length mh)%nat -> is_binary_cidv0_multihash mh = Ok true ->
  is_cidv0_text (to_b58_string mh) = true /\
  exists data, cid_to_bytes (lit "p2p") (to_b58_string mh) = Ok (1 :: data) /\
    cid_to_string (lit "p2p") (1 :: data) = Ok (to_b58_string mh).
Proof.
  intros Hb Hl Hm. pose proof (table_complete mh Hb Hl Hm) as Ht. split; [done|].
  destruct (prefix_read "libp2p-key" mh libp2p_key) as (data & Ha & Hne & Hg & Hr). exists data. split; [by apply p2p_v0_bytes|].
  destruct (cidv0_multihash_decodes mh Hl Hb Hm) as [h Hh].
  unfold cid_to_string. assert (Hv0 : is_binary_cidv0_multihash (1 :: data) = Ok false) by (unfold is_binary_cidv0_multihash; by destruct data).
  rewrite Hv0, (from_bytes_v1 mh), Hh by done. cbn. rewrite Hm. done.
Qed.
End Theorems.

(** ** Witnesses *)

(** The two codecs that occur, with their codes; a multibase with the letters [a] to [p] as half-bytes; the database of
    a text without characters beyond ASCII. *)
Module Toy.
Definition hexit (d : Z) : Z := 97 + d.
Fixpoint letters (b : bytes) : text :=
  match b with
  | [] => []
  | x :: b' => hexit (x / 16) :: hexit (x mod 16) :: letters b'
  end.
Fixpoint unletters (t : text) : result bytes :=
  match t with
  | [] => Ok []
  | c :: d :: t' => let* b := unletters t' in Ok (((c - 97) * 16 + (d - 97)) mod 256 :: b)
  | _ => Raise ValueError
  end.

Definition multiformats : Multiformats := {|
  multibase_is_encoded b := bool_decide (head b = Some 98);
  multibase_decode t := unletters (tail t);
  multibase_encode _ b := if forallb (fun x => (0 <=? x) && (x <? 256)) b then Ok (98 :: letters b) else Raise ValueError;
  is_codec c := bool_decide (c = "libp2p-key"%string) || bool_decide (c = "dag-pb"%string);
  add_prefix c m := Ok ((if bool_decide (c = "libp2p-key"%string) then 114 else 112) :: m);
  get_codec b := match b with 114 :: _ => Ok "libp2p-key"%string | 112 :: _ => Ok "dag-pb"%string | _ => Raise ValueError end;
  remove_prefix b := match b with _ :: m => Ok m | [] => Raise ValueError end;
  ensure_bytes s := utf8_encode s;
|}.

Lemma unletters_bytes t : forall b, unletters t = Ok b -> Forall is_byte b.
Proof.
  induction t as [t IH] using (induction_ltof1 _ (@length Z)). unfold ltof in IH. intros b.
  destruct t as [|c [|d t]]; simpl; intros Hb; mon_inv; try done. constructor; [apply Z.mod_pos_bound; lia|].
  apply (IH t); [simpl; lia|done].
Qed.

Lemma letters_spec b : Forall is_byte b -> unletters (letters b) = Ok b /\
  Forall (fun c => 97 <= c <= 122 \/ 50 <= c <= 55) (letters b) /\ (b <> [] -> letters b <> []).
Proof.
  induction 1 as [|x b Hx Hb IH]; [by repeat constructor|]. destruct IH as (IH1 & IH2 & _). cbn [letters unletters]. unfold hexit.
  rewrite IH1. cbn [rbind]. unfold is_byte in Hx. split_and!; [|repeat (apply Forall_cons; split); [Z.div_mod_to_equations; lia..|done]|done].
  do 2 f_equal. rewrite Z.mod_small; Z.div_mod_to_equations; lia.
Qed.

Lemma multiformats_laws : MultiformatsLaws (H := multiformats).
Proof.
  split; cbn.
  - intros c m Hc. eexists. split_and!; [reflexivity|done| |done]. destruct (decide (c = "libp2p-key"%string)) as [->|E]; [done|].
    rewrite bool_decide_false in * by done. apply bool_decide_eq_true_1 in Hc. by subst.
  - intros c m b [= <-] Hm. constructor; [|done]. unfold is_byte. case_bool_decide; lia.
  - intros [|x b] m [= <-] Hb. by apply Forall_cons in Hb as [_ ?].
  - intros t b. apply unletters_bytes.
  - apply utf8_encode_bytes.
  - done.
  - done.
  - intros b t. destruct (forallb _ b) eqn:E; [|done]. intros [= <-].
    assert (Hb : Forall is_byte b).
    { apply Forall_forall. intros x Hx. rewrite forallb_forall in E. specialize (E x (proj1 (list_elem_of_In _ _) Hx)).
      propify. unfold is_byte. lia. }
    destruct (letters_spec b Hb) as (H1 & H2 & H3). split_and!; [done|done|]. eauto.
  - done.
Qed.

Definition unicode : Unicode := {| uni_decimal _ := None; uni_space _ := false; uni_upper c := [c] |}.
End Toy.

#[local] Existing Instances leb_varint leb_varint_laws Toy.multiformats Toy.multiformats_laws Toy.unicode.

Lemma peer_id_text_roundtrip_witness :
  is_cidv0_text (to_b58_string ([0; 36; 8; 1; 18; 32] ++ replicate 32 7)) = true /\
  exists data, cid_to_bytes (lit "p2p") (to_b58_string ([0; 36; 8; 1; 18; 32] ++ replicate 32 7)) = Ok (1 :: data) /\
    cid_to_string (lit "p2p") (1 :: data) = Ok (to_b58_string ([0; 36; 8; 1; 18; 32] ++ replicate 32 7)).
Proof.
  apply (peer_id_text_roundtrip ([0; 36; 8; 1; 18; 32] ++ replicate 32 7)); [repeat constructor; lia|simpl; lia|reflexivity].
Defined.

(** The text of an Ed25519 identifier, and its bytes in an address. *)
Example peer_id_example :
  cid_to_bytes (lit "p2p") (lit "12D3KooWGC6TvWhfapnSrSxVdpZb2yVUjkcYZ6VWgfBtFsMPMxCr") =
  (let* m := b58decode BITCOIN_ALPHABET (lit "12D3KooWGC6TvWhfapnSrSxVdpZb2yVUjkcYZ6VWgfBtFsMPMxCr") false in Ok (1 :: 114 :: m)).
Proof. vm_compute. reflexivity. Qed.


