(* ===== verification/Multiaddr.v ===== *)
(** * Multiaddresses ([mesh/utils/multiaddr])

    The addresses of peers: a sequence of protocols with their values, as a text ([/ip4/1.2.3.4/tcp/80]) and as bytes.
    [protocols.py]: the table of protocols and the registry.  [codecs]: how the value of a protocol is read, stored and
    printed.  [transforms.py]: between texts and bytes.  [multiaddr.py]: the class [Multiaddr].

    A generator is the list of what it yields and the exception that ends it, if any: a consumer that stops early never
    meets that exception.  The packages [netaddr] and [idna] are parameters, like [varint] and those of [CID.v]. *)

From S2P Require Import Prelude DHTID Base58 HashTable Framing PeerIdentity Text Base32 CID.

(** ** The packages *)

(** [IPAddress(string, version)], [IPAddress(int, version)], [.packed] and [str] *)
Class NetAddr := {
  ip_parse : Z -> text -> result Z;
  ip_of_int : Z -> Z -> result Z;
  ip_packed : Z -> Z -> bytes;
  ip_str : Z -> Z -> text;
}.

(** The bytes of an address of version 4 or 6 *)
Definition ip_width (version : Z) : nat := if version =? 4 then 4 else 16.

Class NetAddrLaws `{NetAddr} : Prop := {
  ip_parse_range v s n : ip_parse v s = Ok n -> 0 <= n < 256 ^ Z.of_nat (ip_width v);
  ip_of_int_ok v n : 0 <= n < 256 ^ Z.of_nat (ip_width v) -> ip_of_int v n = Ok n;
  ip_packed_be v n : 0 <= n < 256 ^ Z.of_nat (ip_width v) -> ip_packed v n = to_be (ip_width v) n;
  ip_parse_str v n : 0 <= n < 256 ^ Z.of_nat (ip_width v) -> ip_parse v (ip_str v n) = Ok n;
  ip_str_text v n : ip_str v n <> [] /\ 47 ∉ ip_str v n;
}.

Class Idna := {
  uts46_remap : text -> result text;
  check_label : text -> result unit;
}.

(** Remapping normalises, and a valid label has characters, none of them a slash. *)
Class IdnaLaws `{Idna} : Prop := {
  remap_idempotent s t : uts46_remap s = Ok t -> uts46_remap t = Ok t;
  label_text l : check_label l = Ok tt -> l <> [] /\ 47 ∉ l;
}.

(** ** [protocols.py] *)

(** [obj] is the identity of the object. *)
Record Protocol : Type := mkProtocol { code : Z; pname : text; pcodec : option string; obj : nat }.

#[export] Instance Protocol_eq_dec : EqDecision Protocol.
Proof. solve_decision. Defined.

Definition PROTOCOLS : list Protocol :=
  [ mkProtocol 4 (lit "ip4") (Some "ip4"%string) 0;
    mkProtocol 6 (lit "tcp") (Some "uint16be"%string) 1;
    mkProtocol 273 (lit "udp") (Some "uint16be"%string) 2;
    mkProtocol 33 (lit "dccp") (Some "uint16be"%string) 3;
    mkProtocol 41 (lit "ip6") (Some "ip6"%string) 4;
    mkProtocol 42 (lit "ip6zone") (Some "utf8"%string) 5;
    mkProtocol 53 (lit "dns") (Some "domain"%string) 6;
    mkProtocol 54 (lit "dns4") (Some "domain"%string) 7;
    mkProtocol 55 (lit "dns6") (Some "domain"%string) 8;
    mkProtocol 56 (lit "dnsaddr") (Some "domain"%string) 9;
    mkProtocol 132 (lit "sctp") (Some "uint16be"%string) 10;
    mkProtocol 301 (lit "udt") None 11;
    mkProtocol 302 (lit "utp") None 12;
    mkProtocol 421 (lit "p2p") (Some "cid"%string) 13;
    mkProtocol 444 (lit "onion") (Some "onion"%string) 14;
    mkProtocol 445 (lit "onion3") (Some "onion3"%string) 15;
    mkProtocol 460 (lit "quic") None 16;
    mkProtocol 461 (lit "quic-v1") None 17;
    mkProtocol 480 (lit "http") None 18;
    mkProtocol 443 (lit "https") None 19;
    mkProtocol 448 (lit "tls") None 20;
    mkProtocol 477 (lit "ws") None 21;
    mkProtocol 478 (lit "wss") None 22;
    mkProtocol 479 (lit "p2p-websocket-star") None 23;
    mkProtocol 275 (lit "p2p-webrtc-star") None 24;
    mkProtocol 276 (lit "p2p-webrtc-direct") None 25;
    mkProtocol 290 (lit "p2p-circuit") None 26;
    mkProtocol 400 (lit "unix") (Some "fspath"%string) 27 ].

Record ProtocolRegistry : Type := mkRegistry {
  locked : bool;
  codes_to_protocols : pydict Z Protocol;
  names_to_protocols : pydict text Protocol;
}.

(** [__init__] *)
Definition new_registry (protocols : list Protocol) : ProtocolRegistry :=
  mkRegistry false (dict_of_list (map (fun p => (code p, p)) protocols)) (dict_of_list (map (fun p => (pname p, p)) protocols)).

(** [add] *)
Definition add (r : ProtocolRegistry) (proto : Protocol) : result (ProtocolRegistry * Protocol) :=
  if locked r then Raise ProtocolRegistryLocked
  else if dmem (names_to_protocols r) (pname proto) then Raise ProtocolExistsError
  else if dmem (codes_to_protocols r) (code proto) then Raise ProtocolExistsError
  else Ok (mkRegistry false (dset (codes_to_protocols r) (code proto) proto)
                            (dset (names_to_protocols r) (pname proto) proto), proto).

(** [find_by_name], [find_by_code] and [find] *)
Definition find_by_name (r : ProtocolRegistry) (name : text) : result Protocol :=
  of_option ProtocolNotFoundError (dget (names_to_protocols r) name).
Definition find_by_code (r : ProtocolRegistry) (c : Z) : result Protocol :=
  of_option ProtocolNotFoundError (dget (codes_to_protocols r) c).

Inductive ProtoArg : Type := PProto (p : Protocol) | PName (name : text) | PCode (c : Z) | POther.

Definition find (r : ProtocolRegistry) (proto : ProtoArg) : result Protocol :=
  match proto with
  | PProto p => Ok p
  | PName name => find_by_name r name
  | PCode c => find_by_code r c
  | POther => Raise TypeError
  end.

(** [d.get(k) is p]: objects with the same identity are one object. *)
Definition same_object (o : option Protocol) (p : Protocol) : bool := bool_decide (o = Some p).

(** [add_alias_name] and [add_alias_code] *)
Definition add_alias_name (r : ProtocolRegistry) (proto : ProtoArg) (alias_name : text) : result ProtocolRegistry :=
  if locked r then Raise ProtocolRegistryLocked
  else
    let* proto := find r proto in
    let* _ := py_assert (same_object (dget (names_to_protocols r) (pname proto)) proto) in
    if dmem (names_to_protocols r) alias_name then Raise ProtocolExistsError
    else Ok (mkRegistry false (codes_to_protocols r) (dset (names_to_protocols r) alias_name proto)).

Definition add_alias_code (r : ProtocolRegistry) (proto : ProtoArg) (alias_code : Z) : result ProtocolRegistry :=
  if locked r then Raise ProtocolRegistryLocked
  else
    let* proto := find r proto in
    let* _ := py_assert (same_object (dget (codes_to_protocols r) (code proto)) proto) in
    if dmem (codes_to_protocols r) alias_code then Raise ProtocolExistsError
    else Ok (mkRegistry false (dset (codes_to_protocols r) alias_code proto) (names_to_protocols r)).

(** [lock] and [copy] *)
Definition lock (r : ProtocolRegistry) : ProtocolRegistry := mkRegistry true (codes_to_protocols r) (names_to_protocols r).
Definition copy (r : ProtocolRegistry) (unlock : bool) : ProtocolRegistry :=
  mkRegistry (locked r && negb unlock) (codes_to_protocols r) (names_to_protocols r).

(** The module's registry: the table, [ipfs] as another name of [p2p], locked. *)
Definition make_REGISTRY : result ProtocolRegistry :=
  let* r := add_alias_name (new_registry PROTOCOLS) (PName (lit "p2p")) (lit "ipfs") in Ok (lock r).

Definition REGISTRY : ProtocolRegistry :=
  Eval vm_compute in match make_REGISTRY with Ok r => r | Raise _ => new_registry [] end.

(** [protocols_with_string] *)
Definition protocols_with_string (string : text) : result (list Protocol) :=
  mapM_r (find_by_name REGISTRY) (filter (fun name => name <> []) (split_on 47 string)).

(** ** The codecs *)

Record Codec : Type := mkCodec {
  SIZE : Z;
  IS_PATH : bool;
  codec_to_bytes : Protocol -> text -> result bytes;
  codec_to_string : Protocol -> bytes -> result text;
}.

Definition LENGTH_PREFIXED_VAR_SIZE : Z := -1.

(** It has neither function. *)
Definition NoneCodec : Codec := mkCodec 0 false (fun _ _ => Raise AttributeError) (fun _ _ => Raise AttributeError).

(** [struct.pack(">H", n)] and [struct.unpack(">H", buf)[0]] *)
Definition pack_H (n : Z) : result bytes := if (0 <=? n) && (n <? 65536) then Ok (to_be 2 n) else Raise StructError.
Definition unpack_H (buf : bytes) : result Z := if (length buf =? 2)%nat then Ok (from_be buf) else Raise StructError.

Section Codecs.
Context `{Varint} `{Multiformats} `{Unicode} `{NetAddr} `{Idna}.

(** [ip4.py] and [ip6.py] *)
Definition ip_to_bytes (version : Z) (string : text) : result bytes :=
  let* ip := ip_parse version string in Ok (ip_packed version ip).
Definition ip_to_string (version : Z) (buf : bytes) : result text :=
  let* ip := ip_of_int version (from_be buf) in Ok (ip_str version ip).

(** [uint16be.py] *)
Definition uint16be_to_bytes (string : text) : result bytes :=
  let* n := py_int string in
  match pack_H n with Raise _ => Raise ValueError | ok => ok end.
Definition uint16be_to_string (buf : bytes) : result text :=
  if negb (length buf =? 2)%nat then Raise ValueError else let* n := unpack_H buf in Ok (str_nat n).

(** [domain.py] *)
Definition domain_to_bytes (string : text) : result bytes := let* s := uts46_remap string in utf8_encode s.
Definition domain_to_string (buf : bytes) : result text :=
  let* string := utf8_decode buf in
  let* _ := mapM_r check_label (split_on 46 string) in
  Ok string.

(** [utf8.py] *)
Definition utf8_to_bytes (string : text) : result bytes :=
  if (length string =? 0)%nat then Raise ValueError else utf8_encode string.
Definition utf8_to_string (buf : bytes) : result text :=
  if (length buf =? 0)%nat then Raise ValueError else utf8_decode buf.

(** [onion.py] and [onion3.py]: 16 and 56 characters of address *)
Definition onion_to_bytes (chars : nat) (string : text) : result bytes :=
  match split_on 58 string with
  | [host; port] =>
      if negb (length host =? chars)%nat then Raise ValueError
      else
        let* onion_host_bytes := b32decode (upper host) in
        let* port := py_int port in
        if negb ((1 <=? port) && (port <? 65536)) then Raise ValueError
        else let* port_bytes := pack_H port in Ok (onion_host_bytes ++ port_bytes)
  | _ => Raise ValueError
  end.
Definition onion_to_string (buf : bytes) : result text :=
  let addr_bytes := take (length buf - 2) buf in
  let port_bytes := drop (length buf - 2) buf in
  let addr := lower_ascii (b32encode addr_bytes) in
  let* port := unpack_H port_bytes in
  Ok (join_with 58 [addr; str_nat port]).

(** [codec_by_name]: the module of that name; the cache only avoids importing again. *)
Definition codec_by_name (name : option string) : result Codec :=
  match name with
  | None => Ok NoneCodec
  | Some name =>
      if decide (name = "ip4"%string) then Ok (mkCodec 32 false (fun _ => ip_to_bytes 4) (fun _ => ip_to_string 4))
      else if decide (name = "ip6"%string) then Ok (mkCodec 128 false (fun _ => ip_to_bytes 6) (fun _ => ip_to_string 6))
      else if decide (name = "uint16be"%string) then
        Ok (mkCodec 16 false (fun _ => uint16be_to_bytes) (fun _ => uint16be_to_string))
      else if decide (name = "domain"%string) then
        Ok (mkCodec LENGTH_PREFIXED_VAR_SIZE false (fun _ => domain_to_bytes) (fun _ => domain_to_string))
      else if decide (name = "utf8"%string) then
        Ok (mkCodec LENGTH_PREFIXED_VAR_SIZE false (fun _ => utf8_to_bytes) (fun _ => utf8_to_string))
      else if decide (name = "fspath"%string) then
        Ok (mkCodec LENGTH_PREFIXED_VAR_SIZE true (fun _ => fsencode) (fun _ => fsdecode))
      else if decide (name = "onion"%string) then
        Ok (mkCodec 96 false (fun _ => onion_to_bytes 16) (fun _ => onion_to_string))
      else if decide (name = "onion3"%string) then
        Ok (mkCodec 296 false (fun _ => onion_to_bytes 56) (fun _ => onion_to_string))
      else if decide (name = "cid"%string) then
        Ok (mkCodec LENGTH_PREFIXED_VAR_SIZE false (fun p => cid_to_bytes (pname p)) (fun p => cid_to_string (pname p)))
      else Raise ImportError
  end.

(** [Protocol.path], [Protocol.size], [Protocol.vcode] and [Protocol.__eq__] *)
Definition path (p : Protocol) : result bool := rmap IS_PATH (codec_by_name (pcodec p)).
Definition size (p : Protocol) : result Z := rmap SIZE (codec_by_name (pcodec p)).
Definition vcode (p : Protocol) : bytes := varint_encode (code p).
Definition protocol_eq (a b : Protocol) : result bool :=
  let* path_a := path a in
  let* path_b := path b in
  Ok (bool_decide (code a = code b) && bool_decide (pname a = pname b) && bool_decide (pcodec a = pcodec b) &&
      eqb path_a path_b).

(** ** Generators *)

Definition gen (A : Type) : Type := list A * option exn.

Definition yield {A} (x : A) (g : gen A) : gen A := (x :: g.1, g.2).

(** A generator that transforms what another one yields and stops at the first failure. *)
Fixpoint gen_map {A B} (f : A -> result B) (l : list A) (e : option exn) : gen B :=
  match l with
  | [] => ([], e)
  | x :: l' => match f x with Ok y => yield y (gen_map f l' e) | Raise e => ([], Some e) end
  end.

(** What a loop that consumes a whole generator returns. *)
Definition gen_end {A} (g : gen A) : result (list A) := match g.2 with None => Ok g.1 | Some e => Raise e end.

(** ** [transforms.py] *)

(** An import or a look-up that fails is reported as a parse error. *)
Definition lookup_error (e e' : exn) : exn :=
  match e with ImportError | ProtocolNotFoundError => e' | _ => e end.

Definition resolve (proto : result Protocol) : result (Protocol * Codec) :=
  let* proto := proto in
  let* codec := codec_by_name (pcodec proto) in
  Ok (proto, codec).

(** The loop of [string_iter]; every iteration takes an element of [sp]. *)
Fixpoint string_iter_loop (fuel : nat) (sp : list text) : gen (Protocol * Codec * option text) :=
  match sp, fuel with
  | [], _ => ([], None)
  | _ :: _, O => ([], Some RuntimeError)
  | element :: sp, S n =>
      match resolve (find_by_name REGISTRY element) with
      | Raise e => ([], Some (lookup_error e StringParseError))
      | Ok (proto, codec) =>
          if SIZE codec =? 0 then yield (proto, codec, None) (string_iter_loop n sp)
          else
            match sp with
            | [] => ([], Some StringParseError)
            | value :: sp' =>
                if IS_PATH codec
                then yield (proto, codec, Some (47 :: join_with 47 sp)) (string_iter_loop n [])
                else yield (proto, codec, Some value) (string_iter_loop n sp')
            end
      end
  end.

Definition string_iter (string : text) : gen (Protocol * Codec * option text) :=
  match string with
  | 47 :: _ =>
      let sp := tail (split_on 47 (rstrip_char 47 string)) in
      string_iter_loop (length sp) sp
  | _ => ([], Some StringParseError)
  end.

(** [buf_io.read(size)] *)
Definition read (size : Z) (buf : bytes) : bytes * bytes :=
  if size <? 0 then (buf, []) else (take (Z.to_nat size) buf, drop (Z.to_nat size) buf).

(** [size_for_addr] *)
Definition size_for_addr (codec : Codec) (buf_io : bytes) : result (Z * bytes) :=
  if 0 <=? SIZE codec then Ok (SIZE codec / 8, buf_io) else decode_stream buf_io.

(** The loop of [bytes_iter]: [total] is the length of the buffer, [buf_io] what was not read yet. *)
Fixpoint bytes_iter_loop (fuel : nat) (total : nat) (buf_io : bytes) : gen (nat * Protocol * Codec * bytes) :=
  match buf_io, fuel with
  | [], _ => ([], None)
  | _ :: _, O => ([], Some RuntimeError)
  | _ :: _, S n =>
      let offset := (total - length buf_io)%nat in
      match decode_stream buf_io with
      | Raise e => ([], Some e)
      | Ok (c, buf_io) =>
          match resolve (find_by_code REGISTRY c) with
          | Raise e => ([], Some (lookup_error e BinaryParseError))
          | Ok (proto, codec) =>
              match size_for_addr codec buf_io with
              | Raise e => ([], Some e)
              | Ok (size, buf_io) =>
                  let '(part, buf_io) := read size buf_io in
                  yield (offset, proto, codec, part) (bytes_iter_loop n total buf_io)
              end
          end
      end
  end.

Definition bytes_iter (buf : bytes) : gen (nat * Protocol * Codec * bytes) :=
  bytes_iter_loop (length buf) (length buf) buf.

(** The bytes of one component, and [string_to_bytes]. *)
Definition component_bytes (c : Protocol * Codec * option text) : result bytes :=
  let '(proto, codec, value) := c in
  match value with
  | None => Ok (varint_encode (code proto))
  | Some value =>
      match codec_to_bytes codec proto value with
      | Raise _ => Raise StringParseError
      | Ok buf =>
          Ok (varint_encode (code proto) ++
              (if SIZE codec =? LENGTH_PREFIXED_VAR_SIZE then varint_encode (Z.of_nat (length buf)) else []) ++ buf)
      end
  end.

Definition string_to_bytes (string : text) : result bytes :=
  let '(components, e) := string_iter string in
  let* bs := gen_end (gen_map component_bytes components e) in
  Ok (mjoin bs).

(** The texts of one component, and [bytes_to_string].  [value[0]] of an empty path is an [IndexError]. *)
Definition component_text (c : nat * Protocol * Codec * bytes) : result (list text) :=
  let '(_, proto, codec, part) := c in
  if SIZE codec =? 0 then Ok [pname proto]
  else
    match codec_to_string codec proto part with
    | Raise _ => Raise BinaryParseError
    | Ok value =>
        if IS_PATH codec then
          match value with
          | [] => Raise IndexError
          | c :: rest => Ok [pname proto; if c =? 47 then rest else value]
          end
        else Ok [pname proto; value]
    end.

Definition bytes_to_string (buf : bytes) : result text :=
  let '(components, e) := bytes_iter buf in
  let* st := gen_end (gen_map component_text components e) in
  Ok (join_with 47 ([] :: mjoin st)).

(** ** [multiaddr.py] *)

Record Multiaddr : Type := mkMultiaddr { addr_bytes : bytes; registry : ProtocolRegistry }.

Inductive AddrArg : Type := AddrStr (s : text) | AddrBytes (b : bytes) | AddrObj (m : Multiaddr) | AddrOther.

(** [__init__]: the registry is kept, and not used to parse. *)
Definition new_multiaddr (addr : AddrArg) (registry : ProtocolRegistry) : result Multiaddr :=
  match addr with
  | AddrStr s => let* b := string_to_bytes s in Ok (mkMultiaddr b registry)
  | AddrBytes b => Ok (mkMultiaddr b registry)
  | AddrObj m => Ok (mkMultiaddr (addr_bytes m) registry)
  | AddrOther => Raise TypeError
  end.

(** [join], [__eq__], [__str__], [__len__] *)
Definition join (addrs : list AddrArg) : result Multiaddr :=
  let* bs := mapM_r (fun a => rmap addr_bytes (new_multiaddr a REGISTRY)) addrs in
  new_multiaddr (AddrBytes (mjoin bs)) REGISTRY.

Definition multiaddr_eq (a b : Multiaddr) : bool := bool_decide (addr_bytes a = addr_bytes b).
Definition multiaddr_str (m : Multiaddr) : result text := bytes_to_string (addr_bytes m).
Definition multiaddr_len (m : Multiaddr) : result nat := rmap length (gen_end (bytes_iter (addr_bytes m))).

(** Iterating over [MultiAddrKeys], [MultiAddrItems] and [MultiAddrValues] *)
Definition keys (m : Multiaddr) : gen Protocol :=
  let '(l, e) := bytes_iter (addr_bytes m) in (map (fun '(_, proto, _, _) => proto) l, e).

Definition component_item (c : nat * Protocol * Codec * bytes) : result (Protocol * option text) :=
  let '(_, proto, codec, part) := c in
  if SIZE codec =? 0 then Ok (proto, None)
  else
    match codec_to_string codec proto part with
    | Raise _ => Raise BinaryParseError
    | Ok value => Ok (proto, Some value)
    end.

Definition items (m : Multiaddr) : gen (Protocol * option text) :=
  let '(l, e) := bytes_iter (addr_bytes m) in gen_map component_item l e.

Definition values (m : Multiaddr) : gen (option text) := let '(l, e) := items m in (map snd l, e).

(** [__getitem__] of the three views: a negative index counts from the end, which needs the length. *)
Definition view_getitem {A} (m : Multiaddr) (view : gen A) (idx : Z) : result A :=
  let* idx := if idx <? 0 then rmap (fun n => Z.of_nat n + idx) (multiaddr_len m) else Ok idx in
  match (if idx <? 0 then None else view.1 !! Z.to_nat idx) with
  | Some x => Ok x
  | None => match view.2 with Some e => Raise e | None => Raise IndexError end
  end.

(** [v is x or v == x] *)
Definition same_protocol (a b : Protocol) : result bool :=
  if same_object (Some a) b then Ok true else protocol_eq a b.

(** [proto in addr] *)
Fixpoint contains_loop (proto : Protocol) (l : list Protocol) (e : option exn) : result bool :=
  match l with
  | [] => match e with None => Ok false | Some e => Raise e end
  | p :: l' => let* same := same_protocol p proto in if same then Ok true else contains_loop proto l' e
  end.

Definition contains (m : Multiaddr) (proto : ProtoArg) : result bool :=
  let* proto := find (registry m) proto in
  let '(l, e) := keys m in contains_loop proto l e.

(** [split]: [-1] splits everywhere. *)
Fixpoint split_loop (all : bytes) (idx maxsplit : Z) (l : list (nat * Protocol * Codec * bytes)) (e : option exn)
    : result (list bytes) :=
  match l with
  | [] => match e with None => Ok [] | Some e => Raise e end
  | (offset, proto, codec, part_value) :: l' =>
      if idx =? maxsplit then Ok [drop offset all]
      else
        let part_size := if SIZE codec <? 0 then varint_encode (Z.of_nat (length part_value)) else [] in
        let* results := split_loop all (idx + 1) maxsplit l' e in
        Ok ((vcode proto ++ part_size ++ part_value) :: results)
  end.

Definition split (m : Multiaddr) (maxsplit : Z) : result (list Multiaddr) :=
  let '(l, e) := bytes_iter (addr_bytes m) in
  let* parts := split_loop (addr_bytes m) 0 maxsplit l e in
  mapM_r (fun part => new_multiaddr (AddrBytes part) REGISTRY) parts.

(** [encapsulate] *)
Definition encapsulate (m : Multiaddr) (other : AddrArg) : result Multiaddr := join [AddrObj m; other].

(** [s1.rindex(s2)]: the last place where [s2] occurs, looked for from [i] downwards. *)
Fixpoint rindex_from (s1 s2 : bytes) (i : nat) : option nat :=
  if decide (take (length s2) (drop i s1) = s2) then Some i
  else match i with O => None | S i' => rindex_from s1 s2 i' end.

Definition rindex (s1 s2 : bytes) : option nat := rindex_from s1 s2 (length s1).

(** [decapsulate] *)
Definition decapsulate (m : Multiaddr) (other : AddrArg) : result Multiaddr :=
  let s1 := addr_bytes m in
  let* other := new_multiaddr other REGISTRY in
  match rindex s1 (addr_bytes other) with
  | None => new_multiaddr (AddrObj m) REGISTRY
  | Some idx => new_multiaddr (AddrBytes (take idx s1)) REGISTRY
  end.

(** [value_for_protocol] *)
Fixpoint value_loop (m : Multiaddr) (proto : Protocol) (l : list (Protocol * option text)) (e : option exn)
    : result (option text) :=
  match l with
  | [] =>
      match e with
      | Some e => Raise e
      | None => let* _ := multiaddr_str m in Raise ProtocolLookupError
      end
  | (proto2, value) :: l' =>
      let* same := same_protocol proto2 proto in
      if same then Ok value else value_loop m proto l' e
  end.

Definition value_for_protocol (m : Multiaddr) (proto : ProtoArg) : result (option text) :=
  let* proto := find (registry m) proto in
  let '(l, e) := items m in value_loop m proto l e.
End Codecs.

(** * The registry *)

(** Every entry leads to a protocol that is registered under its own name and its own code. *)
Definition registered (r : ProtocolRegistry) (p : Protocol) : Prop :=
  find_by_name r (pname p) = Ok p /\ find_by_code r (code p) = Ok p.

Definition registry_ok (r : ProtocolRegistry) : Prop :=
  (forall name p, find_by_name r name = Ok p -> registered r p) /\
  (forall c p, find_by_code r c = Ok p -> registered r p).

(** What a caller can do with a registry. *)
Inductive registry_step : ProtocolRegistry -> ProtocolRegistry -> Prop :=
  | step_add r p r' : add r p = Ok (r', p) -> registry_step r r'
  | step_alias_name r a n r' : add_alias_name r a n = Ok r' -> registry_step r r'
  | step_alias_code r a c r' : add_alias_code r a c = Ok r' -> registry_step r r'
  | step_lock r : registry_step r (lock r)
  | step_copy r unlock : registry_step r (copy r unlock).

Inductive registry_reachable (protocols : list Protocol) : ProtocolRegistry -> Prop :=
  | reach_new : registry_reachable protocols (new_registry protocols)
  | reach_step r r' : registry_reachable protocols r -> registry_step r r' -> registry_reachable protocols r'.

Lemma of_option_Ok {A : Type} (e : exn) (o : option A) (a : A) : of_option e o = Ok a <-> o = Some a.
Proof. destruct o; simpl; naive_solver. Qed.

Lemma dget_dict_of_list {K V : Type} `{EqDecision K} (l : list (K * V)) k : NoDup l.*1 -> dget (dict_of_list l) k = dget l k.
Proof.
  unfold dict_of_list, dupdate. intros Hn.
  assert (Hgen : forall d, (forall x, x ∈ dkeys d -> x ∉ l.*1) ->
            dget (foldl (fun d kv => dset d kv.1 kv.2) d l) k = match dget l k with Some v => Some v | None => dget d k end).
  { induction l as [|[k' v'] l IH]; intros d Hd; [done|]. cbn [foldl fst snd fmap list_fmap dget] in *. apply NoDup_cons in Hn as [Hk' Hn].
    rewrite IH; [|done|].
    - destruct (decide (k' = k)) as [->|Hne].
      + rewrite (proj2 (dget_None_dkeys l k)) by done. by rewrite dget_dset_eq.
      + by rewrite dget_dset_ne.
    - intros x Hx. rewrite dkeys_dset in Hx. case_decide; set_solver. }
  rewrite Hgen by set_solver. by destruct (dget l k).
Qed.

Lemma map_key_fst {K : Type} (key : Protocol -> K) ps : (map (fun p => (key p, p)) ps).*1 = map key ps.
Proof. induction ps as [|p ps IH]; [done|]. cbn. f_equal. exact IH. Qed.

Lemma dget_map_key {K : Type} `{EqDecision K} (key : Protocol -> K) ps k p :
  dget (map (fun p => (key p, p)) ps) k = Some p -> p ∈ ps /\ key p = k.
Proof.
  intros Hd. apply dget_elem_of in Hd. apply list_elem_of_In, in_map_iff in Hd as (q & Hq & Hin). simplify_eq.
  split; [by apply list_elem_of_In|done].
Qed.

Lemma dget_map_own {K : Type} `{EqDecision K} (key : Protocol -> K) ps p :
  NoDup (map key ps) -> p ∈ ps -> dget (map (fun p => (key p, p)) ps) (key p) = Some p.
Proof.
  intros Hn Hp. apply dwf_elem_dget.
  - unfold dwf, dkeys. by rewrite map_key_fst.
  - apply list_elem_of_In, in_map_iff. exists p. split; [done|]. by apply list_elem_of_In.
Qed.

Lemma new_registry_ok ps : NoDup (map pname ps) -> NoDup (map code ps) -> registry_ok (new_registry ps).
Proof.
  intros Hn Hc.
  assert (Hreg : forall p, p ∈ ps -> registered (new_registry ps) p).
  { intros p Hp. split; unfold find_by_name, find_by_code; cbn [new_registry names_to_protocols codes_to_protocols];
      rewrite dget_dict_of_list by (by rewrite map_key_fst); rewrite dget_map_own; done. }
  split; intros k p Hf; apply Hreg; unfold find_by_name, find_by_code in Hf; apply of_option_Ok in Hf;
    cbn [new_registry names_to_protocols codes_to_protocols] in Hf; rewrite dget_dict_of_list in Hf by (by rewrite map_key_fst);
    by apply dget_map_key in Hf as [? _].
Qed.

(** Adding entries for new keys keeps what is registered. *)
Lemma registry_ok_extend r r' p :
  registry_ok r -> registered r' p ->
  (forall q, registered r q -> registered r' q) ->
  (forall n q, find_by_name r' n = Ok q -> find_by_name r n = Ok q \/ q = p) ->
  (forall c q, find_by_code r' c = Ok q -> find_by_code r c = Ok q \/ q = p) -> registry_ok r'.
Proof. intros [H1 H2] Hp Hkeep Hn Hc. split; intros k q Hf; [destruct (Hn _ _ Hf) as [H| -> ]|destruct (Hc _ _ Hf) as [H| -> ]]; eauto. Qed.

Lemma find_dset {K : Type} `{EqDecision K} (d : pydict K Protocol) k k' p q :
  of_option ProtocolNotFoundError (dget (dset d k p) k') = Ok q -> of_option ProtocolNotFoundError (dget d k') = Ok q \/ q = p.
Proof.
  rewrite !of_option_Ok. destruct (decide (k = k')) as [->|Hne]; [rewrite dget_dset_eq; naive_solver|rewrite dget_dset_ne by done; auto].
Qed.

Lemma find_dset_keep {K : Type} `{EqDecision K} (d : pydict K Protocol) k k' p q :
  dmem d k = false -> of_option ProtocolNotFoundError (dget d k') = Ok q -> of_option ProtocolNotFoundError (dget (dset d k p) k') = Ok q.
Proof. rewrite dmem_false, !of_option_Ok. intros Hk Hq. rewrite dget_dset_ne; [done|]. intros ->. congruence. Qed.

Lemma registry_step_ok r r' : registry_step r r' -> registry_ok r -> registry_ok r'.
Proof.
  intros Hs Hok. destruct Hs as [r p r' Ha|r a n r' Ha|r a c r' Ha|r|r u]; [| | |done..].
  - unfold add in Ha. destruct (locked r), (dmem (names_to_protocols r) (pname p)) eqn:En, (dmem (codes_to_protocols r) (code p)) eqn:Ec; try done.
    injection Ha as <-. apply (registry_ok_extend r _ p Hok).
    + split; unfold find_by_name, find_by_code; cbn; by rewrite dget_dset_eq.
    + intros q [Hn Hc]. split; by apply find_dset_keep.
    + intros n q. apply find_dset.
    + intros c q. apply find_dset.
  - unfold add_alias_name in Ha. destruct (locked r); [done|]. mon_inv. destruct (dmem _ n) eqn:En; [done|]. mon_inv. rename a0 into p.
    unfold py_assert, same_object in E0. case_bool_decide as Hp; [|done].
    assert (Hreg : registered r p) by (apply (proj1 Hok (pname p)); unfold find_by_name; by rewrite Hp).
    apply (registry_ok_extend r _ p Hok).
    + destruct Hreg. split; [by apply find_dset_keep|done].
    + intros q [Hn Hc]. split; [by apply find_dset_keep|done].
    + intros n' q. apply find_dset.
    + auto.
  - unfold add_alias_code in Ha. destruct (locked r); [done|]. mon_inv. destruct (dmem _ c) eqn:Ec; [done|]. mon_inv. rename a0 into p.
    unfold py_assert, same_object in E0. case_bool_decide as Hp; [|done].
    assert (Hreg : registered r p) by (apply (proj2 Hok (code p)); unfold find_by_code; by rewrite Hp).
    apply (registry_ok_extend r _ p Hok).
    + destruct Hreg. split; [done|by apply find_dset_keep].
    + intros q [Hn Hc]. split; [done|by apply find_dset_keep].
    + auto.
    + intros c' q. apply find_dset.
Qed.

(** A registry stays consistent: from a table without duplicate names or codes, whatever is added, aliased, locked or
    copied, every name and every code leads to a protocol that is registered under its own name and its own code; and
    while a registry is locked, nothing can be added to it. *)
Theorem registry_consistent (protocols : list Protocol) (r : ProtocolRegistry) :
  NoDup (map pname protocols) -> NoDup (map code protocols) -> registry_reachable protocols r ->
  registry_ok r /\
  (locked r = true -> forall p a n c, add r p = Raise ProtocolRegistryLocked /\
     add_alias_name r a n = Raise ProtocolRegistryLocked /\ add_alias_code r a c = Raise ProtocolRegistryLocked).
Proof.
  intros Hn Hc Hr. split.
  - induction Hr as [|r r' _ IH Hs]; [by apply new_registry_ok|by eapply registry_step_ok].
  - intros Hl p a n c. unfold add, add_alias_name, add_alias_code. by rewrite Hl.
Qed.

(** The module's own registry *)
Lemma registry_consistent_witness : registry_ok REGISTRY.
Proof.
  refine (proj1 (registry_consistent PROTOCOLS REGISTRY _ _ _)).
  - apply (bool_decide_unpack _). vm_compute. exact I.
  - apply (bool_decide_unpack _). vm_compute. exact I.
  - eapply (reach_step _ (copy REGISTRY true)); [|apply (step_lock (copy REGISTRY true))].
    eapply reach_step; [apply reach_new|]. apply (step_alias_name _ (PName (lit "p2p")) (lit "ipfs")). vm_compute. reflexivity.
Defined.

(** * Wrapping and unwrapping *)

Section Wrapping.
Context `{Varint} `{Multiformats} `{Unicode} `{NetAddr} `{Idna}.

Lemma rindex_suffix s1 s2 i : (i <= length s2)%nat -> rindex_from (s1 ++ s2) s2 (length s1 + i) = Some (length s1).
Proof.
  induction i as [|i IH]; intros Hi.
  - rewrite Nat.add_0_r. destruct (length s1) as [|n] eqn:E; cbn [rindex_from].
    + destruct s1; [|done]. cbn [app drop]. by rewrite decide_True by apply firstn_all.
    + rewrite <- E, drop_app_length. by rewrite decide_True by apply firstn_all.
  - rewrite Nat.add_succ_r. cbn [rindex_from]. rewrite decide_False.
    + apply IH. lia.
    + intros E. apply (f_equal length) in E. rewrite length_take, length_drop, length_app in E. lia.
Qed.

(** Unwrapping undoes wrapping: taking an address off the end of an address it was put on gives that address back;
    an address that does not occur is not taken off. *)
Theorem decapsulate_encapsulate (m : Multiaddr) (other : AddrArg) (o : Multiaddr) :
  new_multiaddr other REGISTRY = Ok o ->
  exists w, encapsulate m other = Ok w /\ addr_bytes w = addr_bytes m ++ addr_bytes o /\
    (exists u, decapsulate w other = Ok u /\ multiaddr_eq u m = true) /\
    (rindex (addr_bytes m) (addr_bytes o) = None -> exists u, decapsulate m other = Ok u /\ multiaddr_eq u m = true).
Proof.
  intros Ho. unfold encapsulate, join. cbn [mapM_r new_multiaddr rmap rbind]. rewrite Ho. cbn [rmap rbind new_multiaddr].
  eexists. split; [reflexivity|]. cbn [addr_bytes mjoin list_join]. rewrite app_nil_r. split; [done|]. split.
  - unfold decapsulate. rewrite Ho. cbn [rbind addr_bytes].
    assert (Hr : rindex (addr_bytes m ++ addr_bytes o) (addr_bytes o) = Some (length (addr_bytes m))).
    { unfold rindex. rewrite length_app. by apply rindex_suffix. }
    rewrite Hr. cbn [new_multiaddr]. rewrite take_app_length. eexists. split; [reflexivity|]. by apply bool_decide_eq_true.
  - intros Hr. unfold decapsulate. rewrite Ho. cbn [rbind]. rewrite Hr. cbn [new_multiaddr]. eexists. split; [reflexivity|].
    by apply bool_decide_eq_true.
Qed.
End Wrapping.
