(* ===== verification/MultiaddrFacts.v ===== *)
(** * Facts on multiaddresses

    What each codec promises, and the way from a text to bytes and back. *)

From S2P Require Import Prelude DHTID Base58 HashTable Framing PeerIdentity Text Base32 CID Multiaddr.

Lemma gen_map_end {A B : Type} (f : A -> result B) l : gen_end (gen_map f l None) = mapM_r f l.
Proof.
  unfold gen_end. induction l as [|x l IH]; [done|]. cbn [gen_map mapM_r]. destruct (f x) as [y|]; cbn [yield rbind snd fst]; [|done].
  rewrite <- IH. destruct (gen_map f l None) as [ys [e|]]; done.
Qed.

Lemma gen_map_error {A B : Type} (f : A -> result B) l e : exists e', gen_end (gen_map f l (Some e)) = Raise e'.
Proof.
  unfold gen_end. induction l as [|x l IH]; [by exists e|]. cbn [gen_map]. destruct (f x) as [y|e']; [|by exists e'].
  cbn [yield snd fst]. destruct IH as [e' IH]. exists e'. destruct (gen_map f l (Some e)) as [ys [e''|]]; simpl in *; done.
Qed.

Lemma split_elem sep s c : c ∈ s -> c <> sep -> exists p, p ∈ split_on sep s /\ c ∈ p.
Proof.
  induction s as [|x s IH]; intros Hc Hne; [set_solver|]. cbn [split_on]. apply elem_of_cons in Hc as [->|Hc].
  - rewrite (proj2 (Z.eqb_neq _ _)) by done. destruct (split_on sep s) as [|p ps]; eexists; (split; [left|left]).
  - destruct (IH Hc Hne) as (p & Hp & Hcp). destruct (x =? sep); [exists p; set_solver|].
    destruct (split_on sep s) as [|q qs]; [set_solver|]. apply elem_of_cons in Hp as [->|Hp].
    + exists (x :: q). set_solver.
    + exists p. set_solver.
Qed.

Lemma split_on_app sep s t : split_on sep (s ++ sep :: t) = split_on sep s ++ split_on sep t.
Proof.
  induction s as [|c s IH]; cbn [app split_on]; [by rewrite Z.eqb_refl|]. rewrite IH.
  pose proof (split_on_nonempty sep s). destruct (c =? sep); [done|]. by destruct (split_on sep s).
Qed.

Lemma join_snoc sep ps p : ps <> [] -> join_with sep (ps ++ [p]) = join_with sep ps ++ sep :: p.
Proof.
  induction ps as [|q ps IH]; intros Hne; [done|]. destruct ps as [|r ps]; [done|].
  change (join_with sep ((q :: r :: ps) ++ [p])) with (q ++ sep :: join_with sep ((r :: ps) ++ [p])). rewrite IH by done.
  cbn [join_with]. by rewrite <- app_assoc.
Qed.

(** The last part is empty when the text is empty or ends with the separator. *)
Lemma split_last sep s : last (split_on sep s) = Some [] <-> s = [] \/ last s = Some sep.
Proof.
  split.
  - intros Hl. apply last_Some in Hl as [ps Hps]. pose proof (join_split sep s) as Hj. rewrite Hps in Hj.
    destruct ps as [|p ps]; [by left|right]. rewrite join_snoc in Hj by done. rewrite <- Hj. apply last_snoc.
  - intros [->|Hl]; [done|]. apply last_Some in Hl as [s' ->]. rewrite split_on_app.
    change (split_on sep []) with [@nil Z]. by rewrite last_snoc.
Qed.

(** A component of a text, as [string_iter] yields it. *)
Abbreviation component := (Protocol * Codec * option text)%type.

(** ** What each codec promises *)

Section Codecs.
Context `{VL : VarintLaws} `{ML : MultiformatsLaws} `{U : Unicode} `{NL : NetAddrLaws} `{IL : IdnaLaws}.

(** A value without a slash is stored in bytes, which, printed, give a text without a slash that is stored in the same
    bytes. *)
Definition stable (to_bytes : text -> result bytes) (to_string : bytes -> result text) (width : option nat) : Prop :=
  (forall v buf, to_bytes v = Ok buf -> Forall is_byte buf) /\
  forall v buf v', 47 ∉ v -> to_bytes v = Ok buf -> (forall w, width = Some w -> length buf = w) -> to_string buf = Ok v' ->
    to_bytes v' = Ok buf /\ v' <> [] /\ 47 ∉ v'.

Lemma decimal_no_char s c : decimal_text s -> ~ (48 <= c <= 57) -> c ∉ s.
Proof. intros Hs Hc Hin. unfold decimal_text in Hs. rewrite Forall_forall in Hs. apply Hs, is_decimal_spec in Hin. done. Qed.

Lemma ip_bytes v s buf : ip_to_bytes v s = Ok buf -> exists n, 0 <= n < 256 ^ Z.of_nat (ip_width v) /\ buf = to_be (ip_width v) n.
Proof. unfold ip_to_bytes. intros Hb. mon_inv. pose proof (ip_parse_range _ _ _ E). eauto using ip_packed_be. Qed.

Lemma ip_stable v w : stable (ip_to_bytes v) (ip_to_string v) w.
Proof.
  split.
  - intros s buf Hb. destruct (ip_bytes _ _ _ Hb) as (n & _ & ->). apply to_be_bytes.
  - intros s buf s' _ Hb _ Hs. destruct (ip_bytes _ _ _ Hb) as (n & Hn & ->). unfold ip_to_string in Hs.
    rewrite from_be_to_be, Z.mod_small in Hs by (rewrite <- pow_256_8 by lia; done). rewrite ip_of_int_ok in Hs by done. mon_inv.
    split; [|apply ip_str_text]. unfold ip_to_bytes. rewrite ip_parse_str by done. cbn [rbind]. by rewrite ip_packed_be.
Qed.

Lemma pack_H_bytes n buf : pack_H n = Ok buf -> 0 <= n < 65536 /\ buf = to_be 2 n.
Proof. unfold pack_H. case_match; [|done]. intros. mon_inv. propify. done. Qed.

Lemma unpack_pack n : 0 <= n < 65536 -> unpack_H (to_be 2 n) = Ok n.
Proof. intros Hn. unfold unpack_H. rewrite length_to_be. cbn [Nat.eqb]. rewrite from_be_to_be. f_equal. by apply Z.mod_small. Qed.

Lemma uint16be_stable w : stable uint16be_to_bytes uint16be_to_string w.
Proof.
  assert (Hp : forall v buf, uint16be_to_bytes v = Ok buf -> exists n, 0 <= n < 65536 /\ buf = to_be 2 n).
  { unfold uint16be_to_bytes. intros v buf Hb. mon_inv. destruct (pack_H a) as [x|] eqn:Ep; [|done]. mon_inv.
    destruct (pack_H_bytes _ _ Ep). eauto. }
  split; [intros v buf Hb; destruct (Hp _ _ Hb) as (n & _ & ->); apply to_be_bytes|].
  intros v buf v' _ Hb _ Hs. destruct (Hp _ _ Hb) as (n & Hn & ->). unfold uint16be_to_string in Hs.
  rewrite length_to_be, unpack_pack in Hs by done. cbn [Nat.eqb negb rbind] in Hs. mon_inv.
  destruct (str_nat_spec n) as (Hne & Hd & _); [lia|]. split_and!; [|done|by apply decimal_no_char; [|lia]].
  unfold uint16be_to_bytes. rewrite py_int_str by lia. cbn [rbind]. unfold pack_H.
  rewrite (proj2 (Z.leb_le _ _)), (proj2 (Z.ltb_lt _ _)) by lia. done.
Qed.

Lemma domain_stable w : stable domain_to_bytes domain_to_string w.
Proof.
  split.
  - unfold domain_to_bytes. intros v buf Hb. mon_inv. by eapply utf8_encode_bytes.
  - unfold domain_to_bytes, domain_to_string. intros v buf v' _ Hb _ Hs. apply rbind_ok in Hb as (t & Ht & Hb).
    rewrite (utf8_decode_encode _ _ Hb) in Hs. cbn [rbind] in Hs. mon_inv. rename v' into t.
    rewrite (remap_idempotent _ _ Ht). split; [done|]. apply mapM_r_Forall2 in E.
    assert (Hl : forall l, l ∈ split_on 46 t -> l <> [] /\ 47 ∉ l).
    { intros l Hin. apply list_elem_of_lookup in Hin as [i Hi]. destruct (Forall2_lookup_l _ _ _ _ _ E Hi) as ([] & _ & Hc).
      by apply label_text. }
    split.
    + intros ->. destruct (Hl []); [by left|done].
    + intros Hin. destruct (split_elem 46 t 47 Hin) as (l & Hll & Hlin); [lia|]. by destruct (Hl l Hll).
Qed.

Lemma utf8_stable w : stable utf8_to_bytes utf8_to_string w.
Proof.
  split.
  - unfold utf8_to_bytes. intros v buf Hb. case_match; [done|]. by eapply utf8_encode_bytes.
  - unfold utf8_to_bytes, utf8_to_string. intros v buf v' Hv Hb _ Hs. destruct (Nat.eqb_spec (length v) 0) as [|Hl]; [done|].
    case_match; [done|]. rewrite (utf8_decode_encode _ _ Hb) in Hs. mon_inv.
    rewrite (proj2 (Nat.eqb_neq _ _)) by done. split_and!; [done| |done]. by intros ->.
Qed.

Lemma onion_bytes k v buf : onion_to_bytes k v = Ok buf ->
  exists host port, Forall is_byte host /\ 1 <= port < 65536 /\ buf = host ++ to_be 2 port.
Proof.
  unfold onion_to_bytes. destruct (split_on 58 v) as [|h [|p [|]]]; try done. case_match; [done|]. intros Hb. mon_inv.
  case_match eqn:Hp; [done|]. apply negb_false_iff in Hp. propify. mon_inv. destruct (pack_H_bytes _ _ E1) as [_ ->].
  exists a, a0. split_and!; [|lia|lia|done]. by eapply b32decode_bytes.
Qed.

Lemma onion_stable n w : w = Some (5 * n + 2)%nat -> stable (onion_to_bytes (8 * n)) onion_to_string w.
Proof.
  intros ->. split.
  - intros v buf Hb. destruct (onion_bytes _ _ _ Hb) as (h & p & Hh & _ & ->). apply Forall_app. auto using to_be_bytes.
  - intros v buf v' _ Hb Hw Hs. destruct (onion_bytes _ _ _ Hb) as (h & p & Hh & Hp & ->). specialize (Hw _ eq_refl).
    rewrite length_app, length_to_be in Hw. unfold onion_to_string in Hs.
    replace (length (h ++ to_be 2 p) - 2)%nat with (length h) in Hs by (rewrite length_app, length_to_be; lia).
    rewrite take_app_length, drop_app_length, unpack_pack in Hs by lia. cbn [rbind] in Hs. mon_inv.
    destruct (b32_roundtrip n h Hh) as (Hdec & Ht & Hlen); [lia|]. destruct (upper_lower_b32 _ Ht) as [Hup Hlow].
    destruct (str_nat_spec p) as (Hne & Hd & _); [lia|]. rewrite Forall_forall in Hlow.
    assert (H58 : 58 ∉ lower_ascii (b32encode h)) by (intros Hin; apply Hlow in Hin; lia).
    assert (H47 : 47 ∉ lower_ascii (b32encode h)) by (intros Hin; apply Hlow in Hin; lia).
    assert (Hport : (58 ∉ str_nat p) /\ (47 ∉ str_nat p)) by (split; apply decimal_no_char; done || lia). destruct Hport.
    split_and!.
    + unfold onion_to_bytes. rewrite split_app, split_no_sep by done. unfold lower_ascii at 1. rewrite length_map, Hlen, Nat.eqb_refl.
      cbn [negb]. rewrite Hup, Hdec. cbn [rbind]. rewrite py_int_str by lia. cbn [rbind].
      rewrite (proj2 (Z.leb_le _ _)), (proj2 (Z.ltb_lt _ _)) by lia. cbn [andb negb]. unfold pack_H.
      rewrite (proj2 (Z.leb_le _ _)), (proj2 (Z.ltb_lt _ _)) by lia. done.
    + by destruct (lower_ascii _).
    + set_solver by lia.
Qed.

(** ** Paths *)

Lemma fsencode_app s t b : fsencode (s ++ t) = Ok b -> exists b1 b2, fsencode s = Ok b1 /\ fsencode t = Ok b2 /\ b = b1 ++ b2.
Proof.
  revert b. induction s as [|c s IH]; intros b Hb; cbn [app fsencode] in *; [by exists [], b|].
  destruct (escaped c); [|destruct (scalar c); [|done]]; mon_inv; destruct (IH _ E) as (b1 & b2 & -> & Ht & ->).
  - exists (c - 56320 :: b1), b2. done.
  - exists (utf8_char c ++ b1), b2. by rewrite app_assoc.
Qed.

(** Only a slash ends in the byte of a slash. *)
Lemma fsencode_last c b : fsencode [c] = Ok b -> last b = Some 47 -> c = 47.
Proof.
  cbn [fsencode]. destruct (escaped c) eqn:He.
  - intros [= <-]. unfold escaped in He. propify. intros [= Hl]. lia.
  - destruct (scalar c) eqn:Hs; [|done]. cbn [rbind]. rewrite app_nil_r. intros [= <-] Hl. apply last_Some_elem_of in Hl.
    by apply (utf8_char_ascii c 47).
Qed.

Lemma fsencode_ends s b : fsencode s = Ok b -> s <> [] -> last s <> Some 47 -> b <> [] /\ last b <> Some 47.
Proof.
  intros Hb Hne Hl. destruct (last s) as [c|] eqn:E; [|by apply last_None in E]. apply last_Some in E as [s' ->].
  apply fsencode_app in Hb as (b1 & b2 & _ & F2 & ->).
  assert (Hb2 : b2 <> []). { cbn [fsencode] in F2. pose proof (utf8_char_nonempty c). repeat case_match; mon_inv; try done. by destruct (utf8_char c). }
  split; [by destruct b1|]. rewrite last_app. destruct (last b2) as [x|] eqn:Ex; [|by apply last_None in Ex].
  intros [= ->]. by pose proof (fsencode_last _ _ F2 Ex); subst.
Qed.

Lemma fspath_stable w buf v' : fsencode (47 :: w) = Ok buf -> w <> [] -> last w <> Some 47 -> fsdecode buf = Ok v' ->
  fsencode v' = Ok buf /\ exists w', v' = 47 :: w' /\ w' <> [] /\ last w' <> Some 47.
Proof.
  intros Hb Hne Hl Hd. pose proof (fsencode_bytes _ _ Hb) as Hby. destruct (fsencode_fsdecode buf Hby) as (s & Hs & He).
  assert (s = v') as -> by congruence. split; [done|]. change (47 :: w) with ([47] ++ w) in Hb.
  apply fsencode_app in Hb as (b1 & b2 & F1 & F2 & ->). injection F1 as <-. destruct (fsencode_ends _ _ F2 Hne Hl) as [Hb2 Hlb].
  unfold fsdecode in Hd. cbn [app length utf8_decode_loop utf8_next] in Hd. change (47 <? 128) with true in Hd. cbv iota in Hd.
  apply rbind_ok in Hd as (w' & Hw' & Hd). injection Hd as <-. exists w'. split; [done|].
  change (47 :: w') with ([47] ++ w') in He. apply fsencode_app in He as (b1 & b3 & F1 & F3 & He). injection F1 as <-.
  injection He as <-. split.
  - intros ->. simpl in F3. congruence.
  - intros Hl'. apply last_Some in Hl' as [u ->]. apply fsencode_app in F3 as (b4 & b5 & _ & F5 & ->). injection F5 as <-.
    by rewrite last_snoc in Hlb.
Qed.

(** ** Protocols of the registry *)

Definition good_protocol (p : Protocol) : Prop :=
  find_by_name REGISTRY (pname p) = Ok p /\ find_by_code REGISTRY (code p) = Ok p /\
  pname p <> [] /\ (47 ∉ pname p) /\ 0 <= code p < 2 ^ 32 /\ (pcodec p = Some "cid"%string -> pname p = P2P).

Lemma PROTOCOLS_good : Forall good_protocol PROTOCOLS.
Proof.
  unfold PROTOCOLS. repeat apply Forall_cons_2; [..|apply Forall_nil_2];
    (split_and!; [vm_compute; reflexivity|vm_compute; reflexivity|vm_compute; discriminate| |done|done|cbn; congruence || done]);
    apply (bool_decide_eq_false_1 (47 ∈ _)); vm_compute; reflexivity.
Qed.

Lemma REGISTRY_protocols e p : find_by_name REGISTRY e = Ok p -> p ∈ PROTOCOLS.
Proof.
  unfold find_by_name. destruct (dget _ _) as [q|] eqn:E; [|done]. intros [= ->]. apply dget_elem_of in E.
  assert (Hall : Forall (fun kv => kv.2 ∈ PROTOCOLS) (names_to_protocols REGISTRY)).
  { apply Forall_forall. intros kv Hin. eapply bool_decide_eq_true_1. revert kv Hin. apply Forall_forall.
    apply List.Forall_forall. rewrite <- forallb_forall. vm_compute. reflexivity. }
  rewrite Forall_forall in Hall. apply (Hall _ E).
Qed.

Lemma found_good e p : find_by_name REGISTRY e = Ok p -> good_protocol p.
Proof. intros Hf. pose proof PROTOCOLS_good as Hg. rewrite Forall_forall in Hg. eapply Hg, REGISTRY_protocols, Hf. Qed.

(** The number of bytes of a value, when it is fixed. *)
Definition width (c : Codec) : option nat := if SIZE c <? 0 then None else Some (Z.to_nat (SIZE c / 8)).

(** What the codec of a protocol promises. *)
Inductive codec_spec (p : Protocol) (c : Codec) : Prop :=
  | codec_none : SIZE c = 0 -> codec_spec p c
  | codec_value : SIZE c <> 0 -> -1 <= SIZE c -> IS_PATH c = false ->
      stable (codec_to_bytes c p) (codec_to_string c p) (width c) -> codec_spec p c
  | codec_path : SIZE c = -1 -> IS_PATH c = true -> codec_to_bytes c p = fsencode -> codec_to_string c p = fsdecode ->
      codec_spec p c.

Lemma codec_by_name_spec p c : good_protocol p -> codec_by_name (pcodec p) = Ok c -> codec_spec p c.
Proof.
  intros Hg Hc. destruct Hg as (_ & _ & _ & _ & _ & Hcid). unfold codec_by_name in Hc. destruct (pcodec p) as [name|].
  2: { mon_inv. by apply codec_none. }
  repeat (case_decide; [mon_inv|]); [..|done];
    first [by apply codec_path | apply codec_value; [done..|]; cbn [codec_to_bytes codec_to_string]].
  - apply ip_stable.
  - apply ip_stable.
  - apply uint16be_stable.
  - apply domain_stable.
  - apply utf8_stable.
  - by apply (onion_stable 2).
  - by apply (onion_stable 7).
  - rewrite (Hcid eq_refl). split.
    + intros v buf Hb. destruct (p2p_bytes_shape _ _ Hb) as (m & data & -> & Ha & Hm). constructor; [unfold is_byte; lia|].
      by eapply prefix_bytes.
    + intros v buf v' _ Hb _ Hs. by eapply p2p_stable.
Qed.

(** ** Components *)

(** The components a text can have: a path comes last. *)
Inductive good : list component -> Prop :=
  | good_nil : good []
  | good_none p c cs : good_protocol p -> codec_by_name (pcodec p) = Ok c -> SIZE c = 0 -> good cs -> good ((p, c, None) :: cs)
  | good_value p c v cs : good_protocol p -> codec_by_name (pcodec p) = Ok c -> SIZE c <> 0 -> IS_PATH c = false -> 47 ∉ v ->
      good cs -> good ((p, c, Some v) :: cs)
  | good_path p c w : good_protocol p -> codec_by_name (pcodec p) = Ok c -> SIZE c <> 0 -> IS_PATH c = true ->
      w <> [] -> last w <> Some 47 -> good [(p, c, Some (47 :: w))].

Lemma string_iter_good n : forall sp cs, string_iter_loop n sp = (cs, None) ->
  Forall (fun e => 47 ∉ e) sp -> last sp <> Some [] -> good cs.
Proof.
  induction n as [|n IH]; intros [|e sp] cs Hs Hsp Hl; cbn [string_iter_loop] in Hs; simplify_eq; [constructor..|].
  destruct (resolve _) as [[p c]|err] eqn:Hr; [|done]. unfold resolve in Hr. mon_inv. simplify_eq.
  pose proof (found_good _ _ E) as Hg. apply Forall_cons in Hsp as [_ Hsp].
  assert (Hl' : forall x, sp <> [] -> last (x :: sp) = last sp) by (intros x Hne; rewrite last_cons; by destruct (last sp) eqn:El; [|apply last_None in El]).
  destruct (Z.eqb_spec (SIZE c) 0) as [Hz|Hz].
  - destruct (string_iter_loop n sp) as [cs' e'] eqn:Hi. unfold yield in Hs. simplify_eq/=. apply good_none; auto. eapply IH; [done..|].
    destruct sp; [done|]. by rewrite <- (Hl' e) by done.
  - destruct sp as [|v sp]; [done|]. assert (Hlv : last (v :: sp) <> Some []) by (by rewrite <- (Hl' e) by done).
    destruct (IS_PATH c) eqn:Hp.
    + assert (Hn : string_iter_loop n [] = ([], None)) by (by destruct n). rewrite Hn in Hs. unfold yield in Hs. simplify_eq/=.
      set (w := match sp with [] => v | _ :: _ => _ end). assert (Hw : w = join_with 47 (v :: sp)) by done. rewrite Hw.
      pose proof (split_join 47 (v :: sp) ltac:(done) Hsp) as Hj. rewrite <- Hj in Hlv.
      pose proof (split_last 47 (join_with 47 (v :: sp))) as Hsl.
      apply good_path; auto; intros Hc; apply Hlv, Hsl; auto.
    + destruct (string_iter_loop n sp) as [cs' e'] eqn:Hi. unfold yield in Hs. simplify_eq/=. apply Forall_cons in Hsp as [Hv Hsp].
      apply good_value; auto. eapply IH; [done..|]. destruct sp as [|x sp]; [done|]. rewrite last_cons in Hlv.
      destruct (last (x :: sp)) eqn:E3; [done|]. done.
Qed.

(** The elements of the text that has these components. *)
Definition component_elements (x : component) : list text :=
  let '(p, c, v) := x in
  match v with
  | None => [pname p]
  | Some v => if IS_PATH c then pname p :: split_on 47 (tail v) else [pname p; v]
  end.
Definition elements (cs : list component) : list text := mjoin (map component_elements cs).

Lemma elements_cons x cs : elements (x :: cs) = component_elements x ++ elements cs.
Proof. done. Qed.

Lemma resolve_good p c : good_protocol p -> codec_by_name (pcodec p) = Ok c ->
  resolve (find_by_name REGISTRY (pname p)) = Ok (p, c) /\ resolve (find_by_code REGISTRY (code p)) = Ok (p, c).
Proof. intros (Hn & Hc & _) Hk. unfold resolve. rewrite Hn, Hc. cbn [rbind]. by rewrite Hk. Qed.

(** Reading the elements gives the components back. *)
Lemma string_iter_elements cs : good cs -> forall n, (length (elements cs) <= n)%nat ->
  string_iter_loop n (elements cs) = (cs, None).
Proof.
  induction 1 as [|p c cs Hg Hk Hz _ IH|p c v cs Hg Hk Hz Hp Hv _ IH|p c w Hg Hk Hz Hp Hw Hl]; intros n Hn; [by destruct n|..];
    rewrite elements_cons in *; cbn [component_elements] in *; rewrite ?Hp in *; cbn [app length] in *;
    (destruct n as [|n]; [lia|]); cbn [string_iter_loop]; rewrite (proj1 (resolve_good _ _ Hg Hk)).
  - rewrite Hz. cbn [Z.eqb]. rewrite IH by lia. done.
  - rewrite (proj2 (Z.eqb_neq _ _) Hz), Hp. rewrite IH by lia. done.
  - rewrite (proj2 (Z.eqb_neq _ _) Hz), Hp. cbn [tail elements map mjoin list_join]. rewrite app_nil_r.
    pose proof (split_on_nonempty 47 w). destruct (split_on 47 w) as [|x xs] eqn:E; [done|]. rewrite <- E, join_split.
    by destruct n.
Qed.

Lemma elements_good cs : good cs -> Forall (fun e => 47 ∉ e) (elements cs) /\
  (Forall (fun x => match x with (_, _, Some v) => v <> [] | _ => True end) cs -> last (elements cs) <> Some []) /\
  (cs <> [] -> elements cs <> []).
Proof.
  induction 1 as [|p c cs Hg Hk Hz Hcs IH|p c v cs Hg Hk Hz Hp Hv Hcs IH|p c w Hg Hk Hz Hp Hw Hl]; [done|..];
    rewrite elements_cons; cbn [component_elements]; rewrite ?Hp; destruct Hg as (_ & _ & Hne & Hs & _).
  - destruct IH as (I1 & I2 & _). split_and!; [by constructor| |done]. intros Hf. apply Forall_cons in Hf as [_ Hf].
    cbn [app]. rewrite last_cons. destruct (last (elements cs)) eqn:E; [auto|]. congruence.
  - destruct IH as (I1 & I2 & _). split_and!; [by repeat constructor| |done]. intros Hf. apply Forall_cons in Hf as [Hv' Hf].
    cbn [app]. rewrite !last_cons. destruct (last (elements cs)) eqn:E; [auto|]. congruence.
  - cbn [tail elements map mjoin list_join]. rewrite app_nil_r. split_and!; [constructor; auto using split_on_parts| |done]. intros _.
    rewrite last_cons. pose proof (split_last 47 w) as Hsl. destruct (last (split_on 47 w)) eqn:E; [|congruence].
    intros [= ->]. by destruct (proj1 Hsl eq_refl).
Qed.

(** ** The bytes of components *)

Definition good_component (x : component) : Prop :=
  let '(p, c, v) := x in good_protocol p /\ codec_by_name (pcodec p) = Ok c /\ (v = None <-> SIZE c = 0).

Lemma good_components cs : good cs -> Forall good_component cs.
Proof.
  induction 1; [by apply Forall_nil_2|..]; apply Forall_cons_2; try done; try (by apply Forall_nil_2); unfold good_component; naive_solver.
Qed.

(** The bytes of the value, and whether there are as many as the codec says. *)
Definition component_part (x : component) : result bytes :=
  let '(p, c, v) := x in match v with None => Ok [] | Some v => codec_to_bytes c p v end.

Definition sized (x : component) : Prop :=
  let '(p, c, v) := x in forall part w, component_part x = Ok part -> width c = Some w -> length part = w.

Lemma component_bytes_part x b : good_component x -> component_bytes x = Ok b ->
  exists part, component_part x = Ok part /\
    b = vcode x.1.1 ++ (if SIZE x.1.2 <? 0 then varint_encode (Z.of_nat (length part)) else []) ++ part.
Proof.
  destruct x as [[p c] v]. intros (Hg & Hk & Hv) Hb. cbn [component_bytes component_part fst snd] in *. unfold vcode.
  destruct v as [v|].
  - destruct (codec_to_bytes c p v) as [buf|] eqn:E; [|done]. mon_inv. exists buf. split; [done|]. do 2 f_equal.
    destruct (codec_by_name_spec _ _ Hg Hk) as [Hz|_ Hr _ _|Hr _ _ _]; [naive_solver|..]; unfold LENGTH_PREFIXED_VAR_SIZE;
      destruct (Z.eqb_spec (SIZE c) (-1)), (Z.ltb_spec (SIZE c) 0); try done; lia.
  - mon_inv. exists []. split; [done|]. rewrite (proj1 Hv eq_refl). cbn [Z.ltb Z.compare]. by rewrite !app_nil_r.
Qed.

Lemma component_bytes_length x b : good_component x -> component_bytes x = Ok b -> b <> [].
Proof.
  intros Hx Hb. destruct (component_bytes_part _ _ Hx Hb) as (part & _ & ->). unfold vcode.
  pose proof (varint_nonempty (code x.1.1)). by destruct (varint_encode (code x.1.1)).
Qed.

(** One iteration of [bytes_iter] reads one component. *)
Lemma bytes_iter_step x b part rest n total :
  good_component x -> component_bytes x = Ok b -> component_part x = Ok part -> sized x -> Z.of_nat (length b) < 2 ^ 32 ->
  bytes_iter_loop (S n) total (b ++ rest) =
  yield ((total - length (b ++ rest))%nat, x.1.1, x.1.2, part) (bytes_iter_loop n total rest).
Proof.
  intros Hx Hb Hpart Hs Hl. destruct (component_bytes_part _ _ Hx Hb) as (part' & Hp' & Eb). rewrite Hpart in Hp'. injection Hp' as <-.
  pose proof (component_bytes_length _ _ Hx Hb) as Hne. destruct x as [[p c] v]. cbn [fst snd] in *.
  destruct Hx as (Hg & Hk & Hv). pose proof Hg as (_ & _ & _ & _ & Hcode & _).
  assert (Hsz : SIZE c = -1 \/ 0 <= SIZE c) by (destruct (codec_by_name_spec _ _ Hg Hk); lia).
  assert (Hd : decode_stream (b ++ rest) = Ok (code p, (if SIZE c <? 0 then varint_encode (Z.of_nat (length part)) else []) ++ part ++ rest)).
  { rewrite Eb. unfold vcode. rewrite <- !app_assoc. by apply varint_decode. }
  assert (Hread : read (Z.of_nat (length part)) (part ++ rest) = (part, rest)).
  { unfold read. rewrite (proj2 (Z.ltb_ge _ _)) by lia. by rewrite Nat2Z.id, take_app_length, drop_app_length. }
  cbn [bytes_iter_loop]. destruct (b ++ rest) as [|b0 r] eqn:E; [by destruct b|]. rewrite Hd, (proj2 (resolve_good _ _ Hg Hk)).
  unfold size_for_addr. destruct Hsz as [Hm|Hp].
  - rewrite Hm. cbn [Z.leb Z.ltb Z.compare]. rewrite varint_decode.
    2: { rewrite Eb, !length_app in Hl. rewrite Hm in Hl. cbn [Z.ltb Z.compare] in Hl. lia. }
    by rewrite Hread.
  - rewrite (proj2 (Z.leb_le _ _)), (proj2 (Z.ltb_ge _ _)) by lia. cbn [app].
    assert (Hw : width c = Some (Z.to_nat (SIZE c / 8))) by (unfold width; by rewrite (proj2 (Z.ltb_ge _ _)) by lia).
    specialize (Hs _ _ Hpart Hw). replace (SIZE c / 8) with (Z.of_nat (length part)); [by rewrite Hread|].
    rewrite Hs, Z2Nat.id by (apply Z.div_pos; lia). done.
Qed.

(** What [bytes_iter] yields for the bytes of components: each with its offset and the bytes of its value. *)
Inductive laid_out (total : nat) : list component -> list bytes -> list (nat * Protocol * Codec * bytes) -> Prop :=
  | laid_nil : laid_out total [] [] []
  | laid_cons p c v cs b bs part its :
      good_component (p, c, v) -> component_bytes (p, c, v) = Ok b -> component_part (p, c, v) = Ok part ->
      laid_out total cs bs its ->
      laid_out total ((p, c, v) :: cs) (b :: bs) (((total - length (mjoin (b :: bs)))%nat, p, c, part) :: its).

Lemma bytes_iter_laid_out cs : Forall good_component cs -> forall bs total n,
  mapM_r component_bytes cs = Ok bs -> Forall sized cs -> Z.of_nat (length (mjoin bs)) < 2 ^ 32 -> (length (mjoin bs) <= n)%nat ->
  exists its, bytes_iter_loop n total (mjoin bs) = (its, None) /\ laid_out total cs bs its.
Proof.
  induction 1 as [|[[p c] v] cs Hx Hcs IH]; intros bs total n Hb Hs Hl Hn; cbn [mapM_r] in Hb; mon_inv.
  { exists []. split; [by destruct n|constructor]. }
  rename a into b, a0 into bs. apply Forall_cons in Hs as [Hs Hss]. destruct (component_bytes_part _ _ Hx E) as (part & Hpart & _).
  pose proof (component_bytes_length _ _ Hx E) as Hne. change (mjoin (b :: bs)) with (b ++ mjoin bs) in *. rewrite length_app in Hl, Hn.
  destruct n as [|n]; [destruct b; simpl in Hn; [done|lia]|].
  rewrite (bytes_iter_step (p, c, v) b part) by (done || lia). cbn [fst snd].
  destruct (IH bs total n) as (its & Hi & Hlo); [done|done|lia|destruct b; simpl in Hn; [done|lia]|].
  rewrite Hi. eexists. split; [reflexivity|]. change (b ++ mjoin bs) with (mjoin (b :: bs)). by constructor.
Qed.

(** ** Printing and reading again *)

Lemma join_cons x y l : join_with 47 (x :: y :: l) = x ++ 47 :: join_with 47 (y :: l).
Proof. done. Qed.

Lemma path_text c (v w : text) : v = 47 :: w -> (match v with [] => Raise IndexError | d :: rest => Ok [pname c; if d =? 47 then rest else v] end)
  = Ok [pname c; w].
Proof. by intros ->. Qed.

(** Printed components can be read again, and are stored in the same bytes. *)
Lemma reprint cs : good cs -> forall total bs its sts,
  laid_out total cs bs its -> Forall sized cs -> mapM_r component_text its = Ok sts ->
  exists cs', good cs' /\ mapM_r component_bytes cs' = Ok bs /\ map fst cs' = map fst cs /\
    Forall (fun x => match x with (_, _, Some v) => v <> [] | _ => True end) cs' /\
    forall x, join_with 47 (x :: mjoin sts) = join_with 47 (x :: elements cs').
Proof.
  induction 1 as [|p c cs Hg Hk Hz Hcs IH|p c v cs Hg Hk Hz Hp Hv Hcs IH|p c w Hg Hk Hz Hp Hw Hl]; intros total bs its sts Hlo Hs Ht;
    inversion Hlo as [|? ? ? ? b bs' part its' Hx Hb Hpart Hlo' E1 E2 E3]; subst; clear Hlo; cbn [mapM_r] in Ht; mon_inv.
  - exists []. split_and!; try done. constructor.
  - apply Forall_cons in Hs as [_ Hs]. destruct (IH _ _ _ _ Hlo' Hs E0) as (cs' & Hg' & Hb' & Hm & Hne & Hj).
    cbn [component_text] in E. rewrite Hz in E. cbn [Z.eqb] in E. mon_inv. exists ((p, c, None) :: cs').
    split_and!; [by constructor|cbn [mapM_r]; by rewrite Hb, Hb'|cbn [map fst]; congruence|by constructor|].
    intros x. change (mjoin ([pname p] :: ?t)) with (pname p :: mjoin t). rewrite elements_cons. cbn [component_elements app].
    by rewrite !join_cons, Hj.
  - apply Forall_cons in Hs as [Hsz Hs]. destruct (IH _ _ _ _ Hlo' Hs E0) as (cs' & Hg' & Hb' & Hm & Hne & Hj).
    cbn [component_text] in E. rewrite (proj2 (Z.eqb_neq _ _) Hz), Hp in E.
    destruct (codec_to_string c p part) as [v'|] eqn:Ev; [|done]. mon_inv. cbn [component_part] in Hpart.
    destruct (codec_by_name_spec _ _ Hg Hk) as [|_ _ _ Hst|? ? _ _]; [done| |congruence].
    destruct (proj2 Hst v part v' Hv Hpart) as (Hb2 & Hne' & H47); [intros w Hw; by apply (Hsz part)|done|].
    exists ((p, c, Some v') :: cs'). split_and!.
    + by apply good_value.
    + cbn [mapM_r]. cbn [component_bytes] in *. rewrite Hpart in Hb. rewrite Hb2. cbn [rbind] in *. rewrite Hb'. by mon_inv.
    + cbn [map fst]. congruence.
    + by constructor.
    + intros x. change (mjoin ([pname p; v'] :: ?t)) with (pname p :: v' :: mjoin t). rewrite elements_cons.
      cbn [component_elements]. rewrite Hp. cbn [app]. by rewrite !join_cons, Hj.
  - inversion Hlo'. subst. cbn [mapM_r] in *. mon_inv. cbn [component_text] in E. rewrite (proj2 (Z.eqb_neq _ _) Hz), Hp in E.
    destruct (codec_to_string c p part) as [v'|] eqn:Ev; [|done]. cbn [component_part] in Hpart.
    destruct (codec_by_name_spec _ _ Hg Hk) as [|_ _ ? _|_ _ Henc Hdec]; [done|congruence|]. rewrite Henc in Hpart. rewrite Hdec in Ev.
    destruct (fspath_stable _ _ _ Hpart Hw Hl Ev) as (Hb2 & w' & -> & Hne & Hl'). rewrite (path_text p (47 :: w') w') in E by done. mon_inv.
    exists [(p, c, Some (47 :: w'))]. split_and!.
    + by apply good_path.
    + cbn [mapM_r component_bytes] in *. rewrite Henc in *. rewrite Hpart in Hb. rewrite Hb2. mon_inv. done.
    + done.
    + by repeat constructor.
    + intros x. rewrite elements_cons. cbn [component_elements tail]. rewrite Hp.
      change (mjoin [[pname p; w']]) with [pname p; w']. change (elements []) with (@nil text). rewrite app_nil_r.
      pose proof (split_on_nonempty 47 w'). destruct (split_on 47 w') as [|y ys] eqn:Ey; [done|].
      rewrite !join_cons. rewrite <- Ey, join_split. done.
Qed.

(** Reading the text made of elements. *)
Lemma string_to_bytes_elements cs bs : good cs -> cs <> [] ->
  Forall (fun x => match x with (_, _, Some v) => v <> [] | _ => True end) cs -> mapM_r component_bytes cs = Ok bs ->
  string_iter (join_with 47 ([] :: elements cs)) = (cs, None) /\ string_to_bytes (join_with 47 ([] :: elements cs)) = Ok (mjoin bs).
Proof.
  intros Hg Hne Hv Hb. destruct (elements_good cs Hg) as (Hs & Hl & Hn). specialize (Hl Hv). specialize (Hn Hne).
  assert (Hi : string_iter (join_with 47 ([] :: elements cs)) = (cs, None)).
  { unfold string_iter. destruct (elements cs) as [|e es] eqn:E; [done|]. rewrite join_cons. cbn [app].
    change (47 :: join_with 47 (e :: es)) with (join_with 47 ([] :: e :: es)).
    assert (Hsp : split_on 47 (join_with 47 ([] :: e :: es)) = [] :: e :: es) by (apply split_join; [done|]; by constructor; [set_solver|]).
    rewrite rstrip_char_id.
    2: { pose proof (split_last 47 (join_with 47 ([] :: e :: es))) as Hsl. rewrite Hsp, last_cons in Hsl.
         destruct (last (e :: es)) eqn:El; [|by apply last_None in El]. destruct (last (join_with _ _)) eqn:Ej; [|done].
         intros ->. destruct Hl. apply Hsl. by right. }
    rewrite Hsp. cbn [tail]. rewrite <- E. by apply string_iter_elements. }
  split; [done|]. unfold string_to_bytes. rewrite Hi, gen_map_end, Hb. done.
Qed.

(** What reading a text successfully says about its components. *)
Lemma string_to_bytes_components s b : string_to_bytes s = Ok b ->
  exists cs bs, string_iter s = (cs, None) /\ good cs /\ mapM_r component_bytes cs = Ok bs /\ b = mjoin bs.
Proof.
  unfold string_to_bytes. intros Hb. destruct (string_iter s) as [cs e] eqn:Hi. apply rbind_ok in Hb as (bs & Hbs & Hb). mon_inv.
  destruct e as [e|]; [destruct (gen_map_error component_bytes cs e); congruence|]. rewrite gen_map_end in Hbs. exists cs, bs.
  split_and!; [done| |done|done]. unfold string_iter in Hi. destruct s as [|c s]; [done|].
  assert (c = 47) as -> by (repeat case_match; simplify_eq; done).
  set (r := rstrip_char 47 (47 :: s)) in *. pose proof (split_on_parts 47 r) as Hp. pose proof (rstrip_char_last 47 (47 :: s)) as Hr. fold r in Hr.
  pose proof (split_on_nonempty 47 r). pose proof (split_last 47 r) as Hsl.
  destruct (split_on 47 r) as [|x sp] eqn:E; [done|]. cbn [tail] in Hi. apply Forall_cons in Hp as [_ Hp].
  eapply string_iter_good; [done..|]. intros Hl. rewrite last_cons, Hl in Hsl. destruct (proj1 Hsl eq_refl) as [Hz|Hz].
  - rewrite Hz in E. injection E as <- <-. done.
  - by rewrite Hz in Hr.
Qed.

(** ** Values of fixed size *)

(** Onion addresses in ASCII and without [=]. *)
Definition plain_char (ch : Z) : Prop := ch < 128 /\ ch <> 61.

Definition plain_onion (x : component) : Prop :=
  let '(p, _, v) := x in
  pcodec p = Some "onion"%string \/ pcodec p = Some "onion3"%string ->
  match v with Some v => Forall plain_char v | None => True end.

Lemma upper_plain s : Forall plain_char s ->
  length (upper s) = length s /\ rstrip_char 61 (upper s) = upper s.
Proof.
  intros Hs. assert (Hu : Forall (fun ch => ch <> 61) (upper s) /\ length (upper s) = length s).
  { induction Hs as [|c s [Hc Hne] Hs IH]; [done|]. destruct IH as [I1 I2]. unfold upper in *. cbn [map].
    change (mjoin (?a :: ?t)) with (a ++ mjoin t). unfold upper_char at 1 3. rewrite (proj2 (Z.ltb_lt _ _)) by done. cbn [app length].
    split; [|by rewrite I2]. constructor; [|done]. destruct ((97 <=? c) && (c <=? 122)) eqn:E; propify; lia. }
  destruct Hu as [Hu Hl]. split; [done|]. apply rstrip_char_id. destruct (last (upper s)) as [x|] eqn:E; [|done].
  apply last_Some_elem_of in E. rewrite Forall_forall in Hu. auto.
Qed.

Lemma onion_size n v buf : Forall plain_char v -> onion_to_bytes (8 * n) v = Ok buf -> length buf = (5 * n + 2)%nat.
Proof.
  intros Hv. unfold onion_to_bytes. pose proof (join_split 58 v) as Hj. destruct (split_on 58 v) as [|h [|p [|]]]; try done.
  cbn [join_with] in Hj. subst v. apply Forall_app in Hv as [Hh _]. destruct (Nat.eqb_spec (length h) (8 * n)) as [Hl|]; [|done]. cbn [negb].
  intros Hb. mon_inv. case_match; [done|]. mon_inv. destruct (pack_H_bytes _ _ E1) as [_ ->].
  rewrite length_app, length_to_be. f_equal. destruct (upper_plain h Hh) as [Hu Hr]. unfold b32decode in E.
  repeat (case_match; [done|]). rewrite Hr, Nat.sub_diag in E. apply rbind_ok in E as ([d l] & Hd & E).
  destruct (decode_groups_length _ _ _ _ _ Hd) as [Hld _]. cbn [Nat.eqb negb andb] in E. case_match; [done|]. mon_inv. rewrite Hld. f_equal.
  symmetry. apply (Nat.div_unique _ _ _ 7); lia.
Qed.

Lemma plain_sized x : good_component x -> plain_onion x -> sized x.
Proof.
  destruct x as [[p c] v]. intros (Hg & Hk & Hv) Ho part w Hp Hw. cbn [component_part plain_onion] in *. unfold codec_by_name in Hk.
  destruct (pcodec p) as [name|] eqn:Ename.
  2: { injection Hk as <-. cbn in Hw. destruct v; [naive_solver|]. by simplify_eq. }
  repeat (case_decide; [injection Hk as <-; cbn in Hw; simplify_eq; (destruct v as [v|]; [|naive_solver]); cbn [codec_to_bytes] in Hp|]); [..|done].
  - destruct (ip_bytes _ _ _ Hp) as (n & _ & ->). by rewrite length_to_be.
  - destruct (ip_bytes _ _ _ Hp) as (n & _ & ->). by rewrite length_to_be.
  - unfold uint16be_to_bytes in Hp. mon_inv. destruct (pack_H a) eqn:E2; [|done]. mon_inv. destruct (pack_H_bytes _ _ E2) as [_ ->]. by rewrite length_to_be.
  - eapply (onion_size 2); [|done]. apply Ho. by left.
  - eapply (onion_size 7); [|done]. apply Ho. by right.
Qed.

(** So is every ASCII text without [=]. *)
Lemma split_on_elems sep s : forall e ch, e ∈ split_on sep s -> ch ∈ e -> ch ∈ s.
Proof.
  induction s as [|c s IH]; intros e ch He Hch; cbn [split_on] in He; [apply list_elem_of_singleton in He as ->; by apply elem_of_nil in Hch|]. destruct (c =? sep).
  - apply elem_of_cons in He as [->|He]; [by apply elem_of_nil in Hch|]. right. eauto.
  - pose proof (split_on_nonempty sep s). destruct (split_on sep s) as [|q qs] eqn:E; [done|].
    apply elem_of_cons in He as [->|He].
    + apply elem_of_cons in Hch as [->|Hch]; [left|right]. eapply IH; [left|done].
    + right. eapply IH; [right; done|done].
Qed.

Lemma join_plain sp : Forall (Forall plain_char) sp -> Forall plain_char (join_with 47 sp).
Proof.
  induction 1 as [|e sp He Hsp IH]; [apply Forall_nil_2|]. destruct sp as [|x sp]; [done|].
  change (join_with 47 (e :: x :: sp)) with (e ++ 47 :: join_with 47 (x :: sp)). apply Forall_app. split; [done|].
  apply Forall_cons_2; [unfold plain_char; lia|done].
Qed.

Lemma string_iter_plain n : forall sp, Forall (Forall plain_char) sp -> Forall plain_onion (string_iter_loop n sp).1.
Proof.
  induction n as [|n IH]; intros [|e sp] Hsp; cbn [string_iter_loop]; try (apply Forall_nil_2).
  apply Forall_cons in Hsp as [_ Hsp]. destruct (resolve _) as [[p c]|]; [|apply Forall_nil_2]. destruct (_ =? _).
  - apply Forall_cons_2; [done|auto].
  - destruct sp as [|v sp]; [apply Forall_nil_2|]. pose proof (join_plain _ Hsp) as Hj. apply Forall_cons in Hsp as [Hv Hsp]. destruct (IS_PATH c).
    + apply Forall_cons_2; [intros _; apply Forall_cons_2; [unfold plain_char; lia|done]|apply IH, Forall_nil_2].
    + apply Forall_cons_2; [by intros _|auto].
Qed.

Lemma plain_text s : Forall plain_char s -> Forall plain_onion (string_iter s).1.
Proof.
  intros Hs. unfold string_iter. destruct s as [|c s]; [apply Forall_nil_2|]. assert (Hr : Forall plain_char (rstrip_char 47 (c :: s))).
  { unfold rstrip_char. destruct (lstrip_spec [47] (reverse (c :: s))) as (q & Hq & _). apply Forall_reverse.
    apply Forall_reverse in Hs. rewrite Hq in Hs. by apply Forall_app in Hs as [_ ?]. }
  assert (Hall : Forall (Forall plain_char) (tail (split_on 47 (rstrip_char 47 (c :: s))))).
  { apply Forall_forall. intros e He. apply Forall_forall. intros ch Hch. rewrite Forall_forall in Hr. apply Hr.
    apply (split_on_elems 47 _ e); [|done]. destruct (split_on 47 _); [by apply elem_of_nil in He|]. by right. }
  repeat (case_match; try apply Forall_nil_2). apply string_iter_plain, Hall.
Qed.
End Codecs.

(** * Theorems *)

Section Theorems.
Context `{VL : VarintLaws} `{ML : MultiformatsLaws} `{U : Unicode} `{NL : NetAddrLaws} `{IL : IdnaLaws}.

(** C28: Multiaddresses round-trip: when a text has been read, reading its bytes yields its components one by one, with the
    protocols of the text and the stored values; and when the bytes can be printed, the printed text has the same
    protocols and is stored in the same bytes.  This is so for every text that is not a mere slash, whose onion
    hosts are plain, and whose bytes are fewer than 2 ** 32. *)
Theorem multiaddr_roundtrip (s : text) (b : bytes) :
  string_to_bytes s = Ok b -> Z.of_nat (length b) < 2 ^ 32 -> Forall plain_onion (string_iter s).1 ->
  (exists its, bytes_iter b = (its, None) /\
     map (fun '(_, p, c, _) => (p, c)) its = map fst (string_iter s).1 /\
     map (fun '(_, _, _, part) => Ok part) its = map component_part (string_iter s).1) /\
  forall s', bytes_to_string b = Ok s' -> b <> [] ->
    string_to_bytes s' = Ok b /\ map fst (string_iter s').1 = map fst (string_iter s).1.
Proof.
  intros Hb Hl Ho. destruct (string_to_bytes_components _ _ Hb) as (cs & bs & Hi & Hg & Hbs & ->). rewrite Hi in *. cbn [fst] in *.
  pose proof (good_components _ Hg) as Hgc.
  assert (Hs : Forall sized cs).
  { apply Forall_forall. intros x Hx. rewrite Forall_forall in Hgc, Ho. apply plain_sized; auto. }
  destruct (bytes_iter_laid_out cs Hgc bs (length (mjoin bs)) (length (mjoin bs)) Hbs Hs Hl) as (its & Hits & Hlo); [lia|].
  split.
  - exists its. split; [done|]. clear -Hlo. revert Hlo. generalize (length (mjoin bs)). intros total Hlo. induction Hlo as [|p c v cs1 b1 bs1 part its1 _ _ Hp _ [I1 I2]]; [done|]. cbn [map fst].
    by rewrite I1, I2, Hp.
  - intros s' Hs' Hne. unfold bytes_to_string, bytes_iter in Hs'. rewrite Hits, gen_map_end in Hs'.
    apply rbind_ok in Hs' as (sts & Hsts & Hs'). destruct (reprint cs Hg _ _ _ _ Hlo Hs Hsts) as (cs' & Hg' & Hb' & Hm & Hv & Hj).
    rewrite Hj in Hs'. injection Hs' as <-. change (match elements cs' with [] => _ | _ :: _ => _ end) with (join_with 47 ([] :: elements cs')).
    destruct (string_to_bytes_elements cs' bs Hg') as [Hi' Hb2]; [|done|done|rewrite Hi'; done].
    intros ->. simpl in Hb'. by simplify_eq.
Qed.

(** Splitting an address and joining the parts. *)
Lemma split_loop_laid total cs bs its : laid_out total cs bs its -> forall pre all idx k,
  all = pre ++ mjoin bs -> total = length all ->
  exists parts, split_loop all idx k its None = Ok parts /\ mjoin parts = mjoin bs /\ Forall (fun p => p <> []) parts /\
    (k < idx -> parts = bs) /\ (idx <= k -> Z.of_nat (length parts) <= k - idx + 1).
Proof.
  induction 1 as [|p c v cs b bs part its Hx Hb Hpart Hlo IH]; intros pre all idx k -> Hall.
  { exists []. split_and!; try done. simpl. lia. }
  destruct (component_bytes_part _ _ Hx Hb) as (part' & Hp' & Eb). rewrite Hpart in Hp'. injection Hp' as <-. cbn [fst snd] in Eb.
  pose proof (component_bytes_length _ _ Hx Hb) as Hne. cbn [split_loop]. destruct (Z.eqb_spec idx k) as [->|Hk].
  - rewrite Hall, length_app. replace (length pre + _ - _)%nat with (length pre) by lia. rewrite drop_app_length.
    exists [mjoin (b :: bs)]. split_and!; [done|apply app_nil_r| |lia|simpl; lia].
    repeat constructor. change (mjoin (b :: bs)) with (b ++ mjoin bs). by destruct b.
  - destruct (IH (pre ++ b) (pre ++ mjoin (b :: bs)) (idx + 1) k) as (parts & -> & Hj & Hf & Hlt & Hle); [by rewrite <- app_assoc|done|].
    cbn [rbind]. rewrite <- Eb. exists (b :: parts). split_and!; [done| |by constructor| |].
    + change (mjoin (b :: ?l)) with (b ++ mjoin l). congruence.
    + intros Hki. by rewrite Hlt by lia.
    + intros Hik. cbn [length]. specialize (Hle ltac:(lia)). lia.
Qed.

Lemma mapM_r_bytes parts : mapM_r (fun part => new_multiaddr (AddrBytes part) REGISTRY) parts = Ok (map (fun part => mkMultiaddr part REGISTRY) parts).
Proof. by apply mapM_r_Ok. Qed.

Lemma mapM_r_objects parts :
  mapM_r (fun a => rmap addr_bytes (new_multiaddr a REGISTRY)) (map (fun part => AddrObj (mkMultiaddr part REGISTRY)) parts) = Ok parts.
Proof.
  rewrite (mapM_r_Ok _ (fun a => match a with AddrObj m => addr_bytes m | _ => [] end)); [by rewrite map_map, map_id|].
  intros a Ha. by apply list_elem_of_In, in_map_iff in Ha as (y & <- & _).
Qed.

(** An address that was read from a text splits into non-empty parts, and the parts join to the address: with no
    limit there is one part per component, with a limit of [n] there are at most [n + 1] parts. *)
Theorem split_parts_join (s : text) (m : Multiaddr) (maxsplit : Z) :
  new_multiaddr (AddrStr s) REGISTRY = Ok m -> Z.of_nat (length (addr_bytes m)) < 2 ^ 32 -> Forall plain_onion (string_iter s).1 ->
  exists parts, split m maxsplit = Ok parts /\ join (map AddrObj parts) = Ok m /\
    Forall (fun part => addr_bytes part <> []) parts /\
    (maxsplit < 0 -> length parts = length (string_iter s).1) /\
    (0 <= maxsplit -> Z.of_nat (length parts) <= maxsplit + 1).
Proof.
  cbn [new_multiaddr]. intros Hm Hl Ho. mon_inv. cbn [addr_bytes] in *.
  destruct (string_to_bytes_components _ _ E) as (cs & bs & Hi & Hg & Hbs & ->). rewrite Hi in *. cbn [fst] in *.
  pose proof (good_components _ Hg) as Hgc.
  assert (Hs : Forall sized cs).
  { apply Forall_forall. intros x Hx. rewrite Forall_forall in Hgc, Ho. apply plain_sized; auto. }
  destruct (bytes_iter_laid_out cs Hgc bs (length (mjoin bs)) (length (mjoin bs)) Hbs Hs Hl) as (its & Hits & Hlo); [lia|].
  destruct (split_loop_laid _ _ _ _ Hlo [] (mjoin bs) 0 maxsplit) as (parts & Hsp & Hj & Hf & Hlt & Hle); [done..|].
  unfold split, bytes_iter. cbn [addr_bytes]. rewrite Hits, Hsp. cbn [rbind]. rewrite mapM_r_bytes.
  eexists. split; [reflexivity|]. split_and!.
  - unfold join. rewrite map_map, mapM_r_objects. cbn [rbind new_multiaddr]. by rewrite Hj.
  - apply Forall_forall. intros x Hx. apply list_elem_of_In, in_map_iff in Hx as (y & <- & Hy). cbn [addr_bytes].
    rewrite Forall_forall in Hf. by apply Hf, list_elem_of_In.
  - intros Hk. rewrite length_map, Hlt by lia. by apply mapM_r_length in Hbs.
  - intros Hk. rewrite length_map. specialize (Hle Hk). lia.
Qed.

(** C29: Codecs are well typed: every protocol of the registry has one; what it stores are bytes, and, unless an onion
    host is padded, exactly as many as its size says.  In the bytes of an address such a value (shorter than 2 ** 32 bytes) follows the code
    of its protocol, and a value of variable size follows its length. *)
Theorem codec_types (name : text) (p : Protocol) :
  find_by_name REGISTRY name = Ok p ->
  exists c, codec_by_name (pcodec p) = Ok c /\ (SIZE c = LENGTH_PREFIXED_VAR_SIZE \/ 0 <= SIZE c /\ SIZE c mod 8 = 0) /\
    forall v buf, SIZE c <> 0 -> codec_to_bytes c p v = Ok buf -> Forall is_byte buf /\
      (0 <= SIZE c -> plain_onion (p, c, Some v) -> 8 * Z.of_nat (length buf) = SIZE c) /\
      (Z.of_nat (length buf) < 2 ^ 32 -> exists b rest, component_bytes (p, c, Some v) = Ok b /\
        decode_stream b = Ok (code p, rest) /\
        if SIZE c =? LENGTH_PREFIXED_VAR_SIZE then decode_stream rest = Ok (Z.of_nat (length buf), buf) else rest = buf).
Proof.
  intros Hf. pose proof (found_good _ _ Hf) as Hg. pose proof (REGISTRY_protocols _ _ Hf) as Hin.
  assert (Hc : exists c, codec_by_name (pcodec p) = Ok c /\ (SIZE c = LENGTH_PREFIXED_VAR_SIZE \/ 0 <= SIZE c /\ SIZE c mod 8 = 0)).
  { clear -Hin. unfold PROTOCOLS in Hin. repeat (apply elem_of_cons in Hin as [-> | Hin]; [eexists; split; [reflexivity|cbn; auto with lia; right; done]|]).
    by apply elem_of_nil in Hin. }
  destruct Hc as (c & Hk & Hsz). exists c. split; [done|]. split; [done|]. intros v buf Hz Hb. split_and!.
  - destruct (codec_by_name_spec _ _ Hg Hk) as [|_ _ _ [Hst _]|_ _ Henc _]; [done|by eapply Hst|]. rewrite Henc in Hb. by eapply fsencode_bytes.
  - intros Hp Ho. assert (Hgc : good_component (p, c, Some v)) by (split_and!; [done|done|naive_solver]).
    assert (Hw : width c = Some (Z.to_nat (SIZE c / 8))) by (unfold width; by rewrite (proj2 (Z.ltb_ge _ _)) by lia).
    pose proof (plain_sized _ Hgc Ho buf _ Hb Hw) as ->. destruct Hsz as [Hsz|[_ Hsz]]; [unfold LENGTH_PREFIXED_VAR_SIZE in *; lia|].
    rewrite Z2Nat.id by (apply Z.div_pos; lia). symmetry. apply Z_div_exact_full_2; done.
  - intros Hl. unfold component_bytes. rewrite Hb. eexists _, _. split; [reflexivity|]. split.
    + apply varint_decode. clear -Hin. unfold PROTOCOLS in Hin. repeat (apply elem_of_cons in Hin as [-> | Hin]; [done|]). by apply elem_of_nil in Hin.
    + destruct (SIZE c =? _); [|done]. apply varint_decode. lia.
Qed.
End Theorems.

(** ** Defects *)

Section Defects.
Context `{VL : VarintLaws} `{ML : MultiformatsLaws} `{U : Unicode} `{NL : NetAddrLaws} `{IL : IdnaLaws}.

Lemma resolve_ip4 : exists p c, resolve (find_by_code REGISTRY 4) = Ok (p, c) /\ pname p = lit "ip4" /\ SIZE c = 32 /\ IS_PATH c = false /\
  codec_to_string c p = ip_to_string 4.
Proof. eexists _, _. split; [reflexivity|]. done. Qed.

(** A binary address that was cut short is accepted: whatever is left of the four bytes of an IPv4 address, also nothing,
    is printed as an address.  The bytes are not checked against the size of the codec. *)
Theorem truncated_address_accepted (b : bytes) :
  Forall is_byte b -> (length b <= 4)%nat ->
  bytes_to_string (4 :: b) = Ok (lit "/ip4/" ++ ip_str 4 (from_be b)) /\
  (forall p c v, resolve (find_by_code REGISTRY 4) = Ok (p, c) -> (length b < 4)%nat -> component_part (p, c, Some v) <> Ok b).
Proof.
  intros Hb Hl. split.
  - destruct resolve_ip4 as (p & c & Hr & Hn & Hs & Hp & Hd).
    assert (Hst : decode_stream (4 :: b) = Ok (4, b)). { change (4 :: b) with ([4] ++ b). rewrite <- (varint_small 4) by lia. by apply varint_decode. }
    assert (Hi : bytes_iter (4 :: b) = ([(O, p, c, b)], None)).
    { unfold bytes_iter. cbn [length bytes_iter_loop]. rewrite Hst, Hr. unfold size_for_addr. rewrite Hs. cbn [Z.leb Z.compare].
      unfold read. change (32 / 8 <? 0) with false. cbv iota. change (Z.to_nat (32 / 8)) with 4%nat. rewrite take_ge, drop_ge by lia.
      rewrite Nat.sub_diag. by destruct (length b). }
    unfold bytes_to_string. rewrite Hi, gen_map_end. cbn [mapM_r component_text]. rewrite Hs, Hp, Hd. cbn [Z.eqb]. unfold ip_to_string.
    rewrite ip_of_int_ok. 2: { pose proof (from_be_bound b Hb) as Hfb. split; [lia|]. eapply Z.lt_le_trans; [apply Hfb|]. apply Z.pow_le_mono_r; [lia|]. unfold ip_width. simpl. lia. }
    cbn [rbind]. rewrite Hn. done.
  - intros p c v Hr Hlt Hpart. injection Hr as <- <-. cbn [component_part codec_to_bytes] in Hpart. destruct (ip_bytes _ _ _ Hpart) as (n & _ & ->).
    rewrite length_to_be in Hlt. unfold ip_width in Hlt. simpl in Hlt. lia.
Qed.

(** A registry given to the constructor is not consulted to parse: a protocol that only it knows is unknown. *)
Lemma custom_registry_ignored (r : ProtocolRegistry) (name : text) :
  name <> [] -> 47 ∉ name -> find_by_name REGISTRY name = Raise ProtocolNotFoundError ->
  new_multiaddr (AddrStr (47 :: name)) r = Raise StringParseError.
Proof.
  intros Hne H47 Hf. cbn [new_multiaddr]. unfold string_to_bytes.
  assert (Hi : string_iter (47 :: name) = ([], Some StringParseError)).
  { unfold string_iter. rewrite rstrip_char_id.
    2: { rewrite last_cons. destruct (last name) as [x|] eqn:E; [|by apply last_None in E]. apply last_Some_elem_of in E. set_solver. }
    change (47 :: name) with ([] ++ 47 :: name). rewrite split_app, split_no_sep by (done || set_solver). cbn [tail length string_iter_loop].
    by rewrite Hf. }
  by rewrite Hi.
Qed.

(** The address without components is printed as the empty text, which cannot be read. *)
Lemma root_address : string_to_bytes (lit "/") = Ok [] /\ bytes_to_string [] = Ok [] /\ string_to_bytes [] = Raise StringParseError.
Proof. done. Qed.

(** An empty path is an [IndexError], where the documentation promises a [BinaryParseError]. *)
Lemma empty_path : bytes_to_string (varint_encode 400 ++ [0]) = Raise IndexError.
Proof.
  assert (Hst : forall r, decode_stream (varint_encode 400 ++ r) = Ok (400, r)) by (intros; by apply varint_decode).
  assert (Hz0 : decode_stream [0] = Ok (0, [])). { change [0] with ([0] ++ []). rewrite <- (varint_small 0) by lia. by apply varint_decode. }
  unfold bytes_to_string, bytes_iter. pose proof (varint_nonempty 400) as Hne. rewrite length_app. cbn [length].
  destruct (varint_encode 400) as [|b0 r] eqn:E; [done|]. cbn [length Nat.add app bytes_iter_loop]. change (b0 :: r ++ [0]) with ((b0 :: r) ++ [0]).
  rewrite Hst. replace (resolve (find_by_code REGISTRY 400)) with
    (Ok (mkProtocol 400 (lit "unix") (Some "fspath"%string) 27, mkCodec LENGTH_PREFIXED_VAR_SIZE true (fun _ => fsencode) (fun _ => fsdecode))) by reflexivity.
  cbn. rewrite Hz0. cbn. by destruct (length r + 1)%nat.
Qed.
End Defects.

(** * Witnesses *)

(** Addresses as their bytes in decimal with dots between them, and domain names in lower case. *)
Module ToyAddr.
Definition byte_text (b : Z) : text := str_nat b.
Definition read_byte (s : text) : result Z :=
  match digit_run 0 false s with
  | Some (n, []) => if n <? 256 then Ok n else Raise ValueError
  | _ => Raise ValueError
  end.

Definition netaddr : NetAddr := {|
  ip_parse v s :=
    let* bs := mapM_r read_byte (split_on 46 s) in
    if (length bs =? ip_width v)%nat && forallb (fun b => 0 <=? b) bs then Ok (from_be bs) else Raise ValueError;
  ip_of_int v n := if (0 <=? n) && (n <? 256 ^ Z.of_nat (ip_width v)) then Ok n else Raise ValueError;
  ip_packed v n := to_be (ip_width v) n;
  ip_str v n := join_with 46 (map byte_text (to_be (ip_width v) n));
|}.

Lemma byte_texts l : Forall is_byte l -> Forall (fun t => (46 ∉ t) /\ (47 ∉ t)) (map byte_text l) /\ mapM_r read_byte (map byte_text l) = Ok l.
Proof.
  induction 1 as [|b l Hb Hl [I1 I2]]; [done|]. unfold is_byte in Hb. destruct (str_nat_spec b) as (_ & Hd & Hr); [lia|]. cbn [map mapM_r]. split.
  - constructor; [|done]. split; apply decimal_no_char; done || lia.
  - unfold byte_text at 1, read_byte at 1. rewrite Hr, (proj2 (Z.ltb_lt _ _)) by lia. cbn [rbind]. by rewrite I2.
Qed.

Lemma netaddr_laws : NetAddrLaws (H := netaddr).
Proof.
  split; cbn.
  - intros v s n Hn. mon_inv. case_match; [|done]. mon_inv. propify. destruct H as [Hlen Hpos]. apply Nat.eqb_eq in Hlen. rewrite <- Hlen.
    apply from_be_bound, Forall_forall. intros b Hb. rewrite forallb_forall in Hpos. pose proof (Hpos b (proj1 (list_elem_of_In _ _) Hb)).
    apply mapM_r_Forall2 in E. apply list_elem_of_lookup in Hb as [i Hi]. destruct (Forall2_lookup_r _ _ _ _ _ E Hi) as (x & _ & Hx).
    unfold read_byte in Hx. repeat case_match; simplify_eq; propify. unfold is_byte. lia.
  - intros v n Hn. by rewrite (proj2 (Z.leb_le _ _)), (proj2 (Z.ltb_lt _ _)) by lia.
  - done.
  - intros v n Hn. destruct (byte_texts (to_be (ip_width v) n) (to_be_bytes _ _)) as [Ht Hr].
    assert (Hw : map byte_text (to_be (ip_width v) n) <> []) by (unfold ip_width; by destruct (v =? 4)).
    rewrite split_join; [|done|eapply Forall_impl; [apply Ht|]; simpl; tauto]. rewrite Hr. cbn [rbind]. rewrite length_to_be, Nat.eqb_refl.
    assert (Hp : forallb (fun b => 0 <=? b) (to_be (ip_width v) n) = true).
    { apply forallb_forall. intros b Hb. apply list_elem_of_In in Hb. pose proof (to_be_bytes (ip_width v) n) as Hby. rewrite Forall_forall in Hby.
      apply Hby in Hb. unfold is_byte in Hb. apply Z.leb_le. lia. }
    rewrite Hp. cbn [andb]. rewrite from_be_to_be, Z.mod_small by (rewrite <- pow_256_8 by lia; done). done.
  - intros v n. destruct (byte_texts (to_be (ip_width v) n) (to_be_bytes _ _)) as [Ht _]. split.
    + assert (Hw : exists a b l, map byte_text (to_be (ip_width v) n) = a :: b :: l) by (unfold ip_width; destruct (v =? 4); eauto).
      destruct Hw as (a & b & l & ->). change (join_with 46 (a :: b :: l)) with (a ++ 46 :: join_with 46 (b :: l)). by destruct a.
    + intros Hin. destruct (split_elem 46 _ 47 Hin) as (t & Htin & H47); [lia|].
      rewrite split_join in Htin; [|by unfold ip_width; destruct (v =? 4)|eapply Forall_impl; [apply Ht|]; simpl; tauto].
      rewrite Forall_forall in Ht. by destruct (Ht _ Htin).
Qed.

Definition idna : Idna := {|
  uts46_remap s := Ok (lower_ascii s);
  check_label l := if bool_decide (l <> []) && bool_decide (47 ∉ l) then Ok tt else Raise ValueError;
|}.

Lemma idna_laws : IdnaLaws (H := idna).
Proof.
  split; cbn.
  - intros s t [= <-]. f_equal. unfold lower_ascii. rewrite map_map. apply map_ext. intros c. unfold lower_char.
    destruct ((65 <=? c) && (c <=? 90)) eqn:E; propify; destruct ((65 <=? _) && _) eqn:E'; propify; try done; lia.
  - intros l. case_match eqn:E; [|done]. apply andb_true_iff in E as [E1 E2]. by apply bool_decide_eq_true_1 in E1, E2.
Qed.
End ToyAddr.

#[local] Existing Instances leb_varint leb_varint_laws Toy.multiformats Toy.multiformats_laws Toy.unicode.
#[local] Existing Instances ToyAddr.netaddr ToyAddr.netaddr_laws ToyAddr.idna ToyAddr.idna_laws.

Definition example_address : text := lit "/ip4/127.0.0.1/tcp/4001/ipfs/12D3KooWGC6TvWhfapnSrSxVdpZb2yVUjkcYZ6VWgfBtFsMPMxCr".
Definition example_bytes : bytes := Eval vm_compute in match string_to_bytes example_address with Ok b => b | Raise _ => [] end.

(** The alias is printed as the name of the protocol. *)
Example example_printed :
  bytes_to_string example_bytes = Ok (lit "/ip4/127.0.0.1/tcp/4001/p2p/12D3KooWGC6TvWhfapnSrSxVdpZb2yVUjkcYZ6VWgfBtFsMPMxCr").
Proof. vm_compute. reflexivity. Qed.

Lemma multiaddr_roundtrip_witness :
  string_to_bytes (lit "/ip4/127.0.0.1/tcp/4001/p2p/12D3KooWGC6TvWhfapnSrSxVdpZb2yVUjkcYZ6VWgfBtFsMPMxCr") = Ok example_bytes.
Proof.
  refine (proj1 (proj2 (multiaddr_roundtrip example_address example_bytes _ _ _) _ _ _)); [vm_compute; reflexivity..| |vm_compute; reflexivity|done].
  apply plain_text. repeat (apply Forall_cons_2; [split; done|]). apply Forall_nil_2.
Defined.

Lemma split_parts_join_witness :
  exists parts, split (mkMultiaddr example_bytes REGISTRY) 2 = Ok parts /\ join (map AddrObj parts) = Ok (mkMultiaddr example_bytes REGISTRY).
Proof.
  destruct (split_parts_join example_address (mkMultiaddr example_bytes REGISTRY) 2) as (parts & H1 & H2 & _); [vm_compute; reflexivity..| |by exists parts].
  apply plain_text. repeat (apply Forall_cons_2; [split; done|]). apply Forall_nil_2.
Defined.

Lemma codec_types_witness :
  (exists c b, codec_by_name (Some "uint16be"%string) = Ok c /\ codec_to_bytes c (mkProtocol 6 (lit "tcp") (Some "uint16be"%string) 1) (lit "80") = Ok [0; 80] /\
    8 * 2 = SIZE c /\ component_bytes (mkProtocol 6 (lit "tcp") (Some "uint16be"%string) 1, c, Some (lit "80")) = Ok b /\ decode_stream b = Ok (6, [0; 80])) /\
  exists c b rest, codec_by_name (Some "domain"%string) = Ok c /\
    component_bytes (mkProtocol 53 (lit "dns") (Some "domain"%string) 6, c, Some (lit "a.b")) = Ok b /\ decode_stream b = Ok (53, rest) /\
    decode_stream rest = Ok (3, lit "a.b").
Proof.
  split.
  - destruct (codec_types (lit "tcp") (mkProtocol 6 (lit "tcp") (Some "uint16be"%string) 1)) as (c & H1 & _ & H3); [vm_compute; reflexivity|].
    cbn in H1. injection H1 as <-.
    destruct (H3 (lit "80") [0; 80]) as (_ & H4 & H5); [vm_compute; discriminate|vm_compute; reflexivity|].
    destruct H5 as (b & rest & H5 & H6 & H7); [vm_compute; reflexivity|]. eexists _, b. split; [reflexivity|].
    split; [vm_compute; reflexivity|]. split; [apply H4; [vm_compute; discriminate|intros [H|H]; discriminate H]|]. split; [exact H5|]. rewrite H6. by rewrite H7.
  - destruct (codec_types (lit "dns") (mkProtocol 53 (lit "dns") (Some "domain"%string) 6)) as (c & H1 & _ & H3); [vm_compute; reflexivity|].
    cbn in H1. injection H1 as <-.
    destruct (H3 (lit "a.b") (lit "a.b")) as (_ & _ & H5); [vm_compute; discriminate|vm_compute; reflexivity|].
    destruct H5 as (b & rest & H5 & H6 & H7); [vm_compute; reflexivity|]. eexists _, b, rest. split; [reflexivity|].
    split; [exact H5|]. split; [exact H6|exact H7].
Defined.

Lemma truncated_address_accepted_witness : bytes_to_string [4; 1; 2] = Ok (lit "/ip4/0.0.1.2").
Proof. refine (proj1 (truncated_address_accepted [1; 2] _ _)); [repeat constructor; lia|simpl; lia]. Defined.

(** Taking the front off, as the documentation of [decapsulate] shows, leaves nothing: what is removed is the other
    address and all that follows it. *)
Example decapsulate_front :
  (let* m := new_multiaddr (AddrStr (lit "/ip4/1.2.3.4/tcp/80")) REGISTRY in
   let* u := decapsulate m (AddrStr (lit "/ip4/1.2.3.4")) in Ok (addr_bytes u)) = Ok [].
Proof. vm_compute. reflexivity. Qed.

(** An onion host with a padding character is accepted, and its bytes cannot be read: one byte is missing, and the first
    byte of the next component is taken for it. *)
Example padded_onion :
  exists b, string_to_bytes (lit "/onion/aaaaaaaaaaaaaaa=:80/tcp/1") = Ok b /\ bytes_to_string b = Raise BinaryParseError.
Proof. eexists. split; [vm_compute; reflexivity|]. vm_compute. reflexivity. Qed.
