(* ===== verification/Streams.v ===== *)
(** * Streaming calls between peers ([mesh/p2p/p2p_daemon.py], [mesh/utils/asyncio.py])

    A streaming call is one connection: the caller writes its requests as marked, length-prefixed protobuf messages and
    ends them with an empty [RPCError]; the callee writes responses, or one [RPCError] if the handler raises, and closes
    the connection when the handler is done.  The callee reads ahead into a bounded queue.  Its coroutines
    ([_handle_stream] and the task [_process_stream]) form a state machine that is split at the [await]s; handlers are
    automata that ask for a request, yield a response, return or raise, and may wait for anything in between. *)

From S2P Require Import Prelude DHTID Base58 HashTable Framing PeerIdentity Text.

(** ** Messages on the wire *)

(** A protobuf type: its serializer and its parser. *)
Class Protobuf (M : Type) := {
  SerializeToString : M -> bytes;
  ParseFromString : bytes -> option M;
}.

(** What the code relies on. *)
Class ProtobufLaws (M : Type) `{Protobuf M} : Prop :=
  parse_serialize (m : M) : ParseFromString (SerializeToString m) = Some m.

(** [RPCError] of [p2pd.proto], and a message or an error. *)
Record RPCError : Type := mkRPCError { err_message : text }.
Inductive pb (M : Type) : Type := PMsg (m : M) | PError (e : RPCError).
Arguments PMsg {M} m.
Arguments PError {M} e.

Definition HEADER_LEN : Z := 8.
Definition MESSAGE_MARKER : bytes := [0].
Definition ERROR_MARKER : bytes := [1].
Definition END_OF_STREAM : RPCError := mkRPCError [].

(** The loop of [send_raw_data]: the slices [data[offset : offset + chunk_size]]. *)
Fixpoint write_chunks (fuel : nat) (data : bytes) (chunk_size : nat) (offset : nat) : list bytes :=
  match fuel with
  | O => []
  | S n => if (offset <? length data)%nat
           then take chunk_size (drop offset data) :: write_chunks n data chunk_size (offset + chunk_size)
           else []
  end.

(** [send_raw_data]: the calls of [writer.write].  [range] with a positive step has at most [len(data)] elements. *)
Definition send_raw_data (data : bytes) (chunk_size : nat) : result (list bytes) :=
  if 2 ^ (8 * HEADER_LEN) <=? Z.of_nat (length data) then Raise OverflowError
  else if (chunk_size =? 0)%nat then Raise ValueError
  else Ok (to_be (Z.to_nat HEADER_LEN) (Z.of_nat (length data)) :: write_chunks (length data) data chunk_size 0).

Definition CHUNK_SIZE : nat := Z.to_nat (2 ^ 16).

(** [receive_raw_data] *)
Definition receive_raw_data (reader : bytes) : result (bytes * bytes) :=
  let* (header, r1) := readexactly HEADER_LEN reader in
  readexactly (from_be header) r1.

Section Wire.
Context {M : Type} `{Protobuf M} `{Protobuf RPCError}.

Definition payload (p : pb M) : bytes :=
  match p with PMsg m => SerializeToString m | PError e => SerializeToString e end.
Definition marker (p : pb M) : bytes := match p with PMsg _ => MESSAGE_MARKER | PError _ => ERROR_MARKER end.

(** [send_protobuf]: the bytes written *)
Definition send_protobuf (p : pb M) : result bytes :=
  let* writes := send_raw_data (payload p) CHUNK_SIZE in Ok (marker p ++ concat writes).

Definition parsed {A} (o : option A) : result A := of_option DecodeError o.

(** [receive_protobuf]: a message or an error, and the bytes that follow *)
Definition receive_protobuf (reader : bytes) : result (pb M * bytes) :=
  let* (msg_type, r1) := readexactly 1 reader in
  if bool_decide (msg_type = MESSAGE_MARKER) then
    let* (data, r2) := receive_raw_data r1 in
    let* m := parsed (ParseFromString data) in Ok (PMsg m, r2)
  else if bool_decide (msg_type = ERROR_MARKER) then
    let* (data, r2) := receive_raw_data r1 in
    let* e := parsed (ParseFromString data) in Ok (PError e, r2)
  else Raise TypeError.

(** The bytes of a sequence of messages. *)
Fixpoint wire (ps : list (pb M)) : result bytes :=
  match ps with
  | [] => Ok []
  | p :: ps' => let* b := send_protobuf p in let* bs := wire ps' in Ok (b ++ bs)
  end.

(** ** The caller *)

(** [_write_to_stream], for requests that are known in advance *)
Definition write_to_stream (requests : list M) : result bytes := wire (map PMsg requests ++ [PError END_OF_STREAM]).

(** [_read_from_stream] on the bytes that have arrived: the responses yielded so far, and how the iteration ended
    ([None] while it waits for more).  [writing] is the outcome of [writing_task]. *)
Fixpoint read_from_stream (fuel : nat) (writing : result unit) (closed : bool) (reader : bytes)
    : list M * option (result unit) :=
  match fuel with
  | O => ([], None)
  | S n =>
      match receive_protobuf reader with
      | Raise EOFError => ([], if closed then Some writing else None)
      | Raise e => ([], Some (Raise e))
      | Ok (PError _, _) => ([], Some (Raise P2PHandlerError))
      | Ok (PMsg response, rest) =>
          let (rs, ending) := read_from_stream n writing closed rest in (response :: rs, ending)
      end
  end.

Definition iterate_responses (writing : result unit) (closed : bool) (reader : bytes) : list M * option (result unit) :=
  read_from_stream (S (length reader)) writing closed reader.
End Wire.

(** [asingle] on the items of an iterator that ends *)
Fixpoint asingle_loop {A} (items : list A) (count : Z) (item : option A) : result A :=
  match items with
  | [] => match item with Some a => Ok a | None => Raise ValueError end
  | a :: rest => if count + 1 =? 2 then Raise ValueError else asingle_loop rest (count + 1) (Some a)
  end.
Definition asingle {A} (items : list A) : result A := asingle_loop items 0 None.

(** [call_protobuf_handler] with a stream of requests: [asingle] gives up at the second response. *)
Definition call_stream_unary {A} (r : list A * option (result unit)) : option (result A) :=
  match r with
  | (_ :: _ :: _, _) => Some (Raise ValueError)
  | (_, None) => None
  | (rs, Some (Ok _)) => Some (asingle rs)
  | (_, Some (Raise e)) => Some (Raise e)
  end.

(** ** The callee *)

(** What a handler does next.  [HRaise] is an exception with its text. *)
Inductive hact (Req Resp H : Type) : Type :=
  | HNext (k : option Req -> H)
  | HYield (r : pb Resp) (h : H)
  | HReturn
  | HRaise (message : text).
Arguments HNext {Req Resp H} k.
Arguments HYield {Req Resp H} r h.
Arguments HReturn {Req Resp H}.
Arguments HRaise {Req Resp H} message.

Section Server.
Context {Req Resp H : Type} `{Protobuf Req} `{Protobuf Resp} `{Protobuf RPCError} (hstep : H -> hact Req Resp H).

(** [PDrain next]: a message was written and [writer.drain()] has not returned; then the handler goes on, or is done. *)
Inductive proc_state : Type := PRun (h : H) | PDrain (next : option H) | PDone.
Inductive loop_state : Type := LWait | LPut (request : option Req) | LDone.

(** The state of [_handle_stream].  [requests] is the queue, [read_ended] says that [_read_stream] is exhausted, [rbuf]
    holds the bytes that have arrived and are not read, [eof] that the caller has closed its side, [out] what was
    written.  The connection is closed when [loop] is [LDone].  [arrived], [received], [taken] and [sent] record the
    history. *)
Record Srv : Type := mkSrv {
  requests : list (option Req);
  read_ended : bool;
  proc : proc_state;
  loop : loop_state;
  rbuf : bytes;
  eof : bool;
  out : bytes;
  arrived : bytes;
  received : list (option Req);
  taken : list Req;
  sent : list (pb Resp);
}.

Variable max_prefetch : Z.

(** [_handle_stream] at its first [await] *)
Definition new_stream (h : H) : Srv := mkSrv [] false (PRun h) LWait [] false [] [] [] [] [].

(** [Queue.full] *)
Definition full (q : list (option Req)) : bool := (0 <? max_prefetch) && (max_prefetch <=? Z.of_nat (length q)).

Definition set_proc (s : Srv) (p : proc_state) : Srv :=
  mkSrv (requests s) (read_ended s) p (loop s) (rbuf s) (eof s) (out s) (arrived s) (received s) (taken s) (sent s).

(** [await requests.get()] in [_read_stream] *)
Definition next_request (s : Srv) (k : option Req -> H) : option Srv :=
  if read_ended s then Some (set_proc s (PRun (k None)))
  else
    match requests s with
    | [] => None
    | Some r :: q =>
        Some (mkSrv q false (PRun (k (Some r))) (loop s) (rbuf s) (eof s) (out s) (arrived s) (received s) (taken s ++ [r]) (sent s))
    | None :: q =>
        Some (mkSrv q true (PRun (k None)) (loop s) (rbuf s) (eof s) (out s) (arrived s) (received s) (taken s) (sent s))
    end.

(** [await P2P.send_protobuf(...)] up to its [await writer.drain()]; the writes may fail. *)
Definition send (s : Srv) (ok : bool) (r : pb Resp) (next : option H) : Srv :=
  match ok, send_protobuf r with
  | true, Ok b =>
      mkSrv (requests s) (read_ended s) (PDrain next) (loop s) (rbuf s) (eof s) (out s ++ b) (arrived s) (received s) (taken s) (sent s ++ [r])
  | _, _ => set_proc s PDone
  end.

(** [writer.drain()] returns when the caller has read enough of what was written, or raises when the connection is lost. *)
Definition drained (ok : bool) (s : Srv) : option Srv :=
  match proc s with
  | PDrain (Some h) => Some (set_proc s (if ok then PRun h else PDone))
  | PDrain None => Some (set_proc s PDone)
  | _ => None
  end.

(** The next step of [_process_stream]; [None] when it cannot run. *)
Definition process_step (ok : bool) (s : Srv) : option Srv :=
  match proc s with
  | PDone | PDrain _ => None
  | PRun h =>
      match hstep h with
      | HNext k => next_request s k
      | HYield r h' => Some (send s ok r (Some h'))
      | HReturn => Some (set_proc s PDone)
      | HRaise message => Some (send s ok (PError (mkRPCError message)) None)
      end
  end.

(** Leaving the loop: [finally: processing_task.cancel()] and [closing(writer)] *)
Definition leave (s : Srv) : Srv :=
  mkSrv (requests s) (read_ended s) PDone LDone (rbuf s) (eof s) (out s) (arrived s) (received s) (taken s) (sent s).

(** [await requests.put(request)], possibly blocking *)
Definition put_request (s : Srv) (request : option Req) : Srv :=
  if full (requests s)
  then mkSrv (requests s) (read_ended s) (proc s) (LPut request) (rbuf s) (eof s) (out s) (arrived s) (received s) (taken s) (sent s)
  else mkSrv (requests s ++ [request]) (read_ended s) (proc s) LWait (rbuf s) (eof s) (out s) (arrived s) (received s) (taken s) (sent s).

Definition request_of (p : pb Req) : option Req := match p with PMsg r => Some r | PError _ => None end.

(** The loop that receives requests: [None] while [asyncio.wait] or [requests.put] has to wait. *)
Definition loop_step (s : Srv) : option Srv :=
  match loop s with
  | LDone => None
  | LPut request => if full (requests s) then None else Some (put_request s request)
  | LWait =>
      match proc s with
      | PDone => Some (leave s)
      | PRun _ | PDrain _ =>
          match receive_protobuf (rbuf s) with
          | Ok (p, rest) =>
              Some (put_request (mkSrv (requests s) (read_ended s) (proc s) (loop s) rest (eof s) (out s) (arrived s)
                                   (received s ++ [request_of p]) (taken s) (sent s)) (request_of p))
          | Raise EOFError => if eof s then Some (leave s) else None
          | Raise _ => Some (leave s)
          end
      end
  end.

(** What can happen next: bytes arrive, the caller closes its side, one of the two coroutines runs, or [drain] returns. *)
Inductive event : Type := EArrive (b : bytes) | EClose | EProcess (ok : bool) | ELoop | EDrained (ok : bool).

Definition exec (s : Srv) (e : event) : option Srv :=
  match e with
  | EArrive b =>
      if eof s then None
      else Some (mkSrv (requests s) (read_ended s) (proc s) (loop s) (rbuf s ++ b) false (out s) (arrived s ++ b) (received s) (taken s) (sent s))
  | EClose =>
      Some (mkSrv (requests s) (read_ended s) (proc s) (loop s) (rbuf s) true (out s) (arrived s) (received s) (taken s) (sent s))
  | EProcess ok => process_step ok s
  | ELoop => loop_step s
  | EDrained ok => drained ok s
  end.

Fixpoint run (s : Srv) (es : list event) : option Srv :=
  match es with [] => Some s | e :: es' => match exec s e with Some s' => run s' es' | None => None end end.
End Server.

(** [_stream_handler] of [add_protobuf_handler] for a handler that takes one request: [asingle(requests)] first, then
    the handler's own steps. *)
Inductive single_state (Req H : Type) : Type := Collect (item : option Req) | Body (h : H) | Failed.
Arguments Collect {Req H} item.
Arguments Body {Req H} h.
Arguments Failed {Req H}.

Section Single.
Context {Req Resp H : Type} (hstep : H -> hact Req Resp H) (start : Req -> H) (asingle_error : text).

Definition single_step (s : single_state Req H) : hact Req Resp (single_state Req H) :=
  match s with
  | Collect item =>
      HNext (fun o => match o, item with
                      | Some r, None => Collect (Some r)
                      | Some _, Some _ => Failed
                      | None, Some r => Body (start r)
                      | None, None => Failed
                      end)
  | Failed => HRaise asingle_error
  | Body h =>
      match hstep h with
      | HNext k => HNext (fun o => Body (k o))
      | HYield r h' => HYield r (Body h')
      | HReturn => HReturn
      | HRaise m => HRaise m
      end
  end.
End Single.

(** ** Lemmas: the wire *)

Lemma concat_write_chunks (data : bytes) (c : nat) : (0 < c)%nat -> forall fuel off, (length data <= off + fuel)%nat ->
  concat (write_chunks fuel data c off) = drop off data.
Proof.
  intros Hc. induction fuel as [|n IH]; intros off Hf; cbn [write_chunks concat].
  - rewrite drop_ge; [done|lia].
  - destruct (off <? length data)%nat eqn:E; propify.
    + cbn [concat]. rewrite IH by lia. rewrite <- drop_drop. apply take_drop.
    + rewrite drop_ge; [done|lia].
Qed.

Lemma readexactly_shape n (s a r : bytes) : readexactly n s = Ok (a, r) -> s = a ++ r /\ length a = Z.to_nat n.
Proof.
  unfold readexactly. destruct (length s <? Z.to_nat n)%nat eqn:E; [done|]. propify. intros [= <- <-].
  rewrite take_drop, length_take. split; [done|lia].
Qed.

Lemma readexactly_here n (a r : bytes) : length a = Z.to_nat n -> readexactly n (a ++ r) = Ok (a, r).
Proof.
  intros Hl. unfold readexactly. rewrite <- Hl, length_app, (proj2 (Nat.ltb_ge _ _)) by lia.
  by rewrite take_app_length, drop_app_length.
Qed.

Lemma readexactly_more n (s t : bytes) : readexactly n s <> Raise EOFError ->
  readexactly n (s ++ t) = let* (a, r) := readexactly n s in Ok (a, r ++ t).
Proof.
  destruct (readexactly n s) as [[a r]|e] eqn:E; intros Hn.
  - destruct (readexactly_shape _ _ _ _ E) as [-> Hl]. cbn [rbind]. rewrite <- app_assoc. by apply readexactly_here.
  - unfold readexactly in E. destruct (length s <? Z.to_nat n)%nat; congruence.
Qed.

Lemma receive_raw_more (s t : bytes) : receive_raw_data s <> Raise EOFError ->
  receive_raw_data (s ++ t) = let* (a, r) := receive_raw_data s in Ok (a, r ++ t).
Proof.
  unfold receive_raw_data. intros Hn. rewrite readexactly_more by (intros E; apply Hn; by rewrite E).
  destruct (readexactly HEADER_LEN s) as [[h r]|e] eqn:E; cbn [rbind] in *; [|done]. by apply readexactly_more.
Qed.

Section WireLemmas.
Context {M : Type} `{PM : Protobuf M} `{PE : Protobuf RPCError} `{!ProtobufLaws M} `{!ProtobufLaws RPCError}.
Implicit Types (p : pb M).

Lemma chunk_size_pos : (0 < CHUNK_SIZE)%nat.
Proof. unfold CHUNK_SIZE. apply Nat2Z.inj_lt. rewrite Z2Nat.id; done. Qed.

#[local] Opaque CHUNK_SIZE.

Lemma send_protobuf_eq p b : send_protobuf p = Ok b ->
  b = marker p ++ to_be (Z.to_nat HEADER_LEN) (Z.of_nat (length (payload p))) ++ payload p /\
  Z.of_nat (length (payload p)) < 2 ^ 64.
Proof.
  unfold send_protobuf, send_raw_data. pose proof chunk_size_pos.
  destruct (2 ^ (8 * HEADER_LEN) <=? Z.of_nat (length (payload p))) eqn:E; [done|]. propify.
  assert ((CHUNK_SIZE =? 0)%nat = false) as -> by (apply Nat.eqb_neq; lia). cbn [rbind concat].
  rewrite concat_write_chunks, drop_0 by lia. intros Hb. split; [congruence|done].
Qed.

Lemma receive_raw_here (data rest : bytes) : Z.of_nat (length data) < 2 ^ 64 ->
  receive_raw_data (to_be (Z.to_nat HEADER_LEN) (Z.of_nat (length data)) ++ data ++ rest) = Ok (data, rest).
Proof.
  intros Hl. unfold receive_raw_data. rewrite readexactly_here by apply length_to_be. cbn [rbind].
  rewrite from_be_to_be, Z.mod_small by (change (8 * Z.of_nat (Z.to_nat HEADER_LEN)) with 64; lia).
  apply readexactly_here. lia.
Qed.

(** A message is read back as it was sent, and the bytes after it are left alone. *)
Lemma receive_sent p (b rest : bytes) : send_protobuf p = Ok b -> receive_protobuf (b ++ rest) = Ok (p, rest).
Proof.
  intros [-> Hs]%send_protobuf_eq. unfold receive_protobuf. rewrite <- !app_assoc.
  destruct p as [m|e]; cbn [marker payload] in *; rewrite (readexactly_here 1) by done; cbn [rbind].
  - rewrite bool_decide_true by done. rewrite receive_raw_here by done. cbn [rbind]. by rewrite parse_serialize.
  - rewrite bool_decide_false by done. rewrite bool_decide_true by done.
    rewrite receive_raw_here by done. cbn [rbind]. by rewrite parse_serialize.
Qed.

(** More bytes do not change what a complete message is read as. *)
Lemma receive_more (s t : bytes) : receive_protobuf (M := M) s <> Raise EOFError ->
  receive_protobuf (M := M) (s ++ t) = let* (p, r) := receive_protobuf s in Ok (p, r ++ t).
Proof.
  unfold receive_protobuf. intros Hn. rewrite readexactly_more by (intros E; apply Hn; by rewrite E).
  destruct (readexactly 1 s) as [[h r]|e]; cbn [rbind] in *; [|done].
  case_bool_decide; [|case_bool_decide; [|done]].
  all: rewrite receive_raw_more by (intros E; apply Hn; by rewrite E).
  all: destruct (receive_raw_data r) as [[d r2]|e]; cbn [rbind]; [|done].
  all: by destruct (ParseFromString d).
Qed.

Lemma readexactly_length n (s a r : bytes) : readexactly n s = Ok (a, r) -> length s = (Z.to_nat n + length r)%nat.
Proof. intros E. apply readexactly_shape in E as [-> <-]. apply length_app. Qed.

Lemma receive_shorter (s r : bytes) p : receive_protobuf s = Ok (p, r) -> (length r < length s)%nat.
Proof.
  unfold receive_protobuf, receive_raw_data. destruct (readexactly 1 s) as [[h r1]|] eqn:E1; cbn [rbind]; [|done].
  apply readexactly_length in E1.
  case_bool_decide; [|case_bool_decide; [|done]].
  all: destruct (readexactly HEADER_LEN r1) as [[h2 r2]|] eqn:E2; cbn [rbind]; [|done]; apply readexactly_length in E2.
  all: destruct (readexactly (from_be h2) r2) as [[d r3]|] eqn:E3; cbn [rbind]; [|done]; apply readexactly_length in E3.
  all: destruct (ParseFromString d); cbn; [|done]; intros [= <- <-]; unfold HEADER_LEN in *; lia.
Qed.

Lemma wire_cons p (ps : list (pb M)) b : wire (p :: ps) = Ok b ->
  exists bp b', send_protobuf p = Ok bp /\ wire ps = Ok b' /\ b = bp ++ b'.
Proof.
  cbn [wire]. destruct (send_protobuf p) as [bp|]; [|done]. cbn [rbind]. destruct (wire ps) as [b'|]; [|done]. intros [= <-]. eauto.
Qed.

Lemma wire_app (ps qs : list (pb M)) : wire (ps ++ qs) = let* a := wire ps in let* b := wire qs in Ok (a ++ b).
Proof.
  induction ps as [|p ps IH]; cbn [wire app rbind]; [by destruct (wire qs)|].
  rewrite IH. destruct (send_protobuf p), (wire ps); cbn [rbind]; try done. destruct (wire qs); cbn [rbind]; [|done]. by rewrite !app_assoc.
Qed.

(** A prefix of the bytes of some messages that holds a complete message starts with the first of them. *)
Lemma receive_prefix (ps : list (pb M)) (b s t : bytes) : wire ps = Ok b -> s ++ t = b ->
  match receive_protobuf s with
  | Ok (p, r) => exists ps' b', ps = p :: ps' /\ wire ps' = Ok b' /\ r ++ t = b'
  | Raise e => e = EOFError
  end.
Proof.
  intros Hw Hs. pose proof (receive_more s t) as Hm. destruct ps as [|q ps].
  - injection Hw as <-. apply app_nil in Hs as [-> ->]. done.
  - apply wire_cons in Hw as (bq & b' & Hq & Hb' & ->). rewrite Hs, (receive_sent q bq b' Hq) in Hm.
    destruct (receive_protobuf s) as [[p r]|e]; cbn [rbind] in Hm.
    + specialize (Hm ltac:(done)). injection Hm as <- ->. eauto.
    + destruct (decide (e = EOFError)); [done|]. by specialize (Hm ltac:(congruence)).
Qed.
End WireLemmas.

(** ** Lemmas: the caller *)

Section Caller.
Context {M : Type} `{PM : Protobuf M} `{PE : Protobuf RPCError} `{!ProtobufLaws M} `{!ProtobufLaws RPCError}.
Implicit Types (ms : list M).

(** A prefix of the bytes of some responses: the complete ones are yielded, then the iteration waits or ends. *)
Lemma read_prefix writing closed (fuel : nat) : forall ms (b s t : bytes),
  (length s < fuel)%nat -> wire (map PMsg ms) = Ok b -> s ++ t = b ->
  exists n, read_from_stream fuel writing closed s = (take n ms, if closed then Some writing else None) /\
    (t = [] -> take n ms = ms).
Proof.
  induction fuel as [|f IH]; intros ms b s t Hf Hw Hs; [lia|]. cbn [read_from_stream].
  pose proof (receive_prefix _ _ _ _ Hw Hs) as Hp. pose proof (receive_shorter (M := M) s) as Hsh.
  destruct (receive_protobuf s) as [[p r]|e] eqn:E.
  - destruct Hp as (ps' & b' & Hms & Hb' & Hr). destruct ms as [|m ms]; [done|]. injection Hms as <- <-.
    specialize (Hsh r (PMsg m) eq_refl).
    destruct (IH ms b' r t) as (n & -> & Hn); [lia|done..|]. exists (S n). split; [done|]. intros Ht.
    cbn [take]. by rewrite Hn.
  - subst e. exists O. split; [done|]. intros ->. rewrite app_nil_r in Hs. subst s.
    destruct ms as [|m ms]; [done|]. apply (wire_cons (PMsg m)) in Hw as (bq & b' & Hq & _ & ->).
    by rewrite (receive_sent _ _ _ Hq) in E.
Qed.

(** The responses sent before an error are yielded, then the error is raised. *)
Lemma read_error writing closed e (fuel : nat) : forall ms (b rest : bytes),
  (length (b ++ rest) < fuel)%nat -> wire (map PMsg ms ++ [PError e]) = Ok b ->
  read_from_stream fuel writing closed (b ++ rest) = (ms, Some (Raise P2PHandlerError)).
Proof.
  induction fuel as [|f IH]; intros ms b rest Hf Hw; [lia|]. cbn [read_from_stream].
  assert (Hcons : forall q (qs : list (pb M)), wire (q :: qs) = Ok b ->
            exists b', wire qs = Ok b' /\ receive_protobuf (b ++ rest) = Ok (q, b' ++ rest)).
  { intros q qs (bq & b' & Hq & Hb' & ->)%wire_cons. exists b'. split; [done|]. rewrite <- app_assoc. by apply receive_sent. }
  destruct ms as [|m ms]; cbn [map app] in Hw; destruct (Hcons _ _ Hw) as (b' & Hb' & Er); rewrite Er; [done|].
  apply receive_shorter in Er. rewrite (IH ms b' rest); [done|lia|done].
Qed.
End Caller.

(** ** Lemmas: the callee *)

Section Callee.
Context {Req Resp H : Type} `{PQ : Protobuf Req} `{PR : Protobuf Resp} `{PE : Protobuf RPCError}.
Context `{!ProtobufLaws Req} `{!ProtobufLaws Resp} `{!ProtobufLaws RPCError}.
Context (hstep : H -> hact Req Resp H) (max_prefetch : Z).
Abbreviation srv := (Srv (Req := Req) (Resp := Resp) (H := H)).
Implicit Types (s : srv).

(** A state reached from the start of a call. *)
Definition reached (h : H) s : Prop := exists es, run hstep max_prefetch (new_stream h) es = Some s.

Lemma reached_ind (h : H) (P : srv -> Prop) :
  P (new_stream h) -> (forall s e s', P s -> exec hstep max_prefetch s e = Some s' -> P s') -> forall s, reached h s -> P s.
Proof.
  intros H0 Hs s [es Hes]. revert H0 Hes. generalize (new_stream (Req := Req) (Resp := Resp) h) as s0.
  induction es as [|e es IH]; intros s0 H0 Hes; cbn [run] in Hes; [by injection Hes as <-|].
  destruct (exec hstep max_prefetch s0 e) as [s1|] eqn:E; [|done]. eauto.
Qed.

Definition pending (l : loop_state (Req := Req)) : list (option Req) := match l with LPut r => [r] | _ => [] end.
Definition as_sent (o : option Req) : pb Req := match o with Some r => PMsg r | None => PError END_OF_STREAM end.

(** What was received is what was taken, then the queue, then the request that waits for room; what was written is what
    was sent. *)
Definition accounted s : Prop :=
  received s = map Some (taken s) ++ (if read_ended s then [None] else []) ++ requests s ++ pending (loop s) /\
  wire (sent s) = Ok (out s).

(** As long as the caller sends [reqs] and the end of the stream, the messages received are the first of these. *)
Definition in_step (reqs : list Req) s : Prop := forall t b,
  write_to_stream reqs = Ok b -> arrived s ++ t = b ->
  exists rest, map Some reqs ++ [None] = received s ++ rest /\ wire (map as_sent rest) = Ok (rbuf s ++ t).

Lemma send_cases s ok r next s' : send s ok r next = s' ->
  s' = set_proc s PDone \/
  exists b, send_protobuf r = Ok b /\
    s' = mkSrv (requests s) (read_ended s) (PDrain next) (loop s) (rbuf s) (eof s) (out s ++ b) (arrived s) (received s) (taken s) (sent s ++ [r]).
Proof. unfold send. intros <-. destruct ok, (send_protobuf r) eqn:E; eauto. Qed.

Lemma drained_cases ok s s' : drained ok s = Some s' -> exists p, s' = set_proc s p.
Proof. unfold drained. destruct (proc s) as [|[h|]|]; intros; simplify_eq; eauto. Qed.

Lemma accounted_send s ok r next : accounted s -> accounted (send s ok r next).
Proof.
  intros [Hr Hw]. destruct (send_cases s ok r next _ eq_refl) as [-> |(b & Hb & ->)]; split; cbn; try done.
  rewrite wire_app, Hw. cbn [wire rbind]. rewrite Hb. cbn [rbind]. by rewrite app_nil_r.
Qed.

Lemma accounted_put s o : loop s <> LDone -> received s = map Some (taken s) ++ (if read_ended s then [None] else []) ++ requests s ++ [o] ->
  wire (sent s) = Ok (out s) -> accounted (put_request max_prefetch s o).
Proof.
  intros _ Hr Hw. unfold put_request. destruct (full _ _); split; cbn; try done. by rewrite Hr, app_nil_r.
Qed.

Lemma exec_accounted s e s' : accounted s -> exec hstep max_prefetch s e = Some s' -> accounted s'.
Proof.
  intros [Hr Hw] He. destruct e as [b| |ok| |ok]; cbn [exec] in He.
  - destruct (eof s); [done|]. injection He as <-. by split.
  - injection He as <-. by split.
  - unfold process_step in He. destruct (proc s) as [h| |]; [|done|done]. destruct (hstep h) as [k|r h'| |msg].
    + unfold next_request in He. destruct (read_ended s) eqn:Ee; [injection He as <-; split; cbn; by rewrite ?Ee|].
      destruct (requests s) as [|[r|] q] eqn:Eq; [done|..]; injection He as <-; split; cbn; try done.
      * rewrite Hr, map_app. cbn. by rewrite <- !app_assoc.
    + injection He as <-. by apply accounted_send.
    + injection He as <-. by split.
    + injection He as <-. by apply accounted_send.
  - unfold loop_step in He. destruct (loop s) as [|o|] eqn:El; [| |done]; cbn [pending] in Hr.
    + assert (Hleave : accounted (leave s)) by (split; cbn; done).
      destruct (proc s) as [h|nx|]; [| |by injection He as <-]; destruct (receive_protobuf (rbuf s)) as [[p rest]|x].
      all: try (destruct x; try (destruct (eof s); [|done]); by injection He as <-).
      all: injection He as <-; apply accounted_put; cbn; [congruence| |done]; rewrite Hr, app_nil_r; by rewrite <- !app_assoc.
    + destruct (full _ _); [done|]. injection He as <-. by apply accounted_put; [congruence|..].
  - apply drained_cases in He as [p ->]. by split.
Qed.

Lemma history_put s o : received (put_request max_prefetch s o) = received s /\ rbuf (put_request max_prefetch s o) = rbuf s /\
  arrived (put_request max_prefetch s o) = arrived s.
Proof. unfold put_request. by destruct (full _ _). Qed.

Lemma exec_in_step reqs s e s' : in_step reqs s -> exec hstep max_prefetch s e = Some s' -> in_step reqs s'.
Proof.
  intros Hi He. assert (Hsame : received s' = received s -> rbuf s' = rbuf s -> arrived s' = arrived s -> in_step reqs s').
  { intros E1 E2 E3. unfold in_step. by rewrite E1, E2, E3. }
  destruct e as [b| |ok| |ok]; cbn [exec] in He.
  - destruct (eof s); [done|]. injection He as <-. intros t w Hw Ht. cbn in *. rewrite <- app_assoc in Ht |- *. eauto.
  - injection He as <-. by apply Hsame.
  - unfold process_step in He. destruct (proc s) as [h| |]; [|done|done]. destruct (hstep h) as [k|r h'| |msg].
    + unfold next_request in He. destruct (read_ended s); [|destruct (requests s) as [|[r|] q]; [done|..]]; injection He as <-; by apply Hsame.
    + injection He as He. destruct (send_cases _ _ _ _ _ He) as [-> |(b & _ & ->)]; by apply Hsame.
    + injection He as <-. by apply Hsame.
    + injection He as He. destruct (send_cases _ _ _ _ _ He) as [-> |(b & _ & ->)]; by apply Hsame.
  - unfold loop_step in He. destruct (loop s) as [|o|]; [| |done].
    + assert (Hread : forall p rest, receive_protobuf (rbuf s) = Ok (p, rest) ->
        in_step reqs (put_request max_prefetch (mkSrv (requests s) (read_ended s) (proc s) LWait rest (eof s) (out s) (arrived s)
                        (received s ++ [request_of p]) (taken s) (sent s)) (request_of p))).
      { intros p rest Er t w Hw Ht.
        match goal with |- context [put_request _ ?s1 ?o] => destruct (history_put s1 o) as (E1 & E2 & E3) end.
        cbn [received rbuf arrived] in E1, E2, E3.
        unfold in_step in Hi. rewrite E3 in Ht. destruct (Hi t w Hw Ht) as (ms & Hms & Hwire). rewrite E1, E2.
        pose proof (receive_prefix _ _ _ _ Hwire eq_refl) as Hp. rewrite Er in Hp. destruct Hp as (ps' & b' & Hps & Hb' & Hr).
        destruct ms as [|o ms]; [done|]. injection Hps as <- <-. exists ms. rewrite Hr. split; [|done].
        rewrite Hms, <- app_assoc. by destruct o. }
      destruct (proc s) as [h|nx|] eqn:Ep; [| |injection He as <-; by apply Hsame];
        destruct (receive_protobuf (rbuf s)) as [[p rest]|x] eqn:Er.
      all: try (destruct x; try (destruct (eof s); [|done]); injection He as <-; by apply Hsame).
      all: injection He as <-; by apply Hread.
    + destruct (full _ _); [done|]. injection He as <-. destruct (history_put s o) as (? & ? & ?). by apply Hsame.
  - apply drained_cases in He as [p ->]. by apply Hsame.
Qed.

Lemma reached_invariant h reqs s : reached h s -> accounted s /\ in_step reqs s.
Proof.
  apply (reached_ind h (fun s => accounted s /\ in_step reqs s)).
  - split; [done|]. intros t b Hw Ht. exists (map Some reqs ++ [None]). split; [done|]. cbn in *. subst b.
    unfold write_to_stream in Hw. rewrite <- Hw. f_equal. rewrite map_app, map_map. done.
  - intros s0 e s' [Ha Hi] He. split; [by eapply exec_accounted|by eapply exec_in_step].
Qed.

(** Whether the callee has closed the connection. *)
Definition closed s : bool := match loop s with LDone => true | _ => false end.

(** C33: requests and responses of a streaming call arrive as they were sent, under every interleaving and however the
    bytes are cut: while the caller writes [reqs] and the end-of-stream marker, the handler has taken the first of
    [reqs], in order, and it sees the end of its input only after all of them; the caller that reads what was
    written yields exactly the responses that the handler has sent, and raises the handler's error after those. *)
Theorem stream_in_order (h : H) (reqs : list Req) s (b t : bytes) :
  reached h s -> write_to_stream reqs = Ok b -> arrived s ++ t = b ->
  (exists more, reqs = taken s ++ more) /\ (read_ended s = true -> taken s = reqs) /\
  forall writing (ms : list Resp),
    (sent s = map PMsg ms -> iterate_responses writing (closed s) (out s) = (ms, if closed s then Some writing else None)) /\
    (forall e, sent s = map PMsg ms ++ [PError e] ->
       iterate_responses writing (closed s) (out s) = (ms, Some (Raise P2PHandlerError))).
Proof.
  intros Hr Hw Ht. destruct (reached_invariant h reqs s Hr) as [[Hrec Hout] Hi].
  destruct (Hi t b Hw Ht) as (rest & Hrest & _). rewrite Hrec in Hrest. rewrite <- !app_assoc in Hrest.
  split; [|split].
  - clear -Hrest. revert Hrest. generalize (taken s) as l. induction reqs as [|r reqs IH]; intros [|x l] E; cbn in *; [by eexists|done|by eexists|].
    injection E as -> E. destruct (IH _ E) as [more ->]. by exists more.
  - intros He. rewrite He in Hrest. cbn [app] in Hrest. clear -Hrest. revert Hrest. generalize (taken s) as l.
    induction reqs as [|r reqs IH]; intros [|x l] E; cbn in *; simplify_eq; [done|f_equal; eauto].
  - intros writing ms. unfold iterate_responses. split.
    + intros Hs. rewrite Hs in Hout.
      destruct (read_prefix writing (closed s) (S (length (out s))) ms (out s) (out s) []) as (n & -> & Hn);
        [lia|done|apply app_nil_r|]. by rewrite Hn.
    + intros e Hs. rewrite Hs in Hout.
      pose proof (read_error writing (closed s) e (S (length (out s ++ []))) ms (out s) [] ltac:(lia) Hout) as Hre.
      by rewrite app_nil_r in Hre.
Qed.

(** ** Progress *)

Lemma unlimited_never_full : max_prefetch <= 0 -> forall q, full (Req := Req) max_prefetch q = false.
Proof. intros Hm q. unfold full. by rewrite (proj2 (Z.ltb_ge _ _)). Qed.

Lemma unlimited_never_puts h s : max_prefetch <= 0 -> reached h s -> pending (loop s) = [].
Proof.
  intros Hm. apply (reached_ind h (fun s => pending (loop s) = [])); [done|].
  intros s0 e s' Hp He. destruct e as [b| |ok| |ok]; cbn [exec] in He.
  - destruct (eof s0); [done|]. by injection He as <-.
  - by injection He as <-.
  - unfold process_step, next_request in He. destruct (proc s0) as [h0| |]; [|done|done]. destruct (hstep h0) as [k|r h'| |msg].
    + destruct (read_ended s0); [|destruct (requests s0) as [|[r|] q]; [done|..]]; by injection He as <-.
    + injection He as He. destruct (send_cases _ _ _ _ _ He) as [-> |(b & _ & ->)]; done.
    + by injection He as <-.
    + injection He as He. destruct (send_cases _ _ _ _ _ He) as [-> |(b & _ & ->)]; done.
  - unfold loop_step, put_request in He. rewrite !unlimited_never_full in He by done.
    destruct (loop s0) as [|o|]; [| |done]; [|by injection He as <-].
    destruct (proc s0); [| |by injection He as <-]; destruct (receive_protobuf (rbuf s0)) as [[p rest]|x].
    all: try (destruct x; try (destruct (eof s0); [|done]); by injection He as <-).
    all: injection He as <-; cbn; by rewrite unlimited_never_full.
  - by apply drained_cases in He as [p ->].
Qed.

(** What a streaming call waits for when neither of the coroutines of the callee can run: the loop for bytes or for room in the queue, and the
    handler for a request, for the caller to read, or for nothing any more. *)
Definition loop_waits s : Prop :=
  (loop s = LWait /\ eof s = false /\ receive_protobuf (M := Req) (rbuf s) = Raise EOFError) \/
  ((exists o, loop s = LPut o) /\ full max_prefetch (requests s) = true).

Lemma loop_blocked s : closed s = false -> proc s <> PDone \/ loop s <> LWait -> loop_step max_prefetch s = None -> loop_waits s.
Proof.
  unfold closed, loop_step, loop_waits. destruct (loop s) as [|o|] eqn:El; [| |done]; intros _ Hp.
  - destruct (proc s) as [h|nx|]; [| |by destruct Hp]; destruct (receive_protobuf (rbuf s)) as [[p rest]|x]; try done;
      intros Hx; left; (split; [done|]); destruct x; try done; by destruct (eof s).
  - destruct (full _ _) eqn:Ef; [|done]. intros _. right. eauto.
Qed.

(** C34: When neither of the two coroutines of the callee can run, the callee has closed the connection, or it waits for one of three things: for
    the caller to send (the loop for bytes, the handler for a request), for the caller to read ([writer.drain()] in the handler, while
    the loop waits for bytes or for room in the full queue), from which it resumes when the caller does; or the handler is done while the loop waits for
    room in the full queue.  With an unlimited queue ([max_prefetch <= 0]) the last case does not occur, and the connection is closed in the
    next step after the handler is done. *)
Theorem stream_progress (h : H) s : reached h s ->
  (closed s = true \/
   (exists e, (e = ELoop \/ e = EProcess true) /\ is_Some (exec hstep max_prefetch s e)) \/
   (loop s = LWait /\ eof s = false /\ receive_protobuf (M := Req) (rbuf s) = Raise EOFError /\ requests s = [] /\
    exists h' k, proc s = PRun h' /\ hstep h' = HNext k) \/
   ((exists next, proc s = PDrain next) /\ loop_waits s /\ forall ok, is_Some (exec hstep max_prefetch s (EDrained ok))) \/
   (proc s = PDone /\ (exists o, loop s = LPut o) /\ full max_prefetch (requests s) = true)) /\
  (max_prefetch <= 0 -> closed s = false -> proc s = PDone -> exec hstep max_prefetch s ELoop = Some (leave s)).
Proof.
  intros Hr. split.
  - destruct (closed s) eqn:Ec; [by left|]. right.
    destruct (exec hstep max_prefetch s ELoop) eqn:E2; [left; exists ELoop; split; [by left|]; by rewrite E2|]. cbn in E2.
    destruct (proc s) as [h'|next|] eqn:Ep.
    + destruct (exec hstep max_prefetch s (EProcess true)) eqn:E1; [left; exists (EProcess true); split; [by right|]; by rewrite E1|].
      right; left. destruct (loop_blocked s Ec) as [(-> & -> & ->)|[_ Ef]]; [left; congruence|done|..];
        cbn in E1; unfold process_step, next_request in E1; rewrite Ep in E1;
        (destruct (hstep h') as [k|r h2| |msg] eqn:Eh; [|done..]); (destruct (read_ended s); [done|]);
        (destruct (requests s) as [|[r|] q]; [|done..]).
      * eauto 10.
      * unfold full in Ef. cbn in Ef. propify. lia.
    + right; right; left. split; [by exists next|]. split; [apply loop_blocked; [done|left; congruence|done]|].
      intros ok. cbn. unfold drained. rewrite Ep. destruct next; eauto.
    + right; right; right. unfold closed in Ec. unfold loop_step in E2. rewrite Ep in E2. destruct (loop s) as [|o|]; [done| |done].
      destruct (full _ _) eqn:Ef; [|done]. eauto.
  - intros Hm Hc Hp. pose proof (unlimited_never_puts h s Hm Hr) as Hl. unfold closed in Hc. cbn. unfold loop_step. rewrite Hp.
    by destruct (loop s).
Qed.

(** ** A handler that returns early *)

Lemma run_app s es1 es2 : run hstep max_prefetch s (es1 ++ es2) =
  match run hstep max_prefetch s es1 with Some s' => run hstep max_prefetch s' es2 | None => None end.
Proof. revert s. induction es1 as [|e es IH]; intros s; cbn [run app]; [done|]. destruct (exec _ _ _ _); auto. Qed.

Lemma put_room (q : list (option Req)) re pr l b e o a rcv tk (st : list (pb Resp)) x : full max_prefetch q = false ->
  put_request (H := H) max_prefetch (mkSrv q re pr l b e o a rcv tk st) x = mkSrv (q ++ [x]) re pr LWait b e o a rcv tk st.
Proof. intros Hf. unfold put_request. cbn [requests]. by rewrite Hf. Qed.

(** One pass of the receiving loop over a complete message. *)
Lemma loop_receives q re h b e o a rcv tk st (p : pb Req) bp :
  send_protobuf p = Ok bp ->
  exec hstep max_prefetch (mkSrv q re (PRun h) LWait (bp ++ b) e o a rcv tk st) ELoop =
    Some (put_request max_prefetch (mkSrv q re (PRun h) LWait b e o a (rcv ++ [request_of p]) tk st) (request_of p)).
Proof. intros Hp. cbn [exec]. unfold loop_step. cbn. by rewrite (receive_sent p bp b Hp). Qed.

(** The loop reads ahead while there is room. *)
Lemma loop_reads_ahead re h e o a tk st (rs : list Req) : forall q b b' rcv,
  wire (map PMsg rs) = Ok b -> Z.of_nat (length q + length rs) <= max_prefetch ->
  run hstep max_prefetch (mkSrv q re (PRun h) LWait (b ++ b') e o a rcv tk st) (replicate (length rs) ELoop) =
    Some (mkSrv (q ++ map Some rs) re (PRun h) LWait b' e o a (rcv ++ map Some rs) tk st).
Proof.
  induction rs as [|r rs IH]; intros q b b' rcv Hw Hl.
  - injection Hw as <-. cbn. by rewrite !app_nil_r.
  - apply (wire_cons (PMsg r)) in Hw as (br & b1 & Er & Eb & ->). cbn [length replicate run].
    rewrite <- app_assoc, (loop_receives _ _ _ _ _ _ _ _ _ _ (PMsg r) br Er). 
    rewrite put_room by (unfold full; rewrite (proj2 (Z.leb_gt _ _)); [apply andb_false_r|cbn [length] in Hl; lia]).
    rewrite IH; [|done|rewrite length_app; cbn in *; lia]. cbn [map]. by rewrite <- !app_assoc.
Qed.

(** The connection is never closed again. *)
Lemma blocked_for_ever o s es s' : proc s = PDone -> loop s = LPut o -> full max_prefetch (requests s) = true ->
  run hstep max_prefetch s es = Some s' -> loop s' = LPut o /\ out s' = out s.
Proof.
  revert s. induction es as [|e es IH]; intros s Hp Hl Hf Hr; cbn [run] in Hr; [by injection Hr as <-|].
  destruct (exec hstep max_prefetch s e) as [s1|] eqn:E; [|done].
  assert (Hs1 : proc s1 = PDone /\ loop s1 = LPut o /\ requests s1 = requests s /\ out s1 = out s).
  { destruct e as [b| |ok| |ok]; cbn [exec] in E.
    - destruct (eof s); [done|]. by injection E as <-.
    - by injection E as <-.
    - unfold process_step in E. by rewrite Hp in E.
    - unfold loop_step in E. by rewrite Hl, Hf in E.
    - unfold drained in E. by rewrite Hp in E. }
  destruct Hs1 as (Hp1 & Hl1 & Hq1 & Ho1). rewrite <- Ho1. apply IH; [done|done|congruence|done].
Qed.

(** A handler may return before it has read all its requests, and then the call can hang for ever.  Let the handler
    read one request and return, and let the caller send more than [max_prefetch] further ones: there is a state that
    the callee can reach in which the handler is done and the receiving loop waits for room in the queue, which
    nobody empties any more.  Whatever happens then, the caller closing its side included, the connection is not
    closed, and the caller, to whom the handler has nothing more to say, waits for a response. *)
Theorem early_return_hangs (h : H) (k : option Req -> H) (r0 x : Req) (rs more : list Req) (b : bytes) :
  hstep h = HNext k -> hstep (k (Some r0)) = HReturn -> 0 < max_prefetch -> Z.of_nat (length rs) = max_prefetch ->
  write_to_stream (r0 :: rs ++ x :: more) = Ok b ->
  exists s, reached h s /\ arrived s = b /\ proc s = PDone /\
    forall es s' writing, run hstep max_prefetch s es = Some s' ->
      closed s' = false /\ iterate_responses (M := Resp) writing (closed s') (out s') = ([], None).
Proof.
  intros Hh Hk Hm Hl Hw. unfold write_to_stream in Hw. cbn [map app] in Hw. rewrite map_app, <- app_assoc in Hw. cbn [map app] in Hw.
  change (PMsg r0 :: map PMsg rs ++ ?t) with ([PMsg r0] ++ map PMsg rs ++ t) in Hw.
  rewrite (wire_app [PMsg r0]), wire_app in Hw. change (PMsg x :: ?t) with ([PMsg x] ++ t) in Hw. rewrite (wire_app [PMsg x]) in Hw.
  cbn [wire] in Hw. destruct (send_protobuf (PMsg r0)) as [b0|] eqn:E0; [|done]. cbn [rbind] in Hw.
  destruct (send_protobuf (PMsg x)) as [bx|] eqn:Ex; [|by destruct (wire (map PMsg rs))]. cbn [rbind] in Hw.
  destruct (wire (map PMsg rs)) as [b1|] eqn:E1; [|done]. cbn [rbind] in Hw.
  destruct (wire (map PMsg more ++ [PError END_OF_STREAM])) as [b2|]; [|done]. cbn [rbind] in Hw.
  injection Hw as <-. rewrite !app_nil_r.
  set (s1 := mkSrv (map Some rs) false PDone (LPut (Some x)) b2 false [] (b0 ++ b1 ++ bx ++ b2) ([Some r0] ++ map Some rs ++ [Some x]) [r0] [] : srv).
  assert (Hfull : full max_prefetch (map Some rs) = true).
  { unfold full. rewrite length_map, (proj2 (Z.ltb_lt _ _)) by lia. apply Z.leb_le. lia. }
  exists s1. split; [|split; [done|split; [done|]]].
  - exists (EArrive (b0 ++ b1 ++ bx ++ b2) :: ELoop :: EProcess true :: replicate (length rs) ELoop ++ [ELoop; EProcess true]).
    cbn [run exec]. unfold new_stream. cbn [eof]. rewrite app_nil_l.
    change (loop_step max_prefetch ?s) with (exec hstep max_prefetch s ELoop). cbn [requests read_ended proc loop rbuf out arrived received taken sent].
    rewrite app_nil_l, (loop_receives _ _ _ _ _ _ _ _ _ _ (PMsg r0) b0 E0). 
    rewrite put_room by (unfold full; rewrite (proj2 (Z.leb_gt _ _)); [apply andb_false_r|cbn; lia]).
    cbn [run exec app]. unfold process_step. cbn [proc]. rewrite Hh. unfold next_request. cbn.
    rewrite run_app, (loop_reads_ahead _ _ _ _ _ _ _ rs [] b1) by (done || cbn; lia). cbn [run app].
    rewrite (loop_receives _ _ _ _ _ _ _ _ _ _ (PMsg x) bx Ex). unfold put_request. cbn [requests request_of]. rewrite Hfull.
    cbn [exec]. unfold process_step. cbn [proc]. rewrite Hk. cbn. done.
  - intros es s' writing Hr. destruct (blocked_for_ever (Some x) s1 es s') as [Hl' Ho']; [done..|].
    unfold closed. rewrite Hl', Ho'. done.
Qed.
End Callee.

(** A response stream that is cut off looks like a complete one: whatever part of the bytes of some responses reaches
    the caller before the connection is closed, even one that ends inside of a message, the iteration yields
    the complete responses in it and then ends without an error. *)
Theorem cut_stream_ends_normally {M : Type} `{Protobuf M} `{Protobuf RPCError} `{!ProtobufLaws M} `{!ProtobufLaws RPCError}
    (ms : list M) (b s t : bytes) :
  wire (map PMsg ms) = Ok b -> s ++ t = b ->
  exists n, iterate_responses (Ok tt) true s = (take n ms, Some (Ok tt)).
Proof.
  intros Hw Hs. destruct (read_prefix (Ok tt) true (S (length s)) ms b s t ltac:(lia) Hw Hs) as (n & E & _). by exists n.
Qed.

(** ** Handlers of one request *)

(** The wrapper of a handler that takes one request runs [asingle] over its input. *)
Definition feed {Req Resp H} (hstep : H -> hact Req Resp H) start err (s : single_state Req H) (o : option Req) : single_state Req H :=
  match single_step hstep start err s with HNext k => k o | _ => s end.

Lemma single_request_equiv {Req Resp H} (hstep : H -> hact Req Resp H) start err (rs : list Req) :
  foldl (feed hstep start err) (Collect None) (map Some rs ++ [None]) =
    match asingle rs with Ok r => Body (start r) | Raise _ => Failed end.
Proof.
  rewrite foldl_app. destruct rs as [|r [|r2 rs]]; cbn; [done..|].
  assert (Hf : forall l, foldl (feed hstep start err) Failed l = Failed) by (induction l; [done|]; cbn; done).
  by rewrite Hf.
Qed.

(** ** Witnesses *)

(** Requests and responses are booleans of one byte; the handler answers its first request and returns. *)
Module ToyStream.
#[export] Instance bool_message : Protobuf bool := {|
  SerializeToString (m : bool) := [if m then 1 else 0];
  ParseFromString (b : bytes) := match b with [m] => Some (m =? 1) | _ => None end |}.
#[export] Instance bool_laws : ProtobufLaws bool.
Proof. by intros []. Qed.
#[export] Instance error_message : Protobuf RPCError := {|
  SerializeToString (e : RPCError) := err_message e; ParseFromString (b : bytes) := Some (mkRPCError b) |}.
#[export] Instance error_laws : ProtobufLaws RPCError.
Proof. by intros []. Qed.

Inductive toy : Type := Ask | Answer (r : option bool) | Stop.
Definition toy_step (h : toy) : hact bool bool toy :=
  match h with Ask => HNext Answer | Answer (Some r) => HYield (PMsg (negb r)) Stop | Answer None => HRaise [63] | Stop => HReturn end.
Definition silent_step (h : toy) : hact bool bool toy := match h with Ask => HNext Answer | _ => HReturn end.

Definition toy_wire : bytes := [0; 0;0;0;0;0;0;0;1; 1;  1; 0;0;0;0;0;0;0;0].
Definition toy_events : list event := [EArrive (take 5 toy_wire); EArrive (drop 5 toy_wire); ELoop; ELoop; EProcess true; EProcess true; EDrained true; EProcess true; ELoop].
End ToyStream.
Import ToyStream.

Lemma stream_in_order_witness :
  exists s, run toy_step 5 (new_stream Ask) toy_events = Some s /\ taken s = [true] /\ iterate_responses (Ok tt) true (out s) = ([false], Some (Ok tt)).
Proof.
  eexists. split; [vm_compute; reflexivity|].
  edestruct (stream_in_order toy_step 5 Ask [true]) as (_ & _ & Hi); [exists toy_events; vm_compute; reflexivity|vm_compute; reflexivity..|].
  split; [reflexivity|]. apply (proj1 (Hi (Ok tt) [false])). reflexivity.
Defined.

(** The handler has answered, and the caller has not read the answer. *)
Definition toy_undrained : list event := [EArrive toy_wire; ELoop; ELoop; EProcess true; EProcess true].

Lemma stream_progress_witness :
  (exists s, run toy_step 0 (new_stream Ask) (removelast toy_events) = Some s /\ exec toy_step 0 s ELoop = Some (leave s)) /\
  exists s, run toy_step 2 (new_stream Ask) toy_undrained = Some s /\ (exists next, proc s = PDrain next) /\ loop_waits 2 s.
Proof.
  split.
  - eexists. split; [vm_compute; reflexivity|].
    edestruct (stream_progress toy_step 0 Ask) as [_ Hu]; [exists (removelast toy_events); vm_compute; reflexivity|].
    apply Hu; [done|reflexivity..].
  - eexists. split; [vm_compute; reflexivity|].
    edestruct (stream_progress toy_step 2 Ask) as [[Hc|[(e & He & Hs)|[(_ & _ & _ & _ & h' & k & Hp & _)|[(Hp & Hl & _)|(Hp & _)]]]] _];
      [exists toy_undrained; vm_compute; reflexivity|discriminate Hc| |discriminate Hp|split; [exact Hp|exact Hl]|discriminate Hp].
    destruct He as [-> | ->]; vm_compute in Hs; destruct Hs as [x Hx]; discriminate Hx.
Defined.

Lemma early_return_hangs_witness :
  exists s, reached silent_step 1 Ask s /\ proc s = PDone /\
    forall es s', run silent_step 1 s es = Some s' -> closed s' = false.
Proof.
  destruct (early_return_hangs silent_step 1 Ask Answer true false [true] [] (match write_to_stream [true; true; false] with Ok b => b | Raise _ => [] end))
    as (s & Hr & _ & Hp & Hs); [reflexivity..|vm_compute; reflexivity|].
  exists s. split; [exact Hr|]. split; [exact Hp|]. intros es s' Hes. exact (proj1 (Hs es s' (Ok tt) Hes)).
Defined.

Lemma cut_stream_ends_normally_witness :
  exists n, iterate_responses (M := bool) (Ok tt) true ([0; 0;0;0;0;0;0;0;1; 1;  0; 0;0;0]) = (take n [true; false], Some (Ok tt)).
Proof. eapply (cut_stream_ends_normally [true; false] _ _ [0;0;0;0;1;0]); [vm_compute; reflexivity|vm_compute; reflexivity]. Defined.
