(* ===== verification/Control.v ===== *)
(** * The client of the p2p daemon ([mesh/p2p/p2p_daemon_bindings/control.py])

    One persistent connection carries all unary calls of a process: requests are queued for a writer, a reader matches
    responses to the calls that wait for them by call identifier and starts a task for every request of a remote peer.
    The client is a state machine: each [async] function is split at its [await]s into steps, and the tasks of the event
    loop interleave in any order.  Handlers are coroutines of the caller, known by an identity; how they end is part of
    the step.  Protobuf's size function is a parameter. *)

From S2P Require Import Prelude DHTID Base58 HashTable Framing PeerIdentity Text Base32 CID Multiaddr.

(** ** Messages ([mesh/proto/p2pd.proto]) *)

Inductive UnaryResult : Type := URes (response : bytes) | UErr (error : bytes) | UNone.

Inductive ReqMsg : Type :=
  | AddUnaryHandler (proto : string) (balanced : bool)
  | RemoveUnaryHandler (proto : string)
  | CallUnary (peer : bytes) (proto : string) (data : bytes)
  | UnaryResponse (r : UnaryResult)
  | CancelRequest.
Record PRequest : Type := mkRequest { reqId : bytes; reqMsg : ReqMsg }.

Inductive RespMsg : Type :=
  | CallUnaryResponse (r : UnaryResult)
  | RequestHandling (peer : bytes) (proto : string) (data : bytes)
  | DaemonError (message : text)
  | CancelResponse.
Record PResponse : Type := mkResponse { respId : bytes; respMsg : option RespMsg }.

#[export] Instance UnaryResult_eq_dec : EqDecision UnaryResult.
Proof. solve_decision. Defined.
#[export] Instance RespMsg_eq_dec : EqDecision RespMsg.
Proof. solve_decision. Defined.
#[export] Instance PResponse_eq_dec : EqDecision PResponse.
Proof. solve_decision. Defined.

(** The fields of [PersistentConnectionRequest]; a keyword argument of another name is a [ValueError]. *)
Definition request_fields : list string :=
  ["callId"; "addUnaryHandler"; "removeUnaryHandler"; "callUnary"; "unaryResponse"; "cancel"]%string.

Definition new_request (call_id : bytes) (field : string) (m : ReqMsg) : result PRequest :=
  if bool_decide (field ∈ request_fields) then Ok (mkRequest call_id m) else Raise ValueError.

(** [b.decode(errors="ignore")] *)
Fixpoint utf8_decode_ignore (fuel : nat) (b : bytes) : text :=
  match b, fuel with
  | [], _ => []
  | _, O => []
  | _ :: r0, S n => match utf8_next b with Some (c, r) => c :: utf8_decode_ignore n r | None => utf8_decode_ignore n r0 end
  end.

(** ** State *)

Inductive fut : Type := FPending | FResult (r : option bytes) | FException (e : exn) (msg : text) | FCancelled.

(** A call that waits: its future, and whether its task was cancelled after the future was done. *)
Record call : Type := mkCall { future : fut; must_cancel : bool }.

#[export] Instance exn_fut_eq_dec : EqDecision fut.
Proof. solve_decision. Defined.

(** A task that runs [_handle_persistent_request]. *)
Inductive task : Type :=
  | TCreated (call_id peer : bytes) (proto : string) (data : bytes)
  | TRunning (call_id peer : bytes) (handler : nat) (data : bytes) (cancelled : bool)
  | TDone (e : option exn).

Inductive reader_state : Type := RAlive | REnded | RFailed (e : exn).

Record Control : Type := mkControl {
  max_msg_size : Z;
  unary_handlers : pydict string nat;
  pending_messages : list PRequest;
  pending_calls : pydict bytes call;
  handler_tasks : pydict bytes nat;
  tasks : pydict nat task;
  next_task : nat;
  reader : reader_state;
}.

Definition set_handlers (c : Control) (h : pydict string nat) : Control :=
  mkControl (max_msg_size c) h (pending_messages c) (pending_calls c) (handler_tasks c) (tasks c) (next_task c) (reader c).
Definition put (c : Control) (m : PRequest) : Control :=
  mkControl (max_msg_size c) (unary_handlers c) (pending_messages c ++ [m]) (pending_calls c) (handler_tasks c) (tasks c)
    (next_task c) (reader c).
Definition set_calls (c : Control) (d : pydict bytes call) : Control :=
  mkControl (max_msg_size c) (unary_handlers c) (pending_messages c) d (handler_tasks c) (tasks c) (next_task c) (reader c).
Definition set_tasks (c : Control) (h : pydict bytes nat) (t : pydict nat task) (n : nat) : Control :=
  mkControl (max_msg_size c) (unary_handlers c) (pending_messages c) (pending_calls c) h t n (reader c).
Definition set_reader (c : Control) (r : reader_state) : Control :=
  mkControl (max_msg_size c) (unary_handlers c) (pending_messages c) (pending_calls c) (handler_tasks c) (tasks c)
    (next_task c) r.

(** [__init__] after [_ensure_persistent_conn] *)
Definition new_control (max_size : Z) : Control := mkControl max_size [] [] [] [] [] 0 RAlive.

(** ** The reader *)

(** [self._pending_calls[call_id].set_result(...)] or [.set_exception(...)]: a future that is done raises, which ends
    the task of the reader. *)
Definition resolve_call (c : Control) (id : bytes) (f : fut) : Control :=
  match dget (pending_calls c) id with
  | Some (mkCall FPending mc) => set_calls c (dset (pending_calls c) id (mkCall f mc))
  | Some _ => set_reader c (RFailed InvalidStateError)
  | None => set_reader c (RFailed KeyError)
  end.

(** [cancel_task_if_running]: a task that did not start is over; a running one receives a [CancelledError]. *)
Definition cancel_task (t : task) : task :=
  match t with
  | TCreated _ _ _ _ => TDone (Some CancelledError)
  | TRunning id peer h data _ => TRunning id peer h data true
  | TDone e => TDone e
  end.

(** One iteration of [_read_from_persistent_conn] *)
Definition receive (c : Control) (resp : PResponse) : Control :=
  let call_id := respId resp in
  if negb (length call_id =? 16)%nat then set_reader c (RFailed ValueError)
  else
    let pending := dmem (pending_calls c) call_id in
    match respMsg resp with
    | Some (CallUnaryResponse r) =>
        match r with
        | URes response => if pending then resolve_call c call_id (FResult (Some response)) else c
        | UErr error =>
            if pending then resolve_call c call_id (FException P2PHandlerError (utf8_decode_ignore (length error) error))
            else c
        | UNone => c
        end
    | Some (RequestHandling peer proto data) =>
        let t := next_task c in
        set_tasks c (dset (handler_tasks c) call_id t) (dset (tasks c) t (TCreated call_id peer proto data)) (S t)
    | m =>
        match m, dget (handler_tasks c) call_id with
        | Some CancelResponse, Some t =>
            match dget (tasks c) t with
            | Some tk => set_tasks c (handler_tasks c) (dset (tasks c) t (cancel_task tk)) (next_task c)
            | None => c
            end
        | _, _ =>
            if pending then
              match m with
              | Some (DaemonError message) => resolve_call c call_id (FException P2PDaemonError message)
              | _ => resolve_call c call_id (FResult None)
              end
            else c
        end
    end.

(** The loop reads only while the task of the reader is alive; the end of the stream ends it. *)
Definition read_step (c : Control) (resp : option PResponse) : Control :=
  match reader c, resp with
  | RAlive, Some resp => receive c resp
  | RAlive, None => set_reader c REnded
  | _, _ => c
  end.

(** One iteration of [_write_to_persistent_conn]: the message that is written. *)
Definition write_step (c : Control) : Control * option PRequest :=
  match pending_messages c with
  | [] => (c, None)
  | m :: ms => (mkControl (max_msg_size c) (unary_handlers c) ms (pending_calls c) (handler_tasks c) (tasks c) (next_task c)
                  (reader c), Some m)
  end.

Section Control.
Context (ByteSize : PRequest -> Z).

(** ** Requests of remote peers: [_handle_persistent_request] *)

(** Until the handler is called. *)
Definition task_start (c : Control) (t : nat) : Control :=
  match dget (tasks c) t with
  | Some (TCreated id peer proto data) =>
      let tk := match dget (unary_handlers c) proto with
                | None => TDone None
                | Some h => TRunning id peer h data false
                end in
      set_tasks c (handler_tasks c) (dset (tasks c) t tk) (next_task c)
  | _ => c
  end.

(** How the handler ends: with a payload, with an exception (its [repr]), or cancelled. *)
Inductive outcome : Type := HReturn (payload : bytes) | HRaise (repr : bytes) | HCancelled.

(** What is queued as the reply, if building it does not raise. *)
Definition make_reply (max_size : Z) (call_id : bytes) (response : UnaryResult) : result PRequest :=
  let* payload := new_request call_id "unaryResponse" (UnaryResponse response) in
  if ByteSize payload <=? max_size then Ok payload
  else new_request call_id "callUnaryResponse" (UnaryResponse (UErr (lit "response size exceeds message size limit"))).

(** After the handler returned. *)
Definition task_end (c : Control) (t : nat) (o : outcome) : Control :=
  match dget (tasks c) t with
  | Some (TRunning id peer h data _) =>
      let finish c e := set_tasks c (handler_tasks c) (dset (tasks c) t (TDone e)) (next_task c) in
      let reply response :=
        match make_reply (max_msg_size c) id response with
        | Raise e => finish c (Some e)
        | Ok m =>
            let c := put c m in
            match pydel (handler_tasks c) id with
            | Ok h => finish (set_tasks c h (tasks c) (next_task c)) None
            | Raise e => finish c (Some e)
            end
        end in
      match o with
      | HReturn payload => reply (URes payload)
      | HRaise repr => reply (UErr repr)
      | HCancelled => finish c (Some CancelledError)
      end
  | _ => c
  end.

(** ** Calls *)

(** [call_unary_handler] up to the [await] of the future *)
Definition call_start (c : Control) (id peer : bytes) (proto : string) (data : bytes) : Control * result unit :=
  let req := mkRequest id (CallUnary peer proto data) in
  if max_msg_size c <? ByteSize req then (c, Raise P2PDaemonError)
  else (put (set_calls c (dset (pending_calls c) id (mkCall FPending false))) req, Ok tt).

(** Cancelling the task of a call: a pending future is cancelled, else the task is when it resumes. *)
Definition call_cancel (c : Control) (id : bytes) : Control :=
  match dget (pending_calls c) id with
  | Some (mkCall FPending mc) => set_calls c (dset (pending_calls c) id (mkCall FCancelled mc))
  | Some (mkCall f _) => set_calls c (dset (pending_calls c) id (mkCall f true))
  | None => c
  end.

(** What [await future] returns or raises, once the future is done. *)
Definition await_result (k : call) : option (result (option bytes)) :=
  match k with
  | mkCall FPending _ => None
  | mkCall _ true | mkCall FCancelled _ => Some (Raise CancelledError)
  | mkCall (FResult r) _ => Some (Ok r)
  | mkCall (FException e _) _ => Some (Raise e)
  end.

(** [call_unary_handler] from the [await] on: a cancelled call tells the daemon; in any case it is forgotten. *)
Definition call_resume (c : Control) (id : bytes) : Control * option (result (option bytes)) :=
  match dget (pending_calls c) id with
  | Some k =>
      match await_result k with
      | None => (c, None)
      | Some r =>
          let c := match r with Raise CancelledError => put c (mkRequest id CancelRequest) | _ => c end in
          (set_calls c (ddel (pending_calls c) id), Some r)
      end
  | None => (c, None)
  end.

(** [add_unary_handler] and [remove_unary_handler] *)
Definition add_start (c : Control) (id : bytes) (proto : string) (handler : nat) (balanced : bool) : Control * result unit :=
  if dmem (unary_handlers c) proto then (c, Raise P2PDaemonError)
  else
    let c := set_handlers c (dset (unary_handlers c) proto handler) in
    (put (set_calls c (dset (pending_calls c) id (mkCall FPending false))) (mkRequest id (AddUnaryHandler proto balanced)), Ok tt).

Definition add_resume (c : Control) (id : bytes) : option (result unit) :=
  match dget (pending_calls c) id with
  | Some k => rmap (fun _ => tt) <$> await_result k
  | None => None
  end.

Definition remove_start (c : Control) (id : bytes) (proto : string) : Control * result unit :=
  if negb (dmem (unary_handlers c) proto) then (c, Raise P2PDaemonError)
  else (put (set_calls c (dset (pending_calls c) id (mkCall FPending false))) (mkRequest id (RemoveUnaryHandler proto)), Ok tt).

Definition remove_resume (c : Control) (id : bytes) (proto : string) : Control * option (result unit) :=
  match dget (pending_calls c) id with
  | Some k =>
      match await_result k with
      | Some (Ok _) =>
          match pydel (unary_handlers c) proto with
          | Ok h => (set_handlers c h, Some (Ok tt))
          | Raise e => (c, Some (Raise e))
          end
      | Some (Raise e) => (c, Some (Raise e))
      | None => (c, None)
      end
  | None => (c, None)
  end.

(** ** Steps of the process *)

Inductive event : Type :=
  | EStart (id peer : bytes) (proto : string) (data : bytes)
  | ECancel (id : bytes)
  | EResume (id : bytes)
  | EAdd (id : bytes) (proto : string) (handler : nat) (balanced : bool)
  | ERemove (id : bytes) (proto : string)
  | ERemoveResume (id : bytes) (proto : string)
  | EReceive (resp : option PResponse)
  | EWrite
  | ETaskStart (t : nat)
  | ETaskEnd (t : nat) (o : outcome).

Definition step (c : Control) (e : event) : Control :=
  match e with
  | EStart id peer proto data => (call_start c id peer proto data).1
  | ECancel id => call_cancel c id
  | EResume id => (call_resume c id).1
  | EAdd id proto h balanced => (add_start c id proto h balanced).1
  | ERemove id proto => (remove_start c id proto).1
  | ERemoveResume id proto => (remove_resume c id proto).1
  | EReceive resp => read_step c resp
  | EWrite => (write_step c).1
  | ETaskStart t => task_start c t
  | ETaskEnd t o => task_end c t o
  end.

Definition run (c : Control) (tr : list event) : Control := foldl step c tr.
End Control.

(** * What happens to one call *)

Section Facts.
Context (ByteSize : PRequest -> Z).
Implicit Types (c : Control) (id : bytes) (k : call).

(** Steps of the coroutine that waits under this identifier. *)
Definition concerns (id : bytes) (e : event) : Prop :=
  match e with
  | EStart id' _ _ _ | EResume id' | EAdd id' _ _ _ | ERemove id' _ | ERemoveResume id' _ => id' = id
  | _ => False
  end.

(** The meaning of a response for the call it answers. *)
Definition settles (m : option RespMsg) (f : fut) : Prop :=
  match m with
  | Some (CallUnaryResponse (URes r)) => f = FResult (Some r)
  | Some (CallUnaryResponse (UErr e)) => exists msg, f = FException P2PHandlerError msg
  | Some (DaemonError msg) => f = FException P2PDaemonError msg
  | Some CancelResponse | None => f = FResult None
  | _ => False
  end.

Definition cancelled_call k : call :=
  match future k with FPending => mkCall FCancelled (must_cancel k) | f => mkCall f true end.

Lemma calls_of_resolve c id f id' : id <> id' -> dget (pending_calls (resolve_call c id f)) id' = dget (pending_calls c) id'.
Proof. intros Hne. unfold resolve_call. repeat case_match; cbn; auto. by rewrite dget_dset_ne. Qed.

Lemma resolve_own c id f k : dget (pending_calls c) id = Some k ->
  exists k', dget (pending_calls (resolve_call c id f)) id = Some k' /\
    (k' = k /\ future k <> FPending /\ reader (resolve_call c id f) = RFailed InvalidStateError \/
     future k = FPending /\ k' = mkCall f (must_cancel k) /\ reader (resolve_call c id f) = reader c).
Proof.
  intros Hk. unfold resolve_call. rewrite Hk. destruct k as [[] mc]; cbn; (eexists; split; [|]);
    try (rewrite dget_dset_eq; reflexivity); eauto.
Qed.

Lemma receive_other c resp id : respId resp <> id -> dget (pending_calls (receive c resp)) id = dget (pending_calls c) id.
Proof. intros Hne. unfold receive. repeat case_match; cbn; auto using calls_of_resolve. Qed.

Lemma receive_own c resp k : dget (pending_calls c) (respId resp) = Some k ->
  exists k', dget (pending_calls (receive c resp)) (respId resp) = Some k' /\
    (k' = k \/ future k = FPending /\ must_cancel k' = must_cancel k /\ settles (respMsg resp) (future k')).
Proof.
  intros Hk. assert (Hm : dmem (pending_calls c) (respId resp) = true) by (apply dmem_true; eauto).
  assert (Hr : forall f, settles (respMsg resp) f -> exists k', dget (pending_calls (resolve_call c (respId resp) f)) (respId resp) = Some k' /\
             (k' = k \/ future k = FPending /\ must_cancel k' = must_cancel k /\ settles (respMsg resp) (future k'))).
  { intros f Hf. destruct (resolve_own c _ f _ Hk) as (k' & Hk' & [(-> & _)|(Hp & -> & _)]); eexists; (split; [done|]); auto. }
  unfold receive. rewrite Hm. destruct (negb _); [by eauto|]. destruct (respMsg resp) as [[[]| | |]|] eqn:Em; cbn in Hr;
    try (by eauto); try (apply Hr; eauto; done); repeat case_match; try (by eauto); apply Hr; done.
Qed.

(** The definite answers; a response that says "cancelled" depends on whether it cancels a handler. *)
Definition answer (m : option RespMsg) : option fut :=
  match m with
  | Some (CallUnaryResponse (URes r)) => Some (FResult (Some r))
  | Some (CallUnaryResponse (UErr e)) => Some (FException P2PHandlerError (utf8_decode_ignore (length e) e))
  | Some (DaemonError msg) => Some (FException P2PDaemonError msg)
  | None => Some (FResult None)
  | _ => None
  end.

Lemma receive_answer c resp k f : dget (pending_calls c) (respId resp) = Some k -> length (respId resp) = 16%nat ->
  answer (respMsg resp) = Some f -> receive c resp = resolve_call c (respId resp) f.
Proof.
  intros Hk Hl Ha. assert (Hm : dmem (pending_calls c) (respId resp) = true) by (apply dmem_true; eauto).
  unfold receive. rewrite Hm, Hl. cbn [Nat.eqb negb]. unfold answer in Ha. destruct (respMsg resp) as [[[]| | |]|]; simplify_eq; try done.
Qed.

(** One step of the process and one call. *)
Lemma step_call c e id k : dget (pending_calls c) id = Some k -> ~ concerns id e ->
  exists k', dget (pending_calls (step ByteSize c e)) id = Some k' /\
    (k' = k \/ e = ECancel id /\ k' = cancelled_call k \/
     exists resp, e = EReceive (Some resp) /\ respId resp = id /\ future k = FPending /\ must_cancel k' = must_cancel k /\
       settles (respMsg resp) (future k')).
Proof.
  intros Hk Hc. destruct e as [id' p pr d|id'|id'|id' pr h b|id' pr|id' pr|[resp|]| |t|t o]; cbn [step concerns] in *.
  - unfold call_start. case_match; cbn; [by eauto|]. rewrite dget_dset_ne by done. eauto.
  - unfold call_cancel. destruct (decide (id' = id)) as [->|Hne].
    + rewrite Hk. destruct k as [[] mc]; cbn; rewrite dget_dset_eq; eexists; (split; [reflexivity|]); right; left; done.
    + destruct (dget (pending_calls c) id') as [[[] ?]|]; cbn; rewrite ?dget_dset_ne by done; eauto.
  - unfold call_resume. destruct (dget (pending_calls c) id') as [k'|]; [|by eauto]. destruct (await_result k') as [r|]; [|by eauto].
    exists k. split; [|by left]. destruct r as [|[]]; cbn [fst set_calls put pending_calls]; rewrite dget_ddel_ne; done.
  - unfold add_start. case_match; cbn; [by eauto|]. rewrite dget_dset_ne by done. eauto.
  - unfold remove_start. case_match; cbn; [by eauto|]. rewrite dget_dset_ne by done. eauto.
  - unfold remove_resume. repeat case_match; cbn; eauto.
  - unfold read_step. destruct (reader c); [|by eauto|by eauto]. destruct (decide (respId resp = id)) as [<-|Hne].
    + destruct (receive_own _ _ _ Hk) as (k' & Hk' & [->|(Hp & Hmc & Hs)]); eexists; (split; [done|]); [by left|]. right; right. eauto 10.
    + rewrite receive_other by done. eauto.
  - unfold read_step. destruct (reader c); cbn; eauto.
  - unfold write_step. case_match; cbn; eauto.
  - unfold task_start. repeat case_match; cbn; eauto.
  - unfold task_end. repeat case_match; cbn; eauto.
Qed.

(** A reader that ended stays ended. *)
Lemma reader_of_resolve c id f : reader c = RAlive -> reader (resolve_call c id f) = RAlive \/ exists e, reader (resolve_call c id f) = RFailed e.
Proof. unfold resolve_call. intros. repeat case_match; cbn; eauto. Qed.

Lemma reader_stays c e : reader c <> RAlive -> reader (step ByteSize c e) = reader c.
Proof.
  intros Hr. destruct e; cbn [step]; unfold call_start, call_cancel, call_resume, add_start, remove_start, remove_resume, read_step, write_step, task_start, task_end;
    try (repeat case_match; cbn; congruence).
Qed.

Lemma reader_stays_run c tr : reader c <> RAlive -> reader (run ByteSize c tr) = reader c.
Proof.
  revert c. induction tr as [|e tr IH]; intros c Hr; [done|]. cbn [run foldl]. change (foldl (step ByteSize)) with (run ByteSize).
  rewrite IH; rewrite reader_stays; done.
Qed.

(** Only the reader ends the reader. *)
Lemma reader_kept c e : (forall r, e <> EReceive r) -> reader (step ByteSize c e) = reader c.
Proof.
  intros He. destruct e; cbn [step]; unfold call_start, call_cancel, call_resume, add_start, remove_start, remove_resume, write_step, task_start, task_end;
    try (repeat case_match; cbn; congruence). by destruct (He resp).
Qed.

(** What the future of a call says about the steps since the call began. *)
Definition explained (tr : list event) (id : bytes) (k : call) : Prop :=
  (must_cancel k = true -> ECancel id ∈ tr) /\
  match future k with
  | FPending => True
  | FCancelled => ECancel id ∈ tr
  | f => exists resp, EReceive (Some resp) ∈ tr /\ respId resp = id /\ settles (respMsg resp) f
  end.

Lemma explained_control_step tr id k e k' : explained tr id k ->
  (k' = k \/ e = ECancel id /\ k' = cancelled_call k \/
     exists resp, e = EReceive (Some resp) /\ respId resp = id /\ future k = FPending /\ must_cancel k' = must_cancel k /\
       settles (respMsg resp) (future k')) -> explained (tr ++ [e]) id k'.
Proof.
  unfold explained. intros [Hm Hf] [->|[[-> ->]|(resp & -> & <- & Hp & Hmc & Hs)]].
  - split; [set_solver|]. destruct (future k); set_solver.
  - unfold cancelled_call. destruct (future k) eqn:E; cbn; set_solver.
  - rewrite Hmc. split; [set_solver|]. destruct (future k') eqn:E; [done| | |].
    + exists resp. set_solver.
    + exists resp. set_solver.
    + exfalso. unfold settles in Hs. repeat case_match; try done. by destruct Hs.
Qed.

Lemma run_explained id tr : forall tr0 c k, Forall (fun e => ~ concerns id e) tr -> dget (pending_calls c) id = Some k -> explained tr0 id k ->
  exists k', dget (pending_calls (run ByteSize c tr)) id = Some k' /\ explained (tr0 ++ tr) id k'.
Proof.
  induction tr as [|e tr IH]; intros tr0 c k Htr Hk He; [exists k; by rewrite app_nil_r|]. apply Forall_cons in Htr as [Hc Htr].
  destruct (step_call c e id k Hk Hc) as (k1 & Hk1 & Hcase). destruct (IH (tr0 ++ [e]) (step ByteSize c e) k1 Htr Hk1) as (k2 & Hk2 & He2).
  { by eapply explained_control_step. }
  exists k2. split; [done|]. by rewrite <- app_assoc in He2.
Qed.

(** While the reader is alive, the definite answer to a call is its future, unless the call was cancelled. *)
Lemma run_answered id m f tr : forall c k, Forall (fun e => ~ concerns id e) tr -> dget (pending_calls c) id = Some k ->
  length id = 16%nat -> answer m = Some f -> EReceive (Some (mkResponse id m)) ∈ tr -> ECancel id ∉ tr -> reader (run ByteSize c tr) = RAlive ->
  must_cancel k = false -> dget (pending_calls (run ByteSize c tr)) id = Some (mkCall f false).
Proof.
  assert (Hkeep : forall tr c k, Forall (fun e => ~ concerns id e) tr -> dget (pending_calls c) id = Some k -> future k <> FPending ->
            ECancel id ∉ tr -> dget (pending_calls (run ByteSize c tr)) id = Some k).
  { clear tr. induction tr as [|e tr IH]; intros c k Htr Hk Hf Hcn; [done|]. apply Forall_cons in Htr as [Hc Htr].
    apply not_elem_of_cons in Hcn as [Hcn1 Hcn2]. destruct (step_call c e id k Hk Hc) as (k1 & Hk1 & [->|[[-> _]|(r & _ & _ & Hp & _)]]); [|done|done].
    by apply IH. }
  induction tr as [|e tr IH]; intros c k Htr Hk Hl Ha Hin Hcn Hr Hmc; [by apply elem_of_nil in Hin|].
  apply Forall_cons in Htr as [Hc Htr]. apply not_elem_of_cons in Hcn as [Hcn1 Hcn2]. cbn [run foldl] in Hr |- *.
  change (foldl (step ByteSize)) with (run ByteSize) in *.
  assert (Halive : reader c = RAlive).
  { destruct (reader c) eqn:E; [done|..]; rewrite reader_stays_run in Hr; rewrite reader_stays in *; congruence. }
  apply elem_of_cons in Hin as [Heq|Hin].
  - subst e. cbn [step] in *. unfold read_step in *. rewrite Halive in *. rewrite (receive_answer c (mkResponse id m) k f Hk Hl Ha) in *. cbn [respId] in *.
    destruct (resolve_own c id f k Hk) as (k1 & Hk1 & [(-> & Hp & Hrd)|(Hp & -> & Hrd)]).
    + rewrite reader_stays_run in Hr by (rewrite Hrd; done). congruence.
    + rewrite Hmc in *. apply Hkeep; [done|done| |done]. unfold answer in Ha. by repeat case_match; simplify_eq.
  - destruct (step_call c e id k Hk Hc) as (k1 & Hk1 & Hcase). eapply (IH _ k1); try done.
    destruct Hcase as [->|[[-> _]|(r & _ & _ & _ & Hm & _)]]; [done|done|congruence].
Qed.

(** * Theorems *)

(** C32: Answers reach the calls they belong to.  A call that returns data received it from a response with its own
    identifier, a call that fails was answered with that error, a call that is cancelled was cancelled by its caller;
    and while the reader is alive, an answer to a call that its caller did not cancel is what the call returns, after
    which the call is forgotten.  All of this whatever other calls, handlers and messages do in between. *)
Theorem calls_get_their_answers (c : Control) (id peer data : bytes) (proto : string) (tr : list event) :
  length id = 16%nat -> ByteSize (mkRequest id (CallUnary peer proto data)) <= max_msg_size c -> Forall (fun e => ~ concerns id e) tr ->
  let c' := run ByteSize (call_start ByteSize c id peer proto data).1 tr in
  (forall r, (call_resume c' id).2 = Some r ->
     dget (pending_calls (call_resume c' id).1) id = None /\
     match r with
     | Raise CancelledError => ECancel id ∈ tr
     | Ok (Some b) => EReceive (Some (mkResponse id (Some (CallUnaryResponse (URes b))))) ∈ tr
     | Ok None => exists m, EReceive (Some (mkResponse id m)) ∈ tr /\ (m = None \/ m = Some CancelResponse)
     | Raise P2PHandlerError => exists e, EReceive (Some (mkResponse id (Some (CallUnaryResponse (UErr e))))) ∈ tr
     | Raise P2PDaemonError => exists msg, EReceive (Some (mkResponse id (Some (DaemonError msg)))) ∈ tr
     | Raise _ => False
     end) /\
  (forall m f, EReceive (Some (mkResponse id m)) ∈ tr -> answer m = Some f -> ECancel id ∉ tr -> reader c' = RAlive ->
     (call_resume c' id).2 = await_result (mkCall f false)).
Proof.
  intros Hl Hs Htr c'. assert (Hstart : dget (pending_calls (call_start ByteSize c id peer proto data).1) id = Some (mkCall FPending false)).
  { unfold call_start. rewrite (proj2 (Z.ltb_ge _ _)) by done. cbn. apply dget_dset_eq. }
  split.
  - destruct (run_explained id tr [] _ _ Htr Hstart) as (k & Hk & Hm & Hf); [done|]. fold c' in Hk. cbn [app] in *.
    intros r Hr. unfold call_resume in *. rewrite Hk in *. destruct (await_result k) as [r'|] eqn:Ea; [|done]. cbn [snd fst] in *. simplify_eq.
    split; [destruct r as [|[]]; apply dget_ddel_eq|].
    destruct k as [[|r0|e0 msg|] [|]]; cbn in *; simplify_eq; auto.
    + destruct Hf as ([i m] & Hin & Hid & Hset). cbn in *. subst i. destruct m as [[[]| | |]|]; cbn in Hset; simplify_eq; try done; try (by destruct Hset); eauto.
    + destruct Hf as ([i m] & Hin & Hid & Hset). cbn in *. subst i. destruct m as [[[]| | |]|]; cbn in Hset; simplify_eq; try done; try (destruct Hset; simplify_eq); eauto.
  - intros m f Hin Ha Hc Hr. pose proof (run_answered id m f tr _ _ Htr Hstart Hl Ha Hin Hc Hr eq_refl) as Hk. fold c' in Hk.
    unfold call_resume. rewrite Hk.
    unfold answer in Ha. by repeat case_match; simplify_eq.
Qed.

(** A late answer silences the client.  When a call was cancelled and its answer is read before its coroutine resumed,
    the reader fails on the future that is already done; from then on it never reads again, and no call that is made
    later, whatever the daemon answers, ever returns unless its caller cancels it. *)
Theorem late_answer_ends_reader (c : Control) (id peer data b : bytes) (proto : string) :
  length id = 16%nat -> reader c = RAlive -> ByteSize (mkRequest id (CallUnary peer proto data)) <= max_msg_size c ->
  let c' := run ByteSize c [EStart id peer proto data; ECancel id; EReceive (Some (mkResponse id (Some (CallUnaryResponse (URes b)))))] in
  reader c' = RFailed InvalidStateError /\
  forall tr id' peer' proto' data' tr', ECancel id' ∉ tr' -> Forall (fun e => ~ concerns id' e) tr' ->
    ByteSize (mkRequest id' (CallUnary peer' proto' data')) <= max_msg_size (run ByteSize c' tr) ->
    (call_resume (run ByteSize c' (tr ++ EStart id' peer' proto' data' :: tr')) id').2 = None.
Proof.
  intros Hl Hr Hs c'. assert (Hdead : reader c' = RFailed InvalidStateError).
  { unfold c', run. cbn [foldl step]. unfold call_start. rewrite (proj2 (Z.ltb_ge _ _)) by done. cbn [fst]. unfold call_cancel. cbn [pending_calls put set_calls].
    rewrite dget_dset_eq. cbn. unfold read_step. cbn [reader set_calls put]. rewrite Hr. erewrite receive_answer; [|cbn; apply dget_dset_eq|done|reflexivity].
    unfold resolve_call. cbn [respId pending_calls set_calls put]. by rewrite dget_dset_eq. }
  split; [done|]. intros tr id' peer' proto' data' tr' Hc Htr Hsz. unfold run. rewrite foldl_app. cbn [foldl]. fold (run ByteSize c' tr).
  set (c1 := run ByteSize c' tr) in *. assert (Hr1 : reader c1 = RFailed InvalidStateError) by (unfold c1; by rewrite reader_stays_run; rewrite Hdead).
  cbn [step]. unfold call_start. rewrite (proj2 (Z.ltb_ge _ _)) by done. cbn [fst]. set (c2 := put _ _).
  assert (Hr2 : reader c2 <> RAlive) by (cbn; by rewrite Hr1).
  assert (Hk2 : dget (pending_calls c2) id' = Some (mkCall FPending false)) by (cbn; apply dget_dset_eq).
  clearbody c2. fold (run ByteSize c2 tr'). assert (Hk3 : dget (pending_calls (run ByteSize c2 tr')) id' = Some (mkCall FPending false)).
  { clear -Hc Htr Hr2 Hk2. revert c2 Hr2 Hk2. induction tr' as [|e tr' IH]; intros c2 Hr2 Hk2; [done|]. apply Forall_cons in Htr as [He Htr].
    apply not_elem_of_cons in Hc as [Hc1 Hc2]. cbn [run foldl]. apply IH; [done|done|by rewrite reader_stays|].
    destruct (step_call c2 e id' _ Hk2 He) as (k & Hk & [->|[[-> _]|(resp & -> & _ & _ & _ & Hset)]]); [done|done|].
    cbn [step] in Hk |- *. unfold read_step in *. destruct (reader c2); [done|..]; done. }
  unfold call_resume. by rewrite Hk3.
Qed.

(** A handler's answer is sent once, with the identifier of the request, and the request is forgotten, when it fits the
    size limit.  When it does not fit, nothing is sent at all, so that the remote peer waits in vain, and the request is
    not forgotten: the message that should report the problem cannot be built. *)
Theorem handler_replies (c : Control) (t h : nat) (id peer data : bytes) (cancelled : bool) (o : outcome) (r : UnaryResult) :
  dget (tasks c) t = Some (TRunning id peer h data cancelled) -> is_Some (dget (handler_tasks c) id) ->
  match o with HReturn p => r = URes p | HRaise e => r = UErr e | HCancelled => False end ->
  let reply := mkRequest id (UnaryResponse r) in
  (ByteSize reply <= max_msg_size c ->
     pending_messages (task_end ByteSize c t o) = pending_messages c ++ [reply] /\
     dget (handler_tasks (task_end ByteSize c t o)) id = None /\ dget (tasks (task_end ByteSize c t o)) t = Some (TDone None)) /\
  (max_msg_size c < ByteSize reply ->
     pending_messages (task_end ByteSize c t o) = pending_messages c /\
     handler_tasks (task_end ByteSize c t o) = handler_tasks c /\
     dget (tasks (task_end ByteSize c t o)) t = Some (TDone (Some ValueError))).
Proof.
  intros Ht Hh Ho reply. unfold task_end. rewrite Ht.
  assert (Hm : make_reply ByteSize (max_msg_size c) id r = if ByteSize reply <=? max_msg_size c then Ok reply else Raise ValueError).
  { unfold make_reply. change (new_request id "unaryResponse" (UnaryResponse r)) with (Ok reply). cbn [rbind]. by destruct (_ <=? _). }
  split; intros Hs.
  - rewrite (proj2 (Z.leb_le _ _)) in Hm by done.
    assert (Hp : pydel (handler_tasks c) id = Ok (ddel (handler_tasks c) id)) by (by apply pydel_ok).
    destruct o as [p|e|]; [| |done]; subst r; rewrite Hm; cbn [put handler_tasks]; rewrite Hp;
      cbn [set_tasks pending_messages handler_tasks tasks]; split_and!; auto using dget_ddel_eq, dget_dset_eq.
  - rewrite (proj2 (Z.leb_gt _ _)) in Hm by done.
    destruct o as [p|e|]; [| |done]; subst r; rewrite Hm; cbn [set_tasks pending_messages handler_tasks tasks]; split_and!; auto using dget_dset_eq.
Qed.

(** A request for a protocol without handler gets no answer, and is never forgotten. *)
Lemma unsupported_request_ignored (c : Control) (t : nat) (id peer data : bytes) (proto : string) :
  dget (tasks c) t = Some (TCreated id peer proto data) -> dget (unary_handlers c) proto = None ->
  pending_messages (task_start c t) = pending_messages c /\ handler_tasks (task_start c t) = handler_tasks c /\
  dget (tasks (task_start c t)) t = Some (TDone None).
Proof. intros Ht Hh. unfold task_start. rewrite Ht, Hh. cbn [set_tasks pending_messages handler_tasks tasks]. by rewrite dget_dset_eq. Qed.

(** When the daemon refuses a handler, the handler stays registered, so that it cannot be registered again. *)
Lemma refused_handler_stays (c : Control) (id : bytes) (proto : string) (h : nat) (balanced : bool) (msg : text) :
  length id = 16%nat -> reader c = RAlive -> dget (unary_handlers c) proto = None ->
  let c' := run ByteSize c [EAdd id proto h balanced; EReceive (Some (mkResponse id (Some (DaemonError msg))))] in
  add_resume c' id = Some (Raise P2PDaemonError) /\ dget (unary_handlers c') proto = Some h /\
  forall id' h' b', (add_start c' id' proto h' b').2 = Raise P2PDaemonError.
Proof.
  intros Hl Hr Hp c'. assert (Hc' : dget (pending_calls c') id = Some (mkCall (FException P2PDaemonError msg) false) /\ dget (unary_handlers c') proto = Some h).
  { unfold c', run. cbn [foldl step]. unfold add_start. rewrite (proj2 (dmem_false _ _)) by done. cbn [fst]. unfold read_step. cbn [reader put set_calls set_handlers].
    rewrite Hr. erewrite receive_answer; [|cbn; apply dget_dset_eq|done|reflexivity]. unfold resolve_call. cbn [respId pending_calls put set_calls set_handlers].
    rewrite dget_dset_eq. cbn [pending_calls set_calls unary_handlers put set_handlers]. by rewrite !dget_dset_eq. }
  destruct Hc' as [Hk Hh]. split_and!.
  - unfold add_resume. by rewrite Hk.
  - done.
  - intros. unfold add_start. rewrite (proj2 (dmem_true _ _)) by eauto. done.
Qed.
End Facts.

(** ** Witnesses *)

Definition toy_size (m : PRequest) : Z :=
  match reqMsg m with
  | CallUnary peer _ data => Z.of_nat (length peer + length data)
  | UnaryResponse (URes b) | UnaryResponse (UErr b) => Z.of_nat (length b)
  | _ => 0
  end.

Definition call_a : bytes := replicate 16 1.
Definition call_b : bytes := replicate 16 2.

(** Two calls whose answers arrive in the other order. *)
Lemma calls_get_their_answers_witness :
  (call_resume (run toy_size (call_start toy_size (new_control 100) call_a [7] "p" [8]).1
     [EStart call_b [7] "p" [9]; EReceive (Some (mkResponse call_b (Some (CallUnaryResponse (URes [2])))));
      EReceive (Some (mkResponse call_a (Some (CallUnaryResponse (URes [1])))))]) call_a).2 = Some (Ok (Some [1])).
Proof.
  refine (proj2 (calls_get_their_answers toy_size (new_control 100) call_a [7] [8] "p"
     [EStart call_b [7] "p" [9]; EReceive (Some (mkResponse call_b (Some (CallUnaryResponse (URes [2])))));
      EReceive (Some (mkResponse call_a (Some (CallUnaryResponse (URes [1])))))] _ _ _)
     (Some (CallUnaryResponse (URes [1]))) (FResult (Some [1])) _ _ _ _); try done.
  - apply Forall_cons_2; [by intros Hc; discriminate Hc|]. by repeat (apply Forall_cons_2; [intros []|]); apply Forall_nil_2.
  - right. right. left.
  - rewrite !not_elem_of_cons. split_and!; try done. by apply not_elem_of_nil.
Defined.

Lemma late_answer_ends_reader_witness :
  reader (run toy_size (new_control 100)
    [EStart call_a [7] "p" [8]; ECancel call_a; EReceive (Some (mkResponse call_a (Some (CallUnaryResponse (URes [1])))))])
  = RFailed InvalidStateError.
Proof. refine (proj1 (late_answer_ends_reader toy_size (new_control 100) call_a [7] [8] [1] "p" _ _ _)); done. Defined.

(** A handler that returns 200 bytes where 100 are allowed. *)
Definition busy : Control :=
  run toy_size (new_control 100)
    [EAdd call_b "p" 5 false; EReceive (Some (mkResponse call_a (Some (RequestHandling [7] "p" [8])))); ETaskStart 0].

Lemma handler_replies_witness :
  pending_messages (task_end toy_size busy 0 (HReturn (replicate 200 0))) = pending_messages busy.
Proof.
  refine (proj1 (proj2 (handler_replies toy_size busy 0 5 call_a [7] [8] false (HReturn (replicate 200 0)) (URes (replicate 200 0)) _ _ _) _));
    [reflexivity|by exists 0%nat|reflexivity|reflexivity].
Defined.

Example small_reply :
  pending_messages (task_end toy_size busy 0 (HReturn [3])) = pending_messages busy ++ [mkRequest call_a (UnaryResponse (URes [3]))].
Proof. reflexivity. Qed.
