(* ===== verification/Daemon.v ===== *)
(** * One-shot requests to the p2p daemon ([control.py], [datastructures.py], [mesh/proto/p2pd.proto])

    Where the daemon listens ([DaemonConnector], [parse_conn_protocol]), the requests that use a connection of their own,
    and the stream handlers.  A connection is the bytes the daemon answers; what is written is returned.  Protobuf's
    serializer and parser are parameters. *)

From S2P Require Import Prelude DHTID Base58 HashTable Framing PeerIdentity Text Base32 CID Multiaddr MultiaddrFacts.

(** ** Where to connect *)

Definition P_IP4 : Z := 4.
Definition P_TCP : Z := 6.
Definition P_UNIX : Z := 400.
Definition SUPPORT_CONN_PROTOCOLS : list Z := [P_IP4; P_UNIX].

Inductive Target : Type := UnixPath (path : option text) | Tcp (host : option text) (port : Z).

Section Connector.
Context `{Varint} `{Multiformats} `{Unicode} `{NetAddr} `{Idna}.

(** The message of the error prints the address, which may raise itself. *)
Definition parse_conn_protocol (maddr : Multiaddr) : result Z :=
  let* protos := gen_end (keys maddr) in
  match filter (fun c => c ∈ map code protos) SUPPORT_CONN_PROTOCOLS with
  | [proto] => Ok proto
  | _ => let* _ := multiaddr_str maddr in Raise ValueError
  end.

(** [open_connection] and [listen]: the socket they use. *)
Definition connection_target (maddr : Multiaddr) (proto_code : Z) : result Target :=
  if proto_code =? P_UNIX then
    let* path := value_for_protocol maddr (PCode P_UNIX) in Ok (UnixPath path)
  else if proto_code =? P_IP4 then
    let* host := value_for_protocol maddr (PCode P_IP4) in
    let* port := value_for_protocol maddr (PCode P_TCP) in
    match port with
    | Some p => let* port := py_int p in Ok (Tcp host port)
    | None => Raise TypeError
    end
  else Raise ValueError.

Definition open_connection (control_maddr : Multiaddr) : result Target :=
  let* proto_code := parse_conn_protocol control_maddr in connection_target control_maddr proto_code.
End Connector.

(** ** Requests and responses *)

Inductive DRequest : Type :=
  | IDENTIFY
  | CONNECT (peer : bytes) (addrs : list bytes)
  | STREAM_OPEN (peer : bytes) (proto : list string)
  | STREAM_HANDLER (addr : bytes) (proto : list string) (balanced : bool)
  | REMOVE_STREAM_HANDLER (addr : bytes) (proto : list string)
  | LIST_PEERS
  | DISCONNECT (peer : bytes)
  | PERSISTENT_CONN_UPGRADE.

(** [Response.Type]: [OK] is 0 and [ERROR] is 1. *)
Record DResponse : Type := mkDResponse {
  rtype : Z;
  error_msg : text;
  identify_id : bytes;
  identify_addrs : list bytes;
  stream_peer : bytes;
  stream_addr : bytes;
  stream_proto : string;
  peers : list (bytes * list bytes);
}.

Record StreamInfo : Type := mkStreamInfo { si_peer : PeerID; si_addr : Multiaddr; si_proto : string }.
Record PeerInfo : Type := mkPeerInfo { pi_peer : PeerID; pi_addrs : list Multiaddr }.

(** [Multiaddr(b)] for the bytes of a message *)
Definition maddr_of (b : bytes) : Multiaddr := mkMultiaddr b REGISTRY.

(** [StreamInfo.from_protobuf], [StreamInfo.to_protobuf] and [PeerInfo.from_protobuf] *)
Definition stream_info_of (peer addr : bytes) (proto : string) : StreamInfo := mkStreamInfo (PeerID_init peer) (maddr_of addr) proto.
Definition stream_info_to (i : StreamInfo) : bytes * bytes * string := (peer_bytes (si_peer i), addr_bytes (si_addr i), si_proto i).
Definition peer_info_of (p : bytes * list bytes) : PeerInfo := mkPeerInfo (PeerID_init p.1) (map maddr_of p.2).

(** [raise_if_failed] *)
Definition raise_if_failed (response : DResponse) : result unit :=
  if rtype response =? 1 then Raise ControlFailure else Ok tt.

(** [n == s] for an enumeration value, which is an [int], and a [str] *)
Definition enum_eq_str (n : Z) (s : string) : bool := false.

Section Requests.
Context (serialize : DRequest -> bytes) (parse : bytes -> result DResponse).

(** Write a request and read the response: what was written, the response, and the rest of the connection. *)
Definition exchange (req : DRequest) (reader : bytes) : result (bytes * DResponse * bytes) :=
  let* written := write_pbmsg serialize req in
  let* (resp, reader) := read_pbmsg_safe parse reader in
  Ok (written, resp, reader).

(** [open_persistent_connection]: the connection that remains. *)
Definition open_persistent_connection (reader : bytes) : result bytes :=
  let* (_, response, reader) := exchange PERSISTENT_CONN_UPGRADE reader in
  if enum_eq_str (rtype response) "ERROR" then Raise P2PDaemonError else Ok reader.

(** A request whose response is only checked. *)
Definition checked (req : DRequest) (reader : bytes) : result (DResponse * bytes) :=
  let* (_, resp, reader) := exchange req reader in
  let* _ := raise_if_failed resp in
  Ok (resp, reader).

Definition identify (reader : bytes) : result (PeerID * list Multiaddr) :=
  let* (resp, _) := checked IDENTIFY reader in
  Ok (PeerID_init (identify_id resp), map maddr_of (identify_addrs resp)).

Definition connect (peer_id : PeerID) (maddrs : list Multiaddr) (reader : bytes) : result unit :=
  let* _ := checked (CONNECT (peer_bytes peer_id) (map addr_bytes maddrs)) reader in Ok tt.

Definition list_peers (reader : bytes) : result (list PeerInfo) :=
  let* (resp, _) := checked LIST_PEERS reader in Ok (map peer_info_of (peers resp)).

Definition disconnect (peer_id : PeerID) (reader : bytes) : result unit :=
  let* _ := checked (DISCONNECT (peer_bytes peer_id)) reader in Ok tt.

(** The stream itself is the rest of the connection. *)
Definition stream_open (peer_id : PeerID) (protocols : list string) (reader : bytes) : result (StreamInfo * bytes) :=
  let* (resp, reader) := checked (STREAM_OPEN (peer_bytes peer_id) protocols) reader in
  Ok (stream_info_of (stream_peer resp) (stream_addr resp) (stream_proto resp), reader).

(** The stream handlers of the process: a handler is registered before the daemon is asked, and forgotten after. *)
Definition stream_handler (handlers : pydict string nat) (listen_maddr : Multiaddr) (proto : string) (handler_cb : nat)
    (balanced : bool) (reader : bytes) : pydict string nat * result unit :=
  (dset handlers proto handler_cb,
   let* _ := checked (STREAM_HANDLER (addr_bytes listen_maddr) [proto] balanced) reader in Ok tt).

Definition remove_stream_handler (handlers : pydict string nat) (listen_maddr : Multiaddr) (proto : string) (reader : bytes)
    : pydict string nat * result unit :=
  match checked (REMOVE_STREAM_HANDLER (addr_bytes listen_maddr) [proto]) reader with
  | Raise e => (handlers, Raise e)
  | Ok _ =>
      match pydel handlers proto with
      | Ok handlers => (handlers, Ok tt)
      | Raise e => (handlers, Raise e)
      end
  end.
End Requests.

(** [_handler]: the handler of an incoming stream and the stream it is given *)
Definition dispatch (parse_info : bytes -> result (bytes * bytes * string)) (handlers : pydict string nat) (reader : bytes)
    : result (nat * StreamInfo * bytes) :=
  let* (info, reader) := read_pbmsg_safe parse_info reader in
  let '(peer, addr, proto) := info in
  match dget handlers proto with
  | Some handler => Ok (handler, stream_info_of peer addr proto, reader)
  | None => Raise DispatchFailure
  end.

(** * Theorems *)

Section Addresses.
Context `{VL : VarintLaws} `{ML : MultiformatsLaws} `{U : Unicode} `{NL : NetAddrLaws} `{IL : IdnaLaws}.

Definition proto_ip4 : Protocol := mkProtocol 4 (lit "ip4") (Some "ip4"%string) 0.
Definition proto_tcp : Protocol := mkProtocol 6 (lit "tcp") (Some "uint16be"%string) 1.
Definition codec_ip4 : Codec := mkCodec 32 false (fun _ => ip_to_bytes 4) (fun _ => ip_to_string 4).
Definition codec_tcp : Codec := mkCodec 16 false (fun _ => uint16be_to_bytes) (fun _ => uint16be_to_string).

Lemma protos_good : good_protocol proto_ip4 /\ good_protocol proto_tcp.
Proof. pose proof PROTOCOLS_good as Hg. rewrite Forall_forall in Hg. split; apply Hg; apply (bool_decide_eq_true_1 (_ ∈ PROTOCOLS)); vm_compute; reflexivity. Qed.

Lemma tcp_components (host port : text) (n p : Z) :
  host <> [] -> (47 ∉ host) -> port <> [] -> (47 ∉ port) -> ip_parse 4 host = Ok n -> py_int port = Ok p -> 0 <= p < 65536 ->
  let cs := [(proto_ip4, codec_ip4, Some host); (proto_tcp, codec_tcp, Some port)] in
  exists bs its, good cs /\ mapM_r component_bytes cs = Ok bs /\ string_to_bytes (lit "/ip4/" ++ host ++ lit "/tcp/" ++ port) = Ok (mjoin bs) /\
    bytes_iter (mjoin bs) = (its, None) /\ laid_out (length (mjoin bs)) cs bs its.
Proof.
  intros Hh H47 Hp H47p Hip Hint Hr cs. destruct protos_good as [Hg1 Hg2].
  assert (Hg : good cs) by (apply good_value; try done; apply good_value; try done; constructor).
  assert (E1 : ip_to_bytes 4 host = Ok (to_be 4 n)). { unfold ip_to_bytes. rewrite Hip. cbn [rbind]. rewrite ip_packed_be by (by eapply ip_parse_range). done. }
  assert (E2 : uint16be_to_bytes port = Ok (to_be 2 p)).
  { unfold uint16be_to_bytes. rewrite Hint. cbn [rbind]. unfold pack_H. by rewrite (proj2 (Z.leb_le _ _)), (proj2 (Z.ltb_lt _ _)) by lia. }
  assert (Hb : mapM_r component_bytes cs = Ok [varint_encode 4 ++ [] ++ to_be 4 n; varint_encode 6 ++ [] ++ to_be 2 p]).
  { unfold cs. cbn [mapM_r component_bytes codec_to_bytes codec_ip4 codec_tcp]. rewrite E1, E2. reflexivity. }
  assert (Hv : Forall (fun x : component => match x with (_, _, Some v) => v <> [] | _ => True end) cs) by (repeat apply Forall_cons_2; done || apply Forall_nil_2).
  destruct (string_to_bytes_elements cs _ Hg ltac:(done) Hv Hb) as [_ Hs].
  assert (Htext : join_with 47 ([] :: elements cs) = lit "/ip4/" ++ host ++ lit "/tcp/" ++ port).
  { unfold cs, elements. cbn [map component_elements codec_ip4 codec_tcp IS_PATH proto_ip4 proto_tcp pname].
    change (mjoin [[lit "ip4"; host]; [lit "tcp"; port]]) with [lit "ip4"; host; lit "tcp"; port]. rewrite !join_cons. reflexivity. }
  rewrite Htext in Hs.
  assert (Hsz : Forall sized cs).
  { repeat apply Forall_cons_2; [..|apply Forall_nil_2]; (apply plain_sized; [split_and!; done|intros [Hc|Hc]; discriminate Hc]). }
  assert (Hl : length (varint_encode 4) = 1%nat /\ length (varint_encode 6) = 1%nat) by (by rewrite !varint_small by lia). destruct Hl as [Hl1 Hl2].
  destruct (bytes_iter_laid_out cs (good_components _ Hg) _ (length (mjoin [varint_encode 4 ++ [] ++ to_be 4 n; varint_encode 6 ++ [] ++ to_be 2 p]))
              (length (mjoin [varint_encode 4 ++ [] ++ to_be 4 n; varint_encode 6 ++ [] ++ to_be 2 p])) Hb Hsz) as (its & Hits & Hlo); [|lia|].
  { change (mjoin [?a; ?b]) with (a ++ b ++ []). rewrite !length_app, !length_to_be, Hl1, Hl2. simpl. lia. }
  eauto 10.
Qed.

(** What an address [/ip4/HOST/tcp/PORT] is read as. *)
Lemma tcp_address (host port : text) (n p : Z) :
  host <> [] -> (47 ∉ host) -> port <> [] -> (47 ∉ port) -> ip_parse 4 host = Ok n -> py_int port = Ok p -> 0 <= p < 65536 ->
  exists m, new_multiaddr (AddrStr (lit "/ip4/" ++ host ++ lit "/tcp/" ++ port)) REGISTRY = Ok m /\ registry m = REGISTRY /\
    keys m = ([proto_ip4; proto_tcp], None) /\
    items m = ([(proto_ip4, Some (ip_str 4 n)); (proto_tcp, Some (str_nat p))], None).
Proof.
  intros Hh H47 Hp H47p Hip Hint Hr. destruct (tcp_components host port n p) as (bs & its & Hg & Hb & Hs & Hits & Hlo); [done..|].
  exists (mkMultiaddr (mjoin bs) REGISTRY). cbn [new_multiaddr]. rewrite Hs. split; [done|].
  inversion Hlo as [|? ? ? ? b1 bs1 part1 its1 Hx1 Hb1 Hp1 Hlo1]; subst. inversion Hlo1 as [|? ? ? ? b2 bs2 part2 its2 Hx2 Hb2 Hp2 Hlo2]; subst.
  inversion Hlo2; subst. cbn [component_part codec_to_bytes codec_ip4 codec_tcp] in Hp1, Hp2. pose proof (ip_parse_range _ _ _ Hip) as Hn.
  assert (S1 : ip_to_string 4 part1 = Ok (ip_str 4 n)).
  { destruct (ip_bytes _ _ _ Hp1) as (n' & Hn' & ->). unfold ip_to_bytes in Hp1. rewrite Hip in Hp1. cbn [rbind] in Hp1. rewrite ip_packed_be in Hp1 by done.
    assert (E : to_be (ip_width 4) n = to_be (ip_width 4) n') by congruence. unfold ip_to_string. rewrite <- E.
    rewrite from_be_to_be, Z.mod_small by (rewrite <- pow_256_8 by lia; done). by rewrite ip_of_int_ok. }
  assert (S2 : uint16be_to_string part2 = Ok (str_nat p)).
  { unfold uint16be_to_bytes in Hp2. rewrite Hint in Hp2. cbn [rbind] in Hp2. destruct (pack_H p) as [x|] eqn:Ep; [|done].
    assert (x = part2) as -> by congruence. destruct (pack_H_bytes _ _ Ep) as [_ ->]. unfold uint16be_to_string. rewrite length_to_be.
    cbn [Nat.eqb negb]. by rewrite unpack_pack. }
  split; [done|]. split.
  - unfold keys. cbn [addr_bytes]. by rewrite Hits.
  - unfold items. cbn [addr_bytes]. rewrite Hits. cbn [gen_map component_item codec_ip4 codec_tcp SIZE Z.eqb codec_to_string]. rewrite S1, S2. done.
Qed.

Lemma same_protocol_refl q : same_protocol q q = Ok true.
Proof. unfold same_protocol, same_object. by rewrite bool_decide_true. Qed.

(** The daemon is reached where its address says: an address [/ip4/HOST/tcp/PORT] is read, its connection protocol is
    IPv4, and the connection goes to the printed form of the host and to the port. *)
Theorem control_address_resolves (host port : text) (n p : Z) :
  host <> [] -> (47 ∉ host) -> port <> [] -> (47 ∉ port) -> ip_parse 4 host = Ok n -> py_int port = Ok p -> 0 <= p < 65536 ->
  exists m, new_multiaddr (AddrStr (lit "/ip4/" ++ host ++ lit "/tcp/" ++ port)) REGISTRY = Ok m /\
    parse_conn_protocol m = Ok P_IP4 /\ open_connection m = Ok (Tcp (Some (ip_str 4 n)) p).
Proof.
  intros Hh H47 Hp H47p Hip Hint Hr. destruct (tcp_address host port n p) as (m & Hm & Hreg & Hk & Hi); [done..|].
  exists m. split; [done|].
  assert (Hc : parse_conn_protocol m = Ok P_IP4) by (unfold parse_conn_protocol; rewrite Hk; reflexivity).
  split; [done|]. unfold open_connection. rewrite Hc. cbn [rbind]. unfold connection_target. change (P_IP4 =? P_UNIX) with false. change (P_IP4 =? P_IP4) with true. cbv iota.
  unfold value_for_protocol. rewrite Hreg, Hi.
  change (find REGISTRY (PCode P_IP4)) with (Ok proto_ip4). change (find REGISTRY (PCode P_TCP)) with (Ok proto_tcp). cbn [rbind value_loop].
  assert (Hdiff : same_protocol proto_ip4 proto_tcp = Ok false) by reflexivity.
  rewrite !same_protocol_refl, Hdiff. cbn [rbind]. rewrite py_int_str by lia. done.
Qed.
End Addresses.

Section Responses.
Context (serialize : DRequest -> bytes) (encode : DResponse -> bytes) (parse : bytes -> result DResponse).
Hypothesis small_requests : forall q, Z.of_nat (length (serialize q)) < 2 ^ 64.

(** A response that the parser reads back, as the daemon sends it. *)
Definition framed (resp : DResponse) (frame : bytes) : Prop :=
  write_pbmsg encode resp = Ok frame /\ parse (encode resp) = Ok resp.

Lemma exchange_reads req resp frame rest : framed resp frame ->
  exists written, exchange serialize parse req (frame ++ rest) = Ok (written, resp, rest) /\ write_pbmsg serialize req = Ok written.
Proof using small_requests.
  intros [Hf Hp]. unfold exchange.
  assert (Hw : exists w, write_pbmsg serialize req = Ok w).
  { unfold write_pbmsg, write_unsigned_varint. rewrite (proj2 (Z.ltb_ge _ _)), (proj2 (Z.leb_gt _ _)); [cbn; eauto|apply small_requests|lia]. }
  destruct Hw as [w Hw]. exists w. rewrite Hw. cbn [rbind]. split; [|done]. unfold write_pbmsg in Hf. apply rbind_ok in Hf as (sz & Hsz & Hf).
  assert (frame = sz ++ encode resp) as -> by congruence.
  assert (Hlt : 0 <= Z.of_nat (length (encode resp)) < 2 ^ 64).
  { unfold write_unsigned_varint in Hsz. destruct (_ <? 0); [done|]. destruct (Z.leb_spec (Z.shiftl 1 DEFAULT_MAX_BITS) (Z.of_nat (length (encode resp)))); [done|].
    change (Z.shiftl 1 DEFAULT_MAX_BITS) with (2 ^ 64) in *. lia. }
  destruct (varint_read_back (Z.of_nat (length (encode resp))) 64 (encode resp ++ rest)) as (b & Hb & Hr); [lia|done|].
  change DEFAULT_MAX_BITS with 64 in Hsz. rewrite Hsz in Hb. injection Hb as <-. unfold read_pbmsg_safe. rewrite <- app_assoc. change DEFAULT_MAX_BITS with 64. rewrite Hr. cbn [rbind].
  unfold readexactly. rewrite Nat2Z.id, length_app, (proj2 (Nat.ltb_ge _ _)) by lia. rewrite take_app_length, drop_app_length. cbn [rbind]. by rewrite Hp.
Qed.

Lemma checked_reads req resp frame rest : framed resp frame ->
  checked serialize parse req (frame ++ rest) = if rtype resp =? 1 then Raise ControlFailure else Ok (resp, rest).
Proof using small_requests.
  intros Hf. destruct (exchange_reads req resp frame rest Hf) as (w & Hx & _). unfold checked. rewrite Hx. cbn [rbind]. unfold raise_if_failed.
  by destruct (rtype resp =? 1).
Qed.

(** The daemon's answers are what the client returns: identity, peers and streams are those of the response, and a
    response that reports an error raises a [ControlFailure] in every request. *)
Theorem daemon_answers_returned (resp : DResponse) (frame rest : bytes) (p : PeerID) (addrs : list Multiaddr) (protocols : list string) :
  framed resp frame ->
  (rtype resp = 1 ->
     identify serialize parse (frame ++ rest) = Raise ControlFailure /\ connect serialize parse p addrs (frame ++ rest) = Raise ControlFailure /\
     list_peers serialize parse (frame ++ rest) = Raise ControlFailure /\ disconnect serialize parse p (frame ++ rest) = Raise ControlFailure /\
     stream_open serialize parse p protocols (frame ++ rest) = Raise ControlFailure) /\
  (rtype resp <> 1 ->
     identify serialize parse (frame ++ rest) = Ok (PeerID_init (identify_id resp), map maddr_of (identify_addrs resp)) /\
     connect serialize parse p addrs (frame ++ rest) = Ok tt /\
     list_peers serialize parse (frame ++ rest) = Ok (map peer_info_of (peers resp)) /\ disconnect serialize parse p (frame ++ rest) = Ok tt /\
     exists i, stream_open serialize parse p protocols (frame ++ rest) = Ok (i, rest) /\
       stream_info_to i = (stream_peer resp, stream_addr resp, stream_proto resp)).
Proof using small_requests.
  intros Hf. unfold identify, connect, list_peers, disconnect, stream_open. rewrite !(fun q => checked_reads q resp frame rest Hf). split; intros Ht.
  - rewrite Ht. done.
  - rewrite (proj2 (Z.eqb_neq _ _) Ht). cbn [rbind]. split_and!; try done. eexists. split; [reflexivity|]. done.
Qed.

(** A refused upgrade goes unnoticed: when the daemon answers the request for a persistent connection with an error, the
    client takes the connection for established, since it compares the number of the response type with a text. *)
Theorem refused_upgrade_unnoticed (resp : DResponse) (frame rest : bytes) :
  framed resp frame -> rtype resp = 1 -> open_persistent_connection serialize parse (frame ++ rest) = Ok rest.
Proof using small_requests.
  intros Hf _. destruct (exchange_reads PERSISTENT_CONN_UPGRADE resp frame rest Hf) as (w & Hx & _).
  unfold open_persistent_connection. rewrite Hx. done.
Qed.

(** A stream handler stays registered when the daemon refuses it; removing one that is not registered fails only after
    the daemon was asked. *)
Lemma stream_handler_registered (handlers : pydict string nat) (listen : Multiaddr) (proto : string) (h : nat) (b : bool)
  (resp : DResponse) (frame rest : bytes) :
  framed resp frame ->
  dget (stream_handler serialize parse handlers listen proto h b (frame ++ rest)).1 proto = Some h /\
  (rtype resp = 1 -> (stream_handler serialize parse handlers listen proto h b (frame ++ rest)).2 = Raise ControlFailure) /\
  (rtype resp <> 1 -> dget handlers proto = None ->
     remove_stream_handler serialize parse handlers listen proto (frame ++ rest) = (handlers, Raise KeyError)).
Proof using small_requests.
  intros Hf. unfold stream_handler, remove_stream_handler. cbn [fst snd]. rewrite !(fun q => checked_reads q resp frame rest Hf). split_and!.
  - apply dget_dset_eq.
  - intros ->. done.
  - intros Ht Hd. rewrite (proj2 (Z.eqb_neq _ _) Ht). unfold pydel. by rewrite (proj2 (dmem_false _ _)).
Qed.
End Responses.

(** ** Witnesses *)

#[local] Existing Instances leb_varint leb_varint_laws Toy.multiformats Toy.multiformats_laws Toy.unicode.
#[local] Existing Instances ToyAddr.netaddr ToyAddr.netaddr_laws ToyAddr.idna ToyAddr.idna_laws.

Lemma control_address_resolves_witness :
  exists m, new_multiaddr (AddrStr (lit "/ip4/127.0.0.1/tcp/5001")) REGISTRY = Ok m /\ open_connection m = Ok (Tcp (Some (lit "127.0.0.1")) 5001).
Proof.
  destruct (control_address_resolves (lit "127.0.0.1") (lit "5001") 2130706433 5001) as (m & H1 & _ & H2);
    [done|apply (bool_decide_eq_false_1 (47 ∈ _)); vm_compute; reflexivity|done|apply (bool_decide_eq_false_1 (47 ∈ _)); vm_compute; reflexivity
    |vm_compute; reflexivity|vm_compute; reflexivity|lia|].
  exists m. split; [exact H1|]. rewrite H2. vm_compute. reflexivity.
Defined.

(** The default addresses *)
Example default_socket :
  (let* m := new_multiaddr (AddrStr (lit "/unix/tmp/p2pd.sock")) REGISTRY in open_connection m) = Ok (UnixPath (Some (lit "/tmp/p2pd.sock"))).
Proof. vm_compute. reflexivity. Qed.

Example two_protocols :
  (let* m := new_multiaddr (AddrStr (lit "/ip4/1.2.3.4/unix/tmp/x")) REGISTRY in open_connection m) = Raise ValueError.
Proof. vm_compute. reflexivity. Qed.

(** Responses of which only the type and the identifier are sent. *)
Definition toy_encode (r : DResponse) : bytes := rtype r :: identify_id r.
Definition toy_parse (b : bytes) : result DResponse :=
  match b with t :: id => Ok (mkDResponse t [] id [] [] [] "" []) | [] => Raise ValueError end.
Definition toy_serialize (q : DRequest) : bytes := match q with IDENTIFY => [0] | PERSISTENT_CONN_UPGRADE => [9] | _ => [] end.

Lemma toy_requests (q : DRequest) : Z.of_nat (length (toy_serialize q)) < 2 ^ 64.
Proof. by destruct q. Qed.

Lemma daemon_answers_returned_witness :
  identify toy_serialize toy_parse ([4; 0; 1; 2; 3] ++ [77]) = Ok (PeerID_init [1; 2; 3], []).
Proof.
  refine (proj1 (proj2 (daemon_answers_returned toy_serialize toy_encode toy_parse toy_requests (mkDResponse 0 [] [1; 2; 3] [] [] [] "" [])
    [4; 0; 1; 2; 3] [77] (PeerID_init []) [] [] _) _)); [by split|done].
Defined.

Lemma refused_upgrade_unnoticed_witness : open_persistent_connection toy_serialize toy_parse ([1; 1] ++ []) = Ok [].
Proof.
  apply (refused_upgrade_unnoticed toy_serialize toy_encode toy_parse toy_requests (mkDResponse 1 [] [] [] [] [] "" []) [1; 1] []); [by split|done].
Defined.
