(* ===== verification/P2P.v ===== *)
(** * The daemon's owner and the RPC servicers ([mesh/p2p/p2p_daemon.py], [mesh/p2p/servicer.py])

    [P2P] starts the daemon: it checks the addresses to announce, makes the command line and waits for the line
    [Peer ID:] in the daemon's output.  [ServicerBase] registers the [rpc_*] methods of a class as handlers and makes stubs that
    call them on other peers.  What [inspect] reports of a class (its methods, their parameters and annotations) is an
    argument; texts are lists of code points. *)

From S2P Require Import Prelude DHTID Base58 HashTable Framing PeerIdentity Text Base32 CID Multiaddr MultiaddrFacts Control Daemon.

(** ** [P2P.create] *)

Section Create.
Context `{Varint} `{Multiformats} `{Unicode} `{NetAddr} `{Idna}.

(** [name in addr and addr[name] == '0'] *)
Definition port_is_zero (addr : Multiaddr) (name : text) : result bool :=
  let* present := contains addr (PName name) in
  if present then let* v := value_for_protocol addr (PName name) in Ok (bool_decide (v = Some (lit "0"))) else Ok false.

(** The check of [announce_maddrs] *)
Fixpoint check_announced (announce_maddrs : list AddrArg) : result unit :=
  match announce_maddrs with
  | [] => Ok tt
  | a :: rest =>
      let* addr := new_multiaddr a REGISTRY in
      let* tcp := port_is_zero addr (lit "tcp") in
      let* zero := if tcp then Ok true else port_is_zero addr (lit "udp") in
      if zero then Raise ValueError else check_announced rest
  end.

(** A value of the command line. *)
Inductive ArgVal : Type := VText (s : text) | VBool (b : bool) | VInt (n : Z) | VNone.

Definition str_int (n : Z) : text := if n <? 0 then 45 :: str_nat (- n) else str_nat n.

(** [_convert_process_arg_type] and the formatting of the result *)
Definition convert_process_arg_type (v : ArgVal) : ArgVal := match v with VBool b => VInt (if b then 1 else 0) | _ => v end.
Definition format_value (v : ArgVal) : text :=
  match v with
  | VText s => s
  | VBool b => if b then lit "True" else lit "False"
  | VInt n => str_int n
  | VNone => lit "None"
  end.

(** [_make_process_args] *)
Definition process_arg (kv : text * ArgVal) : text :=
  match kv.2 with
  | VNone => 45 :: kv.1
  | v => 45 :: kv.1 ++ 61 :: format_value (convert_process_arg_type v)
  end.
Definition make_process_args (args : list text) (kwargs : pydict text ArgVal) : list text := args ++ map process_arg kwargs.

(** [_maddrs_to_str]; an element is an address or its text. *)
Definition addr_text (a : AddrArg) : result text :=
  match a with AddrStr s => Ok s | AddrObj m => multiaddr_str m | _ => Raise TypeError end.
Definition maddrs_to_str (maddrs : list AddrArg) : result text := let* ss := mapM_r addr_text maddrs in Ok (join_with 44 ss).

Definition DHT_MODE_MAPPING : pydict text (pydict text ArgVal) :=
  [(lit "auto", [(lit "dht", VInt 1)]); (lit "server", [(lit "dhtServer", VInt 1)]); (lit "client", [(lit "dhtClient", VInt 1)])].
Definition FORCE_REACHABILITY_MAPPING : pydict text (pydict text ArgVal) :=
  [(lit "public", [(lit "forceReachabilityPublic", VInt 1)]); (lit "private", [(lit "forceReachabilityPrivate", VInt 1)])].

(** One pair of the loop over the address parameters: [if value: process_kwargs[param] = ...] *)
Definition add_addresses (kw : pydict text ArgVal) (pv : text * list AddrArg) : result (pydict text ArgVal) :=
  match pv.2 with
  | [] => Ok kw
  | value => let* s := maddrs_to_str value in Ok (dset kw pv.1 (VText s))
  end.

(** [process_kwargs] before the identity is added *)
Definition process_kwargs (dht_mode : text) (force_reachability : option text) (initial_peers host_maddrs announce_maddrs trusted_relays : list AddrArg)
    (no_listen : bool) : result (pydict text ArgVal) :=
  let* kw := dgetitem DHT_MODE_MAPPING dht_mode in
  let kw := dupdate kw (match force_reachability with
                        | Some f => match dget FORCE_REACHABILITY_MAPPING f with Some d => d | None => [] end
                        | None => []
                        end) in
  let* kw := foldM_r add_addresses kw [(lit "bootstrapPeers", initial_peers); (lit "hostAddrs", host_maddrs);
                                       (lit "announceAddrs", announce_maddrs); (lit "trustedRelays", trusted_relays)] in
  Ok (if no_listen then dset kw (lit "noListenAddrs") (VInt 1) else kw).

(** [get_visible_maddrs]: [identified] is the daemon's answer when [latest] is set. *)
Definition get_visible_maddrs (peer_id : PeerID) (visible : list Multiaddr) (latest : option (list Multiaddr)) : result (list Multiaddr) :=
  let visible := match latest with Some l => l | None => visible end in
  match visible with
  | [] => Raise ValueError
  | _ =>
      let* p2p_maddr := new_multiaddr (AddrStr (lit "/p2p/" ++ to_base58 peer_id)) REGISTRY in
      mapM_r (fun addr => encapsulate addr (AddrObj p2p_maddr)) visible
  end.
End Create.

(** [wait_for_at_least_n_peers]: [answers] are the numbers of peers that the daemon reports, one per attempt; the number
    of attempts made. *)
Fixpoint wait_for_at_least_n_peers (n_peers : Z) (attempts : nat) (answers : list Z) : result nat :=
  match attempts, answers with
  | O, _ => Raise RuntimeError
  | S k, a :: rest => if n_peers <=? a then Ok 1%nat else rmap S (wait_for_at_least_n_peers n_peers k rest)
  | S _, [] => Raise ControlFailure
  end.

(** ** The daemon's output *)

Inductive ready_state : Type := Pending | Ready | FailedStart.

(** [line.rstrip()] on bytes, and [text.startswith(prefix)] *)
Definition rstrip_spaces (b : bytes) : bytes := reverse (drop_spaces (reverse b)).
Definition startswith (prefix s : text) : bool := bool_decide (take (length prefix) s = prefix).

Definition line_text (line : bytes) : text := let l := rstrip_spaces line in utf8_decode_ignore (length l) l.
Definition is_ready_line (line : bytes) : bool := startswith (lit "Peer ID:") (line_text line).

(** [_read_outputs] until the output is closed: the state of [ready], how the task ended, and the lines it did not read *)
Fixpoint read_outputs (lines : list bytes) (ready : ready_state) : ready_state * option exn * list bytes :=
  match lines with
  | [] => (match ready with Pending => FailedStart | r => r end, None, [])
  | line :: rest =>
      if is_ready_line line then
        match ready with
        | Pending => read_outputs rest Ready
        | _ => (ready, Some InvalidStateError, rest)
        end
      else read_outputs rest ready
  end.

(** ** Servicers *)

(** An annotation: a class, or a generic of [typing] with its [_name] and its arguments. *)
#[warnings="-register-all"] Inductive hint : Type := HType (t : nat) | HGeneric (hname : text) (hargs : list hint).

Record Method : Type := mkMethod { mname : text; margs : list text; mhints : pydict text hint }.
Record RPCHandler : Type := mkRPCHandler {
  method_name : text; request_type : hint; response_type : hint; stream_input : bool; stream_output : bool }.

(** [_strip_iterator_hint] *)
Definition strip_iterator_hint (h : hint) : result (hint * bool) :=
  match h with
  | HGeneric n args =>
      if bool_decide (n ∈ [lit "AsyncIterator"; lit "AsyncIterable"])
      then match args with a :: _ => Ok (a, true) | [] => Raise AttributeError end
      else Ok (h, false)
  | HType _ => Ok (h, false)
  end.

(** The body of the loop of [_collect_rpc_handlers] for one method *)
Definition collect_method (m : Method) : result (option RPCHandler) :=
  if startswith (lit "rpc_") (mname m) then
    match margs m with
    | _ :: request_arg :: _ :: _ =>
        match dget (mhints m) request_arg, dget (mhints m) (lit "return") with
        | Some req, Some resp =>
            let* (req, si) := strip_iterator_hint req in
            let* (resp, so) := strip_iterator_hint resp in
            Ok (Some (mkRPCHandler (mname m) req resp si so))
        | _, _ => Raise ValueError
        end
    | _ => Raise ValueError
    end
  else Ok None.

(** [_collect_rpc_handlers]: the class attribute [_rpc_handlers] is set before the loop, which appends to it. *)
Fixpoint collect_loop (handlers : list RPCHandler) (methods : list Method) : list RPCHandler * option exn :=
  match methods with
  | [] => (handlers, None)
  | m :: rest =>
      match collect_method m with
      | Ok (Some h) => collect_loop (handlers ++ [h]) rest
      | Ok None => collect_loop handlers rest
      | Raise e => (handlers, Some e)
      end
  end.

Definition collect_rpc_handlers (attr : option (list RPCHandler)) (methods : list Method) : option (list RPCHandler) * option exn :=
  match attr with
  | Some _ => (attr, None)
  | None => let '(hs, e) := collect_loop [] methods in (Some hs, e)
  end.

(** [_get_handle_name] *)
Definition get_handle_name (cls : text) (namespace : option text) (method : text) : text :=
  let handle_name := cls ++ 46 :: method in
  match namespace with Some ns => ns ++ [58; 58] ++ handle_name | None => handle_name end.

(** How a handler is registered ([add_protobuf_handler]), and how a stub calls it. *)
Inductive transport : Type := UnaryConn | BinaryStream.
Definition add_protobuf_handler (h : RPCHandler) : transport :=
  if negb (stream_input h) && negb (stream_output h) then UnaryConn else BinaryStream.

(** [add_p2p_handlers]: the daemon's table from names to the transport and the method *)
Definition add_p2p_handlers (cls : text) (namespace : option text) (handlers : list RPCHandler) (table : pydict text (transport * text))
    : pydict text (transport * text) :=
  dupdate table (map (fun h => (get_handle_name cls namespace (method_name h), (add_protobuf_handler h, method_name h))) handlers).

(** What a call returns: one message, or a stream. *)
Inductive answer : Type := OneMessage | Messages.

(** [caller] of [_make_rpc_caller]: the name called, the transport used and the kind of answer; [is_stream] says that
    the input is an asynchronous iterable. *)
Definition caller (cls : text) (namespace : option text) (h : RPCHandler) (is_stream : bool) (timeout : option Z)
    : result (text * transport * answer) :=
  let name := get_handle_name cls namespace (method_name h) in
  if negb (stream_output h) then Ok (name, if is_stream then BinaryStream else UnaryConn, OneMessage)
  else match timeout with Some _ => Raise ValueError | None => Ok (name, BinaryStream, Messages) end.

(** ** Lemmas *)

Section CreateFacts.
Context `{VL : VarintLaws} `{ML : MultiformatsLaws} `{U : Unicode} `{NL : NetAddrLaws} `{IL : IdnaLaws}.

Lemma port_decimal p : 0 <= p -> bool_decide (Some (str_nat p) = Some (lit "0")) = bool_decide (p = 0).
Proof.
  intros Hp. destruct (decide (p = 0)) as [->|Hne]; [reflexivity|]. rewrite !bool_decide_false; [done|done|].
  intros [= E]. pose proof (py_int_str p Hp) as E1. rewrite E in E1. injection E1 as E1. lia.
Qed.

(** Port 0 is not announced: an address [/ip4/HOST/tcp/PORT] is refused if its port, however it is written, is zero, and
    otherwise the check goes on with the rest. *)
Theorem announced_port_checked (host port : text) (n p : Z) (rest : list AddrArg) :
  host <> [] -> (47 ∉ host) -> port <> [] -> (47 ∉ port) -> ip_parse 4 host = Ok n -> py_int port = Ok p -> 0 <= p < 65536 ->
  check_announced (AddrStr (lit "/ip4/" ++ host ++ lit "/tcp/" ++ port) :: rest) =
    if p =? 0 then Raise ValueError else check_announced rest.
Proof.
  intros Hh H47 Hp H47p Hip Hint Hr. destruct (tcp_address host port n p) as (m & Hm & Hreg & Hk & Hi); [done..|].
  cbn [check_announced]. rewrite Hm. cbn [rbind]. unfold port_is_zero, contains, value_for_protocol. rewrite Hreg, Hk, Hi.
  change (find REGISTRY (PName (lit "tcp"))) with (Ok proto_tcp). cbn [rbind contains_loop value_loop].
  assert (Hdiff : same_protocol proto_ip4 proto_tcp = Ok false) by reflexivity. rewrite !Hdiff. cbn [rbind]. rewrite !same_protocol_refl. cbn [rbind].
  rewrite port_decimal by lia. destruct (p =? 0) eqn:E; propify; [by rewrite bool_decide_true|]. rewrite bool_decide_false by done.
  cbn [rbind]. change (find REGISTRY (PName (lit "udp"))) with (find_by_name REGISTRY (lit "udp")).
  destruct (find_by_name REGISTRY (lit "udp")) as [u|] eqn:Eu; [|vm_compute in Eu; done]. vm_compute in Eu. injection Eu as <-.
  reflexivity.
Qed.

(** The visible addresses carry the identifier of the peer: taking it off again gives the daemon's addresses. *)
Lemma visible_maddrs_carry_id (peer_id : PeerID) (visible : list Multiaddr) (p2p : Multiaddr) :
  visible <> [] -> new_multiaddr (AddrStr (lit "/p2p/" ++ to_base58 peer_id)) REGISTRY = Ok p2p ->
  exists l, get_visible_maddrs peer_id visible None = Ok l /\
    Forall2 (fun a w => addr_bytes w = addr_bytes a ++ addr_bytes p2p /\
               exists u, decapsulate w (AddrStr (lit "/p2p/" ++ to_base58 peer_id)) = Ok u /\ multiaddr_eq u a = true) visible l.
Proof.
  intros Hv Hp. unfold get_visible_maddrs. rewrite Hp. cbn [rbind].
  assert (Hl : exists l, mapM_r (fun addr => encapsulate addr (AddrObj p2p)) visible = Ok l /\
    Forall2 (fun a w => addr_bytes w = addr_bytes a ++ addr_bytes p2p /\
               exists u, decapsulate w (AddrStr (lit "/p2p/" ++ to_base58 peer_id)) = Ok u /\ multiaddr_eq u a = true) visible l).
  { clear Hv. induction visible as [|a visible (l & E & Hl)]; [by exists []|]. cbn [mapM_r].
    destruct (decapsulate_encapsulate a (AddrStr (lit "/p2p/" ++ to_base58 peer_id)) p2p Hp) as (w & Hw & Hb & Hd & _).
    assert (Hw' : encapsulate a (AddrObj p2p) = Ok w).
    { unfold encapsulate, join in Hw |- *. cbn [mapM_r] in Hw |- *. rewrite Hp in Hw. exact Hw. }
    rewrite Hw'. cbn [rbind]. rewrite E. eexists. split; [reflexivity|]. constructor; [|done]. by split. }
  by destruct visible.
Qed.
End CreateFacts.

(** The daemon counts as started exactly when it has printed a line that starts with [Peer ID:].  All output is read if there
    is at most one such line; a second one ends the reader with an [InvalidStateError], and the lines after it
    are not read any more. *)
Theorem daemon_ready_iff (lines : list bytes) :
  (fst (fst (read_outputs lines Pending)) = Ready <-> exists l, l ∈ lines /\ is_ready_line l = true) /\
  (fst (fst (read_outputs lines Pending)) <> Ready -> read_outputs lines Pending = (FailedStart, None, [])) /\
  (length (List.filter is_ready_line lines) = 1%nat -> read_outputs lines Pending = (Ready, None, [])) /\
  forall before l rest, lines = before ++ l :: rest -> is_ready_line l = true ->
    length (List.filter is_ready_line before) = 1%nat -> read_outputs lines Pending = (Ready, Some InvalidStateError, rest).
Proof.
  assert (Hready : forall ls, read_outputs ls Ready = (Ready, None, []) \/ exists rest, read_outputs ls Ready = (Ready, Some InvalidStateError, rest)).
  { induction ls as [|l ls IH]; [by left|]. cbn [read_outputs]. destruct (is_ready_line l); [right; by eexists|done]. }
  assert (Hnone : forall ls, List.filter is_ready_line ls = [] -> forall r more, read_outputs (ls ++ more) r = read_outputs more r).
  { induction ls as [|l ls IH]; intros Hf r more; [done|]. cbn in Hf |- *. destruct (is_ready_line l); [done|auto]. }
  assert (Hone : forall ls more, length (List.filter is_ready_line ls) = 1%nat -> read_outputs (ls ++ more) Pending = read_outputs more Ready).
  { induction ls as [|l ls IH]; intros more Hf; [done|]. cbn in Hf |- *. destruct (is_ready_line l); [|auto].
    cbn in Hf. apply Hnone. destruct (List.filter is_ready_line ls); [done|cbn in Hf; lia]. }
  assert (Hcase : fst (fst (read_outputs lines Pending)) = Ready /\ (exists l, l ∈ lines /\ is_ready_line l = true) \/
            read_outputs lines Pending = (FailedStart, None, []) /\ Forall (fun l => is_ready_line l = false) lines).
  { clear Hone. induction lines as [|l ls IH]; [by right|]. cbn [read_outputs]. destruct (is_ready_line l) eqn:El.
    - left. split; [destruct (Hready ls) as [-> |[r ->]]; done|]. exists l. split; [left|done].
    - destruct IH as [[H1 (x & Hx & Hr)]|[H1 H2]]; [left|right]; split; try done; [exists x; split; [by right|done]|by constructor]. }
  split_and!.
  - destruct Hcase as [[H1 H2]|[H1 H2]]; [done|]. rewrite H1. split; [done|]. intros (l & Hl & Hr). rewrite Forall_forall in H2. rewrite H2 in Hr; done.
  - destruct Hcase as [[H1 _]|[H1 _]]; done.
  - intros Hl. rewrite <- (app_nil_r lines). by rewrite Hone.
  - intros before l rest -> Hl Hb. rewrite (Hone before) by done. cbn. by rewrite Hl.
Qed.

(** ** Handler names *)

Lemma split_name_unique (a1 a2 b1 b2 : text) (c : Z) : (c ∉ b1) -> (c ∉ b2) -> a1 ++ c :: b1 = a2 ++ c :: b2 -> a1 = a2 /\ b1 = b2.
Proof.
  intros H1 H2 E. apply (f_equal reverse) in E. rewrite !reverse_app, !reverse_cons, <- !app_assoc in E. cbn [app] in E.
  assert (Hgen : forall x1 x2 y1 y2 : text, (c ∉ x1) -> (c ∉ x2) -> x1 ++ c :: y1 = x2 ++ c :: y2 -> x1 = x2 /\ y1 = y2).
  { induction x1 as [|z x1 IH]; intros [|z2 x2] y1 y2 N1 N2 Ex; cbn in Ex; simplify_eq; [done|set_solver..|].
    destruct (IH x2 y1 y2) as [-> ->]; [set_solver..|done|done]. }
  destruct (Hgen (reverse b1) (reverse b2) (reverse a1) (reverse a2)) as [Eb Ea]; [by rewrite elem_of_reverse..|done|].
  apply (f_equal reverse) in Eb, Ea. by rewrite !reverse_involutive in Eb, Ea.
Qed.

(** An identifier has neither a dot nor a colon. *)
Definition identifier (s : text) : Prop := (46 ∉ s) /\ (58 ∉ s).

Lemma local_name_unique (c1 c2 m1 m2 : text) : identifier c1 -> identifier c2 -> identifier m1 -> identifier m2 ->
  c1 ++ 46 :: m1 = c2 ++ 46 :: m2 -> c1 = c2 /\ m1 = m2.
Proof. intros _ _ [H1 _] [H2 _]. by apply split_name_unique. Qed.

Lemma local_name_no_colon (c m : text) : identifier c -> identifier m -> 58 ∉ c ++ 46 :: m.
Proof. intros [_ H1] [_ H2]. rewrite elem_of_app, elem_of_cons. intros [?|[?|?]]; [done|lia|done]. Qed.

(** Two handlers have the same name only if they are the same method of the same class in the same namespace. *)
Lemma handle_names_distinct (c1 c2 m1 m2 : text) (n1 n2 : option text) :
  identifier c1 -> identifier c2 -> identifier m1 -> identifier m2 ->
  get_handle_name c1 n1 m1 = get_handle_name c2 n2 m2 -> c1 = c2 /\ n1 = n2 /\ m1 = m2.
Proof.
  intros Hc1 Hc2 Hm1 Hm2. pose proof (local_name_no_colon c1 m1 Hc1 Hm1) as N1. pose proof (local_name_no_colon c2 m2 Hc2 Hm2) as N2.
  unfold get_handle_name. intros E. destruct n1 as [ns1|], n2 as [ns2|].
  - assert (E2 : (ns1 ++ [58]) ++ 58 :: (c1 ++ 46 :: m1) = (ns2 ++ [58]) ++ 58 :: (c2 ++ 46 :: m2)) by (by rewrite <- !app_assoc).
    apply split_name_unique in E2 as [En El]; [|done..]. apply app_inj_tail in En as [-> _].
    apply local_name_unique in El as [-> ->]; done.
  - exfalso. apply N2. rewrite <- E. set_solver.
  - exfalso. apply N1. rewrite E. set_solver.
  - apply local_name_unique in E as [-> ->]; done.
Qed.

(** ** Registration and calls *)

Lemma collect_loop_names methods : forall hs hs', collect_loop hs methods = (hs', None) ->
  exists l, hs' = hs ++ l /\ sublist (map method_name l) (map mname methods).
Proof.
  induction methods as [|m ms IH]; intros hs hs' E; cbn [collect_loop] in E.
  - injection E as <-. exists []. by rewrite app_nil_r.
  - destruct (collect_method m) as [[h|]|e] eqn:Em; [|..|done].
    + destruct (IH _ _ E) as (l & -> & Hl). exists (h :: l). rewrite <- app_assoc. split; [done|]. cbn [map].
      assert (method_name h = mname m) as ->; [|by constructor].
      unfold collect_method in Em. destruct (startswith _ _); [|done]. destruct (margs m) as [|? [|? [|? ?]]]; try done.
      repeat case_match; try done. mon_inv. destruct a as [req si]. mon_inv. by destruct a as [resp so]; simplify_eq.
    + destruct (IH _ _ E) as (l & -> & Hl). exists l. split; [done|]. by constructor.
Qed.

Lemma NoDup_map_inj {A B} (f : A -> B) (P : A -> Prop) (l : list A) :
  (forall x y, P x -> P y -> f x = f y -> x = y) -> Forall P l -> NoDup l -> NoDup (map f l).
Proof.
  intros Hf HP Hn. induction Hn as [|x l Hx Hn IH]; cbn [map]; [constructor|]. apply Forall_cons in HP as [Hpx HP].
  constructor; [|auto]. intros (y & Ey & Hy)%list_elem_of_fmap. apply Hx. rewrite (Hf x y); [done|done| |done].
  rewrite Forall_forall in HP. by apply HP.
Qed.

Lemma map_fst_handlers (cls : text) namespace l :
  (map (fun h => (get_handle_name cls namespace (method_name h), (add_protobuf_handler h, method_name h))) l).*1 =
  map (get_handle_name cls namespace) (map method_name l).
Proof. rewrite map_map. induction l as [|x l IH]; [done|]. cbn. by f_equal. Qed.

(** A stub calls what the servicer registers: for every [rpc_*] method of a class, a call of the stub with the declared
    kind of input asks the peer for a name under which, after [add_p2p_handlers] with the same namespace and
    whatever was registered before, this method is found, and it uses the transport (the persistent connection
    or a stream of its own) that the method was registered for.  The answer is a stream iff the method is declared to return
    one; only these calls refuse a timeout. *)
Theorem stub_reaches_method (cls : text) (namespace : option text) (methods : list Method) (hs : list RPCHandler)
    (table : pydict text (transport * text)) (h : RPCHandler) (timeout : option Z) :
  identifier cls -> Forall (fun m => identifier (mname m)) methods -> NoDup (map mname methods) ->
  collect_rpc_handlers None methods = (Some hs, None) -> h ∈ hs -> (stream_output h = true -> timeout = None) ->
  exists name tr, caller cls namespace h (stream_input h) timeout = Ok (name, tr, if stream_output h then Messages else OneMessage) /\
    dget (add_p2p_handlers cls namespace hs table) name = Some (tr, method_name h).
Proof.
  intros Hc Hm Hn Hcol Hh Ht. unfold collect_rpc_handlers in Hcol. destruct (collect_loop [] methods) as [hs' e] eqn:E.
  injection Hcol as -> ->. destruct (collect_loop_names _ _ _ E) as (l & Hl & Hsub). cbn [app] in Hl. subst hs.
  assert (Hid : Forall identifier (map method_name l)).
  { apply Forall_forall. intros x Hx. apply (elem_of_sublist _ _ _ Hx) in Hsub as Hx2. clear Hx. rename Hx2 into Hx. apply list_elem_of_fmap in Hx as (m & -> & Hx).
    rewrite Forall_forall in Hm. by apply Hm. }
  exists (get_handle_name cls namespace (method_name h)), (add_protobuf_handler h). split.
  - unfold caller, add_protobuf_handler. destruct (stream_output h); cbn [negb].
    + rewrite Ht by done. by destruct (stream_input h).
    + by destruct (stream_input h).
  - unfold add_p2p_handlers. apply dget_dupdate_nodup.
    + rewrite map_fst_handlers. apply (NoDup_map_inj _ identifier); [|done|].
      * intros x y Hx Hy Exy. by apply handle_names_distinct in Exy as (_ & _ & ->).
      * by eapply sublist_NoDup.
    + apply list_elem_of_fmap. by exists h.
Qed.

(** A class whose collection has failed is taken for complete afterwards: a method without annotations raises [ValueError]
    once, and the next call finds the handlers collected before it and registers only these. *)
Theorem failed_collection_is_kept (before : list Method) (hs : list RPCHandler) (bad : Method) (rest : list Method) (e : exn) :
  collect_loop [] before = (hs, None) -> collect_method bad = Raise e ->
  let '(attr, raised) := collect_rpc_handlers None (before ++ bad :: rest) in
  raised = Some e /\ collect_rpc_handlers attr (before ++ bad :: rest) = (Some hs, None).
Proof.
  intros Hb Hbad. assert (Hgen : forall hs0 hs1, collect_loop hs0 before = (hs1, None) -> collect_loop hs0 (before ++ bad :: rest) = (hs1, Some e)).
  { clear Hb. induction before as [|m ms IH]; intros hs0 hs1 E; cbn [collect_loop app] in *; [injection E as <-; by rewrite Hbad|].
    destruct (collect_method m) as [[h|]|]; auto; done. }
  unfold collect_rpc_handlers. by rewrite (Hgen _ _ Hb).
Qed.

(** ** Witnesses *)

#[local] Existing Instances leb_varint leb_varint_laws Toy.multiformats Toy.multiformats_laws Toy.unicode.
#[local] Existing Instances ToyAddr.netaddr ToyAddr.netaddr_laws ToyAddr.idna ToyAddr.idna_laws.

Lemma announced_port_checked_witness :
  check_announced [AddrStr (lit "/ip4/127.0.0.1/tcp/00")] = Raise ValueError /\ check_announced [AddrStr (lit "/ip4/127.0.0.1/tcp/80")] = Ok tt.
Proof.
  split.
  - apply (announced_port_checked (lit "127.0.0.1") (lit "00") 2130706433 0 []); try (apply (bool_decide_eq_false_1 (47 ∈ _))); vm_compute; done.
  - apply (announced_port_checked (lit "127.0.0.1") (lit "80") 2130706433 80 []); try (apply (bool_decide_eq_false_1 (47 ∈ _))); vm_compute; done.
Defined.

Definition ready_line : bytes := lit "Peer ID: Qm" ++ [10].
Lemma daemon_ready_iff_witness :
  read_outputs [lit "hello"; ready_line; ready_line; lit "error"] Pending = (Ready, Some InvalidStateError, [lit "error"]).
Proof.
  destruct (daemon_ready_iff [lit "hello"; ready_line; ready_line; lit "error"]) as (_ & _ & _ & Hlast).
  apply (Hlast [lit "hello"; ready_line] ready_line [lit "error"]); vm_compute; reflexivity.
Defined.

Definition method_ping : Method := mkMethod (lit "rpc_ping") [lit "self"; lit "request"; lit "context"] [(lit "request", HType 1); (lit "return", HType 2)].
Definition method_pull : Method :=
  mkMethod (lit "rpc_pull") [lit "self"; lit "request"; lit "context"] [(lit "request", HType 1); (lit "return", HGeneric (lit "AsyncIterator") [HType 2])].
Definition handler_pull : RPCHandler := mkRPCHandler (lit "rpc_pull") (HType 1) (HType 2) false true.

Lemma stub_reaches_method_witness :
  exists name tr, caller (lit "Protocol") None handler_pull false None = Ok (name, tr, Messages) /\
    dget (add_p2p_handlers (lit "Protocol") None [mkRPCHandler (lit "rpc_ping") (HType 1) (HType 2) false false; handler_pull] []) name =
      Some (tr, lit "rpc_pull").
Proof.
  assert (Hid : forall s, bool_decide (46 ∈ s) = false -> bool_decide (58 ∈ s) = false -> identifier s)
    by (intros s E1 E2; split; by apply (bool_decide_eq_false_1 (_ ∈ s))).
  apply (stub_reaches_method (lit "Protocol") None [method_ping; method_pull] _ [] handler_pull None).
  - by apply Hid; vm_compute.
  - repeat apply Forall_cons_2; try apply Forall_nil_2; apply Hid; vm_compute; reflexivity.
  - apply NoDup_cons. split; [|by apply NoDup_singleton]. apply not_elem_of_cons. split; [by vm_compute|apply not_elem_of_nil].
  - vm_compute. reflexivity.
  - right. left.
  - done.
Defined.

Lemma failed_collection_is_kept_witness :
  collect_rpc_handlers (collect_rpc_handlers None [method_pull; mkMethod (lit "rpc_x") [] []]).1 [method_pull; mkMethod (lit "rpc_x") [] []] =
    (Some [handler_pull], None).
Proof.
  exact (proj2 (failed_collection_is_kept [method_pull] [handler_pull] (mkMethod (lit "rpc_x") [] []) [] ValueError ltac:(vm_compute; reflexivity) ltac:(vm_compute; reflexivity))).
Defined.
