(* ===== verification/Routing.v ===== *)
(** * Kademlia routing table ([mesh/dht/routing.py], classes [KBucket] and [RoutingTable])

    A table is a list of buckets that tile the identifier space; a bucket keeps up
    to [size] nodes in least-recently-updated order, and a list of replacements.
    [PeerID] is any type with equality and the order Python uses when it compares
    heap tuples. *)

From S2P Require Import Prelude DHTID.

Section Routing.
Context {PeerID : Type} `{EqP : EqDecision PeerID} `{OrdP : PyOrd PeerID} {LawP : PyOrdLaws PeerID}.

(** ** [KBucket] *)

Record KBucket : Type := mkBucket {
  lower : Z;
  upper : Z;
  size : nat;
  depth : nat;
  nodes_to_peer_id : pydict Z PeerID;
  replacement_nodes : pydict Z PeerID;
  nodes_requested_for_ping : gset Z;
  last_updated : Z;
}.

(** [KBucket.__init__] *)
Definition KBucket_init (now lower upper : Z) (size depth : nat) : result KBucket :=
  let* _ := py_assert (upper - lower =? 2 ^ (HASH_NBYTES * 8 - Z.of_nat depth)) in
  Ok (mkBucket lower upper size depth [] [] ∅ now).

(** [KBucket.has_in_range] *)
Definition has_in_range (b : KBucket) (node_id : Z) : bool :=
  (lower b <=? node_id) && (node_id <? upper b).

(** [KBucket.add_or_update_node] *)
Definition bucket_add_or_update_node (now : Z) (b : KBucket) (node_id : Z) (peer_id : PeerID)
    : KBucket * bool :=
  let pings := nodes_requested_for_ping b ∖ {[node_id]} in
  if dmem (nodes_to_peer_id b) node_id then
    (mkBucket (lower b) (upper b) (size b) (depth b)
       (dset (ddel (nodes_to_peer_id b) node_id) node_id peer_id)
       (replacement_nodes b) pings now, true)
  else if (length (nodes_to_peer_id b) <? size b)%nat then
    (mkBucket (lower b) (upper b) (size b) (depth b)
       (dset (nodes_to_peer_id b) node_id peer_id) (replacement_nodes b) pings now, true)
  else
    let repl := if dmem (replacement_nodes b) node_id
                then ddel (replacement_nodes b) node_id else replacement_nodes b in
    (mkBucket (lower b) (upper b) (size b) (depth b)
       (nodes_to_peer_id b) (dset repl node_id peer_id) pings now, false).

(** [KBucket.request_ping_node]: the first node, in update order, with no ping under way. *)
Definition request_ping_node (b : KBucket) : KBucket * option (Z * PeerID) :=
  match list_find (fun e => e.1 ∉ nodes_requested_for_ping b) (nodes_to_peer_id b) with
  | Some (_, (uid, peer_id)) =>
      (mkBucket (lower b) (upper b) (size b) (depth b) (nodes_to_peer_id b)
         (replacement_nodes b) (nodes_requested_for_ping b ∪ {[uid]}) (last_updated b),
       Some (uid, peer_id))
  | None => (b, None)
  end.

(** [KBucket.__getitem__] *)
Definition bucket_getitem (b : KBucket) (node_id : Z) : result PeerID :=
  if dmem (nodes_to_peer_id b) node_id then dgetitem (nodes_to_peer_id b) node_id
  else dgetitem (replacement_nodes b) node_id.

(** [KBucket.__delitem__] *)
Definition bucket_delitem (b : KBucket) (node_id : Z) : result KBucket :=
  if negb (dmem (nodes_to_peer_id b) node_id || dmem (replacement_nodes b) node_id)
  then Raise KeyError
  else
    let repl := if dmem (replacement_nodes b) node_id
                then ddel (replacement_nodes b) node_id else replacement_nodes b in
    let with_nodes n r := mkBucket (lower b) (upper b) (size b) (depth b) n r
                            (nodes_requested_for_ping b) (last_updated b) in
    if dmem (nodes_to_peer_id b) node_id then
      let nodes := ddel (nodes_to_peer_id b) node_id in
      match dpopitem repl with
      | Some (newnode_id, newnode, repl') =>
          Ok (with_nodes (dset nodes newnode_id newnode) repl')
      | None => Ok (with_nodes nodes repl)
      end
    else Ok (with_nodes (nodes_to_peer_id b) repl).

(** The loop of [KBucket.split]: reassign every node and replacement. *)
Definition assign_node (now midpoint : Z) (lr : KBucket * KBucket) (e : Z * PeerID)
    : KBucket * KBucket :=
  let '(left_, right_) := lr in
  if e.1 <=? midpoint
  then ((bucket_add_or_update_node now left_ e.1 e.2).1, right_)
  else (left_, (bucket_add_or_update_node now right_ e.1 e.2).1).

(** [KBucket.split] *)
Definition split (now : Z) (b : KBucket) : result (KBucket * KBucket) :=
  let midpoint := (lower b + upper b) / 2 in
  let* _ := py_assert ((lower b <? midpoint) && (midpoint <? upper b)) in
  let* left_ := KBucket_init now (lower b) midpoint (size b) (S (depth b)) in
  let* right_ := KBucket_init now midpoint (upper b) (size b) (S (depth b)) in
  Ok (foldl (assign_node now midpoint) (left_, right_)
        (nodes_to_peer_id b ++ replacement_nodes b)).

(** ** [RoutingTable] *)

Record RoutingTable : Type := mkTable {
  node_id : Z;
  bucket_size : nat;
  depth_modulo : nat;
  buckets : list KBucket;
  peer_id_to_uid : pydict PeerID Z;
  uid_to_peer_id : pydict Z PeerID;
}.

Definition set_buckets (t : RoutingTable) (bs : list KBucket) : RoutingTable :=
  mkTable (node_id t) (bucket_size t) (depth_modulo t) bs (peer_id_to_uid t) (uid_to_peer_id t).

(** [RoutingTable.__init__] *)
Definition RoutingTable_init (now node_id : Z) (bucket_size depth_modulo : nat)
    : result RoutingTable :=
  let* b := KBucket_init now MIN MAX bucket_size 0 in
  Ok (mkTable node_id bucket_size depth_modulo [b] [] []).

(** The binary search of [get_bucket_index]; each iteration shrinks the interval. *)
Fixpoint bucket_index_loop (fuel : nat) (bs : list KBucket) (id : Z) (lo hi : nat) : result nat :=
  if (1 <? hi - lo)%nat then
    match fuel with
    | O => Raise RuntimeError
    | S fuel' =>
        let pivot := ((lo + hi + 1) / 2)%nat in
        let* b := of_option IndexError (bs !! pivot) in
        if lower b <=? id then bucket_index_loop fuel' bs id pivot hi
        else bucket_index_loop fuel' bs id lo pivot
    end
  else let* _ := py_assert (hi - lo =? 1)%nat in Ok lo.

(** [RoutingTable.get_bucket_index] *)
Definition get_bucket_index (bs : list KBucket) (id : Z) : result nat :=
  bucket_index_loop (length bs) bs id 0 (length bs).

(** [RoutingTable.split_bucket] *)
Definition split_bucket (now : Z) (t : RoutingTable) (index : nat) : result RoutingTable :=
  let* b := of_option IndexError (buckets t !! index) in
  let* (first, second) := split now b in
  Ok (set_buckets t (take index (buckets t) ++ first :: second :: drop (S index) (buckets t))).

(** [bucket.depth % self.depth_modulo] *)
Definition depth_mod (b : KBucket) (t : RoutingTable) : result nat :=
  match depth_modulo t with
  | O => Raise ZeroDivisionError
  | S _ => Ok (depth b mod depth_modulo t)%nat
  end.

(** [RoutingTable.add_or_update_node]; the recursion follows a split, so its depth is
    bounded by the number of bits of an identifier. *)
Fixpoint add_loop (fuel : nat) (now : Z) (t : RoutingTable) (id : Z) (peer : PeerID)
    : result (RoutingTable * option (Z * PeerID)) :=
  match fuel with
  | O => Raise RuntimeError
  | S fuel' =>
      let* i := get_bucket_index (buckets t) id in
      let* b := of_option IndexError (buckets t !! i) in
      let '(b1, store_success) := bucket_add_or_update_node now b id peer in
      let bs1 := <[i := b1]> (buckets t) in
      let t1 :=
        if dmem (nodes_to_peer_id b1) id || dmem (replacement_nodes b1) id
        then mkTable (node_id t) (bucket_size t) (depth_modulo t) bs1
               (dset (peer_id_to_uid t) peer id) (dset (uid_to_peer_id t) id peer)
        else set_buckets t bs1 in
      if store_success then Ok (t1, None)
      else
        let* may_split :=
          if has_in_range b1 (node_id t) then Ok true
          else let* m := depth_mod b1 t in Ok (negb (m =? 0)%nat) in
        if (may_split : bool) then
          let* t2 := split_bucket now t1 i in add_loop fuel' now t2 id peer
        else
          let '(b2, node) := request_ping_node b1 in
          Ok (set_buckets t1 (<[i := b2]> bs1), node)
  end.

Definition add_or_update_node (now : Z) (t : RoutingTable) (id : Z) (peer : PeerID)
    : result (RoutingTable * option (Z * PeerID)) :=
  add_loop 162 now t id peer.

(** [RoutingTable.get(node_id=...)] and [RoutingTable.get(peer_id=...)] *)
Definition get_by_node_id (t : RoutingTable) (id : Z) : option PeerID := dget (uid_to_peer_id t) id.
Definition get_by_peer_id (t : RoutingTable) (p : PeerID) : option Z := dget (peer_id_to_uid t) p.

(** [node_id in table] *)
Definition contains_node (t : RoutingTable) (id : Z) : bool := dmem (uid_to_peer_id t) id.

(** [RoutingTable.__delitem__] *)
Definition table_delitem (t : RoutingTable) (id : Z) : result RoutingTable :=
  let* i := get_bucket_index (buckets t) id in
  let* b := of_option IndexError (buckets t !! i) in
  let* b' := bucket_delitem b id in
  let* peer := dgetitem (uid_to_peer_id t) id in
  let uids := ddel (uid_to_peer_id t) id in
  let peers := if decide (dget (peer_id_to_uid t) peer = Some id)
               then ddel (peer_id_to_uid t) peer else peer_id_to_uid t in
  Ok (mkTable (node_id t) (bucket_size t) (depth_modulo t) (<[i := b']> (buckets t)) peers uids).

(** ** [RoutingTable.get_nearest_neighbors] *)

(** A candidate: (distance to the query, node id, peer id). *)
Definition candidate : Type := (Z * (Z * PeerID))%type.

Definition candidates_of (query : Z) (b : KBucket) : list candidate :=
  map (fun e => (xor_distance query e.1, e)) (nodes_to_peer_id b).

(** The inner loops: absorb the buckets that lie inside the widened block. *)
Fixpoint absorb_right (query current_upper : Z) (bs : list KBucket) (i : nat)
    (cand : list candidate) : nat * list candidate :=
  match bs with
  | b :: bs' =>
      if upper b <=? current_upper
      then absorb_right query current_upper bs' (S i) (foldl (fun h c => heappush c h) cand (candidates_of query b))
      else (i, cand)
  | [] => (i, cand)
  end.

Fixpoint absorb_left (query current_lower : Z) (bs : list KBucket) (i : nat)
    (cand : list candidate) : nat * list candidate :=
  match bs with
  | b :: bs' =>
      if current_lower <=? lower b
      then absorb_left query current_lower bs' (pred i) (foldl (fun h c => heappush c h) cand (candidates_of query b))
      else (i, cand)
  | [] => (i, cand)
  end.

(** Step 2: climb one level of the tree per iteration until there are enough nodes. *)
Fixpoint climb (bs : list KBucket) (query : Z) (enough : nat)
    (left_index right_index : nat) (lo hi : Z) (current_depth : nat) (cand : list candidate)
    : result (list candidate) :=
  match current_depth with
  | O => Ok cand
  | S d =>
      if (length cand <? enough)%nat then
        let split_direction := (lo / 2 ^ (HASH_NBYTES * 8 - Z.of_nat (S d))) mod 2 in
        if split_direction =? 0 then
          let hi' := hi + (hi - lo) in
          let '(right_index', cand') := absorb_right query hi' (drop right_index bs) right_index cand in
          let* b := of_option IndexError (bs !! pred right_index') in
          let* _ := py_assert (upper b =? hi') in
          climb bs query enough left_index right_index' lo hi' d cand'
        else
          let lo' := lo - (hi - lo) in
          let '(left_index', cand') := absorb_left query lo' (reverse (take left_index bs)) left_index cand in
          let* b := of_option IndexError (bs !! left_index') in
          let* _ := py_assert (lower b =? lo') in
          climb bs query enough left_index' right_index lo' hi d cand'
      else Ok cand
  end.

Definition get_nearest_neighbors (t : RoutingTable) (query : Z) (k : nat) (exclude : option Z)
    : result (list (Z * PeerID)) :=
  let k' := (k + match exclude with Some _ => 1 | None => 0 end)%nat in
  let* i := get_bucket_index (buckets t) query in
  let* b := of_option IndexError (buckets t !! i) in
  let cand := foldl (fun h c => heappush c h) [] (candidates_of query b) in
  let* cand' := climb (buckets t) query k' i (S i) (lower b) (upper b) (depth b) cand in
  let heap_top := nsmallest k' cand' in
  Ok (take k (filter (fun e : Z * PeerID => Some e.1 <> exclude) (map snd heap_top))).

End Routing.
Arguments KBucket : clear implicits.
Arguments RoutingTable : clear implicits.
