(* ===== verification/RoutingFacts.v ===== *)
(** * The routing table tiles the identifier space

    The invariant of a [RoutingTable] (its buckets are aligned dyadic blocks that
    tile the identifier space) and its consequences for bucket lookup and for the
    nearest-neighbour search. *)

From S2P Require Import Prelude DHTID Routing.

Section Tiling.
Context {PeerID : Type} `{EqP : EqDecision PeerID} `{OrdP : PyOrd PeerID} {LawP : PyOrdLaws PeerID}.
Abbreviation KBucket := (KBucket PeerID).
Implicit Types (b : KBucket) (bs : list KBucket) (id : Z).

Definition width (d : nat) : Z := 2 ^ (HASH_NBYTES * 8 - Z.of_nat d).

(** An aligned block of [2^(160 - depth)] identifiers. *)
Definition bucket_ok b : Prop :=
  (depth b <= 160)%nat /\ upper b = lower b + width (depth b) /\ (width (depth b) | lower b).

(** [bs] covers [[lo, hi)] without gaps or overlaps. *)
Fixpoint tiles (lo : Z) bs (hi : Z) : Prop :=
  match bs with
  | [] => lo = hi
  | b :: t => lower b = lo /\ bucket_ok b /\ tiles (upper b) t hi
  end.

Lemma width_pos d : (d <= 160)%nat -> 0 < width d.
Proof. intros. apply Z.pow_pos_nonneg; unfold HASH_NBYTES; lia. Qed.

Lemma width_succ d : (S d <= 160)%nat -> width d = 2 * width (S d).
Proof.
  intros. unfold width, HASH_NBYTES. rewrite <- Z.pow_succ_r by lia. f_equal. lia.
Qed.

Lemma width_0 : width 0 = MAX.
Proof. done. Qed.

Lemma bucket_ok_lt b : bucket_ok b -> lower b < upper b.
Proof. intros (Hd & -> & _). pose proof (width_pos _ Hd). lia. Qed.

Lemma tiles_app lo bs1 bs2 hi :
  tiles lo (bs1 ++ bs2) hi <-> exists mid, tiles lo bs1 mid /\ tiles mid bs2 hi.
Proof.
  revert lo. induction bs1 as [|b t IH]; intros lo; simpl.
  - split; [eauto | by intros (? & -> & ?)].
  - rewrite IH. naive_solver.
Qed.

Lemma tiles_le lo bs hi : tiles lo bs hi -> lo <= hi.
Proof.
  revert lo. induction bs as [|b t IH]; simpl; intros lo; [lia|].
  intros (<- & Hb & Ht). apply IH in Ht. apply bucket_ok_lt in Hb. lia.
Qed.

Lemma tiles_split lo bs hi i b :
  tiles lo bs hi -> bs !! i = Some b ->
  tiles lo (take i bs) (lower b) /\ bucket_ok b /\ tiles (upper b) (drop (S i) bs) hi.
Proof.
  intros Ht Hi. rewrite <- (take_drop_middle bs i b Hi) in Ht.
  apply tiles_app in Ht as (mid & H1 & H2). simpl in H2. destruct H2 as (<- & ? & ?). done.
Qed.

Lemma tiles_take_lower lo bs hi i b :
  tiles lo bs hi -> bs !! i = Some b -> lo <= lower b /\ upper b <= hi.
Proof.
  intros Ht Hi. destruct (tiles_split _ _ _ _ _ Ht Hi) as (H1 & _ & H2).
  apply tiles_le in H1. apply tiles_le in H2. done.
Qed.

Lemma tiles_next lo bs hi i b b' :
  tiles lo bs hi -> bs !! i = Some b -> bs !! S i = Some b' -> lower b' = upper b.
Proof.
  intros Ht Hi Hi'. destruct (tiles_split _ _ _ _ _ Ht Hi) as (_ & _ & H2).
  rewrite (drop_S bs b' (S i)) in H2 by done. by destruct H2 as (-> & _).
Qed.

Lemma tiles_last lo bs hi i b :
  tiles lo bs hi -> bs !! i = Some b -> S i = length bs -> upper b = hi.
Proof.
  intros Ht Hi Hl. destruct (tiles_split _ _ _ _ _ Ht Hi) as (_ & _ & H2).
  rewrite Hl, drop_all in H2. done.
Qed.

(** ** Bucket lookup *)

Lemma bucket_index_done fuel bs id lo glo ghi b0 :
  tiles glo bs ghi -> bs !! lo = Some b0 -> lower b0 <= id ->
  (S lo = length bs /\ id < ghi \/ exists b1, bs !! S lo = Some b1 /\ id < lower b1) ->
  exists i b, bucket_index_loop fuel bs id lo (S lo) = Ok i /\ bs !! i = Some b /\
    lower b <= id < upper b.
Proof.
  intros Ht H0 Hid Hup. exists lo, b0.
  assert (Hloop : bucket_index_loop fuel bs id lo (S lo) = Ok lo).
  { destruct fuel; cbn [bucket_index_loop]; replace (S lo - lo)%nat with 1%nat by lia; done. }
  do 3 (split; [done|]). destruct Hup as [[Hl Hg]|(b1 & Hb1 & Hg)].
  - by rewrite (tiles_last _ _ _ _ _ Ht H0 Hl).
  - by rewrite <- (tiles_next _ _ _ _ _ _ Ht H0 Hb1).
Qed.

Lemma bucket_index_loop_spec fuel : forall bs id lo hi glo ghi b0,
  tiles glo bs ghi -> (lo < hi <= length bs)%nat -> (hi - lo <= S fuel)%nat ->
  bs !! lo = Some b0 -> lower b0 <= id ->
  (hi = length bs /\ id < ghi \/ exists b1, bs !! hi = Some b1 /\ id < lower b1) ->
  exists i b, bucket_index_loop fuel bs id lo hi = Ok i /\ bs !! i = Some b /\
    lower b <= id < upper b.
Proof.
  induction fuel as [|fuel IH]; intros bs id lo hi glo ghi b0 Ht Hlo Hfuel H0 Hid Hup;
    (destruct (decide (hi = S lo)) as [->|Hne]; [by eapply bucket_index_done|]); [lia|].
  cbn [bucket_index_loop]. replace (1 <? hi - lo)%nat with true by (symmetry; apply Nat.ltb_lt; lia).
  set (pivot := ((lo + hi + 1) / 2)%nat).
  assert (lo < pivot < hi)%nat.
  { subst pivot. split; [apply Nat.div_le_lower_bound | apply Nat.Div0.div_lt_upper_bound]; lia. }
  destruct (bs !! pivot) as [bp|] eqn:Ep; [|apply lookup_ge_None in Ep; lia].
  cbn [of_option rbind]. destruct (lower bp <=? id) eqn:Ec; propify.
  - apply (IH bs id pivot hi glo ghi bp); auto; lia.
  - apply (IH bs id lo pivot glo ghi b0); auto; try lia. right. eauto.
Qed.

Lemma get_bucket_index_spec bs id :
  tiles MIN bs MAX -> valid_id id ->
  exists i b, get_bucket_index bs id = Ok i /\ bs !! i = Some b /\ lower b <= id < upper b.
Proof.
  intros Ht Hid. unfold get_bucket_index. destruct bs as [|b0 t] eqn:E; [simpl in Ht; done|].
  rewrite <- E in *. apply (bucket_index_loop_spec _ bs id 0 (length bs) MIN MAX b0); auto.
  - subst. simpl. lia.
  - lia.
  - by subst.
  - subst. destruct Ht as [-> _]. apply Hid.
  - left. split; [done | apply Hid].
Qed.

(** The bucket of an identifier is unique. *)
Lemma tiles_unique lo bs hi i j bi bj id :
  tiles lo bs hi -> bs !! i = Some bi -> bs !! j = Some bj ->
  lower bi <= id < upper bi -> lower bj <= id < upper bj -> i = j.
Proof.
  assert (Hgo : forall i j bi bj, tiles lo bs hi -> (i < j)%nat -> bs !! i = Some bi ->
            bs !! j = Some bj -> upper bi <= lower bj).
  { intros i' j' bi' bj' Ht Hlt Hi Hj. destruct (tiles_split _ _ _ _ _ Ht Hi) as (_ & _ & H2).
    apply (tiles_take_lower _ _ _ (j' - S i') bj') in H2 as [? _]; [done|].
    rewrite lookup_drop. by replace (S i' + (j' - S i'))%nat with j' by lia. }
  intros Ht Hi Hj Hri Hrj. destruct (lt_eq_lt_dec i j) as [[?|?]|?]; [|done|].
  - pose proof (Hgo i j bi bj Ht ltac:(done) Hi Hj). lia.
  - pose proof (Hgo j i bj bi Ht ltac:(done) Hj Hi). lia.
Qed.

(** ** Dyadic blocks *)

Lemma width_divide d1 d2 : (d1 <= d2 <= 160)%nat -> (width d2 | width d1).
Proof.
  intros. exists (2 ^ (Z.of_nat (d2 - d1))). unfold width, HASH_NBYTES.
  rewrite <- Z.pow_add_r by lia. f_equal. lia.
Qed.

Lemma multiples_gap w x y : 0 < w -> (w | x) -> (w | y) -> x < y -> x + w <= y.
Proof. intros Hw [a ->] [c ->] Hlt. assert (a < c) by nia. nia. Qed.

(** A bucket that starts inside the right sibling of a block lies inside it. *)
Lemma dyadic_right d db u c :
  (d <= 160)%nat -> (db <= 160)%nat -> (width db | c) -> (2 * width d | u + width d) ->
  u <= c < u + width d -> c + width db <= u + width d.
Proof.
  intros Hd Hdb Hc Hu Hr. pose proof (width_pos d Hd). pose proof (width_pos db Hdb).
  destruct (le_lt_dec d db) as [Hle|Hlt].
  - apply multiples_gap; [done|done| |lia].
    transitivity (width d); [by apply width_divide|].
    transitivity (2 * width d); [by exists 2|done].
  - assert (Hdiv : (2 * width d | c)).
    { transitivity (width db); [|done].
      destruct d as [|d]; [lia|]. rewrite <- width_succ by lia. apply width_divide. lia. }
    pose proof (multiples_gap (2 * width d) c (u + width d) ltac:(lia) Hdiv Hu ltac:(lia)). lia.
Qed.

(** A bucket that ends inside the left sibling of a block lies inside it. *)
Lemma dyadic_left d db l c :
  (d <= 160)%nat -> (db <= 160)%nat -> (width db | c) -> (2 * width d | l) ->
  l < c <= l + width d -> l <= c - width db.
Proof.
  intros Hd Hdb Hc Hl Hr. pose proof (width_pos d Hd). pose proof (width_pos db Hdb).
  destruct (le_lt_dec d db) as [Hle|Hlt].
  - assert (Hg : (width db | l)).
    { transitivity (width d); [by apply width_divide|].
      transitivity (2 * width d); [by exists 2|done]. }
    pose proof (multiples_gap (width db) l c ltac:(done) Hg Hc ltac:(lia)). lia.
  - assert (Hdiv : (2 * width d | c)).
    { transitivity (width db); [|done].
      destruct d as [|d]; [lia|]. rewrite <- width_succ by lia. apply width_divide. lia. }
    pose proof (multiples_gap (2 * width d) l c ltac:(lia) Hl Hdiv ltac:(lia)). lia.
Qed.

(** ** Candidates *)

Definition all_candidates (query : Z) bs : list candidate := concat (map (candidates_of query) bs).

Lemma all_candidates_app q bs1 bs2 :
  all_candidates q (bs1 ++ bs2) = all_candidates q bs1 ++ all_candidates q bs2.
Proof. unfold all_candidates. by rewrite map_app, concat_app. Qed.

Lemma push_all_spec (l cand : list (candidate (PeerID:=PeerID))) :
  sorted_heap cand ->
  sorted_heap (foldl (fun h c => heappush c h) cand l) /\
  foldl (fun h c => heappush c h) cand l ≡ₚ cand ++ l.
Proof.
  revert cand. induction l as [|c l IH]; intros cand Hs; simpl; [by rewrite app_nil_r|].
  destruct (IH (heappush c cand)) as [H1 H2]; [by apply heappush_sorted|].
  split; [done|]. rewrite H2, heappush_perm. simpl. by rewrite Permutation_middle.
Qed.

Lemma absorb_right_spec q d u bs ghi : forall c i cand,
  (d <= 160)%nat -> (2 * width d | u + width d) -> u + width d <= ghi ->
  tiles c bs ghi -> u <= c <= u + width d -> sorted_heap cand ->
  exists bs1 bs2 cand', bs = bs1 ++ bs2 /\
    absorb_right q (u + width d) bs i cand = ((i + length bs1)%nat, cand') /\
    tiles c bs1 (u + width d) /\ tiles (u + width d) bs2 ghi /\
    sorted_heap cand' /\ cand' ≡ₚ cand ++ all_candidates q bs1.
Proof.
  induction bs as [|b t IH]; intros c i cand Hd Hal Hg Ht Hc Hs; simpl in *.
  - exists [], [], cand. simpl. rewrite Nat.add_0_r, app_nil_r.
    split_and!; auto; simpl; lia.
  - destruct Ht as (<- & Hb & Ht). pose proof (bucket_ok_lt _ Hb) as Hlt.
    destruct (upper b <=? u + width d) eqn:E; propify.
    + destruct (push_all_spec (candidates_of q b) cand Hs) as [Hs1 Hp1].
      destruct (IH (upper b) (S i) (foldl (fun h c => heappush c h) cand (candidates_of q b)))
        as (bs1 & bs2 & cand' & -> & Hab & H1 & H2 & H3 & H4); auto; [lia|].
      exists (b :: bs1), bs2, cand'. rewrite Hab. simpl. split_and!; auto.
      * f_equal. lia.
      * unfold all_candidates in *. simpl. by rewrite H4, Hp1, app_assoc.
    + exists [], (b :: t), cand. simpl. rewrite Nat.add_0_r, app_nil_r.
      assert (lower b = u + width d).
      { destruct (decide (lower b = u + width d)); [done|]. destruct Hb as (Hdb & Hub & Hdiv).
        pose proof (dyadic_right d (depth b) u (lower b) Hd Hdb Hdiv Hal). lia. }
      split_and!; auto; simpl; lia.
Qed.

Lemma absorb_left_spec q d l bs glo : forall c i cand,
  (d <= 160)%nat -> (2 * width d | l) -> glo <= l ->
  tiles glo (reverse bs) c -> l <= c <= l + width d -> sorted_heap cand ->
  exists bs1 bs2 cand', bs = bs1 ++ bs2 /\
    absorb_left q l bs i cand = ((i - length bs1)%nat, cand') /\
    tiles l (reverse bs1) c /\ tiles glo (reverse bs2) l /\
    sorted_heap cand' /\ cand' ≡ₚ cand ++ all_candidates q bs1.
Proof.
  induction bs as [|b t IH]; intros c i cand Hd Hal Hg Ht Hc Hs; simpl in *.
  - exists [], [], cand. simpl. rewrite Nat.sub_0_r, app_nil_r.
    split_and!; auto; simpl; lia.
  - rewrite reverse_cons in Ht. apply tiles_app in Ht as (mid & Ht & Hb). simpl in Hb.
    destruct Hb as (<- & Hb & <-). pose proof (bucket_ok_lt _ Hb) as Hlt.
    destruct (l <=? lower b) eqn:E; propify.
    + destruct (push_all_spec (candidates_of q b) cand Hs) as [Hs1 Hp1].
      destruct (IH (lower b) (pred i) (foldl (fun h c => heappush c h) cand (candidates_of q b)))
        as (bs1 & bs2 & cand' & -> & Hab & H1 & H2 & H3 & H4); auto; [lia|].
      exists (b :: bs1), bs2, cand'. rewrite Hab. simpl. split_and!; auto.
      * f_equal. lia.
      * rewrite reverse_cons. apply tiles_app. exists (lower b). simpl. auto.
      * unfold all_candidates in *. simpl. by rewrite H4, Hp1, app_assoc.
    + exists [], (b :: t), cand. simpl. rewrite Nat.sub_0_r, app_nil_r.
      assert (upper b = l).
      { destruct (decide (upper b = l)); [done|]. destruct Hb as (Hdb & Hub & Hdiv).
        assert (Hdu : (width (depth b) | upper b)).
        { rewrite Hub. apply Z.divide_add_r; [done | apply Z.divide_refl]. }
        pose proof (dyadic_left d (depth b) l (upper b) Hd Hdb Hdu Hal). lia. }
      split_and!; auto; try (simpl; lia).
      rewrite reverse_cons. apply tiles_app. exists (lower b). simpl. auto.
Qed.

(** ** Climbing the tree *)

(** [M] is the part of the table collected so far: the block [[lo, hi)] of depth [d]
    around the query. *)
Record collected bs (q lo hi : Z) (d : nat) L M R (cand : list candidate) : Prop := {
  co_split : bs = L ++ M ++ R;
  co_left : tiles MIN L lo;
  co_mid : tiles lo M hi;
  co_right : tiles hi R MAX;
  co_nonempty : M <> [];
  co_depth : (d <= 160)%nat;
  co_width : hi = lo + width d;
  co_aligned : (width d | lo);
  co_query : lo <= q < hi;
  co_sorted : sorted_heap cand;
  co_perm : cand ≡ₚ all_candidates q M;
}.

Lemma tiles_last_lookup L M R lo hi :
  tiles lo M hi -> M <> [] ->
  exists b, (L ++ M ++ R) !! pred (length L + length M) = Some b /\ upper b = hi.
Proof.
  intros Ht Hne. destruct (exists_last Hne) as (M' & b & ->). exists b.
  apply tiles_app in Ht as (mid & _ & Hb). simpl in Hb. destruct Hb as (_ & _ & <-).
  split; [|done]. rewrite length_app. simpl.
  rewrite lookup_app_r by lia. rewrite <- app_assoc. simpl.
  rewrite list_lookup_middle; [done|lia].
Qed.

Lemma tiles_first_lookup L M R lo hi :
  tiles lo M hi -> M <> [] ->
  exists b, (L ++ M ++ R) !! length L = Some b /\ lower b = lo.
Proof.
  intros Ht Hne. destruct M as [|b M]; [done|]. simpl in Ht. destruct Ht as (<- & _).
  exists b. split; [|done]. simpl. by apply list_lookup_middle.
Qed.

Lemma block_within_space d lo : (d <= 160)%nat -> (width d | lo) -> lo < MAX -> lo + width d <= MAX.
Proof.
  intros Hd Hdiv Hlt. apply multiples_gap; auto using width_pos.
  rewrite <- width_0. apply width_divide. lia.
Qed.

Lemma parent_direction d lo :
  (S d <= 160)%nat -> (width (S d) | lo) ->
  (lo / width (S d)) mod 2 = 0 /\ (width d | lo) \/
  (lo / width (S d)) mod 2 <> 0 /\ (width d | lo - width (S d)).
Proof.
  intros Hd [a Ha]. pose proof (width_pos _ Hd) as Hw. rewrite (width_succ d) by done.
  subst lo. rewrite Z.div_mul by lia. pose proof (Z.div_mod a 2 ltac:(lia)) as Hdm.
  pose proof (Z.mod_pos_bound a 2 ltac:(lia)).
  destruct (decide (a mod 2 = 0)) as [E|E]; [left|right]; (split; [done|]).
  - exists (a / 2). rewrite Hdm at 1. rewrite E. ring.
  - exists (a / 2). rewrite Hdm at 1. replace (a mod 2) with 1 by lia. ring.
Qed.

Lemma climb_spec q enough d : forall bs lo hi L M R cand,
  collected bs q lo hi d L M R cand ->
  exists lo' hi' d' L' M' R' cand',
    climb bs q enough (length L) (length L + length M) lo hi d cand = Ok cand' /\
    collected bs q lo' hi' d' L' M' R' cand' /\ (d' = 0%nat \/ (enough <= length cand')%nat).
Proof.
  induction d as [|d IH]; intros bs lo hi L M R cand Hc.
  { exists lo, hi, 0%nat, L, M, R, cand. simpl. auto. }
  cbn [climb]. destruct (length cand <? enough)%nat eqn:E; propify.
  2: { exists lo, hi, (S d), L, M, R, cand. auto. }
  destruct Hc as [-> HL HM HR Hne Hd Hw Hal Hq Hs Hp].
  pose proof (width_pos _ Hd) as Hpos. pose proof (width_succ d Hd) as Hws.
  fold (width (S d)). pose proof (tiles_le _ _ _ HL). pose proof (tiles_le _ _ _ HR).
  destruct (parent_direction d lo Hd Hal) as [[Hdir Hpal]|[Hdir Hpal]].
  - rewrite Hdir. simpl. replace (hi + (hi - lo)) with (hi + width (S d)) by lia.
    rewrite app_assoc, drop_app_length', <- app_assoc by (rewrite length_app; lia).
    assert (Hin : hi + width (S d) <= MAX).
    { pose proof (block_within_space d lo ltac:(lia) Hpal). lia. }
    destruct (absorb_right_spec q (S d) hi R MAX hi (length L + length M)%nat cand)
      as (R1 & R2 & cand' & -> & -> & H1 & H2 & H3 & H4); auto; [|lia|].
    { rewrite <- Hws, Hw. replace (lo + width (S d) + width (S d)) with (lo + width d) by lia.
      apply Z.divide_add_r; [done | apply Z.divide_refl]. }
    destruct (tiles_last_lookup L (M ++ R1) R2 lo (hi + width (S d))) as (b & Hb & Hub).
    { apply tiles_app. eauto. }
    { by destruct M. }
    rewrite length_app, Nat.add_assoc, <- app_assoc in Hb. rewrite Hb. simpl.
    rewrite Hub, Z.eqb_refl. simpl.
    destruct (IH (L ++ M ++ R1 ++ R2) lo (hi + width (S d)) L (M ++ R1) R2 cand') as
      (lo' & hi' & d' & L' & M' & R' & c' & Hcl & Hrest).
    { split; auto; try lia.
      - by rewrite <- app_assoc.
      - apply tiles_app. eauto.
      - by destruct M.
      - rewrite all_candidates_app. by rewrite <- Hp. }
    rewrite length_app, Nat.add_assoc in Hcl. rewrite Hcl. eauto 10.
  - rewrite (proj2 (Z.eqb_neq _ _) Hdir). replace (lo - (hi - lo)) with (lo - width (S d)) by lia.
    rewrite take_app_length.
    destruct (absorb_left_spec q (S d) (lo - width (S d)) (reverse L) MIN lo (length L) cand)
      as (L1 & L2 & cand' & HLe & -> & H1 & H2 & H3 & H4); auto; try lia.
    { by rewrite <- Hws. }
    { destruct Hpal as [z Hz]. unfold MIN in *. assert (0 <= z) by nia. nia. }
    { by rewrite reverse_involutive. }
    assert (HL' : L = reverse L2 ++ reverse L1).
    { rewrite <- reverse_app, <- HLe. by rewrite reverse_involutive. }
    assert (Hlen : (length L - length L1)%nat = length (reverse L2)).
    { rewrite HL', length_app, !length_reverse. lia. }
    rewrite Hlen. destruct (tiles_first_lookup (reverse L2) (reverse L1 ++ M) R (lo - width (S d)) hi)
      as (b & Hb & Hlb).
    { apply tiles_app. eauto. }
    { by destruct (reverse L1), M. }
    rewrite HL'. rewrite <- !app_assoc in *. rewrite Hb. simpl. rewrite Hlb, Z.eqb_refl. simpl.
    destruct (IH (reverse L2 ++ reverse L1 ++ M ++ R) (lo - width (S d)) hi (reverse L2)
                (reverse L1 ++ M) R cand') as (lo' & hi' & d' & L' & M' & R' & c' & Hcl & Hrest).
    { split; auto; try lia.
      - by rewrite <- app_assoc.
      - apply tiles_app. eauto.
      - by destruct (reverse L1), M.
      - rewrite all_candidates_app, H4, Hp. rewrite Permutation_app_comm. f_equiv.
        unfold all_candidates. by rewrite reverse_Permutation. }
    rewrite length_app, !length_reverse, Nat.add_assoc in *.
    rewrite Hcl. eauto 10.
Qed.

(** ** The nodes of a table *)

Definition nodes_of bs : list (Z * PeerID) := concat (map (@nodes_to_peer_id PeerID) bs).

(** Every node of a bucket lies in its range, and no identifier occurs twice in it. *)
Definition bucket_strict b : Prop :=
  dwf (nodes_to_peer_id b) /\ forall id, id ∈ dkeys (nodes_to_peer_id b) -> lower b <= id < upper b.

Lemma nodes_of_range lo bs hi id :
  tiles lo bs hi -> Forall bucket_strict bs -> id ∈ (nodes_of bs).*1 -> lo <= id < hi.
Proof.
  revert lo. induction bs as [|b t IH]; intros lo Ht Hs; [set_solver|].
  destruct Ht as (<- & Hb & Ht). apply Forall_cons in Hs as [[_ Hr] Hs].
  unfold nodes_of. simpl. rewrite fmap_app, elem_of_app. pose proof (bucket_ok_lt _ Hb).
  pose proof (tiles_le _ _ _ Ht). intros [Hin|Hin].
  - apply Hr in Hin. lia.
  - apply (IH _ Ht Hs) in Hin. lia.
Qed.

Lemma nodes_of_NoDup lo bs hi :
  tiles lo bs hi -> Forall bucket_strict bs -> NoDup (nodes_of bs).*1.
Proof.
  revert lo. induction bs as [|b t IH]; intros lo Ht Hs; [constructor|].
  destruct Ht as (<- & Hb & Ht). apply Forall_cons in Hs as [[Hn Hr] Hs].
  unfold nodes_of. simpl. rewrite fmap_app. apply NoDup_app. split_and!; [done| |eauto].
  intros id Hin Hin'. apply Hr in Hin. apply (nodes_of_range _ _ _ _ Ht Hs) in Hin'. lia.
Qed.

Lemma all_candidates_nodes q bs :
  all_candidates q bs = map (fun e => (xor_distance q e.1, e)) (nodes_of bs).
Proof. unfold all_candidates, nodes_of. by rewrite concat_map, map_map. Qed.

Lemma all_candidates_elem q bs c :
  c ∈ all_candidates q bs -> c.1 = xor_distance q c.2.1 /\ c.2.1 ∈ (nodes_of bs).*1.
Proof.
  rewrite all_candidates_nodes. intros Hc. apply list_elem_of_fmap in Hc as (e & -> & He). simpl.
  split; [done|]. apply list_elem_of_fmap. eauto.
Qed.

(** Nodes of the query's block are strictly nearer than the others. *)
Lemma block_nearer q lo d x y :
  (d <= 160)%nat -> (width d | lo) -> lo <= q < lo + width d -> 0 <= q -> 0 <= y ->
  0 <= x -> lo <= x < lo + width d -> ~ (lo <= y < lo + width d) ->
  xor_distance q x < xor_distance q y.
Proof.
  intros Hd [a ->] Hq Hq0 Hy0 Hx0 Hx Hy. pose proof (width_pos d Hd) as Hw.
  set (m := HASH_NBYTES * 8 - Z.of_nat d).
  assert (Hm : 0 <= m) by (unfold m, HASH_NBYTES; lia).
  assert (Hdiv : forall z, z / width d = a <-> a * width d <= z < a * width d + width d).
  { intros z. split; [intros <- | intros; symmetry; apply Z.div_unique with (z - a * width d); lia].
    pose proof (Z.mul_div_le z (width d) Hw). pose proof (Z.mul_succ_div_gt z (width d) Hw). lia. }
  assert (H1 : xor_distance q x < 2 ^ m).
  { apply xor_distance_block; auto. change (2 ^ m) with (width d). by rewrite (proj2 (Hdiv q)), (proj2 (Hdiv x)). }
  assert (H2 : ~ xor_distance q y < 2 ^ m).
  { rewrite xor_distance_block by done. change (2 ^ m) with (width d). rewrite (proj2 (Hdiv q)) by done.
    intros He. symmetry in He. by apply Hdiv in He. }
  lia.
Qed.

Lemma collected_root bs q lo hi L M R cand :
  collected bs q lo hi 0 L M R cand -> cand = py_sorted (all_candidates q bs).
Proof.
  intros [-> HL HM HR Hne Hd Hw [a Ha] Hq Hs Hp]. rewrite width_0 in *.
  apply tiles_le in HL as H1. apply tiles_le in HR as H2.
  assert (HM0 : 0 < MAX) by done. unfold MIN in *. assert (lo = 0) by nia. subst lo.
  assert (L = []).
  { destruct L as [|b L]; [done|]. destruct HL as (Hlo & Hb & HL).
    apply tiles_le in HL. apply bucket_ok_lt in Hb. lia. }
  assert (R = []).
  { destruct R as [|b R]; [done|]. destruct HR as (Hlo & Hb & HR).
    apply tiles_le in HR. apply bucket_ok_lt in Hb. lia. }
  subst. simpl. rewrite app_nil_r. apply sorted_heap_unique; auto; [apply heapify_sorted|].
  by rewrite Hp, heapify_perm.
Qed.

Lemma collected_prefix bs q lo hi d L M R cand n :
  collected bs q lo hi d L M R cand -> Forall bucket_strict bs -> valid_id q ->
  (n <= length cand)%nat -> take n cand = take n (py_sorted (all_candidates q bs)).
Proof.
  intros [-> HL HM HR Hne Hd Hw Hal Hq Hs Hp] Hst Hid Hn.
  apply Forall_app in Hst as [HsL Hst]. apply Forall_app in Hst as [HsM HsR].
  assert (He : py_sorted (all_candidates q (L ++ M ++ R)) =
               cand ++ py_sorted (all_candidates q (L ++ R))).
  { rewrite <- (sorted_prefix cand (all_candidates q M)); auto.
    - apply heapify_Permutation. rewrite !all_candidates_app, !app_assoc.
      f_equiv. apply Permutation_app_comm.
    - intros x y Hx Hy. apply all_candidates_elem in Hx as [Hx1 Hx].
      apply all_candidates_elem in Hy as [Hy1 Hy].
      unfold nodes_of in Hy. rewrite map_app, concat_app, fmap_app, elem_of_app in Hy.
      apply (nodes_of_range _ _ _ _ HM HsM) in Hx.
      assert (Hlt : x.1 < y.1).
      { rewrite Hx1, Hy1. apply tiles_le in HL as ?. apply tiles_le in HM as ?. unfold valid_id, MIN in *.
        destruct Hy as [Hy|Hy];
          [apply (nodes_of_range _ _ _ _ HL HsL) in Hy | apply (nodes_of_range _ _ _ _ HR HsR) in Hy];
          (apply (block_nearer q lo d); auto; unfold MIN in *; lia). }
      unfold ple, py_leb, prod_pyord, py_leb, Z_pyord.
      rewrite (proj2 (Z.leb_le _ _)), (proj2 (Z.leb_gt _ _)) by lia. done. }
  rewrite He. by rewrite take_app_le.
Qed.

Lemma take_filter_take {A : Type} (P : A -> Prop) `{!forall x, Decision (P x)} k n (l : list A) :
  (length (filter (fun x => ~ P x) l) <= n)%nat ->
  take k (filter P (take (k + n) l)) = take k (filter P l).
Proof.
  intros Hn. destruct (le_lt_dec (length l) (k + n)) as [Hl|Hl]; [by rewrite (take_ge l) by lia|].
  rewrite <- (take_drop (k + n) l) at 2. rewrite filter_app, take_app_le; [done|].
  assert (Hc : forall l' : list A, length l' =
            (length (filter P l') + length (filter (fun x => ~ P x) l'))%nat).
  { induction l' as [|x l' IH]; [done|]. rewrite !filter_cons. simpl.
    destruct (decide (P x)), (decide (~ P x)); simpl; [tauto|lia|lia|tauto]. }
  pose proof (Hc (take (k + n) l)) as H1. rewrite length_take in H1.
  rewrite <- (take_drop (k + n) l), filter_app, length_app in Hn. lia.
Qed.

Lemma excluded_at_most_one (exclude : option Z) (l : list (Z * PeerID)) :
  NoDup l.*1 -> (length (filter (fun e => ~ Some e.1 <> exclude) l) <=
                 match exclude with Some _ => 1 | None => 0 end)%nat.
Proof.
  induction l as [|[x p] l IH]; simpl; [lia|]. intros Hnd. apply NoDup_cons in Hnd as [Hn Hnd].
  rewrite filter_cons. case_decide as Hd; simpl in *; [|by apply IH].
  destruct exclude as [ex|]; simplify_eq.
  assert (He : filter (fun e : Z * PeerID => ~ Some e.1 <> Some ex) l = []); [|by rewrite He].
  apply elem_of_nil_inv. intros [y r] Hy. apply list_elem_of_filter in Hy as [Hy Hin].
  apply dec_stable in Hy. simpl in Hy. simplify_eq. apply Hn, list_elem_of_fmap. by eexists (_, r).
Qed.

Lemma sorted_candidates_ids q bs :
  (map snd (py_sorted (all_candidates q bs))).*1 ≡ₚ (nodes_of bs).*1.
Proof.
  unfold py_sorted. rewrite (heapify_perm (all_candidates q bs)), all_candidates_nodes.
  by rewrite !map_map.
Qed.
End Tiling.
