(* ===== verification/RoutingInvariant.v ===== *)
(** * The invariant of the routing table and the theorems about it

    Every operation of [RoutingTable] keeps the buckets a tiling of the identifier
    space by aligned blocks; adding a node always returns, and the nearest-neighbour
    search agrees with sorting the whole table. *)

From S2P Require Import Prelude DHTID Routing RoutingFacts.

Section Invariant.
Context {PeerID : Type} `{EqP : EqDecision PeerID} `{OrdP : PyOrd PeerID} {LawP : PyOrdLaws PeerID}.
Abbreviation KBucket := (KBucket PeerID).
Abbreviation RoutingTable := (RoutingTable PeerID).
Implicit Types (b : KBucket) (t : RoutingTable) (id : Z).

(** Identifiers are valid; the range is closed on the right: [KBucket.split] may leave a node equal to the
    midpoint in the left half. *)
Record bucket_inv (n : nat) b : Prop := {
  bi_size : size b = n;
  bi_nodes : dwf (nodes_to_peer_id b);
  bi_repl : dwf (replacement_nodes b);
  bi_range : forall id, id ∈ dkeys (nodes_to_peer_id b) \/ id ∈ dkeys (replacement_nodes b) ->
               (lower b <= id <= upper b) /\ id < MAX;
  bi_bound : (length (nodes_to_peer_id b) <= n)%nat;
  bi_full : replacement_nodes b <> [] -> length (nodes_to_peer_id b) = n;
  bi_disjoint : forall id, id ∈ dkeys (nodes_to_peer_id b) -> id ∉ dkeys (replacement_nodes b);
}.

Record table_inv t : Prop := {
  ti_tiles : tiles MIN (buckets t) MAX;
  ti_buckets : Forall (bucket_inv (bucket_size t)) (buckets t);
}.

Definition same_block b b' : Prop :=
  lower b' = lower b /\ upper b' = upper b /\ depth b' = depth b.

Lemma bucket_ok_same b b' : same_block b b' -> bucket_ok b -> bucket_ok b'.
Proof. unfold bucket_ok. by intros (-> & -> & ->). Qed.

Lemma tiles_update lo bs hi i b b' :
  tiles lo bs hi -> bs !! i = Some b -> same_block b b' -> tiles lo (<[i := b']> bs) hi.
Proof.
  intros Ht Hi Hsb. destruct (tiles_split _ _ _ _ _ Ht Hi) as (H1 & H2 & H3).
  rewrite insert_take_drop by (by eapply lookup_lt_Some).
  apply tiles_app. exists (lower b). split; [done|]. simpl.
  pose proof (bucket_ok_same _ _ Hsb H2). destruct Hsb as (-> & -> & _). done.
Qed.

Lemma dkeys_dset_elem {V} (d : pydict Z V) k v x : x ∈ dkeys (dset d k v) <-> x = k \/ x ∈ dkeys d.
Proof. rewrite dkeys_dset. case_decide; set_solver. Qed.

Lemma dkeys_ddel_elem {V} (d : pydict Z V) k x : x ∈ dkeys (ddel d k) <-> x <> k /\ x ∈ dkeys d.
Proof. rewrite dkeys_ddel. rewrite list_elem_of_filter. done. Qed.

Lemma dset_length_notin {V} (d : pydict Z V) k v :
  k ∉ dkeys d -> length (dset d k v) = S (length d).
Proof. intros. rewrite dset_length. rewrite (proj2 (dmem_false d k)); [done|]. by apply dget_None_dkeys. Qed.

Lemma dmem_elem {V} (d : pydict Z V) k : dmem d k = true <-> k ∈ dkeys d.
Proof. by rewrite dmem_true, dget_dkeys. Qed.

Lemma dmem_not_elem {V} (d : pydict Z V) k : dmem d k = false <-> k ∉ dkeys d.
Proof. by rewrite dmem_false, dget_None_dkeys. Qed.

Lemma bucket_init_inv now lo hi n d b :
  KBucket_init (PeerID:=PeerID) now lo hi n d = Ok b ->
  bucket_inv n b /\ lower b = lo /\ upper b = hi /\ depth b = d.
Proof.
  unfold KBucket_init. intros H. mon_inv. simplify_eq. split; [|done].
  split; simpl; auto with py; try lia; set_solver.
Qed.

(** ** [KBucket.add_or_update_node] *)

Lemma bucket_add_inv now n b id peer :
  bucket_inv n b -> (lower b <= id <= upper b) /\ id < MAX ->
  bucket_inv n (bucket_add_or_update_node now b id peer).1 /\
  same_block b (bucket_add_or_update_node now b id peer).1.
Proof.
  intros [Hs Hn Hr Hrg Hb Hf Hd] Hid. unfold bucket_add_or_update_node.
  destruct (dmem (nodes_to_peer_id b) id) eqn:Em; [apply dmem_elem in Em | apply dmem_not_elem in Em].
  - split; [|by split_and!]. assert (Hl : length (dset (ddel (nodes_to_peer_id b) id) id peer) = length (nodes_to_peer_id b)).
    { rewrite dset_length_notin by (rewrite dkeys_ddel_elem; tauto).
      symmetry. apply ddel_length; [done|]. by apply dget_dkeys. }
    split; simpl; auto with py; intros; rewrite ?Hl; auto.
    + rewrite dkeys_dset_elem, dkeys_ddel_elem in *. naive_solver.
    + rewrite dkeys_dset_elem, dkeys_ddel_elem in *. naive_solver.
  - destruct (length (nodes_to_peer_id b) <? size b)%nat eqn:El; propify; (split; [|by split_and!]).
    + assert (Hre : replacement_nodes b = []).
      { destruct (replacement_nodes b) eqn:E; [done|]. exfalso. pose proof (Hf ltac:(done)). lia. }
      split; simpl; rewrite ?Hre, ?dset_length_notin by done; auto with py; try lia; try done.
      * intros x. rewrite dkeys_dset_elem. specialize (Hrg x). naive_solver set_solver.
      * intros x _. set_solver.
    + set (repl := if dmem (replacement_nodes b) id then _ else _).
      assert (Hrp : dwf repl) by (subst repl; destruct (dmem (replacement_nodes b) id); auto with py).
      assert (Hin : forall x, x ∈ dkeys repl -> x ∈ dkeys (replacement_nodes b)).
      { intros x. subst repl. destruct (dmem (replacement_nodes b) id); [rewrite dkeys_ddel_elem; tauto|done]. }
      split; simpl; auto with py.
      * intros x. rewrite dkeys_dset_elem. specialize (Hrg x). naive_solver.
      * intros _. lia.
      * intros x Hx. rewrite dkeys_dset_elem. intros [->|Hx']; [done|]. naive_solver.
Qed.

Lemma bucket_add_known now b id peer :
  let b' := (bucket_add_or_update_node now b id peer).1 in
  (dmem (nodes_to_peer_id b') id || dmem (replacement_nodes b') id) = true.
Proof.
  unfold bucket_add_or_update_node. apply orb_true_iff.
  destruct (dmem (nodes_to_peer_id b) id) eqn:Em; [|destruct (length _ <? _)%nat];
    rewrite !dmem_elem; simpl; rewrite !dkeys_dset_elem; tauto.
Qed.

Lemma bucket_add_fails now b id peer :
  (bucket_add_or_update_node now b id peer).2 = false ->
  (id ∉ dkeys (nodes_to_peer_id b)) /\ (size b <= length (nodes_to_peer_id b))%nat.
Proof.
  unfold bucket_add_or_update_node. destruct (dmem _ _) eqn:Em; [done|].
  apply dmem_not_elem in Em. destruct (length _ <? _)%nat eqn:El; [done|]. propify. done.
Qed.

(** A bucket of one identifier always has room. *)
Lemma leaf_add_succeeds now n b id peer :
  bucket_inv n b -> bucket_ok b -> (2 <= n)%nat -> depth b = 160%nat -> lower b <= id < upper b ->
  (bucket_add_or_update_node now b id peer).2 = true.
Proof.
  intros Hi (_ & Hu & _) Hn Hd Hid. rewrite Hd in Hu. change (width 160) with 1 in Hu.
  apply not_false_iff_true. intros Hf. apply bucket_add_fails in Hf as [Hnin Hlen].
  destruct Hi as [Hs Hnd _ Hrg _ _ _]. rewrite Hs in Hlen.
  assert (Hsub : dkeys (nodes_to_peer_id b) ⊆ [upper b]).
  { intros x Hx. pose proof (Hrg x (or_introl Hx)). assert (x <> id) by congruence.
    assert (x = upper b) by lia. set_solver. }
  apply NoDup_submseteq, submseteq_length in Hsub; [|done].
  unfold dkeys in Hsub. rewrite length_fmap in Hsub. simpl in Hsub. lia.
Qed.

(** ** [KBucket.split] *)

Lemma assign_node_inv now n mid bl br e :
  bucket_inv n bl -> bucket_inv n br -> (lower bl <= e.1 <= upper br) /\ e.1 < MAX ->
  upper bl = mid -> lower br = mid ->
  bucket_inv n (assign_node now mid (bl, br) e).1 /\ bucket_inv n (assign_node now mid (bl, br) e).2 /\
  same_block bl (assign_node now mid (bl, br) e).1 /\ same_block br (assign_node now mid (bl, br) e).2.
Proof.
  intros Hl Hr Hrg Hlm Hrm. unfold assign_node. destruct (e.1 <=? mid) eqn:E; propify; simpl.
  - destruct (bucket_add_inv now n bl e.1 e.2) as [? ?]; auto; [lia|]. by split_and!.
  - destruct (bucket_add_inv now n br e.1 e.2) as [? ?]; auto; [lia|]. by split_and!.
Qed.

Lemma assign_nodes_inv now n mid l : forall bl br,
  bucket_inv n bl -> bucket_inv n br -> Forall (fun e => (lower bl <= e.1 <= upper br) /\ e.1 < MAX) l ->
  upper bl = mid -> lower br = mid ->
  let lr := foldl (assign_node now mid) (bl, br) l in
  bucket_inv n lr.1 /\ bucket_inv n lr.2 /\ same_block bl lr.1 /\ same_block br lr.2.
Proof.
  induction l as [|e l IH]; intros bl br Hl Hr Hf Hlm Hrm; cbn [foldl]; [by split_and!|].
  apply Forall_cons in Hf as [He Hf].
  pose proof (assign_node_inv now n mid bl br e Hl Hr He Hlm Hrm) as (Ha & Hb & Hsa & Hsb).
  destruct (assign_node now mid (bl, br) e) as [bl' br']. cbn [fst snd] in *.
  destruct Hsa as (Hsa1 & Hsa2 & Hsa3), Hsb as (Hsb1 & Hsb2 & Hsb3).
  destruct (IH bl' br') as (? & ? & (? & ? & ?) & (? & ? & ?)); auto; try congruence.
  { by rewrite Hsa1, Hsb2. }
  unfold same_block. split_and!; auto; congruence.
Qed.

Lemma block_midpoint b :
  bucket_ok b -> (depth b < 160)%nat ->
  (lower b + upper b) / 2 = lower b + width (S (depth b)) /\
  upper b = lower b + width (S (depth b)) + width (S (depth b)).
Proof.
  intros (_ & Hu & _) Hd. rewrite Hu, (width_succ (depth b)) by lia. split; [|lia].
  replace (lower b + (lower b + 2 * width (S (depth b)))) with ((lower b + width (S (depth b))) * 2) by lia.
  by rewrite Z.div_mul.
Qed.

Lemma split_spec now n b :
  bucket_ok b -> (depth b < 160)%nat -> bucket_inv n b ->
  exists bl br, split now b = Ok (bl, br) /\ bucket_inv n bl /\ bucket_inv n br /\
    bucket_ok bl /\ bucket_ok br /\ lower bl = lower b /\ upper bl = lower br /\
    upper br = upper b /\ depth bl = S (depth b) /\ depth br = S (depth b).
Proof.
  intros Hok Hd Hi. destruct (block_midpoint b Hok Hd) as [Hm Hu].
  pose proof (width_pos (S (depth b)) ltac:(lia)) as Hw.
  unfold split. rewrite Hm. set (mid := lower b + width (S (depth b))) in *.
  rewrite (proj2 (Z.ltb_lt _ _)), (proj2 (Z.ltb_lt _ _)) by lia. simpl.
  unfold KBucket_init. fold (width (S (depth b))).
  replace (mid - lower b) with (width (S (depth b))) by lia.
  replace (upper b - mid) with (width (S (depth b))) by lia.
  rewrite Z.eqb_refl. simpl.
  set (bl0 := mkBucket (lower b) mid _ _ _ _ _ _). set (br0 := mkBucket mid (upper b) _ _ _ _ _ _).
  destruct (assign_nodes_inv now n mid (nodes_to_peer_id b ++ replacement_nodes b) bl0 br0)
    as (H1 & H2 & (H3 & H4 & H5) & (H6 & H7 & H8)); auto.
  1,2: split; simpl; auto with py; try apply Hi; try lia; set_solver.
  { apply Forall_forall. intros e He. apply (bi_range _ _ Hi). unfold dkeys. rewrite <- elem_of_app, <- fmap_app.
    apply list_elem_of_fmap. eauto. }
  destruct (foldl _ _ _) as [bl br]. simpl in *. exists bl, br.
  destruct Hok as (_ & _ & Hdiv). assert (Hdiv' : (width (S (depth b)) | lower b)).
  { transitivity (width (depth b)); [apply width_divide; lia|done]. }
  split_and!; auto; try congruence; unfold bucket_ok; rewrite ?H3, ?H4, ?H5, ?H6, ?H7, ?H8;
    split_and!; auto; try lia.
  apply Z.divide_add_r; [done | apply Z.divide_refl].
Qed.

(** ** [RoutingTable.add_or_update_node] *)

Lemma table_inv_update t i b b' :
  table_inv t -> buckets t !! i = Some b -> same_block b b' -> bucket_inv (bucket_size t) b' ->
  tiles MIN (<[i := b']> (buckets t)) MAX /\ Forall (bucket_inv (bucket_size t)) (<[i := b']> (buckets t)).
Proof.
  intros [Ht Hf] Hi Hsb Hb'. split; [by eapply tiles_update|]. by apply Forall_insert.
Qed.

Lemma split_bucket_spec now t i b :
  table_inv t -> buckets t !! i = Some b -> (depth b < 160)%nat ->
  exists bl br, split_bucket now t i =
      Ok (set_buckets t (take i (buckets t) ++ bl :: br :: drop (S i) (buckets t))) /\
    table_inv (set_buckets t (take i (buckets t) ++ bl :: br :: drop (S i) (buckets t))) /\
    lower bl = lower b /\ upper bl = lower br /\ upper br = upper b /\
    depth bl = S (depth b) /\ depth br = S (depth b).
Proof.
  intros [Ht Hf] Hi Hd. destruct (tiles_split _ _ _ _ _ Ht Hi) as (H1 & Hok & H3).
  assert (Hb : bucket_inv (bucket_size t) b) by (by eapply Forall_lookup_1).
  destruct (split_spec now _ b Hok Hd Hb) as (bl & br & Hs & Hil & Hir & Hkl & Hkr & El & Em & Er & Dl & Dr).
  exists bl, br. unfold split_bucket. rewrite Hi. simpl. rewrite Hs. simpl.
  split; [done|]. split; [|by split_and!]. split; simpl.
  - apply tiles_app. exists (lower b). rewrite <- El. simpl. rewrite Em, Er. rewrite El. by split_and!.
  - apply Forall_app. split; [by apply Forall_take|].
    apply Forall_cons. split; [done|]. apply Forall_cons. split; [done|]. by apply Forall_drop.
Qed.

(** After a split, the bucket of an identifier of the split block is one level deeper. *)
Lemma split_bucket_lookup t i b bl br id j b' :
  let t' := set_buckets t (take i (buckets t) ++ bl :: br :: drop (S i) (buckets t)) in
  table_inv t' -> buckets t !! i = Some b -> lower bl = lower b -> upper bl = lower br ->
  upper br = upper b -> depth bl = S (depth b) -> depth br = S (depth b) ->
  lower b <= id < upper b -> buckets t' !! j = Some b' -> lower b' <= id < upper b' ->
  depth b' = S (depth b).
Proof.
  intros t' [Ht _] Hi El Em Er Dl Dr Hid Hj Hb'.
  assert (Hlen : length (take i (buckets t)) = i).
  { rewrite length_take. apply lookup_lt_Some in Hi. lia. }
  assert (Hbl : buckets t' !! i = Some bl) by (simpl; by apply list_lookup_middle).
  assert (Hbr : buckets t' !! S i = Some br).
  { simpl. rewrite lookup_app_r by lia. rewrite Hlen. by replace (S i - i)%nat with 1%nat by lia. }
  destruct (Z_lt_le_dec id (upper bl)).
  - assert (j = i) by (eapply tiles_unique; eauto; lia). congruence.
  - assert (j = S i) by (eapply tiles_unique; eauto; lia). congruence.
Qed.

Definition known t id (peer : PeerID) : Prop :=
  get_by_node_id t id = Some peer /\ get_by_peer_id t peer = Some id.

Lemma request_ping_inv n b :
  bucket_inv n b -> bucket_inv n (request_ping_node b).1 /\ same_block b (request_ping_node b).1.
Proof.
  intros Hb. unfold request_ping_node. destruct (list_find _ _) as [[? [? ?]]|]; [|by split; [|split_and!]].
  destruct Hb as [? ? ? ? ? ? ?]. split; [|by split_and!]. by split.
Qed.

Lemma add_loop_spec fuel : forall now t id peer i b,
  table_inv t -> (2 <= bucket_size t)%nat -> (0 < depth_modulo t)%nat -> valid_id id ->
  get_bucket_index (buckets t) id = Ok i -> buckets t !! i = Some b ->
  (161 <= depth b + fuel)%nat ->
  exists t' ping, add_loop fuel now t id peer = Ok (t', ping) /\ table_inv t' /\
    bucket_size t' = bucket_size t /\ depth_modulo t' = depth_modulo t /\
    node_id t' = node_id t /\ known t' id peer.
Proof.
  induction fuel as [|fuel IH]; intros now t id peer i b Hi Hn Hm Hid Hg Hb Hf.
  { destruct Hi as [Ht _]. destruct (tiles_split _ _ _ _ _ Ht Hb) as (_ & [Hd _] & _). lia. }
  destruct (get_bucket_index_spec _ _ (ti_tiles _ Hi) Hid) as (i' & b0 & Hg' & Hb0 & Hr).
  rewrite Hg in Hg'. simplify_eq.
  destruct (tiles_split _ _ _ _ _ (ti_tiles _ Hi) Hb) as (_ & Hok & _).
  assert (Hbi : bucket_inv (bucket_size t) b) by (eapply Forall_lookup_1; [apply Hi|done]).
  cbn [add_loop]. rewrite Hg. cbn [rbind]. rewrite Hb. cbn [of_option rbind].
  destruct (bucket_add_inv now (bucket_size t) b id peer Hbi ltac:(destruct Hid; lia)) as [Hb1 Hsb].
  pose proof (bucket_add_known now b id peer) as Hkn. cbv zeta in Hkn.
  pose proof (leaf_add_succeeds now (bucket_size t) b id peer Hbi Hok Hn) as Hleaf.
  destruct (bucket_add_or_update_node now b id peer) as [b1 ok]. cbn [fst snd] in *.
  rewrite Hkn. set (bs1 := <[i' := b1]> (buckets t)).
  set (t1 := mkTable (node_id t) (bucket_size t) (depth_modulo t) bs1 _ _).
  destruct (table_inv_update t i' b b1 Hi Hb Hsb Hb1) as [Ht1 Hf1].
  assert (Hi1 : table_inv t1) by (by split).
  assert (Hk1 : known t1 id peer).
  { unfold known, get_by_node_id, get_by_peer_id. simpl. by rewrite !dget_dset_eq. }
  destruct ok; [exists t1, None; by split_and!|].
  assert (Hd : (depth b < 160)%nat).
  { destruct Hok as [Hd _]. destruct (decide (depth b = 160%nat)) as [E|]; [|lia].
    by specialize (Hleaf E Hr). }
  assert (Hb1i : buckets t1 !! i' = Some b1).
  { simpl. apply list_lookup_insert_eq. by eapply lookup_lt_Some. }
  assert (Hmay : exists m, (if has_in_range b1 (node_id t) then Ok true
           else let* m := depth_mod b1 t in Ok (negb (m =? 0)%nat)) = Ok m).
  { destruct (has_in_range _ _); [eauto|]. unfold depth_mod.
    destruct (depth_modulo t); [lia|]. simpl. eauto. }
  destruct Hmay as [m ->]. cbn [rbind]. destruct Hsb as (Sl & Su & Sd). destruct m.
  - destruct (split_bucket_spec now t1 i' b1 Hi1 Hb1i ltac:(lia))
      as (bl & br & -> & Hi2 & El & Em & Er & Dl & Dr). cbn [rbind].
    set (t2 := set_buckets t1 _) in *.
    destruct (get_bucket_index_spec _ _ (ti_tiles _ Hi2) Hid) as (j & bj & Hgj & Hbj & Hrj).
    assert (Hdj : depth bj = S (depth b1)).
    { eapply (split_bucket_lookup t1 i' b1 bl br id j bj); eauto. rewrite Sl, Su. done. }
    destruct (IH now t2 id peer j bj) as (t' & ping & Hadd & Hrest); auto; [lia|].
    exists t', ping. done.
  - pose proof (request_ping_inv _ _ Hb1) as [Hb2 Hsb2].
    destruct (request_ping_node b1) as [b2 node]. cbn [fst] in *.
    exists (set_buckets t1 (<[i' := b2]> bs1)), node.
    destruct (table_inv_update t1 i' b1 b2 Hi1 Hb1i Hsb2 Hb2) as [Ht2 Hf2].
    split_and!; auto. by split.
Qed.

(** ** [__delitem__] *)

Lemma dpopitem_spec {V} (d : pydict Z V) :
  (d = [] /\ dpopitem d = None) \/
  (exists k v d', d = d' ++ [(k, v)] /\ dpopitem d = Some (k, v, d')).
Proof.
  induction d as [|[k v] d _] using rev_ind; [left; split; done|]. right. exists k, v, d.
  unfold dpopitem. rewrite last_snoc, removelast_last. done.
Qed.

Lemma bucket_delitem_inv n b id b' :
  bucket_inv n b -> bucket_delitem b id = Ok b' -> bucket_inv n b' /\ same_block b b'.
Proof.
  intros [Hs Hn Hr Hrg Hb Hf Hd]. unfold bucket_delitem.
  destruct (negb _) eqn:Ekey; [done|]. apply negb_false_iff, orb_true_iff in Ekey.
  set (repl := if dmem (replacement_nodes b) id then _ else _).
  assert (Hrp : dwf repl) by (subst repl; destruct (dmem (replacement_nodes b) id); auto with py).
  assert (Hin : forall x, x ∈ dkeys repl -> x ∈ dkeys (replacement_nodes b)).
  { intros x. subst repl. destruct (dmem (replacement_nodes b) id); [rewrite dkeys_ddel_elem; tauto|done]. }
  assert (Hne : repl <> [] -> replacement_nodes b <> []).
  { intros Hne E. subst repl. rewrite E in Hne. by destruct (dmem (replacement_nodes b) id). }
  destruct (dmem (nodes_to_peer_id b) id) eqn:Em.
  - apply dmem_elem in Em. assert (Hlen := Em). apply dget_dkeys, (ddel_length _ _ Hn) in Hlen.
    destruct (dpopitem_spec repl) as [[E ->]|(k & v & d' & E & ->)]; intros [= <-].
    + split; [|by split_and!]. split; simpl; auto with py; try lia; rewrite ?E; try done.
      * intros x. rewrite dkeys_ddel_elem. specialize (Hrg x). rewrite E in Hin. set_solver.
      * set_solver.
    + assert (Hk : k ∈ dkeys repl) by (rewrite E; unfold dkeys; rewrite fmap_app; set_solver).
      assert (Hd' : forall x, x ∈ dkeys d' -> x ∈ dkeys repl).
      { intros x Hx. rewrite E. unfold dkeys. rewrite fmap_app. set_solver. }
      assert (Hnd : dwf d' /\ k ∉ dkeys d').
      { unfold dwf, dkeys in *. rewrite E, fmap_app in Hrp. apply NoDup_app in Hrp as (? & ? & ?). set_solver. }
      assert (Hkn : k ∉ dkeys (nodes_to_peer_id b)) by (intros Hx; by apply (Hd k Hx), Hin).
      assert (Hfull : length (nodes_to_peer_id b) = n).
      { apply Hf, Hne. rewrite E. by destruct d'. }
      assert (Hkd : k ∉ dkeys (ddel (nodes_to_peer_id b) id)) by (rewrite dkeys_ddel_elem; tauto).
      split; [|by split_and!]. split; simpl; rewrite ?dset_length_notin by done; try lia; try done.
      * auto with py.
      * apply Hnd.
      * intros x. rewrite dkeys_dset_elem, dkeys_ddel_elem. intros Hx. apply Hrg. naive_solver.
      * intros x. rewrite dkeys_dset_elem, dkeys_ddel_elem. intros [->|[_ Hx]]; [tauto|].
        intros Hx'. by apply (Hd x Hx), Hin, Hd'.
  - intros [= <-]. split; [|by split_and!].
    split; simpl; auto; [|naive_solver].
    intros x Hx. apply Hrg. naive_solver.
Qed.

Lemma table_delitem_inv t id t' :
  table_inv t -> table_delitem t id = Ok t' -> table_inv t' /\
    bucket_size t' = bucket_size t /\ depth_modulo t' = depth_modulo t /\ node_id t' = node_id t.
Proof.
  intros Hi H. unfold table_delitem in H. mon_inv. simplify_eq. simpl. split; [|done].
  destruct (buckets t !! a) as [b|] eqn:Eb; simpl in *; [|done]. simplify_eq.
  assert (Hb : bucket_inv (bucket_size t) a0) by (eapply Forall_lookup_1; [apply Hi|done]).
  destruct (bucket_delitem_inv _ _ _ _ Hb E1) as [Hb' Hsb].
  destruct (table_inv_update t a a0 a1 Hi Eb Hsb Hb'). by split.
Qed.

(** ** Tables a program can reach *)

Inductive reachable (nid : Z) (n dm : nat) : RoutingTable -> Prop :=
| r_init now t : RoutingTable_init now nid n dm = Ok t -> reachable nid n dm t
| r_add now t id peer t' ping :
    reachable nid n dm t -> valid_id id ->
    add_or_update_node now t id peer = Ok (t', ping) -> reachable nid n dm t'
| r_del t id t' :
    reachable nid n dm t -> table_delitem t id = Ok t' -> reachable nid n dm t'.

Lemma table_init_inv now nid n dm :
  exists t, RoutingTable_init now nid n dm = Ok t /\ table_inv t /\
    bucket_size t = n /\ depth_modulo t = dm /\ node_id t = nid.
Proof.
  destruct (KBucket_init (PeerID:=PeerID) now MIN MAX n 0) as [b|] eqn:E; [|done].
  exists (mkTable nid n dm [b] [] []). unfold RoutingTable_init. rewrite E.
  apply bucket_init_inv in E as (Hb & Hl & Hu & Hd). split; [done|]. split; [|done].
  split; simpl; [|by apply Forall_singleton]. split_and!; auto.
  unfold bucket_ok. rewrite Hl, Hu, Hd. split_and!; [lia|done|]. apply Z.divide_0_r.
Qed.

Lemma add_total now t id peer :
  table_inv t -> (2 <= bucket_size t)%nat -> (0 < depth_modulo t)%nat -> valid_id id ->
  exists t' ping, add_or_update_node now t id peer = Ok (t', ping) /\ table_inv t' /\
    bucket_size t' = bucket_size t /\ depth_modulo t' = depth_modulo t /\
    node_id t' = node_id t /\ known t' id peer.
Proof.
  intros Hi Hn Hm Hid. destruct (get_bucket_index_spec _ _ (ti_tiles _ Hi) Hid) as (i & b & Hg & Hb & _).
  apply (add_loop_spec 162 now t id peer i b); auto. lia.
Qed.

Lemma reachable_inv nid n dm t :
  (2 <= n)%nat -> (0 < dm)%nat -> reachable nid n dm t ->
  table_inv t /\ bucket_size t = n /\ depth_modulo t = dm /\ node_id t = nid.
Proof.
  intros Hn Hm. induction 1 as [now t H|now t id peer t' ping Hr IH Hid H|t id t' Hr IH H].
  - destruct (table_init_inv now nid n dm) as (t' & H' & Hi). rewrite H in H'. simplify_eq. tauto.
  - destruct IH as (Hi & Es & Em & En).
    destruct (add_total now t id peer Hi) as (t'' & ping' & Ha & Hi' & E1 & E2 & E3 & _); [lia|lia|done|].
    rewrite H in Ha. simplify_eq. split_and!; auto.
  - destruct IH as (Hi & Es & Em & En). apply table_delitem_inv in H as (Hi' & E1 & E2 & E3); auto.
    split_and!; auto; congruence.
Qed.

Lemma tiles_lower lo bs hi b : tiles lo bs hi -> b ∈ bs -> lo <= lower b.
Proof.
  intros Ht Hb. apply list_elem_of_lookup in Hb as [i Hi]. destruct (tiles_split _ _ _ _ _ Ht Hi) as (H1 & _ & _).
  by apply tiles_le in H1.
Qed.

Lemma table_nodes_valid t e : table_inv t -> e ∈ nodes_of (buckets t) -> valid_id e.1.
Proof.
  intros [Ht Hf] He. unfold nodes_of in He. apply list_elem_of_In, in_concat in He as (l & Hl & He).
  apply in_map_iff in Hl as (b & <- & Hb). apply list_elem_of_In in Hb, He. rewrite Forall_forall in Hf.
  destruct (bi_range _ _ (Hf b Hb) e.1) as [H1 H2]; [left; unfold dkeys; by apply list_elem_of_fmap_2|].
  pose proof (tiles_lower _ _ _ _ Ht Hb). unfold valid_id. lia.
Qed.

(** The climb collects the nodes of a block around the query, or of the whole table. *)
Lemma nearest_collected t q k exclude :
  tiles MIN (buckets t) MAX -> valid_id q ->
  let k' := (k + match exclude with Some _ => 1 | None => 0 end)%nat in
  exists lo hi d L M R cand,
    get_nearest_neighbors t q k exclude =
      Ok (take k (filter (fun e : Z * PeerID => Some e.1 <> exclude) (map snd (nsmallest k' cand)))) /\
    collected (buckets t) q lo hi d L M R cand /\ (d = 0%nat \/ (k' <= length cand)%nat).
Proof.
  intros Ht Hq k'. unfold get_nearest_neighbors.
  destruct (get_bucket_index_spec _ _ Ht Hq) as (i & b & Hg & Hb & Hr).
  rewrite Hg. cbn [rbind]. rewrite Hb. cbn [of_option rbind].
  destruct (tiles_split _ _ _ _ _ Ht Hb) as (HL & Hok & HR).
  destruct (push_all_spec (candidates_of q b) []) as [Hcs Hcp]; [constructor|].
  set (cand := foldl _ [] (candidates_of q b)) in *.
  assert (Hlen : length (take i (buckets t)) = i).
  { rewrite length_take. apply lookup_lt_Some in Hb. lia. }
  destruct (climb_spec q k' (depth b) (buckets t) (lower b) (upper b) (take i (buckets t)) [b]
              (drop (S i) (buckets t)) cand) as (lo' & hi' & d' & L & M & R & cand' & Hcl & Hco & Hend).
  { destruct Hok as (Hd & Hu & Hdv). split; auto.
    - symmetry. by apply take_drop_middle.
    - simpl. by split_and!.
    - rewrite Hcp. unfold all_candidates. simpl. by rewrite app_nil_r. }
  rewrite Hlen in Hcl. cbn [length] in Hcl. rewrite Nat.add_1_r in Hcl.
  exists lo', hi', d', L, M, R, cand'. subst k'. rewrite Hcl. cbn [rbind]. auto.
Qed.

(** The search for neighbors returns on every table whose buckets tile the space, and only nodes of the table. *)
Lemma nearest_total t q k exclude :
  tiles MIN (buckets t) MAX -> valid_id q ->
  exists l, get_nearest_neighbors t q k exclude = Ok l /\ forall e, e ∈ l -> e ∈ nodes_of (buckets t).
Proof.
  intros Ht Hq. destruct (nearest_collected t q k exclude Ht Hq) as (lo & hi & d & L & M & R & cand & -> & Hco & _).
  eexists. split; [done|]. intros e He. apply elem_of_take in He as (j & Hj & _). apply list_elem_of_lookup_2 in Hj.
  apply list_elem_of_filter in Hj as [_ Hj]. apply list_elem_of_In, in_map_iff in Hj as (c & <- & Hc).
  apply list_elem_of_In in Hc. unfold nsmallest in Hc. apply elem_of_take in Hc as (j' & Hc & _).
  apply list_elem_of_lookup_2 in Hc. rewrite heapify_perm, (co_perm _ _ _ _ _ _ _ _ _ Hco) in Hc.
  rewrite (co_split _ _ _ _ _ _ _ _ _ Hco), all_candidates_nodes in *. apply list_elem_of_In, in_map_iff in Hc as (e & <- & He).
  apply list_elem_of_In in He. unfold nodes_of in *. rewrite !map_app, !concat_app. simpl. set_solver.
Qed.
End Invariant.

(** * Theorems *)

Section Theorems.
Context {PeerID : Type} `{EqP : EqDecision PeerID} `{OrdP : PyOrd PeerID} {LawP : PyOrdLaws PeerID}.
Implicit Types (t : RoutingTable PeerID).

(** The specification: sort all nodes of the table by distance and keep the first [k]
    that are not excluded. *)
Definition nearest_reference (bs : list (KBucket PeerID)) (query : Z) (k : nat) (exclude : option Z) : list (Z * PeerID) :=
  take k (filter (fun e : Z * PeerID => Some e.1 <> exclude)
            (map snd (py_sorted (all_candidates query bs)))).

(** C15: In every table with a bucket size of at least 2 and a positive depth modulo that is reached by adding and removing nodes, the buckets tile the
    identifier space by aligned blocks, hold at most [bucket_size] nodes with pairwise
    different ids, keep replacements only while full, and the binary search of
    [get_bucket_index] returns the one bucket whose range contains the identifier. *)
Theorem routing_table_invariant nid n dm t id :
  (2 <= n)%nat -> (0 < dm)%nat -> reachable nid n dm t -> valid_id id ->
  tiles MIN (buckets t) MAX /\ Forall (bucket_inv n) (buckets t) /\
  exists i b, get_bucket_index (buckets t) id = Ok i /\ buckets t !! i = Some b /\
    has_in_range b id = true /\
    forall j b', buckets t !! j = Some b' -> has_in_range b' id = true -> j = i.
Proof.
  intros Hn Hm Hr Hid. destruct (reachable_inv _ _ _ _ Hn Hm Hr) as ([Ht Hf] & <- & _).
  split; [done|]. split; [done|].
  destruct (get_bucket_index_spec _ _ Ht Hid) as (i & b & Hg & Hb & Hrg).
  exists i, b. unfold has_in_range. split_and!; auto.
  - apply andb_true_iff. rewrite Z.leb_le, Z.ltb_lt. done.
  - intros j b' Hj Hr'. apply andb_true_iff in Hr'. rewrite Z.leb_le, Z.ltb_lt in Hr'.
    eapply tiles_unique; eauto.
Qed.

(** C16: [add_or_update_node] always returns on a reachable table with a bucket size of at least 2 and a positive depth modulo (the recursive
    splitting ends within the 160 bits of an identifier), keeps the invariant, and
    afterwards the table maps the identifier to the peer and the peer to it. *)
Theorem add_or_update_node_total nid n dm t now id peer :
  (2 <= n)%nat -> (0 < dm)%nat -> reachable nid n dm t -> valid_id id ->
  exists t' ping, add_or_update_node now t id peer = Ok (t', ping) /\ reachable nid n dm t' /\
    get_by_node_id t' id = Some peer /\ get_by_peer_id t' peer = Some id /\
    contains_node t' id = true.
Proof.
  intros Hn Hm Hr Hid. destruct (reachable_inv _ _ _ _ Hn Hm Hr) as (Hi & Es & Em & En).
  destruct (add_total now t id peer Hi) as (t' & ping & Ha & _ & _ & _ & _ & Hk1 & Hk2); [lia|lia|done|].
  exists t', ping. split_and!; auto; [by eapply r_add|].
  unfold contains_node. apply dmem_true. unfold get_by_node_id in Hk1. eauto.
Qed.

(** C17: When every node lies in the range of its bucket, [get_nearest_neighbors]
    returns the first [k] non-excluded nodes of the whole table in order of distance,
    although it only visits the buckets around the query. *)
Theorem get_nearest_neighbors_correct t q k exclude :
  tiles MIN (buckets t) MAX -> Forall bucket_strict (buckets t) -> valid_id q ->
  get_nearest_neighbors t q k exclude = Ok (nearest_reference (buckets t) q k exclude).
Proof.
  intros Ht Hs Hq. destruct (nearest_collected t q k exclude Ht Hq) as (lo & hi & d & L & M & R & cand' & -> & Hco & Hend).
  set (k' := (k + match exclude with Some _ => 1 | None => 0 end)%nat) in *.
  assert (Htop : nsmallest k' cand' = take k' (py_sorted (all_candidates q (buckets t)))).
  { unfold nsmallest, py_sorted. rewrite (heapify_id cand') by apply Hco.
    destruct Hend as [->|Hk]; [by rewrite (collected_root _ _ _ _ _ _ _ _ Hco)|].
    by apply (collected_prefix _ _ _ _ _ _ _ _ _ _ Hco). }
  rewrite Htop. unfold nearest_reference. rewrite <- firstn_map. f_equal. apply take_filter_take, excluded_at_most_one.
  rewrite sorted_candidates_ids. by eapply nodes_of_NoDup.
Qed.

(** Deleting a node of a bucket that has replacements promotes the most recent
    replacement, so that a full bucket stays full. *)
Theorem delete_promotes_replacement n (b : KBucket PeerID) id k v r :
  bucket_inv n b -> id ∈ dkeys (nodes_to_peer_id b) -> replacement_nodes b = r ++ [(k, v)] ->
  exists b', bucket_delitem b id = Ok b' /\ replacement_nodes b' = r /\
    dget (nodes_to_peer_id b') k = Some v /\ dget (nodes_to_peer_id b') id = None /\
    length (nodes_to_peer_id b') = length (nodes_to_peer_id b).
Proof.
  intros Hi Hid Er. destruct (Hi) as [Hs Hn Hr Hrg Hb Hf Hd].
  assert (Hk : k ∉ dkeys (nodes_to_peer_id b)).
  { intros Hk. apply (Hd k Hk). rewrite Er. unfold dkeys. rewrite fmap_app. set_solver. }
  assert (Hne : id <> k) by (intros ->; done).
  unfold bucket_delitem. rewrite (proj2 (dmem_elem _ _) Hid). cbn [orb negb].
  rewrite (proj2 (dmem_not_elem _ _) (Hd id Hid)), Er.
  unfold dpopitem. rewrite last_snoc, removelast_last.
  eexists. split; [done|]. simpl. split_and!; [done|apply dget_dset_eq| |].
  - rewrite dget_dset_ne by done. apply dget_ddel_eq.
  - rewrite dset_length_notin by (rewrite dkeys_ddel_elem; tauto).
    symmetry. apply ddel_length; [done|]. by apply dget_dkeys.
Qed.
End Theorems.

(** ** Concrete tables, with integers for peer ids *)

Definition build (nid : Z) (n dm : nat) (l : list (Z * Z)) : result (RoutingTable Z) :=
  let* t := RoutingTable_init 0 nid n dm in
  foldM_r (fun t e => let* (t', _) := add_or_update_node 0 t e.1 e.2 in Ok t') t l.

Lemma build_reachable nid n dm l t :
  Forall (fun e => valid_id e.1) l -> build nid n dm l = Ok t -> reachable nid n dm t.
Proof.
  intros Hl H. unfold build in H. apply rbind_ok in H as (t0 & Hi & H).
  apply r_init in Hi. revert t0 Hi H. induction Hl as [|e l He Hl IH]; intros t0 Hi H; simpl in H.
  { by simplify_eq. }
  mon_inv. destruct a0 as [t1 ping]. simplify_eq. eapply IH; [|done]. by eapply r_add.
Qed.

#[export] Instance bucket_strict_dec {P : Type} (b : KBucket P) : Decision (bucket_strict b).
Proof.
  refine (cast_if_and (decide (dwf (nodes_to_peer_id b)))
            (decide (Forall (fun id => lower b <= id < upper b) (dkeys (nodes_to_peer_id b)))));
    unfold bucket_strict; rewrite <- Forall_forall; tauto.
Defined.

#[export] Instance valid_id_dec x : Decision (valid_id x).
Proof. unfold valid_id. apply _. Defined.

Definition half : Z := 2 ^ 159.

Definition demo_nodes : list (Z * Z) := [(5, 105); (half + 9, 109); (1, 101); (half + 3, 103); (6, 106)].

Definition demo : RoutingTable Z :=
  match build 0 2 5 demo_nodes with Ok t => t | Raise _ => mkTable 0 2 5 [] [] [] end.

Lemma demo_reachable : reachable 0 2 5 demo.
Proof.
  apply (build_reachable 0 2 5 demo_nodes).
  - apply (bool_decide_unpack _). by vm_compute.
  - by vm_compute.
Qed.

Lemma demo_inv : table_inv demo.
Proof. apply (reachable_inv 0 2 5 demo); [lia|lia|apply demo_reachable]. Qed.

Lemma demo_strict : Forall bucket_strict (buckets demo).
Proof. apply (bool_decide_unpack _). by vm_compute. Qed.

Lemma routing_table_invariant_witness :
  exists i b, get_bucket_index (buckets demo) 6 = Ok i /\ buckets demo !! i = Some b /\
    has_in_range b 6 = true.
Proof.
  destruct (routing_table_invariant 0 2 5 demo 6) as (_ & _ & i & b & Hi & Hb & Hr & _);
    [lia|lia|apply demo_reachable|apply (bool_decide_unpack _); by vm_compute|].
  exists i, b. auto.
Defined.

Lemma add_or_update_node_total_witness :
  exists t' ping, add_or_update_node 1 demo 7 107 = Ok (t', ping) /\ contains_node t' 7 = true.
Proof.
  destruct (add_or_update_node_total 0 2 5 demo 1 7 107) as (t' & ping & Ha & _ & _ & _ & Hc);
    [lia|lia|apply demo_reachable|apply (bool_decide_unpack _); by vm_compute|].
  exists t', ping. auto.
Defined.

Lemma get_nearest_neighbors_correct_witness :
  get_nearest_neighbors demo 4 3 (Some 5) = Ok [(6, 106); (1, 101); (half + 3, 103)].
Proof.
  rewrite (get_nearest_neighbors_correct demo 4 3 (Some 5));
    [by vm_compute|apply demo_inv|apply demo_strict|apply (bool_decide_unpack _); by vm_compute].
Defined.

Lemma delete_promotes_replacement_witness :
  exists b', bucket_delitem (mkBucket 0 MAX 1 0 [(3, 103)] [(4, 104); (5, 105)] ∅ 0) 3 = Ok b' /\
    dget (nodes_to_peer_id b') 5 = Some 105.
Proof.
  destruct (delete_promotes_replacement 1 (mkBucket 0 MAX 1 0 [(3, 103)] [(4, 104); (5, 105)] ∅ 0)
              3 5 105 [(4, 104)]) as (b' & Hb & _ & Hk & _); [|simpl; set_solver|done|eauto].
  split; simpl; try done; try (apply (bool_decide_unpack _); by vm_compute).
  - intros id Hid. assert (id = 3 \/ id = 4 \/ id = 5) by set_solver. assert (10 < MAX) by done. lia.
  - set_solver.
Defined.

(** The nodes that break a table of bucket size 2: one lies on the midpoint of the first split. *)
Definition midpoint_nodes : list (Z * Z) := [(half, 100); (1, 101); (half + 1, 102)].

(** A node whose identifier is the midpoint of a split bucket ([<=] instead of [<] in
    [KBucket.split]) stays known to the table but is lost to its operations: deleting it raises
    [KeyError], and a nearest-neighbour query for exactly this identifier returns another node. *)
Theorem midpoint_node_lost :
  exists t, reachable 0 2 5 t /\ contains_node t half = true /\
    table_delitem t half = Raise KeyError /\
    get_nearest_neighbors t half 1 None = Ok [(half + 1, 102)] /\
    nearest_reference (buckets t) half 1 None = [(half, 100)].
Proof.
  destruct (build 0 2 5 midpoint_nodes) as [t|] eqn:E; [|by vm_compute in E].
  exists t. split.
  { apply (build_reachable _ _ _ midpoint_nodes); [|done]. apply (bool_decide_unpack _). by vm_compute. }
  vm_compute in E. injection E as <-. split_and!; by vm_compute.
Qed.
