(* ===== verification/Storage.v ===== *)
(** * Local storage with nested dictionaries ([mesh/dht/storage.py])

    A [DHTLocalStorage] is a [TimedStorage] whose values are binary strings or
    [DictionaryDHTValue] objects.  The code mutates a stored dictionary in place, so the
    model keeps the dictionaries in a list of objects and the storage holds
    references (indices) into it. *)

From S2P Require Import Prelude TimedStorage.

Section DictionaryDHTValue.
Context {Subkey V : Type} `{EqS : EqDecision Subkey} `{OrdS : PyOrd Subkey} {LawS : PyOrdLaws Subkey}.

(** [latest_expiration_time] starts at [-inf], here [None]. *)
Record DictionaryDHTValue : Type := mkDict {
  entries : TimedStorage Subkey V;
  latest_expiration_time : option Z;
}.

Definition new_dictionary (maxsize : option nat) : DictionaryDHTValue := mkDict (init false maxsize) None.

(** [a > b] and [max(a, b)] where [b] may be [-inf]. *)
Definition above (e : Z) (o : option Z) : bool := match o with Some l => l <? e | None => true end.
Definition max_inf (o : option Z) (e : Z) : Z := match o with Some l => Z.max l e | None => e end.

(** [DictionaryDHTValue.store] *)
Definition dict_store (now : Z) (d : DictionaryDHTValue) (k : Subkey) (v : V) (e : Z)
    : result (DictionaryDHTValue * bool) :=
  let* (s, ok) := store now (entries d) k v e in
  Ok (mkDict s (Some (max_inf (latest_expiration_time d) e)), ok).

Section wire.
(** [MSGPackSerializer.dumps] and [loads] on the triple that is packed. *)
Context {Raw : Type}.
Variable dumps : option nat * option Z * list (Subkey * V * Z) -> Raw.
Variable loads : Raw -> result (option nat * option Z * list (Subkey * V * Z)).

(** [DictionaryDHTValue.packb] *)
Definition packb (now : Z) (d : DictionaryDHTValue) : result (DictionaryDHTValue * Raw) :=
  let* (s, its) := items now (entries d) in
  let packed_items := map (fun kx => (kx.1, value kx.2, expiration_time kx.2)) its in
  Ok (mkDict s (latest_expiration_time d),
      dumps (maxsize s, latest_expiration_time d, packed_items)).

(** [DictionaryDHTValue.unpackb]; the new dictionary is frozen while it is filled. *)
Definition unpackb (now : Z) (raw : Raw) : result DictionaryDHTValue :=
  let* x := loads raw in
  let '(size, latest, its) := x in
  let new_dict := mkDict (set_frozen (init false size) true) None in
  let* d := foldM_r (fun d it => let '(k, v, e) := it in rmap fst (dict_store now d k v e)) new_dict its in
  Ok (mkDict (set_frozen (entries d) false) latest).
End wire.
End DictionaryDHTValue.
Arguments DictionaryDHTValue : clear implicits.

Section DHTLocalStorage.
Context {Subkey V : Type} `{EqS : EqDecision Subkey} `{OrdS : PyOrd Subkey} {LawS : PyOrdLaws Subkey}.
Abbreviation Dict := (DictionaryDHTValue Subkey V).

(** A value is a binary string or a reference to a dictionary object. *)
Inductive DHTValue : Type := Binary (v : V) | Dictionary (ref : nat).

Record DHTLocalStorage : Type := mkLS {
  objects : list Dict;
  table : TimedStorage Z DHTValue;
}.
Implicit Types (st : DHTLocalStorage) (d : Dict).

Definition storage_init (maxsize : option nat) : DHTLocalStorage := mkLS [] (init false maxsize).

(** [DHTLocalStorage.store_subkey] *)
Definition store_subkey (now : Z) st (key : Z) (subkey : Subkey) (v : V) (e : Z)
    : result (DHTLocalStorage * bool) :=
  let* (tb, previous) := get now (table st) key in
  let create :=
    let* (new_storage, _) := dict_store now (new_dictionary None) subkey v e in
    let* (tb', ok) := store now tb key (Dictionary (length (objects st)))
                        (max_inf (latest_expiration_time new_storage) e) in
    Ok (mkLS (objects st ++ [new_storage]) tb', ok) in
  match previous with
  | None => create
  | Some (VWE (Binary _) previous_expiration_time) =>
      if previous_expiration_time <? e then create else Ok (mkLS (objects st) tb, false)
  | Some (VWE (Dictionary ref) _) =>
      let* d := of_option RuntimeError (objects st !! ref) in
      let* tb' := if above e (latest_expiration_time d)
                  then rmap fst (store now tb key (Dictionary ref) e) else Ok tb in
      let* (d', ok) := dict_store now d subkey v e in
      Ok (mkLS (<[ref := d']> (objects st)) tb', ok)
  end.

(** [DHTLocalStorage.store] of a binary value *)
Definition local_store (now : Z) st (key : Z) (v : V) (e : Z) (subkey : option Subkey)
    : result (DHTLocalStorage * bool) :=
  match subkey with
  | Some sk => store_subkey now st key sk v e
  | None => let* (tb, ok) := store now (table st) key (Binary v) e in Ok (mkLS (objects st) tb, ok)
  end.

(** [DHTLocalStorage.get] (inherited): the value and its expiration time. *)
Definition local_get (now : Z) st (key : Z)
    : result (DHTLocalStorage * option (ValueWithExpiration DHTValue)) :=
  let* (tb, r) := get now (table st) key in Ok (mkLS (objects st) tb, r).
End DHTLocalStorage.
Arguments DHTValue : clear implicits.
Arguments DHTLocalStorage : clear implicits.

(** ** Lemmas *)

Section Effects.
Context {K V : Type} `{EqK : EqDecision K} `{OrdK : PyOrd K} {LawK : PyOrdLaws K}.
Implicit Types (s : TimedStorage K V) (k : K) (now e : Z).

(** What a store does to the data, for the key itself and for the others. *)
Lemma store_effect now s k v e s' b k' x :
  wf s -> store now s k v e = Ok (s', b) -> dget (data s') k' = Some x ->
  (k' = k /\ x = VWE v e /\ b = true) \/ (dget (data s) k' = Some x /\ (k' = k -> b = false)).
Proof.
  intros Hwf. unfold store. destruct (_ && negb (frozen s)); [intros; simplify_eq; auto|].
  destruct (dget (data s) k) as [old|] eqn:Ed; [destruct (expiration_time old <? e)|].
  - intros Hs Hx. simplify_eq. simpl in Hx. destruct (decide (k = k')) as [->|].
    + rewrite dget_dset_eq in Hx. left. naive_solver.
    + rewrite dget_dset_ne in Hx by done. right. naive_solver.
  - intros. simplify_eq. auto.
  - destruct (remove_outdated_spec now
      (mkTS (frozen s) (maxsize s) (dset (data s) k (VWE v e))
         (heappush (e, k) (expiration_heap s)) (dset (key_to_heap s) k (e, k))))
      as (s1 & -> & Hc); [destruct s; by apply wf_store_new|].
    intros Hs Hx. simpl in Hs. simplify_eq. apply (cl_kept _ _ _ Hc) in Hx as [Hx _]. simpl in Hx.
    destruct (decide (k = k')) as [->|].
    + rewrite dget_dset_eq in Hx. left. naive_solver.
    + rewrite dget_dset_ne in Hx by done. right. naive_solver.
Qed.

Lemma get_effect now s k :
  wf s -> exists s', get now s k = Ok (s', dget (data s') k) /\ cleaned now s s'.
Proof. intros Hwf. unfold get. destruct (remove_outdated_spec now s Hwf) as (s' & -> & Hc). simpl. eauto. Qed.

(** A store that succeeds keeps its value, in an unbounded storage. *)
Lemma store_true_data now s k v e s' :
  wf s -> maxsize s = None -> now <= e -> store now s k v e = Ok (s', true) ->
  dget (data s') k = Some (VWE v e).
Proof. intros Hwf Hm He Hs. by destruct (store_true_holds now s s' k v e Hwf Hm He Hs) as (_ & _ & ? & _). Qed.
End Effects.

Section Invariant.
Context {Subkey V : Type} `{EqS : EqDecision Subkey} `{OrdS : PyOrd Subkey} {LawS : PyOrdLaws Subkey}.
Implicit Types (st : DHTLocalStorage Subkey V) (d : DictionaryDHTValue Subkey V) (key now e : Z).

Definition dict_ok d : Prop :=
  wf (entries d) /\ frozen (entries d) = false /\ maxsize (entries d) = None.

(** References are valid and not shared between keys, and the expiration time under
    which a dictionary is stored is the latest one of its entries. *)
Record ls_inv st : Prop := {
  li_wf : wf (table st);
  li_frozen : frozen (table st) = false;
  li_maxsize : maxsize (table st) = None;
  li_objects : Forall dict_ok (objects st);
  li_refs key r o : dget (data (table st)) key = Some (VWE (Dictionary r) o) ->
    exists d, objects st !! r = Some d /\ latest_expiration_time d = Some o;
  li_inj k1 k2 r o1 o2 : dget (data (table st)) k1 = Some (VWE (Dictionary r) o1) ->
    dget (data (table st)) k2 = Some (VWE (Dictionary r) o2) -> k1 = k2;
}.

Lemma storage_init_inv : ls_inv (storage_init None).
Proof. split; try done. apply wf_init. Qed.

Lemma dict_store_spec now d k v e :
  dict_ok d -> exists d', dict_store now d k v e = Ok (d', accepts now (entries d) k e) /\ dict_ok d' /\
    latest_expiration_time d' = Some (max_inf (latest_expiration_time d) e) /\
    store now (entries d) k v e = Ok (entries d', accepts now (entries d) k e).
Proof.
  intros (Hwf & Hf & Hm). destruct (store_spec now (entries d) k v e Hwf) as (s & Hs & Hwf' & Hf' & Hm').
  unfold dict_store. rewrite Hs. simpl. eexists. split; [done|]. simpl.
  split_and!; auto. unfold dict_ok. simpl. split_and!; congruence.
Qed.

(** Cleaning the table up keeps the invariant. *)
Lemma ls_inv_cleaned st now tb :
  ls_inv st -> cleaned now (table st) tb -> ls_inv (mkLS (objects st) tb).
Proof.
  intros [H1 H2 H3 H4 H5 H6] Hc. split; simpl; auto.
  - apply Hc.
  - by rewrite (cl_frozen _ _ _ Hc).
  - by rewrite (cl_maxsize _ _ _ Hc).
  - intros key r o Hk. apply (cl_kept _ _ _ Hc) in Hk as [Hk _]. eauto.
  - intros k1 k2 r o1 o2 Hk1 Hk2. apply (cl_kept _ _ _ Hc) in Hk1 as [Hk1 _], Hk2 as [Hk2 _]. eauto.
Qed.

(** Storing a value that does not refer to an object of the table. *)
Lemma ls_inv_store st now key x e tb ok objs :
  ls_inv st -> store now (table st) key x e = Ok (tb, ok) -> Forall dict_ok objs ->
  (forall r d, objects st !! r = Some d -> objs !! r = Some d) ->
  match x with
  | Binary _ => True
  | Dictionary r => (length (objects st) <= r)%nat /\
      exists d, objs !! r = Some d /\ latest_expiration_time d = Some e
  end ->
  ls_inv (mkLS objs tb).
Proof.
  intros [H1 H2 H3 H4 H5 H6] Hs Ho Hext Hx.
  destruct (store_spec now (table st) key x e H1) as (s' & Hs' & Hw & Hf & Hm).
  rewrite Hs in Hs'. simplify_eq. split; simpl; auto; try congruence.
  - intros k r o Hk. destruct (store_effect _ _ _ _ _ _ _ _ _ H1 Hs Hk) as [(-> & Heq & _)|[Hk' _]].
    + simplify_eq. naive_solver.
    + destruct (H5 _ _ _ Hk') as (d & Hd & Hl). eauto.
  - intros k1 k2 r o1 o2 Hk1 Hk2.
    destruct (store_effect _ _ _ _ _ _ _ _ _ H1 Hs Hk1) as [(-> & Heq1 & _)|[Hk1' _]],
      (store_effect _ _ _ _ _ _ _ _ _ H1 Hs Hk2) as [(-> & Heq2 & _)|[Hk2' _]]; auto.
    + simplify_eq. destruct (H5 _ _ _ Hk2') as (d & Hd & _). apply lookup_lt_Some in Hd. lia.
    + simplify_eq. destruct (H5 _ _ _ Hk1') as (d & Hd & _). apply lookup_lt_Some in Hd. lia.
    + eauto.
Qed.

(** What a reader finds under a key: the binary value, or the entries of the dictionary. *)
Inductive content : Type := CBinary (v : V) | CDict (d : pydict Subkey (ValueWithExpiration V)).

Definition read st key : option (content * Z) :=
  match dget (data (table st)) key with
  | Some (VWE (Binary v) e) => Some (CBinary v, e)
  | Some (VWE (Dictionary r) e) =>
      match objects st !! r with Some d => Some (CDict (data (entries d)), e) | None => None end
  | None => None
  end.

(** Does a sub-key write report success?  [r] is the value found under the key. *)
Definition sub_accepts now st (r : option (ValueWithExpiration (DHTValue V))) (sk : Subkey) e : bool :=
  match r with
  | None => now <=? e
  | Some (VWE (Binary _) pe) => (pe <? e) && (now <=? e)
  | Some (VWE (Dictionary ref) _) =>
      match objects st !! ref with Some d => accepts now (entries d) sk e | None => false end
  end.

Definition subkey_stored st key (sk : Subkey) (v : V) e : Prop :=
  exists es o, read st key = Some (CDict es, o) /\ e <= o /\ dget es sk = Some (VWE v e).

Definition others_kept st st' key : Prop :=
  forall key', key' <> key -> read st' key' = None \/ read st' key' = read st key'.

Lemma read_cleaned st now tb key :
  cleaned now (table st) tb ->
  read (mkLS (objects st) tb) key = None \/ read (mkLS (objects st) tb) key = read st key.
Proof.
  intros Hc. unfold read. simpl. destruct (dget (data tb) key) as [x|] eqn:E; [|by left].
  apply (cl_kept _ _ _ Hc) in E as [-> _]. by right.
Qed.

Lemma accepts_new now e k : accepts now (entries (new_dictionary (Subkey:=Subkey) (V:=V) None)) k e = (now <=? e).
Proof. unfold accepts. simpl. rewrite !andb_true_r. by rewrite Z.ltb_antisym, negb_involutive. Qed.

(** The branch that creates a new dictionary. *)
Lemma create_spec st now key sk v e :
  ls_inv st -> (forall x, dget (data (table st)) key = Some x -> expiration_time x < e) ->
  exists d tb, dict_store now (new_dictionary None) sk v e = Ok (d, now <=? e) /\
    latest_expiration_time d = Some e /\
    store now (table st) key (Dictionary (length (objects st))) e = Ok (tb, now <=? e) /\
    let st' := mkLS (objects st ++ [d]) tb in
    ls_inv st' /\ others_kept st st' key /\ (now <= e -> subkey_stored st' key sk v e).
Proof.
  intros Hi Hold.
  assert (Hnew : dict_ok (new_dictionary (Subkey:=Subkey) (V:=V) None)).
  { split; [apply wf_init|done]. }
  destruct (dict_store_spec now (new_dictionary None) sk v e Hnew) as (d & Hd & Hok & Hl & Hds).
  rewrite accepts_new in Hd, Hds. simpl in Hl. exists d.
  destruct (store_spec now (table st) key (Dictionary (length (objects st))) e (li_wf _ Hi))
    as (tb & Hs & _).
  assert (Hacc : accepts now (table st) key e = (now <=? e)).
  { unfold accepts. rewrite (li_frozen _ Hi), andb_true_r, Z.ltb_antisym, negb_involutive.
    destruct (dget (data (table st)) key) as [x|] eqn:E; [|by rewrite andb_true_r].
    rewrite (proj2 (Z.ltb_lt _ _)); [by rewrite andb_true_r|by apply Hold]. }
  rewrite Hacc in Hs. exists tb. split; [done|]. split; [done|]. split; [done|].
  assert (Hlast : (objects st ++ [d]) !! length (objects st) = Some d) by (by apply list_lookup_middle).
  split; [|split].
  - eapply ls_inv_store; eauto.
    + apply Forall_app. split; [apply Hi|]. by apply Forall_singleton.
    + intros r d' Hr. by apply lookup_app_l_Some.
    + simpl. split; [lia|]. exists d. done.
  - intros key' Hne. unfold read. simpl.
    destruct (dget (data tb) key') as [x|] eqn:E; [|by left]. right.
    destruct (store_effect _ _ _ _ _ _ _ _ _ (li_wf _ Hi) Hs E) as [(? & _)|[E' _]]; [done|].
    rewrite E'. destruct x as [[|r] o]; [done|]. destruct (li_refs _ Hi _ _ _ E') as (d' & Hd' & _).
    by rewrite (lookup_app_l_Some _ _ _ _ Hd'), Hd'.
  - intros He. rewrite (proj2 (Z.leb_le _ _) He) in Hs, Hds.
    assert (Ht : dget (data tb) key = Some (VWE (Dictionary (length (objects st))) e))
      by (apply (store_true_data now (table st)); auto; apply Hi).
    assert (Hsk : dget (data (entries d)) sk = Some (VWE v e))
      by (apply (store_true_data now (entries (new_dictionary None))); auto; apply Hnew).
    exists (data (entries d)), e. unfold read. simpl. rewrite Ht, Hlast. split_and!; auto. lia.
Qed.

(** The branch that extends a stored dictionary; [tb] is the table after the refresh. *)
Lemma extend_spec st now key sk v e r o d tb okb :
  ls_inv st -> dget (data (table st)) key = Some (VWE (Dictionary r) o) -> objects st !! r = Some d ->
  (now <= o) ->
  tb = table st /\ e <= o \/ store now (table st) key (Dictionary r) e = Ok (tb, okb) /\ o < e ->
  exists d', dict_store now d sk v e = Ok (d', accepts now (entries d) sk e) /\
    let st' := mkLS (<[r := d']> (objects st)) tb in
    ls_inv st' /\ others_kept st st' key /\
    (accepts now (entries d) sk e = true -> now <= e -> subkey_stored st' key sk v e).
Proof.
  intros Hi Hk Hr Hno Htb. destruct (li_refs _ Hi _ _ _ Hk) as (d0 & Hr0 & Hl). rewrite Hr in Hr0. simplify_eq.
  assert (Hok : dict_ok d0) by (eapply Forall_lookup_1; [apply Hi|done]).
  destruct (dict_store_spec now d0 sk v e Hok) as (d' & Hd & Hok' & Hl' & Hds). rewrite Hl in Hl'. simpl in Hl'.
  exists d'. split; [done|].
  assert (Hlt : (r < length (objects st))%nat) by (by eapply lookup_lt_Some).
  (* the table after the refresh: the entry of [key] now expires at the latest time *)
  assert (Htab : wf tb /\ frozen tb = false /\ maxsize tb = None /\
            dget (data tb) key = Some (VWE (Dictionary r) (Z.max o e)) /\
            forall k' x, k' <> key -> dget (data tb) k' = Some x -> dget (data (table st)) k' = Some x).
  { destruct Htb as [[-> He]|[Hs He]].
    - rewrite Z.max_l by lia. split_and!; try apply Hi; auto.
    - rewrite Z.max_r by lia.
      destruct (store_spec now (table st) key (Dictionary r) e (li_wf _ Hi)) as (tb' & Hs' & Hw & Hf & Hm).
      rewrite Hs in Hs'. simplify_eq.
      assert (Hacc : accepts now (table st) key e = true).
      { unfold accepts. rewrite Hk. simpl. rewrite (proj2 (Z.ltb_ge e now)) by lia. simpl. apply Z.ltb_lt. lia. }
      rewrite Hacc in Hs. split_and!; auto.
      + by rewrite Hf, (li_frozen _ Hi).
      + by rewrite Hm, (li_maxsize _ Hi).
      + apply (store_true_data now (table st)); auto; [apply Hi..|lia].
      + intros k' x Hne Hx. destruct (store_effect _ _ _ _ _ _ _ _ _ (li_wf _ Hi) Hs Hx) as [(? & _)|[? _]]; done. }
  destruct Htab as (Hw & Hf & Hm & Hkey & Hoth).
  assert (Hinj : forall k' o', k' <> key -> dget (data tb) k' <> Some (VWE (Dictionary r) o')).
  { intros k' o' Hne Hx. apply Hoth in Hx; [|done]. by apply Hne, (li_inj _ Hi _ _ _ _ _ Hx Hk). }
  split; [|split].
  - split; simpl; auto.
    + apply Forall_insert; [apply Hi|done].
    + intros k' r' o' Hx. destruct (decide (k' = key)) as [->|Hne].
      * rewrite Hkey in Hx. simplify_eq. exists d'. split; [by apply list_lookup_insert_eq|done].
      * assert (r' <> r) by (intros ->; by eapply Hinj). rewrite list_lookup_insert_ne by done.
        apply (li_refs _ Hi k'). auto.
    + intros k1 k2 r' o1 o2 H1 H2. destruct (decide (k1 = key)) as [->|Hn1], (decide (k2 = key)) as [->|Hn2]; auto.
      * rewrite Hkey in H1. simplify_eq. by apply Hinj in H2.
      * rewrite Hkey in H2. simplify_eq. by apply Hinj in H1.
      * eapply (li_inj _ Hi); eauto.
  - intros k' Hne. unfold read. simpl. destruct (dget (data tb) k') as [x|] eqn:E; [|by left]. right.
    rewrite (Hoth _ _ Hne E). destruct x as [[|r'] o']; [done|].
    assert (r' <> r) by (intros ->; by eapply Hinj). by rewrite list_lookup_insert_ne.
  - intros Hacc He. rewrite Hacc in Hds. exists (data (entries d')), (Z.max o e). unfold read. simpl.
    rewrite Hkey, list_lookup_insert_eq by done. split_and!; [done|lia|].
    apply (store_true_data now (entries d0)); auto; apply Hok.
Qed.

Lemma accepts_unfrozen {K X : Type} `{EqK : EqDecision K} now (s : TimedStorage K X) k e :
  frozen s = false -> accepts now s k e = true -> now <= e.
Proof. intros Hf Ha. unfold accepts in Ha. rewrite Hf in Ha. propify. destruct Ha as [Ha _]. simpl in Ha. lia. Qed.

(** After a clean-up, what is found under a key has not expired. *)
Lemma cleaned_fresh now st tb key x :
  ls_inv st -> cleaned now (table st) tb -> dget (data tb) key = Some x -> now <= expiration_time x.
Proof.
  intros Hi Hc Hx. pose proof (cl_wf _ _ _ Hc) as Hw. destruct (proj1 (wf_dom _ Hw key)) as [p Hp]; [eauto|].
  pose proof (wf_evict _ Hw _ _ _ Hp Hx). transitivity p.1; [|done].
  apply (cl_fresh _ _ _ Hc key); [apply Hi|]. unfold evict_time. by rewrite Hp.
Qed.

Lemma others_kept_trans st1 st2 st3 key :
  (forall k, read st2 k = None \/ read st2 k = read st1 k) -> others_kept st2 st3 key -> others_kept st1 st3 key.
Proof. intros H1 H2 k Hk. destruct (H2 k Hk) as [->| ->]; [by left|apply H1]. Qed.

Lemma store_subkey_spec st now key sk v e :
  ls_inv st ->
  exists tb st', cleaned now (table st) tb /\
    store_subkey now st key sk v e = Ok (st', sub_accepts now st (dget (data tb) key) sk e) /\
    ls_inv st' /\ others_kept st st' key /\
    (sub_accepts now st (dget (data tb) key) sk e = true -> subkey_stored st' key sk v e).
Proof.
  intros Hi. destruct (get_effect now (table st) key (li_wf _ Hi)) as (tb & Hg & Hc).
  pose proof (ls_inv_cleaned _ _ _ Hi Hc) as Hi1. set (st1 := mkLS (objects st) tb) in *.
  assert (Hr1 : forall k, read st1 k = None \/ read st1 k = read st k) by (intros; by eapply read_cleaned).
  exists tb. unfold store_subkey. rewrite Hg. cbn [rbind].
  assert (Hcr : (forall x, dget (data tb) key = Some x -> expiration_time x < e) ->
    exists st', (let* (new_storage, _) := dict_store now (new_dictionary None) sk v e in
      let* (tb', ok) := store now tb key (Dictionary (length (objects st)))
                          (max_inf (latest_expiration_time new_storage) e) in
      Ok (mkLS (objects st ++ [new_storage]) tb', ok)) = Ok (st', now <=? e) /\
      ls_inv st' /\ others_kept st st' key /\ ((now <=? e) = true -> subkey_stored st' key sk v e)).
  { intros Hold. destruct (create_spec st1 now key sk v e Hi1 Hold) as (d & tb' & -> & Hl & Hs & Hi' & Hot & Hsk).
    cbn [rbind]. rewrite Hl. cbn [max_inf]. rewrite Z.max_id. simpl in Hs. rewrite Hs. cbn [rbind].
    eexists. split; [done|]. split_and!; auto; [by eapply others_kept_trans|].
    intros He. apply Hsk. lia. }
  destruct (dget (data tb) key) as [[[u|r] pe]|] eqn:Ek; simpl.
  - destruct (pe <? e) eqn:Epe; propify; simpl.
    + destruct Hcr as (st' & -> & ?); [intros x ?; by simplify_eq|]. exists st'. done.
    + exists st1. split_and!; [done|done|done|intros k _; apply Hr1|done].
  - destruct (li_refs _ Hi1 _ _ _ Ek) as (d & Hr & Hl). simpl in Hr. rewrite Hr. cbn [of_option rbind].
    pose proof (cleaned_fresh _ _ _ _ _ Hi Hc Ek) as Hfr. simpl in Hfr.
    destruct (store_spec now tb key (Dictionary r) e (cl_wf _ _ _ Hc)) as (tb2 & Hs2 & _).
    rewrite Hl. cbn [above].
    assert (Hx : exists tb', (if pe <? e then rmap fst (store now tb key (Dictionary r) e) else Ok tb) = Ok tb' /\
      (tb' = tb /\ e <= pe \/ store now tb key (Dictionary r) e = Ok (tb', accepts now tb key e) /\ pe < e)).
    { destruct (pe <? e) eqn:E; propify; [rewrite Hs2; simpl; eauto|eauto]. }
    destruct Hx as (tb' & -> & Hx). cbn [rbind].
    destruct (extend_spec st1 now key sk v e r pe d tb' _ Hi1 Ek Hr Hfr Hx) as (d' & -> & Hi' & Hot & Hsk).
    cbn [rbind]. eexists. split_and!; [done|done|done|by eapply others_kept_trans|].
    intros Ha. apply Hsk; [done|]. apply (accepts_unfrozen now (entries d) sk); [|done].
    eapply (Forall_lookup_1 _ _ _ _ (li_objects _ Hi)) in Hr. apply Hr.
  - destruct Hcr as (st' & -> & ?); [done|]. exists st'. done.
Qed.

Lemma local_store_spec st now key v e sk :
  ls_inv st -> exists st' ok, local_store now st key v e sk = Ok (st', ok) /\ ls_inv st'.
Proof.
  intros Hi. destruct sk as [sk|]; simpl.
  - destruct (store_subkey_spec st now key sk v e Hi) as (tb & st' & _ & Hs & Hi' & _). eauto.
  - destruct (store_spec now (table st) key (Binary v) e (li_wf _ Hi)) as (tb & Hs & _).
    rewrite Hs. simpl. eexists _, _. split; [done|]. eapply ls_inv_store; [done|done|apply Hi|done|done].
Qed.

(** * Theorems *)

(** Any sequence of plain and sub-key stores into an unbounded local storage
    returns, and keeps the invariant: every reference is valid, no dictionary object is
    shared by two keys, and each is stored until the latest expiration of its entries. *)
Theorem local_storage_invariant (l : list (Z * (Z * V * Z * option Subkey))) :
  exists st, foldM_r (fun st o => let '(now, (key, v, e, sk)) := o in
                        rmap fst (local_store now st key v e sk)) (storage_init None) l = Ok st /\ ls_inv st.
Proof.
  apply foldM_r_invariant; [|apply storage_init_inv]. intros st [now [[[key v] e] sk]] Hi.
  destruct (local_store_spec st now key v e sk Hi) as (st' & ok & -> & Hi'). simpl. eauto.
Qed.

(** A sub-key write that reports success can be read back: the key then holds a
    dictionary, stored at least until [e], whose entry for the sub-key is the new value;
    the other keys keep their contents (or have expired).  A write is refused exactly when
    it is already expired, when a binary value that lives at least as long is stored under the
    key, or when the dictionary refuses the entry. *)
Theorem store_subkey_correct st now key sk v e :
  ls_inv st ->
  exists tb st', cleaned now (table st) tb /\
    store_subkey now st key sk v e = Ok (st', sub_accepts now st (dget (data tb) key) sk e) /\
    others_kept st st' key /\
    (sub_accepts now st (dget (data tb) key) sk e = true -> subkey_stored st' key sk v e).
Proof.
  intros Hi. destruct (store_subkey_spec st now key sk v e Hi) as (tb & st' & H1 & H2 & _ & H3 & H4). eauto 10.
Qed.
End Invariant.

Section RoundTrip.
Context {Subkey V Raw : Type} `{EqS : EqDecision Subkey} `{OrdS : PyOrd Subkey} {LawS : PyOrdLaws Subkey}.
Variable dumps : option nat * option Z * list (Subkey * V * Z) -> Raw.
Variable loads : Raw -> result (option nat * option Z * list (Subkey * V * Z)).
Hypothesis loads_dumps : forall x, loads (dumps x) = Ok x.

(** Filling a frozen dictionary with distinct keys appends the entries. *)
Lemma fill_spec now (its : pydict Subkey (ValueWithExpiration V)) : forall d,
  wf (entries d) -> frozen (entries d) = true -> dwf (data (entries d) ++ its) ->
  exists d', foldM_r (fun d it => let '(k, v, e) := it in rmap fst (dict_store now d k v e)) d
               (map (fun kx => (kx.1, value kx.2, expiration_time kx.2)) its) = Ok d' /\
    data (entries d') = data (entries d) ++ its /\ maxsize (entries d') = maxsize (entries d) /\
    wf (entries d').
Proof.
  induction its as [|[k [v e]] its IH]; intros d Hw Hf Hd; cbn [map foldM_r].
  { exists d. by rewrite app_nil_r. }
  assert (Hk : dget (data (entries d)) k = None).
  { apply dget_None_dkeys. unfold dwf, dkeys in *. rewrite fmap_app in Hd.
    apply NoDup_app in Hd as (_ & Hd & _). intros Hin. apply (Hd _ Hin). set_solver. }
  destruct (store_spec now (entries d) k v e Hw) as (s & Hs & Hw' & Hf' & Hm').
  assert (Hdata : data s = data (entries d) ++ [(k, VWE v e)]).
  { revert Hs. unfold store. rewrite Hf, andb_false_r, Hk. unfold _remove_outdated. simpl.
    rewrite <- dkeys_dset_notin by (by apply dget_None_dkeys).
    destruct (heappush (e, k) (expiration_heap (entries d))) as [|[e' k'] h']; simpl; intros; by simplify_eq. }
  assert (Hds : dict_store now d k v e =
            Ok (mkDict s (Some (max_inf (latest_expiration_time d) e)), accepts now (entries d) k e)).
  { unfold dict_store. by rewrite Hs. }
  cbn [value expiration_time fst snd]. rewrite Hds. cbn [rmap rbind fst].
  destruct (IH (mkDict s (Some (max_inf (latest_expiration_time d) e)))) as (d' & -> & Hd' & Hmx & Hww);
    simpl; auto; [congruence|rewrite Hdata, <- app_assoc; done|].
  exists d'. rewrite Hd'. simpl. rewrite Hdata, <- app_assoc. simpl in Hmx. split_and!; auto. congruence.
Qed.

(** A dictionary survives its wire format: unpacking what [packb] produced gives a
    dictionary with the same entries, the same size limit and the same latest expiration. *)
Theorem dictionary_roundtrip (now now' : Z) (d : DictionaryDHTValue Subkey V) :
  wf (entries d) -> match maxsize (entries d) with Some n => n <> 0%nat | None => True end ->
  exists d1 raw d2, packb dumps now d = Ok (d1, raw) /\ unpackb loads now' raw = Ok d2 /\
    data (entries d2) = data (entries d1) /\ maxsize (entries d2) = maxsize (entries d) /\
    latest_expiration_time d2 = latest_expiration_time d /\ cleaned now (entries d) (entries d1).
Proof.
  intros Hw Hm. unfold packb, items. destruct (remove_outdated_spec now (entries d) Hw) as (s & -> & Hc).
  destruct (fill_spec now' (data s) (mkDict (set_frozen (init false (maxsize s)) true) None))
    as (d2 & Hf & Hd & Hmx & _).
  { apply wf_set_frozen, wf_init. }
  { done. }
  { simpl. apply (wf_data _ (cl_wf _ _ _ Hc)). }
  simpl. eexists _, _, _. split; [done|]. unfold unpackb. rewrite loads_dumps. cbn [rbind].
  rewrite Hf. cbn [rbind]. split; [done|]. simpl.
  split_and!; auto. rewrite Hmx. simpl. rewrite (cl_maxsize _ _ _ Hc).
  by destruct (maxsize (entries d)) as [[|n]|].
Qed.
End RoundTrip.

(** ** Concrete storages: integers for sub-keys and values *)

Lemma local_storage_invariant_witness :
  exists st : DHTLocalStorage Z Z,
    foldM_r (fun st o => let '(now, (key, v, e, sk)) := o in rmap fst (local_store now st key v e sk))
      (storage_init None) [(0, (7, 1, 10, None)); (1, (7, 2, 20, Some 3)); (2, (7, 4, 15, Some 5))] = Ok st /\
    ls_inv st.
Proof. apply (local_storage_invariant (Subkey:=Z) (V:=Z)). Defined.

(** A sub-key written over an older binary value. *)
Lemma store_subkey_correct_witness :
  exists st st' : DHTLocalStorage Z Z, local_store 0 (storage_init None) 7 1 10 None = Ok (st, true) /\
    store_subkey 1 st 7 3 2 20 = Ok (st', true) /\ subkey_stored st' 7 3 2 20.
Proof.
  destruct (local_store_spec (storage_init (Subkey:=Z) (V:=Z) None) 0 7 1 10 None storage_init_inv)
    as (st & ok & Hs & Hi).
  assert (Hst : local_store (Subkey:=Z) (V:=Z) 0 (storage_init None) 7 1 10 None =
                Ok (mkLS [] (mkTS false None [(7, VWE (Binary 1) 10)] [(10, 7)] [(7, (10, 7))]), true))
    by reflexivity.
  rewrite Hst in Hs. injection Hs as <- <-.
  destruct (store_subkey_correct _ 1 7 3 2 20 Hi) as (tb & st' & Hc & Hs & _ & Hk).
  assert (Hacc : sub_accepts 1 (mkLS [] (mkTS false None [(7, VWE (Binary 1) 10)] [(10, 7)] [(7, (10, 7))]))
                   (dget (data tb) 7) 3 20 = true).
  { destruct (dget (data tb) 7) as [x|] eqn:E; [|reflexivity].
    apply (cl_kept _ _ _ Hc) in E as [E _]. cbv in E. injection E as <-. reflexivity. }
  rewrite Hacc in Hs. eexists _, st'. split; [reflexivity|]. split; [exact Hs|]. by apply Hk.
Defined.

Lemma dictionary_roundtrip_witness :
  exists d1 raw d2,
    packb id 1 (mkDict (mkTS false None [(7, VWE 1 10); (8, VWE 2 12)] [(10, 7); (12, 8)]
                           [(7, (10, 7)); (8, (12, 8))]) (Some 12)) = Ok (d1, raw) /\
    unpackb Ok 5 raw = Ok d2 /\ data (entries d2) = data (entries d1).
Proof.
  assert (Hw : exists s, foldM_r run_op (init false None) [(0, OStore 7 1 10); (0, OStore 8 2 12)] = Ok s /\ wf s).
  { apply foldM_r_invariant; [intros; by apply run_op_wf | apply wf_init]. }
  destruct Hw as (s & Hs & Hw). vm_compute in Hs. injection Hs as <-.
  destruct (dictionary_roundtrip (Subkey:=Z) (V:=Z) id Ok (fun x => eq_refl) 1 5 (mkDict _ (Some 12)) Hw I)
    as (d1 & raw & d2 & H1 & H2 & H3 & _).
  exists d1, raw, d2. split; [exact H1|]. by split.
Defined.
