(* ===== verification/Traverse.v ===== *)
(** * Beam search over the DHT graph ([mesh/dht/traverse.py], [simple_traverse_dht])

    The search keeps a nearest-first heap of nodes to query and a farthest-first heap
    of the [beam_size] nearest nodes found so far. *)

From S2P Require Import Prelude DHTID.

(** A heap entry (distance, node); the farthest-first heap negates the distance. *)
Abbreviation entry := (Z * Z)%type.
Definition negate (c : entry) : entry := (- c.1, c.2).
Definition entry_of (query id : Z) : entry := (xor_distance query id, id).

(** [-nearest_nodes[0][0]] *)
Definition root_bound (near : list entry) : result Z :=
  match near with (d, _) :: _ => Ok (- d) | [] => Raise IndexError end.

Record search : Type := mkSearch {
  unvisited_nodes : list entry;
  nearest_nodes : list entry;
  upper_bound : Z;
}.

(** The body of the inner loop: one neighbour found. *)
Definition consider (beam_size : nat) (s : search) (c : entry) : result search :=
  if (c.1 <=? upper_bound s) || (length (nearest_nodes s) <? beam_size)%nat then
    let near := if (length (nearest_nodes s) <? beam_size)%nat
                then heappush (negate c) (nearest_nodes s)
                else heappushpop (negate c) (nearest_nodes s) in
    let* ub := root_bound near in
    Ok (mkSearch (heappush c (unvisited_nodes s)) near ub)
  else Ok s.

Section simple_traverse.
(** [get_neighbors] is called at most once per node: its answers are a function. *)
Variable get_neighbors : Z -> list Z * bool.
Variables (query_id : Z) (beam_size : nat).

(** The main loop. *)
Fixpoint traverse_loop (fuel : nat) (s : search) (visited : gset Z) (was_interrupted : bool)
    : result (search * gset Z) :=
  let more := match unvisited_nodes s with c :: _ => c.1 <=? upper_bound s | [] => false end in
  if negb was_interrupted && more then
    match fuel with
    | O => Raise RuntimeError
    | S fuel' =>
        let* (node_id, rest) := of_option IndexError
                                 (match heappop (unvisited_nodes s) with Some (c, r) => Some (c.2, r) | None => None end) in
        let '(found, stop) := get_neighbors node_id in
        let neighbors := filter (fun n => n ∉ visited) found in
        let visited' := visited ∪ list_to_set neighbors in
        let* s' := foldM_r (consider beam_size) (mkSearch rest (nearest_nodes s) (upper_bound s))
                     (map (entry_of query_id) neighbors) in
        traverse_loop fuel' s' visited' stop
    end
  else Ok (s, visited).

(** [simple_traverse_dht] *)
Definition simple_traverse_dht (fuel : nat) (initial_nodes : list Z) (visited_nodes : gset Z)
    : result (list Z * gset Z) :=
  let initial := filter (fun n => n ∉ visited_nodes) initial_nodes in
  if decide (initial = []) then Ok ([], visited_nodes)
  else
    let unvisited := heapify (map (entry_of query_id) initial) in
    let near0 := heapify (map negate (nsmallest beam_size unvisited)) in
    let near := drop (length near0 - beam_size) near0 in
    let* ub := root_bound near in
    let* (s, visited) := traverse_loop fuel (mkSearch unvisited near ub)
                           (visited_nodes ∪ list_to_set initial) false in
    Ok (map snd (nlargest beam_size (nearest_nodes s)), visited).
End simple_traverse.

(** ** The beam: the nearest [n] of the nodes found so far *)

Record beam_of (n : nat) (all h : list entry) : Prop := {
  bm_sorted : sorted_heap h;
  bm_length : length h = Nat.min n (length all);
  bm_rest : exists rest, map negate all ≡ₚ h ++ rest /\
              forall x y, x ∈ h -> y ∈ rest -> y.1 <= x.1;
}.

Lemma ple_fst (x y : entry) : ple x y -> x.1 <= y.1.
Proof.
  unfold ple, py_leb, prod_pyord, py_leb, Z_pyord. destruct (x.1 <=? y.1) eqn:E; [lia|done].
Qed.

Lemma fst_lt_ple (x y : entry) : x.1 < y.1 -> ple x y.
Proof.
  intros. unfold ple, py_leb, prod_pyord, py_leb, Z_pyord.
  by rewrite (proj2 (Z.leb_le _ _)), (proj2 (Z.leb_gt _ _)) by lia.
Qed.

Lemma negate_negate c : negate (negate c) = c.
Proof. destruct c. unfold negate. simpl. f_equal. lia. Qed.

(** A full beam is non-empty and bounds the distances from above. *)
Lemma root_bound_spec h : sorted_heap h -> h <> [] ->
  exists ub, root_bound h = Ok ub /\ forall x, x ∈ h -> - x.1 <= ub.
Proof.
  intros Hs Hne. destruct h as [|[d i] h]; [done|]. exists (- d). split; [done|].
  intros x Hx. pose proof (sorted_heap_root _ _ _ Hs Hx) as Hle. apply ple_fst in Hle. simpl in Hle. lia.
Qed.

Lemma beam_of_grow n all h c :
  beam_of n all h -> (length h < n)%nat -> beam_of n (all ++ [c]) (heappush (negate c) h).
Proof.
  intros [Hs Hl (rest & Hp & Hr)] Hlt. assert (Hlen : length (map negate all) = length h) by (rewrite length_map; lia).
  assert (rest = []) as ->.
  { apply Permutation_length in Hp. rewrite length_app in Hp. destruct rest; [done|]. simpl in *. lia. }
  split.
  - by apply heappush_sorted.
  - rewrite heappush_perm, length_app. simpl. lia.
  - exists []. split; [|set_solver]. rewrite app_nil_r in *. rewrite map_app, heappush_perm, Hp. simpl.
    by rewrite Permutation_app_comm.
Qed.

Lemma beam_of_replace n all h c ub :
  beam_of n all h -> length h = n -> h <> [] -> root_bound h = Ok ub -> c.1 <= ub ->
  beam_of n (all ++ [c]) (heappushpop (negate c) h).
Proof.
  intros [Hs Hl (rest & Hp & Hr)] Hn Hne Hub Hc. destruct h as [|[d i] h]; [done|]. injection Hub as <-.
  unfold heappushpop. pose proof (heappush_sorted (negate c) _ Hs) as Hs'.
  pose proof (heappush_perm (negate c) ((d, i) :: h)) as Hp'.
  destruct (heappush (negate c) ((d, i) :: h)) as [|m t] eqn:E.
  { apply Permutation_length in Hp'. simpl in Hp'. lia. }
  simpl. split.
  - by eapply sorted_heap_tail.
  - apply Permutation_length in Hp'. simpl in *. rewrite length_app. simpl. lia.
  - exists (m :: rest). split.
    + rewrite map_app, Hp. cbn [map]. rewrite <- (Permutation_middle t rest m).
      rewrite (app_comm_cons t rest m), Hp'. by rewrite (Permutation_app_comm _ [negate c]).
    + intros x y Hx Hy. apply elem_of_cons in Hy as [->|Hy].
      { apply ple_fst, (sorted_heap_root _ t); [done|set_solver]. }
      assert (Hx' : x ∈ negate c :: (d, i) :: h) by (rewrite <- Hp'; set_solver).
      pose proof (Hr (d, i) y ltac:(set_solver) Hy) as Hy1. simpl in Hy1.
      apply elem_of_cons in Hx' as [->|Hx']; [simpl; lia|by apply Hr].
Qed.

Lemma beam_of_skip n all h c ub :
  beam_of n all h -> length h = n -> root_bound h = Ok ub -> ub < c.1 -> beam_of n (all ++ [c]) h.
Proof.
  intros [Hs Hl (rest & Hp & Hr)] Hn Hub Hc. split; [done| |].
  - rewrite length_app. simpl. lia.
  - exists (negate c :: rest). split.
    + rewrite map_app, Hp. cbn [map]. rewrite <- (Permutation_middle h rest (negate c)).
      by rewrite (Permutation_app_comm _ [negate c]).
    + intros x y Hx Hy. apply elem_of_cons in Hy as [->|Hy]; [|by apply Hr].
      destruct h as [|[d i] h]; [done|]. injection Hub as <-.
      pose proof (sorted_heap_root _ _ _ Hs Hx) as Hle. apply ple_fst in Hle. simpl in *. lia.
Qed.

Lemma reverse_negate_sorted h :
  sorted_heap h -> NoDup h.*1 -> sorted_heap (map negate (reverse h)).
Proof.
  unfold sorted_heap. induction 1 as [|x h Hs IH Hf]; simpl; intros Hnd; [constructor|].
  apply NoDup_cons in Hnd as [Hn Hnd]. rewrite reverse_cons, map_app. apply StronglySorted_app.
  split_and!; [|by apply IH|repeat constructor].
  intros a b Ha Hb. simpl in Hb. apply list_elem_of_singleton in Hb as ->.
  apply list_elem_of_fmap in Ha as (a' & -> & Ha). rewrite elem_of_reverse in Ha.
  apply fst_lt_ple. simpl. rewrite Forall_forall in Hf. pose proof (ple_fst _ _ (Hf _ Ha)).
  assert (x.1 <> a'.1); [|lia]. intros E. apply Hn, list_elem_of_fmap. eauto.
Qed.

(** With distinct distances, the beam read farthest-last is the sorted prefix. *)
Lemma beam_of_result n all h :
  beam_of n all h -> NoDup all.*1 ->
  map snd (nlargest n h) = take n (map snd (py_sorted all)).
Proof.
  intros [Hs Hl (rest & Hp & Hr)] Hnd.
  assert (Hnd' : NoDup (h ++ rest).*1).
  { rewrite <- Hp. rewrite <- list_fmap_compose.
    rewrite (list_fmap_ext _ (Z.opp ∘ fst)) by done. rewrite list_fmap_compose.
    assert (Inj eq eq Z.opp) by (intros a b; lia). by apply (NoDup_fmap_2 Z.opp). }
  rewrite fmap_app in Hnd'. apply NoDup_app in Hnd' as (Hndh & Hdis & _).
  unfold nlargest, py_sorted at 1. rewrite heapify_id, take_ge by (rewrite ?length_reverse; done || lia).
  assert (Hall : all ≡ₚ map negate h ++ map negate rest).
  { rewrite <- map_app, <- Hp, map_map. rewrite (map_ext _ (fun c => c) negate_negate). by rewrite map_id. }
  unfold py_sorted. rewrite (heapify_Permutation _ _ Hall).
  rewrite (sorted_prefix (map negate (reverse h))).
  - assert (Hlen : length all = (length h + length rest)%nat).
    { rewrite Hall, length_app, !length_map. done. }
    rewrite map_app, map_map. destruct (decide (n <= length all)%nat).
    + rewrite take_app_length'; [done|]. rewrite length_map, length_reverse. lia.
    + assert (rest = []) as -> by (destruct rest; simpl in *; [done|lia]). simpl. rewrite app_nil_r.
      rewrite take_ge; [done|]. rewrite length_map, length_reverse. lia.
  - by apply reverse_negate_sorted.
  - by rewrite reverse_Permutation.
  - intros x y Hx Hy. apply list_elem_of_fmap in Hx as (x' & -> & Hx).
    apply list_elem_of_fmap in Hy as (y' & -> & Hy). apply fst_lt_ple. simpl.
    pose proof (Hr _ _ Hx Hy). assert (x'.1 <> y'.1); [|lia].
    intros E. apply (Hdis x'.1); [|rewrite E]; apply list_elem_of_fmap; eauto.
Qed.

(** ** The search loop *)

Lemma size_fresh (U V : gset Z) (l : list Z) :
  NoDup l -> (forall x, x ∈ l -> x ∈ U /\ x ∉ V) ->
  (size (U ∖ (V ∪ list_to_set l)) + length l <= size (U ∖ V))%nat.
Proof.
  intros Hnd Hl. rewrite <- (size_list_to_set (C:=gset Z) l Hnd), <- size_union by set_solver.
  apply subseteq_size. set_solver.
Qed.

Section loop.
Context (get_neighbors : Z -> list Z * bool) (query : Z) (beam : nat).
Hypothesis beam_pos : (0 < beam)%nat.
Implicit Types (s : search) (all queried : list Z) (x : Z).

(** [all]: the nodes found so far; [queried]: those that were asked for neighbours. *)
Record core s all queried : Prop := {
  co_beam : beam_of beam (map (entry_of query) all) (nearest_nodes s);
  co_bound : root_bound (nearest_nodes s) = Ok (upper_bound s);
  co_nodup : NoDup all;
  co_heap : sorted_heap (unvisited_nodes s);
  co_known c : c ∈ unvisited_nodes s -> exists x, x ∈ all /\ c = entry_of query x;
  co_cover c : c ∈ nearest_nodes s -> negate c ∈ unvisited_nodes s \/ c.2 ∈ queried;
}.

Lemma entries_NoDup all : NoDup all -> NoDup (map (entry_of query) all).*1.
Proof.
  intros Hnd. rewrite <- list_fmap_compose. apply NoDup_fmap_2_strong; [|done].
  intros x y _ _. apply xor_distance_inj.
Qed.

Lemma bound_nonempty near ub : root_bound near = Ok ub -> near <> [].
Proof. by destruct near. Qed.

Lemma beam_nonempty (near : list entry) all :
  beam_of beam (map (entry_of query) all) near -> all <> [] -> near <> [].
Proof.
  intros [_ Hl _] Hne ->. rewrite length_map in Hl. destruct all; [done|]. simpl in Hl. lia.
Qed.

Lemma consider_spec s all queried x :
  core s all queried -> x ∉ all ->
  exists s', consider beam s (entry_of query x) = Ok s' /\ core s' (all ++ [x]) queried /\
    (length (unvisited_nodes s') <= S (length (unvisited_nodes s)))%nat.
Proof.
  intros [Hb Hub Hnd Hh Hkn Hcv] Hx. unfold consider. set (c := entry_of query x).
  assert (Hnd' : NoDup (all ++ [x])).
  { apply NoDup_app. split_and!; [done|set_solver|apply NoDup_singleton]. }
  assert (Hkn' : forall c', c' ∈ unvisited_nodes s -> exists y, y ∈ all ++ [x] /\ c' = entry_of query y).
  { intros c' Hc'. apply Hkn in Hc' as (y & ? & ->). exists y. set_solver. }
  destruct (_ || _) eqn:Eg; propify.
  2: { destruct Eg as [E1 E2]. exists s. split; [done|]. split; [|lia]. split; auto.
       rewrite map_app. eapply beam_of_skip; eauto. destruct Hb as [_ Hl _]. lia. }
  set (near := if (length (nearest_nodes s) <? beam)%nat then heappush (negate c) (nearest_nodes s)
               else heappushpop (negate c) (nearest_nodes s)).
  assert (Hnear : beam_of beam (map (entry_of query) (all ++ [x])) near).
  { rewrite map_app. subst near. destruct (length (nearest_nodes s) <? beam)%nat eqn:El; propify.
    - by apply beam_of_grow.
    - eapply beam_of_replace; eauto using bound_nonempty.
      + destruct Hb as [_ Hl _]. lia.
      + destruct Eg as [|]; [done|lia]. }
  destruct (root_bound_spec near) as (ub & Hub' & _).
  { apply Hnear. }
  { apply (beam_nonempty _ _ Hnear). by destruct all. }
  rewrite Hub'. simpl. eexists. split; [done|]. simpl. split; [split; simpl; auto|].
  - by apply heappush_sorted.
  - intros c'. rewrite heappush_perm. intros Hc'. apply elem_of_cons in Hc' as [->|Hc']; [|auto].
    exists x. set_solver.
  - intros c' Hc'. rewrite heappush_perm.
    assert (Hin : c' = negate c \/ c' ∈ nearest_nodes s).
    { subst near. unfold heappushpop in Hc'. apply elem_of_cons. rewrite <- heappush_perm.
      destruct (_ <? _)%nat; [done|]. destruct (heappush _ _); [done|]. set_solver. }
    destruct Hin as [->|Hin]; [rewrite negate_negate; set_solver|].
    apply Hcv in Hin. set_solver.
  - by rewrite heappush_perm.
Qed.

Lemma consider_all_spec l : forall s all queried,
  core s all queried -> NoDup (all ++ l) ->
  exists s', foldM_r (consider beam) s (map (entry_of query) l) = Ok s' /\
    core s' (all ++ l) queried /\
    (length (unvisited_nodes s') <= length l + length (unvisited_nodes s))%nat.
Proof.
  induction l as [|x l IH]; intros s all queried Hc Hnd; cbn [map foldM_r].
  { exists s. rewrite app_nil_r. auto. }
  assert (Hx : x ∉ all) by (apply NoDup_app in Hnd as (_ & Hd & _); set_solver).
  destruct (consider_spec s all queried x Hc Hx) as (s1 & -> & Hc1 & Hl1). cbn [rbind].
  replace (all ++ x :: l) with ((all ++ [x]) ++ l) in * by (by rewrite <- app_assoc).
  destruct (IH s1 _ _ Hc1 Hnd) as (s2 & -> & Hc2 & Hl2). exists s2. simpl. split_and!; auto. lia.
Qed.

(** What the loop returns: the beam of everything found, and, unless interrupted, a set
    of results whose neighbours are all known. *)
Record searched (V0 : gset Z) s (visited : gset Z) all queried : Prop := {
  se_core : core s all queried;
  se_visited : visited = V0 ∪ list_to_set all;
  se_new x : x ∈ all -> x ∉ V0;
  se_closed x : x ∈ queried -> forall y, y ∈ (get_neighbors x).1 -> y ∈ visited;
}.

Lemma pop_core s c rest all queried :
  core s all queried -> unvisited_nodes s = c :: rest ->
  core (mkSearch rest (nearest_nodes s) (upper_bound s)) all (c.2 :: queried).
Proof.
  intros [Hb Hub Hnd Hh Hkn Hcv] E. rewrite E in *. split; simpl; auto.
  - by eapply sorted_heap_tail.
  - intros c' Hc'. apply Hkn. set_solver.
  - intros c' Hc'. destruct (Hcv _ Hc') as [Hin|]; [|set_solver].
    apply elem_of_cons in Hin as [<-|]; [right; simpl; set_solver|by left].
Qed.

(** When no candidate lies within the bound, every node of the beam was queried. *)
Lemma exhausted_queried s all queried :
  core s all queried ->
  match unvisited_nodes s with c :: _ => upper_bound s < c.1 | [] => True end ->
  forall c, c ∈ nearest_nodes s -> c.2 ∈ queried.
Proof.
  intros [Hb Hub Hnd Hh Hkn Hcv] Hex c Hc. destruct (Hcv _ Hc) as [Hin|]; [|done].
  destruct (unvisited_nodes s) as [|c0 rest]; [set_solver|]. exfalso.
  apply (sorted_heap_root _ _ _ Hh), ple_fst in Hin. simpl in Hin.
  destruct (root_bound_spec (nearest_nodes s)) as (ub & Hub' & Hall); [apply Hb|by eapply bound_nonempty|].
  rewrite Hub in Hub'. injection Hub' as <-. apply Hall in Hc. lia.
Qed.

Hypothesis neighbors_nodup : forall x, NoDup (get_neighbors x).1.

Lemma traverse_loop_spec (U V0 : gset Z) fuel : forall s visited stop all queried,
  (forall x y, y ∈ (get_neighbors x).1 -> y ∈ U) ->
  searched V0 s visited all queried ->
  (length (unvisited_nodes s) + size (U ∖ visited) <= fuel)%nat ->
  exists s' visited' all' queried',
    traverse_loop get_neighbors query beam fuel s visited stop = Ok (s', visited') /\
    searched V0 s' visited' all' queried' /\ (all <> [] -> all' <> []) /\
    ((stop = false /\ forall x, (get_neighbors x).2 = false) ->
       forall c, c ∈ nearest_nodes s' -> c.2 ∈ queried').
Proof.
  induction fuel as [|fuel IH]; intros s visited stop all queried HU Hse Hf; cbn [traverse_loop].
  all: pose proof (exhausted_queried s all queried (se_core _ _ _ _ _ Hse)) as Hex.
  all: destruct (unvisited_nodes s) as [|c rest] eqn:Eu;
    [rewrite andb_false_r; exists s, visited, all, queried; do 3 (split; [done|]); auto|].
  all: destruct (negb stop && (c.1 <=? upper_bound s)) eqn:Eg; propify;
    [|exists s, visited, all, queried; do 3 (split; [done|]); intros [-> _]; apply Hex;
      destruct Eg as [Eg|Eg]; [done|lia]].
  { simpl in Hf. lia. }
  cbn [heappop of_option rbind].
  pose proof (neighbors_nodup c.2) as Hnn. pose proof (HU c.2) as HUc.
  destruct (get_neighbors c.2) as [found st] eqn:Egn. cbn [fst snd] in *.
  set (l := filter (fun n => n ∉ visited) found).
  assert (Hl : forall x, x ∈ l <-> (x ∉ visited) /\ x ∈ found) by (intros x; exact (list_elem_of_filter (fun n => n ∉ visited) found x)).
  destruct Hse as [Hc Hv Hnew Hcl].
  assert (Hnd : NoDup (all ++ l)).
  { apply NoDup_app. split_and!; [apply Hc| |by apply NoDup_filter].
    intros x Hx Hx'. apply Hl in Hx' as [Hx' _]. apply Hx'. rewrite Hv. set_solver. }
  destruct (consider_all_spec l _ all (c.2 :: queried) (pop_core _ _ _ _ _ Hc Eu) Hnd)
    as (s1 & -> & Hc1 & Hl1). cbn [rbind]. simpl in Hl1.
  destruct (IH s1 (visited ∪ list_to_set l) st (all ++ l) (c.2 :: queried))
    as (s' & visited' & all' & queried' & Hloop & Hse' & Hne & Hfin); auto.
  - split; auto.
    + rewrite Hv, list_to_set_app_L. set_solver.
    + intros x Hx. apply elem_of_app in Hx as [Hx|Hx]; [auto|]. apply Hl in Hx as [Hx _]. rewrite Hv in Hx. set_solver.
    + intros x Hx y Hy. apply elem_of_cons in Hx as [->|Hx].
      * rewrite Egn in Hy. simpl in Hy. destruct (decide (y ∈ visited)); [set_solver|].
        assert (y ∈ l) by (by apply Hl). set_solver.
      * pose proof (Hcl x Hx y Hy). set_solver.
  - pose proof (size_fresh U visited l) as Hsz. simpl in Hf.
    assert (size (U ∖ (visited ∪ list_to_set l)) + length l <= size (U ∖ visited))%nat; [|lia].
    apply Hsz; [by apply NoDup_filter|]. intros x Hx. apply Hl in Hx as [? ?]. auto.
  - exists s', visited', all', queried'. split_and!; auto.
    + intros Ha. apply Hne. by destruct all.
    + intros [_ Hns]. apply Hfin. split; [|done]. specialize (Hns c.2). by rewrite Egn in Hns.
Qed.
End loop.

Lemma beam_of_init n l : beam_of n l (heapify (map negate (nsmallest n l))).
Proof.
  destruct (nsmallest_spec n l) as (rest & Hp & _ & Hl & Hr). split.
  - apply heapify_sorted.
  - by rewrite heapify_perm, length_map.
  - exists (map negate rest). split; [by rewrite heapify_perm, <- map_app, <- Hp|].
    intros x y Hx Hy. rewrite heapify_perm in Hx. apply list_elem_of_fmap in Hx as (x' & -> & Hx).
    apply list_elem_of_fmap in Hy as (y' & -> & Hy). pose proof (ple_fst _ _ (Hr _ _ Hx Hy)). simpl. lia.
Qed.

(** The ids of [all] by increasing distance to the query. *)
Definition by_distance (query : Z) (all : list Z) : list Z := map snd (py_sorted (map (entry_of query) all)).

Section search_start.
Context (query : Z) (beam : nat).
Hypothesis beam_pos : (0 < beam)%nat.

Lemma start_core (initial : list Z) :
  NoDup initial -> initial <> [] ->
  let unvisited := heapify (map (entry_of query) initial) in
  let near0 := heapify (map negate (nsmallest beam unvisited)) in
  let near := drop (length near0 - beam) near0 in
  exists ub, root_bound near = Ok ub /\ core query beam (mkSearch unvisited near ub) initial [].
Proof.
  intros Hnd Hne unvisited near0 near.
  assert (Hb : beam_of beam (map (entry_of query) initial) near0).
  { destruct (beam_of_init beam unvisited) as [H1 H2 (rest & Hp & Hr)].
    assert (Hu : unvisited ≡ₚ map (entry_of query) initial) by apply heapify_perm.
    subst near0. split; [done|by rewrite H2, Hu|]. exists rest. split; [|done]. by rewrite <- Hp, Hu. }
  assert (near = near0) as ->.
  { subst near. replace (length near0 - beam)%nat with 0%nat by (destruct Hb; lia). done. }
  destruct (root_bound_spec near0) as (ub & Hub & _).
  { apply Hb. }
  { by eapply beam_nonempty. }
  exists ub. split; [done|]. split; simpl; auto.
  - apply heapify_sorted.
  - intros c Hc. subst unvisited. rewrite heapify_perm in Hc.
    apply list_elem_of_fmap in Hc as (x & -> & Hx). eauto.
  - intros c Hc. left. subst near0 unvisited. rewrite heapify_perm in *.
    apply list_elem_of_fmap in Hc as (x & -> & Hx). rewrite negate_negate.
    destruct (nsmallest_spec beam (heapify (map (entry_of query) initial))) as (rest & Hp & _).
    assert (Hx' : x ∈ heapify (map (entry_of query) initial)) by (rewrite Hp; set_solver).
    by rewrite heapify_perm in Hx'.
Qed.
End search_start.

(** * Theorems *)

(** C20: The beam search terminates when all nodes come from a finite set [U] (as many
    iterations as [U] has nodes are enough) and every call answers.  It returns the [beam_size] nearest, in order of
    distance, of all nodes it found, all of which are new; and if no answer has its flag set, which the code takes as a
    request to stop (against its documentation, where the flag is [should_continue]), every
    returned node was asked for its neighbours, all of which are among the visited nodes: no
    neighbour of a result is nearer than the results and missed.  The beam is positive, and neither the initial nodes nor the
    neighbours in an answer repeat. *)
Theorem simple_traverse_correct (get_neighbors : Z -> list Z * bool) (query : Z) (beam fuel : nat)
    (initial : list Z) (V0 U : gset Z) :
  (0 < beam)%nat -> NoDup initial -> (forall x, NoDup (get_neighbors x).1) ->
  (forall x, x ∈ initial -> x ∈ U) -> (forall x y, y ∈ (get_neighbors x).1 -> y ∈ U) ->
  (size U <= fuel)%nat ->
  exists all visited,
    simple_traverse_dht get_neighbors query beam fuel initial V0 =
      Ok (take beam (by_distance query all), visited) /\
    visited = V0 ∪ list_to_set all /\ NoDup all /\ (forall x, x ∈ all -> x ∉ V0) /\
    ((forall x, (get_neighbors x).2 = false) ->
       forall x y, x ∈ take beam (by_distance query all) -> y ∈ (get_neighbors x).1 -> y ∈ visited).
Proof.
  intros Hb Hnd Hnn HiU HU Hf. unfold simple_traverse_dht.
  set (init := filter (fun n => n ∉ V0) initial). case_decide as Hi.
  { exists [], V0. unfold by_distance. simpl. rewrite take_nil.
    split_and!; [done|set_solver|apply NoDup_nil_2|set_solver|set_solver]. }
  assert (Hndi : NoDup init) by (by apply NoDup_filter).
  assert (Hin : forall x, x ∈ init -> (x ∉ V0) /\ x ∈ initial).
  { intros x. exact (proj1 (list_elem_of_filter (fun n => n ∉ V0) initial x)). }
  destruct (start_core query beam Hb init Hndi Hi) as (ub & Hub & Hc).
  cbv zeta in Hub, Hc. rewrite Hub. cbn [rbind]. set (s0 := mkSearch _ _ ub) in *.
  destruct (traverse_loop_spec get_neighbors query beam Hb Hnn U V0 fuel s0 (V0 ∪ list_to_set init)
              false init [] HU) as (s & visited & all & queried & -> & [Hco Hv Hnew Hcl] & Hne & Hfin).
  { split; auto; [naive_solver|set_solver]. }
  { simpl. rewrite heapify_perm, length_map.
    pose proof (size_fresh U V0 init Hndi) as Hs. assert (size (U ∖ V0) <= size U)%nat by (apply subseteq_size; set_solver).
    rewrite Nat.add_comm. etransitivity; [apply Hs; naive_solver|lia]. }
  cbn [rbind]. exists all, visited.
  assert (Hres : map snd (nlargest beam (nearest_nodes s)) = take beam (by_distance query all)).
  { apply beam_of_result; [apply Hco|]. apply entries_NoDup, Hco. }
  rewrite Hres. split_and!; auto; [apply Hco|].
  intros Hns x y Hx Hy. rewrite <- Hres in Hx. apply list_elem_of_fmap in Hx as (c & -> & Hc').
  apply (Hcl c.2); [|done]. apply (Hfin (conj eq_refl Hns)).
  unfold nlargest, py_sorted in Hc'. rewrite heapify_id in Hc' by apply (co_beam _ _ _ _ _ Hco).
  apply elem_of_take in Hc' as (i & Hc' & _). apply list_elem_of_lookup_2 in Hc'. by apply elem_of_reverse.
Qed.

(** The flag stops the search: the documentation says that the search halts when it is [False]. *)
Lemma flag_true_halts (get_neighbors : Z -> list Z * bool) (query : Z) (beam fuel : nat) (s : search) (visited : gset Z) :
  traverse_loop get_neighbors query beam fuel s visited true = Ok (s, visited).
Proof. by destruct fuel. Qed.

(** A chain from 1 to 5: with [False] in every answer all nodes are found; with [True] the search ends after the first call. *)
Example should_continue_inverted :
  let chain flag x := (if x <? 5 then [x + 1] else [], flag) in
  rmap fst (simple_traverse_dht (chain false) 4 8 8 [1] ∅) = Ok [4; 5; 1; 2; 3] /\
  rmap fst (simple_traverse_dht (chain true) 4 8 8 [1] ∅) = Ok [1; 2].
Proof. split; vm_compute; reflexivity. Qed.

(** A ring of eight nodes: each knows its two neighbours. *)
Definition ring (x : Z) : list Z * bool := ([(x + 1) mod 8; (x + 7) mod 8], false).

Lemma ring_nodup x : NoDup (ring x).1.
Proof.
  unfold ring. simpl. apply NoDup_cons. split; [|apply NoDup_singleton].
  rewrite list_elem_of_singleton. intros He.
  pose proof (Z.div_mod (x + 1) 8 ltac:(lia)). pose proof (Z.div_mod (x + 7) 8 ltac:(lia)). lia.
Qed.

Lemma simple_traverse_correct_witness :
  exists all visited, simple_traverse_dht ring 5 3 8 [0] ∅ = Ok (take 3 (by_distance 5 all), visited) /\
    visited = ∅ ∪ list_to_set all.
Proof.
  destruct (simple_traverse_correct ring 5 3 8 [0] ∅ (list_to_set [0;1;2;3;4;5;6;7])) as (all & visited & H & Hv & _).
  - lia.
  - apply NoDup_singleton.
  - apply ring_nodup.
  - set_solver.
  - intros x y Hy. assert (0 <= y < 8); [|assert (y = 0 \/ y = 1 \/ y = 2 \/ y = 3 \/ y = 4 \/ y = 5 \/ y = 6 \/ y = 7) by lia; set_solver].
    unfold ring in Hy. simpl in Hy. apply elem_of_cons in Hy as [->|Hy]; [apply Z.mod_pos_bound; lia|].
    apply list_elem_of_singleton in Hy as ->. apply Z.mod_pos_bound. lia.
  - vm_compute. lia.
  - exists all, visited. auto.
Defined.
