(* ===== verification/TraverseWorkers.v ===== *)
(** * Concurrent beam search ([mesh/dht/traverse.py], [traverse_dht])

    [num_workers] tasks share the search state.  A task runs without interruption
    between two [await]s, so the model is a transition system: each step is one pass of
    a worker's loop up to the next [await], or the delivery of an answer of
    [get_neighbors].  Which query among those of least priority a worker picks, which
    answer arrives next and what it contains are arbitrary; a call may also raise, which ends its worker. *)

From S2P Require Import Prelude DHTID Traverse.

(** The state shared by the workers.  Dictionaries indexed by query are functions;
    [finished] logs the calls of [found_callback], [calls] those of [get_neighbors]. *)
Record tstate : Type := mkT {
  unfinished_queries : gset Z;
  candidate_nodes : Z -> list entry;
  nearest : Z -> list entry;
  known_nodes : Z -> gset Z;
  visited_nodes : Z -> gset Z;
  active_workers : Z -> Z;
  search_finished : bool;
  heap_updated : bool;
  finished : list (Z * list Z);
  calls : list (Z * Z);
}.

(** Where a worker is suspended. *)
Inductive wstate : Type :=
  | WReady
  | WWaiting  (* at [heap_updated_event.wait()] *)
  | WCalling (peer : Z) (queries_to_call : list Z)  (* at [get_neighbors] *)
  | WDone
  | WFailed (queries_to_call : list Z).  (* [get_neighbors] has raised *)

Definition set_at {X} (f : Z -> X) (q : Z) (x : X) : Z -> X := fun q' => if decide (q' = q) then x else f q'.

Section traverse.
Variables (beam_size queries_per_call : nat) (queries initial_nodes : list Z).

Implicit Types (s : tstate) (q peer : Z).

(** The state before the workers start. *)
Definition start (visited0 : Z -> gset Z) : tstate :=
  mkT (list_to_set queries)
    (fun q => heapify (map (entry_of q) initial_nodes))
    (fun q => let h := heapify (map (fun n => negate (entry_of q n)) initial_nodes) in
              drop (length h - beam_size) h)
    (fun _ => list_to_set initial_nodes)
    visited0 (fun _ => 0) false true [] [].

(** [upper_bound]; [None] is infinity. *)
Definition query_bound s q : option Z :=
  if (beam_size <=? length (nearest s q))%nat
  then match nearest s q with (d, _) :: _ => Some (- d) | [] => None end
  else None.

Definition within_bound (d : Z) (b : option Z) : bool :=
  match b with Some ub => d <=? ub | None => true end.

(** [has_candidates] *)
Definition has_candidates s q : bool :=
  match candidate_nodes s q with c :: _ => within_bound c.1 (query_bound s q) | [] => false end.

(** [heuristic_priority]; [None] is [(inf, inf)]. *)
Definition heuristic_priority s q : option (Z * Z) :=
  if has_candidates s q
  then match candidate_nodes s q with c :: _ => Some (active_workers s q, c.1) | [] => None end
  else None.

Definition priority_le (a b : option (Z * Z)) : bool :=
  match a, b with
  | _, None => true
  | None, Some _ => false
  | Some x, Some y => py_leb x y
  end.

(** [min(unfinished_queries, key=heuristic_priority)]: any query of least priority. *)
Definition is_choice s q : Prop :=
  q ∈ unfinished_queries s /\
  forall q', q' ∈ unfinished_queries s ->
    priority_le (heuristic_priority s q) (heuristic_priority s q') = true.

(** [[peer for _, peer in heapq.nlargest(beam_size, nearest_nodes[query])]] *)
Definition neighbors_of s q : list Z := map snd (nlargest beam_size (nearest s q)).

(** [finish_search] *)
Definition finish_search s q : tstate :=
  let rest := unfinished_queries s ∖ {[q]} in
  mkT rest (candidate_nodes s) (nearest s) (known_nodes s) (visited_nodes s) (active_workers s)
    (search_finished s || bool_decide (rest = ∅)) (heap_updated s)
    (finished s ++ [(q, neighbors_of s q)]) (calls s).

Definition set_event s (b : bool) : tstate :=
  mkT (unfinished_queries s) (candidate_nodes s) (nearest s) (known_nodes s) (visited_nodes s)
    (active_workers s) (search_finished s) b (finished s) (calls s).

Definition set_candidates s q h : tstate :=
  mkT (unfinished_queries s) (set_at (candidate_nodes s) q h) (nearest s) (known_nodes s)
    (visited_nodes s) (active_workers s) (search_finished s) (heap_updated s) (finished s) (calls s).

(** [active_workers.update(qs)] and [subtract(qs)] *)
Definition add_active (a : Z -> Z) (qs : list Z) (k : Z) : Z -> Z :=
  foldl (fun a q => set_at a q (a q + k)) a qs.

Definition mark_visited (v : Z -> gset Z) (peer : Z) (qs : list Z) : Z -> gset Z :=
  foldl (fun v q => set_at v q (v q ∪ {[peer]})) v qs.

(** The queries packed into one request. *)
Definition queries_to_call s (chosen peer : Z) : list Z :=
  let possible := filter (fun q => q <> chosen /\ peer ∉ visited_nodes s q) (elements (unfinished_queries s)) in
  chosen :: map snd (nsmallest (pred queries_per_call) (map (entry_of peer) possible)).

(** One pass of a worker's loop for the chosen query, up to the next [await]. *)
Definition worker_pass s q : tstate * wstate :=
  if negb (has_candidates s q) then
    if existsb (fun q' => 0 <? active_workers s q') queries
    then (set_event s false, WWaiting)
    else (foldl finish_search s (elements (unfinished_queries s)), WDone)
  else
    match candidate_nodes s q with
    | [] => (s, WReady)
    | (distance, peer) :: rest =>
        let s1 := set_candidates s q rest in
        if bool_decide (peer ∈ visited_nodes s q) || negb (within_bound distance (query_bound s q)) then
          if negb (within_bound distance (query_bound s q)) && (active_workers s q =? 0)
          then (finish_search s1 q, WReady) else (s1, WReady)
        else
          let qs := queries_to_call s q peer in
          (mkT (unfinished_queries s1) (candidate_nodes s1) (nearest s1) (known_nodes s1)
             (mark_visited (visited_nodes s1) peer qs) (add_active (active_workers s1) qs 1)
             (search_finished s1) (heap_updated s1) (finished s1)
             (calls s1 ++ map (fun q => (peer, q)) qs), WCalling peer qs)
    end.

(** One neighbour found for a query. *)
Definition add_neighbor q s (n : Z) : tstate :=
  if decide (n ∈ known_nodes s q) then s
  else
    let known := set_at (known_nodes s) q (known_nodes s q ∪ {[n]}) in
    let c := entry_of q n in
    let keep := mkT (unfinished_queries s) (candidate_nodes s) (nearest s) known (visited_nodes s)
                  (active_workers s) (search_finished s) (heap_updated s) (finished s) (calls s) in
    if within_bound c.1 (query_bound s q) || (length (nearest s q) <? beam_size)%nat then
      mkT (unfinished_queries s) (set_at (candidate_nodes s) q (heappush c (candidate_nodes s q)))
        (set_at (nearest s) q
           (if (length (nearest s q) <? beam_size)%nat then heappush (negate c) (nearest s q)
            else heappushpop (negate c) (nearest s q)))
        known (visited_nodes s) (active_workers s) (search_finished s) (heap_updated s) (finished s) (calls s)
    else keep.

(** One item of the answer of [get_neighbors]: (query, (neighbours, should_stop)). *)
Definition process_answer s (item : Z * (list Z * bool)) : tstate :=
  let '(q, (neighbors, should_stop)) := item in
  let s1 := if should_stop && bool_decide (q ∈ unfinished_queries s) then finish_search s q else s in
  if decide (q ∈ unfinished_queries s1) then foldl (add_neighbor q) s1 neighbors else s1.

Definition receive s (qs : list Z) (answer : list (Z * (list Z * bool))) : tstate :=
  let s1 := foldl process_answer s answer in
  mkT (unfinished_queries s1) (candidate_nodes s1) (nearest s1) (known_nodes s1) (visited_nodes s1)
    (add_active (active_workers s1) qs (-1)) (search_finished s1) true (finished s1) (calls s1).

(** The transition system: the shared state and the state of every worker. *)
Inductive step : tstate * list wstate -> tstate * list wstate -> Prop :=
| step_exit s ws i :
    ws !! i = Some WReady -> unfinished_queries s = ∅ -> step (s, ws) (s, <[i := WDone]> ws)
| step_pass s ws i q s' w :
    ws !! i = Some WReady -> is_choice s q -> worker_pass s q = (s', w) ->
    step (s, ws) (s', <[i := w]> ws)
| step_wake s ws i :
    ws !! i = Some WWaiting -> heap_updated s = true -> step (s, ws) (s, <[i := WReady]> ws)
| step_abort s ws i peer qs :
    ws !! i = Some (WCalling peer qs) -> search_finished s = true -> step (s, ws) (s, <[i := WDone]> ws)
| step_receive s ws i peer qs answer :
    ws !! i = Some (WCalling peer qs) -> search_finished s = false ->
    step (s, ws) (receive s qs answer, <[i := WReady]> ws)
| step_fail s ws i peer qs :
    (* [get_neighbors_task.result()] raises: [active_workers] keeps the request *)
    ws !! i = Some (WCalling peer qs) -> search_finished s = false ->
    step (s, ws) (s, <[i := WFailed qs]> ws).

Inductive reachable (visited0 : Z -> gset Z) (num_workers : nat) : tstate * list wstate -> Prop :=
| reach_start : reachable visited0 num_workers (start visited0, replicate num_workers WReady)
| reach_step c c' : reachable visited0 num_workers c -> step c c' -> reachable visited0 num_workers c'.

(** ** Invariant of the shared state *)

Record sinv s : Prop := {
  si_sub q : q ∈ unfinished_queries s -> q ∈ queries;
  si_event : search_finished s = true <-> unfinished_queries s = ∅;
  si_log_nodup : NoDup (finished s).*1;
  si_log q : q ∈ (finished s).*1 <-> q ∈ queries /\ ~ (q ∈ unfinished_queries s);
  si_result q r : (q, r) ∈ finished s -> r = neighbors_of s q;
  si_beam q : exists l, NoDup l /\ known_nodes s q = list_to_set l /\
                beam_of beam_size (map (entry_of q) l) (nearest s q);
  si_calls : NoDup (calls s);
  si_visited p q : (p, q) ∈ calls s -> p ∈ visited_nodes s q;
}.

Lemma set_at_eq {X} (f : Z -> X) q x : set_at f q x q = x.
Proof. unfold set_at. by rewrite decide_True. Qed.
Lemma set_at_ne {X} (f : Z -> X) q q' x : q' <> q -> set_at f q x q' = f q'.
Proof. intros. unfold set_at. by rewrite decide_False. Qed.

Hypothesis beam_pos : (0 < beam_size)%nat.
Hypothesis initial_nodup : NoDup initial_nodes.
Hypothesis queries_nonempty : queries <> [].

Lemma drop_beam n l h :
  beam_of (length l) l h -> beam_of n l (drop (length h - n) h).
Proof.
  intros [Hs Hl (rest & Hp & Hr)]. rewrite <- (take_drop (length h - n) h) in Hs at 1.
  apply sorted_heap_app in Hs as (_ & Hs & Hle). rewrite Nat.min_id in Hl.
  assert (rest = []) as ->.
  { apply Permutation_length in Hp. rewrite length_app, length_map in Hp. destruct rest; [done|]. simpl in Hp. lia. }
  split; [done|rewrite length_drop; lia|]. exists (take (length h - n) h). split.
  - rewrite Hp, app_nil_r. rewrite <- (take_drop (length h - n) h) at 1. apply Permutation_app_comm.
  - intros x y Hx Hy. apply ple_fst, Hle; done.
Qed.

Lemma start_sinv visited0 : sinv (start visited0).
Proof.
  split; simpl; try done; try (by intros; set_solver).
  - split; [done|]. intros He. destruct queries as [|q ?]; [done|]. set_solver.
  - constructor.
  - intros q. exists initial_nodes. split_and!; auto.
    assert (Hlen : length (heapify (map (fun n => negate (entry_of q n)) initial_nodes)) = length initial_nodes)
      by (by rewrite heapify_perm, length_map).
    apply drop_beam. split.
    + apply heapify_sorted.
    + rewrite Hlen, length_map. lia.
    + exists []. split; [|set_solver]. rewrite app_nil_r, heapify_perm, map_map. done.
  - constructor.
Qed.

Lemma finish_search_sinv s q : sinv s -> q ∈ unfinished_queries s -> sinv (finish_search s q).
Proof.
  intros [H1 H2 H3 H4 H5 H6 H7 H8] Hq. split; simpl; auto.
  - set_solver.
  - rewrite orb_true_iff, bool_decide_eq_true, H2. set_solver.
  - rewrite fmap_app. apply NoDup_app. split_and!; [done| |apply NoDup_singleton].
    intros q' Hq'. apply H4 in Hq'. simpl. set_solver.
  - intros q'. rewrite fmap_app, elem_of_app, H4. simpl. rewrite list_elem_of_singleton.
    destruct (decide (q' = q)) as [->|]; [|set_solver]. specialize (H1 _ Hq). set_solver.
  - intros q' r. rewrite elem_of_app, list_elem_of_singleton. intros [Hr|Hr]; [by apply H5|by simplify_eq].
Qed.

Lemma finish_all_sinv l : forall s,
  sinv s -> NoDup l -> (forall q, q ∈ l -> q ∈ unfinished_queries s) ->
  sinv (foldl finish_search s l) /\
  unfinished_queries (foldl finish_search s l) = unfinished_queries s ∖ list_to_set l.
Proof.
  induction l as [|q l IH]; intros s Hi Hnd Hl; cbn [foldl]; [split; [done|set_solver]|].
  apply NoDup_cons in Hnd as [Hn Hnd].
  destruct (IH (finish_search s q)) as [H1 H2].
  - apply finish_search_sinv; [done|set_solver].
  - done.
  - intros q' Hq'. simpl. set_solver.
  - split; [done|]. rewrite H2. simpl. set_solver.
Qed.

Lemma query_bound_root s q ub :
  query_bound s q = Some ub -> (beam_size <= length (nearest s q))%nat /\ root_bound (nearest s q) = Ok ub.
Proof.
  unfold query_bound. destruct (beam_size <=? _)%nat eqn:E; [|done]. propify.
  destruct (nearest s q) as [|[d i] h]; [done|]. intros [= <-]. done.
Qed.

Lemma neighbors_of_ne s s' q : nearest s' q = nearest s q -> neighbors_of s' q = neighbors_of s q.
Proof. unfold neighbors_of. by intros ->. Qed.

(** Changing the beam of an unfinished query keeps the rest of the invariant. *)
Lemma sinv_update s q cand near known :
  sinv s -> q ∈ unfinished_queries s ->
  (forall q', q' <> q -> near q' = nearest s q' /\ known q' = known_nodes s q') ->
  (exists l, NoDup l /\ known q = list_to_set l /\ beam_of beam_size (map (entry_of q) l) (near q)) ->
  sinv (mkT (unfinished_queries s) cand near known (visited_nodes s) (active_workers s)
          (search_finished s) (heap_updated s) (finished s) (calls s)).
Proof.
  intros [H1 H2 H3 H4 H5 H6 H7 H8] Hq Hne Hb. split; simpl; auto.
  - intros q' r Hr. rewrite (H5 _ _ Hr). symmetry. apply neighbors_of_ne. simpl.
    apply Hne. intros ->. assert (Hin : q ∈ (finished s).*1) by (apply list_elem_of_fmap; by exists (q, r)).
    apply H4 in Hin. tauto.
  - intros q'. destruct (decide (q' = q)) as [->|Hq']; [done|]. destruct (Hne _ Hq') as [-> ->]. done.
Qed.

Lemma add_neighbor_sinv s q n : sinv s -> q ∈ unfinished_queries s -> sinv (add_neighbor q s n).
Proof.
  intros Hi Hq. unfold add_neighbor. destruct (decide _) as [|Hn]; [done|].
  destruct (si_beam _ Hi q) as (l & Hnd & Hk & Hb).
  assert (Hnl : n ∉ l) by (rewrite Hk in Hn; set_solver).
  assert (Hnd' : NoDup (l ++ [n])) by (apply NoDup_app; split_and!; [done|set_solver|apply NoDup_singleton]).
  assert (Hk' : known_nodes s q ∪ {[n]} = list_to_set (l ++ [n])) by (rewrite Hk, list_to_set_app_L; set_solver).
  pose proof (bm_length _ _ _ Hb) as Hlen. destruct (_ || _) eqn:Eg.
  - apply (sinv_update s q); [done|done|intros; by rewrite !set_at_ne|].
    exists (l ++ [n]). rewrite !set_at_eq. split_and!; auto. rewrite map_app.
    destruct (length (nearest s q) <? beam_size)%nat eqn:El; propify; [by apply beam_of_grow|].
    destruct Eg as [Eg|]; [|lia]. unfold query_bound in Eg. rewrite (proj2 (Nat.leb_le _ _)) in Eg by lia.
    destruct (nearest s q) as [|[d i] h] eqn:En; [simpl in El; lia|]. simpl in Eg. propify.
    apply (beam_of_replace _ _ _ (entry_of q n) (- d)); [done|lia|done|done|done].
  - propify. destruct Eg as [Eg El]. destruct (query_bound s q) as [ub|] eqn:Eb; [|done]. simpl in Eg. propify.
    apply query_bound_root in Eb as [_ Hrb].
    apply (sinv_update s q); [done|done|intros; by rewrite set_at_ne|].
    exists (l ++ [n]). rewrite set_at_eq. split_and!; auto. rewrite map_app.
    apply (beam_of_skip _ _ _ _ ub); auto. lia.
Qed.

(** An answer only shrinks the set of unfinished queries and leaves the bookkeeping of
    requests alone. *)
Definition same_requests s s' : Prop :=
  unfinished_queries s' ⊆ unfinished_queries s /\ active_workers s' = active_workers s /\
  heap_updated s' = heap_updated s.

Lemma same_requests_refl s : same_requests s s.
Proof. done. Qed.

Lemma same_requests_trans s1 s2 s3 : same_requests s1 s2 -> same_requests s2 s3 -> same_requests s1 s3.
Proof. unfold same_requests. intros (? & ? & ?) (? & ? & ?). split_and!; [set_solver|congruence..]. Qed.

Lemma add_neighbors_sinv q l : forall s,
  sinv s -> q ∈ unfinished_queries s ->
  sinv (foldl (add_neighbor q) s l) /\ same_requests s (foldl (add_neighbor q) s l).
Proof.
  induction l as [|n l IH]; intros s Hi Hq; cbn [foldl]; [done|].
  assert (Hsame : unfinished_queries (add_neighbor q s n) = unfinished_queries s /\
            same_requests s (add_neighbor q s n)).
  { unfold add_neighbor, same_requests. destruct (decide _); [done|]. by destruct (_ || _). }
  destruct Hsame as [Hu Hs]. destruct (IH (add_neighbor q s n)) as [H1 H2].
  - by apply add_neighbor_sinv.
  - by rewrite Hu.
  - split; [done|]. by eapply same_requests_trans.
Qed.

Lemma process_answer_sinv s item : sinv s -> sinv (process_answer s item) /\ same_requests s (process_answer s item).
Proof.
  intros Hi. destruct item as [q [l stop]]. simpl.
  set (s1 := if stop && _ then finish_search s q else s).
  assert (H1 : sinv s1 /\ same_requests s s1).
  { subst s1. destruct (stop && _) eqn:E; [|done]. propify. destruct E as [_ E]. apply bool_decide_eq_true in E.
    split; [by apply finish_search_sinv|]. unfold same_requests. simpl. set_solver. }
  destruct H1 as [H1 H2]. destruct (decide _) as [Hq|]; [|done].
  destruct (add_neighbors_sinv q l s1 H1 Hq) as [H3 H4]. split; [done|]. by eapply same_requests_trans.
Qed.

Lemma process_answers_sinv l : forall s,
  sinv s -> sinv (foldl process_answer s l) /\ same_requests s (foldl process_answer s l).
Proof.
  induction l as [|item l IH]; intros s Hi; cbn [foldl]; [done|].
  destruct (process_answer_sinv s item Hi) as [H1 H2]. destruct (IH _ H1) as [H3 H4].
  split; [done|]. by eapply same_requests_trans.
Qed.

(** ** Requests *)

Lemma add_active_spec qs k : forall a q, NoDup qs ->
  add_active a qs k q = a q + (if decide (q ∈ qs) then k else 0).
Proof.
  induction qs as [|q0 qs IH]; intros a q Hnd; cbn [add_active foldl]; [simpl; lia|].
  apply NoDup_cons in Hnd as [Hn Hnd]. unfold add_active in IH. rewrite IH by done.
  destruct (decide (q = q0)) as [->|Hne].
  - rewrite set_at_eq, decide_False, decide_True by set_solver. lia.
  - rewrite set_at_ne by done. f_equal. apply decide_ext. set_solver.
Qed.

Lemma mark_visited_spec peer qs : forall v p q,
  p ∈ mark_visited v peer qs q <-> p ∈ v q \/ p = peer /\ q ∈ qs.
Proof.
  induction qs as [|q0 qs IH]; intros v p q; cbn [mark_visited foldl]; [set_solver|].
  unfold mark_visited in IH. rewrite IH. destruct (decide (q = q0)) as [->|Hne].
  - rewrite set_at_eq. set_solver.
  - rewrite set_at_ne by done. set_solver.
Qed.

Lemma queries_to_call_spec s chosen peer :
  chosen ∈ unfinished_queries s -> peer ∉ visited_nodes s chosen ->
  NoDup (queries_to_call s chosen peer) /\
  forall q, q ∈ queries_to_call s chosen peer -> q ∈ unfinished_queries s /\ ~ (peer ∈ visited_nodes s q).
Proof.
  intros Hc Hp. unfold queries_to_call.
  set (possible := filter _ (elements (unfinished_queries s))).
  destruct (nsmallest_spec (pred queries_per_call) (map (entry_of peer) possible)) as (rest & Hperm & _).
  assert (Hposs : forall q, q ∈ possible -> q ∈ unfinished_queries s /\ q <> chosen /\ ~ (peer ∈ visited_nodes s q)).
  { intros q Hq. apply (proj1 (list_elem_of_filter (fun q => q <> chosen /\ peer ∉ visited_nodes s q) _ _)) in Hq as [[? ?] Hq].
    rewrite elem_of_elements in Hq. done. }
  assert (Hids : map snd (map (entry_of peer) possible) = possible).
  { rewrite map_map. simpl. apply map_id. }
  assert (Hp2 : possible ≡ₚ map snd (nsmallest (pred queries_per_call) (map (entry_of peer) possible)) ++ map snd rest).
  { rewrite <- map_app, <- Hperm. by rewrite Hids. }
  assert (Hnd : NoDup possible) by (apply NoDup_filter, NoDup_elements).
  rewrite Hp2 in Hnd. apply NoDup_app in Hnd as (Hnd & _ & _).
  assert (Hin : forall q, q ∈ map snd (nsmallest (pred queries_per_call) (map (entry_of peer) possible)) -> q ∈ possible).
  { intros q Hq. rewrite Hp2. set_solver. }
  split.
  - apply NoDup_cons. split; [|done]. intros Hq. apply Hin, Hposs in Hq. tauto.
  - intros q Hq. apply elem_of_cons in Hq as [->|Hq]; [done|]. apply Hin, Hposs in Hq. tauto.
Qed.

(** ** Invariant of the workers *)

Definition weight (w : wstate) q : Z :=
  match w with WCalling _ qs | WFailed qs => if decide (q ∈ qs) then 1 else 0 | _ => 0 end.
Definition busy (w : wstate) : Prop := match w with WCalling _ _ | WFailed _ => True | _ => False end.
Definition load (ws : list wstate) q : Z := foldr (fun w n => weight w q + n) 0 ws.

Lemma load_insert ws i w w' q :
  ws !! i = Some w -> load (<[i := w']> ws) q = load ws q - weight w q + weight w' q.
Proof.
  revert i. induction ws as [|w0 ws IH]; intros [|i] Hi; simpl in *; simplify_eq; [lia|].
  rewrite (IH i Hi). lia.
Qed.

Lemma weight_nonneg w q : 0 <= weight w q.
Proof. destruct w; simpl; try lia; destruct (decide _); lia. Qed.

Lemma load_nonneg ws q : 0 <= load ws q.
Proof. induction ws as [|w ws IH]; simpl; [lia|]. pose proof (weight_nonneg w q). lia. Qed.

Lemma load_pos ws q : 0 < load ws q -> exists j w, ws !! j = Some w /\ busy w.
Proof.
  induction ws as [|w ws IH]; simpl; [lia|]. intros Hl. destruct (decide (0 < load ws q)) as [Hp|Hp].
  - destruct (IH Hp) as (j & w' & Hj & Hw). by exists (S j), w'.
  - pose proof (load_nonneg ws q). destruct w as [| |p qs| |qs]; simpl in Hl; try lia; [by exists 0%nat, (WCalling p qs)|by exists 0%nat, (WFailed qs)].
Qed.

Record winv (num_workers : nat) (c : tstate * list wstate) : Prop := {
  wi_shared : sinv c.1;
  wi_length : length c.2 = num_workers;
  wi_active : unfinished_queries c.1 <> ∅ -> forall q, active_workers c.1 q = load c.2 q;
  wi_calling i p qs : c.2 !! i = Some (WCalling p qs) -> NoDup qs;
  wi_done i : c.2 !! i = Some WDone -> unfinished_queries c.1 = ∅;
  wi_wait i : c.2 !! i = Some WWaiting -> heap_updated c.1 = false -> unfinished_queries c.1 <> ∅ ->
    exists j w, c.2 !! j = Some w /\ busy w;
}.

Lemma start_winv visited0 n : winv n (start visited0, replicate n WReady).
Proof.
  split; simpl.
  - apply start_sinv.
  - apply length_replicate.
  - intros _ q. induction n; simpl; [done|]. lia.
  - intros i p qs Hi. apply lookup_replicate in Hi as [? _]. done.
  - intros i Hi. apply lookup_replicate in Hi as [? _]. done.
  - done.
Qed.

(** Replacing the state of one worker that was not in a call. *)
Lemma busy_kept (ws : list wstate) i w w' :
  ws !! i = Some w -> ~ busy w ->
  (exists j x, ws !! j = Some x /\ busy x) -> exists j x, <[i := w']> ws !! j = Some x /\ busy x.
Proof.
  intros Hi Hw (j & x & Hj & Hx). exists j, x. rewrite list_lookup_insert_ne; [done|].
  intros ->. rewrite Hi in Hj. by simplify_eq.
Qed.
Lemma sinv_same s s' :
  sinv s -> unfinished_queries s' = unfinished_queries s -> nearest s' = nearest s ->
  known_nodes s' = known_nodes s -> search_finished s' = search_finished s ->
  finished s' = finished s -> NoDup (calls s') ->
  (forall p q, (p, q) ∈ calls s' -> p ∈ visited_nodes s' q) -> sinv s'.
Proof.
  intros [H1 H2 H3 H4 H5 H6 H7 H8] E1 E2 E3 E4 E5 Hc Hv. split; rewrite ?E1, ?E2, ?E3, ?E4, ?E5; auto.
  intros q r Hr. rewrite (H5 _ _ Hr). unfold neighbors_of. by rewrite E2.
Qed.

(** The four ways in which a pass of the loop ends. *)
Inductive pass_outcome s q : tstate -> wstate -> Prop :=
| pass_wait q' : 0 < active_workers s q' -> pass_outcome s q (set_event s false) WWaiting
| pass_done s' : sinv s' -> same_requests s s' -> unfinished_queries s' = ∅ -> pass_outcome s q s' WDone
| pass_skip s' : sinv s' -> same_requests s s' -> pass_outcome s q s' WReady
| pass_call s' p qs : sinv s' -> NoDup qs -> unfinished_queries s' = unfinished_queries s ->
    heap_updated s' = heap_updated s -> active_workers s' = add_active (active_workers s) qs 1 ->
    pass_outcome s q s' (WCalling p qs).

Lemma finish_all_requests l : forall s, same_requests s (foldl finish_search s l).
Proof.
  induction l as [|q l IH]; intros s; cbn [foldl]; [apply same_requests_refl|].
  apply (same_requests_trans _ (finish_search s q)); [|apply IH]. unfold same_requests. simpl. set_solver.
Qed.

Lemma worker_pass_spec s q s' w :
  sinv s -> q ∈ unfinished_queries s -> worker_pass s q = (s', w) -> pass_outcome s q s' w.
Proof.
  intros Hi Hq. unfold worker_pass. destruct (has_candidates s q) eqn:Ec; cbn [negb].
  2: { destruct (existsb _ _) eqn:Ea; intros [= <- <-].
       - apply existsb_exists in Ea as (q' & _ & Hq'). propify. by eapply pass_wait.
       - destruct (finish_all_sinv (elements (unfinished_queries s)) s Hi) as [H1 H2].
         + apply NoDup_elements.
         + intros q'. by rewrite elem_of_elements.
         + apply pass_done; [done|apply finish_all_requests|]. rewrite H2. set_solver. }
  destruct (candidate_nodes s q) as [|[d peer] rest]; [intros [= <- <-]; by apply pass_skip|].
  set (s1 := set_candidates s q rest).
  assert (Hi1 : sinv s1) by (apply (sinv_same s); auto; apply Hi).
  destruct (bool_decide _ || negb _) eqn:Eg.
  - destruct (negb _ && _); intros [= <- <-].
    + apply pass_skip; [by apply finish_search_sinv|]. unfold same_requests. simpl. set_solver.
    + by apply pass_skip.
  - propify. destruct Eg as [Eg _]. apply bool_decide_eq_false in Eg.
    destruct (queries_to_call_spec s q peer Hq Eg) as [Hnd Hqs]. revert Hnd Hqs.
    generalize (queries_to_call s q peer) as qs. intros qs Hnd Hqs [= <- <-]. apply pass_call; auto.
    apply (sinv_same s); auto; simpl.
    + apply NoDup_app. split_and!; [apply Hi| |].
      * intros [p q'] Hin Hin'. apply (si_visited _ Hi) in Hin.
        apply list_elem_of_fmap in Hin' as (q'' & Heq & Hq''). simplify_eq. by apply Hqs in Hq'' as [_ ?].
      * apply NoDup_fmap_2; [|done]. intros a b. by intros [= ->].
    + intros p q' Hin. rewrite mark_visited_spec. apply elem_of_app in Hin as [Hin|Hin].
      * left. by apply (si_visited _ Hi).
      * right. apply list_elem_of_fmap in Hin as (q'' & Heq & Hq''). by simplify_eq.
Qed.

Lemma lookup_update (ws : list wstate) i w j x :
  ws !! i = Some w -> <[i := x]> ws !! j = if decide (j = i) then Some x else ws !! j.
Proof.
  intros Hi. case_decide as E; [subst|by apply list_lookup_insert_ne].
  apply list_lookup_insert_eq. by eapply lookup_lt_Some.
Qed.

(** Changing one worker from [w] to [x], with the shared state. *)
Lemma winv_update n s s' ws i w x :
  winv n (s, ws) -> ws !! i = Some w -> sinv s' -> unfinished_queries s' ⊆ unfinished_queries s ->
  (unfinished_queries s' <> ∅ -> forall q, active_workers s' q = active_workers s q - weight w q + weight x q) ->
  (forall p qs, x = WCalling p qs -> NoDup qs) ->
  (x = WDone -> unfinished_queries s' = ∅) ->
  ((exists k, <[i := x]> ws !! k = Some WWaiting) -> heap_updated s' = false -> unfinished_queries s' <> ∅ ->
     exists j w', <[i := x]> ws !! j = Some w' /\ busy w') ->
  winv n (s', <[i := x]> ws).
Proof.
  intros [H1 H2 H3 H4 H5 H6] Hi Hs Hsub Hact Hcall Hdone Hwait. simpl in *. split; simpl; auto.
  - by rewrite length_insert.
  - intros Hne q. rewrite (load_insert _ _ w), Hact, H3 by (done || set_solver). lia.
  - intros j p qs. rewrite (lookup_update _ _ w) by done. case_decide; [intros; simplify_eq; eauto|]. eauto.
  - intros j. rewrite (lookup_update _ _ w) by done. case_decide; [intros; simplify_eq; eauto|].
    intros Hj. specialize (H5 _ Hj). set_solver.
  - intros k Hk. apply Hwait. eauto.
Qed.

Lemma step_pass_winv n s ws i q s' w :
  winv n (s, ws) -> ws !! i = Some WReady -> q ∈ unfinished_queries s -> worker_pass s q = (s', w) ->
  winv n (s', <[i := w]> ws).
Proof.
  intros Hw Hi Hq Hp. pose proof (wi_shared _ _ Hw) as Hsh. simpl in Hsh.
  destruct (worker_pass_spec s q s' w Hsh Hq Hp)
    as [q' Hact|s1 Hs1 (? & Ha & Hh) He|s1 Hs1 (Hsub & Ha & Hh)|s1 p qs Hs1 Hnd Hu Hh Ha].
  - apply (winv_update n s (set_event s false) ws i WReady); auto; simpl; intros; try done; try lia.
    + apply (sinv_same s); auto; apply Hsh.
    + rewrite (wi_active _ _ Hw ltac:(set_solver)) in Hact. apply load_pos in Hact as (j & x & Hj & Hx).
      apply (busy_kept ws i WReady); [done|simpl; tauto|eauto].
  - apply (winv_update n s s1 ws i WReady); auto; simpl; intros; try done; rewrite Ha; lia.
  - apply (winv_update n s s1 ws i WReady); auto; simpl; try done; [intros; rewrite Ha; lia|].
    intros [k Hk] Hhe Hne. rewrite (lookup_update _ _ WReady) in Hk by done. case_decide; [done|].
    apply (busy_kept ws i WReady); [done|simpl; tauto|]. apply (wi_wait _ _ Hw k); simpl; [done|congruence|set_solver].
  - apply (winv_update n s s1 ws i WReady); auto; simpl; try done.
    + by rewrite Hu.
    + intros _ q'. rewrite Ha, add_active_spec by done. lia.
    + intros p' qs' Heq. by simplify_eq.
    + intros _ _ _. exists i, (WCalling p qs). rewrite (lookup_update _ _ WReady), decide_True by done. done.
Qed.

Lemma step_winv n c c' : winv n c -> step c c' -> winv n c'.
Proof.
  intros Hw Hst. destruct Hst as [s ws i Hi He|s ws i q s' w Hi [Hq _] Hp|s ws i Hi He|s ws i p qs Hi He|s ws i p qs ans Hi He|s ws i p qs Hi He];
    pose proof (wi_shared _ _ Hw) as Hsh; simpl in Hsh.
  - apply (winv_update n s s ws i WReady); auto; simpl; intros; try done; lia.
  - by apply (step_pass_winv n s ws i q).
  - apply (winv_update n s s ws i WWaiting); auto; simpl; intros; try done; [lia|]. congruence.
  - pose proof (proj1 (si_event _ Hsh) He) as Hu.
    apply (winv_update n s s ws i (WCalling p qs)); auto; simpl; intros; done.
  - destruct (process_answers_sinv ans s Hsh) as [Hs1 (Hsub & Ha & Hh)].
    apply (winv_update n s (receive s qs ans) ws i (WCalling p qs)); auto; simpl; intros; try done.
    + apply (sinv_same (foldl process_answer s ans)); auto; apply Hs1.
    + rewrite add_active_spec, Ha by (by eapply (wi_calling _ _ Hw)). destruct (decide _); lia.
  - apply (winv_update n s s ws i (WCalling p qs)); auto; simpl; intros; try done; [lia|].
    exists i, (WFailed qs). by rewrite (lookup_update _ _ (WCalling p qs)), decide_True.
Qed.
Lemma reachable_winv visited0 n c : reachable visited0 n c -> winv n c.
Proof. induction 1; [apply start_winv|by eapply step_winv]. Qed.

(** Among finitely many queries one has the least priority. *)
Lemma priority_total s q1 q2 :
  priority_le (heuristic_priority s q1) (heuristic_priority s q2) = true \/
  priority_le (heuristic_priority s q2) (heuristic_priority s q1) = true.
Proof.
  destruct (heuristic_priority s q1), (heuristic_priority s q2); simpl; auto. apply py_total.
Qed.

Lemma priority_trans s q1 q2 q3 :
  priority_le (heuristic_priority s q1) (heuristic_priority s q2) = true ->
  priority_le (heuristic_priority s q2) (heuristic_priority s q3) = true ->
  priority_le (heuristic_priority s q1) (heuristic_priority s q3) = true.
Proof.
  destruct (heuristic_priority s q1), (heuristic_priority s q2), (heuristic_priority s q3); simpl; try done.
  apply py_trans.
Qed.

Lemma least_priority s l : l <> [] -> exists q, q ∈ l /\
  forall q', q' ∈ l -> priority_le (heuristic_priority s q) (heuristic_priority s q') = true.
Proof.
  induction l as [|q l IH]; [done|]. intros _. destruct (decide (l = [])) as [->|Hne].
  { exists q. split; [set_solver|]. intros q' Hq'. apply list_elem_of_singleton in Hq' as ->.
    by destruct (priority_total s q q). }
  destruct (IH Hne) as (m & Hm & Hmin). destruct (priority_total s q m) as [H|H].
  - exists q. split; [set_solver|]. intros q' Hq'. apply elem_of_cons in Hq' as [->|Hq'].
    + by destruct (priority_total s q q).
    + eapply priority_trans; eauto.
  - exists m. split; [set_solver|]. intros q' Hq'. apply elem_of_cons in Hq' as [->|Hq']; auto.
Qed.

Lemma choice_exists s : unfinished_queries s <> ∅ -> exists q, is_choice s q.
Proof.
  intros Hne. destruct (least_priority s (elements (unfinished_queries s))) as (q & Hq & Hmin).
  { intros He. apply Hne. by apply elements_empty_iff_L in He || (apply elements_empty_inv in He; set_solver). }
  exists q. split; [by apply elem_of_elements|]. intros q' Hq'. apply Hmin. by apply elem_of_elements.
Qed.

(** No call has raised. *)
Definition none_failed (ws : list wstate) : Prop := forall qs, WFailed qs ∉ ws.

Lemma none_failed_insert ws i w : none_failed ws -> (forall qs, w <> WFailed qs) -> none_failed (<[i := w]> ws).
Proof.
  intros Hn Hw qs Hin. apply list_elem_of_lookup in Hin as [j Hj]. apply list_lookup_insert_Some in Hj as [(_ & E & _)|[_ Hj]]; [by destruct (Hw qs)|].
  apply (Hn qs). by eapply list_elem_of_lookup_2.
Qed.

Lemma waiting_has_caller visited0 n s ws i :
  reachable visited0 n (s, ws) -> none_failed ws -> unfinished_queries s <> ∅ ->
  ws !! i = Some WWaiting -> heap_updated s = false -> exists j p qs, j <> i /\ ws !! j = Some (WCalling p qs).
Proof.
  intros Hr Hn Hne Hi Hh. destruct (wi_wait _ _ (reachable_winv _ _ _ Hr) i Hi Hh Hne) as (j & w & Hj & Hb). simpl in Hj.
  destruct w as [| |p qs| |qs]; try done.
  - exists j, p, qs. split; [|done]. intros ->. congruence.
  - destruct (Hn qs). by eapply list_elem_of_lookup_2.
Qed.

Lemma progress visited0 n s ws :
  reachable visited0 n (s, ws) -> (0 < n)%nat -> unfinished_queries s <> ∅ -> none_failed ws ->
  exists s' ws', step (s, ws) (s', ws') /\ none_failed ws'.
Proof.
  intros Hr Hn Hne Hnf. pose proof (reachable_winv _ _ _ Hr) as Hw. pose proof (wi_shared _ _ Hw) as Hsh. simpl in Hsh.
  assert (Hsf : search_finished s = false).
  { apply not_true_iff_false. intros He. by apply Hne, (si_event _ Hsh). }
  pose proof (wi_length _ _ Hw) as Hl. simpl in Hl.
  destruct (ws !! 0%nat) as [w|] eqn:E0; [|apply lookup_ge_None in E0; lia].
  assert (Hrec : forall j p qs, ws !! j = Some (WCalling p qs) -> exists s' ws', step (s, ws) (s', ws') /\ none_failed ws').
  { intros j p qs Hj. eexists _, _. split; [by apply (step_receive s ws j p qs [])|by apply none_failed_insert]. }
  destruct w as [| |p qs| |qs]; [| |by eapply Hrec|by pose proof (wi_done _ _ Hw 0%nat E0)|].
  - destruct (choice_exists s Hne) as [q Hq]. destruct (worker_pass s q) as [s' w'] eqn:Ep.
    exists s', (<[0%nat := w']> ws). split; [by eapply step_pass|]. apply none_failed_insert; [done|]. intros qs ->.
    pose proof (worker_pass_spec s q s' _ Hsh (proj1 Hq) Ep) as Ho. inversion Ho.
  - destruct (heap_updated s) eqn:Eh.
    + exists s, (<[0%nat := WReady]> ws). split; [by eapply step_wake|by apply none_failed_insert].
    + destruct (waiting_has_caller _ _ _ _ _ Hr Hnf Hne E0 Eh) as (j & p & qs & _ & Hj). by eapply Hrec.
  - destruct (Hnf qs). by eapply list_elem_of_lookup_2.
Qed.
End traverse.

(** * Theorems *)

(** C18: At every moment of the search, under any scheduling of the workers, any answers and any calls that raise,
    the neighbours reported for a query are the [beam_size] nearest of all nodes known for
    it, those in [visited_nodes] included; when a worker has returned, the assertion after [asyncio.wait] holds, and
    if a call has raised, its worker has ended before the search was over.  ([beam_size] is positive, there is a query, and the
    initial nodes differ.) *)
Theorem traverse_results_nearest (beam per_call : nat) (queries initial : list Z) visited0 n s ws :
  (0 < beam)%nat -> NoDup initial -> queries <> [] ->
  reachable beam per_call queries initial visited0 n (s, ws) ->
  (forall q, exists l, NoDup l /\ known_nodes s q = list_to_set l /\
     neighbors_of beam s q = take beam (by_distance q l)) /\
  (WDone ∈ ws -> unfinished_queries s = ∅ /\ search_finished s = true) /\
  (forall s' ws' qs, step beam per_call queries (s, ws) (s', ws') -> none_failed ws -> WFailed qs ∈ ws' ->
     unfinished_queries s' <> ∅ /\ search_finished s' = false).
Proof.
  intros Hb Hnd Hq Hr. pose proof (reachable_winv beam per_call queries initial Hb Hnd Hq _ _ _ Hr) as Hw.
  pose proof (wi_shared _ _ _ _ Hw) as Hs. simpl in Hs. split.
  - intros q. destruct (si_beam _ _ _ Hs q) as (l & Hl & Hk & Hbm). exists l. split_and!; auto.
    apply beam_of_result; [done|]. by apply entries_NoDup.
  - split.
    { intros Hd. apply list_elem_of_lookup in Hd as [i Hi].
      pose proof (wi_done _ _ _ _ Hw i Hi) as Hu. split; [done|]. by apply (si_event _ _ _ Hs). }
    intros s' ws' qs Hst Hnf Hin.
    assert (Hfail : search_finished s = false -> unfinished_queries s <> ∅ /\ search_finished s = false).
    { intros Hf. split; [|done]. intros He. apply (si_event _ _ _ Hs) in He. congruence. }
    inversion Hst; subst; try (by destruct (none_failed_insert _ i WDone Hnf ltac:(done) qs));
      try (by destruct (none_failed_insert _ i WReady Hnf ltac:(done) qs)); [|by apply Hfail].
    destruct (none_failed_insert _ i w Hnf) with (qs := qs); [|done]. intros qs' ->.
    pose proof (worker_pass_spec beam per_call queries initial Hb Hnd Hq s q s' _ Hs ltac:(by destruct (ltac:(eassumption) : is_choice beam s q)) ltac:(eassumption)) as Ho. inversion Ho.
Qed.

(** When the search is over, [found_callback] has been called exactly once for each
    query, with the final neighbours of the query; and no peer was asked twice about a query. *)
Theorem found_callback_once (beam per_call : nat) (queries initial : list Z) visited0 n s ws :
  (0 < beam)%nat -> NoDup initial -> queries <> [] ->
  reachable beam per_call queries initial visited0 n (s, ws) ->
  NoDup (calls s) /\ NoDup (finished s).*1 /\
  (forall q r, (q, r) ∈ finished s -> r = neighbors_of beam s q) /\
  (unfinished_queries s = ∅ -> forall q, q ∈ (finished s).*1 <-> q ∈ queries).
Proof.
  intros Hb Hnd Hq Hr. pose proof (reachable_winv beam per_call queries initial Hb Hnd Hq _ _ _ Hr) as Hw.
  destruct (wi_shared _ _ _ _ Hw) as [H1 H2 H3 H4 H5 H6 H7 H8]. simpl in *.
  split_and!; auto. intros He q. rewrite H4, He. set_solver.
Qed.

(** C19: As long as no call of [get_neighbors] has raised, the search never deadlocks: while a query is unfinished,
    some worker can go on without a call raising; and a worker waits for [heap_updated_event] only while another one has a request under way.
    ([beam_size] and the number of workers are positive, there is a query, and the initial nodes differ.) *)
Theorem traverse_no_deadlock (beam per_call : nat) (queries initial : list Z) visited0 n s ws :
  (0 < beam)%nat -> NoDup initial -> queries <> [] -> (0 < n)%nat ->
  reachable beam per_call queries initial visited0 n (s, ws) -> unfinished_queries s <> ∅ -> none_failed ws ->
  (exists s' ws', step beam per_call queries (s, ws) (s', ws') /\ none_failed ws') /\
  (forall i, ws !! i = Some WWaiting -> heap_updated s = false -> exists j p qs, j <> i /\ ws !! j = Some (WCalling p qs)).
Proof.
  intros Hb Hnd Hq Hn Hr Hu Hnf. split; [by apply (progress beam per_call queries initial Hb Hnd Hq visited0 n)|].
  intros i. by apply (waiting_has_caller beam per_call queries initial Hb Hnd Hq visited0 n).
Qed.

(** ** A complete run: one query, one worker, two initial nodes *)

Section demo_steps.
Context (beam per_call : nat) (queries initial : list Z) (v0 : Z -> gset Z) (n : nat).

Lemma reach_pass s ws i q :
  reachable beam per_call queries initial v0 n (s, ws) -> ws !! i = Some WReady ->
  unfinished_queries s = {[q]} ->
  reachable beam per_call queries initial v0 n
    ((worker_pass beam per_call queries s q).1, <[i := (worker_pass beam per_call queries s q).2]> ws).
Proof.
  intros Hr Hi Hu. eapply reach_step; [done|]. apply (step_pass _ _ _ s ws i q); [done| |by destruct (worker_pass _ _ _ s q)].
  split; [set_solver|]. intros q'. rewrite Hu, elem_of_singleton. intros ->. by destruct (priority_total beam s q q).
Qed.

Lemma reach_pass_to s ws i q s' w ws' :
  reachable beam per_call queries initial v0 n (s, ws) -> ws !! i = Some WReady -> unfinished_queries s = {[q]} ->
  s' = (worker_pass beam per_call queries s q).1 -> (worker_pass beam per_call queries s q).2 = w -> ws' = <[i := w]> ws ->
  reachable beam per_call queries initial v0 n (s', ws').
Proof. intros Hr Hi Hu -> <- ->. by apply reach_pass. Qed.

Lemma reach_receive s ws i p qs ans :
  reachable beam per_call queries initial v0 n (s, ws) -> ws !! i = Some (WCalling p qs) ->
  search_finished s = false ->
  reachable beam per_call queries initial v0 n (receive beam s qs ans, <[i := WReady]> ws).
Proof. intros Hr Hi Hs. eapply reach_step; [done|]. by eapply step_receive. Qed.
End demo_steps.

Definition run0 : tstate := start 1 [5] [1; 2] (fun _ => ∅).
Definition run1 : tstate := (worker_pass 1 1 [5] run0 5).1.
Definition run2 : tstate := receive 1 run1 [5] [(5, ([4; 2], false))].
Definition run3 : tstate := (worker_pass 1 1 [5] run2 5).1.
Definition run4 : tstate := receive 1 run3 [5] [].
Definition run5 : tstate := (worker_pass 1 1 [5] run4 5).1.

(** One pass of the only worker, which ends in state [w]. *)
Lemma demo_pass s s' w :
  reachable 1 1 [5] [1; 2] (fun _ => ∅) 1 (s, [WReady]) -> unfinished_queries s = {[5]} ->
  s' = (worker_pass 1 1 [5] s 5).1 -> (worker_pass 1 1 [5] s 5).2 = w ->
  reachable 1 1 [5] [1; 2] (fun _ => ∅) 1 (s', [w]).
Proof. intros Hr Hu -> <-. by apply (reach_pass 1 1 [5] [1; 2] (fun _ => ∅) 1 s [WReady] 0 5). Qed.

Lemma run2_reachable : reachable 1 1 [5] [1; 2] (fun _ => ∅) 1 (run2, [WReady]).
Proof.
  apply (reach_receive 1 1 [5] [1; 2] (fun _ => ∅) 1 run1 [WCalling 1 [5]] 0 1 [5]); [|done|by vm_compute].
  apply (demo_pass run0); [apply reach_start|by vm_compute|done|by vm_compute].
Qed.

Lemma run5_reachable : reachable 1 1 [5] [1; 2] (fun _ => ∅) 1 (run5, [WDone]).
Proof.
  apply (demo_pass run4); [|by vm_compute|done|by vm_compute].
  apply (reach_receive 1 1 [5] [1; 2] (fun _ => ∅) 1 run3 [WCalling 4 [5]] 0 4 [5]); [|done|by vm_compute].
  apply (demo_pass run2); [apply run2_reachable|by vm_compute|done|by vm_compute].
Qed.

(** The visited nodes are reported, against the documentation: the only initial node is one of them. *)
Example visited_node_reported : neighbors_of 1 (start 1 [5] [4] (fun _ => {[4]})) 5 = [4].
Proof. by vm_compute. Qed.

(** Two workers, one query and one initial node: the first worker asks, the second one waits, the call raises.  The second worker waits
    for ever, since [active_workers] was not decremented. *)
Definition stuck1 : tstate := (worker_pass 1 1 [5] (start 1 [5] [1] (fun _ => ∅)) 5).1.
Definition stuck2 : tstate := (worker_pass 1 1 [5] stuck1 5).1.

Lemma stuck2_reachable : reachable 1 1 [5] [1] (fun _ => ∅) 2 (stuck2, [WCalling 1 [5]; WWaiting]).
Proof.
  apply (reach_pass_to 1 1 [5] [1] (fun _ => ∅) 2 stuck1 [WCalling 1 [5]; WReady] 1 5 stuck2 WWaiting); [|done|by vm_compute|done|by vm_compute|done].
  apply (reach_pass_to 1 1 [5] [1] (fun _ => ∅) 2 (start 1 [5] [1] (fun _ => ∅)) [WReady; WReady] 0 5 stuck1 (WCalling 1 [5]));
    [apply reach_start|done|by vm_compute|done|by vm_compute|done].
Qed.

Lemma failed_call_strands_worker :
  reachable 1 1 [5] [1] (fun _ => ∅) 2 (stuck2, [WFailed [5]; WWaiting]) /\ unfinished_queries stuck2 = {[5]} /\
  forall c', ~ step 1 1 [5] (stuck2, [WFailed [5]; WWaiting]) c'.
Proof.
  split; [|split; [by vm_compute|]].
  - eapply reach_step; [|apply (step_fail 1 1 [5] stuck2 [WCalling 1 [5]; WWaiting] 0 1 [5]); [done|by vm_compute]].
    apply stuck2_reachable.
  - intros c' Hst. inversion Hst as [? ? i Hi|? ? i q ? ? Hi|? ? i Hi He|? ? i ? ? Hi|? ? i ? ? ? Hi|? ? i ? ? Hi]; subst;
      try (destruct i as [|[|i]]; discriminate Hi). vm_compute in He. discriminate He.
Qed.

Lemma traverse_results_nearest_witness :
  (exists l, NoDup l /\ known_nodes run5 5 = list_to_set l /\ neighbors_of 1 run5 5 = take 1 (by_distance 5 l)) /\
  neighbors_of 1 run5 5 = [4] /\ search_finished run5 = true.
Proof.
  destruct (traverse_results_nearest 1 1 [5] [1; 2] (fun _ => ∅) 1 run5 [WDone]) as (H1 & H2 & _);
    [lia|apply (bool_decide_unpack _); by vm_compute|done|apply run5_reachable|].
  split; [apply H1|]. split; [by vm_compute|]. apply H2. by apply list_elem_of_singleton.
Defined.

Lemma found_callback_once_witness :
  finished run5 = [(5, [4])] /\ calls run5 = [(1, 5); (4, 5)] /\ forall q, q ∈ (finished run5).*1 <-> q ∈ [5].
Proof.
  destruct (found_callback_once 1 1 [5] [1; 2] (fun _ => ∅) 1 run5 [WDone]) as (_ & _ & _ & H);
    [lia|apply (bool_decide_unpack _); by vm_compute|done|apply run5_reachable|].
  split; [by vm_compute|]. split; [by vm_compute|]. apply H. by vm_compute.
Defined.

Lemma traverse_no_deadlock_witness :
  (exists s' ws', step 1 1 [5] (run2, [WReady]) (s', ws') /\ none_failed ws') /\
  (exists j p qs, j <> 1%nat /\ [WCalling 1 [5]; WWaiting] !! j = Some (WCalling p qs)).
Proof.
  split.
  - refine (proj1 (traverse_no_deadlock 1 1 [5] [1; 2] (fun _ => ∅) 1 run2 [WReady] _ _ _ _ run2_reachable _ _));
      [lia|apply (bool_decide_unpack _); by vm_compute|done|lia|intros He; vm_compute in He; discriminate He|].
    intros qs Hin. by apply list_elem_of_singleton in Hin.
  - refine (proj2 (traverse_no_deadlock 1 1 [5] [1] (fun _ => ∅) 2 stuck2 [WCalling 1 [5]; WWaiting] _ _ _ _ _ _ _) 1%nat _ _);
      [lia|apply (bool_decide_unpack _); by vm_compute|done|lia| |intros He; vm_compute in He; discriminate He| |done|by vm_compute].
    + apply stuck2_reachable.
    + intros qs Hin. apply elem_of_cons in Hin as [?|Hin]; [done|]. apply list_elem_of_singleton in Hin. done.
Defined.
