(* ===== verification/Base64.v ===== *)
(** * Base64, as [base64.b64encode] and [base64.b64decode] compute it *)

From S2P Require Import Prelude DHTID.

(** The alphabet; the characters are ASCII codes. *)
Definition b64char (n : Z) : Z :=
  if n <? 26 then 65 + n else if n <? 52 then 71 + n else if n <? 62 then n - 4 else if n =? 62 then 43 else 47.

Definition b64value (c : Z) : option Z :=
  if (65 <=? c) && (c <=? 90) then Some (c - 65)
  else if (97 <=? c) && (c <=? 122) then Some (c - 71)
  else if (48 <=? c) && (c <=? 57) then Some (c + 4)
  else if c =? 43 then Some 62 else if c =? 47 then Some 63 else None.

Definition pad_char : Z := 61.

(** [b64encode] *)
Fixpoint b64encode (l : bytes) : bytes :=
  match l with
  | [] => []
  | [a] => [b64char (a / 4); b64char (a mod 4 * 16); pad_char; pad_char]
  | [a; b] => [b64char (a / 4); b64char (a mod 4 * 16 + b / 16); b64char (b mod 16 * 4); pad_char]
  | a :: b :: c :: t =>
      b64char (a / 4) :: b64char (a mod 4 * 16 + b / 16) :: b64char (b mod 16 * 4 + c / 64) :: b64char (c mod 64)
        :: b64encode t
  end.

(** [b64decode] without validation: characters outside the alphabet are skipped, and a
    complete padding ends the input.  [quad] counts the characters of the current group
    and [left] holds its unused bits. *)
Fixpoint b64decode_loop (s : bytes) (quad : nat) (left pads : Z) (out : bytes) : result bytes :=
  match s with
  | [] => if (quad =? 0)%nat then Ok out else Raise ValueError
  | c :: s' =>
      if c =? pad_char then
        if (2 <=? quad)%nat && (4 <=? Z.of_nat quad + (pads + 1)) then Ok out
        else b64decode_loop s' quad left (pads + 1) out
      else
        match b64value c with
        | None => b64decode_loop s' quad left pads out
        | Some v =>
            match quad with
            | 0%nat => b64decode_loop s' 1 v 0 out
            | 1%nat => b64decode_loop s' 2 (v mod 16) 0 (out ++ [left * 4 + v / 16])
            | 2%nat => b64decode_loop s' 3 (v mod 4) 0 (out ++ [left * 16 + v / 4])
            | _ => b64decode_loop s' 0 0 0 (out ++ [left * 64 + v])
            end
        end
  end.

Definition b64decode (s : bytes) : result bytes := b64decode_loop s 0 0 0 [].

Lemma b64value_char n : 0 <= n < 64 -> b64value (b64char n) = Some n /\ b64char n <> pad_char.
Proof.
  intros Hn. unfold b64char, b64value, pad_char.
  repeat match goal with |- context [if ?b then _ else _] => destruct b eqn:?; propify end;
    try (split; [f_equal|]; lia); try lia.
Qed.

(** Characters of an encoding are letters, digits, [+], [/] and [=]. *)
Definition b64_safe (c : Z) : Prop := 43 <= c <= 122 /\ c <> 91 /\ c <> 93.

Lemma b64char_safe n : 0 <= n < 64 -> b64_safe (b64char n).
Proof.
  intros Hn. unfold b64char, b64_safe.
  repeat match goal with |- context [if ?b then _ else _] => destruct b eqn:?; propify end; lia.
Qed.

Lemma sextets a b c : is_byte a -> is_byte b -> is_byte c ->
  0 <= a / 4 < 64 /\ 0 <= a mod 4 * 16 < 64 /\ 0 <= a mod 4 * 16 + b / 16 < 64 /\ 0 <= b mod 16 * 4 < 64 /\
  0 <= b mod 16 * 4 + c / 64 < 64 /\ 0 <= c mod 64 < 64.
Proof. unfold is_byte. intros. split_and!; Z.div_mod_to_equations; lia. Qed.

(** Induction by groups of three bytes. *)
Lemma list_ind3 {A : Type} (P : list A -> Prop) :
  P [] -> (forall a, P [a]) -> (forall a b, P [a; b]) -> (forall a b c t, P t -> P (a :: b :: c :: t)) ->
  forall l, P l.
Proof.
  intros H0 H1 H2 H3. fix IH 1. intros [|a [|b [|c t]]]; [apply H0|apply H1|apply H2|apply H3, IH].
Qed.

Lemma b64encode_safe l : Forall is_byte l -> Forall b64_safe (b64encode l).
Proof.
  induction l as [|a|a b|a b c t IH] using list_ind3; intros Hl; [constructor|..];
    rewrite ?Forall_cons in Hl; destruct_and?; assert (Hz : is_byte 0) by (unfold is_byte; lia).
  - destruct (sextets a 0 0) as (? & ? & ? & ? & ? & ?); auto.
    repeat (apply Forall_cons; split); auto using b64char_safe; unfold b64_safe, pad_char; lia.
  - destruct (sextets a b 0) as (? & ? & ? & ? & ? & ?); auto.
    repeat (apply Forall_cons; split); auto using b64char_safe; unfold b64_safe, pad_char; lia.
  - destruct (sextets a b c) as (? & ? & ? & ? & ? & ?); auto. cbn [b64encode].
    repeat (apply Forall_cons; split); auto using b64char_safe.
Qed.

(** One character of a group. *)
Lemma decode_char n s quad left pads out : 0 <= n < 64 ->
  b64decode_loop (b64char n :: s) quad left pads out =
  match quad with
  | 0%nat => b64decode_loop s 1 n 0 out
  | 1%nat => b64decode_loop s 2 (n mod 16) 0 (out ++ [left * 4 + n / 16])
  | 2%nat => b64decode_loop s 3 (n mod 4) 0 (out ++ [left * 16 + n / 4])
  | _ => b64decode_loop s 0 0 0 (out ++ [left * 64 + n])
  end.
Proof.
  intros Hn. destruct (b64value_char n Hn) as [Hv Hp]. cbn [b64decode_loop].
  rewrite (proj2 (Z.eqb_neq _ _) Hp), Hv. done.
Qed.

Lemma b64decode_encode_acc l : forall out, Forall is_byte l -> b64decode_loop (b64encode l) 0 0 0 out = Ok (out ++ l).
Proof.
  induction l as [|a|a b|a b c t IH] using list_ind3; intros out Hl; [by rewrite app_nil_r|..];
    rewrite ?Forall_cons in Hl; destruct_and?; assert (Hz : is_byte 0) by (unfold is_byte; lia); cbn [b64encode].
  - destruct (sextets a 0 0) as (? & ? & ? & ? & ? & ?); auto. rewrite !decode_char by done. simpl.
    do 2 f_equal. unfold is_byte in *. do 2 f_equal. Z.div_mod_to_equations. lia.
  - destruct (sextets a b 0) as (? & ? & ? & ? & ? & ?); auto. rewrite !decode_char by done. simpl.
    rewrite <- app_assoc. simpl. unfold is_byte in *. do 3 f_equal; [|f_equal]; Z.div_mod_to_equations; lia.
  - destruct (sextets a b c) as (? & ? & ? & ? & ? & ?); auto. rewrite !decode_char by done.
    rewrite IH by done. rewrite <- !app_assoc. simpl. unfold is_byte in *.
    do 3 f_equal; [|f_equal; [|f_equal]]; Z.div_mod_to_equations; lia.
Qed.

Lemma b64decode_encode l : Forall is_byte l -> b64decode (b64encode l) = Ok l.
Proof. intros. unfold b64decode. by rewrite b64decode_encode_acc. Qed.
