(* ===== verification/Validation.v ===== *)
(** * Record validators ([mesh/dht/validation.py])

    A validator signs the value of a record before it is stored, and validates and strips a
    record that arrives.  [RecordValidatorBase] is a type class; [CompositeValidator] is
    proved against that interface. *)

From S2P Require Import Prelude DHTID.

Record DHTRecord : Type := mkRecord {
  rec_key : bytes;
  rec_subkey : option bytes;
  rec_value : bytes;
  rec_expiration : Z;
}.

Inductive DHTRecordRequestType : Type := GET | POST.

#[export] Instance DHTRecordRequestType_eq_dec : EqDecision DHTRecordRequestType.
Proof. solve_decision. Defined.

(** [dataclasses.replace(record, value=v)] *)
Definition replace_value (r : DHTRecord) (v : bytes) : DHTRecord :=
  mkRecord (rec_key r) (rec_subkey r) v (rec_expiration r).

(** [RecordValidatorBase]; [merge_with self other] is the new state of [self] when
    [other] was merged into it, and [None] when it returned [False]. *)
Class RecordValidator (Val : Type) := {
  validate : Val -> DHTRecord -> DHTRecordRequestType -> result bool;
  sign_value : Val -> DHTRecord -> result bytes;
  strip_value : Val -> DHTRecord -> result bytes;
  priority : Val -> Z;
  merge_with : Val -> Val -> option Val;
}.

Section Composite.
Context {Val : Type} `{RV : RecordValidator Val}.
Implicit Types (v : Val) (vs : list Val) (r : DHTRecord) (t : DHTRecordRequestType).

(** The inner loop of [extend]: merge into the first validator that accepts, else append. *)
Fixpoint merge_or_append vs new : list Val :=
  match vs with
  | [] => [new]
  | v :: vs' => match merge_with v new with
                | Some v' => v' :: vs'
                | None => v :: merge_or_append vs' new
                end
  end.

(** [list.sort(key=priority)] is stable. *)
Fixpoint insert_by_priority v vs : list Val :=
  match vs with
  | [] => [v]
  | v' :: vs' => if priority v <=? priority v' then v :: vs else v' :: insert_by_priority v vs'
  end.
Definition sort_by_priority vs : list Val := foldr insert_by_priority [] vs.

(** [CompositeValidator.extend] and [__init__] *)
Definition extend vs (new : list Val) : list Val := sort_by_priority (foldl merge_or_append vs new).
Definition composite_init (new : list Val) : list Val := extend [] new.

(** The loop of [CompositeValidator.validate] over the reversed list: every record but the last
    is stripped before the next validator sees it. *)
Fixpoint validate_loop (rev_vs : list Val) r t : result bool :=
  match rev_vs with
  | [] => Ok true
  | v :: rest =>
      let* ok := validate v r t in
      if negb ok then Ok false
      else match rest with
           | [] => Ok true
           | _ :: _ => let* s := strip_value v r in validate_loop rest (replace_value r s) t
           end
  end.

Definition composite_validate vs r t : result bool := validate_loop (reverse vs) r t.

(** [CompositeValidator.sign_value] and [strip_value] *)
Definition composite_sign vs r : result bytes :=
  rmap rec_value (foldM_r (fun r v => rmap (replace_value r) (sign_value v r)) r vs).
Definition composite_strip vs r : result bytes :=
  rmap rec_value (foldM_r (fun r v => rmap (replace_value r) (strip_value v r)) r (reverse vs)).

(** ** Lemmas *)

Lemma replace_value_twice r a b : replace_value (replace_value r a) b = replace_value r b.
Proof. done. Qed.

Lemma replace_value_id r : replace_value r (rec_value r) = r.
Proof. by destruct r. Qed.

(** Signing works at a validator: the signed record is valid and stripping undoes it. *)
Definition signs_well t v r s : Prop :=
  sign_value v r = Ok s /\ validate v (replace_value r s) t = Ok true /\
  strip_value v (replace_value r s) = Ok (rec_value r).

(** A chain of validators that sign well one after the other. *)
Inductive chain t : list Val -> DHTRecord -> bytes -> Prop :=
| chain_nil r : chain t [] r (rec_value r)
| chain_cons v vs r s s' :
    signs_well t v r s -> chain t vs (replace_value r s) s' -> chain t (v :: vs) r s'.

Lemma chain_sign t vs r s : chain t vs r s ->
  foldM_r (fun r v => rmap (replace_value r) (sign_value v r)) r vs = Ok (replace_value r s).
Proof.
  induction 1 as [r|v vs r s s' (Hs & _) _ IH]; simpl; [by rewrite replace_value_id|].
  rewrite Hs. simpl. by rewrite IH.
Qed.

Lemma foldM_r_app {A S : Type} (f : S -> A -> result S) l1 l2 : forall s,
  foldM_r f s (l1 ++ l2) = (let* s' := foldM_r f s l1 in foldM_r f s' l2).
Proof.
  induction l1 as [|x l1 IH]; intros s; simpl; [done|]. destruct (f s x); simpl; [apply IH|done].
Qed.

Lemma chain_strip t vs r s : chain t vs r s ->
  foldM_r (fun r v => rmap (replace_value r) (strip_value v r)) (replace_value r s) (reverse vs) = Ok r.
Proof.
  induction 1 as [r|v vs r s s' (_ & _ & Hst) _ IH]; simpl; [by rewrite replace_value_id|].
  rewrite replace_value_twice in IH. rewrite reverse_cons, foldM_r_app, IH. simpl. rewrite Hst. simpl.
  by rewrite replace_value_twice, replace_value_id.
Qed.

(** The last validator of a prefix sees the record stripped by the others. *)
Lemma validate_loop_snoc rv v : forall r t r',
  validate_loop rv r t = Ok true ->
  foldM_r (fun r v => rmap (replace_value r) (strip_value v r)) r rv = Ok r' ->
  validate v r' t = Ok true -> validate_loop (rv ++ [v]) r t = Ok true.
Proof.
  induction rv as [|v0 rv IH]; intros r t r' Hv Hs Hl; simpl in *.
  { simplify_eq. by rewrite Hl. }
  destruct (validate v0 r t) as [[]|]; simpl in *; try done.
  destruct (strip_value v0 r) as [s|] eqn:Es; simpl in *; [|done].
  destruct rv as [|v1 rv]; simpl in *.
  - simplify_eq. by rewrite Hl.
  - eapply IH; eauto.
Qed.

Lemma chain_validate t vs r s : chain t vs r s -> composite_validate vs (replace_value r s) t = Ok true.
Proof.
  unfold composite_validate. induction 1 as [r|v vs r s s' (_ & Hv & _) Hc IH]; [done|].
  rewrite replace_value_twice in IH. rewrite reverse_cons.
  eapply validate_loop_snoc; [done| |done]. pose proof (chain_strip _ _ _ _ Hc) as Hst.
  by rewrite replace_value_twice in Hst.
Qed.

(** A validated record passed every validator, each on the record stripped by those before it. *)
Lemma validate_loop_inv rv : forall r t,
  validate_loop rv r t = Ok true ->
  forall v i, rv !! i = Some v ->
  exists r', foldM_r (fun r v => rmap (replace_value r) (strip_value v r)) r (take i rv) = Ok r' /\
    validate v r' t = Ok true.
Proof.
  induction rv as [|v0 rv IH]; intros r t H v i Hi; [done|]. simpl in H.
  destruct (validate v0 r t) as [[]|] eqn:E; simpl in H; try done.
  destruct i as [|i]; simpl in Hi; [simplify_eq; by exists r|].
  destruct rv as [|v1 rv]; [done|].
  destruct (strip_value v0 r) as [s|] eqn:Es; simpl in H; [|done].
  destruct (IH (replace_value r s) t H v i Hi) as (r' & Hr' & Hv).
  exists r'. cbn [take foldM_r]. rewrite Es. simpl. done.
Qed.

(** ** Order *)

Definition sorted_vs vs : Prop := StronglySorted (fun a b => priority a <= priority b) vs.

Lemma insert_by_priority_perm v vs : insert_by_priority v vs ≡ₚ v :: vs.
Proof.
  induction vs as [|v' vs IH]; simpl; [done|]. destruct (_ <=? _); [done|].
  rewrite IH. apply Permutation_swap.
Qed.

Lemma insert_by_priority_sorted v vs : sorted_vs vs -> sorted_vs (insert_by_priority v vs).
Proof.
  unfold sorted_vs. induction 1 as [|v' vs Hs IH Hf]; simpl; [repeat constructor|].
  destruct (_ <=? _) eqn:E; propify.
  - repeat constructor; auto. eapply Forall_impl; [apply Hf|]. simpl. lia.
  - constructor; [done|]. rewrite insert_by_priority_perm. constructor; [lia|done].
Qed.

Lemma sort_by_priority_spec vs : sort_by_priority vs ≡ₚ vs /\ sorted_vs (sort_by_priority vs).
Proof.
  induction vs as [|v vs [IH1 IH2]]; simpl; [split; [done|constructor]|].
  split; [by rewrite insert_by_priority_perm, IH1|]. by apply insert_by_priority_sorted.
Qed.
End Composite.

(** ** [HypertensorPredicateValidator]: the value is kept, a predicate decides *)

Section Predicate.
Variable record_predicate : DHTRecord -> DHTRecordRequestType -> result bool.

Definition predicate_validate (r : DHTRecord) (t : DHTRecordRequestType) : result bool := record_predicate r t.
Definition predicate_sign (r : DHTRecord) : result bytes := Ok (rec_value r).
Definition predicate_strip (r : DHTRecord) : result bytes := Ok (rec_value r).
Definition predicate_priority : Z := 9.
End Predicate.
