(* ===== verification/Crypto.v ===== *)
(** * Signed records ([mesh/dht/crypto.py], [SignatureValidator], and the key classes of
    [mesh/utils/crypto.py])

    The primitives of the [cryptography] package and the msgpack encoding of a record are
    the class [CryptoLib]; what the validator relies on is [CryptoLaws]. *)

From Stdlib Require Import String Ascii.
From S2P Require Import Prelude DHTID Base64 Validation.

Class CryptoLib (PrivateKey PublicKey : Type) := {
  raw_sign : PrivateKey -> bytes -> bytes;
  get_public_key : PrivateKey -> PublicKey;
  public_to_bytes : PublicKey -> bytes;
  load_rsa_key : bytes -> result PublicKey;
  load_ed25519_key : bytes -> result PublicKey;
  raw_verify : PublicKey -> bytes -> bytes -> bool;
  dumps_record : DHTRecord -> bytes;
}.

(** ** Keys *)

Section Keys.
Context {PrivateKey PublicKey : Type} `{Lib : CryptoLib PrivateKey PublicKey}.

(** [RSAPrivateKey.sign] and [Ed25519PrivateKey.sign] *)
Definition sign (sk : PrivateKey) (data : bytes) : bytes := b64encode (raw_sign sk data).

(** [RSAPublicKey.verify] and [Ed25519PublicKey.verify] *)
Definition verify (pk : PublicKey) (data signature : bytes) : bool :=
  match b64decode signature with
  | Ok raw => raw_verify pk data raw
  | Raise _ => false
  end.

(** [load_public_key_from_bytes] *)
Definition load_public_key_from_bytes (key : bytes) : result PublicKey :=
  match load_rsa_key key with
  | Ok pk => Ok pk
  | Raise ValueError | Raise TypeError =>
      match load_ed25519_key key with
      | Ok pk => Ok pk
      | Raise ValueError | Raise TypeError => Raise ValueError
      | Raise e => Raise e
      end
  | Raise e => Raise e
  end.
End Keys.

(** ** The regular expressions [\[owner:(.+?)\]] and [\[signature:(.+?)\]] on bytes *)

Definition OWNER_PREFIX : bytes := lit "[owner:".
Definition SIGNATURE_PREFIX : bytes := lit "[signature:".
Definition CLOSE : Z := 93.
Definition NEWLINE : Z := 10.

Fixpoint strip_prefix (p s : bytes) : option bytes :=
  match p, s with
  | [], _ => Some s
  | a :: p', b :: s' => if a =? b then strip_prefix p' s' else None
  | _ :: _, [] => None
  end.

(** The lazy group: extend until the first closing bracket; [.] does not match a newline. *)
Fixpoint scan_group (acc s : bytes) : option (bytes * bytes) :=
  match s with
  | [] => None
  | c :: s' => if c =? CLOSE then Some (acc, s')
               else if c =? NEWLINE then None else scan_group (acc ++ [c]) s'
  end.

(** A match at the start of [s]: the group and what follows the match. *)
Definition match_at (prefix s : bytes) : option (bytes * bytes) :=
  match strip_prefix prefix s with
  | Some (c :: s') => if c =? NEWLINE then None else scan_group [c] s'
  | _ => None
  end.

(** [findall] and [sub(b"", ...)]; each iteration consumes at least one byte. *)
Fixpoint findall_loop (fuel : nat) (prefix s : bytes) : list bytes :=
  match fuel, s with
  | S n, c :: s' => match match_at prefix s with
                    | Some (g, rest) => g :: findall_loop n prefix rest
                    | None => findall_loop n prefix s'
                    end
  | _, _ => []
  end.
Definition findall (prefix s : bytes) : list bytes := findall_loop (List.length s) prefix s.

Fixpoint sub_loop (fuel : nat) (prefix s : bytes) : bytes :=
  match fuel, s with
  | S n, c :: s' => match match_at prefix s with
                    | Some (_, rest) => sub_loop n prefix rest
                    | None => c :: sub_loop n prefix s'
                    end
  | _, _ => []
  end.
Definition sub_empty (prefix s : bytes) : bytes := sub_loop (List.length s) prefix s.

(** [needle in hay] *)
Fixpoint contains_bytes (needle hay : bytes) : bool :=
  match strip_prefix needle hay with
  | Some _ => true
  | None => match hay with [] => false | _ :: hay' => contains_bytes needle hay' end
  end.

(** ** [SignatureValidator] *)

Section SignatureValidator.
Context {PrivateKey PublicKey : Type} `{Lib : CryptoLib PrivateKey PublicKey}.

(** [SignatureValidator.__init__]: the marker of records this key owns. *)
Definition local_public_key (sk : PrivateKey) : bytes :=
  OWNER_PREFIX ++ public_to_bytes (get_public_key sk) ++ [CLOSE].

(** [_serialize_record] *)
Definition serialize_record (r : DHTRecord) : bytes := dumps_record r.

(** [strip_value] *)
Definition sig_strip_value (r : DHTRecord) : bytes := sub_empty SIGNATURE_PREFIX (rec_value r).

(** The public keys named in the key and in the subkey. *)
Definition owners (r : DHTRecord) : list bytes :=
  findall OWNER_PREFIX (rec_key r) ++
  match rec_subkey r with Some sk => findall OWNER_PREFIX sk | None => [] end.

(** [validate] *)
Definition sig_validate (r : DHTRecord) (t : DHTRecordRequestType) : result bool :=
  match owners r with
  | [] => Ok true
  | owner :: rest =>
      if (1 <? List.length (remove_dups (owner :: rest)))%nat then Ok false
      else
        let* public_key := load_public_key_from_bytes owner in
        match findall SIGNATURE_PREFIX (rec_value r) with
        | [signature] =>
            let stripped := replace_value r (sig_strip_value r) in
            Ok (verify public_key (serialize_record stripped) signature)
        | _ => Ok false
        end
  end.

(** [sign_value] *)
Definition sig_sign_value (sk : PrivateKey) (r : DHTRecord) : result bytes :=
  let marker := local_public_key sk in
  let signed := Ok (rec_value r ++ SIGNATURE_PREFIX ++ sign sk (serialize_record r) ++ [CLOSE]) in
  if contains_bytes marker (rec_key r) then signed
  else match rec_subkey r with
       | None => Raise TypeError
       | Some subkey => if contains_bytes marker subkey then signed else Ok (rec_value r)
       end.

Definition sig_priority : Z := 10.
End SignatureValidator.

(** The validators a node combines. *)
Inductive Validator (PrivateKey : Type) : Type :=
  | VSignature (sk : PrivateKey)
  | VPredicate (p : DHTRecord -> DHTRecordRequestType -> result bool).
Arguments VSignature {_} _.
Arguments VPredicate {_} _.

#[export] Instance validator_ops {PrivateKey PublicKey : Type} `{Lib : CryptoLib PrivateKey PublicKey} :
  RecordValidator (Validator PrivateKey) := {|
  validate v r t := match v with VSignature _ => sig_validate r t | VPredicate p => predicate_validate p r t end;
  sign_value v r := match v with VSignature sk => sig_sign_value sk r | VPredicate _ => predicate_sign r end;
  strip_value v r := match v with VSignature _ => Ok (sig_strip_value r) | VPredicate _ => predicate_strip r end;
  priority v := match v with VSignature _ => sig_priority | VPredicate _ => predicate_priority end;
  (* an instance of the same class is ignored and reported as merged *)
  merge_with v w := match v, w with
                    | VSignature _, VSignature _ | VPredicate _, VPredicate _ => Some v
                    | _, _ => None
                    end;
|}.

(** What the validator relies on: a signature verifies under the matching public key, a
    public key survives its serialization, and neither contains the delimiters. *)
Class CryptoLaws (PrivateKey PublicKey : Type) `{Lib : CryptoLib PrivateKey PublicKey} : Prop := {
  verify_sign sk m : raw_verify (get_public_key sk) m (raw_sign sk m) = true;
  sign_bytes sk m : raw_sign sk m <> [] /\ Forall is_byte (raw_sign sk m);
  load_public sk : load_public_key_from_bytes (public_to_bytes (get_public_key sk)) = Ok (get_public_key sk);
}.

(** ** Lemmas on the regular expressions *)

Lemma strip_prefix_spec p s rest : strip_prefix p s = Some rest <-> s = p ++ rest.
Proof.
  revert s. induction p as [|a p IH]; intros s; simpl; [naive_solver|].
  destruct s as [|b s]; [naive_solver|]. destruct (a =? b) eqn:E; propify.
  - subst. rewrite IH. naive_solver.
  - naive_solver.
Qed.

Lemma scan_group_safe g : forall acc s, Forall b64_safe g -> scan_group acc (g ++ CLOSE :: s) = Some (acc ++ g, s).
Proof.
  induction g as [|c g IH]; intros acc s Hg; cbn [app scan_group]; [by rewrite app_nil_r|].
  apply Forall_cons in Hg as [Hc Hg]. unfold b64_safe in Hc.
  rewrite (proj2 (Z.eqb_neq c CLOSE)), (proj2 (Z.eqb_neq c NEWLINE)) by (unfold CLOSE, NEWLINE; lia).
  rewrite IH by done. by rewrite <- app_assoc.
Qed.

Lemma match_at_safe p g s : g <> [] -> Forall b64_safe g -> match_at p (p ++ g ++ CLOSE :: s) = Some (g, s).
Proof.
  intros Hne Hg. unfold match_at. rewrite (proj2 (strip_prefix_spec p _ (g ++ CLOSE :: s)) eq_refl).
  destruct g as [|c g]; [done|]. apply Forall_cons in Hg as [Hc Hg]. cbn [app]. unfold b64_safe in Hc.
  rewrite (proj2 (Z.eqb_neq c NEWLINE)) by (unfold NEWLINE; lia). by rewrite scan_group_safe.
Qed.

(** No match starts inside a text without the prefix, whatever follows it starts with. *)
Lemma no_match_inside b p v tail :
  b ∉ p -> v <> [] -> contains_bytes (b :: p) v = false -> match_at (b :: p) (v ++ (b :: p) ++ tail) = None.
Proof.
  intros Hb Hne Hc. unfold match_at. destruct (strip_prefix (b :: p) (v ++ (b :: p) ++ tail)) as [rest|] eqn:E; [|done].
  exfalso. apply strip_prefix_spec in E. apply app_eq_app in E as [l [[E1 E2]|[E1 E2]]].
  - assert (Hs : strip_prefix (b :: p) v = Some l) by (by apply strip_prefix_spec).
    destruct v; simpl in Hc; [done|]. simpl in Hs. by rewrite Hs in Hc.
  - destruct l as [|c l].
    + rewrite app_nil_r in E1. subst v. assert (Hs : strip_prefix (b :: p) (b :: p) = Some []).
      { apply strip_prefix_spec. by rewrite app_nil_r. }
      simpl in Hc. simpl in Hs. by rewrite Hs in Hc.
    + simpl in E2. injection E2 as <- _. destruct v as [|a v]; [done|]. simpl in E1. injection E1 as -> E1.
      apply Hb. rewrite E1. set_solver.
Qed.

Lemma contains_tail needle c v : contains_bytes needle (c :: v) = false -> contains_bytes needle v = false.
Proof. simpl. by destruct (strip_prefix needle (c :: v)). Qed.

Lemma findall_signed b p g v : forall fuel,
  b ∉ p -> contains_bytes (b :: p) v = false -> g <> [] -> Forall b64_safe g ->
  (List.length v + List.length (b :: p) <= fuel)%nat ->
  findall_loop fuel (b :: p) (v ++ (b :: p) ++ g ++ [CLOSE]) = [g] /\
  sub_loop fuel (b :: p) (v ++ (b :: p) ++ g ++ [CLOSE]) = v.
Proof.
  induction v as [|c v IH]; intros fuel Hb Hc Hne Hg Hf.
  - destruct fuel as [|fuel]; [simpl in Hf; lia|].
    pose proof (match_at_safe (b :: p) g [] Hne Hg) as Hm. cbn [app] in *.
    cbn [findall_loop sub_loop]. rewrite Hm. by destruct fuel.
  - destruct fuel as [|fuel]; [simpl in Hf; lia|].
    pose proof (no_match_inside b p (c :: v) (g ++ [CLOSE]) Hb ltac:(done) Hc) as Hm.
    cbn [app] in *. cbn [findall_loop sub_loop]. rewrite Hm.
    destruct (IH fuel) as [H1 H2]; auto; [by eapply contains_tail|simpl in *; lia|].
    cbn [app] in H1, H2. by rewrite H1, H2.
Qed.

Lemma b64encode_nonempty l : l <> [] -> b64encode l <> [].
Proof. by destruct l as [|a [|b [|c t]]]. Qed.

Section SignedRecords.
Context {PrivateKey PublicKey : Type} `{Lib : CryptoLib PrivateKey PublicKey} {Laws : CryptoLaws PrivateKey PublicKey}.
Implicit Types (sk : PrivateKey) (r : DHTRecord) (t : DHTRecordRequestType).

(** [r] is owned by [sk] alone and its value carries no signature marker yet. *)
Definition owned sk r : Prop :=
  contains_bytes SIGNATURE_PREFIX (rec_value r) = false /\
  owners r <> [] /\ Forall (fun o => o = public_to_bytes (get_public_key sk)) (owners r) /\
  (contains_bytes (local_public_key sk) (rec_key r) = true \/
   exists subkey, rec_subkey r = Some subkey /\ contains_bytes (local_public_key sk) subkey = true).

Lemma signed_value sk r :
  contains_bytes SIGNATURE_PREFIX (rec_value r) = false ->
  let signed := rec_value r ++ SIGNATURE_PREFIX ++ sign sk (serialize_record r) ++ [CLOSE] in
  findall SIGNATURE_PREFIX signed = [sign sk (serialize_record r)] /\
  sub_empty SIGNATURE_PREFIX signed = rec_value r.
Proof.
  intros Hc signed. unfold findall, sub_empty. subst signed.
  change SIGNATURE_PREFIX with (91 :: lit "signature:") in *.
  destruct (sign_bytes sk (serialize_record r)) as [Hne Hby].
  apply findall_signed; auto.
  - apply (bool_decide_unpack _). by vm_compute.
  - by apply b64encode_nonempty.
  - by apply b64encode_safe.
  - rewrite !length_app. simpl. lia.
Qed.

Lemma same_owners_once (o : bytes) (l : list bytes) : Forall (fun x => x = o) l -> l <> [] -> remove_dups l = [o] /\ head l = Some o.
Proof.
  induction 1 as [|x l -> Hl IH]; [done|]. intros _. split; [|done]. simpl.
  destruct (decide_rel _ _ _) as [Hin|Hin].
  - destruct IH as [IH _]; [by intros ->; set_solver|done].
  - destruct l as [|y l]; [done|]. apply Forall_cons in Hl as [-> _]. set_solver.
Qed.

Lemma owned_signs_well sk r t : owned sk r ->
  signs_well t (VSignature sk) r (rec_value r ++ SIGNATURE_PREFIX ++ sign sk (serialize_record r) ++ [CLOSE]).
Proof.
  intros (Hc & Hne & Hall & Hmark). destruct (signed_value sk r Hc) as [Hf Hs].
  set (s := rec_value r ++ _) in *. unfold signs_well. cbn [sign_value validate strip_value validator_ops]. split_and!.
  - unfold sig_sign_value. destruct Hmark as [->|(subkey & -> & Hm)]; [done|].
    destruct (contains_bytes _ (rec_key r)); [done|]. by rewrite Hm.
  - unfold sig_validate. change (owners (replace_value r s)) with (owners r).
    destruct (same_owners_once _ _ Hall Hne) as [Hd Hh].
    destruct (owners r) as [|o rest] eqn:Eo; [done|]. simpl in Hh. injection Hh as ->. rewrite Hd.
    cbn [List.length Nat.ltb Nat.leb]. rewrite load_public. cbn [rbind rec_value replace_value]. rewrite Hf.
    f_equal. unfold sig_strip_value. cbn [rec_value replace_value]. rewrite Hs.
    change (mkRecord (rec_key r) (rec_subkey r) (rec_value r) (rec_expiration r)) with (replace_value r (rec_value r)).
    unfold verify. rewrite replace_value_twice, replace_value_id. unfold sign.
    rewrite b64decode_encode by apply sign_bytes. apply verify_sign.
  - unfold sig_strip_value. cbn [rec_value replace_value]. by rewrite Hs.
Qed.

Lemma predicate_signs_well (p : DHTRecord -> DHTRecordRequestType -> result bool) r t :
  p r t = Ok true -> signs_well t (VPredicate p) r (rec_value r).
Proof. intros Hp. unfold signs_well. simpl. rewrite replace_value_id. done. Qed.

(** * Theorems *)

(** C12: A record that its owner signs is accepted everywhere and read back unchanged: with
    the two validators of a node, the signed value validates whenever the predicate accepts the
    record, and stripping returns the original value. *)
Theorem signed_record_roundtrip sk (p : DHTRecord -> DHTRecordRequestType -> result bool) r t :
  owned sk r -> p r t = Ok true ->
  let vs := composite_init [VSignature sk; VPredicate p] in
  exists s, composite_sign vs r = Ok s /\ composite_validate vs (replace_value r s) t = Ok true /\
    composite_strip vs (replace_value r s) = Ok (rec_value r).
Proof.
  intros Ho Hp vs.
  assert (Hc : chain t vs r (rec_value r ++ SIGNATURE_PREFIX ++ sign sk (serialize_record r) ++ [CLOSE])).
  { change vs with [VPredicate p; VSignature sk]. econstructor; [by apply predicate_signs_well|].
    rewrite replace_value_id. econstructor; [by apply owned_signs_well|].
    match goal with |- chain _ [] ?r' ?v => change v with (rec_value r') end. constructor. }
  eexists. split; [|split; [by eapply chain_validate|]].
  - unfold composite_sign. rewrite (chain_sign _ _ _ _ Hc). done.
  - unfold composite_strip. rewrite (chain_strip _ _ _ _ Hc). done.
Qed.

(** C11: A protected record that a node accepts names exactly one owner, carries exactly
    one signature, that signature verifies under the owner's key for the record without it, and the
    predicate accepted the record without it. *)
Theorem protected_record_authentic sk (p : DHTRecord -> DHTRecordRequestType -> result bool) r t :
  composite_validate (composite_init [VSignature sk; VPredicate p]) r t = Ok true -> owners r <> [] ->
  exists o pk sig, Forall (fun x => x = o) (owners r) /\ load_public_key_from_bytes o = Ok pk /\
    findall SIGNATURE_PREFIX (rec_value r) = [sig] /\
    verify pk (serialize_record (replace_value r (sig_strip_value r))) sig = true /\
    p (replace_value r (sig_strip_value r)) t = Ok true.
Proof.
  intros Hv Hne. unfold composite_validate in Hv.
  change (reverse (composite_init [VSignature sk; VPredicate p])) with [VSignature sk; VPredicate p] in Hv.
  destruct (validate_loop_inv _ _ _ Hv (VSignature sk) 0%nat eq_refl) as (r0 & H0 & Hsig).
  destruct (validate_loop_inv _ _ _ Hv (VPredicate p) 1%nat eq_refl) as (r1 & H1 & Hp).
  simpl in H0, H1. injection H0 as <-. injection H1 as <-. simpl in Hsig, Hp. unfold sig_validate in Hsig.
  destruct (owners r) as [|o rest] eqn:Eo; [done|].
  destruct (1 <? _)%nat eqn:Ed; [done|]. propify. apply rbind_ok in Hsig as (pk & Hl & Hsig).
  destruct (findall SIGNATURE_PREFIX (rec_value r)) as [|sig [|]] eqn:Ef; try done. injection Hsig as Hsig.
  exists o, pk, sig. split_and!; auto. apply Forall_forall. intros x Hx.
  assert (Hsub : forall y, y ∈ remove_dups (o :: rest) <-> y ∈ o :: rest) by apply elem_of_remove_dups.
  pose proof (proj2 (Hsub x) Hx) as Hx'. pose proof (proj2 (Hsub o) ltac:(set_solver)) as Ho'.
  destruct (remove_dups (o :: rest)) as [|a [|]]; [set_solver| |simpl in Ed; lia]. set_solver.
Qed.

(** What [sign] returns verifies under the matching public key (the base64 layer is
    transparent), and contains none of the delimiters of the record format. *)
Lemma sign_verify sk m :
  verify (get_public_key sk) m (sign sk m) = true /\ Forall b64_safe (sign sk m).
Proof.
  unfold verify, sign. rewrite b64decode_encode by apply sign_bytes.
  split; [apply verify_sign|apply b64encode_safe, sign_bytes].
Qed.
End SignedRecords.

Section Extend.
Context {PrivateKey PublicKey : Type} `{Lib : CryptoLib PrivateKey PublicKey}.
Implicit Types (v : Validator PrivateKey) (vs : list (Validator PrivateKey)).

Definition vclass v : bool := match v with VSignature _ => true | VPredicate _ => false end.

Lemma merge_or_append_classes vs v :
  NoDup (map vclass vs) ->
  NoDup (map vclass (merge_or_append vs v)) /\
  (forall b, b ∈ map vclass (merge_or_append vs v) <-> b ∈ map vclass vs \/ b = vclass v).
Proof.
  induction vs as [|w vs IH]; intros Hnd; simpl; [split; [apply NoDup_singleton|set_solver]|].
  apply NoDup_cons in Hnd as [Hn Hnd]. destruct (IH Hnd) as [H1 H2].
  assert (Hgo : vclass w <> vclass v ->
    NoDup (vclass w :: map vclass (merge_or_append vs v)) /\
    (forall b, b ∈ vclass w :: map vclass (merge_or_append vs v) <-> b ∈ vclass w :: map vclass vs \/ b = vclass v)).
  { intros Hne. split; [apply NoDup_cons; split; [rewrite H2; naive_solver|done]|].
    intros b. rewrite !elem_of_cons, H2. tauto. }
  destruct w, v; simpl in *; try (by apply Hgo); (split; [by apply NoDup_cons|set_solver]).
Qed.

Lemma foldl_merge_classes new : forall vs,
  NoDup (map vclass vs) -> NoDup (map vclass (foldl merge_or_append vs new)).
Proof.
  induction new as [|v new IH]; intros vs Hnd; cbn [foldl]; [done|].
  apply IH. by apply merge_or_append_classes.
Qed.

(** However often validators are added, a composite holds at most one of each class, in
    order of priority: the predicate before the signature. *)
Theorem composite_well_ordered (batches : list (list (Validator PrivateKey))) :
  let vs := foldl extend [] batches in
  sorted_vs vs /\ NoDup (map vclass vs) /\ (length vs <= 2)%nat.
Proof.
  intros vs. assert (Hgo : forall vs0, sorted_vs vs0 -> NoDup (map vclass vs0) ->
    sorted_vs (foldl extend vs0 batches) /\ NoDup (map vclass (foldl extend vs0 batches))).
  { induction batches as [|b bs IH]; intros vs0 Hs Hnd; cbn [foldl]; [done|].
    destruct (sort_by_priority_spec (foldl merge_or_append vs0 b)) as [Hp Hs'].
    apply IH; [done|]. unfold extend. rewrite Hp. by apply foldl_merge_classes. }
  destruct (Hgo []) as [H1 H2]; [constructor|constructor|]. fold vs in H1, H2.
  split_and!; auto. rewrite <- (length_map vclass).
  assert (Hsub : map vclass vs ⊆ [true; false]) by (intros [] _; set_solver).
  apply NoDup_submseteq, submseteq_length in Hsub; [|done]. simpl in Hsub. lia.
Qed.
End Extend.

(** ** A toy library: keys are small integers, a signature is the key followed by the message length *)

#[export] Instance toy_lib : CryptoLib Z Z := {|
  raw_sign sk m := [sk mod 256; Z.of_nat (List.length m) mod 256];
  get_public_key sk := sk mod 256;
  public_to_bytes pk := [pk];
  load_rsa_key raw := match raw with [pk] => Ok pk | _ => Raise ValueError end;
  load_ed25519_key _ := Raise ValueError;
  raw_verify pk m s := bool_decide (s = [pk; Z.of_nat (List.length m) mod 256]);
  dumps_record r := rec_key r ++ rec_value r;
|}.

#[export] Instance toy_laws : CryptoLaws Z Z.
Proof.
  split; simpl.
  - intros. by apply bool_decide_eq_true.
  - intros. split; [done|]. unfold is_byte. repeat constructor; apply Z.mod_pos_bound; lia.
  - done.
Qed.

Definition toy_record : DHTRecord := mkRecord (lit "k") (Some (local_public_key 7)) (lit "hello") 100.

Definition toy_predicate (r : DHTRecord) (t : DHTRecordRequestType) : result bool :=
  Ok (bool_decide (rec_value r = lit "hello")).

Lemma toy_owned : owned 7 toy_record.
Proof.
  split_and!; [by vm_compute|by vm_compute| |].
  - vm_compute. repeat constructor.
  - right. exists (local_public_key 7). split; [done|by vm_compute].
Qed.

Lemma signed_record_roundtrip_witness :
  exists s, composite_sign (composite_init [VSignature 7; VPredicate toy_predicate]) toy_record = Ok s /\
    composite_validate (composite_init [VSignature 7; VPredicate toy_predicate])
      (replace_value toy_record s) POST = Ok true.
Proof.
  destruct (signed_record_roundtrip 7 toy_predicate toy_record POST toy_owned) as (s & H1 & H2 & _); [by vm_compute|].
  exists s. auto.
Defined.

Definition toy_signed : DHTRecord :=
  replace_value toy_record (lit "hello" ++ SIGNATURE_PREFIX ++ sign 7 (serialize_record toy_record) ++ [CLOSE]).

Lemma protected_record_authentic_witness :
  exists o pk sig, Forall (fun x => x = o) (owners toy_signed) /\ load_public_key_from_bytes o = Ok pk /\
    verify pk (serialize_record (replace_value toy_signed (sig_strip_value toy_signed))) sig = true.
Proof.
  destruct (protected_record_authentic 7 toy_predicate toy_signed POST) as (o & pk & sig & H1 & H2 & _ & H3 & _);
    [by vm_compute|by vm_compute|].
  exists o, pk, sig. auto.
Defined.
