(* ===== verification/Auth.v ===== *)
(** * Authenticated calls ([mesh/utils/authorizers/auth.py])

    Every request carries an access token, the time and a fresh nonce, and is signed by the client; every response
    carries the request's nonce and is signed by the servicer.  The nonces of accepted requests are kept in a
    [TimedStorage] so that a replayed request is recognised.

    [AuthorizerBase] is the class [Authorizer]; its methods take what a call observes of the world as an [Env].  An
    authorizer's method may raise after it has changed its state, so the new state is returned next to the result.
    Protobuf's [SerializeToString] is a parameter. *)

From S2P Require Import Prelude DHTID Base64 Validation Crypto TimedStorage.

(** ** Messages ([auth.proto]) *)

Record AccessToken : Type := mkToken {
  tok_username : bytes;
  tok_public_key : bytes;
  tok_expiration_time : bytes;
  tok_signature : bytes;
}.

Record RequestAuthInfo : Type := mkReqAuth {
  client_access_token : AccessToken;
  service_public_key : bytes;
  auth_time : Z;
  req_nonce : bytes;
  req_signature : bytes;
}.

Record ResponseAuthInfo : Type := mkResAuth {
  service_access_token : AccessToken;
  res_nonce : bytes;
  res_signature : bytes;
}.

Record Request (B : Type) : Type := mkRequest { req_auth : RequestAuthInfo; req_body : B }.
Record Response (C : Type) : Type := mkResponse { res_auth : ResponseAuthInfo; res_body : C }.
Arguments mkRequest {B}.
Arguments req_auth {B}.
Arguments req_body {B}.
Arguments mkResponse {C}.
Arguments res_auth {C}.
Arguments res_body {C}.

Definition set_req_signature {B} (r : Request B) (s : bytes) : Request B :=
  let a := req_auth r in
  mkRequest (mkReqAuth (client_access_token a) (service_public_key a) (auth_time a) (req_nonce a) s) (req_body r).

Definition set_res_signature {C} (r : Response C) (s : bytes) : Response C :=
  let a := res_auth r in mkResponse (mkResAuth (service_access_token a) (res_nonce a) s) (res_body r).

(** What the chain answers to a proof-of-stake query: no result, a boolean, or something else. *)
Inductive ChainReply : Type := NoResult | ResultBool (b : bool) | ResultOther.

(** One call: the clock, the random nonce, the text of the token's expiration date, and the chain. *)
Record Env : Type := mkEnv {
  env_now : Z;
  env_nonce : bytes;
  env_expiration : bytes;
  env_chain : bytes -> result ChainReply;
}.

(** ** [AuthorizerBase] *)

Class Authorizer (A B C : Type) := {
  sign_request : A -> Env -> option bytes -> Request B -> result (Request B);
  validate_request : A -> Env -> Request B -> A * result (Request B * bool);
  sign_response : A -> Env -> Response C -> Request B -> result (Response C);
  validate_response : A -> Env -> Response C -> Request B -> A * result bool;
}.

(** ** Tokens *)

(** [repr] of a [bytes] object *)
Definition hex_digit (d : Z) : Z := if d <? 10 then 48 + d else 87 + d.
Definition repr_byte (quote b : Z) : bytes :=
  if (b =? 92) || (b =? quote) then [92; b]
  else if b =? 9 then lit "\t" else if b =? 10 then lit "\n" else if b =? 13 then lit "\r"
  else if (32 <=? b) && (b <? 127) then [b]
  else lit "\x" ++ [hex_digit (b / 16); hex_digit (b mod 16)].
Definition repr_bytes (b : bytes) : bytes :=
  let quote := if bool_decide (39 ∈ b) && negb (bool_decide (34 ∈ b)) then 34 else 39 in
  [98; quote] ++ mjoin (map (repr_byte quote) b) ++ [quote].

(** [_token_to_bytes] *)
Definition token_to_bytes (t : AccessToken) : bytes :=
  tok_username t ++ lit " " ++ repr_bytes (tok_public_key t) ++ lit " " ++ tok_expiration_time t.

(** [_MAX_CLIENT_SERVICER_TIME_DIFF], in seconds *)
Definition MAX_CLIENT_SERVICER_TIME_DIFF : Z := 60.

Section SignatureAuthorizer.
Context {PrivateKey PublicKey B C : Type} `{Lib : CryptoLib PrivateKey PublicKey}.
Context (ser_request : Request B -> bytes) (ser_response : Response C -> bytes).

Record SignatureAuthorizer : Type := mkSigAuth {
  local_private_key : PrivateKey;
  recent_nonces : @TimedStorage bytes unit;
}.
Implicit Types (a : SignatureAuthorizer).

(** [__init__] *)
Definition sig_auth_init (sk : PrivateKey) : SignatureAuthorizer := mkSigAuth sk (init false None).

Definition local_key_bytes a : bytes := public_to_bytes (get_public_key (local_private_key a)).

Definition with_nonces a ns : SignatureAuthorizer := mkSigAuth (local_private_key a) ns.

(** [get_token] *)
Definition get_token a (env : Env) : AccessToken :=
  let token := mkToken [] (local_key_bytes a) (env_expiration env) [] in
  mkToken [] (local_key_bytes a) (env_expiration env) (sign (local_private_key a) (token_to_bytes token)).

(** [sign_request] *)
Definition sig_sign_request a (env : Env) (service_key : option bytes) (r : Request B) : result (Request B) :=
  let auth := req_auth r in
  let r1 := mkRequest (mkReqAuth (get_token a env)
              (match service_key with Some k => k | None => service_public_key auth end)
              (env_now env) (env_nonce env) (req_signature auth)) (req_body r) in
  let* _ := py_assert (bool_decide (req_signature auth = [])) in
  Ok (set_req_signature r1 (sign (local_private_key a) (ser_request r1))).

(** [do_validate_request]: the public key, the current time, the nonce and whether the request is valid; the
    request's signature is cleared. *)
Definition do_validate_request a (env : Env) (r : Request B)
    : SignatureAuthorizer * result (Request B * (PublicKey * Z * bytes * bool)) :=
  let auth := req_auth r in
  let nonce := req_nonce auth in
  match load_public_key_from_bytes (tok_public_key (client_access_token auth)) with
  | Raise e => (a, Raise e)
  | Ok pk =>
      let r1 := set_req_signature r [] in
      if negb (verify pk (ser_request r1) (req_signature auth)) then (a, Ok (r1, (pk, 0, nonce, false)))
      else if bool_decide (service_public_key auth <> []) && bool_decide (service_public_key auth <> local_key_bytes a)
      then (a, Ok (r1, (pk, 0, nonce, false)))
      else
        let current_time := env_now env in
        let prev_frozen := frozen (recent_nonces a) in
        let ns := set_frozen (recent_nonces a) true in
        if MAX_CLIENT_SERVICER_TIME_DIFF <? Z.abs (auth_time auth - current_time)
        then (with_nonces a (set_frozen ns prev_frozen), Ok (r1, (pk, current_time, nonce, false)))
        else
          match contains current_time ns nonce with
          | Raise e => (with_nonces a (set_frozen ns prev_frozen), Raise e)
          | Ok (ns1, true) => (with_nonces a (set_frozen ns1 prev_frozen), Ok (r1, (pk, current_time, nonce, false)))
          | Ok (ns1, false) =>
              let ns2 := set_frozen ns1 prev_frozen in
              match contains current_time ns2 nonce with
              | Raise e => (with_nonces a ns2, Raise e)
              | Ok (ns3, known) => (with_nonces a ns3, Ok (r1, (pk, current_time, nonce, negb known)))
              end
          end
  end.

(** [self._recent_nonces.store(nonce, None, current_time + 3 * max difference)] *)
Definition remember_nonce a (env : Env) (nonce : bytes) (current_time : Z) : result SignatureAuthorizer :=
  let* (ns, _) := store (env_now env) (recent_nonces a) nonce tt (current_time + MAX_CLIENT_SERVICER_TIME_DIFF * 3) in
  Ok (with_nonces a ns).

(** [validate_request] *)
Definition sig_validate_request a (env : Env) (r : Request B) : SignatureAuthorizer * result (Request B * bool) :=
  match do_validate_request a env r with
  | (a1, Raise e) => (a1, Raise e)
  | (a1, Ok (r1, (_, current_time, nonce, valid))) =>
      if valid then
        match remember_nonce a1 env nonce current_time with
        | Ok a2 => (a2, Ok (r1, true))
        | Raise e => (a1, Raise e)
        end
      else (a1, Ok (r1, false))
  end.

(** [sign_response] *)
Definition sig_sign_response a (env : Env) (resp : Response C) (r : Request B) : result (Response C) :=
  let auth := res_auth resp in
  let resp1 := mkResponse (mkResAuth (get_token a env) (req_nonce (req_auth r)) (res_signature auth)) (res_body resp) in
  let* _ := py_assert (bool_decide (res_signature auth = [])) in
  Ok (set_res_signature resp1 (sign (local_private_key a) (ser_response resp1))).

(** [do_validate_response]; it also leaves the signature of the response object empty, which nothing reads afterwards: the response is returned as
    it was signed, and only its body is compared. *)
Definition do_validate_response (resp : Response C) (r : Request B) : result (PublicKey * bool) :=
  let auth := res_auth resp in
  let* pk := load_public_key_from_bytes (tok_public_key (service_access_token auth)) in
  if negb (verify pk (ser_response (set_res_signature resp [])) (res_signature auth)) then Ok (pk, false)
  else if bool_decide (res_nonce auth <> req_nonce (req_auth r)) then Ok (pk, false)
  else Ok (pk, true).

Definition sig_validate_response a (env : Env) (resp : Response C) (r : Request B) : SignatureAuthorizer * result bool :=
  (a, rmap snd (do_validate_response resp r)).
End SignatureAuthorizer.
Arguments SignatureAuthorizer : clear implicits.

(** ** [AuthRPCWrapper] *)

Inductive AuthRole : Type := CLIENT | SERVICER.

Section Wrapper.
Context {A B C H : Type} `{Az : Authorizer A B C}.

(** [wrapped_rpc] around [method], a handler or a remote stub with state [H]: the environments are those of the two
    calls of the authorizer; [None] is the answer to a message that is not valid. *)
Definition wrapped_rpc (role : AuthRole) (authorizer : option A) (service_key : option bytes)
    (method : H -> Request B -> H * result (Response C)) (env1 env2 : Env) (h : H) (r : Request B)
    : H * option A * result (option (Response C)) :=
  match authorizer with
  | None => let '(h1, res) := method h r in (h1, None, rmap Some res)
  | Some a =>
      let '(a1, checked) :=
        match role with
        | CLIENT => (a, rmap (fun r1 => (r1, true)) (sign_request a env1 service_key r))
        | SERVICER => validate_request a env1 r
        end in
      match checked with
      | Raise e => (h, Some a1, Raise e)
      | Ok (_, false) => (h, Some a1, Ok None)
      | Ok (r1, true) =>
          let '(h1, res) := method h r1 in
          match res with
          | Raise e => (h1, Some a1, Raise e)
          | Ok resp =>
              match role with
              | SERVICER => (h1, Some a1, rmap Some (sign_response a1 env2 resp r1))
              | CLIENT => let '(a2, ok) := validate_response a1 env2 resp r1 in
                          (h1, Some a2, rmap (fun b : bool => if b then Some resp else None) ok)
              end
          end
      end
  end.
End Wrapper.

(** ** Replay protection *)

(** A storage of nonces that never drops one before its time. *)
Definition nonces_ok (ns : @TimedStorage bytes unit) : Prop := wf ns /\ frozen ns = false /\ maxsize ns = None.

(** [n] is remembered until [e]. *)
Definition remembered (ns : @TimedStorage bytes unit) (n : bytes) (e : Z) : Prop := holds ns n tt e.

(** What an authorizer that keeps nonces promises to whoever serves requests with it. *)
Class NonceKeeper (A B C : Type) `{Az : Authorizer A B C} := nonces : A -> @TimedStorage bytes unit.

Class NonceLaws (A B C : Type) `{NK : NonceKeeper A B C} : Prop := {
  keeps_nonces a env r a' res :
    nonces_ok (nonces a) -> validate_request a env r = (a', res) ->
    nonces_ok (nonces a') /\
    (forall n e, remembered (nonces a) n e -> env_now env <= e -> remembered (nonces a') n e);
  accepts_new a env r a' r' :
    nonces_ok (nonces a) -> validate_request a env r = (a', Ok (r', true)) ->
    Z.abs (auth_time (req_auth r) - env_now env) <= MAX_CLIENT_SERVICER_TIME_DIFF /\
    (forall e, remembered (nonces a) (req_nonce (req_auth r)) e -> e < env_now env) /\
    remembered (nonces a') (req_nonce (req_auth r)) (env_now env + MAX_CLIENT_SERVICER_TIME_DIFF * 3);
}.

Section Serve.
Context {A B C : Type} `{NL : NonceLaws A B C}.

Definition accepted (res : result (Request B * bool)) : bool := match res with Ok (_, b) => b | Raise _ => false end.

(** A sequence of requests; the answers say which were accepted. *)
Fixpoint serve (a : A) (l : list (Env * Request B)) : A * list bool :=
  match l with
  | [] => (a, [])
  | (env, r) :: l' =>
      let '(a1, res) := validate_request a env r in
      let '(a2, bs) := serve a1 l' in (a2, accepted res :: bs)
  end.

Definition times (l : list (Env * Request B)) : list Z := map (fun x => env_now x.1) l.

Lemma accepted_true res : accepted res = true -> exists r' : Request B, res = Ok (r', true).
Proof using Type. destruct res as [[r' []]|]; naive_solver. Qed.

(** While a nonce is remembered, no request with it is accepted. *)
Lemma remembered_refused l : forall a n e j env r,
  nonces_ok (nonces a) -> remembered (nonces a) n e -> Sorted Z.le (times l) ->
  l !! j = Some (env, r) -> (serve a l).2 !! j = Some true -> req_nonce (req_auth r) = n -> e < env_now env.
Proof using NL.
  induction l as [|[env0 r0] l IH]; intros a n e j env r Ha Hn Hs Hl Hb Hr; [done|].
  cbn [serve] in Hb. destruct (validate_request a env0 r0) as [a1 res] eqn:E.
  destruct (serve a1 l) as [a2 bs] eqn:E2. destruct (keeps_nonces _ _ _ _ _ Ha E) as [Ha1 Hk].
  destruct j as [|j]; cbn in Hl, Hb; simplify_eq.
  - apply accepted_true in Hb as [r' ->].
    destruct (accepts_new _ _ _ _ _ Ha E) as (_ & Hf & _). auto.
  - apply Sorted_StronglySorted in Hs; [|intros ???; lia]. cbn in Hs. apply StronglySorted_inv in Hs as [Hs Hle].
    assert (Hle0 : env_now env0 <= env_now env).
    { rewrite Forall_forall in Hle. apply Hle, list_elem_of_In, in_map_iff. exists (env, r).
      split; [done|]. by apply list_elem_of_In, list_elem_of_lookup_2 with j. }
    destruct (decide (env_now env0 <= e)); [|lia].
    apply (IH a1 (req_nonce (req_auth r)) e j env r); auto.
    + by apply StronglySorted_Sorted.
    + by rewrite E2.
Qed.

(** The state in which a request was accepted. *)
Lemma accepted_at l : forall a j env r,
  nonces_ok (nonces a) -> l !! j = Some (env, r) -> (serve a l).2 !! j = Some true ->
  exists a1 a2 r', nonces_ok (nonces a1) /\ validate_request a1 env r = (a2, Ok (r', true)).
Proof using NL.
  induction l as [|[env0 r0] l IH]; intros a j env r Ha Hl Hb; [done|]. cbn [serve] in Hb.
  destruct (validate_request a env0 r0) as [a1 res] eqn:E. destruct (serve a1 l) as [a2 bs] eqn:E2.
  destruct j as [|j]; cbn in Hl, Hb; simplify_eq.
  - apply accepted_true in Hb as [r' ->]. eauto.
  - apply (IH a1 j); [by destruct (keeps_nonces _ _ _ _ _ Ha E)|done|by rewrite E2].
Qed.

Lemma no_replay_at l : forall a i j env1 r1 env2 r2,
  nonces_ok (nonces a) -> Sorted Z.le (times l) -> (i < j)%nat ->
  l !! i = Some (env1, r1) -> l !! j = Some (env2, r2) ->
  (serve a l).2 !! i = Some true -> (serve a l).2 !! j = Some true ->
  req_nonce (req_auth r1) = req_nonce (req_auth r2) ->
  auth_time (req_auth r1) + MAX_CLIENT_SERVICER_TIME_DIFF < auth_time (req_auth r2).
Proof using NL.
  unfold MAX_CLIENT_SERVICER_TIME_DIFF.
  induction l as [|[env0 r0] l IH]; intros a i j env1 r1 env2 r2 Ha Hs Hij H1 H2 B1 B2 Hn; [done|].
  cbn [serve] in B1, B2. destruct (validate_request a env0 r0) as [a1 res] eqn:E.
  destruct (serve a1 l) as [a2 bs] eqn:E2. destruct (keeps_nonces _ _ _ _ _ Ha E) as [Ha1 _].
  destruct j as [|j]; [lia|]. cbn in H2, B2. assert (Hs' : Sorted Z.le (times l)) by (by inversion Hs).
  destruct i as [|i]; cbn in H1, B1; [|apply (IH a1 i j env1 r1 env2 r2); try rewrite E2; auto; lia].
  simplify_eq. apply accepted_true in B1 as [r' ->].
  destruct (accepts_new _ _ _ _ _ Ha E) as (Ht1 & _ & Hrem).
  assert (Hlt : env_now env1 + MAX_CLIENT_SERVICER_TIME_DIFF * 3 < env_now env2).
  { apply (remembered_refused l a1 (req_nonce (req_auth r1)) _ j env2 r2); auto. by rewrite E2. }
  destruct (accepted_at l a1 j env2 r2) as (a3 & a4 & r'' & Hok & Hv); [done..|by rewrite E2|]. destruct (accepts_new _ _ _ _ _ Hok Hv) as (Ht2 & _).
  unfold MAX_CLIENT_SERVICER_TIME_DIFF in *. lia.
Qed.
End Serve.

(** ** [SignatureAuthorizer] keeps nonces *)

Lemma contains_frozen now (ns : @TimedStorage bytes unit) n :
  contains now (set_frozen ns true) n = Ok (set_frozen ns true, dmem (data ns) n).
Proof. unfold contains, _remove_outdated. destruct ns as [fz sz d h k2h]. cbn. by destruct h as [|[e k] h]. Qed.

Lemma set_frozen_back (ns : @TimedStorage bytes unit) : frozen ns = false -> set_frozen (set_frozen ns true) false = ns.
Proof. by destruct ns; simpl; intros ->. Qed.

Lemma contains_nonce now ns n : nonces_ok ns ->
  exists ns', contains now ns n = Ok (ns', dmem (data ns') n) /\ nonces_ok ns' /\
    (forall m e, remembered ns m e -> now <= e -> remembered ns' m e).
Proof.
  intros (Hw & Hf & Hm). unfold contains. destruct (remove_outdated_spec now ns Hw) as (ns' & -> & Hc).
  exists ns'. split; [done|]. split; [|intros; by eapply holds_cleaned].
  destruct Hc. split_and!; congruence.
Qed.

Section SignatureLaws.
Context {PrivateKey PublicKey B C : Type} `{Lib : CryptoLib PrivateKey PublicKey}.
Context (ser_request : Request B -> bytes) (ser_response : Response C -> bytes).
Implicit Types (a : SignatureAuthorizer PrivateKey).

Definition sig_authorizer : Authorizer (SignatureAuthorizer PrivateKey) B C := {|
  sign_request := sig_sign_request ser_request;
  validate_request := sig_validate_request ser_request;
  sign_response := sig_sign_response ser_response;
  validate_response := sig_validate_response ser_response;
|}.

(** What a valid request has shown. *)
Record validated a env (r : Request B) pk : Prop := {
  v_key : load_public_key_from_bytes (tok_public_key (client_access_token (req_auth r))) = Ok pk;
  v_signed : verify pk (ser_request (set_req_signature r [])) (req_signature (req_auth r)) = true;
  v_addressed : service_public_key (req_auth r) = [] \/ service_public_key (req_auth r) = local_key_bytes a;
  v_time : Z.abs (auth_time (req_auth r) - env_now env) <= MAX_CLIENT_SERVICER_TIME_DIFF;
  v_new : dget (data (recent_nonces a)) (req_nonce (req_auth r)) = None;
}.

Lemma do_validate_keeps a env r a1 res :
  nonces_ok (recent_nonces a) -> do_validate_request ser_request a env r = (a1, res) ->
  nonces_ok (recent_nonces a1) /\ local_private_key a1 = local_private_key a /\
  (forall n e, remembered (recent_nonces a) n e -> env_now env <= e -> remembered (recent_nonces a1) n e) /\
  (forall r1 pk t n, res = Ok (r1, (pk, t, n, true)) ->
     r1 = set_req_signature r [] /\ t = env_now env /\ n = req_nonce (req_auth r) /\ validated a env r pk /\
     dget (data (recent_nonces a1)) n = None).
Proof using Type.
  intros Hok. pose proof Hok as (Hw & Hf & Hm). unfold do_validate_request.
  destruct (load_public_key_from_bytes _) as [pk|] eqn:Ek; [|intros; by simplify_eq].
  destruct (verify pk _ _) eqn:Ev; cbn [negb]; [|intros; by simplify_eq].
  destruct (_ && _) eqn:Es; [intros; by simplify_eq|]. rewrite Hf, contains_frozen, set_frozen_back by done.
  destruct (_ <? _) eqn:Et; [intros; simplify_eq; by destruct a|]. propify.
  destruct (dmem (data (recent_nonces a)) _) eqn:Ed; [intros; simplify_eq; by destruct a|].
  destruct (contains_nonce (env_now env) (recent_nonces a) (req_nonce (req_auth r)) Hok) as (ns' & -> & Hok' & Hkeep).
  intros. simplify_eq. cbn [with_nonces recent_nonces local_private_key]. split_and!; [done|done|done|].
  intros r1 pk' t n [= <- <- <- <- Hnew]. apply negb_true_iff, dmem_false in Hnew. apply dmem_false in Ed.
  split_and!; try done. split; auto. destruct Es as [Es|Es]; apply bool_decide_eq_false_1, dec_stable in Es; auto.
Qed.

Lemma remember_spec a env n :
  nonces_ok (recent_nonces a) -> dget (data (recent_nonces a)) n = None ->
  exists a', remember_nonce a env n (env_now env) = Ok a' /\ local_private_key a' = local_private_key a /\
    nonces_ok (recent_nonces a') /\
    remembered (recent_nonces a') n (env_now env + MAX_CLIENT_SERVICER_TIME_DIFF * 3) /\
    (forall m e, remembered (recent_nonces a) m e -> env_now env <= e -> remembered (recent_nonces a') m e).
Proof using Type.
  intros (Hw & Hf & Hm) Hn. unfold remember_nonce. set (e0 := env_now env + _).
  assert (He : env_now env <= e0) by (unfold e0, MAX_CLIENT_SERVICER_TIME_DIFF; lia).
  destruct (store_spec (env_now env) (recent_nonces a) n tt e0 Hw) as (ns & Hst & Hw' & Hf' & Hm').
  unfold accepts in Hst. rewrite Hn, (proj2 (Z.ltb_ge _ _)) in Hst by done. cbn [andb negb] in Hst. rewrite Hst. cbn [rbind].
  eexists. split; [done|]. split; [done|]. cbn [with_nonces recent_nonces]. split; [|split].
  - split_and!; congruence.
  - exact (store_true_holds _ _ _ _ _ _ Hw Hm He Hst).
  - intros m e Hr Hle. destruct (decide (m = n)) as [->|Hne]; [destruct Hr as (_ & _ & Hd & _); congruence|].
    destruct (holds_store_other (env_now env) _ m tt e n tt e0 Hr Hne Hle) as (s' & b & Hs' & Hh). rewrite Hst in Hs'. by simplify_eq.
Qed.

#[local] Existing Instance sig_authorizer.
#[local] Instance sig_nonces : NonceKeeper (SignatureAuthorizer PrivateKey) B C := recent_nonces.

Lemma sig_nonce_laws : NonceLaws (SignatureAuthorizer PrivateKey) B C.
Proof using Type.
  split; unfold nonces, sig_nonces; cbn [validate_request sig_authorizer]; unfold sig_validate_request;
    intros a env r a' res Hok; destruct (do_validate_request ser_request a env r) as [a1 res1] eqn:E;
    destruct (do_validate_keeps _ _ _ _ _ Hok E) as (Hok1 & _ & Hkeep & Hval).
  - destruct res1 as [[r1 [[[pk t] n] []]]|]; intros Hval'; [|by simplify_eq..].
    destruct (Hval _ _ _ _ eq_refl) as (-> & -> & -> & Hv & Hn).
    destruct (remember_spec a1 env _ Hok1 Hn) as (a2 & Hr & _ & Hok2 & _ & Hkeep2). rewrite Hr in Hval'.
    simplify_eq. eauto.
  - destruct res1 as [[r1 [[[pk t] n] []]]|]; intros Hval'; [|by simplify_eq..].
    destruct (Hval _ _ _ _ eq_refl) as (-> & -> & -> & Hv & Hn).
    destruct (remember_spec a1 env _ Hok1 Hn) as (a2 & Hr & _ & Hok2 & Hrem & _). rewrite Hr in Hval'. simplify_eq.
    split_and!; [apply Hv| |done]. intros e (_ & _ & Hd & _). rewrite (v_new _ _ _ _ Hv) in Hd. done.
Qed.
End SignatureLaws.

(** ** A call over the network *)

Section Call.
Context {PrivateKey PublicKey B C H : Type} `{Lib : CryptoLib PrivateKey PublicKey} {Laws : CryptoLaws PrivateKey PublicKey}.
Context (ser_request : Request B -> bytes) (ser_response : Response C -> bytes).
Context (handler : H -> Request B -> H * result (Response C)).
Implicit Types (a : SignatureAuthorizer PrivateKey).
#[local] Existing Instance sig_authorizer.
Let Az : Authorizer (SignatureAuthorizer PrivateKey) B C := sig_authorizer ser_request ser_response.

(** The remote stub: the servicer's wrapped handler; the answer [None] cannot be serialized and fails the call. *)
Definition remote (env1 env2 : Env) (st : option (SignatureAuthorizer PrivateKey) * H) (r : Request B)
    : option (SignatureAuthorizer PrivateKey) * H * result (Response C) :=
  let '(h1, a1, res) := wrapped_rpc (Az := Az) SERVICER st.1 None handler env1 env2 st.2 r in
  ((a1, h1), match res with Ok (Some resp) => Ok resp | Ok None => Raise AttributeError | Raise e => Raise e end).

(** The request as the client sends it and as the handler receives it. *)
Definition stamped a env (r : Request B) : Request B :=
  mkRequest (mkReqAuth (get_token a env) [] (env_now env) (env_nonce env) []) (req_body r).

Lemma sign_request_fresh a env r :
  service_public_key (req_auth r) = [] -> req_signature (req_auth r) = [] ->
  sig_sign_request ser_request a env None r =
    Ok (set_req_signature (stamped a env r) (sign (local_private_key a) (ser_request (stamped a env r)))).
Proof using Type. intros Hs Hg. unfold sig_sign_request. by rewrite Hs, Hg. Qed.

Lemma signed_request_valid ac env a_s env' r :
  nonces_ok (recent_nonces a_s) -> dget (data (recent_nonces a_s)) (env_nonce env) = None ->
  Z.abs (env_now env - env_now env') <= MAX_CLIENT_SERVICER_TIME_DIFF ->
  exists a', sig_validate_request ser_request a_s env'
      (set_req_signature (stamped ac env r) (sign (local_private_key ac) (ser_request (stamped ac env r)))) =
    (a', Ok (stamped ac env r, true)) /\ local_private_key a' = local_private_key a_s.
Proof using Laws.
  intros Hok Hn Ht. pose proof Hok as (_ & Hf & _). unfold sig_validate_request, do_validate_request.
  cbn [set_req_signature stamped req_auth req_body client_access_token get_token tok_public_key service_public_key
       auth_time req_nonce req_signature].
  unfold local_key_bytes at 1. rewrite load_public. fold (stamped ac env r).
  change (mkRequest _ _) with (stamped ac env r). rewrite (proj1 (sign_verify _ _)). cbn [negb].
  rewrite (bool_decide_eq_false_2 ([] <> [])) by naive_solver. cbn [andb].
  rewrite (proj2 (Z.ltb_ge _ _)) by done. rewrite Hf, contains_frozen, set_frozen_back by done.
  rewrite (proj2 (dmem_false _ _) Hn).
  destruct (contains_nonce (env_now env') (recent_nonces a_s) (env_nonce env) Hok) as (ns & Hc & Hok' & _).
  rewrite Hc. assert (Hn' : dget (data ns) (env_nonce env) = None).
  { unfold contains in Hc. mon_inv. simplify_eq.
    destruct (remove_outdated_spec (env_now env') (recent_nonces a_s) (proj1 Hok)) as (s' & Hr & Hcl).
    rewrite Hr in E. simplify_eq. destruct (dget (data ns) (env_nonce env)) as [x|] eqn:Ex; [|done].
    destruct (cl_kept _ _ _ Hcl _ _ Ex). congruence. }
  rewrite (proj2 (dmem_false _ _) Hn'). cbn [negb].
  destruct (remember_spec (with_nonces a_s ns) env' (env_nonce env) Hok' Hn') as (a' & -> & Hk & _). eauto.
Qed.

Lemma signed_response_valid a env (resp : Response C) (r : Request B) :
  res_signature (res_auth resp) = [] ->
  exists resp', sig_sign_response ser_response a env resp r = Ok resp' /\ res_body resp' = res_body resp /\
    forall r' : Request B, req_nonce (req_auth r') = req_nonce (req_auth r) ->
      rmap snd (do_validate_response (PublicKey := PublicKey) ser_response resp' r') = Ok true.
Proof using Laws.
  intros Hs. unfold sig_sign_response. rewrite Hs. cbn [py_assert]. rewrite bool_decide_true by done. cbn [rbind].
  eexists. split; [done|]. split; [done|]. intros r' Hn. unfold do_validate_response.
  cbn [set_res_signature res_auth res_body service_access_token get_token tok_public_key res_nonce res_signature].
  unfold local_key_bytes at 1. rewrite load_public. cbn [rbind]. rewrite (proj1 (sign_verify _ _)). cbn [negb].
  by rewrite bool_decide_false by naive_solver.
Qed.
End Call.

(** * Theorems *)

(** C9: A request is accepted at most once.  With any authorizer that keeps nonces, on a clock that does not go back,
    two accepted requests with the same nonce carry times more than a minute apart, so no request is accepted
    again, however late it is replayed. *)
Theorem request_never_replayed {A B C : Type} `{NL : NonceLaws A B C} (a : A) (l : list (Env * Request B))
    (i j : nat) (env1 env2 : Env) (r1 r2 : Request B) :
  nonces_ok (nonces a) -> Sorted Z.le (times l) -> (i < j)%nat ->
  l !! i = Some (env1, r1) -> l !! j = Some (env2, r2) ->
  (serve a l).2 !! i = Some true -> (serve a l).2 !! j = Some true ->
  req_nonce (req_auth r1) = req_nonce (req_auth r2) ->
  auth_time (req_auth r1) + MAX_CLIENT_SERVICER_TIME_DIFF < auth_time (req_auth r2) /\ r1 <> r2.
Proof.
  intros Ha Hs Hij H1 H2 B1 B2 Hn.
  pose proof (no_replay_at l a i j env1 r1 env2 r2 Ha Hs Hij H1 H2 B1 B2 Hn) as Hlt.
  split; [done|]. intros ->. unfold MAX_CLIENT_SERVICER_TIME_DIFF in Hlt. lia.
Qed.

(** C10: Two honest parties complete a call: when their clocks are at most a minute apart and the nonce is new to the
    servicer, the request passes, the handler runs once on the request's body, and the client gets the handler's answer
    back, validated. *)
Theorem authenticated_call {PrivateKey PublicKey B C H : Type} `{Lib : CryptoLib PrivateKey PublicKey}
    {Laws : CryptoLaws PrivateKey PublicKey} (ser_request : Request B -> bytes) (ser_response : Response C -> bytes)
    (handler : H -> Request B -> H * result (Response C)) (ac a_s : SignatureAuthorizer PrivateKey)
    (env env' env1 env2 : Env) (h h' : H) (r : Request B) (resp : Response C) :
  service_public_key (req_auth r) = [] -> req_signature (req_auth r) = [] -> res_signature (res_auth resp) = [] ->
  nonces_ok (recent_nonces a_s) -> dget (data (recent_nonces a_s)) (env_nonce env) = None ->
  Z.abs (env_now env - env_now env1) <= MAX_CLIENT_SERVICER_TIME_DIFF ->
  handler h (stamped ac env r) = (h', Ok resp) ->
  exists a_s' resp',
    wrapped_rpc (Az := sig_authorizer ser_request ser_response) CLIENT (Some ac) None
      (remote ser_request ser_response handler env1 env2) env env' (Some a_s, h) r =
      (Some a_s', h', Some ac, Ok (Some resp')) /\ res_body resp' = res_body resp.
Proof.
  intros Hs Hg Hrs Hok Hn Ht Hh. unfold wrapped_rpc at 1. cbn [sign_request validate_response sig_authorizer].
  rewrite sign_request_fresh by done. cbn [rmap].
  destruct (signed_request_valid ser_request ac env a_s env1 r Hok Hn Ht) as (a1 & Hv & Hk).
  destruct (signed_response_valid ser_response a1 env2 resp (stamped ac env r) Hrs) as (resp' & Hsr & Hb & Hval).
  unfold remote, wrapped_rpc. cbn [fst snd validate_request sign_response sig_authorizer]. rewrite Hv, Hh.
  rewrite Hsr. cbn [rmap]. unfold sig_validate_response. rewrite Hval by done. cbn [rmap]. eauto.
Qed.

(** A client hands back an answer only when it carries the nonce of the request just sent and is signed with
    the key it names; a servicer runs its handler only on a request that is signed with the key it names, is
    addressed to it, is recent and is new. *)
Theorem wrapper_authentic {PrivateKey PublicKey B C H : Type} `{Lib : CryptoLib PrivateKey PublicKey}
    (ser_request : Request B -> bytes) (ser_response : Response C -> bytes)
    (method : H -> Request B -> H * result (Response C)) (a a' : SignatureAuthorizer PrivateKey) (key : option bytes)
    (env env' : Env) (h h' : H) (r : Request B) (resp : Response C) (role : AuthRole) :
  nonces_ok (recent_nonces a) ->
  wrapped_rpc (Az := sig_authorizer ser_request ser_response) role (Some a) key method env env' h r =
    (h', Some a', Ok (Some resp)) ->
  match role with
  | CLIENT => exists r1 pk, method h r1 = (h', Ok resp) /\ req_nonce (req_auth r1) = env_nonce env /\
      res_nonce (res_auth resp) = env_nonce env /\
      load_public_key_from_bytes (tok_public_key (service_access_token (res_auth resp))) = Ok pk /\
      verify pk (ser_response (set_res_signature resp [])) (res_signature (res_auth resp)) = true
  | SERVICER => exists pk resp0, method h (set_req_signature r []) = (h', Ok resp0) /\
      validated ser_request a env r pk
  end.
Proof.
  intros Hok. unfold wrapped_rpc. cbn [sign_request validate_request sign_response validate_response sig_authorizer].
  destruct role.
  - unfold sig_sign_request. destruct (py_assert _) as [[]|]; cbn [rbind rmap]; [|done].
    set (r1 := set_req_signature _ _). destruct (method h r1) as [h1 [resp1|]] eqn:Em; [|done].
    unfold sig_validate_response, do_validate_response.
    destruct (load_public_key_from_bytes _) as [pk|] eqn:Ek; cbn [rbind rmap]; [|done].
    destruct (verify pk _ _) eqn:Ev; cbn [negb rmap snd]; [|done].
    case_bool_decide as Hn; cbn [rmap snd]; [done|]. intros. simplify_eq. eauto 10.
  - destruct (sig_validate_request ser_request a env r) as [a1 res] eqn:E. unfold sig_validate_request in E.
    destruct (do_validate_request ser_request a env r) as [a2 [[r1 [[[pk t] n] []]]|]] eqn:Ed; [|by simplify_eq..].
    destruct (do_validate_keeps ser_request a env r _ _ Hok Ed) as (Hok2 & _ & _ & Hv).
    destruct (Hv _ _ _ _ eq_refl) as (-> & -> & -> & Hval & Hn).
    destruct (remember_spec a2 env _ Hok2 Hn) as (a3 & Hr & _). rewrite Hr in E. simplify_eq.
    destruct (method h _) as [h1 [resp1|]] eqn:Em; [|done].
    destruct (sig_sign_response _ _ _ _ _); cbn [rmap]; [|done]. intros. simplify_eq. eauto.
Qed.

(** ** Witnesses *)

(** Serialized messages of a toy protocol whose bodies are byte strings. *)
Definition toy_ser_request (r : Request bytes) : bytes := req_body r ++ req_nonce (req_auth r).
Definition toy_ser_response (r : Response bytes) : bytes := res_body r ++ res_nonce (res_auth r).

Definition toy_env (now : Z) (nonce : bytes) : Env := mkEnv now nonce (lit "later") (fun _ => Ok NoResult).
Definition no_token : AccessToken := mkToken [] [] [] [].
Definition toy_request : Request bytes := mkRequest (mkReqAuth no_token [] 0 [] []) (lit "ping").
Definition toy_echo (h : nat) (r : Request bytes) : nat * result (Response bytes) :=
  (S h, Ok (mkResponse (mkResAuth no_token [] []) (req_body r))).

(** A request sent at time [now] by the key [7]. *)
Definition toy_sent (now : Z) (nonce : bytes) : Request bytes :=
  match sig_sign_request toy_ser_request (sig_auth_init 7) (toy_env now nonce) None toy_request with
  | Ok r => r
  | Raise _ => toy_request
  end.

Lemma toy_nonces_ok (sk : Z) : nonces_ok (recent_nonces (sig_auth_init sk)).
Proof. split; [apply wf_init | done]. Qed.

Lemma request_never_replayed_witness :
  let l := [(toy_env 100 [], toy_sent 90 [1; 2]); (toy_env 110 [], toy_sent 90 [1; 2]);
            (toy_env 290 [], toy_sent 290 [3]); (toy_env 300 [], toy_sent 300 [1; 2])] in
  (serve (Az := sig_authorizer toy_ser_request toy_ser_response) (sig_auth_init 9) l).2 = [true; false; true; true] /\
  90 + MAX_CLIENT_SERVICER_TIME_DIFF < 300 /\ toy_sent 90 [1; 2] <> toy_sent 300 [1; 2].
Proof.
  intros l. split; [vm_compute; reflexivity|].
  refine (request_never_replayed (Az := sig_authorizer toy_ser_request toy_ser_response)
    (NK := recent_nonces) (NL := sig_nonce_laws toy_ser_request toy_ser_response)
    (sig_auth_init 9) l 0 3 (toy_env 100 []) (toy_env 300 []) (toy_sent 90 [1; 2]) (toy_sent 300 [1; 2]) _ _ _ _ _ _ _ _).
  - apply toy_nonces_ok.
  - repeat constructor; simpl; lia.
  - lia.
  - reflexivity.
  - reflexivity.
  - vm_compute. reflexivity.
  - vm_compute. reflexivity.
  - reflexivity.
Defined.

Lemma authenticated_call_witness :
  exists a_s' resp',
    wrapped_rpc (Az := sig_authorizer toy_ser_request toy_ser_response) CLIENT (Some (sig_auth_init 7)) None
      (remote toy_ser_request toy_ser_response toy_echo (toy_env 130 []) (toy_env 130 [])) (toy_env 100 [5]) (toy_env 131 [])
      (Some (sig_auth_init 9), O) toy_request =
      (Some a_s', 1%nat, Some (sig_auth_init 7), Ok (Some resp')) /\ res_body resp' = lit "ping".
Proof.
  apply (authenticated_call toy_ser_request toy_ser_response toy_echo (sig_auth_init 7) (sig_auth_init 9)
    (toy_env 100 [5]) (toy_env 131 []) (toy_env 130 []) (toy_env 130 []) 0%nat 1%nat toy_request
    (mkResponse (mkResAuth no_token [] []) (lit "ping"))); try reflexivity; [apply toy_nonces_ok | vm_compute; congruence].
Defined.

Lemma wrapper_authentic_witness :
  exists pk resp0, toy_echo 0%nat (set_req_signature (toy_sent 90 [1; 2]) []) = (1%nat, Ok resp0) /\
    validated toy_ser_request (sig_auth_init 9) (toy_env 100 []) (toy_sent 90 [1; 2]) pk.
Proof.
  pose (run := wrapped_rpc (Az := sig_authorizer toy_ser_request toy_ser_response) SERVICER (Some (sig_auth_init 9)) None
    toy_echo (toy_env 100 []) (toy_env 100 []) O (toy_sent 90 [1; 2])).
  pose (resp := match run.2 with Ok (Some x) => x | _ => mkResponse (mkResAuth no_token [] []) [] end).
  pose (a' := match run.1.2 with Some x => x | None => sig_auth_init 9 end).
  apply (wrapper_authentic toy_ser_request toy_ser_response toy_echo (sig_auth_init 9) a' None (toy_env 100 [])
    (toy_env 100 []) 0%nat 1%nat (toy_sent 90 [1; 2]) resp SERVICER); [apply toy_nonces_ok | vm_compute; reflexivity].
Defined.
