(* ===== verification/AuthStream.v ===== *)
(** * Authenticated streams ([mesh/utils/authorizers/auth.py], [AuthRPCWrapperStreamer])

    The wrapper of the subnet protocols, whose methods may be asynchronous generators.  A generator is the list of the
    messages it yields and how it ends: by returning, or with an exception.  The state of the authorizer is the one
    after the stream was read to its end; [envs i] is what the authorizer observes at the [i]-th message. *)

From S2P Require Import Prelude DHTID Base64 Validation Crypto TimedStorage Auth.

Section Streamer.
Context {A B C H : Type} `{Az : Authorizer A B C}.

Record stream : Type := mkStream { yielded : list (Response C); ended : option exn }.

Definition yield_ (resp : Response C) (s : stream) : stream := mkStream (resp :: yielded s) (ended s).

(** The [async for] loop of [wrapped_stream_rpc] from the [i]-th message on. *)
Fixpoint stream_loop (role : AuthRole) (a : A) (envs : nat -> Env) (i : nat) (l : list (Response C)) (fin : option exn)
    (r : Request B) : A * stream :=
  match l with
  | [] => (a, mkStream [] fin)
  | resp :: rest =>
      match role with
      | SERVICER =>
          match sign_response a (envs i) resp r with
          | Raise e => (a, mkStream [] (Some e))
          | Ok resp' => let '(a1, s) := stream_loop role a envs (S i) rest fin r in (a1, yield_ resp' s)
          end
      | CLIENT =>
          match validate_response a (envs i) resp r with
          | (a1, Raise e) => (a1, mkStream [] (Some e))
          | (a1, Ok true) => let '(a2, s) := stream_loop role a1 envs (S i) rest fin r in (a2, yield_ resp s)
          | (a1, Ok false) => stream_loop role a1 envs (S i) rest fin r
          end
      end
  end.

(** The part both wrappers begin with: sign the request, or validate it. *)
Definition check_request (role : AuthRole) (a : A) (env : Env) (service_key : option bytes) (r : Request B)
    : A * result (Request B * bool) :=
  match role with
  | CLIENT => (a, rmap (fun r1 => (r1, true)) (sign_request a env service_key r))
  | SERVICER => validate_request a env r
  end.

(** [wrapped_stream_rpc], around a method that is an asynchronous generator *)
Definition wrapped_stream_rpc (role : AuthRole) (authorizer : option A) (service_key : option bytes)
    (method : H -> Request B -> H * stream) (env : Env) (envs : nat -> Env) (h : H) (r : Request B)
    : H * option A * stream :=
  match authorizer with
  | None => let '(h1, s) := method h r in (h1, None, s)
  | Some a =>
      match check_request role a env service_key r with
      | (a1, Raise e) => (h, Some a1, mkStream [] (Some e))
      | (a1, Ok (_, false)) => (h, Some a1, mkStream [] None)
      | (a1, Ok (r1, true)) =>
          let '(h1, s) := method h r1 in
          let '(a2, s') := stream_loop role a1 envs 0 (yielded s) (ended s) r1 in (h1, Some a2, s')
      end
  end.

(** What a method that is not a generator function returns: a message, or a generator. *)
Inductive Reply : Type := Single (resp : Response C) | Gen (s : stream).

(** [peek_first]: the first message and an iterator over all of them. *)
Definition peek_first (s : stream) : result (option (Response C) * stream) :=
  match yielded s, ended s with
  | resp :: _, _ => Ok (Some resp, s)
  | [], None => Ok (None, s)
  | [], Some e => Raise e
  end.

(** The validation of a reply by the client; [None] has no attribute [auth]. *)
Definition check_reply (a : A) (env : Env) (reply : Reply) (r : Request B) : A * result (option Reply) :=
  match reply with
  | Single resp =>
      let '(a1, ok) := validate_response a env resp r in (a1, rmap (fun b : bool => if b then Some reply else None) ok)
  | Gen s =>
      match peek_first s with
      | Raise e => (a, Raise e)
      | Ok (None, _) => (a, Raise AttributeError)
      | Ok (Some first, full_gen) =>
          let '(a1, ok) := validate_response a env first r in
          (a1, rmap (fun b : bool => if b then Some (Gen full_gen) else None) ok)
      end
  end.

(** [wrapped_unary_rpc]; signing a generator fails, since it has no attribute [auth]. *)
Definition wrapped_unary_rpc (role : AuthRole) (authorizer : option A) (service_key : option bytes)
    (method : H -> Request B -> H * result Reply) (env env' : Env) (h : H) (r : Request B)
    : H * option A * result (option Reply) :=
  match authorizer with
  | None => let '(h1, res) := method h r in (h1, None, rmap Some res)
  | Some a =>
      match check_request role a env service_key r with
      | (a1, Raise e) => (h, Some a1, Raise e)
      | (a1, Ok (_, false)) => (h, Some a1, Ok None)
      | (a1, Ok (r1, true)) =>
          match method h r1, role with
          | (h1, Raise e), _ => (h1, Some a1, Raise e)
          | (h1, Ok (Single resp)), SERVICER =>
              (h1, Some a1, rmap (fun x => Some (Single x)) (sign_response a1 env' resp r1))
          | (h1, Ok (Gen _)), SERVICER => (h1, Some a1, Raise AttributeError)
          | (h1, Ok reply), CLIENT => let '(a2, res) := check_reply a1 env' reply r1 in (h1, Some a2, res)
          end
      end
  end.
End Streamer.
Arguments stream : clear implicits.
Arguments Reply : clear implicits.

Section StreamFacts.
Context {PrivateKey PublicKey B C H : Type} `{Lib : CryptoLib PrivateKey PublicKey}.
Context (ser_request : Request B -> bytes) (ser_response : Response C -> bytes).
Implicit Types (a : SignatureAuthorizer PrivateKey).
Let Az : Authorizer (SignatureAuthorizer PrivateKey) B C := sig_authorizer ser_request ser_response.

(** [resp] answers [r] and is signed with the key it names. *)
Definition authentic (resp : Response C) (r : Request B) : Prop :=
  res_nonce (res_auth resp) = req_nonce (req_auth r) /\
  exists pk, load_public_key_from_bytes (tok_public_key (service_access_token (res_auth resp))) = Ok pk /\
    verify pk (ser_response (set_res_signature resp [])) (res_signature (res_auth resp)) = true.

Lemma do_validate_authentic resp r :
  rmap snd (do_validate_response (PublicKey := PublicKey) ser_response resp r) = Ok true <-> authentic resp r.
Proof.
  unfold do_validate_response, authentic. destruct (load_public_key_from_bytes _) as [pk|]; cbn [rbind rmap].
  - destruct (verify pk _ _) eqn:Ev; cbn [negb rmap snd].
    + case_bool_decide as Hn; cbn; split; naive_solver.
    + split; [done|]. intros (_ & pk' & [= <-] & Hv). congruence.
  - split; [done|]. by intros (_ & pk' & ? & _).
Qed.

(** What a client passes on of a stream. *)
Lemma client_loop a envs r l : forall i fin a' s,
  stream_loop (Az := Az) CLIENT a envs i l fin r = (a', s) ->
  sublist (yielded s) l /\ Forall (fun resp => authentic resp r) (yielded s) /\
  (ended s = None -> fin = None /\ forall resp, resp ∈ l -> authentic resp r -> resp ∈ yielded s).
Proof.
  induction l as [|resp l IH]; intros i fin a' s; cbn [stream_loop].
  { intros [= <- <-]. cbn. split_and!; [constructor|constructor|]. intros ->. split; [done|]. intros resp Hin. by apply not_elem_of_nil in Hin. }
  cbn [validate_response Az sig_authorizer]. unfold sig_validate_response.
  destruct (rmap snd _) as [[]|e] eqn:Ev.
  - destruct (stream_loop (Az := Az) CLIENT a envs (S i) l fin r) as [a1 s1] eqn:E. intros [= <- <-].
    destruct (IH _ _ _ _ E) as (H1 & H2 & H3). cbn. split_and!; [by constructor|constructor; [by apply do_validate_authentic|done]|].
    intros Hn. destruct (H3 Hn) as [-> H4]. split; [done|]. set_solver.
  - intros E. destruct (IH _ _ _ _ E) as (H1 & H2 & H3). split_and!; [by constructor|done|].
    intros Hn. destruct (H3 Hn) as [-> H4]. split; [done|]. intros resp' Hin Ha. apply elem_of_cons in Hin as [->|]; [|auto].
    apply do_validate_authentic in Ha. congruence.
  - intros [= <- <-]. cbn. split_and!; [apply sublist_nil_l|constructor|done].
Qed.

Lemma client_request a env key r a1 r1 b :
  check_request (Az := Az) CLIENT a env key r = (a1, Ok (r1, b)) -> a1 = a /\ b = true /\ req_nonce (req_auth r1) = env_nonce env.
Proof.
  cbn [check_request sign_request Az sig_authorizer]. unfold sig_sign_request.
  destruct (py_assert _) as [[]|]; cbn [rbind rmap]; [|done]. intros. simplify_eq. done.
Qed.
End StreamFacts.

Section HonestStream.
Context {PrivateKey PublicKey B C H : Type} `{Lib : CryptoLib PrivateKey PublicKey} {Laws : CryptoLaws PrivateKey PublicKey}.
Context (ser_request : Request B -> bytes) (ser_response : Response C -> bytes).
Implicit Types (a : SignatureAuthorizer PrivateKey).
Let Az : Authorizer (SignatureAuthorizer PrivateKey) B C := sig_authorizer ser_request ser_response.

(** A signed stream passes the client's validation unchanged. *)
Lemma signed_stream_valid a ac envs envs' r r' l : forall i fin,
  Forall (fun resp => res_signature (res_auth resp) = []) l -> req_nonce (req_auth r') = req_nonce (req_auth r) ->
  exists l', stream_loop (Az := Az) SERVICER a envs i l fin r = (a, mkStream l' fin) /\ map res_body l' = map res_body l /\
    stream_loop (Az := Az) CLIENT ac envs' i l' fin r' = (ac, mkStream l' fin).
Proof.
  induction l as [|resp l IH]; intros i fin Hl Hn; [by exists []|]. apply Forall_cons in Hl as [Hr Hl].
  destruct (signed_response_valid (PublicKey := PublicKey) ser_response a (envs i) resp r Hr) as (resp' & Hs & Hb & Hv).
  destruct (IH (S i) fin Hl Hn) as (l' & H1 & H2 & H3). exists (resp' :: l').
  cbn [stream_loop sign_response validate_response Az sig_authorizer]. rewrite Hs.
  cbn [sign_response Az sig_authorizer] in H1, H3. rewrite H1. cbn [map]. rewrite Hb, H2. split_and!; [done|done|].
  unfold sig_validate_response at 1. rewrite (Hv r' Hn). by rewrite H3.
Qed.
End HonestStream.

(** The remote end of a streaming call: the servicer's wrapped method. *)
Definition remote_stream {PrivateKey PublicKey B C H : Type} `{Lib : CryptoLib PrivateKey PublicKey}
    (ser_request : Request B -> bytes) (ser_response : Response C -> bytes) (handler : H -> Request B -> H * stream C)
    (env : Env) (envs : nat -> Env) (st : option (SignatureAuthorizer PrivateKey) * H) (r : Request B)
    : option (SignatureAuthorizer PrivateKey) * H * stream C :=
  let '(h1, a1, s) :=
    wrapped_stream_rpc (Az := sig_authorizer ser_request ser_response) SERVICER st.1 None handler env envs st.2 r in
  ((a1, h1), s).

(** * Theorems *)

(** A client passes on only authentic messages of a stream, in their order: each carries the nonce of the request just sent and is signed
    with the key it names; the others are skipped.  If the stream ends without an exception no authentic message is lost. *)
Theorem stream_authentic {PrivateKey PublicKey B C H : Type} `{Lib : CryptoLib PrivateKey PublicKey}
    (ser_request : Request B -> bytes) (ser_response : Response C -> bytes) (method : H -> Request B -> H * stream C)
    (a : SignatureAuthorizer PrivateKey) a' (key : option bytes) (env : Env) (envs : nat -> Env) (h h' : H) (r : Request B) s :
  wrapped_stream_rpc (Az := sig_authorizer ser_request ser_response) CLIENT (Some a) key method env envs h r = (h', Some a', s) ->
  yielded s = [] \/
  exists r1 sent, method h r1 = (h', sent) /\ req_nonce (req_auth r1) = env_nonce env /\
    sublist (yielded s) (yielded sent) /\ Forall (fun resp => authentic ser_response resp r1) (yielded s) /\
    (ended s = None -> forall resp, resp ∈ yielded sent -> authentic ser_response resp r1 -> resp ∈ yielded s).
Proof.
  unfold wrapped_stream_rpc. destruct (check_request (Az := _) CLIENT a env key r) as [a1 [[r1 b]|e]] eqn:E.
  - destruct (client_request ser_request ser_response a env key r _ _ _ E) as (-> & -> & Hn).
    destruct (method h r1) as [h1 sent] eqn:Em.
    destruct (stream_loop (Az := _) CLIENT a envs 0 (yielded sent) (ended sent) r1) as [a2 s'] eqn:El. intros [= <- <- <-]. right.
    destruct (client_loop ser_request ser_response a envs r1 _ _ _ _ _ El) as (H1 & H2 & H3). exists r1, sent. split_and!; auto.
    intros He. by destruct (H3 He).
  - intros [= <- <- <-]. by left.
Qed.

(** Two honest parties complete a streaming call: with clocks at most a minute apart and a new nonce, the client receives every message
    the handler yields, in order, and the stream ends as the handler ended it. *)
Theorem streaming_call {PrivateKey PublicKey B C H : Type} `{Lib : CryptoLib PrivateKey PublicKey}
    {Laws : CryptoLaws PrivateKey PublicKey} (ser_request : Request B -> bytes) (ser_response : Response C -> bytes)
    (handler : H -> Request B -> H * stream C) (ac a_s : SignatureAuthorizer PrivateKey)
    (env env1 : Env) (envs envs1 : nat -> Env) (h h' : H) (r : Request B) (sent : stream C) :
  service_public_key (req_auth r) = [] -> req_signature (req_auth r) = [] ->
  nonces_ok (recent_nonces a_s) -> dget (data (recent_nonces a_s)) (env_nonce env) = None ->
  Z.abs (env_now env - env_now env1) <= MAX_CLIENT_SERVICER_TIME_DIFF ->
  handler h (stamped ac env r) = (h', sent) -> Forall (fun resp => res_signature (res_auth resp) = []) (yielded sent) ->
  exists a_s' s,
    wrapped_stream_rpc (Az := sig_authorizer ser_request ser_response) CLIENT (Some ac) None
      (remote_stream ser_request ser_response handler env1 envs1) env envs (Some a_s, h) r = (Some a_s', h', Some ac, s) /\
    map res_body (yielded s) = map res_body (yielded sent) /\ ended s = ended sent.
Proof.
  intros Hs Hg Hok Hn Ht Hh Hl. unfold wrapped_stream_rpc at 1. cbn [check_request sign_request sig_authorizer].
  rewrite sign_request_fresh by done. cbn [rmap].
  destruct (signed_request_valid ser_request ac env a_s env1 r Hok Hn Ht) as (a1 & Hv & Hk).
  unfold remote_stream, wrapped_stream_rpc. cbn [fst snd check_request validate_request sig_authorizer]. rewrite Hv, Hh.
  set (r1 := set_req_signature (stamped ac env r) _).
  destruct (signed_stream_valid ser_request ser_response a1 ac envs1 envs (stamped ac env r) r1 (yielded sent) 0 (ended sent) Hl eq_refl)
    as (l' & H1 & H2 & H3). rewrite H1. cbn [yielded ended]. rewrite H3. eauto.
Qed.

(** A generator returned by a plain method is checked at its first message only: once that one is authentic, the client hands on the
    generator as it is, whatever else it yields. *)
Theorem later_messages_unchecked {PrivateKey PublicKey B C H : Type} `{Lib : CryptoLib PrivateKey PublicKey}
    (ser_request : Request B -> bytes) (ser_response : Response C -> bytes) (method : H -> Request B -> H * result (Reply C))
    (a : SignatureAuthorizer PrivateKey) (key : option bytes) (env env' : Env) (h h' : H) (r r1 : Request B) first rest fin :
  sig_sign_request ser_request a env key r = Ok r1 -> method h r1 = (h', Ok (Gen (mkStream (first :: rest) fin))) ->
  (wrapped_unary_rpc (Az := sig_authorizer ser_request ser_response) CLIENT (Some a) key method env env' h r
     = (h', Some a, Ok (Some (Gen (mkStream (first :: rest) fin)))) <-> authentic ser_response first r1).
Proof.
  intros Hs Hm. unfold wrapped_unary_rpc. cbn [check_request sign_request sig_authorizer]. rewrite Hs. cbn [rmap]. rewrite Hm.
  cbn [check_reply peek_first yielded ended validate_response sig_authorizer]. unfold sig_validate_response.
  rewrite <- (do_validate_authentic ser_response first r1). destruct (rmap snd _) as [[]|]; cbn [rmap]; split; congruence.
Qed.

(** ** Witnesses: a handler that answers with the request's body, twice *)

Definition toy_unsigned (r : Request bytes) : Response bytes := mkResponse (mkResAuth no_token [] []) (req_body r).
Definition toy_twice (h : nat) (r : Request bytes) : nat * stream bytes :=
  (S h, mkStream [toy_unsigned r; toy_unsigned r] None).

(** A message that the key [9] signs for [r]. *)
Definition toy_signed (r : Request bytes) : Response bytes :=
  match sig_sign_response toy_ser_response (sig_auth_init 9) (toy_env 100 []) (toy_unsigned r) r with
  | Ok x => x
  | Raise _ => toy_unsigned r
  end.

(** A peer that yields one signed message and one that is not. *)
Definition toy_forger (h : nat) (r : Request bytes) : nat * stream bytes :=
  (S h, mkStream [toy_signed r; mkResponse (res_auth (toy_signed r)) (lit "forged")] None).

Lemma stream_authentic_witness :
  exists s, wrapped_stream_rpc (Az := sig_authorizer toy_ser_request toy_ser_response) CLIENT (Some (sig_auth_init 7)) None toy_forger
      (toy_env 100 [5]) (fun _ => toy_env 101 []) O toy_request = (1%nat, Some (sig_auth_init 7), s) /\
    length (yielded s) = 1%nat /\
    (yielded s = [] \/ exists r1 : Request bytes, Forall (fun resp => authentic toy_ser_response resp r1) (yielded s)).
Proof.
  destruct (wrapped_stream_rpc (Az := sig_authorizer toy_ser_request toy_ser_response) CLIENT (Some (sig_auth_init 7)) None toy_forger
      (toy_env 100 [5]) (fun _ => toy_env 101 []) O toy_request) as [[h a] s] eqn:E.
  assert (Hr : exists s', (h, a, s) = (1%nat, Some (sig_auth_init 7), s') /\ length (yielded s') = 1%nat)
    by (rewrite <- E; eexists; split; [vm_compute; reflexivity|reflexivity]).
  destruct Hr as (s' & Heq & Hl). injection Heq as -> -> ->. exists s'. split; [reflexivity|]. split; [exact Hl|].
  destruct (stream_authentic toy_ser_request toy_ser_response toy_forger (sig_auth_init 7) (sig_auth_init 7) None (toy_env 100 [5])
    (fun _ => toy_env 101 []) 0%nat 1%nat toy_request s' E) as [Hn|(r1 & sent & _ & _ & _ & Hf & _)]; [left; exact Hn|right].
  exists r1. exact Hf.
Defined.

Lemma streaming_call_witness :
  exists a_s' s,
    wrapped_stream_rpc (Az := sig_authorizer toy_ser_request toy_ser_response) CLIENT (Some (sig_auth_init 7)) None
      (remote_stream toy_ser_request toy_ser_response toy_twice (toy_env 130 []) (fun _ => toy_env 130 [])) (toy_env 100 [5])
      (fun _ => toy_env 131 []) (Some (sig_auth_init 9), O) toy_request = (Some a_s', 1%nat, Some (sig_auth_init 7), s) /\
    map res_body (yielded s) = [lit "ping"; lit "ping"] /\ ended s = None.
Proof.
  apply (streaming_call toy_ser_request toy_ser_response toy_twice (sig_auth_init 7) (sig_auth_init 9) (toy_env 100 [5]) (toy_env 130 [])
    (fun _ => toy_env 131 []) (fun _ => toy_env 130 []) 0%nat 1%nat toy_request
    (mkStream [toy_unsigned toy_request; toy_unsigned toy_request] None)); try reflexivity;
    [apply toy_nonces_ok|vm_compute; congruence|repeat constructor].
Defined.

(** The forged second message reaches the caller. *)
Lemma later_messages_unchecked_witness :
  let r1 := match sig_sign_request toy_ser_request (sig_auth_init 7) (toy_env 100 [5]) None toy_request with Ok x => x | Raise _ => toy_request end in
  wrapped_unary_rpc (Az := sig_authorizer toy_ser_request toy_ser_response) CLIENT (Some (sig_auth_init 7)) None
      (fun h r => let '(h1, s) := toy_forger h r in (h1, Ok (Gen s))) (toy_env 100 [5]) (toy_env 101 []) O toy_request
    = (1%nat, Some (sig_auth_init 7), Ok (Some (Gen (toy_forger O r1).2))).
Proof.
  intros r1. apply (later_messages_unchecked toy_ser_request toy_ser_response (fun h r => let '(h1, s) := toy_forger h r in (h1, Ok (Gen s)))
    (sig_auth_init 7) None (toy_env 100 [5]) (toy_env 101 []) 0%nat 1%nat toy_request r1 (toy_signed r1)
    [mkResponse (res_auth (toy_signed r1)) (lit "forged")] None).
  - vm_compute. reflexivity.
  - reflexivity.
  - split; [vm_compute; reflexivity|]. eexists. split; vm_compute; reflexivity.
Defined.
