(* ===== verification/ProofOfStake.v ===== *)
(** * Proof of stake ([mesh/utils/proof_of_stake.py], [mesh/utils/authorizers/pos_auth.py])

    A peer may talk to this node only if it is staked on chain.  The chain's answers are cached for five minutes, the
    positive and the negative ones.  [ProofOfStakeAuthorizer] adds this check to the signature authorizer, and is an
    instance of the same interface.  Peers are known by the bytes of their identifiers; the chain is the oracle of the
    call's environment. *)

From S2P Require Import Prelude DHTID Base64 Base58 HashTable Validation Crypto TimedStorage PeerIdentity Auth.

Definition pos_success_cooldown : Z := 300.
Definition pos_fail_cooldown : Z := 300.

Record ProofOfStake : Type := mkPoS {
  last_successful_pos : pydict bytes Z;
  last_failed_pos : pydict bytes Z;
}.
Implicit Types (s : ProofOfStake) (p : bytes).

Definition pos_init : ProofOfStake := mkPoS [] [].

Definition get_peer_id_last_success s p : Z := default 0 (dget (last_successful_pos s) p).
Definition get_peer_id_last_fail s p : Z := default 0 (dget (last_failed_pos s) p).

Definition update_peer_id_success (now : Z) s p : ProofOfStake :=
  mkPoS (dset (last_successful_pos s) p now) (ddel (last_failed_pos s) p).
Definition update_peer_id_fail (now : Z) s p : ProofOfStake :=
  mkPoS (ddel (last_successful_pos s) p) (dset (last_failed_pos s) p now).

(** [to_vec_u8]: the characters of a text are its bytes. *)
Definition to_vec_u8 (text : bytes) : bytes := text.

(** [is_peer_staked]: only the answer [True] or [False] counts. *)
Definition is_peer_staked (chain : bytes -> result ChainReply) (peer_id_vector : bytes) : result bool :=
  let* reply := chain peer_id_vector in
  Ok match reply with ResultBool b => b | NoResult | ResultOther => false end.

Definition is_staked := is_peer_staked.

(** [last and now - last < cooldown]: the time [0] counts as never. *)
Definition recent (now last cooldown : Z) : bool := negb (last =? 0) && (now - last <? cooldown).

(** [proof_of_stake], from the peer's identifier on. *)
Definition check_stake (env : Env) s (peer : PeerID) : ProofOfStake * result bool :=
  let now := env_now env in
  let p := peer_bytes peer in
  if recent now (get_peer_id_last_fail s p) pos_fail_cooldown then (s, Ok false)
  else if recent now (get_peer_id_last_success s p) pos_success_cooldown then (s, Ok true)
  else match is_staked (env_chain env) (to_vec_u8 (to_base58 peer)) with
       | Raise e => (s, Raise e)
       | Ok true => (update_peer_id_success now s p, Ok true)
       | Ok false => (update_peer_id_fail now s p, Ok false)
       end.

Definition proof_of_stake {PublicKey} `{KeyLib PublicKey} `{Varint} (env : Env) s (pk : PublicKey) : ProofOfStake * result bool :=
  match get_peer_id_from_pubkey pk with
  | None => (s, Ok false)
  | Some peer => check_stake env s peer
  end.

(** ** [ProofOfStakeAuthorizer] *)

Section PosAuthorizer.
Context {PrivateKey PublicKey B C : Type} `{Lib : CryptoLib PrivateKey PublicKey} `{KL : KeyLib PublicKey} `{VI : Varint}.
Context (ser_request : Request B -> bytes) (ser_response : Response C -> bytes).

Record ProofOfStakeAuthorizer : Type := mkPosAuth {
  signature_authorizer : SignatureAuthorizer PrivateKey;
  pos : ProofOfStake;
}.
Implicit Types (a : ProofOfStakeAuthorizer).

(** [validate_request]; an exception of the stake check refuses the request. *)
Definition pos_validate_request a (env : Env) (r : Request B) : ProofOfStakeAuthorizer * result (Request B * bool) :=
  match do_validate_request ser_request (signature_authorizer a) env r with
  | (sa, Raise e) => (mkPosAuth sa (pos a), Raise e)
  | (sa, Ok (r1, (client_public_key, current_time, nonce, valid))) =>
      if valid then
        match proof_of_stake env (pos a) client_public_key with
        | (s1, Ok true) =>
            match remember_nonce sa env nonce current_time with
            | Ok sa' => (mkPosAuth sa' s1, Ok (r1, true))
            | Raise e => (mkPosAuth sa s1, Raise e)
            end
        | (s1, _) => (mkPosAuth sa s1, Ok (r1, false))
        end
      else (mkPosAuth sa (pos a), Ok (r1, false))
  end.

(** [validate_response] *)
Definition pos_validate_response a (env : Env) (resp : Response C) (r : Request B) : ProofOfStakeAuthorizer * result bool :=
  match do_validate_response ser_response resp r with
  | Raise e => (a, Raise e)
  | Ok (service_public_key, valid) =>
      if valid then
        match proof_of_stake env (pos a) service_public_key with
        | (s1, Ok b) => (mkPosAuth (signature_authorizer a) s1, Ok b)
        | (s1, Raise _) => (mkPosAuth (signature_authorizer a) s1, Ok false)
        end
      else (a, Ok false)
  end.

Definition pos_authorizer : Authorizer ProofOfStakeAuthorizer B C := {|
  sign_request a := sig_sign_request ser_request (signature_authorizer a);
  validate_request := pos_validate_request;
  sign_response a := sig_sign_response ser_response (signature_authorizer a);
  validate_response := pos_validate_response;
|}.
End PosAuthorizer.
Arguments ProofOfStakeAuthorizer : clear implicits.

(** ** Lemmas *)

(** Each peer has at most one verdict: a success erases the last failure and the other way round. *)
Definition one_verdict s : Prop :=
  forall p, dget (last_successful_pos s) p = None \/ dget (last_failed_pos s) p = None.

Lemma check_stake_one_verdict env s peer s' res :
  one_verdict s -> check_stake env s peer = (s', res) -> one_verdict s'.
Proof.
  intros Hs. unfold check_stake. destruct (recent _ (get_peer_id_last_fail _ _) _); [intros; by simplify_eq|].
  destruct (recent _ _ _); [intros; by simplify_eq|]. destruct (is_staked _ _) as [[]|]; intros; simplify_eq; [..|done];
    intros p; cbn [last_successful_pos last_failed_pos update_peer_id_success update_peer_id_fail];
    (destruct (decide (peer_bytes peer = p)) as [<-|]; [rewrite !dget_ddel_eq; auto|]);
    rewrite dget_dset_ne, dget_ddel_ne by done; apply Hs.
Qed.

(** ** Runs *)

(** One check: what the peer was told, at which time, and what the chain would have said then. *)
Definition stake_event : Type := (Env * PeerID)%type.

Fixpoint run_checks s (l : list stake_event) : ProofOfStake * list (result bool) :=
  match l with
  | [] => (s, [])
  | (env, peer) :: l' =>
      let '(s1, r) := check_stake env s peer in
      let '(s2, rs) := run_checks s1 l' in (s2, r :: rs)
  end.

Definition same_peer (a b : PeerID) : Prop := peer_bytes a = peer_bytes b.

(** The chain's verdict on a peer at an event. *)
Definition verdict (ev : stake_event) : result bool := is_staked (env_chain ev.1) (to_vec_u8 (to_base58 ev.2)).

(** A remembered success at time [t] was given by an event of the past, and no failure came after it. *)
Record explained (past : list stake_event) s : Prop := {
  ex_success p t : dget (last_successful_pos s) p = Some t ->
    exists ev, ev ∈ past /\ peer_bytes ev.2 = p /\ env_now ev.1 = t /\ verdict ev = Ok true;
  ex_failed p t : dget (last_failed_pos s) p = Some t ->
    exists ev, ev ∈ past /\ peer_bytes ev.2 = p /\ env_now ev.1 = t /\ verdict ev = Ok false;
}.

Lemma explained_step past s env peer s' res :
  explained past s -> check_stake env s peer = (s', res) ->
  explained (past ++ [(env, peer)]) s' /\
  (res = Ok true -> exists ev, ev ∈ past ++ [(env, peer)] /\ same_peer ev.2 peer /\ verdict ev = Ok true /\
                     (ev = (env, peer) \/ env_now env - env_now ev.1 < pos_success_cooldown)).
Proof.
  intros [Hs Hf]. unfold check_stake.
  assert (Hmore : explained (past ++ [(env, peer)]) s) by (split; intros p t Ht; [apply Hs in Ht|apply Hf in Ht];
    destruct Ht as (ev & ? & ?); exists ev; (split; [set_solver|done])).
  destruct (recent _ (get_peer_id_last_fail _ _) _); [intros; by simplify_eq|].
  destruct (recent _ _ _) eqn:Er.
  - intros. simplify_eq. split; [done|]. intros _. unfold recent, get_peer_id_last_success in Er. propify.
    destruct Er as [Hne Hlt]. destruct (dget _ _) as [t|] eqn:Et; [|done]. simpl in Hlt.
    destruct (Hs _ _ Et) as (ev & Hin & Hp & Ht & Hv). exists ev. split_and!; [set_solver|done|done|right; lia].
  - destruct (is_staked _ _) as [[]|] eqn:Ev; intros; simplify_eq.
    + split; [|intros _; exists (env, peer); split_and!; [set_solver|done|done|by left]].
      split; intros p t; cbn [last_successful_pos last_failed_pos update_peer_id_success].
      * destruct (decide (peer_bytes peer = p)) as [<-|]; [|rewrite dget_dset_ne by done; apply Hmore].
        rewrite dget_dset_eq. intros [= <-]. exists (env, peer). split_and!; [set_solver|done..].
      * destruct (decide (peer_bytes peer = p)) as [<-|]; [by rewrite dget_ddel_eq|].
        rewrite dget_ddel_ne by done. apply Hmore.
    + split; [|done]. split; intros p t; cbn [last_successful_pos last_failed_pos update_peer_id_fail].
      * destruct (decide (peer_bytes peer = p)) as [<-|]; [by rewrite dget_ddel_eq|].
        rewrite dget_ddel_ne by done. apply Hmore.
      * destruct (decide (peer_bytes peer = p)) as [<-|]; [|rewrite dget_dset_ne by done; apply Hmore].
        rewrite dget_dset_eq. intros [= <-]. exists (env, peer). split_and!; [set_solver|done..].
    + done.
Qed.

Lemma run_checks_explained l : forall past s j env peer,
  explained past s -> l !! j = Some (env, peer) -> (run_checks s l).2 !! j = Some (Ok true) ->
  exists ev, ev ∈ past ++ take (S j) l /\ same_peer ev.2 peer /\ verdict ev = Ok true /\
    (ev = (env, peer) \/ env_now env - env_now ev.1 < pos_success_cooldown).
Proof.
  induction l as [|[env0 peer0] l IH]; intros past s j env peer Hex Hl Hr; [done|]. cbn [run_checks] in Hr.
  destruct (check_stake env0 s peer0) as [s1 r] eqn:E. destruct (run_checks s1 l) as [s2 rs] eqn:E2.
  destruct (explained_step _ _ _ _ _ _ Hex E) as [Hex1 Hok].
  destruct j as [|j]; cbn in Hl, Hr; simplify_eq; [by apply Hok|].
  destruct (IH _ s1 j env peer Hex1 Hl) as (ev & Hin & Hev); [by rewrite E2|].
  exists ev. split; [|done]. cbn [take]. by rewrite <- app_assoc in Hin.
Qed.

(** While a failure is recent, the peer is refused and the failure stays on record. *)
Lemma failure_sticks l : forall s p t j env peer,
  one_verdict s -> 0 < t -> dget (last_failed_pos s) p = Some t ->
  Forall (fun ev => env_now ev.1 - t < pos_fail_cooldown) l ->
  l !! j = Some (env, peer) -> peer_bytes peer = p -> (run_checks s l).2 !! j = Some (Ok false).
Proof.
  induction l as [|[env0 peer0] l IH]; intros s p t j env peer Hv Ht Hd Hl Hj Hp; [done|]. cbn [run_checks].
  apply Forall_cons in Hl as [H0 Hl]. cbn [fst] in H0.
  destruct (check_stake env0 s peer0) as [s1 r] eqn:E. destruct (run_checks s1 l) as [s2 rs] eqn:E2.
  assert (Hsame : peer_bytes peer0 = p -> s1 = s /\ r = Ok false).
  { intros Hp0. unfold check_stake, get_peer_id_last_fail in E. rewrite Hp0, Hd in E. change (default 0 (Some t)) with t in E.
    unfold recent in E. rewrite (proj2 (Z.eqb_neq t 0)), (proj2 (Z.ltb_lt _ _)) in E by lia. cbn [negb andb] in E. by simplify_eq. }
  assert (Hd1 : dget (last_failed_pos s1) p = Some t).
  { destruct (decide (peer_bytes peer0 = p)) as [Hp0|Hp0]; [by destruct (Hsame Hp0) as [-> _]|].
    revert E. unfold check_stake. destruct (recent _ (get_peer_id_last_fail _ _) _); [intros; by simplify_eq|].
    destruct (recent _ _ _); [intros; by simplify_eq|]. destruct (is_staked _ _) as [[]|]; intros; simplify_eq; [..|done];
      cbn [last_failed_pos update_peer_id_success update_peer_id_fail];
      [by rewrite dget_ddel_ne | by rewrite dget_dset_ne]. }
  destruct j as [|j]; cbn in Hj |- *; simplify_eq.
  - by destruct (Hsame eq_refl) as [_ ->].
  - rewrite <- (IH s1 (peer_bytes peer) t j env peer); auto; [by rewrite E2|].
    by eapply check_stake_one_verdict.
Qed.

(** ** The authorizer keeps nonces *)

Section PosLaws.
Context {PrivateKey PublicKey B C : Type} `{Lib : CryptoLib PrivateKey PublicKey} `{KL : KeyLib PublicKey} `{VI : Varint}.
Context (ser_request : Request B -> bytes) (ser_response : Response C -> bytes).
#[local] Instance pos_az : Authorizer (ProofOfStakeAuthorizer PrivateKey) B C := pos_authorizer ser_request ser_response.
#[local] Instance pos_nonces : NonceKeeper (ProofOfStakeAuthorizer PrivateKey) B C :=
  fun a => recent_nonces (signature_authorizer a).

(** An accepted request is a valid one, from a peer whose stake was confirmed. *)
Lemma pos_request_accepted a env r a' r' :
  nonces_ok (recent_nonces (signature_authorizer a)) -> pos_validate_request ser_request a env r = (a', Ok (r', true)) ->
  exists pk peer, validated ser_request (signature_authorizer a) env r pk /\
    get_peer_id_from_pubkey pk = Some peer /\ check_stake env (pos a) peer = (pos a', Ok true) /\
    remembered (recent_nonces (signature_authorizer a')) (req_nonce (req_auth r)) (env_now env + MAX_CLIENT_SERVICER_TIME_DIFF * 3).
Proof using Type.
  intros Hok. unfold pos_validate_request.
  destruct (do_validate_request ser_request (signature_authorizer a) env r) as [sa [[r1 [[[pk t] n] []]]|]] eqn:E;
    [|intros; by simplify_eq..].
  destruct (do_validate_keeps ser_request _ _ _ _ _ Hok E) as (Hok1 & _ & _ & Hval).
  destruct (Hval _ _ _ _ eq_refl) as (-> & -> & -> & Hv & Hn). unfold proof_of_stake.
  destruct (get_peer_id_from_pubkey pk) as [peer|] eqn:Ep; [|intros; by simplify_eq].
  destruct (check_stake env (pos a) peer) as [s1 [[]|]] eqn:Ec; [|intros; by simplify_eq..].
  destruct (remember_spec sa env _ Hok1 Hn) as (sa' & -> & _ & _ & Hrem & _). intros. simplify_eq.
  exists pk, peer. auto.
Qed.

Lemma pos_nonce_laws : NonceLaws (ProofOfStakeAuthorizer PrivateKey) B C.
Proof using Type.
  split; unfold nonces, pos_nonces; cbn [validate_request pos_az pos_authorizer].
  - intros a env r a' res Hok. unfold pos_validate_request.
    destruct (do_validate_request ser_request (signature_authorizer a) env r) as [sa res1] eqn:E.
    destruct (do_validate_keeps ser_request _ _ _ _ _ Hok E) as (Hok1 & _ & Hkeep & Hval).
    destruct res1 as [[r1 [[[pk t] n] []]]|]; [|intros; by simplify_eq..].
    destruct (Hval _ _ _ _ eq_refl) as (-> & -> & -> & Hv & Hn).
    destruct (proof_of_stake env (pos a) pk) as [s1 [[]|]]; [|intros; by simplify_eq..].
    destruct (remember_spec sa env _ Hok1 Hn) as (sa' & Hr & _ & Hok2 & _ & Hkeep2). rewrite Hr.
    intros. simplify_eq. cbn [signature_authorizer]. eauto.
  - intros a env r a' r' Hok Hacc. destruct (pos_request_accepted _ _ _ _ _ Hok Hacc) as (pk & peer & Hv & _ & _ & Hrem).
    split_and!; [apply Hv| |done]. intros e (_ & _ & Hd & _). rewrite (v_new _ _ _ _ _ Hv) in Hd. done.
Qed.
End PosLaws.

(** * Theorems *)

(** A peer passes the stake check only if the chain confirmed its stake, at this check or at an earlier one less
    than five minutes before, for the identifier of this peer; and a refusal by the chain is final for five minutes: until
    then the peer is refused, whatever the chain says meanwhile. *)
Theorem stake_verdicts_cached (l : list stake_event) (j : nat) (env : Env) (peer : PeerID) :
  l !! j = Some (env, peer) ->
  ((run_checks pos_init l).2 !! j = Some (Ok true) ->
     exists ev, ev ∈ take (S j) l /\ same_peer ev.2 peer /\ verdict ev = Ok true /\
       (ev = (env, peer) \/ env_now env - env_now ev.1 < pos_success_cooldown)) /\
  (forall (s : ProofOfStake) (env0 : Env), one_verdict s ->
     check_stake env0 s peer = (update_peer_id_fail (env_now env0) s (peer_bytes peer), Ok false) ->
     0 < env_now env0 -> Forall (fun ev => env_now ev.1 < env_now env0 + pos_fail_cooldown) l ->
     (run_checks (update_peer_id_fail (env_now env0) s (peer_bytes peer)) l).2 !! j = Some (Ok false)).
Proof.
  intros Hj. split.
  - intros Hr. apply (run_checks_explained l [] pos_init j env peer); auto. by split.
  - intros s env0 Hv Hc H0 Hl. eapply failure_sticks; eauto.
    + by eapply check_stake_one_verdict.
    + cbn [last_failed_pos update_peer_id_fail]. apply dget_dset_eq.
    + eapply Forall_impl; [exact Hl|]. intros ev Hev. simpl in Hev. lia.
Qed.

(** ** Witnesses *)

Definition stake_env (now : Z) (reply : ChainReply) : Env := mkEnv now [] [] (fun _ => Ok reply).

Lemma stake_verdicts_cached_witness :
  let peer := PeerID_init [1; 2] in
  let l := [(stake_env 100 (ResultBool true), peer); (stake_env 399 (ResultBool false), peer)] in
  (run_checks pos_init l).2 = [Ok true; Ok true] /\
  exists ev, ev ∈ l /\ same_peer ev.2 peer /\ verdict ev = Ok true /\
    (ev = (stake_env 399 (ResultBool false), peer) \/ 399 - env_now ev.1 < pos_success_cooldown).
Proof.
  intros peer l. split; [vm_compute; reflexivity|].
  apply (stake_verdicts_cached l 1 (stake_env 399 (ResultBool false)) peer); [reflexivity | vm_compute; reflexivity].
Defined.

Example refusal_cached :
  let peer := PeerID_init [1; 2] in
  (run_checks pos_init [(stake_env 100 (ResultBool false), peer); (stake_env 399 (ResultBool true), peer);
                        (stake_env 400 (ResultBool true), peer)]).2 = [Ok false; Ok false; Ok true].
Proof. vm_compute. reflexivity. Qed.
