(* ===== verification/Limiter.v ===== *)
(** * Rate limiting ([mesh/utils/authorizers/limiter.py])

    [RateLimitAuthorizer] wraps another authorizer (any instance of the class [Authorizer]) and refuses requests of
    peers that send too many.  Counters and blocks are kept per peer; a peer is known by the first twenty bytes of
    its public key.  One clock reading serves a whole critical section.  The dictionaries of counters return [0] for a
    missing key; those whose size is reported ([peer_requests], [peer_threat_levels]) get an entry when read, as a
    [defaultdict] does.  A float product is the exact one, rounded by [rnd]. *)

From Stdlib Require Import QArith.
From S2P Require Import Prelude DHTID Base64 Validation Crypto TimedStorage Auth.
Open Scope Z_scope.

Inductive ThreatLevel : Type := NORMAL | SUSPICIOUS | MODERATE | HIGH | CRITICAL.

#[export] Instance ThreatLevel_eq_dec : EqDecision ThreatLevel.
Proof. solve_decision. Defined.

Definition level_value (l : ThreatLevel) : Z :=
  match l with NORMAL => 0 | SUSPICIOUS => 1 | MODERATE => 2 | HIGH => 3 | CRITICAL => 4 end.

Record RateLimitConfig : Type := mkConfig {
  max_requests_per_second : Z;
  max_requests_per_minute : Z;
  max_requests_per_hour : Z;
  max_burst : Z;
  suspicious_threshold : Q;
  blocking_threshold : Q;
  ip_ban_threshold : Q;
  short_window : Z;
  medium_window : Z;
  long_window : Z;
  temp_block_duration : Z;
  extended_block_duration : Z;
  enable_ip_banning : bool;
  ip_ban_violation_count : Z;
}.

Definition default_config : RateLimitConfig :=
  mkConfig 10 100 1000 20 (3 # 2) 3 5 1 60 3600 300 3600 false 10.

(** Why a request was refused. *)
Inductive Reason : Type :=
  | RBanned | RBlocked (remaining : Z) | RCritical (n : Z) | RSevere (n : Z) | RPerMinute (n : Z) | RPerHour (n : Z)
  | RBurst (n : Z) | RPattern | RAuthFailed | RRepeated (r : Reason).

(** The state of the limiter, apart from the authorizer it wraps. *)
Record Limits : Type := mkLimits {
  peer_requests : pydict bytes (list Z);
  peer_threat_levels : pydict bytes ThreatLevel;
  blocked_peers : pydict bytes Z;
  violation_counts : pydict bytes Z;
  ip_banned_peers : list bytes;
  total_requests : pydict bytes Z;
  blocked_requests : pydict bytes Z;
  threat_escalations : pydict bytes (list (Z * ThreatLevel * ThreatLevel));
  ban_callbacks : list (bytes * Reason);  (* the calls of [ip_ban_callback] *)
}.
Implicit Types (s : Limits) (p : bytes) (now : Z).

Definition limits_init : Limits := mkLimits [] [] [] [] [] [] [] [] [].

Definition count_of (d : pydict bytes Z) p : Z := default 0 (dget d p).
Definition bump (d : pydict bytes Z) p : pydict bytes Z := dset d p (count_of d p + 1).

Definition violations s p : Z := count_of (violation_counts s) p.

Definition set_requests s (d : pydict bytes (list Z)) : Limits :=
  mkLimits d (peer_threat_levels s) (blocked_peers s) (violation_counts s) (ip_banned_peers s) (total_requests s)
    (blocked_requests s) (threat_escalations s) (ban_callbacks s).
Definition set_blocked s (d : pydict bytes Z) : Limits :=
  mkLimits (peer_requests s) (peer_threat_levels s) d (violation_counts s) (ip_banned_peers s) (total_requests s)
    (blocked_requests s) (threat_escalations s) (ban_callbacks s).
Definition count_violation s p : Limits :=
  mkLimits (peer_requests s) (peer_threat_levels s) (blocked_peers s) (bump (violation_counts s) p) (ip_banned_peers s)
    (total_requests s) (blocked_requests s) (threat_escalations s) (ban_callbacks s).
Definition count_blocked s p : Limits :=
  mkLimits (peer_requests s) (peer_threat_levels s) (blocked_peers s) (violation_counts s) (ip_banned_peers s)
    (total_requests s) (bump (blocked_requests s) p) (threat_escalations s) (ban_callbacks s).

Section Limiter.
Context (rnd : Q -> Q) (config : RateLimitConfig) (has_callback : bool).

(** [n > max_rate * threshold] *)
Definition exceeds (n : Z) (threshold : Q) : bool :=
  negb (Qle_bool (inject_Z n) (rnd (inject_Z (max_requests_per_second config) * threshold)%Q)).

(** [_detect_threat] *)
Definition detect_threat s p (short_count medium_count long_count : Z) : option (Reason * ThreatLevel) :=
  if exceeds short_count (ip_ban_threshold config) || (ip_ban_violation_count config <=? violations s p)
  then Some (RCritical short_count, CRITICAL)
  else if exceeds short_count (blocking_threshold config) then Some (RSevere short_count, HIGH)
  else if max_requests_per_minute config <=? medium_count then Some (RPerMinute medium_count, MODERATE)
  else if max_requests_per_hour config <=? long_count then Some (RPerHour long_count, MODERATE)
  else if max_burst config <=? short_count then Some (RBurst short_count, SUSPICIOUS)
  else if exceeds short_count (suspicious_threshold config) then Some (RPattern, SUSPICIOUS)
  else None.

(** [_block_peer] *)
Definition block_peer now s p (duration : Z) : Limits := set_blocked s (dset (blocked_peers s) p (now + duration)).

(** [_ban_peer_ip]; an exception of the callback is logged. *)
Definition ban_peer_ip s p (r : Reason) : Limits :=
  if bool_decide (p ∈ ip_banned_peers s) then s
  else mkLimits (peer_requests s) (peer_threat_levels s) (blocked_peers s) (violation_counts s)
         (p :: ip_banned_peers s) (total_requests s) (blocked_requests s) (threat_escalations s)
         (if has_callback then (p, r) :: ban_callbacks s else ban_callbacks s).

(** The escalation of [_handle_threat]: reading the current level creates its entry. *)
Definition escalate now s p (level : ThreatLevel) : Limits :=
  let current := default NORMAL (dget (peer_threat_levels s) p) in
  let up := level_value current <? level_value level in
  mkLimits (peer_requests s) (dset (peer_threat_levels s) p (if up then level else current)) (blocked_peers s)
    (violation_counts s) (ip_banned_peers s) (total_requests s) (blocked_requests s)
    (if up then dset (threat_escalations s) p
                  (default [] (dget (threat_escalations s) p) ++ [(now, current, level)])
     else threat_escalations s)
    (ban_callbacks s).

(** [_handle_threat] *)
Definition handle_threat now s p (level : ThreatLevel) (r : Reason) : Limits :=
  let s1 := count_violation (escalate now s p level) p in
  match level with
  | NORMAL | SUSPICIOUS => s1
  | MODERATE => block_peer now s1 p (temp_block_duration config)
  | HIGH => block_peer now s1 p (extended_block_duration config)
  | CRITICAL => if enable_ip_banning config && has_callback then ban_peer_ip s1 p r else block_peer now s1 p 86400
  end.

(** [_record_violation] *)
Definition record_violation now s p (r : Reason) : Limits :=
  let s1 := count_violation s p in
  if 5 <=? violations s1 p then handle_threat now s1 p SUSPICIOUS (RRepeated r) else s1.

(** [while requests and requests[0] < cutoff_time: requests.popleft()] *)
Fixpoint drop_old (cutoff : Z) (requests : list Z) : list Z :=
  match requests with
  | [] => []
  | t :: rest => if t <? cutoff then drop_old cutoff rest else requests
  end.

Definition count_after (bound : Z) (requests : list Z) : Z := Z.of_nat (length (filter (fun t => bound < t) requests)).

(** The second half of [_check_rate_limit], for a peer that is not blocked: forget the old requests, count the
    others, and either react to a threat or record the request. *)
Definition count_request now s p : Limits * option Reason :=
  let requests := drop_old (now - long_window config) (default [] (dget (peer_requests s) p)) in
  let s1 := set_requests s (dset (peer_requests s) p requests) in
  match detect_threat s1 p (count_after (now - short_window config) requests)
          (count_after (now - medium_window config) requests) (Z.of_nat (length requests)) with
  | Some (r, level) => (handle_threat now s1 p level r, Some r)
  | None =>
      (mkLimits (dset (peer_requests s1) p (requests ++ [now])) (peer_threat_levels s1) (blocked_peers s1)
         (violation_counts s1) (ip_banned_peers s1) (bump (total_requests s1) p) (blocked_requests s1)
         (threat_escalations s1) (ban_callbacks s1), None)
  end.

(** [_check_rate_limit]: [None] means that the request is allowed. *)
Definition check_rate_limit now s p : Limits * option Reason :=
  if bool_decide (p ∈ ip_banned_peers s) then (count_blocked s p, Some RBanned)
  else
    match dget (blocked_peers s) p with
    | Some unblock_time =>
        if now <? unblock_time then (count_blocked s p, Some (RBlocked (unblock_time - now)))
        else count_request now (set_blocked s (ddel (blocked_peers s) p)) p
    | None => count_request now s p
    end.

(** ** Statistics *)

Record PeerStats : Type := mkStats {
  st_level : ThreatLevel; st_total : Z; st_blocked : Z; st_violations : Z;
  st_is_blocked : bool; st_is_banned : bool; st_1s : Z; st_1m : Z; st_1h : Z;
}.

(** [get_peer_stats]: the two [defaultdict]s get an entry. *)
Definition get_peer_stats now s p : Limits * PeerStats :=
  let requests := default [] (dget (peer_requests s) p) in
  let level := default NORMAL (dget (peer_threat_levels s) p) in
  let s1 := set_requests s (dset (peer_requests s) p requests) in
  (mkLimits (peer_requests s1) (dset (peer_threat_levels s) p level) (blocked_peers s) (violation_counts s)
     (ip_banned_peers s) (total_requests s) (blocked_requests s) (threat_escalations s) (ban_callbacks s),
   mkStats level (count_of (total_requests s) p) (count_of (blocked_requests s) p) (violations s p)
     (dmem (blocked_peers s) p) (bool_decide (p ∈ ip_banned_peers s))
     (count_after (now - 1) requests) (count_after (now - 60) requests) (Z.of_nat (length requests))).

Record AllStats : Type := mkAll {
  all_peers : nat; all_blocked_peers : nat; all_banned : nat; all_requests : Z; all_blocked_requests : Z;
  threat_distribution : list (ThreatLevel * nat);
}.

(** [get_all_stats] *)
Definition get_all_stats s : AllStats :=
  mkAll (length (peer_requests s)) (length (blocked_peers s)) (length (ip_banned_peers s))
    (foldr Z.add 0 (dvalues (total_requests s))) (foldr Z.add 0 (dvalues (blocked_requests s)))
    (map (fun l => (l, length (filter (fun l' => l' = l) (dvalues (peer_threat_levels s)))))
       [NORMAL; SUSPICIOUS; MODERATE; HIGH; CRITICAL]).
End Limiter.

(** ** The authorizer *)

Section RateLimitAuthorizer.
Context {A B C PrivateKey PublicKey : Type} `{Az : Authorizer A B C} `{Lib : CryptoLib PrivateKey PublicKey}.
Context (rnd : Q -> Q) (config : RateLimitConfig) (has_callback : bool).

Record RateLimitAuthorizer : Type := mkRateLimit { inner_authorizer : A; limits : Limits }.
Implicit Types (a : RateLimitAuthorizer).

(** [_public_key_to_peer_id] *)
Definition public_key_to_peer_id (pk : PublicKey) : bytes := take 20 (public_to_bytes pk).

(** [validate_request] *)
Definition limited_validate_request a (env : Env) (r : Request B) : RateLimitAuthorizer * result (Request B * bool) :=
  match load_public_key_from_bytes (tok_public_key (client_access_token (req_auth r))) with
  | Raise _ => (a, Ok (r, false))
  | Ok pk =>
      let p := public_key_to_peer_id pk in
      let now := env_now env in
      match check_rate_limit rnd config has_callback now (limits a) p with
      | (s1, Some reason) =>
          (mkRateLimit (inner_authorizer a) (record_violation config has_callback now s1 p reason), Ok (r, false))
      | (s1, None) =>
          match validate_request (inner_authorizer a) env r with
          | (i1, Raise e) => (mkRateLimit i1 s1, Raise e)
          | (i1, Ok (r1, true)) => (mkRateLimit i1 s1, Ok (r1, true))
          | (i1, Ok (r1, false)) =>
              (mkRateLimit i1 (record_violation config has_callback now s1 p RAuthFailed), Ok (r1, false))
          end
      end
  end.

Definition rate_limit_authorizer : Authorizer RateLimitAuthorizer B C := {|
  sign_request a := sign_request (inner_authorizer a);
  validate_request := limited_validate_request;
  sign_response a := sign_response (inner_authorizer a);
  validate_response a env resp r :=
    let '(i1, res) := validate_response (inner_authorizer a) env resp r in (mkRateLimit i1 (limits a), res);
|}.
End RateLimitAuthorizer.
Arguments RateLimitAuthorizer : clear implicits.

(** ** Events

    The critical sections under the lock, in the order in which they are entered: any interleaving of requests is
    such a sequence. *)
Inductive limit_event : Type := ECheck (p : bytes) | EViolation (p : bytes) (r : Reason).

Section Events.
Context (rnd : Q -> Q) (config : RateLimitConfig) (has_callback : bool).

(** The allowed requests are logged, with their times. *)
Definition limit_step s (ev : Z * limit_event) : Limits * list (bytes * Z) :=
  match ev with
  | (now, ECheck p) =>
      match check_rate_limit rnd config has_callback now s p with
      | (s1, None) => (s1, [(p, now)])
      | (s1, Some _) => (s1, [])
      end
  | (now, EViolation p r) => (record_violation config has_callback now s p r, [])
  end.

Fixpoint run_limits s (l : list (Z * limit_event)) : Limits * list (bytes * Z) :=
  match l with
  | [] => (s, [])
  | ev :: l' => let '(s1, o) := limit_step s ev in let '(s2, os) := run_limits s1 l' in (s2, o ++ os)
  end.

(** The times at which requests of a peer were allowed. *)
Definition allowed_times p (log : list (bytes * Z)) : list Z := (filter (fun x => x.1 = p) log).*2.

Definition requests_of s p : list Z := default [] (dget (peer_requests s) p).

Lemma handle_threat_requests now s p level r :
  peer_requests (handle_threat config has_callback now s p level r) = peer_requests s.
Proof using Type.
  unfold handle_threat, ban_peer_ip. destruct level; try done. destruct (_ && _); [|done]. by case_bool_decide.
Qed.

Lemma record_violation_requests now s p r : peer_requests (record_violation config has_callback now s p r) = peer_requests s.
Proof using Type. unfold record_violation. destruct (_ <=? _); [by rewrite handle_threat_requests | done]. Qed.

(** The counts that an allowed request has passed. *)
Lemma not_a_threat s p sc mc lc : detect_threat rnd config s p sc mc lc = None ->
  sc < max_burst config /\ mc < max_requests_per_minute config /\ lc < max_requests_per_hour config /\
  violations s p < ip_ban_violation_count config.
Proof using Type.
  unfold detect_threat. destruct (_ || _) eqn:E1; [done|]. destruct (exceeds _ _ _ (blocking_threshold _)); [done|].
  destruct (_ <=? mc) eqn:E2; [done|]. destruct (_ <=? lc) eqn:E3; [done|]. destruct (_ <=? sc) eqn:E4; [done|].
  intros _. propify. lia.
Qed.

(** What one check does to the recorded requests of its peer. *)
Definition request_recorded now (before after : list Z) (res : option Reason) : Prop :=
  let kept := drop_old (now - long_window config) before in
  match res with
  | Some _ => after = before \/ after = kept
  | None => after = kept ++ [now] /\ count_after (now - short_window config) kept < max_burst config /\
      count_after (now - medium_window config) kept < max_requests_per_minute config /\
      Z.of_nat (length kept) < max_requests_per_hour config
  end.

Lemma count_request_requests now s p s1 res :
  count_request rnd config has_callback now s p = (s1, res) ->
  (forall q, p <> q -> dget (peer_requests s1) q = dget (peer_requests s) q) /\
  request_recorded now (requests_of s p) (requests_of s1 p) res.
Proof using Type.
  unfold count_request, request_recorded. fold (requests_of s p). set (kept := drop_old _ _).
  destruct (detect_threat _ _ _ _ _ _ _) as [[r level]|] eqn:Ed; intros; simplify_eq; unfold requests_of at 1.
  - rewrite handle_threat_requests. cbn [set_requests peer_requests]. split; [intros; by rewrite dget_dset_ne|].
    unfold requests_of. rewrite handle_threat_requests. cbn [set_requests peer_requests]. rewrite dget_dset_eq. by right.
  - apply not_a_threat in Ed. cbn [set_requests peer_requests]. split; [intros; by rewrite !dget_dset_ne|].
    cbn [set_requests peer_requests]. rewrite dget_dset_eq. cbn. tauto.
Qed.

Lemma check_requests now s p s1 res :
  check_rate_limit rnd config has_callback now s p = (s1, res) ->
  (forall q, p <> q -> dget (peer_requests s1) q = dget (peer_requests s) q) /\
  request_recorded now (requests_of s p) (requests_of s1 p) res.
Proof using Type.
  unfold check_rate_limit. case_bool_decide; [intros; simplify_eq; split; [done | by left]|].
  destruct (dget (blocked_peers s) p) as [u|]; [|by apply count_request_requests].
  destruct (now <? u); [intros; simplify_eq; split; [done | by left]|].
  intros H0. by apply count_request_requests in H0.
Qed.

(** *** The rates *)

Lemma drop_old_spec cutoff l : exists d, l = d ++ drop_old cutoff l /\ Forall (fun t => t < cutoff) d.
Proof using Type.
  induction l as [|t l (d & Hl & Hd)]; cbn [drop_old]; [by exists []|]. destruct (t <? cutoff) eqn:E; propify.
  - exists (t :: d). cbn. rewrite <- Hl. auto.
  - by exists [].
Qed.

(** The requests recorded for a peer are the allowed ones, apart from some that are out of every window. *)
Definition recorded s p (allowed : list Z) (last : Z) : Prop :=
  exists dropped, allowed = dropped ++ requests_of s p /\ Forall (fun t => t < last - long_window config) dropped /\
    Forall (fun t => t <= last) allowed.

(** The windows of length [w] that end at [T], without and with their first moment. *)
Definition open_window (w T t : Z) : Prop := T - w < t.
Definition closed_window (w T t : Z) : Prop := T - w <= t.
#[local] Instance open_window_dec w T t : Decision (open_window w T t) := Z_lt_dec _ _.
#[local] Instance closed_window_dec w T t : Decision (closed_window w T t) := Z_le_dec _ _.

(** At most [m] of the times lie in any such window. *)
Definition rate_ok (lo : Z -> Z -> Prop) `{forall T t, Decision (lo T t)} (m : Z) (l : list Z) : Prop :=
  forall T, Z.of_nat (length (filter (fun t => lo T t /\ t <= T) l)) <= m.

Lemma rate_ok_snoc (lo : Z -> Z -> Prop) `{forall T t, Decision (lo T t)} m l now :
  (forall T t, now <= T -> lo T t -> lo now t) ->
  rate_ok lo m l -> Z.of_nat (length (filter (lo now) l)) < m -> rate_ok lo m (l ++ [now]).
Proof using Type.
  intros Hlo Hr Hm T. rewrite filter_app, length_app. destruct (decide (T < now)) as [Ht|Ht].
  - rewrite (filter_cons_False _ now) by lia. cbn. specialize (Hr T). lia.
  - assert (Hle : (length (filter (fun t => lo T t /\ (t <= T)%Z) l) <= length (filter (lo now) l))%nat).
    { clear -Hlo Ht. induction l as [|t l IH]; [done|]. rewrite !filter_cons.
      destruct (decide (lo T t /\ t <= T)) as [[H1 _]|]; [rewrite decide_True by (apply (Hlo T); [lia|done]); cbn; lia|].
      destruct (decide (lo now t)); cbn; lia. }
    assert (length (filter (fun t => lo T t /\ (t <= T)%Z) [now]) <= 1)%nat.
    { etrans; [apply length_filter|done]. }
    lia.
Qed.

(** The dropped requests are not counted by a window that starts later. *)
Lemma filter_dropped (P : Z -> Prop) `{forall t, Decision (P t)} (d l : list Z) bound :
  Forall (fun t => t < bound) d -> (forall t, P t -> bound <= t) -> filter P (d ++ l) = filter P l.
Proof using Type.
  intros Hd HP. rewrite filter_app. replace (filter P d) with (@nil Z); [done|]. symmetry.
  induction Hd as [|t d Ht Hd IH]; [done|]. rewrite filter_cons_False; [done|]. intros Hp. specialize (HP t Hp). lia.
Qed.

Record rates_ok (l : list Z) : Prop := {
  burst_ok : rate_ok (open_window (short_window config)) (max_burst config) l;
  minute_ok : rate_ok (open_window (medium_window config)) (max_requests_per_minute config) l;
  hour_ok : rate_ok (closed_window (long_window config)) (max_requests_per_hour config) l;
}.

Hypothesis windows : 0 <= short_window config <= long_window config /\ 0 <= medium_window config <= long_window config.

Lemma rates_step s p now s1 res allowed last :
  check_rate_limit rnd config has_callback now s p = (s1, res) -> last <= now ->
  recorded s p allowed last -> rates_ok allowed ->
  let allowed' := allowed ++ match res with None => [now] | Some _ => [] end in
  recorded s1 p allowed' now /\ rates_ok allowed'.
Proof using windows.
  intros Hc Hle (d & Hd & Hold & Hall) Hr allowed'. apply check_requests in Hc as [_ Hc].
  unfold request_recorded in Hc. destruct (drop_old_spec (now - long_window config) (requests_of s p)) as (d' & Hk & Hd').
  set (kept := drop_old _ _) in *. assert (Hdd : Forall (fun t => t < now - long_window config) (d ++ d')).
  { apply Forall_app. split; [|done]. eapply Forall_impl; [exact Hold|]. simpl. lia. }
  assert (Hal : allowed = (d ++ d') ++ kept) by (rewrite Hd, Hk at 1; apply app_assoc).
  assert (Hnow : Forall (fun t => t <= now) allowed) by (eapply Forall_impl; [exact Hall|]; simpl; lia).
  subst allowed'. destruct res as [r|].
  - rewrite app_nil_r. split; [|done]. destruct Hc as [Hc|Hc].
    + exists d. rewrite Hc. split_and!; [done| |done]. eapply Forall_impl; [exact Hold|]. simpl. lia.
    + exists (d ++ d'). by rewrite Hc.
  - destruct Hc as (Hs1 & Hb & Hm & Hh). split.
    + exists (d ++ d'). rewrite Hs1, Hal, <- app_assoc. split_and!; [done|done|].
      rewrite app_assoc, <- Hal. apply Forall_app. split; [done|]. by repeat constructor.
    + unfold count_after in Hb, Hm. destruct Hr as [R1 R2 R3]. split; apply rate_ok_snoc; auto;
        unfold open_window, closed_window; try lia; rewrite Hal, (filter_dropped _ _ _ _ Hdd) by lia; [done|done|].
      pose proof (length_filter (fun t => now - long_window config <= t) kept). lia.
Qed.

Lemma recorded_later s s' p allowed last now :
  dget (peer_requests s') p = dget (peer_requests s) p -> last <= now ->
  recorded s p allowed last -> recorded s' p allowed now.
Proof using Type.
  intros Hs Hle (d & Hd & Ho & Ha). exists d. unfold requests_of in *. rewrite Hs.
  split_and!; [done|eapply Forall_impl; [exact Ho|]; simpl; lia|eapply Forall_impl; [exact Ha|]; simpl; lia].
Qed.

Lemma allowed_times_app p l1 l2 : allowed_times p (l1 ++ l2) = allowed_times p l1 ++ allowed_times p l2.
Proof using Type. unfold allowed_times. by rewrite filter_app, fmap_app. Qed.

Lemma run_rates l : forall s p allowed last,
  recorded s p allowed last -> rates_ok allowed -> Sorted Z.le (last :: map fst l) ->
  rates_ok (allowed ++ allowed_times p (run_limits s l).2).
Proof using windows.
  induction l as [|[now ev] l IH]; intros s p allowed last Hrec Hr Hs; cbn [run_limits]; [by rewrite app_nil_r|].
  cbn in Hs. apply Sorted_inv in Hs as [Hs Hle]. apply HdRel_inv in Hle.
  destruct (limit_step s (now, ev)) as [s1 o] eqn:E. destruct (run_limits s1 l) as [s2 os] eqn:E2. cbn [snd].
  rewrite allowed_times_app, app_assoc. replace os with (run_limits s1 l).2 by (by rewrite E2).
  destruct ev as [q|q r]; cbn [limit_step] in E.
  - destruct (check_rate_limit rnd config has_callback now s q) as [s' res] eqn:Ec.
    destruct (decide (q = p)) as [->|Hne].
    + destruct (rates_step _ _ _ _ _ _ _ Ec Hle Hrec Hr) as [Hrec' Hr'].
      assert (Ho : allowed_times p o = match res with None => [now] | Some _ => [] end /\ s1 = s').
      { destruct res; simplify_eq; [done|]. unfold allowed_times. by rewrite filter_cons_True. }
      destruct Ho as [-> ->]. by apply (IH s' p _ now).
    + assert (Ho : allowed_times p o = [] /\ s1 = s').
      { destruct res; simplify_eq; [done|]. unfold allowed_times. by rewrite filter_cons_False by done. }
      destruct Ho as [-> ->]. rewrite app_nil_r. apply (IH s' p _ now); auto. eapply recorded_later; [|exact Hle|done].
      apply check_requests in Ec as [Hq _]. auto.
  - simplify_eq. cbn. rewrite app_nil_r. apply (IH _ p _ now); auto. eapply recorded_later; [|exact Hle|done].
    by rewrite record_violation_requests.
Qed.

(** *** Blocks *)

Lemma handle_threat_other now s p q level r : p <> q ->
  dget (blocked_peers (handle_threat config has_callback now s p level r)) q = dget (blocked_peers s) q /\
  violations (handle_threat config has_callback now s p level r) q = violations s q.
Proof using Type.
  intros Hne. unfold handle_threat, ban_peer_ip, block_peer, violations, count_of.
  destruct level; [..|destruct (_ && _); [case_bool_decide|]];
    cbn [set_blocked count_violation escalate blocked_peers violation_counts];
    unfold bump; by rewrite ?dget_dset_ne.
Qed.

Lemma handle_threat_violations now s p level r :
  violations (handle_threat config has_callback now s p level r) p = violations s p + 1.
Proof using Type.
  unfold handle_threat, ban_peer_ip, block_peer, violations, count_of.
  destruct level; [..|destruct (_ && _); [case_bool_decide|]];
    cbn [set_blocked count_violation escalate blocked_peers violation_counts];
    unfold bump; by rewrite dget_dset_eq.
Qed.

Lemma count_violation_eq s p q : violations (count_violation s p) q = violations s q + (if decide (p = q) then 1 else 0).
Proof using Type.
  unfold violations, count_violation, count_of, bump. cbn [violation_counts].
  destruct (decide (p = q)) as [->|]; [by rewrite dget_dset_eq | rewrite dget_dset_ne by done; lia].
Qed.

Lemma record_violation_mono now s p r q :
  violations s q <= violations (record_violation config has_callback now s p r) q /\
  dget (blocked_peers (record_violation config has_callback now s p r)) q = dget (blocked_peers s) q.
Proof using Type.
  unfold record_violation. pose proof (count_violation_eq s p q) as Hc. destruct (_ <=? _).
  - destruct (decide (p = q)) as [->|Hne].
    + rewrite handle_threat_violations. split; [lia|done].
    + destruct (handle_threat_other now (count_violation s p) p q SUSPICIOUS (RRepeated r) Hne) as [-> ->].
      split; [lia|done].
  - split; [destruct (decide _); lia|done].
Qed.

Lemma count_request_other now s p q s1 res : p <> q ->
  count_request rnd config has_callback now s p = (s1, res) ->
  dget (blocked_peers s1) q = dget (blocked_peers s) q /\ violations s1 q = violations s q.
Proof using Type.
  intros Hne. unfold count_request. set (kept := drop_old _ _).
  destruct (detect_threat _ _ _ _ _ _ _) as [[r level]|]; intros; simplify_eq; [|done].
  apply (handle_threat_other now (set_requests s (dset (peer_requests s) p kept)) p q level r Hne).
Qed.

Lemma check_other now s p q s1 res : p <> q ->
  check_rate_limit rnd config has_callback now s p = (s1, res) ->
  dget (blocked_peers s1) q = dget (blocked_peers s) q /\ violations s1 q = violations s q.
Proof using Type.
  intros Hne. unfold check_rate_limit. case_bool_decide; [intros; by simplify_eq|].
  destruct (dget (blocked_peers s) p) as [u|]; [|by apply count_request_other].
  destruct (now <? u); [intros; by simplify_eq|]. intros Hc. apply (count_request_other _ _ _ _ _ _ Hne) in Hc as [-> ->].
  cbn [set_blocked blocked_peers]. by rewrite dget_ddel_ne.
Qed.

Lemma step_blocked s now ev s1 o p u :
  dget (blocked_peers s) p = Some u -> now < u -> limit_step s (now, ev) = (s1, o) ->
  dget (blocked_peers s1) p = Some u /\ allowed_times p o = [].
Proof using Type.
  intros Hb Hu. destruct ev as [q|q r]; cbn [limit_step].
  - destruct (decide (q = p)) as [->|Hne].
    + unfold check_rate_limit. case_bool_decide; [intros; by simplify_eq|]. rewrite Hb.
      rewrite (proj2 (Z.ltb_lt _ _)) by done. intros. by simplify_eq.
    + destruct (check_rate_limit _ _ _ _ _ _) as [s' res] eqn:Ec. apply (check_other _ _ _ _ _ _ Hne) in Ec as [Hq _].
      rewrite Hb in Hq. destruct res; intros; simplify_eq; [done|]. split; [done|].
      unfold allowed_times. by rewrite filter_cons_False by done.
  - intros. simplify_eq. split; [|done]. by rewrite (proj2 (record_violation_mono now s q r p)).
Qed.

Lemma step_locked s now ev s1 o p :
  ip_ban_violation_count config <= violations s p -> limit_step s (now, ev) = (s1, o) ->
  ip_ban_violation_count config <= violations s1 p /\ allowed_times p o = [].
Proof using Type.
  intros Hv. destruct ev as [q|q r]; cbn [limit_step].
  - destruct (decide (q = p)) as [->|Hne].
    + assert (Hcount : forall s0 s' res, violations s0 p = violations s p ->
        count_request rnd config has_callback now s0 p = (s', res) ->
        ip_ban_violation_count config <= violations s' p /\ res <> None).
      { intros s0 s' res Hs0. unfold count_request. set (kept := drop_old _ _).
        destruct (detect_threat _ _ _ _ _ _ _) as [[r level]|] eqn:Ed; intros; simplify_eq.
        - rewrite handle_threat_violations. split; [|done].
          change (violations (set_requests s0 _) p) with (violations s0 p). lia.
        - apply not_a_threat in Ed as (_ & _ & _ & Hlt).
          change (violations (set_requests s0 _) p) with (violations s0 p) in Hlt. lia. }
      destruct (check_rate_limit _ _ _ _ _ _) as [s' res] eqn:Ec.
      assert (Hs' : ip_ban_violation_count config <= violations s' p /\ res <> None).
      { unfold check_rate_limit in Ec. case_bool_decide; [by simplify_eq|].
        destruct (dget (blocked_peers s) p) as [u|]; [|by eapply Hcount].
        destruct (now <? u); [by simplify_eq|]. by eapply Hcount in Ec. }
      destruct Hs' as [Hs' Hres]. destruct res; [|done]. intros. by simplify_eq.
    + destruct (check_rate_limit _ _ _ _ _ _) as [s' res] eqn:Ec. apply (check_other _ _ _ _ _ _ Hne) in Ec as [_ Hq].
      destruct res; intros; simplify_eq; (split; [lia|]); [done|].
      unfold allowed_times. by rewrite filter_cons_False by done.
  - intros. simplify_eq. split; [|done]. pose proof (proj1 (record_violation_mono now s q r p)). lia.
Qed.

(** As long as a property of the state refuses a peer, no request of the peer is allowed. *)
Lemma run_refused (P : Limits -> Prop) (Q : Z -> Prop) p :
  (forall s now ev s1 o, P s -> Q now -> limit_step s (now, ev) = (s1, o) -> P s1 /\ allowed_times p o = []) ->
  forall l s, P s -> Forall (fun ev => Q ev.1) l -> allowed_times p (run_limits s l).2 = [].
Proof using Type.
  intros Hstep l. induction l as [|[now ev] l IH]; intros s Hs Hl; cbn [run_limits]; [done|].
  apply Forall_cons in Hl as [Hq Hl]. destruct (limit_step s (now, ev)) as [s1 o] eqn:E.
  destruct (Hstep _ _ _ _ _ Hs Hq E) as [Hs1 Ho]. destruct (run_limits s1 l) as [s2 os] eqn:E2. cbn [snd].
  rewrite allowed_times_app, Ho. specialize (IH s1 Hs1 Hl). by rewrite E2 in IH.
Qed.
End Events.

(** ** Replay protection is that of the wrapped authorizer *)

Section LimitedNonces.
Context {A B C PrivateKey PublicKey : Type} `{NL : NonceLaws A B C} `{Lib : CryptoLib PrivateKey PublicKey}.
Context (rnd : Q -> Q) (config : RateLimitConfig) (has_callback : bool).
(** An accepted request was allowed by the limiter and accepted by the wrapped authorizer. *)
Lemma limited_accepts a env r a' r' :
  limited_validate_request (Lib := Lib) rnd config has_callback a env r = (a', Ok (r', true)) ->
  validate_request (inner_authorizer a) env r = (inner_authorizer a', Ok (r', true)) /\
  exists pk, load_public_key_from_bytes (tok_public_key (client_access_token (req_auth r))) = Ok pk /\
    check_rate_limit rnd config has_callback (env_now env) (limits a) (public_key_to_peer_id pk) = (limits a', None).
Proof using Type.
  unfold limited_validate_request. destruct (load_public_key_from_bytes _) as [pk|]; [|intros; by simplify_eq].
  destruct (check_rate_limit _ _ _ _ _ _) as [s1 [reason|]] eqn:Ec; [intros; by simplify_eq|].
  destruct (validate_request _ _ _) as [i1 [[r1 []]|]]; intros; simplify_eq. eauto.
Qed.

Definition limited_az : Authorizer (RateLimitAuthorizer A) B C := rate_limit_authorizer (Lib := Lib) rnd config has_callback.
Definition limited_nonces : NonceKeeper (RateLimitAuthorizer A) B C (Az := limited_az) :=
  fun a => nonces (inner_authorizer a).

Lemma limited_nonce_laws : NonceLaws (RateLimitAuthorizer A) B C (Az := limited_az) (NK := limited_nonces).
Proof using NL.
  split; unfold nonces at 1, limited_nonces; cbn [validate_request limited_az rate_limit_authorizer].
  - intros a env r a' res Hok. unfold limited_validate_request, nonces at 1.
    destruct (load_public_key_from_bytes _) as [pk|]; [|intros; by simplify_eq].
    destruct (check_rate_limit _ _ _ _ _ _) as [s1 [reason|]]; [intros; by simplify_eq|].
    destruct (validate_request (inner_authorizer a) env r) as [i1 res1] eqn:E.
    pose proof (keeps_nonces _ _ _ _ _ Hok E) as Hk. destruct res1 as [[r1 []]|]; intros; by simplify_eq.
  - intros a env r a' r' Hok Hacc. apply limited_accepts in Hacc as [Hin _]. by apply (accepts_new _ _ _ _ _ Hok Hin).
Qed.
End LimitedNonces.

(** * Theorems *)

(** C25: the limits hold.  However the critical sections of concurrent requests interleave, on a clock that does not go
    back, the requests allowed to a peer never exceed the configured numbers in any window: the burst limit in the
    short window, the limit per minute in the medium one and the limit per hour in the long one, although old
    requests are forgotten on the way. *)
Theorem rate_limits_hold (rnd : Q -> Q) (config : RateLimitConfig) (has_callback : bool)
    (l : list (Z * limit_event)) (p : bytes) :
  0 <= short_window config <= long_window config /\ 0 <= medium_window config <= long_window config ->
  0 <= max_burst config /\ 0 <= max_requests_per_minute config /\ 0 <= max_requests_per_hour config ->
  Sorted Z.le (map fst l) ->
  rates_ok config (allowed_times p (run_limits rnd config has_callback limits_init l).2).
Proof.
  intros Hw (H1 & H2 & H3) Hs. destruct l as [|[t ev] l]; [by split; intros T|].
  apply (run_rates rnd config has_callback Hw ((t, ev) :: l) limits_init p [] t).
  - exists []. by split_and!.
  - by split; intros T.
  - cbn in *. constructor; [done|]. by constructor.
Qed.

(** A block is respected and a record of violations is never forgotten.  After a peer has exceeded the limit per
    minute or per hour, none of its requests is allowed before the block is over; and once its violations reach the
    configured count, none of its requests is ever allowed again, although each block is temporary. *)
Theorem blocked_stays_blocked (rnd : Q -> Q) (config : RateLimitConfig) (has_callback : bool)
    (s : Limits) (p : bytes) (l : list (Z * limit_event)) :
  (forall now s1 r, check_rate_limit rnd config has_callback now s p = (s1, Some r) ->
     match r with RPerMinute _ | RPerHour _ => True | _ => False end ->
     Forall (fun ev => ev.1 < now + temp_block_duration config) l ->
     allowed_times p (run_limits rnd config has_callback s1 l).2 = []) /\
  (ip_ban_violation_count config <= violations s p -> allowed_times p (run_limits rnd config has_callback s l).2 = []).
Proof.
  split.
  - intros now s1 r Hc Hr Hl. assert (Hb : dget (blocked_peers s1) p = Some (now + temp_block_duration config)).
    { revert Hc. unfold check_rate_limit. case_bool_decide; [intros; by simplify_eq|].
      assert (Hcount : forall s0, count_request rnd config has_callback now s0 p = (s1, Some r) ->
        dget (blocked_peers s1) p = Some (now + temp_block_duration config)).
      { intros s0. unfold count_request. set (kept := drop_old _ _). unfold detect_threat.
        repeat match goal with |- context [if ?b then Some (_, _) else _] => destruct b end; intros; simplify_eq; try done;
          unfold handle_threat; cbn [block_peer set_blocked blocked_peers]; by rewrite dget_dset_eq. }
      destruct (dget (blocked_peers s) p) as [u|]; [|apply Hcount].
      destruct (now <? u); [intros; by simplify_eq|apply Hcount]. }
    eapply (run_refused rnd config has_callback (fun s => dget (blocked_peers s) p = Some (now + temp_block_duration config))
      (fun t => t < now + temp_block_duration config)); [|done|done].
    intros s2 t ev s3 o H2 Ht Hst. by eapply step_blocked.
  - intros Hv. eapply (run_refused rnd config has_callback (fun s => ip_ban_violation_count config <= violations s p)
      (fun _ => True)); [|done|by apply Forall_true].
    intros s2 t ev s3 o H2 _ Hst. by eapply step_locked.
Qed.

(** The OpenSSH text of an Ed25519 key: the type, and in base64 the length-prefixed type and the 32 bytes of the key. *)
Definition openssh_ed25519 (raw : bytes) : bytes :=
  lit "ssh-ed25519 " ++ b64encode ([0; 0; 0; 11] ++ lit "ssh-ed25519" ++ [0; 0; 0; 32] ++ raw).

(** All Ed25519 clients are one peer to the limiter: the first twenty bytes of the OpenSSH text of a public key are
    the same for every such key, so whoever exhausts the limits, or sends invalid requests, blocks all of them. *)
Theorem ed25519_clients_share_limits {PrivateKey PublicKey : Type} `{Lib : CryptoLib PrivateKey PublicKey}
    (pk pk' : PublicKey) (raw raw' : bytes) :
  public_to_bytes pk = openssh_ed25519 raw -> public_to_bytes pk' = openssh_ed25519 raw' ->
  public_key_to_peer_id pk = public_key_to_peer_id pk'.
Proof. unfold public_key_to_peer_id. intros -> ->. reflexivity. Qed.

(** ** Witnesses *)

Definition small_config : RateLimitConfig := mkConfig 10 2 5 20 (3 # 2) 3 5 1 60 3600 300 3600 false 10.

Lemma rate_limits_hold_witness :
  let l := map (fun t => (t, ECheck [1])) [10; 20; 30; 330; 340; 400] in
  allowed_times [1] (run_limits id small_config false limits_init l).2 = [10; 20; 330; 340; 400] /\
  rates_ok small_config (allowed_times [1] (run_limits id small_config false limits_init l).2).
Proof.
  intros l. split; [vm_compute; reflexivity|].
  apply (rate_limits_hold id small_config false l [1]); [simpl; lia..|]. repeat constructor; simpl; lia.
Defined.

Lemma blocked_stays_blocked_witness :
  allowed_times [1] (run_limits id small_config false
    (check_rate_limit id small_config false 30 (run_limits id small_config false limits_init [(10, ECheck [1]); (20, ECheck [1])]).1 [1]).1
    [(31, ECheck [1]); (329, ECheck [1])]).2 = [].
Proof.
  apply (proj1 (blocked_stays_blocked id small_config false
    (run_limits id small_config false limits_init [(10, ECheck [1]); (20, ECheck [1])]).1 [1] [(31, ECheck [1]); (329, ECheck [1])])
    30 _ (RPerMinute 2)); [vm_compute; reflexivity | exact I | repeat constructor; vm_compute; reflexivity].
Defined.

(** Keys that are the 32 bytes. *)
Definition ssh_lib : CryptoLib bytes bytes := {|
  raw_sign sk m := []; get_public_key sk := sk; public_to_bytes := openssh_ed25519;
  load_rsa_key _ := Raise ValueError; load_ed25519_key _ := Raise ValueError; raw_verify _ _ _ := false;
  dumps_record _ := [];
|}.

Lemma ed25519_clients_share_limits_witness :
  public_key_to_peer_id (Lib := ssh_lib) (replicate 32 1) = public_key_to_peer_id (Lib := ssh_lib) (replicate 32 2).
Proof. apply (ed25519_clients_share_limits (Lib := ssh_lib) _ _ (replicate 32 1) (replicate 32 2)); reflexivity. Defined.
