(* ===== verification/Epoch.v ===== *)
(** * Epochs ([EpochData] and the epoch arithmetic of [mesh/substrate/chain_functions.py] and of
    its mock, [mesh/substrate/mock/chain_functions.py])

    The block number and the epoch length are read from the chain; [percent_complete] is
    the exact ratio. *)

From Stdlib Require Import QArith String.
From stdpp Require Import strings.
From S2P Require Import Prelude.

#[global] Open Scope Z_scope.

Definition BLOCK_SECS : Z := 6.
Definition EPOCH_LENGTH : Z := 300.

Record EpochData : Type := mkEpochData {
  block : Z;
  epoch : Z;
  block_per_epoch : Z;
  seconds_per_epoch : Z;
  percent_complete : Q;
  blocks_elapsed : Z;
  blocks_remaining : Z;
  seconds_elapsed : Z;
  seconds_remaining : Z;
}.

(** [a / b] on integers *)
Definition ratio (a b : Z) : Q := (inject_Z a / inject_Z b)%Q.

(** [EpochData.zero] *)
Definition epoch_zero (current_block epoch_length : Z) : EpochData :=
  mkEpochData current_block 0 epoch_length (epoch_length * BLOCK_SECS) 0 0 epoch_length 0
    (epoch_length * BLOCK_SECS).

(** The record for [blocks] blocks after the start of epoch 0. *)
Definition epoch_at (current_block epoch_length blocks : Z) : result EpochData :=
  if epoch_length =? 0 then Raise ZeroDivisionError
  else
    let elapsed := blocks mod epoch_length in
    let remaining := epoch_length - elapsed in
    Ok (mkEpochData current_block (blocks / epoch_length) epoch_length (epoch_length * BLOCK_SECS)
          (ratio elapsed epoch_length) elapsed remaining (elapsed * BLOCK_SECS) (remaining * BLOCK_SECS)).

(** [get_epoch_data] *)
Definition get_epoch_data (current_block epoch_length : Z) : result EpochData :=
  epoch_at current_block epoch_length current_block.

(** [get_subnet_epoch_data] of the chain client *)
Definition get_subnet_epoch_data (current_block epoch_length slot : Z) : result EpochData :=
  if current_block <? slot then Ok (epoch_zero current_block epoch_length)
  else epoch_at current_block epoch_length (current_block - slot).

(** [get_subnet_epoch_data] of the mock chain: no special case before the slot *)
Definition mock_get_subnet_epoch_data (current_block epoch_length slot : Z) : result EpochData :=
  epoch_at current_block epoch_length (current_block - slot).

(** A dataclass called with keyword arguments: a missing or unknown field is a [TypeError]. *)
Definition dataclass_init {X} (fields : list string) (kwargs : list (string * X)) : result (list (string * X)) :=
  if forallb (fun f => bool_decide (f ∈ kwargs.*1)) fields &&
     forallb (fun k => bool_decide (k ∈ fields)) kwargs.*1
  then Ok kwargs else Raise TypeError.

(** The fields of [OverwatchEpochData]; none has a default. *)
Definition overwatch_fields : list string :=
  ["block"; "epoch"; "overwatch_epoch"; "block_per_epoch"; "seconds_per_epoch"; "percent_complete";
   "blocks_elapsed"; "blocks_remaining"; "seconds_elapsed"; "seconds_remaining";
   "seconds_remaining_until_reveal"]%string.

(** [get_overwatch_epoch_data]; [cutoff] is the commit cutoff scaled by [1e18]. *)
Definition get_overwatch_epoch_data (current_block epoch_length multiplier cutoff : Z)
    : result (list (string * Q)) :=
  let* e := get_epoch_data current_block epoch_length in
  let overwatch_epoch_length := epoch_length * multiplier in
  let cutoff_percentage := ratio cutoff (10 ^ 18) in
  let block_increase_cutoff := (inject_Z overwatch_epoch_length * cutoff_percentage)%Q in
  let epoch_cutoff_block := (inject_Z (overwatch_epoch_length * epoch e) + block_increase_cutoff)%Q in
  let until_reveal := if Qle_bool (inject_Z current_block) epoch_cutoff_block
                      then (epoch_cutoff_block - inject_Z current_block)%Q else 0%Q in
  dataclass_init overwatch_fields
    [("block", inject_Z (block e)); ("epoch", inject_Z (epoch e));
     ("block_per_epoch", inject_Z (block_per_epoch e)); ("seconds_per_epoch", inject_Z (seconds_per_epoch e));
     ("percent_complete", percent_complete e); ("blocks_elapsed", inject_Z (blocks_elapsed e));
     ("blocks_remaining", inject_Z (blocks_remaining e)); ("seconds_elapsed", inject_Z (seconds_elapsed e));
     ("seconds_remaining", inject_Z (seconds_remaining e)); ("seconds_remaining_until_reveal", until_reveal)]%string.

(** ** Lemmas *)

(** Position in time: epoch, then progress within it. *)
Definition at_or_before (a b : EpochData) : Prop :=
  epoch a < epoch b \/ epoch a = epoch b /\ (percent_complete a <= percent_complete b)%Q.

Lemma ratio_le a b n : 0 < n -> (ratio a n <= ratio b n)%Q <-> a <= b.
Proof.
  intros Hn. unfold ratio, Qle, Qdiv, Qmult, Qinv, inject_Z. simpl. destruct n; [lia| |lia]. simpl. nia.
Qed.

Lemma ratio_bounds a n : 0 <= a < n -> (0 <= ratio a n)%Q /\ (ratio a n < 1)%Q.
Proof.
  intros Ha. unfold ratio, Qle, Qlt, Qdiv, Qmult, Qinv, inject_Z. simpl. destruct n; [lia| |lia]. simpl. nia.
Qed.

(** A consistent epoch record. *)
Record epoch_ok (len : Z) (e : EpochData) : Prop := {
  eo_elapsed : 0 <= blocks_elapsed e < len;
  eo_remaining : blocks_elapsed e + blocks_remaining e = len;
  eo_seconds : seconds_elapsed e + seconds_remaining e = seconds_per_epoch e;
  eo_percent : (0 <= percent_complete e)%Q /\ (percent_complete e < 1)%Q;
}.

Lemma epoch_at_spec current_block len blocks : 0 < len ->
  exists e, epoch_at current_block len blocks = Ok e /\ epoch_ok len e /\
    blocks = epoch e * len + blocks_elapsed e /\ percent_complete e = ratio (blocks_elapsed e) len.
Proof.
  intros Hl. unfold epoch_at. rewrite (proj2 (Z.eqb_neq len 0)) by lia. eexists. split; [done|].
  pose proof (Z.mod_pos_bound blocks len Hl). pose proof (Z.div_mod blocks len ltac:(lia)).
  split; [|simpl; split; [lia|done]]. split; simpl; try lia. by apply ratio_bounds.
Qed.

Lemma epoch_at_mono b1 b2 len n1 n2 e1 e2 : 0 < len -> n1 <= n2 ->
  epoch_at b1 len n1 = Ok e1 -> epoch_at b2 len n2 = Ok e2 -> at_or_before e1 e2.
Proof.
  intros Hl Hn H1 H2. destruct (epoch_at_spec b1 len n1 Hl) as (e1' & H1' & Ho1 & Hn1 & Hp1).
  destruct (epoch_at_spec b2 len n2 Hl) as (e2' & H2' & Ho2 & Hn2 & Hp2).
  rewrite H1 in H1'. rewrite H2 in H2'. simplify_eq. unfold at_or_before.
  destruct Ho1 as [B1 _ _ _], Ho2 as [B2 _ _ _].
  destruct (Z_lt_le_dec (epoch e1') (epoch e2')); [by left|]. right.
  assert (epoch e1' = epoch e2') by nia. split; [done|]. rewrite Hp1, Hp2. apply ratio_le; [done|]. nia.
Qed.

(** * Theorems *)

(** The epoch data of a subnet is consistent at every block (the elapsed and the
    remaining blocks add up to the epoch, progress is in [0, 1)) and never goes back: a later
    block is in a later epoch or further into the same one. *)
Theorem subnet_epoch_data_monotone (len slot b1 b2 : Z) :
  0 < len -> b1 <= b2 ->
  exists e1 e2, get_subnet_epoch_data b1 len slot = Ok e1 /\ get_subnet_epoch_data b2 len slot = Ok e2 /\
    epoch_ok len e1 /\ epoch_ok len e2 /\ at_or_before e1 e2.
Proof.
  intros Hl Hb. unfold get_subnet_epoch_data.
  destruct (epoch_at_spec b1 len (b1 - slot) Hl) as (x1 & E1 & O1 & N1 & P1).
  destruct (epoch_at_spec b2 len (b2 - slot) Hl) as (x2 & E2 & O2 & N2 & P2).
  assert (Hz : forall b, epoch_ok len (epoch_zero b len)).
  { intros b. split; simpl; try lia; done. }
  destruct (b1 <? slot) eqn:L1, (b2 <? slot) eqn:L2; propify; [|..].
  - exists (epoch_zero b1 len), (epoch_zero b2 len). split_and!; auto. right. simpl. split; [done|]. apply Qle_refl.
  - exists (epoch_zero b1 len), x2. split_and!; auto. unfold at_or_before. simpl.
    destruct O2 as [B2 _ _ [Q2 _]]. assert (0 <= epoch x2) by nia.
    destruct (Z_lt_le_dec 0 (epoch x2)); [by left|right]. split; [lia|done].
  - lia.
  - exists x1, x2. split_and!; auto. eapply (epoch_at_mono b1 b2 len (b1 - slot) (b2 - slot)); auto. lia.
Qed.

Lemma subnet_epoch_data_monotone_witness :
  exists e1 e2, get_subnet_epoch_data 2 300 3 = Ok e1 /\ get_subnet_epoch_data 453 300 3 = Ok e2 /\
    epoch e1 = 0 /\ epoch e2 = 1 /\ blocks_elapsed e2 = 150 /\ at_or_before e1 e2.
Proof.
  destruct (subnet_epoch_data_monotone 300 3 2 453) as (e1 & e2 & H1 & H2 & _ & _ & H); [lia|lia|].
  exists e1, e2. vm_compute in H1, H2. injection H1 as <-. injection H2 as <-. by split_and!.
Defined.

(** [get_overwatch_epoch_data] never returns: the call of [OverwatchEpochData(...)] lacks the
    required field [overwatch_epoch], so it raises [TypeError] for every state of the chain. *)
Theorem overwatch_epoch_data_fails current_block epoch_length multiplier cutoff :
  epoch_length <> 0 ->
  get_overwatch_epoch_data current_block epoch_length multiplier cutoff = Raise TypeError.
Proof.
  intros Hne. unfold get_overwatch_epoch_data, get_epoch_data, epoch_at.
  rewrite (proj2 (Z.eqb_neq _ _) Hne). reflexivity.
Qed.

Lemma overwatch_epoch_data_fails_witness : get_overwatch_epoch_data 1000 300 2 (8 * 10 ^ 17) = Raise TypeError.
Proof. apply (overwatch_epoch_data_fails 1000 300 2 (8 * 10 ^ 17)). lia. Defined.
