(* ===== verification/ChainClient.v ===== *)
(** * The chain client ([mesh/substrate/chain_functions.py], class [Hypertensor])

    Every method of the client is an extrinsic (a signed call that changes the chain) or a query, wrapped in a retry of the
    package [tenacity].  An extrinsic is modelled by the call it composes and by the place where it is signed: anew in every
    attempt, with the nonce of that moment, or once before the first attempt.  The chain and the network between are
    parameters: an interface with the rules of account nonces that the code relies on.  Values that the chain returns
    are JSON-like. *)

From S2P Require Import Prelude DHTID Base58 HashTable Framing PeerIdentity Text Epoch.

(** ** Retries *)

(** One attempt: a value, the [SubstrateRequestException] that the inner [try] logs (so that [None] is returned), or
    another exception. *)
Inductive attempt (A : Type) : Type := Returned (a : A) | RequestFailed | OtherError (e : exn).
Arguments Returned {A} a.
Arguments RequestFailed {A}.
Arguments OtherError {A} e.

Definition MAX_ATTEMPTS : nat := 4.

(** [@retry(wait=wait_fixed(BLOCK_SECS+1), stop=stop_after_attempt(4))]: the state [c] is passed from attempt to attempt;
    the result, the number of attempts and the seconds waited *)
Fixpoint retry {C A N} (left : nat) (try_once : C -> N -> C * attempt A) (c : C) (net : list N) : C * option (result (option A) * nat * Z) :=
  match net, left with
  | [], _ | _, O => (c, None)
  | n :: net', S left' =>
      let '(c1, a) := try_once c n in
      match a with
      | Returned v => (c1, Some (Ok (Some v), 1%nat, 0))
      | RequestFailed => (c1, Some (Ok None, 1%nat, 0))
      | OtherError _ =>
          match left' with
          | O => (c1, Some (Raise RetryError, 1%nat, 0))
          | _ => let '(c2, r) := retry left' try_once c1 net' in
                 (c2, match r with Some (v, k, w) => Some (v, S k, BLOCK_SECS + 1 + w) | None => None end)
          end
      end
  end.

(** ** Extrinsics *)

Inductive Arg : Type :=
  | AInt (n : Z) | AText (s : text) | ABytes (b : bytes) | ANone | AList (l : list text) | AInts (l : list Z) | AAny (x : nat).
Definition opt_text (o : option text) : Arg := match o with Some s => AText s | None => ANone end.
Definition opt_any (o : option nat) : Arg := match o with Some x => AAny x | None => ANone end.

Record Call : Type := mkCall { call_module : string; call_function : string; call_params : list (string * Arg) }.

(** Signed in each attempt with the current nonce, or once. *)
Inductive signing : Type := FreshNonce | SignedOnce.
(** [swallow]: the whole is wrapped in [try: ... except Exception: log]. *)
Record Extrinsic : Type := mkExt { sign : signing; swallow : bool; ecall : Call }.

Definition network (f : string) (params : list (string * Arg)) : Call := mkCall "Network" f params.

Section Calls.
Local Open Scope string_scope.

(** [sorted(set(l))] *)
Definition sorted_set {A} `{EqDecision A} `{PyOrd A} (l : list A) : list A := py_sorted (remove_dups l).

Definition propose_attestation (subnet_id : Z) (data : nat) (prioritize remove args attest_data : option nat) : Extrinsic :=
  mkExt FreshNonce true (network "propose_attestation"
    [("subnet_id", AInt subnet_id); ("data", AAny data); ("prioritize_queue_node_id", opt_any prioritize);
     ("remove_queue_node_id", opt_any remove); ("args", opt_any args); ("attest_data", opt_any attest_data)]).

Definition attest (subnet_id : Z) (attest_data : option nat) : Extrinsic :=
  mkExt FreshNonce false (network "attest" [("subnet_id", AInt subnet_id); ("attest_data", opt_any attest_data)]).

Record SubnetRegistration : Type := mkSubnetRegistration {
  sr_hotkey : text; sr_max_cost : Z; sr_name : text; sr_repo : text; sr_description : text; sr_misc : text;
  sr_churn_limit : Z; sr_min_stake : Z; sr_max_stake : Z; sr_delegate_stake_percentage : Z; sr_subnet_node_queue_epochs : Z;
  sr_idle_classification_epochs : Z; sr_included_classification_epochs : Z; sr_max_node_penalties : Z;
  sr_max_registered_nodes : Z; sr_initial_coldkeys : list text; sr_key_types : list Z; sr_bootnodes : list text }.

Definition register_subnet (r : SubnetRegistration) : result Extrinsic :=
  let* name := utf8_encode (sr_name r) in
  let* repo := utf8_encode (sr_repo r) in
  let* description := utf8_encode (sr_description r) in
  let* misc := utf8_encode (sr_misc r) in
  Ok (mkExt SignedOnce false (network "register_subnet"
    [("hotkey", AText (sr_hotkey r)); ("max_cost", AInt (sr_max_cost r));
     ("subnet_data.name", ABytes name); ("subnet_data.repo", ABytes repo); ("subnet_data.description", ABytes description);
     ("subnet_data.misc", ABytes misc); ("subnet_data.churn_limit", AInt (sr_churn_limit r));
     ("subnet_data.min_stake", AInt (sr_min_stake r)); ("subnet_data.max_stake", AInt (sr_max_stake r));
     ("subnet_data.delegate_stake_percentage", AInt (sr_delegate_stake_percentage r));
     ("subnet_data.subnet_node_queue_epochs", AInt (sr_subnet_node_queue_epochs r));
     ("subnet_data.idle_classification_epochs", AInt (sr_idle_classification_epochs r));
     ("subnet_data.included_classification_epochs", AInt (sr_included_classification_epochs r));
     ("subnet_data.max_node_penalties", AInt (sr_max_node_penalties r));
     ("subnet_data.max_registered_nodes", AInt (sr_max_registered_nodes r));
     ("subnet_data.initial_coldkeys", AList (sorted_set (sr_initial_coldkeys r)));
     ("subnet_data.key_types", AInts (sorted_set (sr_key_types r)));
     ("subnet_data.bootnodes", AList (sorted_set (sr_bootnodes r)))])).

Definition activate_subnet (subnet_id : Z) : Extrinsic := mkExt FreshNonce false (network "activate_subnet" [("subnet_id", AInt subnet_id)]).
Definition remove_subnet (subnet_id : Z) : Extrinsic := mkExt SignedOnce false (network "remove_subnet" [("subnet_id", AInt subnet_id)]).

Record NodeRegistration : Type := mkNodeRegistration {
  nr_subnet_id : Z; nr_hotkey : text; nr_peer_id : text; nr_bootnode_peer_id : text; nr_client_peer_id : text;
  nr_delegate_reward_rate : Z; nr_stake_to_be_added : Z; nr_bootnode : option text; nr_unique : option text; nr_non_unique : option text }.

Definition node_params (r : NodeRegistration) : list (string * Arg) :=
  [("subnet_id", AInt (nr_subnet_id r)); ("hotkey", AText (nr_hotkey r)); ("peer_id", AText (nr_peer_id r));
   ("bootnode_peer_id", AText (nr_bootnode_peer_id r)); ("client_peer_id", AText (nr_client_peer_id r));
   ("bootnode", opt_text (nr_bootnode r)); ("delegate_reward_rate", AInt (nr_delegate_reward_rate r));
   ("stake_to_be_added", AInt (nr_stake_to_be_added r)); ("unique", opt_text (nr_unique r)); ("non_unique", opt_text (nr_non_unique r))].
Definition add_subnet_node (r : NodeRegistration) : Extrinsic := mkExt FreshNonce false (network "add_subnet_node" (node_params r)).
Definition register_subnet_node (r : NodeRegistration) (max_burn_amount : Z) : Extrinsic :=
  mkExt FreshNonce false (network "register_subnet_node" (node_params r ++ [("max_burn_amount", AInt max_burn_amount)])).

Definition node_call (f : string) (subnet_id subnet_node_id : Z) : Extrinsic :=
  mkExt FreshNonce false (network f [("subnet_id", AInt subnet_id); ("subnet_node_id", AInt subnet_node_id)]).
Definition activate_subnet_node := node_call "activate_subnet_node".
Definition deactivate_subnet_node := node_call "deactivate_subnet_node".
Definition remove_subnet_node := node_call "remove_subnet_node".

(** [own] is [self.keypair.ss58_address]. *)
Definition add_to_stake (own : text) (subnet_id subnet_node_id stake_to_be_added : Z) : Extrinsic :=
  mkExt FreshNonce false (network "add_to_stake"
    [("subnet_id", AInt subnet_id); ("subnet_node_id", AInt subnet_node_id); ("hotkey", AText own); ("stake_to_be_added", AInt stake_to_be_added)]).
Definition remove_stake (own : text) (subnet_id stake_to_be_removed : Z) : Extrinsic :=
  mkExt FreshNonce false (network "remove_stake"
    [("subnet_id", AInt subnet_id); ("hotkey", AText own); ("stake_to_be_removed", AInt stake_to_be_removed)]).
Definition claim_stake_unbondings : Extrinsic := mkExt FreshNonce false (network "claim_unbondings" []).
Definition add_to_delegate_stake (subnet_id stake_to_be_added : Z) : Extrinsic :=
  mkExt FreshNonce false (network "add_to_delegate_stake" [("subnet_id", AInt subnet_id); ("stake_to_be_added", AInt stake_to_be_added)]).
Definition transfer_delegate_stake (from_subnet_id to_subnet_id shares : Z) : Extrinsic :=
  mkExt FreshNonce false (network "transfer_delegate_stake"
    [("from_subnet_id", AInt from_subnet_id); ("to_subnet_id", AInt to_subnet_id); ("delegate_stake_shares_to_be_switched", AInt shares)]).
Definition remove_delegate_stake (subnet_id shares_to_be_removed : Z) : Extrinsic :=
  mkExt FreshNonce false (network "add_to_delegate_stake" [("subnet_id", AInt subnet_id); ("shares_to_be_removed", AInt shares_to_be_removed)]).
Definition increase_delegate_stake (subnet_id amount : Z) : Extrinsic :=
  mkExt FreshNonce false (network "increase_delegate_stake" [("subnet_id", AInt subnet_id); ("amount", AInt amount)]).
Definition update_coldkey (hotkey new_coldkey : text) : Extrinsic :=
  mkExt FreshNonce false (network "update_coldkey" [("hotkey", AText hotkey); ("new_coldkey", AText new_coldkey)]).
Definition update_hotkey (old_hotkey new_hotkey : text) : Extrinsic :=
  mkExt FreshNonce false (network "update_hotkey" [("old_hotkey", AText old_hotkey); ("new_hotkey", AText new_hotkey)]).
Definition update_bootnodes (subnet_id : Z) (add remove : list text) : Extrinsic :=
  mkExt SignedOnce false (network "update_bootnodes"
    [("subnet_id", AInt subnet_id); ("add", AList (sorted_set add)); ("remove", AList (sorted_set remove))]).
End Calls.

(** ** The chain *)

(** What happens to a submission on its way: delivered with an answer, delivered while the answer is lost, not
    delivered. *)
Inductive net : Type := Answered | AnswerLost | NotDelivered.

(** [submit_call c n call] is the chain after the call with the nonce [n]; [calls_of c] are the calls of the account that were
    included. *)
Class SubstrateChain (C R : Type) := {
  account_nonce : C -> Z;
  submit_call : C -> Z -> Call -> C * attempt R;
  calls_of : C -> list Call;
}.

(** The rule of nonces: a call with a past nonce is not included; one with the current nonce may be, and then the nonce grows by one.  Nothing is
    assumed of nonces that are not reached yet, nor of the answers. *)
Class SubstrateLaws (C R : Type) `{SubstrateChain C R} : Prop :=
  submit_nonce (c : C) (n : Z) (call : Call) : n <= account_nonce c ->
    let c' := (submit_call c n call).1 in
    (calls_of c' = calls_of c /\ account_nonce c' = account_nonce c) \/
    (n = account_nonce c /\ calls_of c' = calls_of c ++ [call] /\ account_nonce c' = account_nonce c + 1).

Section Submit.
Context {C R : Type} `{SubstrateChain C R}.

(** One attempt with an extrinsic that is signed for the nonce [n] *)
Definition submit_once (call : Call) (n : Z) (c : C) (w : net) : C * attempt R :=
  match w with
  | NotDelivered => (c, OtherError ConnectionError)
  | Answered => submit_call c n call
  | AnswerLost => ((submit_call c n call).1, OtherError ConnectionError)
  end.

Definition submit_extrinsic (e : Extrinsic) (c : C) (ws : list net) : C * option (result (option R) * nat * Z) :=
  let '(c', r) :=
    match sign e with
    | FreshNonce => retry MAX_ATTEMPTS (fun c w => submit_once (ecall e) (account_nonce c) c w) c ws
    | SignedOnce => let n := account_nonce c in retry MAX_ATTEMPTS (submit_once (ecall e) n) c ws
    end in
  (c', match r with
       | Some (Raise _, k, w) => if swallow e then Some (Ok None, k, w) else r
       | _ => r
       end).
End Submit.

(** ** Queries *)

#[warnings="-register-all"] Inductive PyVal : Type := PyNone | PyInt (n : Z) | PyText (s : text) | PyList (l : list PyVal) | PyDict (d : list (string * PyVal)).

(** [v[key]] *)
Definition subscript (v : PyVal) (key : string) : result PyVal :=
  match v with
  | PyDict d => match find (fun e => String.eqb e.1 key) d with Some e => Ok e.2 | None => Raise KeyError end
  | _ => Raise TypeError
  end.

Inductive Request : Type :=
  | Storage (module item : string) (params : list Arg)
  | Constant (module name : string)
  | Rpc (method : string) (params : list Arg).
(** A query and what the attempt returns of the answer. *)
Record Query : Type := mkQuery { request : Request; post : PyVal -> result PyVal }.

Definition plain (r : Request) : Query := mkQuery r Ok.
(** [result.value['data']['free']] *)
Definition free_balance (v : PyVal) : result PyVal := let* d := subscript v "data" in subscript d "free".

Section Queries.
Local Open Scope string_scope.
Definition get_subnet_node_data (subnet_id node : Z) := plain (Storage "Network" "SubnetNodesData" [AInt subnet_id; AInt node]).
Definition get_hotkey_subnet_node_id (subnet_id : Z) (hotkey : text) := plain (Storage "Network" "HotkeySubnetNodeId" [AInt subnet_id; AText hotkey]).
Definition get_hotkey_owner (hotkey : text) := mkQuery (Storage "Network" "HotkeyOwner" [AText hotkey]) free_balance.
Definition get_subnet_node_id_hotkey (subnet_id : Z) (hotkey : text) :=
  mkQuery (Storage "Network" "SubnetNodeIdHotkey" [AInt subnet_id; AText hotkey]) free_balance.
Definition get_balance (address : text) := mkQuery (Storage "System" "Account" [AText address]) free_balance.
Definition get_subnet_stake_balance (subnet_id : Z) (address : text) := plain (Storage "Network" "AccountSubnetStake" [AText address; AInt subnet_id]).
Definition get_subnet_id_by_path (path : text) := plain (Storage "Network" "SubnetPaths" [AText path]).
Definition get_subnet_data (id : Z) := plain (Storage "Network" "SubnetsData" [AInt id]).
Definition get_max_subnets := plain (Storage "Network" "MaxSubnets" []).
Definition get_min_subnet_nodes := plain (Storage "Network" "MinSubnetNodes" []).
Definition get_min_stake_balance := plain (Storage "Network" "MinStakeBalance" []).
Definition get_max_subnet_nodes := plain (Storage "Network" "MaxSubnetNodes" []).
Definition get_tx_rate_limit := plain (Storage "Network" "TxRateLimit" []).
Definition get_epoch_length := plain (Constant "Network" "EpochLength").
Definition get_rewards_validator (subnet_id epoch : Z) := plain (Storage "Network" "SubnetElectedValidator" [AInt subnet_id; AInt epoch]).
Definition get_overwatch_epoch_multiplier := plain (Storage "Network" "OverwatchEpochLengthMultiplier" []).
Definition get_overwatch_commit_cutoff_percent := plain (Storage "Network" "OverwatchCommitCutoffPercent" []).
Definition get_rewards_submission (subnet_id epoch : Z) := plain (Storage "Network" "SubnetConsensusSubmission" [AInt subnet_id; AInt epoch]).
Definition get_min_subnet_registration_blocks := plain (Storage "Network" "MinSubnetRegistrationBlocks" []).
Definition get_max_subnet_registration_blocks := plain (Storage "Network" "MaxSubnetRegistrationBlocks" []).
Definition get_max_subnet_entry_interval := plain (Storage "Network" "MaxSubnetEntryInterval" []).
Definition get_subnet_registration_epochs := plain (Storage "Network" "SubnetRegistrationEpochs" []).
Definition get_consensus_data (subnet_id epoch : Z) := plain (Storage "Network" "SubnetConsensusSubmission" [AInt subnet_id; AInt epoch]).
Definition get_subnet_key_types (subnet_id : Z) := plain (Storage "Network" "SubnetKeyTypes" [AInt subnet_id]).
Definition get_subnet_info (subnet_id : Z) := plain (Rpc "network_getSubnetInfo" [AInt subnet_id]).
Definition get_subnet_nodes (subnet_id : Z) := plain (Rpc "network_getSubnetNodes" [AInt subnet_id]).
Definition get_all_subnet_info := plain (Rpc "network_getAllSubnetsInfo" []).
Definition get_subnet_nodes_info (subnet_id : Z) := plain (Rpc "network_getSubnetNodesInfo" [AInt subnet_id]).
Definition get_all_subnet_nodes_info := plain (Rpc "network_getAllSubnetNodesInfo" []).
Definition get_bootnodes (subnet_id : Z) := plain (Rpc "network_getBootnodes" [AInt subnet_id]).
Definition get_coldkey_subnet_nodes_info (coldkey : text) := plain (Rpc "network_getColdkeySubnetNodesInfo" [AText coldkey]).
Definition get_coldkey_stakes (coldkey : text) := plain (Rpc "network_getColdkeyStakes" [AText coldkey]).
Definition get_delegate_stakes (account_id : text) := plain (Rpc "network_getDelegateStakes" [AText account_id]).
Definition get_node_delegate_stakes (account_id : text) := plain (Rpc "network_getNodeDelegateStakes" [AText account_id]).
Definition get_overwatch_commits (epoch node : Z) := plain (Rpc "network_getOverwatchCommitsForEpochAndNode" [AInt epoch; AInt node]).
Definition get_overwatch_reveals (epoch node : Z) := plain (Rpc "network_getOverwatchRevealsForEpochAndNode" [AInt epoch; AInt node]).
Definition proof_of_stake (subnet_id : Z) (peer_id : text) (min_class : Z) :=
  mkQuery (Rpc "network_proofOfStake" [AInt subnet_id; AText peer_id; AInt min_class]) (fun v => subscript v "result").
Definition get_minimum_delegate_stake (subnet_id : Z) := plain (Rpc "network_getMinimumDelegateStake" [AInt subnet_id]).
Definition get_subnet_node_info (subnet_id node : Z) := plain (Rpc "network_getSubnetNodeInfo" [AInt subnet_id; AInt node]).
Definition get_elected_validator_info (subnet_id subnet_epoch : Z) := plain (Rpc "network_getElectedValidatorInfo" [AInt subnet_id; AInt subnet_epoch]).
End Queries.

(** The query of one attempt; what is done with the answer is part of the attempt. *)
Definition query_once (q : Query) (u : unit) (a : attempt PyVal) : unit * attempt PyVal :=
  (u, match a with
      | Returned v => match post q v with Ok x => Returned x | Raise e => OtherError e end
      | a => a
      end).
Definition make_query (q : Query) (answers : list (attempt PyVal)) : option (result (option PyVal) * nat * Z) :=
  (retry MAX_ATTEMPTS (query_once q) tt answers).2.

(** The value, as the formatted methods see it: [None] if the request failed. *)
Definition answer_value (r : result (option PyVal)) : result PyVal := rmap (fun o => match o with Some v => v | None => PyNone end) r.

(** The formatted methods: [try: result = self.get_...(); return X.from_vec_u8(result['result']) except Exception: return None] *)
Definition formatted {X} (decode : PyVal -> result X) (r : result (option PyVal)) : option X :=
  match (let* v := answer_value r in let* raw := subscript v "result" in decode raw) with Ok x => Some x | Raise _ => None end.

(** [get_min_class_subnet_nodes_formatted] on the decoded nodes: class name and first epoch; a failure gives no nodes. *)
Definition node_class_value (name : string) : result Z :=
  if String.eqb name "Registered" then Ok 1 else if String.eqb name "Idle" then Ok 2
  else if String.eqb name "Included" then Ok 3 else if String.eqb name "Validator" then Ok 4 else Raise KeyError.

Fixpoint filter_nodes {X} (cls : X -> string * Z) (subnet_epoch min_class : Z) (nodes : list X) : result (list X) :=
  match nodes with
  | [] => Ok []
  | x :: rest =>
      let* c := node_class_value (cls x).1 in
      let* l := filter_nodes cls subnet_epoch min_class rest in
      Ok (if (min_class <=? c) && ((cls x).2 <=? subnet_epoch) then x :: l else l)
  end.

Definition get_min_class_subnet_nodes_formatted {X} (decode : PyVal -> result (list X)) (cls : X -> string * Z) (subnet_epoch min_class : Z)
    (r : result (option PyVal)) : list X :=
  match (let* v := answer_value r in let* raw := subscript v "result" in let* nodes := decode raw in filter_nodes cls subnet_epoch min_class nodes) with
  | Ok l => l
  | Raise _ => []
  end.

(** [get_subnet_slot]: an attempt that raises closes the connection and opens it again; what it raises in the end (the
    exception of the query, or of the new connection) is retried if it is of one of the listed types ([retried]); all
    exceptions that are left give [None]. *)
Inductive slot_attempt : Type := SlotValue (v : PyVal) | SlotRaised (retried : bool).
Fixpoint slot_query (left : nat) (answers : list slot_attempt) : option (option PyVal * nat) :=
  match answers, left with
  | [], _ | _, O => None
  | SlotValue v :: _, _ => Some (Some v, 1%nat)
  | SlotRaised retried :: rest, S left' =>
      match retried, left' with
      | true, S _ => match slot_query left' rest with Some (v, k) => Some (v, S k) | None => None end
      | _, _ => Some (None, 1%nat)
      end
  end.
Definition get_subnet_slot (answers : list slot_attempt) : option (option PyVal * nat) := slot_query MAX_ATTEMPTS answers.

(** [get_reward_result_event] on the events of the epoch's first block: module, event and attributes *)
Fixpoint reward_result_event (events : list (string * string * (Z * Z))) (target_subnet_id : Z) : option (Z * Z) :=
  match events with
  | [] => None
  | (m, e, (subnet_id, percentage)) :: rest =>
      if String.eqb m "Network" && String.eqb e "RewardResult" && (subnet_id =? target_subnet_id) then Some (subnet_id, percentage)
      else reward_result_event rest target_subnet_id
  end.

(** [in_overwatch_commit_period]; [cutoff] is a fraction of [10^18]. *)
Definition in_overwatch_commit_period (e : EpochData) (multiplier cutoff : Z) : bool :=
  let overwatch_epoch_length := block_per_epoch e * multiplier in
  let cutoff_block := overwatch_epoch_length * epoch e * 10 ^ 18 + overwatch_epoch_length * cutoff in
  block e * 10 ^ 18 <? cutoff_block.

(** ** Theorems *)

Section ChainFacts.
Context {C R : Type} `{SL : SubstrateLaws C R}.

Lemma swallow_chain (e : Extrinsic) (c : C) ws :
  (submit_extrinsic e c ws).1 =
    match sign e with
    | FreshNonce => (retry MAX_ATTEMPTS (fun c w => submit_once (ecall e) (account_nonce c) c w) c ws).1
    | SignedOnce => (retry MAX_ATTEMPTS (submit_once (ecall e) (account_nonce c)) c ws).1
    end.
Proof. unfold submit_extrinsic. destruct (sign e); by destruct (retry _ _ _ _). Qed.

(** An extrinsic for the nonce [n] is included at most once, and not at all when [n] is past. *)
Lemma once_included (call : Call) (n : Z) left : forall (c : C) ws, n <= account_nonce c ->
  let c' := (retry left (submit_once call n) c ws).1 in
  calls_of c' = calls_of c \/ n = account_nonce c /\ calls_of c' = calls_of c ++ [call].
Proof.
  induction left as [|left IH]; intros c [|w ws] Hn; [by left..|]. cbn [retry].
  assert (Hrest : forall c1, n <= account_nonce c1 ->
    (calls_of c1 = calls_of c /\ account_nonce c1 = account_nonce c \/
     n = account_nonce c /\ calls_of c1 = calls_of c ++ [call] /\ account_nonce c1 = account_nonce c + 1) ->
    calls_of (retry left (submit_once call n) c1 ws).1 = calls_of c \/
    n = account_nonce c /\ calls_of (retry left (submit_once call n) c1 ws).1 = calls_of c ++ [call]).
  { intros c1 Hn1 Hc1. destruct (IH c1 ws Hn1) as [->|[E ->]]; destruct Hc1 as [[H1 H2]|(H1 & H2 & H3)]; rewrite ?H1, ?H2 in *;
      [by left|by right|right; split; [congruence|done]|lia]. }
  pose proof (submit_nonce c n call Hn) as Hs. cbv zeta in Hs. assert (Hn1 : n <= account_nonce (submit_call c n call).1) by (destruct Hs as [[_ ->]|(_ & _ & ->)]; lia).
  specialize (Hrest (submit_call c n call).1 Hn1) as Hsub. specialize (Hsub Hs). specialize (Hrest c Hn (or_introl (conj eq_refl eq_refl))) as Hsame.
  assert (Hhere : calls_of (submit_call c n call).1 = calls_of c \/ n = account_nonce c /\ calls_of (submit_call c n call).1 = calls_of c ++ [call]) by tauto.
  destruct w; cbn [submit_once].
  - destruct (submit_call c n call) as [c1 a]. cbn [fst] in *. destruct a; [done|done|]. destruct left as [|left']; [done|].
    by destruct (retry (S left') (submit_once call n) c1 ws).
  - destruct left as [|left']; [done|]. by destruct (retry (S left') (submit_once call n) (submit_call c n call).1 ws).
  - destruct left as [|left']; [by left|]. by destruct (retry (S left') (submit_once call n) c ws).
Qed.

(** The chain includes the call whenever it is delivered with the current nonce, and answers. *)
Definition accepts (call : Call) : Prop := forall c : C,
  calls_of (submit_call c (account_nonce c) call).1 = calls_of c ++ [call] /\
  exists r, (submit_call c (account_nonce c) call).2 = Returned r.

Lemma fresh_included (call : Call) k ws : accepts call -> forall left (c : C), (k < left)%nat ->
  exists r, (retry left (fun c w => submit_once call (account_nonce c) c w) c (replicate k AnswerLost ++ Answered :: ws)).2 =
      Some (Ok (Some r), S k, Z.of_nat k * (BLOCK_SECS + 1)) /\
    calls_of (retry left (fun c w => submit_once call (account_nonce c) c w) c (replicate k AnswerLost ++ Answered :: ws)).1 =
      calls_of c ++ replicate (S k) call.
Proof.
  intros Ha. induction k as [|k IH]; intros left c Hk; (destruct left as [|left]; [lia|]); cbn [replicate app retry submit_once].
  - destruct (Ha c) as [H1 [r H2]]. exists r. destruct (submit_call c (account_nonce c) call) as [c1 a]. cbn in *. by subst a.
  - destruct left as [|left]; [lia|]. destruct (Ha c) as [H1 _]. set (c1 := (submit_call c (account_nonce c) call).1) in *.
    destruct (IH (S left) c1) as (r & H2 & H3); [lia|]. exists r.
    destruct (retry (S left) _ c1 _) as [c2 res]. cbn [fst snd] in *. subst res. split; [|rewrite H3, H1; by rewrite <- app_assoc].
    do 3 f_equal. lia.
Qed.

(** C39: What a retry can repeat, under the rule of nonces.  An extrinsic that is signed once, before the retries, is included at most once, whatever
    is lost on the way and whatever the chain answers.  One that is signed anew in each attempt, with the nonce of that time, is included again for every attempt whose answer
    is lost: if the chain accepts the call each time, [k] lost answers and then one that arrives make [k + 1] different extrinsics
    for the same call (a stake is added, or a transfer made, [k + 1] times), and the caller sees one success. *)
Theorem lost_answer_duplicates (e : Extrinsic) (c : C) :
  (sign e = SignedOnce -> forall ws, calls_of (submit_extrinsic e c ws).1 = calls_of c \/
                                     calls_of (submit_extrinsic e c ws).1 = calls_of c ++ [ecall e]) /\
  (sign e = FreshNonce -> accepts (ecall e) -> forall k ws, (k < MAX_ATTEMPTS)%nat -> exists r,
     calls_of (submit_extrinsic e c (replicate k AnswerLost ++ Answered :: ws)).1 = calls_of c ++ replicate (S k) (ecall e) /\
     (submit_extrinsic e c (replicate k AnswerLost ++ Answered :: ws)).2 = Some (Ok (Some r), S k, Z.of_nat k * (BLOCK_SECS + 1))).
Proof.
  split.
  - intros Hs ws. rewrite swallow_chain, Hs. destruct (once_included (ecall e) (account_nonce c) MAX_ATTEMPTS c ws) as [?|[_ ?]]; [lia|by left|by right].
  - intros Hs Ha k ws Hk. destruct (fresh_included (ecall e) k ws Ha MAX_ATTEMPTS c Hk) as (r & H1 & H2). exists r.
    unfold submit_extrinsic. rewrite Hs. destruct (retry MAX_ATTEMPTS _ c _) as [c' res]. cbn [fst snd] in *. by subst res.
Qed.
End ChainFacts.

(** A query is bounded in time and ends as documented: with four answers at hand it comes to a result after [k <= 4] attempts
    and [7 (k - 1)] seconds of waiting; all attempts before the last have raised.  The last one returned a value, or it failed
    with the request error that is logged and gives [None] (this error is not retried), or it is the fourth and raised. *)
Theorem query_bounded (q : Query) (answers : list (attempt PyVal)) :
  (MAX_ATTEMPTS <= length answers)%nat ->
  exists r k last, make_query q answers = Some (r, k, (Z.of_nat k - 1) * (BLOCK_SECS + 1)) /\ (1 <= k <= MAX_ATTEMPTS)%nat /\
    answers !! (k - 1)%nat = Some last /\
    (forall i a, (i < k - 1)%nat -> answers !! i = Some a -> exists e, (query_once q tt a).2 = OtherError e) /\
    match (query_once q tt last).2 with
    | Returned v => r = Ok (Some v)
    | RequestFailed => r = Ok None
    | OtherError _ => r = Raise RetryError /\ k = MAX_ATTEMPTS
    end.
Proof.
  intros Hl. unfold make_query.
  assert (Hgen : forall left answers, (0 < left)%nat -> (left <= length answers)%nat ->
    exists r k last, (retry left (query_once q) tt answers).2 = Some (r, k, (Z.of_nat k - 1) * (BLOCK_SECS + 1)) /\ (1 <= k <= left)%nat /\
    answers !! (k - 1)%nat = Some last /\
    (forall i a, (i < k - 1)%nat -> answers !! i = Some a -> exists e, (query_once q tt a).2 = OtherError e) /\
    match (query_once q tt last).2 with
    | Returned v => r = Ok (Some v)
    | RequestFailed => r = Ok None
    | OtherError _ => r = Raise RetryError /\ k = left
    end); [|apply Hgen; [unfold MAX_ATTEMPTS; lia|done]].
  clear. induction left as [|left IH]; intros [|a answers] Hp Hl; [lia|lia|cbn in Hl; lia|]. cbn [retry length] in *.
  destruct (query_once q tt a) as [u o] eqn:Eq. assert (Hq : (query_once q tt a).2 = o) by (by rewrite Eq).
  destruct o as [v| |e].
  - exists (Ok (Some v)), 1%nat, a. rewrite Hq. split_and!; [done|lia|lia|done|intros i x Hi; lia|done..].
  - exists (Ok None), 1%nat, a. rewrite Hq. split_and!; [done|lia|lia|done|intros i x Hi; lia|done..].
  - destruct left as [|left'].
    + exists (Raise RetryError), 1%nat, a. rewrite Hq. split_and!; [done|lia|lia|done|intros i x Hi; lia|done..].
    + destruct (IH answers) as (r & k & last & Hr & Hk & Hlast & Hbefore & Hres); [lia..|].
      destruct u. destruct (retry (S left') (query_once q) tt answers) as [u' o'] eqn:Er. cbn [snd] in Hr |- *. rewrite Hr.
      exists r, (S k), last. split_and!.
      * do 2 f_equal. lia.
      * lia.
      * lia.
      * replace (S k - 1)%nat with (S (k - 1)) by lia. done.
      * intros i x Hi Hx. destruct i as [|i]; [injection Hx as <-; eauto|]. apply (Hbefore i); [lia|done].
      * destruct ((query_once q tt last).2); try done. destruct Hres. split; [done|lia].
Qed.

(** The owner of a hotkey cannot be asked for: the answer of the chain is an address, but the method takes the [free] balance
    out of it, as if it were an account.  Whatever address the chain returns, the method makes four attempts, waits 21
    seconds and raises. *)
Theorem hotkey_owner_unreadable (hotkey : text) (answers : list text) (rest : list (attempt PyVal)) :
  length answers = MAX_ATTEMPTS ->
  make_query (get_hotkey_owner hotkey) (map (fun a => Returned (PyText a)) answers ++ rest) = Some (Raise RetryError, 4%nat, 21).
Proof. intros Hl. destruct answers as [|a [|b [|c [|d [|x l]]]]]; try discriminate Hl. reflexivity. Qed.

(** The same for the hotkey of a node. *)
Lemma node_hotkey_unreadable (subnet_id : Z) (hotkey : text) (answers : list text) (rest : list (attempt PyVal)) :
  length answers = MAX_ATTEMPTS ->
  make_query (get_subnet_node_id_hotkey subnet_id hotkey) (map (fun a => Returned (PyText a)) answers ++ rest) = Some (Raise RetryError, 4%nat, 21).
Proof. intros Hl. destruct answers as [|a [|b [|c [|d [|x l]]]]]; try discriminate Hl. reflexivity. Qed.

(** Removing a delegate stake calls the function that adds one, without the argument that this function takes. *)
Lemma remove_delegate_stake_adds (subnet_id shares stake : Z) :
  call_function (ecall (remove_delegate_stake subnet_id shares)) = call_function (ecall (add_to_delegate_stake subnet_id stake)) /\
  (call_params (ecall (remove_delegate_stake subnet_id shares))).*1 <> (call_params (ecall (add_to_delegate_stake subnet_id stake))).*1.
Proof. split; [done|]. cbn. congruence. Qed.

(** The commit period of the overwatch nodes does not end: [in_overwatch_commit_period] multiplies the length of an overwatch
    epoch with the number of the ordinary epoch.  Once the first ordinary epoch is over, and if an overwatch epoch
    has at least two ordinary ones, it is true for every block and every cutoff. *)
Theorem overwatch_commit_always_open (current_block epoch_length multiplier cutoff : Z) (e : EpochData) :
  0 < epoch_length -> epoch_length <= current_block -> 2 <= multiplier -> 0 <= cutoff ->
  get_epoch_data current_block epoch_length = Ok e -> in_overwatch_commit_period e multiplier cutoff = true.
Proof.
  intros Hl Hb Hm Hc He. assert (Hfields : block e = current_block /\ epoch e = current_block / epoch_length /\ block_per_epoch e = epoch_length).
  { unfold get_epoch_data, epoch_at in He. mon_inv. repeat case_match; simplify_eq; done. }
  destruct Hfields as (H1 & H2 & H3). unfold in_overwatch_commit_period. rewrite H1, H2, H3. apply Z.ltb_lt.
  pose proof (Z.div_mod current_block epoch_length ltac:(lia)) as Hdm. pose proof (Z.mod_pos_bound current_block epoch_length Hl) as Hmod.
  assert (Hq : 1 <= current_block / epoch_length) by (apply Z.div_le_lower_bound; lia).
  set (q := current_block / epoch_length) in *.
  assert (Hlt : current_block < epoch_length * multiplier * q) by nia.
  assert (0 <= epoch_length * multiplier * cutoff) by nia. nia.
Qed.

(** A chain that cannot be reached looks like a subnet without nodes. *)
Lemma outage_hides_nodes {X} (decode : PyVal -> result (list X)) cls subnet_epoch min_class (r : result (option PyVal)) :
  (r = Ok None \/ exists e, r = Raise e) -> get_min_class_subnet_nodes_formatted decode cls subnet_epoch min_class r = [].
Proof. intros [-> |[e ->]]; done. Qed.

(** The nodes returned are those of the class and epoch, in the order of the chain. *)
Definition qualifies {X} (cls : X -> string * Z) (subnet_epoch min_class : Z) (x : X) : bool :=
  match node_class_value (cls x).1 with Ok c => (min_class <=? c) && ((cls x).2 <=? subnet_epoch) | Raise _ => false end.

Lemma filter_nodes_spec {X} (cls : X -> string * Z) subnet_epoch min_class (nodes l : list X) :
  filter_nodes cls subnet_epoch min_class nodes = Ok l -> l = List.filter (qualifies cls subnet_epoch min_class) nodes.
Proof.
  revert l. induction nodes as [|x nodes IH]; intros l E; cbn [filter_nodes List.filter] in *; [by injection E as <-|].
  unfold qualifies at 1. destruct (node_class_value (cls x).1) as [c|]; [|done]. cbn [rbind] in E.
  destruct (filter_nodes cls subnet_epoch min_class nodes) as [l'|]; [|done]. cbn [rbind] in E. injection E as <-. by rewrite (IH l' eq_refl).
Qed.

(** ** Witnesses *)

(** A chain of one account: its nonce and its calls. *)
Module ToyChain.
#[export] Instance toy_chain : SubstrateChain (Z * list Call) Z := {|
  account_nonce (c : Z * list Call) := c.1;
  submit_call (c : Z * list Call) (n : Z) (call : Call) := if n =? c.1 then ((c.1 + 1, c.2 ++ [call]), Returned n) else (c, RequestFailed);
  calls_of (c : Z * list Call) := c.2 |}.
#[export] Instance toy_chain_laws : SubstrateLaws (Z * list Call) Z.
Proof. intros [n cs] k call Hk. cbn in *. destruct (Z.eqb_spec k n) as [->|Hne]; cbn; [by right|by left]. Qed.
End ToyChain.
Import ToyChain.

Lemma lost_answer_duplicates_witness :
  calls_of (submit_extrinsic (R := Z) (add_to_stake (lit "5F") 1 2 100) (7, []) [AnswerLost; AnswerLost; Answered]).1 =
    replicate 3 (ecall (add_to_stake (lit "5F") 1 2 100)).
Proof.
  destruct (lost_answer_duplicates (add_to_stake (lit "5F") 1 2 100) (7, [])) as [_ Hf].
  destruct (Hf eq_refl) with (k := 2%nat) (ws := @nil net) as (r & Hr & _).
  - intros [n cs]. cbn. rewrite Z.eqb_refl. split; [reflexivity|]. exists n. reflexivity.
  - vm_compute. lia.
  - exact Hr.
Defined.

Definition toy_answers : list (attempt PyVal) := [OtherError TypeError; RequestFailed; RequestFailed; RequestFailed].
Lemma query_bounded_witness :
  exists r k last, make_query get_max_subnets toy_answers = Some (r, k, (Z.of_nat k - 1) * (BLOCK_SECS + 1)) /\ toy_answers !! (k - 1)%nat = Some last.
Proof.
  destruct (query_bounded get_max_subnets toy_answers) as (r & k & last & H1 & _ & H2 & _);
    [vm_compute; lia|]. exists r, k, last. split; [exact H1|exact H2].
Defined.

Lemma hotkey_owner_unreadable_witness :
  make_query (get_hotkey_owner (lit "5F")) (map (fun a => Returned (PyText a)) (replicate 4 (lit "5G")) ++ []) = Some (Raise RetryError, 4%nat, 21).
Proof. apply (hotkey_owner_unreadable (lit "5F") (replicate 4 (lit "5G")) []). reflexivity. Defined.

Lemma overwatch_commit_always_open_witness :
  exists e, get_epoch_data 1000 100 = Ok e /\ in_overwatch_commit_period e 5 0 = true.
Proof.
  eexists. split; [reflexivity|]. apply (overwatch_commit_always_open 1000 100 5 0); [lia..|reflexivity].
Defined.
