(* ===== verification/ChainData.v ===== *)
(** * Data of the chain ([mesh/substrate/chain_data.py])

    The types of the chain's records, as the module registers them with the package [scalecodec], and the dataclasses that hold
    decoded records.  All dataclasses share the same three methods, [fix_decoded_values], [from_vec_u8] and
    [list_from_vec_u8]; they are modelled once, over a table of the classes.  The decoder is a parameter, with the law
    that a registered struct is decoded to a dictionary of its fields. *)

From S2P Require Import Prelude DHTID Base58 HashTable Framing PeerIdentity Text Epoch ChainClient.

(** ** The type registry *)

Section Registry.
Local Open Scope string_scope.

Definition type_SubnetData : list (string * string) :=
  [("id", "u32"); ("name", "Vec<u8>"); ("repo", "Vec<u8>"); ("description", "Vec<u8>"); ("misc", "Vec<u8>");
   ("state", "SubnetState"); ("start_epoch", "u32")].

Definition type_SubnetInfo : list (string * string) :=
  [("id", "u32"); ("name", "Vec<u8>"); ("repo", "Vec<u8>"); ("description", "Vec<u8>"); ("misc", "Vec<u8>");
   ("state", "SubnetState"); ("start_epoch", "u32"); ("churn_limit", "u32"); ("min_stake", "u128"); ("max_stake", "u128");
   ("queue_immunity_epochs", "u32"); ("target_node_registrations_per_epoch", "u32"); ("subnet_node_queue_epochs", "u32");
   ("idle_classification_epochs", "u32"); ("included_classification_epochs", "u32"); ("delegate_stake_percentage", "u128");
   ("node_burn_rate_alpha", "u128"); ("max_node_penalties", "u32"); ("initial_coldkeys", "Option<Vec<[u8; 20]>>");
   ("max_registered_nodes", "u32"); ("owner", "Option<[u8; 20]>"); ("pending_owner", "Option<[u8; 20]>");
   ("registration_epoch", "Option<u32>"); ("key_types", "BTreeSet<KeyType>"); ("slot_index", "Option<u32>");
   ("penalty_count", "u32"); ("bootnode_access", "BTreeSet<[u8; 20]>");
   ("bootnodes", "BTreeSet<BoundedVec<u8, DefaultMaxVectorLength>>"); ("total_nodes", "u32"); ("total_active_nodes", "u32");
   ("total_electable_nodes", "u32"); ("current_min_delegate_stake", "u128")].

Definition type_SubnetNode : list (string * string) :=
  [("id", "u32"); ("hotkey", "[u8; 20]"); ("peer_id", "OpaquePeerId"); ("bootnode_peer_id", "OpaquePeerId");
   ("bootnode", "Option<BoundedVec<u8, DefaultMaxVectorLength>>"); ("client_peer_id", "OpaquePeerId");
   ("classification", "SubnetNodeClassification"); ("delegate_reward_rate", "u128"); ("last_delegate_reward_rate_update", "u32");
   ("unique", "Option<BoundedVec<u8, DefaultMaxVectorLength>>");
   ("non_unique", "Option<BoundedVec<u8, DefaultMaxVectorLength>>")].

Definition type_SubnetNodeClassification : list (string * string) :=
  [("node_class", "SubnetNodeClass"); ("start_epoch", "u32")].

Definition type_SubnetNodeConsensusData : list (string * string) :=
  [("subnet_node_id", "u32"); ("score", "u128")].

Definition type_RewardsData : list (string * string) :=
  [("overall_subnet_reward", "u128"); ("subnet_owner_reward", "u128"); ("subnet_rewards", "u128");
   ("delegate_stake_rewards", "u128"); ("subnet_node_rewards", "u128")].

Definition type_SubnetNodeInfo : list (string * string) :=
  [("subnet_id", "u32"); ("subnet_node_id", "u32"); ("coldkey", "[u8; 20]"); ("hotkey", "[u8; 20]"); ("peer_id", "PeerId");
   ("bootnode_peer_id", "PeerId"); ("client_peer_id", "PeerId"); ("bootnode", "Option<BoundedVec<u8, DefaultMaxVectorLength>>");
   ("identity", "ColdkeyIdentityData"); ("classification", "SubnetNodeClassification"); ("delegate_reward_rate", "u128");
   ("last_delegate_reward_rate_update", "u32"); ("unique", "Option<BoundedVec<u8, DefaultMaxVectorLength>>");
   ("non_unique", "Option<BoundedVec<u8, DefaultMaxVectorLength>>"); ("stake_balance", "u128");
   ("node_delegate_stake_balance", "u128"); ("penalties", "u32"); ("reputation", "Reputation")].

Definition type_Reputation : list (string * string) :=
  [("start_epoch", "u32"); ("score", "u128"); ("lifetime_node_count", "u32"); ("total_active_nodes", "u32");
   ("total_increases", "u32"); ("total_decreases", "u32"); ("average_attestation", "u128"); ("last_validator_epoch", "u32");
   ("ow_score", "u128")].

Definition type_ColdkeyIdentityData : list (string * string) :=
  [("name", "BoundedVec<u8, DefaultMaxVectorLength>"); ("url", "BoundedVec<u8, DefaultMaxUrlLength>");
   ("image", "BoundedVec<u8, DefaultMaxUrlLength>"); ("discord", "BoundedVec<u8, DefaultMaxSocialIdLength>");
   ("x", "BoundedVec<u8, DefaultMaxSocialIdLength>"); ("telegram", "BoundedVec<u8, DefaultMaxSocialIdLength>");
   ("github", "BoundedVec<u8, DefaultMaxUrlLength>"); ("hugging_face", "BoundedVec<u8, DefaultMaxUrlLength>");
   ("description", "BoundedVec<u8, DefaultMaxVectorLength>"); ("misc", "BoundedVec<u8, DefaultMaxVectorLength>")].

Definition type_AttestEntry : list (string * string) :=
  [("block", "u32"); ("attestor_progress", "u128"); ("reward_factor", "u128");
   ("data", "Option<BoundedVec<u8, DefaultValidatorArgsLimit>>")].

Definition type_ConsensusData : list (string * string) :=
  [("validator_id", "u32"); ("block", "u32"); ("validator_epoch_progress", "u128"); ("validator_reward_factor", "u128");
   ("attests", "BTreeMap<u32, AttestEntry>"); ("subnet_nodes", "Vec<SubnetNode<[u8; 20]>>");
   ("prioritize_queue_node_id", "Option<u32>"); ("remove_queue_node_id", "Option<u32>");
   ("data", "Vec<SubnetNodeConsensusData>"); ("args", "Option<BoundedVec<u8, DefaultValidatorArgsLimit>>")].

Definition type_ConsensusSubmissionData : list (string * string) :=
  [("validator_subnet_node_id", "u32"); ("validator_epoch_progress", "u128"); ("validator_reward_factor", "u128");
   ("attestation_ratio", "u128"); ("weight_sum", "u128"); ("data_length", "u32"); ("data", "Vec<SubnetNodeConsensusData>");
   ("attests", "BTreeMap<u32, AttestEntry>"); ("subnet_nodes", "Vec<SubnetNode<[u8; 20]>>");
   ("prioritize_queue_node_id", "Option<u32>"); ("remove_queue_node_id", "Option<u32>")].

Definition type_AllSubnetBootnodes : list (string * string) :=
  [("bootnodes", "BTreeSet<BoundedVec<u8, DefaultMaxVectorLength>>");
   ("node_bootnodes", "BTreeSet<BoundedVec<u8, DefaultMaxVectorLength>>")].

Definition type_SubnetNodeStakeInfo : list (string * string) :=
  [("subnet_id", "Option<u32>"); ("subnet_node_id", "Option<u32>"); ("hotkey", "[u8; 20]"); ("balance", "u128")].

Definition type_DelegateStakeInfo : list (string * string) :=
  [("subnet_id", "u32"); ("shares", "u128"); ("balance", "u128")].

Definition type_NodeDelegateStakeInfo : list (string * string) :=
  [("subnet_id", "u32"); ("subnet_node_id", "u32"); ("shares", "u128"); ("balance", "u128")].

(** The structs of [custom_rpc_type_registry], its enumerations and its aliases *)
Definition registered_structs : list (string * list (string * string)) :=
  [("SubnetData", type_SubnetData);
   ("SubnetInfo", type_SubnetInfo);
   ("SubnetNode", type_SubnetNode);
   ("SubnetNodeClassification", type_SubnetNodeClassification);
   ("SubnetNodeConsensusData", type_SubnetNodeConsensusData);
   ("RewardsData", type_RewardsData);
   ("SubnetNodeInfo", type_SubnetNodeInfo);
   ("Reputation", type_Reputation);
   ("ColdkeyIdentityData", type_ColdkeyIdentityData);
   ("AttestEntry", type_AttestEntry);
   ("ConsensusData", type_ConsensusData);
   ("ConsensusSubmissionData", type_ConsensusSubmissionData);
   ("AllSubnetBootnodes", type_AllSubnetBootnodes);
   ("SubnetNodeStakeInfo", type_SubnetNodeStakeInfo);
   ("DelegateStakeInfo", type_DelegateStakeInfo);
   ("NodeDelegateStakeInfo", type_NodeDelegateStakeInfo)].

Definition registered_enums : list (string * list string) :=
  [("SubnetState", ["Registered"; "Active"; "Paused"]);
   ("KeyType", ["Rsa"; "Ed25519"; "Secp256k1"; "Ecdsa"]);
   ("SubnetNodeClass", ["Registered"; "Idle"; "Included"; "Validator"])].

Definition registered_aliases : list (string * string) :=
  [("PeerId", "Vec<u8>");
   ("BTreeSet<KeyType>", "Vec<KeyType>");
   ("BTreeSet<[u8; 20]>", "Vec<[u8; 20]>");
   ("BTreeSet<BoundedVec<u8, DefaultMaxVectorLength>>", "Vec<BoundedVec<u8, DefaultMaxVectorLength>>");
   ("BoundedVec<u8, DefaultMaxVectorLength>", "Vec<u8>");
   ("BoundedVec<u8, DefaultMaxUrlLength>", "Vec<u8>");
   ("BoundedVec<u8, DefaultMaxSocialIdLength>", "Vec<u8>");
   ("BoundedVec<u8, DefaultValidatorArgsLimit>", "Vec<u8>");
   ("Option<BoundedVec<u8, DefaultMaxVectorLength>>", "Option<Vec<u8>>");
   ("Option<BoundedVec<u8, DefaultMaxUrlLength>>", "Option<Vec<u8>>");
   ("Option<BoundedVec<u8, DefaultMaxSocialIdLength>>", "Option<Vec<u8>>");
   ("Option<BoundedVec<u8, DefaultValidatorArgsLimit>>", "Option<Vec<u8>>")].

(** ** The dataclasses *)

(** A dataclass: its fields, the fields that [fix_decoded_values] assigns, the keyword arguments of [_get_null], whether
    [from_vec_u8] and [list_from_vec_u8] decode an option, and whether the latter checks for an empty list first *)
Record DataClass : Type := mkDataClass {
  dc_name : string; dc_fields : list string; dc_fixed : list string; dc_null : list (string * PyVal);
  dc_option : bool; dc_list_option : bool; dc_list_empty : bool }.

Definition class_SubnetData : DataClass := mkDataClass "SubnetData"
     ["id"; "name"; "repo"; "description"; "misc"; "state"; "start_epoch"]
     ["id"; "name"; "repo"; "description"; "misc"; "state"; "start_epoch"]
     [("id", PyInt 0); ("name", PyText []); ("repo", PyText []); ("description", PyText []); ("misc", PyText []);
      ("state", PyInt 0); ("start_epoch", PyInt 0)]
     false false false.

Definition class_SubnetInfo : DataClass := mkDataClass "SubnetInfo"
     ["id"; "name"; "repo"; "description"; "misc"; "state"; "start_epoch"; "churn_limit"; "min_stake"; "max_stake";
      "queue_immunity_epochs"; "target_node_registrations_per_epoch"; "subnet_node_queue_epochs"; "idle_classification_epochs";
      "included_classification_epochs"; "delegate_stake_percentage"; "node_burn_rate_alpha"; "max_node_penalties";
      "initial_coldkeys"; "max_registered_nodes"; "owner"; "pending_owner"; "registration_epoch"; "key_types"; "slot_index";
      "penalty_count"; "bootnode_access"; "bootnodes"; "total_nodes"; "total_active_nodes"; "total_electable_nodes";
      "current_min_delegate_stake"]
     ["id"; "name"; "repo"; "description"; "misc"; "state"; "start_epoch"; "churn_limit"; "min_stake"; "max_stake";
      "queue_immunity_epochs"; "target_node_registrations_per_epoch"; "subnet_node_queue_epochs"; "idle_classification_epochs";
      "included_classification_epochs"; "delegate_stake_percentage"; "node_burn_rate_alpha"; "max_node_penalties";
      "initial_coldkeys"; "max_registered_nodes"; "owner"; "pending_owner"; "registration_epoch"; "key_types"; "slot_index";
      "penalty_count"; "bootnode_access"; "bootnodes"; "total_nodes"; "total_active_nodes"; "total_electable_nodes";
      "current_min_delegate_stake"]
     [("id", PyText []); ("name", PyText []); ("repo", PyText []); ("description", PyText []); ("misc", PyText []);
      ("state", PyInt 0); ("start_epoch", PyInt 0); ("churn_limit", PyInt 0); ("min_stake", PyInt 0); ("max_stake", PyInt 0);
      ("queue_immunity_epochs", PyInt 0); ("target_node_registrations_per_epoch", PyInt 0);
      ("subnet_node_queue_epochs", PyInt 0); ("idle_classification_epochs", PyInt 0);
      ("included_classification_epochs", PyInt 0); ("delegate_stake_percentage", PyInt 0); ("node_burn_rate_alpha", PyInt 0);
      ("max_node_penalties", PyInt 0); ("initial_coldkeys", PyInt 0); ("max_registered_nodes", PyInt 0);
      ("owner", PyText (lit "000000000000000000000000000000000000000000000000"));
      ("pending_owner", PyText (lit "000000000000000000000000000000000000000000000000")); ("registration_epoch", PyInt 0);
      ("key_types", PyInt 0); ("slot_index", PyInt 0); ("penalty_count", PyInt 0); ("bootnode_access", PyInt 0);
      ("bootnodes", PyInt 0); ("total_nodes", PyInt 0); ("total_active_nodes", PyInt 0); ("total_electable_nodes", PyInt 0);
      ("current_min_delegate_stake", PyInt 0)]
     true false false.

Definition class_RewardsData : DataClass := mkDataClass "RewardsData"
     ["overall_subnet_reward"; "subnet_owner_reward"; "subnet_rewards"; "delegate_stake_rewards"; "subnet_node_rewards"]
     ["overall_subnet_reward"; "subnet_owner_reward"; "subnet_rewards"; "delegate_stake_rewards"; "subnet_node_rewards"]
     [("peer_id", PyText []); ("score", PyInt 0)]
     false false false.

Definition class_SubnetNodeInfo : DataClass := mkDataClass "SubnetNodeInfo"
     ["subnet_id"; "subnet_node_id"; "coldkey"; "hotkey"; "peer_id"; "bootnode_peer_id"; "client_peer_id"; "bootnode";
      "identity"; "classification"; "delegate_reward_rate"; "last_delegate_reward_rate_update"; "unique"; "non_unique";
      "stake_balance"; "node_delegate_stake_balance"; "penalties"; "reputation"]
     ["subnet_id"; "subnet_node_id"; "coldkey"; "hotkey"; "peer_id"; "bootnode_peer_id"; "client_peer_id"; "bootnode";
      "identity"; "classification"; "delegate_reward_rate"; "last_delegate_reward_rate_update"; "unique"; "non_unique";
      "stake_balance"; "node_delegate_stake_balance"; "penalties"; "reputation"]
     [("subnet_id", PyInt 0); ("subnet_node_id", PyInt 0);
      ("coldkey", PyText (lit "000000000000000000000000000000000000000000000000"));
      ("hotkey", PyText (lit "000000000000000000000000000000000000000000000000"));
      ("peer_id", PyText (lit "000000000000000000000000000000000000000000000000"));
      ("bootnode_peer_id", PyText (lit "000000000000000000000000000000000000000000000000"));
      ("client_peer_id", PyText (lit "000000000000000000000000000000000000000000000000")); ("bootnode", PyText []);
      ("identity", PyDict []); ("classification", PyDict []); ("delegate_reward_rate", PyInt 0);
      ("last_delegate_reward_rate_update", PyInt 0); ("unique", PyText []); ("non_unique", PyText []);
      ("stake_balance", PyInt 0); ("node_delegate_stake_balance", PyInt 0); ("penalties", PyInt 0); ("reputation", PyDict [])]
     true false false.

Definition class_SubnetNode : DataClass := mkDataClass "SubnetNode"
     ["id"; "hotkey"; "peer_id"; "bootnode_peer_id"; "bootnode"; "client_peer_id"; "classification"; "delegate_reward_rate";
      "last_delegate_reward_rate_update"; "unique"; "non_unique"]
     ["id"; "hotkey"; "peer_id"; "bootnode_peer_id"; "client_peer_id"; "bootnode"; "classification"; "delegate_reward_rate";
      "last_delegate_reward_rate_update"; "unique"; "non_unique"]
     [("id", PyInt 0); ("hotkey", PyText (lit "000000000000000000000000000000000000000000000000"));
      ("peer_id", PyText (lit "000000000000000000000000000000000000000000000000"));
      ("bootnode_peer_id", PyText (lit "000000000000000000000000000000000000000000000000"));
      ("client_peer_id", PyText (lit "000000000000000000000000000000000000000000000000")); ("bootnode", PyText []);
      ("classification", PyText []); ("delegate_reward_rate", PyInt 0); ("last_delegate_reward_rate_update", PyInt 0);
      ("unique", PyText []); ("non_unique", PyText [])]
     false false true.

Definition class_ConsensusSubmissionData : DataClass := mkDataClass "ConsensusSubmissionData"
     ["validator_subnet_node_id"; "validator_epoch_progress"; "validator_reward_factor"; "attestation_ratio"; "weight_sum";
      "data_length"; "data"; "attests"; "subnet_nodes"; "prioritize_queue_node_id"; "remove_queue_node_id"]
     ["validator_subnet_node_id"; "validator_epoch_progress"; "validator_reward_factor"; "attestation_ratio"; "weight_sum";
      "data_length"; "data"; "attests"; "subnet_nodes"; "prioritize_queue_node_id"; "remove_queue_node_id"]
     [("validator_subnet_node_id", PyInt 0); ("validator_epoch_progress", PyInt 0); ("validator_reward_factor", PyInt 0);
      ("attestation_ratio", PyInt 0); ("weight_sum", PyInt 0); ("data_length", PyInt 0); ("data", PyList []);
      ("attests", PyList []); ("subnet_nodes", PyList []); ("prioritize_queue_node_id", PyInt 0);
      ("remove_queue_node_id", PyInt 0)]
     false false false.

Definition class_SubnetNodeConsensusData : DataClass := mkDataClass "SubnetNodeConsensusData"
     ["subnet_node_id"; "score"]
     ["subnet_node_id"; "score"]
     [("subnet_node_id", PyInt 0); ("score", PyInt 0)]
     false false false.

Definition class_AllSubnetBootnodes : DataClass := mkDataClass "AllSubnetBootnodes"
     ["bootnodes"; "node_bootnodes"]
     ["bootnodes"; "node_bootnodes"]
     [("bootnodes", PyList []); ("node_bootnodes", PyList [])]
     false true false.

Definition class_SubnetNodeStakeInfo : DataClass := mkDataClass "SubnetNodeStakeInfo"
     ["subnet_id"; "subnet_node_id"; "hotkey"; "balance"]
     ["subnet_id"; "subnet_node_id"; "hotkey"; "balance"]
     [("subnet_id", PyInt 0); ("subnet_node_id", PyInt 0);
      ("hotkey", PyText (lit "000000000000000000000000000000000000000000000000")); ("balance", PyInt 0)]
     false false false.

Definition class_DelegateStakeInfo : DataClass := mkDataClass "DelegateStakeInfo"
     ["subnet_id"; "shares"; "balance"]
     ["subnet_id"; "shares"; "balance"]
     [("subnet_id", PyInt 0); ("shares", PyInt 0); ("balance", PyInt 0)]
     false false false.

Definition class_NodeDelegateStakeInfo : DataClass := mkDataClass "NodeDelegateStakeInfo"
     ["subnet_id"; "subnet_node_id"; "shares"; "balance"]
     ["subnet_id"; "shares"; "balance"]
     [("subnet_id", PyInt 0); ("subnet_node_id", PyInt 0); ("shares", PyInt 0); ("balance", PyInt 0)]
     false false false.

(** The dataclasses with [from_vec_u8]: all of the module but [ConsensusData] *)
Definition decoded_classes : list DataClass :=
  [class_SubnetData; class_SubnetInfo; class_RewardsData; class_SubnetNodeInfo; class_SubnetNode;
   class_ConsensusSubmissionData; class_SubnetNodeConsensusData; class_AllSubnetBootnodes;
   class_SubnetNodeStakeInfo; class_DelegateStakeInfo; class_NodeDelegateStakeInfo].

(** The fields of the dataclass [ConsensusData], which is not decoded here but by the query *)
Definition consensus_fields : list string :=
  ["validator_id"; "validator_epoch_progress"; "attests"; "subnet_nodes"; "prioritize_queue_node_id"; "remove_queue_node_id"; "data"; "args"].
End Registry.

(** ** Decoding *)

(** The name of the type to decode *)
Definition type_string (name : string) (is_vec is_option : bool) : string :=
  let t := if is_option then "Option<" +:+ name +:+ ">" else name in
  if is_vec then "Vec<" +:+ t +:+ ">" else t.

(** What a decoder returns for a struct with the fields [fields]: a dictionary of the fields in their order; an option may
    be [None], a vector is a list. *)
Definition struct_value (fields : list string) (is_option : bool) (v : PyVal) : Prop :=
  (is_option = true /\ v = PyNone) \/ exists d, v = PyDict d /\ d.*1 = fields.
Definition decoded_as (fields : list string) (is_vec is_option : bool) (v : PyVal) : Prop :=
  if is_vec then exists l, v = PyList l /\ Forall (struct_value fields is_option) l else struct_value fields is_option v.

(** The package [scalecodec] with the registry [custom_rpc_type_registry]: [decode] of the object that
    [create_scale_object] returns for a type and the data. *)
Class ScaleCodec := { scale_decode : string -> list Z -> result PyVal }.
Class ScaleCodecLaws `{ScaleCodec} : Prop := {
  scale_decode_struct (name : string) (fields : list (string * string)) (is_vec is_option : bool) (data : list Z) (v : PyVal) :
    (name, fields) ∈ registered_structs ->
    scale_decode (type_string name is_vec is_option) data = Ok v -> decoded_as fields.*1 is_vec is_option v }.

(** The arguments of [from_scale_encoding] *)
Inductive encoded : Type := EncScaleBytes (data : list Z) | EncBytes (data : list Z) | EncValue (v : PyVal).

Definition int_of (v : PyVal) : option Z := match v with PyInt n => Some n | _ => None end.
(** [bytes(l)] *)
Definition bytes_of (l : list Z) : result (list Z) :=
  if forallb (fun b => (0 <=? b) && (b <? 256)) l then Ok l else Raise ValueError.

Section Decoding.
Context `{ScaleCodec}.

Definition from_scale_encoding_using_type_string (input : encoded) (t : string) : result PyVal :=
  let* data :=
    match input with
    | EncScaleBytes data | EncBytes data => Ok data
    | EncValue (PyList l) => match mapM int_of l with Some ints => bytes_of ints | None => Raise TypeError end
    | EncValue _ => Raise TypeError
    end in
  scale_decode t data.

Definition from_scale_encoding (input : encoded) (type_name : string) (is_vec is_option : bool) : result PyVal :=
  from_scale_encoding_using_type_string input (type_string type_name is_vec is_option).

(** A record: the keyword arguments that its dataclass accepted *)
Definition DataObject : Type := list (string * PyVal).

Fixpoint check_keys (v : PyVal) (keys : list string) : result unit :=
  match keys with
  | [] => Ok tt
  | k :: rest => let* x := subscript v k in check_keys v rest
  end.

(** Each assignment [d[k] = d[k]] reads the key; then the class is called with the dictionary. *)
Definition fix_decoded_values (c : DataClass) (v : PyVal) : result DataObject :=
  let* u := check_keys v (dc_fixed c) in
  match v with PyDict d => dataclass_init (dc_fields c) d | _ => Raise TypeError end.

Definition to_namespace (c : DataClass) (d : list (string * PyVal)) : result DataObject := dataclass_init (dc_fields c) d.
Definition get_null (c : DataClass) : result DataObject := dataclass_init (dc_fields c) (dc_null c).

(** [len(v)] *)
Definition py_len (v : PyVal) : result nat :=
  match v with
  | PyText s => Ok (length s)
  | PyList l => Ok (length l)
  | PyDict d => Ok (length d)
  | PyNone | PyInt _ => Raise TypeError
  end.

Definition from_vec_u8 (c : DataClass) (vec_u8 : PyVal) : result DataObject :=
  let* n := py_len vec_u8 in
  if (n =? 0)%nat then get_null c else
  let* decoded := from_scale_encoding (EncValue vec_u8) (dc_name c) false (dc_option c) in
  match decoded with PyNone => get_null c | v => fix_decoded_values c v end.

Fixpoint fix_all (c : DataClass) (l : list PyVal) : result (list DataObject) :=
  match l with
  | [] => Ok []
  | v :: rest => let* o := fix_decoded_values c v in let* os := fix_all c rest in Ok (o :: os)
  end.

Definition list_from_vec_u8 (c : DataClass) (vec_u8 : PyVal) : result (list DataObject) :=
  let* empty := if dc_list_empty c then rmap (fun n => (n =? 0)%nat) (py_len vec_u8) else Ok false in
  if empty then Ok [] else
  let* decoded := from_scale_encoding (EncValue vec_u8) (dc_name c) true (dc_list_option c) in
  match decoded with
  | PyNone => Ok []
  | PyList l => fix_all c l
  | PyDict d => fix_all c (map (fun e => PyText (lit e.1)) d)
  | PyText s => fix_all c (map (fun ch => PyText [ch]) s)
  | PyInt _ => Raise TypeError
  end.

(** [list_from_scale_info]: one record of zeros for every item *)
Definition list_from_scale_info (scale_info : list PyVal) : list DataObject :=
  map (fun _ => map (fun f => (f, PyInt 0)) (dc_fields class_RewardsData)) scale_info.

(** ** The formatted queries of [Hypertensor] *)

(** The answer of a query passed on to a decoder; [None] inside is what is returned after any exception. *)
Definition format_query {X} (q : Query) (decode : PyVal -> result X) (answers : list (attempt PyVal)) : option (option X) :=
  fmap (fun r : result (option PyVal) * nat * Z => formatted decode r.1.1) (make_query q answers).

Definition get_elected_validator_node_formatted (subnet_id subnet_epoch : Z) :=
  format_query (get_elected_validator_info subnet_id subnet_epoch) (from_vec_u8 class_SubnetNodeInfo).
Definition get_formatted_subnet_data (subnet_id : Z) := format_query (get_subnet_data subnet_id) (from_vec_u8 class_SubnetData).
Definition get_formatted_subnet_info (subnet_id : Z) := format_query (get_subnet_info subnet_id) (from_vec_u8 class_SubnetInfo).
Definition get_formatted_all_subnet_info := format_query get_all_subnet_info (list_from_vec_u8 class_SubnetInfo).
Definition get_formatted_get_subnet_node_info (subnet_id node : Z) :=
  format_query (get_subnet_node_info subnet_id node) (from_vec_u8 class_SubnetNodeInfo).
Definition get_subnet_nodes_info_formatted (subnet_id : Z) :=
  format_query (get_subnet_nodes_info subnet_id) (list_from_vec_u8 class_SubnetNodeInfo).
Definition get_all_subnet_nodes_info_formatted := format_query get_all_subnet_nodes_info (list_from_vec_u8 class_SubnetNodeInfo).
Definition get_bootnodes_formatted (subnet_id : Z) := format_query (get_bootnodes subnet_id) (from_vec_u8 class_AllSubnetBootnodes).
Definition get_coldkey_subnet_nodes_info_formatted (coldkey : text) :=
  format_query (get_coldkey_subnet_nodes_info coldkey) (list_from_vec_u8 class_SubnetNodeInfo).
Definition get_coldkey_stakes_formatted (coldkey : text) :=
  format_query (get_coldkey_stakes coldkey) (list_from_vec_u8 class_SubnetNodeStakeInfo).
Definition get_delegate_stakes_formatted (account_id : text) :=
  format_query (get_delegate_stakes account_id) (list_from_vec_u8 class_DelegateStakeInfo).
Definition get_node_delegate_stakes_formatted (account_id : text) :=
  format_query (get_node_delegate_stakes account_id) (list_from_vec_u8 class_NodeDelegateStakeInfo).

(** [ConsensusData.fix_decoded_values]; [serialize] gives the dictionary of the record. *)
Definition fix_consensus (v : PyVal) : result DataObject :=
  match v with PyDict d => dataclass_init consensus_fields d | _ => Raise TypeError end.

Definition is_none_text (v : PyVal) : bool := match v with PyText s => bool_decide (s = lit "None") | _ => false end.

Definition get_consensus_data_formatted (subnet_id epoch : Z) (answers : list (attempt PyVal)) : option (option DataObject) :=
  fmap (fun r : result (option PyVal) * nat * Z =>
    match answer_value r.1.1 with
    | Raise _ => None
    | Ok PyNone => None
    | Ok v => if is_none_text v then None else match fix_consensus v with Ok o => Some o | Raise _ => None end
    end) (make_query (get_consensus_data subnet_id epoch) answers).
End Decoding.

(** ** Lemmas *)

(** What the table check asks of a class: its type is registered, with the fields of the class in some order, and
    [fix_decoded_values] assigns only fields of the class. *)
Definition class_matches (c : DataClass) (fields : list string) : bool :=
  forallb (fun f => bool_decide (f ∈ fields)) (dc_fields c) &&
  forallb (fun f => bool_decide (f ∈ dc_fields c)) fields &&
  forallb (fun f => bool_decide (f ∈ fields)) (dc_fixed c).

Lemma subscript_present (d : list (string * PyVal)) (k : string) : k ∈ d.*1 -> exists x, subscript (PyDict d) k = Ok x.
Proof.
  intros [[k' x] [Hk Hin]]%list_elem_of_fmap. simpl in Hk. subst k'. unfold subscript.
  destruct (find _ d) as [e|] eqn:E; [by eexists|].
  apply list_elem_of_In in Hin. pose proof (find_none _ _ E _ Hin) as Hf. simpl in Hf. by rewrite String.eqb_refl in Hf.
Qed.

Lemma check_keys_present (d : list (string * PyVal)) (keys : list string) :
  Forall (fun k => k ∈ d.*1) keys -> check_keys (PyDict d) keys = Ok tt.
Proof.
  induction 1 as [|k keys Hk _ IH]; [done|]. cbn [check_keys].
  destruct (subscript_present d k Hk) as [x ->]. exact IH.
Qed.

Lemma forallb_elem {X} `{EqDecision X} (l l' : list X) :
  forallb (fun f => bool_decide (f ∈ l')) l = true <-> Forall (fun f => f ∈ l') l.
Proof.
  rewrite forallb_forall, List.Forall_forall. split; intros Hl x Hx.
  - exact (bool_decide_eq_true_1 _ (Hl x Hx)).
  - exact (bool_decide_eq_true_2 _ (Hl x Hx)).
Qed.

(** A dictionary with the registered fields is accepted as it is. *)
Lemma fix_registered (c : DataClass) (d : list (string * PyVal)) :
  class_matches c d.*1 = true -> fix_decoded_values c (PyDict d) = Ok d.
Proof.
  unfold class_matches. rewrite !andb_true_iff. intros [[Hf Hd] Hx]. unfold fix_decoded_values.
  rewrite (check_keys_present d _ (proj1 (forallb_elem _ _) Hx)). cbn. unfold dataclass_init. by rewrite Hf, Hd.
Qed.

Lemma fix_all_registered (c : DataClass) (ds : list (list (string * PyVal))) :
  Forall (fun d => class_matches c d.*1 = true) ds -> fix_all c (map PyDict ds) = Ok ds.
Proof.
  induction 1 as [|d ds Hd _ IH]; [done|]. cbn [map fix_all]. rewrite (fix_registered c d Hd). cbn. by rewrite IH.
Qed.

(** The table: every class matches its registered type. *)
Definition registered_fields (name : string) : option (list (string * string)) :=
  fmap snd (find (fun e : string * list (string * string) => String.eqb e.1 name) registered_structs).

Lemma classes_registered :
  Forall (fun c => match registered_fields (dc_name c) with Some fields => class_matches c fields.*1 | None => false end = true) decoded_classes.
Proof. repeat constructor. Qed.

Lemma class_registered (c : DataClass) : c ∈ decoded_classes ->
  exists fields, (dc_name c, fields) ∈ registered_structs /\ class_matches c fields.*1 = true.
Proof.
  intros Hc. pose proof (proj1 (List.Forall_forall _ _) classes_registered c (proj1 (list_elem_of_In _ _) Hc)) as Ht.
  unfold registered_fields in Ht. destruct (find _ registered_structs) as [[n fields]|] eqn:E; [|discriminate].
  exists fields. split; [|exact Ht]. apply find_some in E as [E Hn]. simpl in Hn. apply String.eqb_eq in Hn. subst n.
  by apply list_elem_of_In.
Qed.

Lemma mapM_int_of (data : list Z) : mapM int_of (map PyInt data) = Some data.
Proof. induction data as [|b data IH]; [done|]. simpl. by rewrite IH. Qed.

Lemma bytes_of_bytes (data : list Z) : Forall (fun b => 0 <= b < 256) data -> bytes_of data = Ok data.
Proof.
  intros Hd. unfold bytes_of. replace (forallb _ data) with true; [done|]. symmetry. apply forallb_forall.
  intros b Hb. rewrite List.Forall_forall in Hd. specialize (Hd b Hb). apply andb_true_iff. split; lia.
Qed.

Section Facts.
Context `{ScaleCodecLaws}.

Lemma decode_bytes (data : list Z) (t : string) : Forall (fun b => 0 <= b < 256) data ->
  from_scale_encoding_using_type_string (EncValue (PyList (map PyInt data))) t = scale_decode t data.
Proof.
  intros Hd. unfold from_scale_encoding_using_type_string. by rewrite mapM_int_of, (bytes_of_bytes data Hd).
Qed.

Lemma decoded_class_fields (c : DataClass) (is_option : bool) (v : PyVal) (fields : list string) :
  class_matches c fields = true -> struct_value fields is_option v -> v = PyNone \/ exists d, v = PyDict d /\ class_matches c d.*1 = true.
Proof. intros Hm [[_ ->]|(d & -> & Hd)]; [by left|right]. exists d. by rewrite Hd. Qed.

Lemma get_null_spec (c : DataClass) : c ∈ decoded_classes ->
  get_null c = if String.eqb (dc_name c) "RewardsData" then Raise TypeError else Ok (dc_null c).
Proof.
  intros Hc. cut (Forall (fun c => get_null c = if String.eqb (dc_name c) "RewardsData" then Raise TypeError else Ok (dc_null c)) decoded_classes).
  { intros Hf. rewrite List.Forall_forall in Hf. by apply Hf, list_elem_of_In. }
  clear c Hc. repeat (constructor; [vm_compute; reflexivity|]). constructor.
Qed.

(** C40: Every dataclass of the module with [from_vec_u8] (all but [ConsensusData], which does not fit the type registered for it) fits its
    registered type.  Whatever the decoder returns for the bytes of a record, at least one, [from_vec_u8] constructs the record with exactly the
    decoded fields, which are the fields of the class, or, when [None] was decoded, gives what [_get_null] gives; so does it for no bytes.  That is the
    null record, except that [_get_null] of [RewardsData] raises a [TypeError].  [list_from_vec_u8] constructs every record of a decoded
    list, unless an optional entry of the list is [None]. *)
Theorem decoded_records_construct (c : DataClass) (data : list Z) :
  c ∈ decoded_classes -> data <> [] -> Forall (fun b => 0 <= b < 256) data ->
  (forall v, scale_decode (type_string (dc_name c) false (dc_option c)) data = Ok v ->
     (v = PyNone /\ from_vec_u8 c (PyList (map PyInt data)) = get_null c) \/
     exists d, v = PyDict d /\ from_vec_u8 c (PyList (map PyInt data)) = Ok d /\ (forall f, f ∈ d.*1 <-> f ∈ dc_fields c)) /\
  (forall v, scale_decode (type_string (dc_name c) true (dc_list_option c)) data = Ok v ->
     exists l, v = PyList l /\
       (~ PyNone ∈ l -> exists ds, l = map PyDict ds /\ list_from_vec_u8 c (PyList (map PyInt data)) = Ok ds)) /\
  from_vec_u8 c (PyList []) = get_null c /\
  get_null c = if String.eqb (dc_name c) "RewardsData" then Raise TypeError else Ok (dc_null c).
Proof.
  intros Hc Hne Hb. destruct (class_registered c Hc) as (fields & Hreg & Hm).
  assert (Hlen : py_len (PyList (map PyInt data)) = Ok (length data)) by (simpl; by rewrite length_map).
  assert (Hz : (length data =? 0)%nat = false) by (by destruct data).
  split_and!; [| |done|by apply get_null_spec];
    intros v Hv; pose proof (scale_decode_struct _ _ _ _ _ _ Hreg Hv) as Hd; cbn [decoded_as] in Hd.
  - unfold from_vec_u8, from_scale_encoding. rewrite Hlen. cbn [rbind]. rewrite Hz, (decode_bytes _ _ Hb), Hv. cbn [rbind].
    destruct (decoded_class_fields c _ v _ Hm Hd) as [-> |(d & -> & Hcd)]; [by left|right].
    exists d. split; [done|]. split; [by apply fix_registered|]. unfold class_matches in Hcd.
    rewrite !andb_true_iff, !forallb_elem, !List.Forall_forall in Hcd. intros f.
    destruct Hcd as [[H1 H2] _]. split; intros Hf; [apply H2|apply H1]; by apply list_elem_of_In.
  - destruct Hd as (l & -> & Hl). exists l. split; [done|]. intros Hn.
    assert (exists ds, l = map PyDict ds /\ Forall (fun d => class_matches c d.*1 = true) ds) as (ds & -> & Hds).
    { clear Hv. induction Hl as [|v l Hv Hl IH]; [by exists []|].
      destruct IH as (ds & -> & Hds); [intros Hin; apply Hn; by right|].
      destruct (decoded_class_fields c _ v _ Hm Hv) as [-> |(d & -> & Hcd)]; [exfalso; apply Hn; by left|].
      exists (d :: ds). split; [done|by constructor]. }
    exists ds. split; [done|]. unfold list_from_vec_u8, from_scale_encoding.
    rewrite Hlen, (decode_bytes _ _ Hb), Hv. destruct (dc_list_empty c); cbn; rewrite ?Hz; by apply fix_all_registered.
Qed.

(** The null record of every class but [RewardsData] can be constructed, and is what [from_vec_u8] returns for an empty
    answer; the null record of [RewardsData] is given fields the class does not have, so an empty answer raises a
    [TypeError]. *)
Theorem null_records (c : DataClass) : c ∈ decoded_classes ->
  from_vec_u8 c (PyList []) = if String.eqb (dc_name c) "RewardsData" then Raise TypeError else Ok (dc_null c).
Proof.
  intros Hc. change (from_vec_u8 c (PyList [])) with (get_null c). by apply get_null_spec.
Qed.

(** The dataclass [ConsensusData] does not accept a consensus record of the registered type, which also has the fields
    [block] and [validator_reward_factor]: for such an answer of the chain the formatted query returns [None], as if there
    were no submission. *)
Theorem consensus_record_rejected (subnet_id epoch : Z) (d : list (string * PyVal)) (rest : list (attempt PyVal)) :
  d.*1 = type_ConsensusData.*1 ->
  get_consensus_data_formatted subnet_id epoch (Returned (PyDict d) :: rest) = Some None.
Proof.
  intros Hd. unfold get_consensus_data_formatted. cbn -[dataclass_init consensus_fields].
  unfold dataclass_init. rewrite Hd. reflexivity.
Qed.

(** A subnet record that a storage query returns has no key ["result"], so [get_formatted_subnet_data] finds nothing. *)
Lemma formatted_subnet_data_none (subnet_id : Z) (d : list (string * PyVal)) (rest : list (attempt PyVal)) :
  d.*1 = type_SubnetData.*1 -> get_formatted_subnet_data subnet_id (Returned (PyDict d) :: rest) = Some None.
Proof.
  intros Hd. unfold get_formatted_subnet_data, format_query.
  change (Some (formatted (from_vec_u8 class_SubnetData) (Ok (Some (PyDict d)))) = Some None).
  unfold formatted. cbn [answer_value rmap rbind]. unfold subscript.
  destruct (find _ d) as [e|] eqn:E; [|done]. apply find_some in E as [Hin He]. apply String.eqb_eq in He.
  assert (Hk : "result"%string ∈ d.*1) by (rewrite <- He; apply list_elem_of_fmap_2, list_elem_of_In, Hin).
  rewrite Hd in Hk. exfalso. revert Hk. apply (bool_decide_eq_false_1 (_ ∈ _)). vm_compute. reflexivity.
Qed.
End Facts.

(** ** A decoder that satisfies the laws *)

(** Every struct is decoded to a record of zeros; an option is [None] if the first byte is zero; a vector has one entry. *)
Definition toy_struct (fields : list (string * string)) : PyVal := PyDict (map (fun f => (f.1, PyInt 0)) fields).
Definition toy_value (fields : list (string * string)) (is_vec is_option : bool) (data : list Z) : PyVal :=
  let v := if is_option && (hd 0 data =? 0) then PyNone else toy_struct fields in
  if is_vec then PyList [v] else v.
Definition toy_table : list (string * (list Z -> PyVal)) :=
  flat_map (fun e : string * list (string * string) =>
    map (fun o : bool * bool => (type_string e.1 o.1 o.2, toy_value e.2 o.1 o.2)) [(false, false); (false, true); (true, false); (true, true)])
    registered_structs.
#[local] Instance toy_codec : ScaleCodec := {|
  scale_decode (t : string) (data : list Z) :=
    match find (fun e : string * (list Z -> PyVal) => String.eqb e.1 t) toy_table with Some e => Ok (e.2 data) | None => Raise NotImplementedError end |}.

Lemma toy_struct_value (fields : list (string * string)) (is_option : bool) : struct_value fields.*1 is_option (toy_struct fields).
Proof. right. eexists. split; [done|]. unfold toy_struct. rewrite <- list_fmap_compose. done. Qed.

Lemma toy_value_decoded fields is_vec is_option data : decoded_as fields.*1 is_vec is_option (toy_value fields is_vec is_option data).
Proof.
  assert (Hv : struct_value fields.*1 is_option (if is_option && (hd 0 data =? 0) then PyNone else toy_struct fields)).
  { destruct is_option; simpl; [|apply toy_struct_value]. destruct (hd 0 data =? 0); [by left|apply toy_struct_value]. }
  unfold toy_value, decoded_as. destruct is_vec; [|exact Hv]. eexists. split; [done|]. by constructor.
Qed.

Lemma toy_table_complete :
  Forall (fun e : string * list (string * string) =>
    Forall (fun o : bool * bool =>
      find (fun x : string * (list Z -> PyVal) => String.eqb x.1 (type_string e.1 o.1 o.2)) toy_table =
      Some (type_string e.1 o.1 o.2, toy_value e.2 o.1 o.2)) [(false, false); (false, true); (true, false); (true, true)])
    registered_structs.
Proof. repeat (constructor; [repeat (constructor; [vm_compute; reflexivity|]); constructor|]). constructor. Qed.

#[local] Instance toy_codec_laws : ScaleCodecLaws.
Proof.
  constructor. intros name fields is_vec is_option data v Hin Hv. cbn [scale_decode toy_codec] in Hv.
  pose proof (proj1 (List.Forall_forall _ _) toy_table_complete _ (proj1 (list_elem_of_In _ _) Hin)) as Ht.
  rewrite List.Forall_forall in Ht. specialize (Ht (is_vec, is_option)). cbn [fst snd] in Ht. rewrite Ht in Hv.
  - cbn [snd] in Hv. assert (Ev : v = toy_value fields is_vec is_option data) by congruence. subst v. apply toy_value_decoded.
  - destruct is_vec, is_option; simpl; tauto.
Qed.

(** *** Witnesses *)

Lemma decoded_records_construct_witness :
  exists d, from_vec_u8 class_DelegateStakeInfo (PyList (map PyInt [1; 2])) = Ok d /\ (forall f, f ∈ d.*1 <-> f ∈ dc_fields class_DelegateStakeInfo).
Proof.
  destruct (decoded_records_construct class_DelegateStakeInfo [1; 2]) as [Hone _].
  - apply list_elem_of_In. simpl. tauto.
  - discriminate.
  - repeat constructor; lia.
  - destruct (Hone (toy_struct type_DelegateStakeInfo)) as [[E _]|(d & _ & Hd & Hf)].
    + vm_compute. reflexivity.
    + discriminate.
    + by exists d.
Defined.

Lemma null_records_witness : from_vec_u8 class_RewardsData (PyList []) = Raise TypeError.
Proof. apply (null_records class_RewardsData). apply list_elem_of_In. simpl. tauto. Defined.

Definition toy_consensus : list (string * PyVal) := map (fun f => (f.1, PyInt 0)) type_ConsensusData.

Lemma consensus_record_rejected_witness :
  get_consensus_data_formatted 1 7 [Returned (PyDict toy_consensus)] = Some None.
Proof. apply (consensus_record_rejected 1 7 toy_consensus []). reflexivity. Defined.
