(* ===== verification/CommitReveal.v ===== *)
(** * The commit-reveal predicate ([mesh/subnet/utils/mock_commit_reveal.py])

    [MockHypertensorCommitReveal] decides which records a node accepts: known keys of the
    current epoch only, inside the window of their phase, with a bounded expiration, and a bounded
    number of stores per peer and epoch.  The chain (slot and epoch data) and the clock are read at
    each call. *)

From Stdlib Require Import QArith String.
From S2P Require Import Prelude DHTID Base64 Validation Crypto Epoch.
#[local] Open Scope Z_scope.

Inductive KeyType : Type := Node | ScoresReveal | VerifierCommit | VerifierReveal | ScoresCommit.

#[export] Instance KeyType_eq_dec : EqDecision KeyType.
Proof. solve_decision. Defined.

(** Deadlines as fractions of the epoch, expirations in seconds. *)
Definition VERIFIER_COMMIT_DEADLINE : Q := 1 # 2.
Definition VERIFIER_REVEAL_DEADLINE : Q := 3 # 5.
Definition SCORES_REVEAL_DEADLINE : Q := 3 # 5.
Definition MAX_HEART_BEAT_TIME : Z := BLOCK_SECS * EPOCH_LENGTH * 11 / 10.
Definition MAX_COMMIT_TIME : Z := BLOCK_SECS * EPOCH_LENGTH * 5.
Definition MAX_REVEAL_TIME : Z := BLOCK_SECS * EPOCH_LENGTH * 5.
Definition MAX_EPOCH_HISTORY : Z := 5.

(** The names of the keys: [f"verifier_commit_epoch_{epoch}"] and the like. *)
Definition get_verifier_commit_key (e : Z) : string := ("verifier_commit_epoch_" ++ pretty e)%string.
Definition get_verifier_reveal_key (e : Z) : string := ("verifier_reveal_epoch_" ++ pretty e)%string.
Definition get_scores_commit_key (e : Z) : string := ("scores_commit_epoch_" ++ pretty e)%string.
Definition get_scores_reveal_key (e : Z) : string := ("scores_reveal_epoch_" ++ pretty e)%string.

Definition key_name (kt : KeyType) (e : Z) : string :=
  match kt with
  | Node => "node"
  | ScoresReveal => get_scores_reveal_key e
  | VerifierCommit => get_verifier_commit_key e
  | VerifierReveal => get_verifier_reveal_key e
  | ScoresCommit => get_scores_commit_key e
  end%string.

(** [per_peer_epoch_limits] *)
Definition limit (kt : KeyType) : Z := match kt with Node => 100 | _ => 1 end.

(** ** The per-epoch counters, a dictionary of dictionaries of dictionaries *)

Section Tracker.
Context {Peer : Type} `{EqP : EqDecision Peer}.

Definition tracker : Type := pydict Z (pydict KeyType (pydict Peer Z)).
Implicit Types (tr : tracker) (e : Z) (kt : KeyType) (p : Peer).

Definition default_of {A} (d : A) (o : option A) : A := match o with Some a => a | None => d end.

(** [_peer_store_tracker[epoch][key_type][peer_id]]: the value, 0 by default. *)
Definition count tr e kt p : Z :=
  default_of 0 (dget (default_of [] (dget (default_of [] (dget tr e)) kt)) p).

(** Writing a counter; a [defaultdict] also does this when it is read. *)
Definition set_count tr e kt p (n : Z) : tracker :=
  let by_type := default_of [] (dget tr e) in
  let by_peer := default_of [] (dget by_type kt) in
  dset tr e (dset by_type kt (dset by_peer p n)).

Definition touch tr e kt p : tracker := set_count tr e kt p (count tr e kt p).

(** [_has_exceeded_store_limit] *)
Definition has_exceeded_store_limit tr p kt e : tracker * bool :=
  (touch tr e kt p, limit kt <=? count tr e kt p).

(** [_record_peer_store] *)
Definition record_peer_store tr p kt e : tracker := set_count tr e kt p (count tr e kt p + 1).

(** [_cleanup_old_epochs] *)
Definition cleanup_old_epochs tr (current_epoch : Z) : tracker :=
  let old := filter (fun e => e < current_epoch - MAX_EPOCH_HISTORY) (dkeys tr) in
  foldl ddel tr old.

Lemma count_set_count tr e kt p n e' kt' p' :
  count (set_count tr e kt p n) e' kt' p' =
  if decide (e = e' /\ kt = kt' /\ p = p') then n else count tr e' kt' p'.
Proof.
  unfold count, set_count. destruct (decide (e = e')) as [->|He].
  2: { rewrite dget_dset_ne by done. rewrite decide_False by tauto. done. }
  rewrite dget_dset_eq. cbn [default_of]. destruct (decide (kt = kt')) as [->|Hk].
  2: { rewrite dget_dset_ne by done. rewrite decide_False by tauto. done. }
  rewrite dget_dset_eq. cbn [default_of]. destruct (decide (p = p')) as [->|Hp].
  2: { rewrite dget_dset_ne by done. rewrite decide_False by tauto. done. }
  rewrite dget_dset_eq, decide_True by done. done.
Qed.

Lemma count_touch tr e kt p e' kt' p' : count (touch tr e kt p) e' kt' p' = count tr e' kt' p'.
Proof. unfold touch. rewrite count_set_count. case_decide as H; [|done]. by destruct H as (-> & -> & ->). Qed.

Lemma dget_foldl_ddel {K V : Type} `{EqK : EqDecision K} (old : list K) : forall (d : pydict K V) k,
  dget (foldl ddel d old) k = if decide (k ∈ old) then None else dget d k.
Proof.
  induction old as [|o old IH]; intros d k; cbn [foldl]; [done|].
  rewrite IH. destruct (decide (k = o)) as [->|Hne].
  - rewrite (decide_True (P := o ∈ o :: old)) by set_solver. case_decide; [done|]. apply dget_ddel_eq.
  - rewrite dget_ddel_ne by done. repeat case_decide; set_solver.
Qed.

(** Recent epochs keep their counters. *)
Lemma count_cleanup tr cur e kt p :
  cur - MAX_EPOCH_HISTORY <= e -> count (cleanup_old_epochs tr cur) e kt p = count tr e kt p.
Proof.
  intros He. unfold count, cleanup_old_epochs. rewrite dget_foldl_ddel, decide_False; [done|].
  intros Hin. apply list_elem_of_filter in Hin as [Hin _]. lia.
Qed.
End Tracker.
Arguments tracker : clear implicits.

(** ** The predicate *)

Section Predicate.
Context {Peer PrivateKey PublicKey : Type} `{EqP : EqDecision Peer} `{Lib : CryptoLib PrivateKey PublicKey}.
(** The peer id of a public key (protobuf, hash and multihash), and the hash and
    serialization behind [DHTID.generate]. *)
Variable peer_id_of : PublicKey -> result Peer.
Variable sha1 : bytes -> bytes.
Variable dumps : string -> bytes.

(** [extract_peer_id_from_record_validator]: every exception gives [None]. *)
Definition extract_peer_id (key : option bytes) : option Peer :=
  match key with
  | None => None
  | Some k =>
      match findall OWNER_PREFIX k with
      | [] => None
      | o :: _ => match load_public_key_from_bytes o with
                  | Ok pk => match peer_id_of pk with Ok p => Some p | Raise _ => None end
                  | Raise _ => None
                  end
      end
  end.

(** [DHTID.generate(source=name).to_bytes()] *)
Definition key_id (kt : KeyType) (e : Z) : result bytes :=
  let* id := generate sha1 dumps (key_name kt e) in to_bytes id.

(** [_get_key_type]: the dictionary of the keys valid in this epoch, looked up. *)
Definition get_key_type (r : DHTRecord) (current_epoch : Z) : result (option KeyType) :=
  let* entries := mapM_r (fun kt => let* b := key_id kt current_epoch in Ok (b, kt))
                    [Node; ScoresReveal; VerifierCommit; VerifierReveal; ScoresCommit] in
  Ok (dget (dict_of_list entries) (rec_key r)).

Record Predicate : Type := mkPredicate {
  slot : option Z;
  peer_store_tracker : tracker Peer;
}.

(** What one call reads from outside: the slot of the subnet, its epoch data, the time. *)
Record Reading : Type := mkReading {
  read_slot : result Z;
  read_epoch : Z -> result EpochData;
  read_time : Z;
}.

(** [_ensure_slot] *)
Definition ensure_slot (st : Predicate) (rd : Reading) : result (Predicate * Z) :=
  match slot st with
  | Some s => Ok (st, s)
  | None => let* s := read_slot rd in Ok (mkPredicate (Some s) (peer_store_tracker st), s)
  end.

(** [__init__] *)
Definition predicate_init (rd : Reading) : result Predicate :=
  rmap fst (ensure_slot (mkPredicate None []) rd).

(** [percent_complete > d] *)
Definition after (pct d : Q) : bool := negb (Qle_bool pct d).

(** The deadlines and expirations of a key type. *)
Definition deadlines_ok (kt : KeyType) (pct : Q) (expiration now : Z) : bool :=
  match kt with
  | Node => negb (now + MAX_HEART_BEAT_TIME <? expiration)
  | VerifierCommit =>
      negb (after pct VERIFIER_COMMIT_DEADLINE) && negb (now + MAX_COMMIT_TIME <? expiration)
  | VerifierReveal =>
      negb (Qle_bool pct VERIFIER_COMMIT_DEADLINE || after pct VERIFIER_REVEAL_DEADLINE) &&
      negb (now + MAX_REVEAL_TIME <? expiration)
  | ScoresReveal =>
      negb (Qle_bool pct VERIFIER_COMMIT_DEADLINE || after pct SCORES_REVEAL_DEADLINE) &&
      negb (now + MAX_REVEAL_TIME <? expiration)
  | ScoresCommit =>
      negb (Qle_bool pct SCORES_REVEAL_DEADLINE) && negb (now + MAX_COMMIT_TIME <? expiration)
  end.

(** [__call__]; an exception is logged and rejects the record. *)
Definition call (st : Predicate) (rd : Reading) (r : DHTRecord) (t : DHTRecordRequestType) : Predicate * bool :=
  match extract_peer_id (rec_subkey r) with
  | None => (st, false)
  | Some caller =>
      if decide (t = GET) then (st, true)
      else
        match ensure_slot st rd with
        | Raise _ => (st, false)
        | Ok (st1, s) =>
            match read_epoch rd s with
            | Raise _ => (st1, false)
            | Ok ed =>
                let tr := cleanup_old_epochs (peer_store_tracker st1) (epoch ed) in
                let st2 := mkPredicate (slot st1) tr in
                match get_key_type r (epoch ed) with
                | Raise _ | Ok None => (st2, false)
                | Ok (Some kt) =>
                    let '(tr3, exceeded) := has_exceeded_store_limit tr caller kt (epoch ed) in
                    let st3 := mkPredicate (slot st1) tr3 in
                    if exceeded then (st3, false)
                    else if deadlines_ok kt (percent_complete ed) (rec_expiration r) (read_time rd)
                    then (mkPredicate (slot st1) (record_peer_store tr3 caller kt (epoch ed)), true)
                    else (st3, false)
                end
            end
        end
  end.

(** ** Sequences of calls *)

Record Event : Type := mkEvent {
  ev_reading : Reading;
  ev_record : DHTRecord;
  ev_type : DHTRecordRequestType;
}.

(** An accepted store: its epoch data, key type and peer, and the record. *)
Record Accepted : Type := mkAccepted {
  ac_epoch : EpochData;
  ac_type : KeyType;
  ac_peer : Peer;
  ac_record : DHTRecord;
  ac_time : Z;
}.

(** What a call that answered [true] to a POST has accepted, for the slot [s]. *)
Definition accepted_of (s : Z) (ev : Event) : option Accepted :=
  match extract_peer_id (rec_subkey (ev_record ev)), read_epoch (ev_reading ev) s with
  | Some p, Ok ed =>
      match get_key_type (ev_record ev) (epoch ed) with
      | Ok (Some kt) => Some (mkAccepted ed kt p (ev_record ev) (read_time (ev_reading ev)))
      | _ => None
      end
  | _, _ => None
  end.

(** Run a trace; the log lists the accepted stores, oldest first. *)
Definition run_event (s : Z) (c : Predicate * list Accepted) (ev : Event) : Predicate * list Accepted :=
  let '(st', ok) := call c.1 (ev_reading ev) (ev_record ev) (ev_type ev) in
  (st', if ok && negb (bool_decide (ev_type ev = GET))
        then c.2 ++ match accepted_of s ev with Some a => [a] | None => [] end else c.2).

Definition run (s : Z) (st : Predicate) (evs : list Event) : Predicate * list Accepted :=
  foldl (run_event s) (st, []) evs.

(** The epoch data read by the calls of a trace, in order. *)
Definition readings (s : Z) (evs : list Event) : list EpochData :=
  omap (fun ev => match read_epoch (ev_reading ev) s with Ok ed => Some ed | Raise _ => None end) evs.

(** The chain does not go back during the trace. *)
Definition chronological (s : Z) (evs : list Event) : Prop := StronglySorted at_or_before (readings s evs).

(** How many stores of this kind the log holds. *)
Definition stores (log : list Accepted) (e : Z) (kt : KeyType) (p : Peer) : Z :=
  Z.of_nat (length (filter (fun a => epoch (ac_epoch a) = e /\ ac_type a = kt /\ ac_peer a = p) log)).

Definition in_window (a : Accepted) : Prop :=
  deadlines_ok (ac_type a) (percent_complete (ac_epoch a)) (rec_expiration (ac_record a)) (ac_time a) = true.

Lemma stores_snoc log a e kt p :
  stores (log ++ [a]) e kt p = stores log e kt p +
    (if decide (epoch (ac_epoch a) = e /\ ac_type a = kt /\ ac_peer a = p) then 1 else 0).
Proof.
  unfold stores. rewrite filter_app, length_app, filter_cons.
  case_decide as H; simpl; lia.
Qed.

(** One POST, with the slot known. *)
Lemma call_post st s rd r st' ok :
  slot st = Some s -> call st rd r POST = (st', ok) ->
  slot st' = Some s /\
  match read_epoch rd s with
  | Raise _ => st' = st /\ ok = false
  | Ok ed =>
      (forall e kt p, epoch ed <= e ->
         count (peer_store_tracker st') e kt p = count (peer_store_tracker st) e kt p +
           (if ok then match accepted_of s (mkEvent rd r POST) with
                       | Some a => if decide (epoch (ac_epoch a) = e /\ ac_type a = kt /\ ac_peer a = p) then 1 else 0
                       | None => 0 end else 0)) /\
      (ok = true -> exists kt p, accepted_of s (mkEvent rd r POST) = Some (mkAccepted ed kt p r (read_time rd)) /\
         deadlines_ok kt (percent_complete ed) (rec_expiration r) (read_time rd) = true /\
         count (peer_store_tracker st) (epoch ed) kt p < limit kt)
  end \/ extract_peer_id (rec_subkey r) = None /\ st' = st /\ ok = false.
Proof.
  intros Hs H. revert H. unfold call, accepted_of. cbn [ev_record ev_reading].
  destruct (extract_peer_id (rec_subkey r)) as [p0|] eqn:Ep; [|intros [= <- <-]; by right].
  rewrite decide_False by done. intros H. left. revert H. unfold ensure_slot. rewrite Hs. cbn [slot peer_store_tracker].
  destruct (read_epoch rd s) as [ed|e]; [|intros [= <- <-]; done].
  set (tr := cleanup_old_epochs (peer_store_tracker st) (epoch ed)).
  assert (Hcl : forall e kt p, epoch ed <= e -> count tr e kt p = count (peer_store_tracker st) e kt p).
  { intros. apply count_cleanup. unfold MAX_EPOCH_HISTORY. lia. }
  destruct (get_key_type r (epoch ed)) as [[kt|]|] eqn:Ek.
  2,3: intros [= <- <-]; simpl; split; [done|]; split; [intros; rewrite Hcl; lia|done].
  cbn [has_exceeded_store_limit]. destruct (limit kt <=? count tr (epoch ed) kt p0) eqn:El.
  { intros [= <- <-]. simpl. split; [done|]. split; [|done]. intros. rewrite count_touch, Hcl; lia. }
  propify. destruct (deadlines_ok _ _ _ _) eqn:Ed; intros [= <- <-]; simpl; (split; [done|]).
  - split.
    + intros e kt' p' He. unfold record_peer_store. rewrite count_set_count, !count_touch. simpl.
      case_decide as Hd; [destruct Hd as (<- & <- & <-)|]; rewrite Hcl by lia; lia.
    + intros _. exists kt, p0. rewrite <- Hcl by lia. done.
  - split; [|done]. intros. rewrite count_touch, Hcl; lia.
Qed.
(** The invariant of a trace: [lo] is at most every epoch still to come. *)
Record trace_inv (s lo : Z) (future : list EpochData) (st : Predicate) (log : list Accepted) : Prop := {
  tv_slot : slot st = Some s;
  tv_future ed : ed ∈ future -> lo <= epoch ed;
  tv_count e kt p : lo <= e -> count (peer_store_tracker st) e kt p = stores log e kt p;
  tv_limit e kt p : stores log e kt p <= limit kt;
  tv_window : Forall in_window log;
  tv_past : Forall (fun a => Forall (at_or_before (ac_epoch a)) future) log;
  tv_sorted : StronglySorted (fun a b => at_or_before (ac_epoch a) (ac_epoch b)) log;
}.

Lemma limit_pos kt : 0 < limit kt.
Proof. by destruct kt. Qed.

Lemma at_or_before_epoch a b : at_or_before a b -> epoch a <= epoch b.
Proof. intros [|[? _]]; lia. Qed.

(** A reading is consumed without a new entry in the log. *)
Lemma trace_inv_skip s lo ed future st st' log :
  trace_inv s lo (ed :: future) st log -> Forall (at_or_before ed) future -> slot st' = Some s ->
  (forall e kt p, epoch ed <= e -> count (peer_store_tracker st') e kt p = count (peer_store_tracker st) e kt p) ->
  trace_inv s (epoch ed) future st' log.
Proof.
  intros [H1 H2 H3 H4 H5 H6 H7] Hed Hs Hc. pose proof (H2 ed ltac:(set_solver)) as Hlo. split; auto.
  - intros ed' Hin. rewrite Forall_forall in Hed. by apply at_or_before_epoch, Hed.
  - intros e kt p He. rewrite Hc by done. apply H3. lia.
  - eapply Forall_impl; [apply H6|]. simpl. intros a Ha. by apply Forall_cons in Ha as [_ ?].
Qed.

Lemma trace_inv_accept s lo ed future st st' log kt p r now :
  trace_inv s lo (ed :: future) st log -> Forall (at_or_before ed) future -> slot st' = Some s ->
  (forall e kt' p', epoch ed <= e -> count (peer_store_tracker st') e kt' p' =
     count (peer_store_tracker st) e kt' p' + (if decide (epoch ed = e /\ kt = kt' /\ p = p') then 1 else 0)) ->
  deadlines_ok kt (percent_complete ed) (rec_expiration r) now = true ->
  count (peer_store_tracker st) (epoch ed) kt p < limit kt ->
  trace_inv s (epoch ed) future st' (log ++ [mkAccepted ed kt p r now]).
Proof.
  intros [H1 H2 H3 H4 H5 H6 H7] Hed Hs Hc Hd Hlim. pose proof (H2 ed ltac:(set_solver)) as Hlo. split; auto.
  - intros ed' Hin. rewrite Forall_forall in Hed. by apply at_or_before_epoch, Hed.
  - intros e kt' p' He. rewrite Hc, stores_snoc, H3 by lia. done.
  - intros e kt' p'. rewrite stores_snoc. simpl. case_decide as Hx; [|rewrite Z.add_0_r; apply H4].
    destruct Hx as (<- & <- & <-). rewrite H3 in Hlim by lia. lia.
  - apply Forall_app. split; [done|]. by apply Forall_singleton.
  - apply Forall_app. split; [|by apply Forall_singleton].
    eapply Forall_impl; [apply H6|]. simpl. intros a Ha. by apply Forall_cons in Ha as [_ ?].
  - apply StronglySorted_app. split_and!; [|done|repeat constructor].
    intros a b Ha Hb. apply list_elem_of_singleton in Hb as ->. simpl.
    rewrite Forall_forall in H6. pose proof (H6 _ Ha) as Hf. by apply Forall_cons in Hf as [? _].
Qed.

Lemma run_event_inv s lo st log ev evs :
  trace_inv s lo (readings s (ev :: evs)) st log -> chronological s (ev :: evs) ->
  exists lo', trace_inv s lo' (readings s evs) (run_event s (st, log) ev).1 (run_event s (st, log) ev).2.
Proof.
  intros Hi Hch. unfold run_event. cbn [fst snd].
  assert (Hskip : trace_inv s lo (readings s evs) st log \/ exists ed, readings s (ev :: evs) = ed :: readings s evs).
  { unfold readings in *. simpl in *. destruct (read_epoch (ev_reading ev) s); [right; eauto|by left]. }
  destruct (call st (ev_reading ev) (ev_record ev) (ev_type ev)) as [st' ok] eqn:Ec. cbn [fst snd].
  unfold chronological, readings in *. cbn [omap list_omap] in *.
  destruct (ev_type ev) eqn:Et.
  { rewrite bool_decide_eq_true_2, andb_false_r by done.
    assert (st' = st) as ->.
    { unfold call in Ec. destruct (extract_peer_id _); [|by simplify_eq]. rewrite decide_True in Ec by done. by simplify_eq. }
    destruct (read_epoch (ev_reading ev) s) as [ed|]; [|eauto].
    exists (epoch ed). eapply trace_inv_skip; eauto; [|apply Hi]. by apply StronglySorted_inv in Hch as [_ ?]. }
  rewrite bool_decide_eq_false_2, andb_true_r by done.
  destruct (call_post st s _ _ _ _ (tv_slot _ _ _ _ _ Hi) Ec) as [[Hs' Hp]|(Hx & -> & ->)].
  2: { destruct (read_epoch (ev_reading ev) s) as [ed|]; [|eauto].
       exists (epoch ed). eapply trace_inv_skip; eauto; [|apply Hi]. by apply StronglySorted_inv in Hch as [_ ?]. }
  destruct (read_epoch (ev_reading ev) s) as [ed|] eqn:Er; [|destruct Hp as [-> ->]; eauto].
  destruct Hp as [Hc Ha]. apply StronglySorted_inv in Hch as [_ Hed]. exists (epoch ed). destruct ok.
  - destruct (Ha eq_refl) as (kt & p & Hacc & Hd & Hlim).
    assert (Hacc' : accepted_of s ev = Some (mkAccepted ed kt p (ev_record ev) (read_time (ev_reading ev)))) by apply Hacc.
    rewrite Hacc'. eapply trace_inv_accept; eauto. intros e kt' p' He. rewrite (Hc e kt' p' He), Hacc. done.
  - eapply trace_inv_skip; eauto. intros e kt p He. rewrite (Hc e kt p He). lia.
Qed.

Lemma run_inv s evs : forall lo st log,
  trace_inv s lo (readings s evs) st log -> chronological s evs ->
  exists lo', trace_inv s lo' [] (foldl (run_event s) (st, log) evs).1 (foldl (run_event s) (st, log) evs).2.
Proof.
  induction evs as [|ev evs IH]; intros lo st log Hi Hch; cbn [foldl]; [eauto|].
  destruct (run_event_inv s lo st log ev evs Hi Hch) as [lo' Hi'].
  destruct (run_event s (st, log) ev) as [st' log'] eqn:E. apply (IH lo'); [done|].
  unfold chronological, readings in *. cbn [omap list_omap] in Hch.
  destruct (read_epoch (ev_reading ev) s); [by apply StronglySorted_inv in Hch as [? _]|done].
Qed.

(** A lower bound of the epochs of a trace. *)
Lemma epochs_bounded (l : list EpochData) : exists lo, forall ed, ed ∈ l -> lo <= epoch ed.
Proof.
  induction l as [|x l [lo IH]]; [exists 0; set_solver|].
  exists (Z.min lo (epoch x)). intros ed Hed. apply elem_of_cons in Hed as [->|Hed]; [lia|].
  specialize (IH _ Hed). lia.
Qed.

Lemma run_from_start s evs : chronological s evs ->
  exists lo, trace_inv s lo [] (run s (mkPredicate (Some s) []) evs).1 (run s (mkPredicate (Some s) []) evs).2.
Proof.
  intros Hch. destruct (epochs_bounded (readings s evs)) as [lo Hlo]. apply (run_inv s evs lo); [|done].
  split; simpl; try done; try constructor. intros e kt p. unfold stores. simpl. pose proof (limit_pos kt). lia.
Qed.
(** The phases of an epoch: commit, reveal, score commit. *)
Definition phase (kt : KeyType) : option Z :=
  match kt with
  | Node => None
  | VerifierCommit => Some 0
  | VerifierReveal | ScoresReveal => Some 1
  | ScoresCommit => Some 2
  end.

(** The window of a phase. *)
Definition window (kt : KeyType) (pct : Q) : Prop :=
  match kt with
  | Node => True
  | VerifierCommit => (pct <= 1 # 2)%Q
  | VerifierReveal | ScoresReveal => (1 # 2 < pct)%Q /\ (pct <= 3 # 5)%Q
  | ScoresCommit => (3 # 5 < pct)%Q
  end.

Definition max_lifetime (kt : KeyType) : Z := match kt with Node => 1980 | _ => 9000 end.

Lemma Qle_bool_false a b : Qle_bool a b = false -> (b < a)%Q.
Proof.
  intros H. destruct (Qlt_le_dec b a) as [|Hle]; [done|].
  apply Qle_bool_iff in Hle. congruence.
Qed.

Lemma deadlines_ok_spec kt pct e now :
  deadlines_ok kt pct e now = true -> window kt pct /\ e <= now + max_lifetime kt.
Proof.
  unfold deadlines_ok, after, window, max_lifetime.
  change MAX_HEART_BEAT_TIME with 1980. change MAX_COMMIT_TIME with 9000. change MAX_REVEAL_TIME with 9000.
  destruct kt; intros H; rewrite ?andb_true_iff, ?negb_orb, ?negb_involutive, ?andb_true_iff, ?negb_true_iff in H;
    destruct_and?; propify; split; try lia; repeat split;
    first [done | by apply Qle_bool_iff | by apply Qle_bool_false].
Qed.

Lemma window_phase_order k1 k2 (p1 p2 : Q) n1 n2 :
  window k1 p1 -> window k2 p2 -> (p1 <= p2)%Q -> phase k1 = Some n1 -> phase k2 = Some n2 -> n1 <= n2.
Proof.
  intros H1 H2 Hle. destruct k1, k2; simpl in *; intros; simplify_eq; try lia; exfalso.
  all: destruct_and?.
  all: repeat match goal with H : (_ < ?p)%Q, H' : (?p <= _)%Q |- _ => pose proof (Qlt_le_trans _ _ _ H H'); clear H end.
  all: repeat match goal with H : (?a < ?p)%Q, H' : (?p <= ?b)%Q |- _ => pose proof (Qlt_le_trans _ _ _ H H'); clear H end.
  all: done.
Qed.
End Predicate.

(** * Theorems *)

Section Theorems.
Context {Peer PrivateKey PublicKey : Type} `{EqP : EqDecision Peer} `{Lib : CryptoLib PrivateKey PublicKey}.
Variable peer_id_of : PublicKey -> result Peer.
Variable sha1 : bytes -> bytes.
Variable dumps : string -> bytes.

(** The stores accepted along a trace that starts with a fresh predicate. *)
Definition accepted_log (s : Z) (evs : list Event) : list Accepted :=
  (run peer_id_of sha1 dumps s (mkPredicate (Some s) []) evs).2.

(** C2: commits precede reveals.  Along any trace in which the chain does not go back, the stores
    accepted within one epoch follow the phases: once a reveal of an epoch was accepted, no verifier
    commit of that epoch is accepted any more, from any peer, and score commits come last. *)
Theorem phases_in_order s (evs : list Event) i j (a b : Accepted) n1 n2 :
  chronological s evs ->
  accepted_log s evs !! i = Some a -> accepted_log s evs !! j = Some b -> (i < j)%nat ->
  epoch (ac_epoch a) = epoch (ac_epoch b) ->
  phase (ac_type a) = Some n1 -> phase (ac_type b) = Some n2 -> n1 <= n2.
Proof.
  intros Hch Ha Hb Hij He H1 H2. destruct (run_from_start peer_id_of sha1 dumps s evs Hch) as [lo Hi].
  fold (accepted_log s evs) in Hi. pose proof (tv_window _ _ _ _ _ Hi) as Hw.
  pose proof (Forall_lookup_1 _ _ _ _ Hw Ha) as Wa. pose proof (Forall_lookup_1 _ _ _ _ Hw Hb) as Wb.
  apply deadlines_ok_spec in Wa as [Wa _], Wb as [Wb _].
  eapply (window_phase_order (ac_type a) (ac_type b)); eauto.
  pose proof (tv_sorted _ _ _ _ _ Hi) as Hs. rewrite <- (take_drop j (accepted_log s evs)) in Hs.
  apply StronglySorted_app in Hs as (Hs & _ & _).
  destruct (Hs a b) as [|[_ ?]]; [| |lia|done].
  - apply list_elem_of_lookup. exists i. by rewrite lookup_take_lt.
  - apply list_elem_of_lookup. exists 0%nat. rewrite lookup_drop, Nat.add_0_r. done.
Qed.

(** C1: along any trace in which the chain does not go back, a peer stores at most one
    commit and one reveal of each kind per epoch, and at most a hundred heartbeats, although the counters
    of old epochs are deleted on the way. *)
Theorem store_limits_hold s (evs : list Event) e kt p :
  chronological s evs -> stores (accepted_log s evs) e kt p <= limit kt.
Proof.
  intros Hch. destruct (run_from_start peer_id_of sha1 dumps s evs Hch) as [lo Hi]. apply (tv_limit _ _ _ _ _ Hi).
Qed.

(** An accepted store names a caller, has the key of its type in the current epoch, falls into the window of its
    phase, and expires within 1.1 epochs (heartbeat) or 5 epochs. *)
Theorem accepted_in_window st s rd r st' :
  slot st = Some s -> call peer_id_of sha1 dumps st rd r POST = (st', true) ->
  exists ed kt p, extract_peer_id peer_id_of (rec_subkey r) = Some p /\ read_epoch rd s = Ok ed /\
    get_key_type sha1 dumps r (epoch ed) = Ok (Some kt) /\ window kt (percent_complete ed) /\
    rec_expiration r <= read_time rd + max_lifetime kt.
Proof.
  intros Hs Hc. destruct (call_post peer_id_of sha1 dumps st s rd r st' true Hs Hc) as [[_ Hp]|(_ & _ & ?)]; [|done].
  destruct (read_epoch rd s) as [ed|] eqn:Er; [|by destruct Hp].
  destruct Hp as [_ Hp]. destruct (Hp eq_refl) as (kt & p & Hacc & Hd & _).
  unfold accepted_of in Hacc. simpl in Hacc. rewrite Er in Hacc.
  destruct (extract_peer_id peer_id_of (rec_subkey r)) as [p'|]; [|done].
  destruct (get_key_type sha1 dumps r (epoch ed)) as [[kt'|]|] eqn:Ek; try done. simplify_eq.
  apply deadlines_ok_spec in Hd as [Hw He]. exists ed, kt, p. by split_and!.
Qed.
End Theorems.

(** ** A concrete trace, with the toy cryptography *)

Definition toy_sha1 (b : bytes) : bytes := to_be 20 (foldl (fun a x => (a * 257 + x) mod 2 ^ 160) 0 b).

Definition toy_key (kt : KeyType) (e : Z) : bytes :=
  match key_id toy_sha1 lit kt e with Ok b => b | Raise _ => [] end.

(** Peer 7 posts a record of the given type at the given block, in a subnet with slot 0. *)
Definition toy_event (kt : KeyType) (block : Z) : Event :=
  mkEvent (mkReading (Ok 0) (get_subnet_epoch_data block EPOCH_LENGTH) (block * BLOCK_SECS))
    (mkRecord (toy_key kt (block / EPOCH_LENGTH)) (Some (local_public_key 7)) [] (block * BLOCK_SECS + 100)) POST.

(** A commit, a second commit (over the limit), a reveal, a late commit (outside its window), a score commit. *)
Definition toy_trace : list Event :=
  [toy_event VerifierCommit 910; toy_event VerifierCommit 920; toy_event VerifierReveal 1060;
   toy_event VerifierCommit 1065; toy_event ScoresCommit 1085].

Abbreviation toy_log := (accepted_log (fun pk => Ok pk) toy_sha1 lit 0 toy_trace).

Lemma toy_log_types : map (fun a => (epoch (ac_epoch a), ac_type a, ac_peer a)) toy_log =
  [(3, VerifierCommit, 7); (3, VerifierReveal, 7); (3, ScoresCommit, 7)].
Proof. by vm_compute. Qed.

Lemma toy_chronological : chronological 0 toy_trace.
Proof.
  unfold chronological. vm_compute readings.
  repeat (apply SSorted_cons; [|repeat (apply Forall_cons; split; [right; split; [done|by vm_compute]|]); by apply Forall_nil]).
  apply SSorted_nil.
Qed.

Lemma phases_in_order_witness :
  exists a b, toy_log !! 0%nat = Some a /\ toy_log !! 1%nat = Some b /\
    phase (ac_type a) = Some 0 /\ phase (ac_type b) = Some 1 /\ 0 <= 1.
Proof.
  pose proof toy_log_types as Ht.
  destruct toy_log as [|a [|b l]] eqn:E; [discriminate Ht|discriminate Ht|].
  injection Ht as Ea Ka Pa Eb Kb Pb Hl.
  exists a, b. rewrite Ka, Kb. do 4 (split; [reflexivity|]).
  apply (phases_in_order (fun pk => Ok pk) toy_sha1 lit 0 toy_trace 0 1 a b).
  - exact toy_chronological.
  - rewrite E. reflexivity.
  - rewrite E. reflexivity.
  - lia.
  - by rewrite Ea, Eb.
  - by rewrite Ka.
  - by rewrite Kb.
Defined.

Lemma store_limits_hold_witness : stores toy_log 3 VerifierCommit 7 <= 1.
Proof. apply (store_limits_hold (fun pk => Ok pk) toy_sha1 lit 0 toy_trace 3 VerifierCommit 7 toy_chronological). Defined.

Lemma accepted_in_window_witness :
  exists ed kt p, extract_peer_id (fun pk => Ok pk) (rec_subkey (ev_record (toy_event VerifierCommit 910))) = Some p /\
    read_epoch (ev_reading (toy_event VerifierCommit 910)) 0 = Ok ed /\ window kt (percent_complete ed).
Proof.
  assert (Hok : (call (fun pk => Ok pk) toy_sha1 lit (mkPredicate (Some 0) []) (ev_reading (toy_event VerifierCommit 910))
              (ev_record (toy_event VerifierCommit 910)) POST).2 = true) by (vm_compute; reflexivity).
  destruct (call (fun pk => Ok pk) toy_sha1 lit (mkPredicate (Some 0) []) (ev_reading (toy_event VerifierCommit 910))
              (ev_record (toy_event VerifierCommit 910)) POST) as [st' ok] eqn:E. cbn [snd] in Hok. subst ok.
  destruct (accepted_in_window (fun pk => Ok pk) toy_sha1 lit (mkPredicate (Some 0) []) 0
              (ev_reading (toy_event VerifierCommit 910)) (ev_record (toy_event VerifierCommit 910)) st')
    as (ed & kt & p & H1 & H2 & _ & H3 & _); [reflexivity|exact E|].
  exists ed, kt, p. auto.
Defined.
