(* ===== verification/Scores.v ===== *)
(** * Consensus scores ([mesh/subnet/consensus/utils.py] and the formatting helpers of
    [TaskCommitReveal] in [mesh/subnet/consensus/task.py])

    Peer ids are compared in their base58 form, so they are any type with equality.
    Ratios are exact rationals. *)

From Stdlib Require Import QArith.
From S2P Require Import Prelude Epoch.
#[local] Open Scope Z_scope.

Section Scores.
Context {Peer : Type} `{EqP : EqDecision Peer}.

(** In-subnet and on-chain scores. *)
Record ConsensusScores : Type := mkScore { cs_peer_id : Peer; cs_score : Z }.
Record SubnetNodeConsensusData : Type := mkNodeScore { subnet_node_id : Z; score : Z }.

(** The fields of [SubnetNodeInfo] used here. *)
Record SubnetNodeInfo : Type := mkNode { node_subnet_node_id : Z; node_peer_id : Peer }.

(** The fields of [ConsensusData] used here; [attests] is a list of dictionaries. *)
Record ConsensusData : Type := mkConsensus {
  attests : list (pydict Z Z);
  subnet_nodes : list Z;
  consensus_scores : list SubnetNodeConsensusData;
}.

#[export] Instance node_score_eq_dec : EqDecision SubnetNodeConsensusData.
Proof. solve_decision. Defined.

(** A Python set as a list without repetition, its intersection and union. *)
Definition py_set {A : Type} `{EqDecision A} (l : list A) : list A := remove_dups l.
Definition set_inter {A : Type} `{EqDecision A} (a b : list A) : list A := filter (fun x => x ∈ b) a.
Definition set_union {A : Type} `{EqDecision A} (a b : list A) : list A := a ++ filter (fun x => x ∉ a) b.

(** [compare_consensus_data] *)
Definition compare_consensus_data (my_data validator_data : list SubnetNodeConsensusData) : Q :=
  let validator_set := py_set validator_data in
  let my_set := py_set my_data in
  let inter := set_inter my_set validator_set in
  let union := set_union my_set validator_set in
  match union with
  | [] => 100
  | _ => ratio (Z.of_nat (length inter)) (Z.of_nat (length union))
  end.

(** [get_attestation_ratio] *)
Definition get_attestation_ratio (c : ConsensusData) : result Q :=
  match subnet_nodes c with
  | [] => Raise ZeroDivisionError
  | _ => Ok (ratio (Z.of_nat (length (attests c))) (Z.of_nat (length (subnet_nodes c))))
  end.

(** [did_node_attest]; the id is [None] for a peer that is not on chain. *)
Definition did_node_attest (id : option Z) (c : ConsensusData) : bool :=
  existsb (fun item => existsb (fun k => bool_decide (Some k = id)) (dkeys item)) (attests c).

(** [get_peers_node_id] *)
Definition get_peers_node_id (p : Peer) (nodes : list SubnetNodeInfo) : option Z :=
  match list_find (fun n => p = node_peer_id n) nodes with
  | Some (_, n) => Some (node_subnet_node_id n)
  | None => None
  end.

(** [filter_and_format_scores_from_peer_id] *)
Definition filter_and_format_scores_from_peer_id (scores : list ConsensusScores) (included : list SubnetNodeInfo)
    : result (list ConsensusScores * list SubnetNodeConsensusData) :=
  let included_peer_ids := py_set (map node_peer_id included) in
  let scores_peer_ids := py_set (map cs_peer_id scores) in
  let filtered := filter (fun s => cs_peer_id s ∈ included_peer_ids) scores in
  let score_map := dict_of_list (map (fun s => (cs_peer_id s, cs_score s)) filtered) in
  let* formatted :=
    mapM_r (fun n => let* sc := dgetitem score_map (node_peer_id n) in Ok (mkNodeScore (node_subnet_node_id n) sc))
      (filter (fun n => node_peer_id n ∈ scores_peer_ids) included) in
  Ok (filtered, formatted).

(** [filter_and_format_scores_from_subnet_node_id] *)
Definition filter_and_format_scores_from_subnet_node_id (scores : list SubnetNodeConsensusData)
    (included : list SubnetNodeInfo) : result (list ConsensusScores * list SubnetNodeConsensusData) :=
  let included_ids := py_set (map node_subnet_node_id included) in
  let scores_ids := py_set (map subnet_node_id scores) in
  let filtered := filter (fun s => subnet_node_id s ∈ included_ids) scores in
  let score_map := dict_of_list (map (fun s => (subnet_node_id s, score s)) filtered) in
  let* formatted :=
    mapM_r (fun n => let* sc := dgetitem score_map (node_subnet_node_id n) in Ok (mkScore (node_peer_id n) sc))
      (filter (fun n => node_subnet_node_id n ∈ scores_ids) included) in
  Ok (formatted, filtered).

(** [aggregated.setdefault(id, []).append(score)] over all lists *)
Definition aggregate (lists : list (list SubnetNodeConsensusData)) : pydict Z (list Z) :=
  foldl (fun d e => dset d (subnet_node_id e) (match dget d (subnet_node_id e) with Some l => l | None => [] end ++ [score e]))
    [] (concat lists).

(** [average_consensus_scores] *)
Definition average_consensus_scores (lists : list (list SubnetNodeConsensusData))
    : result (list SubnetNodeConsensusData) :=
  mapM_r (fun e => match e.2 with
                   | [] => Raise ZeroDivisionError
                   | l => Ok (mkNodeScore e.1 (foldr Z.add 0 l / Z.of_nat (length l)))
                   end) (aggregate lists).

(** ** Lemmas *)

Lemma elem_of_py_set {A : Type} `{EqDecision A} (l : list A) x : x ∈ py_set l <-> x ∈ l.
Proof. apply elem_of_remove_dups. Qed.

Lemma dget_dupdate_in {K V : Type} `{EqK : EqDecision K} (l : list (K * V)) : forall d k,
  is_Some (dget d k) \/ k ∈ l.*1 -> is_Some (dget (dupdate d l) k).
Proof.
  unfold dupdate. induction l as [|[k' v] l IH]; intros d k Hk; cbn [foldl]; [set_solver|].
  apply IH. cbn [fst snd]. destruct (decide (k' = k)) as [->|Hne].
  - left. rewrite dget_dset_eq. eauto.
  - rewrite dget_dset_ne by done. set_solver.
Qed.

(** The last binding of a key wins. *)
Lemma dget_dupdate_value {K V : Type} `{EqK : EqDecision K} (l : list (K * V)) : forall d k v,
  dget (dupdate d l) k = Some v -> (k, v) ∈ l \/ dget d k = Some v.
Proof.
  unfold dupdate. induction l as [|[k' v'] l IH]; intros d k v H; cbn [foldl] in H; [by right|].
  apply IH in H as [H|H]; [left; set_solver|]. simpl in H. destruct (decide (k' = k)) as [->|Hne].
  - rewrite dget_dset_eq in H. simplify_eq. left. set_solver.
  - rewrite dget_dset_ne in H by done. by right.
Qed.

Lemma ratio_one a n : 0 < n -> Qeq (ratio a n) 1 <-> a = n.
Proof.
  intros Hn. unfold ratio, Qeq, Qdiv, Qmult, Qinv, inject_Z. simpl. destruct n; [lia| |lia]. simpl. lia.
Qed.

(** Bounds of a floored average. *)
Lemma sum_bounds l lo hi : Forall (fun x => lo <= x <= hi) l ->
  lo * Z.of_nat (length l) <= foldr Z.add 0 l <= hi * Z.of_nat (length l).
Proof. induction 1 as [|x l Hx _ IH]; cbn [foldr length]; [lia|]. nia. Qed.

Lemma average_bounds l lo hi : l <> [] -> Forall (fun x => lo <= x <= hi) l ->
  lo <= foldr Z.add 0 l / Z.of_nat (length l) <= hi.
Proof.
  intros Hne Hf. pose proof (sum_bounds l lo hi Hf). assert (0 < Z.of_nat (length l)) by (destruct l; simpl; [done|lia]).
  split; [apply Z.div_le_lower_bound|apply Z.div_le_upper_bound]; lia.
Qed.

(** The aggregated list of a node: its scores in order. *)
Definition scores_of (k : Z) (l : list SubnetNodeConsensusData) : list Z :=
  map score (filter (fun e => subnet_node_id e = k) l).

Definition append_to (o : option (list Z)) (xs : list Z) : option (list Z) :=
  match o, xs with None, [] => None | None, _ => Some xs | Some l, _ => Some (l ++ xs) end.

Lemma aggregate_loop (l : list SubnetNodeConsensusData) : forall d k,
  dget (foldl (fun d e => dset d (subnet_node_id e)
      (match dget d (subnet_node_id e) with Some l => l | None => [] end ++ [score e])) d l) k =
  append_to (dget d k) (scores_of k l).
Proof.
  induction l as [|e l IH]; intros d k; cbn [foldl].
  { unfold scores_of. simpl. destruct (dget d k); simpl; [by rewrite app_nil_r|done]. }
  rewrite IH. unfold scores_of. rewrite filter_cons. destruct (decide (subnet_node_id e = k)) as [<-|Hne].
  - rewrite dget_dset_eq. simpl. destruct (dget d (subnet_node_id e)); simpl; [by rewrite <- app_assoc|done].
  - by rewrite dget_dset_ne.
Qed.

Lemma aggregate_dget lists k xs :
  dget (aggregate lists) k = Some xs <-> xs = scores_of k (concat lists) /\ xs <> [].
Proof.
  unfold aggregate. rewrite aggregate_loop. simpl. destruct (scores_of k (concat lists)); simpl; naive_solver.
Qed.

Lemma aggregate_dwf lists : dwf (aggregate lists).
Proof.
  unfold aggregate. assert (Hgo : forall l d, dwf d -> dwf (foldl (fun d e => dset d (subnet_node_id e)
      (match dget d (subnet_node_id e) with Some l => l | None => [] end ++ [score e])) d l)); [|auto with py].
  induction l as [|e l IH]; intros d Hd; cbn [foldl]; auto with py.
Qed.

Lemma scores_of_elem k l x : x ∈ scores_of k l -> mkNodeScore k x ∈ l.
Proof.
  unfold scores_of. intros H. apply list_elem_of_fmap in H as (e & -> & He).
  apply list_elem_of_filter in He as [<- He]. by destruct e.
Qed.

(** Looking a score up never fails: the nodes looked up have a filtered score. *)
Lemma score_map_total {A B K : Type} `{EqK : EqDecision K} (key : A -> K) (val : A -> Z) (nkey : B -> K)
    (scores : list A) (included : list B) n :
  n ∈ included -> nkey n ∈ py_set (map key scores) ->
  exists a, a ∈ scores /\ key a = nkey n /\
    dgetitem (dict_of_list (map (fun s => (key s, val s))
      (filter (fun s => key s ∈ py_set (map nkey included)) scores))) (nkey n) = Ok (val a).
Proof.
  intros Hn Hk. rewrite elem_of_py_set in Hk. apply list_elem_of_fmap in Hk as (a & Ha & Hin).
  set (l := map _ _). assert (Hs : is_Some (dget (dict_of_list l) (nkey n))).
  { apply dget_dupdate_in. right. subst l. rewrite <- list_fmap_compose. apply list_elem_of_fmap.
    exists a. split; [done|]. apply list_elem_of_filter. split; [|done].
    rewrite elem_of_py_set, <- Ha. apply list_elem_of_fmap. eauto. }
  destruct Hs as [v Hv]. assert (Hv' := Hv). apply dget_dupdate_value in Hv' as [Hv'|]; [|done].
  subst l. apply list_elem_of_fmap in Hv' as (a' & Heq & Ha'). apply list_elem_of_filter in Ha' as [_ Ha'].
  exists a'. unfold dgetitem. rewrite Hv. simplify_eq. done.
Qed.

Lemma filter_everything {A : Type} (P : A -> Prop) `{!forall x, Decision (P x)} (l : list A) :
  (forall x, x ∈ l -> P x) <-> length (filter P l) = length l.
Proof.
  induction l as [|x l IH]; [split; [done|set_solver]|]. rewrite filter_cons.
  pose proof (length_filter P l). case_decide as Hx; cbn [length]; split; intros H'.
  - f_equal. apply IH. set_solver.
  - intros y Hy. apply elem_of_cons in Hy as [->|Hy]; [done|]. apply IH; [lia|done].
  - exfalso. apply Hx, H'. set_solver.
  - lia.
Qed.

Lemma filter_nothing {A : Type} (P : A -> Prop) `{!forall x, Decision (P x)} (l : list A) :
  (forall x, x ∈ l -> ~ P x) <-> length (filter P l) = 0%nat.
Proof.
  induction l as [|x l IH]; [split; [done|set_solver]|]. rewrite filter_cons.
  case_decide as Hx; cbn [length]; split; intros H'; try lia.
  - exfalso. eapply H'; [|done]. set_solver.
  - apply IH. set_solver.
  - intros y Hy. apply elem_of_cons in Hy as [->|Hy]; [done|]. by apply IH.
Qed.

(** The comparison is 1 exactly on equal non-empty sets. *)
Lemma compare_one (my validator : list SubnetNodeConsensusData) :
  Qeq (compare_consensus_data my validator) 1 <-> (forall x, x ∈ my <-> x ∈ validator) /\ my <> [].
Proof.
  unfold compare_consensus_data.
  set (ms := py_set my). set (vs := py_set validator). set (u := set_union ms vs).
  assert (Hms : forall x, x ∈ ms <-> x ∈ my) by apply elem_of_py_set.
  assert (Hvs : forall x, x ∈ vs <-> x ∈ validator) by apply elem_of_py_set.
  assert (Hlen : length (set_inter ms vs) = length u <->
                 (forall x, x ∈ ms -> x ∈ vs) /\ (forall x, x ∈ vs -> x ∈ ms)).
  { subst u. unfold set_inter, set_union. rewrite length_app.
    pose proof (length_filter (fun x => x ∈ vs) ms) as Hle. split.
    - intros He. assert (H1 : length (filter (fun x => x ∈ vs) ms) = length ms) by lia.
      assert (H0 : length (filter (fun x => x ∉ ms) vs) = 0%nat) by lia.
      split; [exact (proj2 (filter_everything (fun x => x ∈ vs) ms) H1)|]. intros x Hx. apply dec_stable.
      by apply (proj2 (filter_nothing (fun x => x ∉ ms) vs) H0).
    - intros [H1 H2]. rewrite (proj1 (filter_everything (fun x => x ∈ vs) ms) H1).
      rewrite (proj1 (filter_nothing (fun x => x ∉ ms) vs)); [lia|]. intros x Hx Hn. by apply Hn, H2. }
  assert (Hu : u = [] <-> my = [] /\ validator = []).
  { split.
    - intros He. assert (ms = [] /\ vs = []) as [H1 H2].
      { clear Hlen. subst u. unfold set_union in He. apply app_eq_nil in He as [H1 H2]. split; [done|].
        apply (f_equal length) in H2. pose proof (proj2 (filter_nothing (fun x => x ∉ ms) vs) H2) as Hn.
        destruct vs as [|v vs']; [done|]. exfalso. apply (Hn v); [set_solver|]. rewrite H1. set_solver. }
      split; [destruct my as [|x ?]|destruct validator as [|x ?]]; try done; exfalso.
      + assert (x ∈ ms) by (apply Hms; set_solver). rewrite H1 in *. set_solver.
      + assert (x ∈ vs) by (apply Hvs; set_solver). rewrite H2 in *. set_solver.
    - intros [-> ->]. done. }
  destruct u as [|y u'] eqn:Eu.
  - destruct (proj1 Hu eq_refl) as [-> ->]. split; [|naive_solver]. intros H. vm_compute in H. discriminate H.
  - rewrite ratio_one by (cbn [length]; lia). rewrite Nat2Z.inj_iff, Hlen. split.
    + intros [H1 H2]. split; [intros x; rewrite <- Hms, <- Hvs; naive_solver|].
      intros ->. enough (Hv0 : validator = []) by (pose proof (proj2 Hu (conj eq_refl Hv0)); done).
      destruct validator as [|v ?]; [done|]. exfalso.
      assert (Hv : v ∈ vs) by (apply Hvs; set_solver). apply H2, Hms in Hv. set_solver.
    + intros [He _]. setoid_rewrite Hms. setoid_rewrite Hvs. naive_solver.
Qed.

(** * Theorems *)

(** The comparison that decides on attesting is 1 exactly when both sides hold the same
    non-empty set of (node, score) pairs; two empty lists give 100, which no caller accepts. *)
Theorem compare_is_one_iff (my validator : list SubnetNodeConsensusData) :
  (Qeq (compare_consensus_data my validator) 1 <->
   (forall x, x ∈ my <-> x ∈ validator) /\ my <> []) /\
  Qeq (compare_consensus_data [] []) 100.
Proof. split; [apply compare_one|done]. Qed.

(** Formatting the scores for the chain never raises [KeyError], and lists exactly the included nodes
    whose peer has a score, in the order of the chain, each with a score of its own peer. *)
Theorem format_scores_correct (scores : list ConsensusScores) (included : list SubnetNodeInfo) :
  exists filtered formatted,
    filter_and_format_scores_from_peer_id scores included = Ok (filtered, formatted) /\
    (forall s, s ∈ filtered <-> s ∈ scores /\ cs_peer_id s ∈ map node_peer_id included) /\
    Forall2 (fun n x => subnet_node_id x = node_subnet_node_id n /\
               exists s, s ∈ scores /\ cs_peer_id s = node_peer_id n /\ score x = cs_score s)
      (filter (fun n => node_peer_id n ∈ map cs_peer_id scores) included) formatted.
Proof.
  unfold filter_and_format_scores_from_peer_id.
  assert (Hf : filter (fun n => node_peer_id n ∈ py_set (map cs_peer_id scores)) included =
               filter (fun n => node_peer_id n ∈ map cs_peer_id scores) included).
  { apply list_filter_iff. intros. apply elem_of_py_set. }
  rewrite Hf. set (sel := filter (fun n => node_peer_id n ∈ map cs_peer_id scores) included).
  assert (Hsel : forall n, n ∈ sel -> exists s, s ∈ scores /\ cs_peer_id s = node_peer_id n /\
    dgetitem (dict_of_list (map (fun s => (cs_peer_id s, cs_score s))
      (filter (fun s => cs_peer_id s ∈ py_set (map node_peer_id included)) scores))) (node_peer_id n) = Ok (cs_score s)).
  { intros n Hn. apply list_elem_of_filter in Hn as [Hk Hn]. apply score_map_total; [done|]. by rewrite elem_of_py_set. }
  match goal with |- context [mapM_r ?f sel] => destruct (mapM_r_total f sel) as [ys Hys] end.
  { intros n Hn. destruct (Hsel n Hn) as (s & _ & _ & ->). simpl. eauto. }
  rewrite Hys. eexists _, _. split; [done|]. split.
  - intros s. rewrite list_elem_of_filter, elem_of_py_set. tauto.
  - apply mapM_r_Forall2 in Hys. apply Forall2_same_length_lookup_2.
    + by eapply Forall2_length.
    + intros i n x Hn Hx. pose proof (Forall2_lookup_lr _ _ _ _ _ _ Hys Hn Hx) as Hnx. cbv beta in Hnx.
      destruct (Hsel n) as (s & Hs & Hp & Hd); [by eapply list_elem_of_lookup_2|].
      rewrite Hd in Hnx. simpl in Hnx. simplify_eq. split; [done|]. eauto.
Qed.

(** Averaging never divides by zero; it returns one score per node that occurs in some list, and the
    score lies between the bounds of that node's scores. *)
Theorem average_scores_bounded (lists : list (list SubnetNodeConsensusData)) :
  exists avg, average_consensus_scores lists = Ok avg /\ NoDup (map subnet_node_id avg) /\
    (forall k, k ∈ map subnet_node_id avg <-> k ∈ map subnet_node_id (concat lists)) /\
    forall x lo hi, x ∈ avg ->
      (forall e, e ∈ concat lists -> subnet_node_id e = subnet_node_id x -> lo <= score e <= hi) ->
      lo <= score x <= hi.
Proof.
  unfold average_consensus_scores. pose proof (aggregate_dwf lists) as Hwf.
  assert (Hag : forall e, e ∈ aggregate lists -> e.2 = scores_of e.1 (concat lists) /\ e.2 <> []).
  { intros [k xs] He. apply aggregate_dget. by apply dwf_elem_dget. }
  match goal with |- context [mapM_r ?f _] => destruct (mapM_r_total f (aggregate lists)) as [ys Hys] end.
  { intros e He. destruct (Hag e He) as [_ Hne]. destruct e.2; [done|]. eauto. }
  exists ys. split; [done|]. apply mapM_r_Forall2 in Hys.
  assert (Hid : map subnet_node_id ys = dkeys (aggregate lists)).
  { unfold dkeys. clear Hwf Hag. induction Hys as [|e y l ys He _ IH]; [done|]. simpl. f_equal; [|done].
    destruct e.2; [done|]. by simplify_eq. }
  split; [by rewrite Hid|]. split.
  - intros k. rewrite Hid, <- dget_dkeys. split.
    + intros [xs Hx]. apply aggregate_dget in Hx as [-> Hne].
      destruct (scores_of k (concat lists)) as [|x xs] eqn:E; [done|].
      assert (Hin : mkNodeScore k x ∈ concat lists) by (apply scores_of_elem; rewrite E; set_solver).
      apply list_elem_of_fmap. by exists (mkNodeScore k x).
    + intros Hk. apply list_elem_of_fmap in Hk as (e & -> & He).
      exists (scores_of (subnet_node_id e) (concat lists)). apply aggregate_dget. split; [done|]. intros H0.
      assert (Hin : score e ∈ scores_of (subnet_node_id e) (concat lists)).
      { apply list_elem_of_fmap. exists e. split; [done|]. apply list_elem_of_filter. done. }
      rewrite H0 in Hin. set_solver.
  - intros x lo hi Hx Hb. apply list_elem_of_lookup in Hx as [i Hx].
    destruct (Forall2_lookup_r _ _ _ _ _ Hys Hx) as (e & Hei & Hex).
    destruct (Hag e) as [He Hne]; [by eapply list_elem_of_lookup_2|].
    assert (Hfa : Forall (fun v => lo <= v <= hi) e.2).
    { rewrite He. apply Forall_forall. intros v Hv. apply scores_of_elem in Hv.
      apply (Hb _ Hv). simpl. destruct e.2; [done|]. by simplify_eq. }
    pose proof (average_bounds e.2 lo hi Hne Hfa) as Hav. destruct e.2; [done|]. by simplify_eq.
Qed.
End Scores.
Arguments ConsensusScores : clear implicits.
Arguments SubnetNodeInfo : clear implicits.
