(* ===== verification/PyFloat.v ===== *)
(** * Python floats

    A float is a rational number, an infinity or NaN.  The rounding of exact results is a parameter with the laws the proofs
    need, all of them true of the doubles of IEEE 754; an operation whose rounded result is beyond the largest double
    gives an infinity, except [**], which raises [OverflowError].  The sign of a zero is not kept. *)

From Stdlib Require Import QArith Qround.
From S2P Require Import Prelude.
#[local] Open Scope Q_scope.

(** Rounding to a float with an unbounded exponent: monotone, and exact on integers of 53 bits times a power of two, and on [2 ** -27]. *)
Class Float := rnd : Q -> Q.
Definition big (z j : Z) : Q := inject_Z (z * 2 ^ j).
Class FloatLaws `{Float} : Prop := {
  rnd_mono x y : x <= y -> rnd x <= rnd y;
  rnd_exact z j : (- 2 ^ 53 <= z <= 2 ^ 53)%Z -> (0 <= j <= 970)%Z -> rnd (big z j) == big z j;
  rnd_tiny : rnd (1 # 134217728) == (1 # 134217728);
}.

Inductive pyfloat : Type := Fin (q : Q) | Inf (negative : bool) | NaN.

(** [sys.float_info.max] *)
Definition FLOAT_MAX : Q := big (2 ^ 53 - 1) 971.

(** [int(x)] of a finite float: towards zero. *)
Definition py_int (q : Q) : Z := if Qle_bool 0 q then Qfloor q else (- Qfloor (- q))%Z.

Section Floats.
Context `{Fl : Float}.

Definition to_float (q : Q) : pyfloat :=
  let r := rnd q in
  if Qle_bool r FLOAT_MAX && Qle_bool (- FLOAT_MAX) r then Fin r else Inf (negb (Qle_bool 0 r)).

Definition fneg (x : pyfloat) : pyfloat :=
  match x with Fin a => Fin (- a) | Inf n => Inf (negb n) | NaN => NaN end.

Definition fadd (x y : pyfloat) : pyfloat :=
  match x, y with
  | Fin a, Fin b => to_float (a + b)
  | NaN, _ | _, NaN => NaN
  | Inf m, Inf n => if Bool.eqb m n then Inf m else NaN
  | Inf m, Fin _ => Inf m
  | Fin _, Inf n => Inf n
  end.

Definition fsub (x y : pyfloat) : pyfloat := fadd x (fneg y).

(** [x ** 2] *)
Definition fsquare (x : pyfloat) : result pyfloat :=
  match x with
  | Fin a => match to_float (a * a) with Fin r => Ok (Fin r) | _ => Raise OverflowError end
  | Inf _ => Ok (Inf false)
  | NaN => Ok NaN
  end.

(** [x / y] *)
Definition fdiv (x y : pyfloat) : result pyfloat :=
  match y with
  | Fin b =>
      if Qeq_bool b 0 then Raise ZeroDivisionError
      else Ok match x with Fin a => to_float (a / b) | Inf n => Inf (xorb n (negb (Qle_bool 0 b))) | NaN => NaN end
  | Inf _ => Ok match x with Fin _ => Fin 0 | _ => NaN end
  | NaN => Ok NaN
  end.

(** [x < y]; nothing is less than NaN, nor greater. *)
Definition flt (x y : pyfloat) : bool :=
  match x, y with
  | NaN, _ | _, NaN => false
  | Fin a, Fin b => negb (Qle_bool b a)
  | Inf true, Inf true | Inf false, _ => false
  | Inf true, _ | Fin _, Inf false => true
  | Fin _, Inf true => false
  end.

(** [max(x, y)]: the first of the largest. *)
Definition fmax (x y : pyfloat) : pyfloat := if flt x y then y else x.

(** [int(x * c)] for a positive constant *)
Definition int_scaled (c : Q) (x : pyfloat) : result Z :=
  match match x with Fin a => to_float (a * c) | Inf n => Inf n | NaN => NaN end with
  | Fin r => Ok (py_int r)
  | Inf _ => Raise OverflowError
  | NaN => Raise ValueError
  end.

(** [statistics.mean]: the exact mean, rounded once; with infinities or NaNs among the numbers, their sum. *)
Definition qsum (l : list Q) : Q := foldr Qplus 0 l.
Definition finite_part (x : pyfloat) : option Q := match x with Fin q => Some q | _ => None end.
Definition is_finite (x : pyfloat) : bool := match x with Fin _ => true | _ => false end.
Definition mean (l : list pyfloat) : pyfloat :=
  match filter (fun x => is_finite x = false) l with
  | [] => to_float (qsum (omap finite_part l) / inject_Z (Z.of_nat (length l)))
  | xs => foldl fadd (Fin 0) xs
  end.

(** ** Values that are not finite spread *)

Lemma fadd_not_finite x y : is_finite x = false -> is_finite (fadd x y) = false.
Proof. destruct x as [|[]|], y as [|[]|]; done. Qed.

Lemma fadd_not_finite_r x y : is_finite y = false -> is_finite (fadd x y) = false.
Proof. destruct x as [|[]|], y as [|[]|]; done. Qed.

Lemma foldl_fadd_not_finite l : forall x, is_finite x = false -> is_finite (foldl fadd x l) = false.
Proof. induction l as [|y l IH]; intros x Hx; cbn [foldl]; [done|]. by apply IH, fadd_not_finite. Qed.

Lemma mean_not_finite l x : x ∈ l -> is_finite x = false -> is_finite (mean l) = false.
Proof.
  intros Hx Hf. unfold mean. assert (Hin : x ∈ filter (fun x => is_finite x = false) l) by (by apply list_elem_of_filter).
  destruct (filter _ l) as [|y ys] eqn:E; [by apply not_elem_of_nil in Hin|]. cbn [foldl].
  assert (Hy : is_finite y = false).
  { assert (H : y ∈ filter (fun x => is_finite x = false) l) by (rewrite E; apply list_elem_of_here). by apply list_elem_of_filter in H as [? _]. }
  by apply foldl_fadd_not_finite, fadd_not_finite_r.
Qed.

(** The difference of a value that is not finite and a mean it went into. *)
Lemma fsub_infinite x y : is_finite y = false -> is_finite (fsub x y) = false.
Proof. intros Hy. apply fadd_not_finite_r. by destruct y. Qed.

(** ** Bounds *)

Context {FlL : FloatLaws}.

#[export] Instance rnd_Proper : Proper (Qeq ==> Qeq) rnd.
Proof. intros x y E. apply Qle_antisym; apply rnd_mono; rewrite E; apply Qle_refl. Qed.

Lemma rnd_0 : rnd 0 == 0.
Proof. change 0 with (big 0 0). by apply rnd_exact. Qed.

Lemma rnd_1 : rnd 1 == 1.
Proof. change 1 with (big 1 0). by apply rnd_exact. Qed.

Lemma rnd_scale : rnd (inject_Z (10 ^ 18)) == inject_Z (10 ^ 18).
Proof. change (inject_Z (10 ^ 18)) with (big (5 ^ 18) 18). by apply rnd_exact. Qed.

Lemma rnd_nonneg x : 0 <= x -> 0 <= rnd x.
Proof. intros Hx. rewrite <- rnd_0. by apply rnd_mono. Qed.

Lemma rnd_epsilon : (1 # 134217728) <= rnd (1 # 100000000).
Proof. rewrite <- rnd_tiny at 1. apply rnd_mono. by vm_compute. Qed.

Lemma big_le z z' j j' : (0 <= z <= z')%Z -> (0 <= j <= j')%Z -> big z j <= big z' j'.
Proof.
  intros Hz Hj. unfold big. rewrite <- Zle_Qle. apply Z.mul_le_mono_nonneg; [lia|lia|apply Z.pow_nonneg; lia|].
  by apply Z.pow_le_mono_r; lia.
Qed.

Lemma big_opp z j : - big z j == big (- z) j.
Proof. unfold big. rewrite <- inject_Z_opp. by rewrite Z.mul_opp_l. Qed.

Lemma big_add z z' j : big z j + big z' j == big (z + z') j.
Proof. unfold big. rewrite <- inject_Z_plus. by rewrite Z.mul_add_distr_r. Qed.

Lemma big_mul z z' j j' : (0 <= j)%Z -> (0 <= j')%Z -> big z j * big z' j' == big (z * z') (j + j').
Proof. intros Hj Hj'. unfold big. rewrite <- inject_Z_mult, Z.pow_add_r by done. f_equiv. lia. Qed.

(** Within a representable bound nothing overflows, and the bound is kept. *)
Lemma to_float_within z j q :
  (0 <= z <= 2 ^ 53)%Z -> (0 <= j <= 970)%Z -> - big z j <= q -> q <= big z j ->
  to_float q = Fin (rnd q) /\ - big z j <= rnd q /\ rnd q <= big z j.
Proof.
  intros Hz Hj H1 H2.
  assert (B1 : - big z j <= rnd q) by (rewrite big_opp, <- (rnd_exact (- z) j) by lia; apply rnd_mono; by rewrite <- big_opp).
  assert (B2 : rnd q <= big z j) by (rewrite <- (rnd_exact z j) by lia; by apply rnd_mono).
  assert (Hmax : big z j <= FLOAT_MAX).
  { apply (Qle_trans _ (big (2 ^ 53) 970)); [apply big_le; lia|]. by vm_compute. }
  split_and!; [|done|done]. unfold to_float.
  rewrite (proj2 (Qle_bool_iff _ _) (Qle_trans _ _ _ B2 Hmax)), (proj2 (Qle_bool_iff (- FLOAT_MAX) (rnd q))); [done|].
  apply (Qle_trans _ (- big z j)); [|done]. by apply Qopp_le_compat.
Qed.

Lemma square_nonneg x : 0 <= x * x.
Proof. unfold Qle, Qmult. simpl. nia. Qed.

Lemma square_bound x b : - b <= x -> x <= b -> x * x <= b * b.
Proof.
  intros H1 H2. assert (H : 0 <= (b - x) * (b + x)).
  { apply Qmult_le_0_compat; [by apply -> Qle_minus_iff|]. apply Qle_minus_iff in H1. by rewrite Qopp_involutive, Qplus_comm in H1. }
  apply Qle_minus_iff. setoid_replace (b * b + - (x * x)) with ((b - x) * (b + x)) using relation Qeq by ring. done.
Qed.

(** The mean of values within a representable bound is within it. *)
Lemma qsum_within l b : Forall (fun x => - b <= x /\ x <= b) l ->
  - (b * inject_Z (Z.of_nat (length l))) <= qsum l /\ qsum l <= b * inject_Z (Z.of_nat (length l)).
Proof.
  induction 1 as [|x l [H1 H2] _ [IH1 IH2]]; cbn [qsum foldr length].
  - rewrite Qmult_0_r. by vm_compute.
  - unfold qsum in *. rewrite Nat2Z.inj_succ. unfold Z.succ. rewrite inject_Z_plus.
    setoid_replace (b * (inject_Z (Z.of_nat (length l)) + inject_Z 1)) with (b + b * inject_Z (Z.of_nat (length l))) using relation Qeq by (change (inject_Z 1) with 1; ring).
    split; [|by apply Qplus_le_compat]. rewrite Qopp_plus. by apply Qplus_le_compat.
Qed.

Definition within (b : Q) (x : pyfloat) : Prop := exists q, x = Fin q /\ - b <= q /\ q <= b.

Lemma within_finite b l : Forall (within b) l -> filter (fun x => is_finite x = false) l = [] /\
  length (omap finite_part l) = length l /\ Forall (fun x => - b <= x /\ x <= b) (omap finite_part l).
Proof.
  induction 1 as [|x l (q & -> & Hq) _ (IH1 & IH2 & IH3)]; [done|]. split_and!.
  - by rewrite filter_cons_False.
  - cbn. by rewrite IH2.
  - cbn. by constructor.
Qed.

Lemma mean_within z j l : (0 <= z <= 2 ^ 53)%Z -> (0 <= j <= 970)%Z -> l <> [] -> Forall (within (big z j)) l -> within (big z j) (mean l).
Proof.
  intros Hz Hj Hne Hl. destruct (within_finite _ _ Hl) as (Hf & Hlen & Hw). unfold mean. rewrite Hf.
  destruct (qsum_within _ _ Hw) as [B1 B2]. rewrite Hlen in B1, B2. set (n := inject_Z (Z.of_nat (length l))) in *.
  assert (Hn : 0 < n) by (subst n; destruct l; [done|]; unfold Qlt; simpl; lia).
  destruct (to_float_within z j (qsum (omap finite_part l) / n)) as (-> & H1 & H2); [done|done| | |].
  - apply Qle_shift_div_l; [done|]. by setoid_replace (- big z j * n) with (- (big z j * n)) using relation Qeq by ring.
  - by apply Qle_shift_div_r.
  - eexists. split; [done|]. done.
Qed.

(** Equal values have that value as their mean. *)
Lemma qsum_const l c : Forall (fun x => x == c) l -> qsum l == c * inject_Z (Z.of_nat (length l)).
Proof.
  induction 1 as [|x l Hx _ IH]; cbn [qsum foldr length].
  - rewrite Qmult_0_r. apply Qeq_refl.
  - unfold qsum in IH. rewrite IH, Hx, Nat2Z.inj_succ. unfold Z.succ. rewrite inject_Z_plus. ring.
Qed.

Lemma scaled_bounds v : 0 <= v -> v <= 1 -> exists n, int_scaled (inject_Z (10 ^ 18)) (Fin v) = Ok n /\ (0 <= n <= 10 ^ 18)%Z /\ (v == 1 -> n = (10 ^ 18)%Z).
Proof.
  intros H0 H1. set (c := inject_Z (10 ^ 18)). assert (Hc : 0 <= c) by by vm_compute.
  assert (Hb : 0 <= v * c) by (by apply Qmult_le_0_compat).
  assert (Hb' : v * c <= c) by (rewrite <- (Qmult_1_l c) at 2; by apply Qmult_le_compat_r).
  destruct (to_float_within (5 ^ 18) 18 (v * c)) as (E & _ & Hle); [lia|lia| |done|].
  { apply (Qle_trans _ 0); [by vm_compute|done]. }
  unfold int_scaled. rewrite E. eexists. split; [done|]. pose proof (rnd_nonneg _ Hb) as Hr. unfold py_int. rewrite (proj2 (Qle_bool_iff _ _) Hr).
  split; [split|].
  - change 0%Z with (Qfloor 0). by apply Qfloor_resp_le.
  - rewrite <- (Qfloor_Z (10 ^ 18)). by apply Qfloor_resp_le.
  - intros Hv. rewrite <- (Qfloor_Z (10 ^ 18)). apply Qfloor_comp. subst c. rewrite Hv, Qmult_1_l. apply rnd_scale.
Qed.
End Floats.

(** ** No rounding at all satisfies the laws. *)

#[export] Instance exact_float : Float := fun x => x.
#[export] Instance exact_float_laws : FloatLaws.
Proof. split; intros; unfold rnd, exact_float; try done; try apply Qeq_refl. Qed.
