(* ===== verification/Task.v ===== *)
(** * Task commit-reveal and scoring ([mesh/subnet/consensus/task.py], [TaskCommitReveal])

    A verifier sends each peer an equation, commits to a hash of the answers, reveals them later,
    and every node recomputes the hashes and scores the verifiers.  The hash and pickle are
    parameters; the scores are floats (file [PyFloat]): what a validator reveals need not be finite. *)

From Stdlib Require Import QArith Qround String.
From S2P Require Import Prelude DHTID Epoch CommitReveal Scores PyFloat.
#[local] Open Scope Z_scope.

Section Task.
Context {Peer : Type} `{EqP : EqDecision Peer} `{Fl : Float}.

(** ** Equations *)

Inductive operator : Type := Add | Sub | Mul | Div.
Record equation : Type := mkEq { num1 : Z; op : operator; num2 : Z }.

(** [generate_task]: the random choices are given; the second component lists the pairs drawn. *)
Fixpoint draw_divisible (draws : list (Z * Z)) : option (Z * Z) :=
  match draws with
  | [] => None
  | (a, b) :: rest =>
      if negb (a mod b =? 0) || (b =? 0) then draw_divisible rest else Some (a, b)
  end.

Definition generate_task (o : operator) (draws : list (Z * Z)) : option equation :=
  match draws with
  | [] => None
  | (a, b) :: _ =>
      match o with
      | Div => match draw_divisible draws with Some (a, b) => Some (mkEq a Div b) | None => None end
      | _ => Some (mkEq a o b)
      end
  end.

(** [float(eval(equation))] *)
Definition eval_task (e : equation) : result Q :=
  match op e with
  | Add => Ok (rnd (inject_Z (num1 e + num2 e)))
  | Sub => Ok (rnd (inject_Z (num1 e - num2 e)))
  | Mul => Ok (rnd (inject_Z (num1 e * num2 e)))
  | Div => if num2 e =? 0 then Raise ZeroDivisionError else Ok (rnd (ratio (num1 e) (num2 e)))
  end.

(** ** Commit and reveal *)

Record MathData : Type := mkMath {
  md_peer_id : Peer;
  md_equation : equation;
  md_answer : Q;
  md_peer_answer : Q;
  md_score : pyfloat;
}.

(** What is put into the DHT, under a key, for a number of seconds. *)
Inductive Stored : Type :=
  | StoreCommit (key : string) (digest : bytes) (lifetime : Z)
  | StoreReveal (key : string) (salt data : bytes) (lifetime : Z).

Record Commitment : Type := mkCommit { target_epoch : Z; salt : bytes; data_bytes : bytes }.

Record TaskCommitReveal : Type := mkTask {
  latest_task_commit : option Commitment;
  latest_scores_commit : pydict Z Commitment;
}.

Variable sha256 : bytes -> bytes.
Variable dumps_tasks : list MathData -> bytes.
Variable loads_tasks : bytes -> result (list MathData).
Variable dumps_scores : list SubnetNodeConsensusData -> bytes.
Variable loads_scores : bytes -> result (list SubnetNodeConsensusData).
(** [extract_peer_id_from_record_validator], in base58 form *)
Variable extract : bytes -> option Peer.

(** Times the factor 0.9. *)
Definition commit_lifetime : Z := MAX_COMMIT_TIME * 9 / 10.
Definition reveal_lifetime : Z := MAX_REVEAL_TIME * 9 / 10.

(** The loop over the peers: [answers] is what a peer returns for an equation. *)
Fixpoint evaluate_peers (own : Peer) (peers : list (Peer * equation)) (answers : Peer -> equation -> result Q)
    : result (list MathData) :=
  match peers with
  | [] => Ok []
  | (p, eq) :: rest =>
      if decide (p = own) then evaluate_peers own rest answers
      else
        let* mine := eval_task eq in
        let* theirs := answers p eq in
        let* l := evaluate_peers own rest answers in
        Ok (mkMath p eq mine theirs (Fin (if Qeq_bool mine theirs then 1 else 0)) :: l)
  end.

(** [call_and_commit_all_tasks] *)
Definition call_and_commit_all_tasks (st : TaskCommitReveal) (own : Peer) (peers : list (Peer * equation))
    (answers : Peer -> equation -> result Q) (salt : bytes) (current_epoch : Z)
    : result (TaskCommitReveal * list Stored) :=
  let* evals := evaluate_peers own peers answers in
  match evals with
  | [] => Ok (st, [])
  | _ =>
      let evals_bytes := dumps_tasks evals in
      let digest := sha256 (salt ++ evals_bytes) in
      Ok (mkTask (Some (mkCommit current_epoch salt evals_bytes)) (latest_scores_commit st),
          [StoreCommit (get_verifier_commit_key current_epoch) digest commit_lifetime])
  end.

(** [reveal_tasks] *)
Definition reveal_tasks (st : TaskCommitReveal) (current_epoch : Z) : list Stored :=
  match latest_task_commit st with
  | Some c => if target_epoch c =? current_epoch
              then [StoreReveal (get_verifier_reveal_key current_epoch) (salt c) (data_bytes c) reveal_lifetime]
              else []
  | None => []
  end.

(** [commit_scores] *)
Definition commit_scores (st : TaskCommitReveal) (current_epoch : Z) (scores : list SubnetNodeConsensusData)
    (salt : bytes) : TaskCommitReveal * list Stored :=
  let scores_bytes := dumps_scores scores in
  let digest := sha256 (salt ++ scores_bytes) in
  (mkTask (latest_task_commit st)
     (dset (latest_scores_commit st) current_epoch (mkCommit current_epoch salt scores_bytes)),
   [StoreCommit (get_scores_commit_key current_epoch) digest commit_lifetime]).

(** [reveal_scores]: the commit of two epochs ago *)
Definition reveal_scores (st : TaskCommitReveal) (current_epoch : Z) : list Stored :=
  match dget (latest_scores_commit st) (current_epoch - 2) with
  | Some c => [StoreReveal (get_scores_reveal_key current_epoch) (salt c) (data_bytes c) reveal_lifetime]
  | None => []
  end.

(** ** Verification *)

(** A revealed payload; [None] if it has not the expected shape. *)
Definition payload : Type := option (bytes * bytes).

(** What [dht.get(key)] returned for the commits and for the reveals of a key. *)
Definition commit_records : Type := option (pydict bytes bytes).
Definition reveal_records : Type := option (pydict bytes payload).

(** The body of the loops: check the hash, parse.  [None] when the entry is skipped, either by
    [continue] or by an exception. *)
Definition check_reveal {X} (parse : bytes -> result X) (commits : commit_records) (pk : bytes) (pl : payload)
    : option (Peer * X) :=
  match pl, commits with
  | Some (salt, data), Some c =>
      match dget c pk with
      | Some committed =>
          if decide (committed = sha256 (salt ++ data)) then
            match parse data, extract pk with
            | Ok x, Some p => Some (p, x)
            | _, _ => None
            end
          else None
      | None => None
      end
  | _, _ => None
  end.

Definition collect {X} (parse : bytes -> result X) (attested : Peer -> bool) (commits : commit_records)
    (reveals : pydict bytes payload) : pydict Peer X :=
  foldl (fun d e => match check_reveal parse commits e.1 e.2 with
                    | Some (p, x) => if attested p then dset d p x else d
                    | None => d
                    end) [] reveals.

(** [int(x * 1e18)] *)
Definition scaled : pyfloat -> result Z := int_scaled (inject_Z (10 ^ 18)).

(** [verify_score_reveals] *)
Definition verify_score_reveals (commits : commit_records) (reveals : reveal_records)
    (consensus : option ConsensusData) (included : list (SubnetNodeInfo Peer)) : result (option (list (ConsensusScores Peer))) :=
  match reveals, commits with
  | None, None => Ok None
  | _, _ =>
      match consensus with
      | None => Ok None
      | Some c =>
          let* ar := get_attestation_ratio c in
          if negb (Qle_bool (33 # 50) ar) then Ok None
          else
            let* rv := of_option AttributeError reveals in
            let attested p := did_node_attest (get_peers_node_id p included) c in
            let results := collect loads_scores attested commits rv in
            rmap Some (mapM_r (fun e =>
              let* n := scaled (Fin (compare_consensus_data e.2 (consensus_scores c))) in Ok (mkScore e.1 n)) results)
      end
  end.

(** Step 1: the scores given to each peer, in order of first appearance. *)
Definition peer_scores (results : pydict Peer (list MathData)) : pydict Peer (list pyfloat) :=
  foldl (fun d m => dset d (md_peer_id m) (match dget d (md_peer_id m) with Some l => l | None => [] end ++ [md_score m]))
    [] (concat (dvalues results)).

(** Step 2 *)
Definition peer_means (results : pydict Peer (list MathData)) : pydict Peer pyfloat :=
  map (fun e => (e.1, mean e.2)) (peer_scores results).

(** Step 3: the sum of the squared errors of a validator *)
Definition add_error (means : pydict Peer pyfloat) (error_sum : pyfloat) (m : MathData) : result pyfloat :=
  match dget means (md_peer_id m) with
  | Some mu => let* sq := fsquare (fsub (md_score m) mu) in Ok (fadd error_sum sq)
  | None => Ok error_sum
  end.
Definition validator_error (means : pydict Peer pyfloat) (l : list MathData) : result pyfloat :=
  foldM_r (add_error means) (Fin 0) l.

Definition EPSILON : Q := rnd (1 # 100000000).

(** [max(values, default=1.0)] *)
Definition max_or_one (l : list pyfloat) : pyfloat := match l with [] => Fin 1 | x :: t => foldl fmax x t end.

(** Step 4 *)
Definition validator_score (max_error error : pyfloat) : result pyfloat :=
  let* ratio := fdiv error (fadd max_error (Fin EPSILON)) in
  Ok (fmax (fsub (Fin 1) ratio) (Fin 0)).

Definition score_validators (results : pydict Peer (list MathData)) : result (list (ConsensusScores Peer)) :=
  let means := peer_means results in
  let* errors := mapM_r (fun e => let* err := validator_error means e.2 in Ok (e.1, err)) results in
  let max_error := max_or_one (dvalues errors) in
  let* scores := mapM_r (fun e => let* v := validator_score max_error e.2 in Ok (e.1, v)) errors in
  mapM_r (fun e => let* n := scaled e.2 in Ok (mkScore e.1 n)) scores.

(** [verify_and_score_peers]; the records, the nodes and the consensus data are what the DHT and the chain
    return. *)
Definition verify_and_score_peers (commits : commit_records) (reveals : reveal_records)
    (score_commits : commit_records) (score_reveals : reveal_records)
    (included : list (SubnetNodeInfo Peer)) (consensus : option ConsensusData)
    : result (option (list (ConsensusScores Peer) * list SubnetNodeConsensusData)) :=
  match reveals, commits with
  | None, None => Ok None
  | None, Some _ => Raise AttributeError
  | Some rv, _ =>
      let results := collect loads_tasks (fun _ => true) commits rv in
      let* validator_scores := score_validators results in
      let* (scores, formatted) := filter_and_format_scores_from_peer_id validator_scores included in
      let* revealed := verify_score_reveals score_commits score_reveals consensus included in
      match revealed with
      | Some ((_ :: _) as rs) =>
          let* (_, formatted') := filter_and_format_scores_from_peer_id rs included in
          let* final := average_consensus_scores [formatted; formatted'] in
          rmap Some (filter_and_format_scores_from_subnet_node_id final included)
      | _ => Ok (Some (scores, formatted))
      end
  end.

(** ** Lemmas *)

Lemma mapM_r_related {A B} (f : A -> result B) (R : A -> B -> Prop) l :
  (forall x, x ∈ l -> exists y, f x = Ok y /\ R x y) -> exists ys, mapM_r f l = Ok ys /\ Forall2 R l ys.
Proof.
  induction l as [|x l IH]; intros H; cbn [mapM_r]; [eauto|]. destruct (H x) as (y & -> & Hy); [set_solver|].
  destruct IH as (ys & -> & Hys); [set_solver|]. cbn. eauto.
Qed.

Abbreviation group := (foldl (fun (d : pydict Peer (list pyfloat)) (m : MathData) => dset d (md_peer_id m)
      (match dget d (md_peer_id m) with Some l => l | None => [] end ++ [md_score m]))).

(** The scores grouped under a peer are scores given to that peer. *)
Lemma peer_scores_spec (l : list MathData) : forall d (P : Peer -> pyfloat -> Prop),
  (forall p xs, dget d p = Some xs -> xs <> [] /\ Forall (P p) xs) ->
  Forall (fun m => P (md_peer_id m) (md_score m)) l ->
  forall p xs, dget (group d l) p = Some xs -> xs <> [] /\ Forall (P p) xs.
Proof.
  induction l as [|m l IH]; intros d P Hd Hl p xs; cbn [foldl]; [apply Hd|].
  apply Forall_cons in Hl as [Hm Hl]. apply IH; [|done]. clear p xs. intros p xs.
  destruct (decide (md_peer_id m = p)) as [<-|Hne]; [|rewrite dget_dset_ne by done; apply Hd].
  rewrite dget_dset_eq. intros [= <-]. destruct (dget d (md_peer_id m)) as [ys|] eqn:E.
  - destruct (Hd _ _ E) as [Hne Hf]. split; [by destruct ys|]. apply Forall_app. split; [done|]. by apply Forall_singleton.
  - split; [done|]. by apply Forall_singleton.
Qed.

(** Every score given is among those of its peer. *)
Lemma peer_scores_in (l : list MathData) m : forall d,
  m ∈ l \/ (exists xs, dget d (md_peer_id m) = Some xs /\ md_score m ∈ xs) ->
  exists xs, dget (group d l) (md_peer_id m) = Some xs /\ md_score m ∈ xs.
Proof.
  induction l as [|m' l IH]; intros d H; cbn [foldl]; [by destruct H as [H%not_elem_of_nil|H]|]. apply IH. destruct H as [H|(xs & Hx & Hin)].
  - apply elem_of_cons in H as [->|H]; [|by left]. right. rewrite dget_dset_eq. eexists. split; [done|]. apply elem_of_app. right. apply list_elem_of_here.
  - right. destruct (decide (md_peer_id m' = md_peer_id m)) as [->|Hne].
    + rewrite dget_dset_eq, Hx. eexists. split; [done|]. apply elem_of_app. by left.
    + rewrite dget_dset_ne by done. eauto.
Qed.

Lemma dget_map_value {K A B : Type} `{EqK : EqDecision K} (g : A -> B) (d : pydict K A) k :
  dget (map (fun e => (e.1, g e.2)) d) k = option_map g (dget d k).
Proof.
  induction d as [|[k' a] d IH]; simpl; [done|]. destruct (decide (k' = k)); [done|apply IH].
Qed.

Lemma concat_values (results : pydict Peer (list MathData)) v l m : (v, l) ∈ results -> m ∈ l -> m ∈ concat (dvalues results).
Proof.
  intros Hl Hm. apply list_elem_of_In, in_concat. exists l. split; apply list_elem_of_In; [|done]. apply list_elem_of_fmap. by exists (v, l).
Qed.

(** ** A score that is not finite *)

Definition poisoned (x : pyfloat) : Prop := x = Inf false \/ x = NaN.

Lemma fsquare_cases x sq : fsquare x = Ok sq -> is_finite sq = true \/ poisoned sq.
Proof.
  unfold fsquare, poisoned. destruct x as [a| |]; [destruct (to_float (a * a)); [|done|done]|..]; intros; simplify_eq; auto.
Qed.

Lemma fadd_poisoned acc x : poisoned x -> poisoned (fadd acc x).
Proof. unfold poisoned. destruct acc as [|[]|]; intros [-> | ->]; cbn; auto. Qed.

Lemma add_error_poisoned means acc m acc' : poisoned acc -> add_error means acc m = Ok acc' -> poisoned acc'.
Proof.
  unfold add_error. intros Ha. destruct (dget means _) as [mu|]; [|intros; by simplify_eq].
  destruct (fsquare _) as [sq|] eqn:E; [|done]. cbn. intros. simplify_eq. apply fsquare_cases in E. unfold poisoned in *.
  destruct Ha as [-> | ->], E as [E|[-> | ->]]; try (destruct sq; [|done..]); cbn; auto.
Qed.

Lemma validator_error_poisoned means l m mu e : forall acc,
  m ∈ l -> dget means (md_peer_id m) = Some mu -> is_finite mu = false -> foldM_r (add_error means) acc l = Ok e -> poisoned e.
Proof.
  intros acc Hm Hmu Hf. revert acc.
  assert (Hkeep : forall l acc, poisoned acc -> foldM_r (add_error means) acc l = Ok e -> poisoned e).
  { clear. induction l as [|m l IH]; intros acc Ha H; cbn [foldM_r] in H; [by simplify_eq|].
    destruct (add_error means acc m) as [acc'|] eqn:E; [|done]. eapply IH; [|exact H]. by eapply add_error_poisoned. }
  induction l as [|m' l IH]; intros acc H; [by apply not_elem_of_nil in Hm|]. cbn [foldM_r] in H.
  destruct (add_error means acc m') as [acc'|] eqn:E; [|done]. cbn [rbind] in H. apply elem_of_cons in Hm as [<-|Hm]; [|by eapply IH].
  eapply Hkeep; [|exact H]. unfold add_error in E. rewrite Hmu in E. pose proof (fsub_infinite (md_score m) mu Hf) as Hd.
  destruct (fsub (md_score m) mu); [done|..]; cbn in E; simplify_eq; apply fadd_poisoned; unfold poisoned; auto.
Qed.

Lemma fmax_poisoned x y : poisoned x -> poisoned (fmax x y).
Proof. unfold poisoned, fmax. intros [-> | ->]; [|by auto]. by destruct y; auto. Qed.

Lemma max_poisoned l : Inf false ∈ l -> poisoned (max_or_one l).
Proof.
  assert (Hkeep : forall l x, poisoned x -> poisoned (foldl fmax x l)).
  { clear. induction l as [|y l IH]; intros x Hx; cbn [foldl]; [done|]. by apply IH, fmax_poisoned. }
  destruct l as [|x l]; [by intros ?%not_elem_of_nil|]. cbn [max_or_one]. intros H. apply elem_of_cons in H as [<-|H].
  { apply Hkeep. by left. }
  revert x. induction l as [|y l IH]; intros x; [by apply not_elem_of_nil in H|]. cbn [foldl].
  apply elem_of_cons in H as [<-|H]; [|by apply IH]. apply Hkeep. unfold poisoned, fmax. destruct x as [|[]|]; cbn; auto.
Qed.

(** The score of a validator with such an error is NaN, or its computation raises. *)
Lemma validator_score_poisoned mx e v :
  poisoned e -> (e = Inf false -> poisoned mx) -> validator_score mx e = Ok v -> v = NaN.
Proof.
  unfold validator_score. intros [-> | ->] Hmx; [destruct (Hmx eq_refl) as [-> | ->]; cbn; by intros; simplify_eq|].
  destruct (fadd mx (Fin EPSILON)); cbn; [destruct (Qeq_bool _ _)|..]; cbn; intros; by simplify_eq.
Qed.

(** ** Scores within bounds *)

Context {FlL : FloatLaws}.
#[local] Open Scope Q_scope.

(** Reported scores of magnitude up to 2 ** 400, and at most 2 ** 51 of them by each validator. *)
Definition score_bound : Q := big 1 400.
Definition moderate (results : pydict Peer (list MathData)) : Prop :=
  Forall (fun m => within score_bound (md_score m)) (concat (dvalues results)) /\
  Forall (fun e => (Z.of_nat (length e.2) <= 2 ^ 51)%Z) results.

Lemma means_within results p mu :
  moderate results -> dget (peer_means results) p = Some mu -> within score_bound mu.
Proof.
  intros [Hs _] Hm. unfold peer_means in Hm. rewrite dget_map_value in Hm.
  destruct (dget (peer_scores results) p) as [xs|] eqn:E; [|done]. simpl in Hm. injection Hm as <-.
  destruct (peer_scores_spec (concat (dvalues results)) [] (fun _ => within score_bound)) with (3 := E) as [Hne Hx]; [done|done|].
  by apply mean_within.
Qed.

(** One more squared error; nothing is added when the score is the mean. *)
Lemma add_error_within means k acc m :
  (0 <= k < 2 ^ 51)%Z -> 0 <= acc -> acc <= big (4 * k) 800 -> within score_bound (md_score m) ->
  (forall mu, dget means (md_peer_id m) = Some mu -> within score_bound mu) ->
  exists acc', add_error means (Fin acc) m = Ok (Fin acc') /\ 0 <= acc' /\ acc' <= big (4 * (k + 1)) 800 /\
    (acc == 0 -> (forall q mu, md_score m = Fin q -> dget means (md_peer_id m) = Some (Fin mu) -> q == mu) -> acc' == 0).
Proof.
  intros Hk H0 H1 (q & Hq & Q1 & Q2) Hmu. unfold add_error. destruct (dget means (md_peer_id m)) as [mu0|] eqn:Em.
  2: { exists acc. split_and!; [done|done| |done]. eapply Qle_trans; [exact H1|]. apply big_le; lia. }
  destruct (Hmu _ eq_refl) as (mu & -> & M1 & M2). rewrite Hq. unfold fsub, fneg, fadd at 1.
  assert (B2 : big 2 400 == score_bound + score_bound) by (unfold score_bound; by rewrite big_add).
  destruct (to_float_within 2 400 (q + - mu)) as (-> & D1 & D2); [lia|lia| | |].
  { rewrite B2, Qopp_plus. apply Qplus_le_compat; [done|]. by apply Qopp_le_compat. }
  { rewrite B2. apply Qplus_le_compat; [done|]. rewrite <- (Qopp_involutive score_bound). by apply Qopp_le_compat. }
  set (d := rnd (q + - mu)) in *. assert (Hsq : d * d <= big 4 800).
  { rewrite <- (big_mul 2 2 400 400) by done. by apply square_bound. }
  assert (Hlow : forall z j x, (0 <= z)%Z -> 0 <= x -> - big z j <= x).
  { intros z j x Hz Hx. apply (Qle_trans _ 0); [|done]. unfold big. rewrite <- inject_Z_opp. change 0 with (inject_Z 0).
    rewrite <- Zle_Qle. pose proof (Z.pow_nonneg 2 j). nia. }
  unfold fsquare. destruct (to_float_within 4 800 (d * d)) as (-> & _ & S2); [lia|lia|apply Hlow; [lia|apply square_nonneg]|done|].
  cbn [rbind fadd]. pose proof (rnd_nonneg _ (square_nonneg d)) as S0. set (sq := rnd (d * d)) in *.
  assert (Hsum : 0 <= acc + sq) by (rewrite <- (Qplus_0_l 0); by apply Qplus_le_compat).
  destruct (to_float_within (4 * (k + 1)) 800 (acc + sq)) as (-> & _ & A2); [lia|lia|apply Hlow; [lia|done]| |].
  { rewrite Z.mul_add_distr_l, <- big_add. by apply Qplus_le_compat. }
  eexists. split; [done|]. split_and!; [by apply rnd_nonneg|done|]. intros Ha Heq.
  assert (Hd : d == 0) by (subst d; rewrite (Heq q mu) by done; rewrite Qplus_opp_r; apply rnd_0).
  subst sq. rewrite Ha, Hd, Qmult_0_l, rnd_0, Qplus_0_l. apply rnd_0.
Qed.

Lemma validator_error_within means l :
  (Z.of_nat (length l) <= 2 ^ 51)%Z -> Forall (fun m => within score_bound (md_score m)) l ->
  (forall p mu, dget means p = Some mu -> within score_bound mu) ->
  exists e, validator_error means l = Ok (Fin e) /\ 0 <= e /\ e <= big (2 ^ 53) 800 /\
    (Forall (fun m => forall q mu, md_score m = Fin q -> dget means (md_peer_id m) = Some (Fin mu) -> q == mu) l -> e == 0).
Proof.
  intros Hlen Hl Hmu. unfold validator_error.
  assert (Hgo : forall k acc, (0 <= k)%Z -> (k + Z.of_nat (length l) <= 2 ^ 51)%Z -> 0 <= acc -> acc <= big (4 * k) 800 ->
    exists e, foldM_r (add_error means) (Fin acc) l = Ok (Fin e) /\ 0 <= e /\ e <= big (2 ^ 53) 800 /\ (acc == 0 ->
      Forall (fun m => forall q mu, md_score m = Fin q -> dget means (md_peer_id m) = Some (Fin mu) -> q == mu) l -> e == 0)).
  2: { destruct (Hgo 0%Z 0) as (e & H1 & H2 & H3 & H4); [lia|lia|done|by vm_compute|]. exists e. split_and!; [done..|]. apply H4, Qeq_refl. }
  clear Hlen. induction Hl as [|m l Hm Hl IH]; intros k acc Hk Hlen H0 H1; cbn [foldM_r length] in *.
  { exists acc. split_and!; [done|done| |done]. eapply Qle_trans; [exact H1|]. apply big_le; lia. }
  destruct (add_error_within means k acc m) as (acc' & -> & A0 & A1 & Az); [lia|done|done|done|by apply Hmu|]. cbn [rbind].
  destruct (IH (k + 1)%Z acc') as (e & He & E0 & E1 & Ez); [lia|lia|done|done|]. exists e. split_and!; auto.
  intros Ha Hf. apply Forall_cons in Hf as [Hf1 Hf]. auto.
Qed.

(** A finite number between 0 and [b]. *)
Definition upto (b : Q) (x : pyfloat) : Prop := exists q, x = Fin q /\ 0 <= q /\ q <= b.

Lemma max_upto b l : 1 <= b -> Forall (upto b) l -> upto b (max_or_one l).
Proof.
  intros Hb Hl. destruct Hl as [|x l Hx Hl]; [by exists 1|]. cbn [max_or_one]. revert x Hx.
  induction Hl as [|y l Hy _ IH]; intros x Hx; cbn [foldl]; [done|]. apply IH. unfold fmax. by destruct (flt x y).
Qed.

Lemma validator_score_within mx e :
  upto (big (2 ^ 53) 800) mx -> upto (big (2 ^ 53) 800) e ->
  exists v, validator_score mx e = Ok (Fin v) /\ 0 <= v /\ v <= 1 /\ (forall q, e = Fin q -> q == 0 -> v == 1).
Proof.
  intros (m & -> & M0 & M1) (x & -> & X0 & X1). unfold validator_score. cbn [fadd].
  pose proof rnd_epsilon as He0. assert (He1 : EPSILON <= big 1 0) by (unfold EPSILON; rewrite <- (rnd_exact 1 0) by lia; apply rnd_mono; by vm_compute).
  assert (Hlow : 1 # 134217728 <= m + EPSILON) by (rewrite <- (Qplus_0_l (1 # 134217728)); by apply Qplus_le_compat).
  destruct (to_float_within (2 ^ 53) 801 (m + EPSILON)) as (-> & _ & _); [lia|lia| | |].
  { apply (Qle_trans _ 0); [by vm_compute|]. eapply Qle_trans; [|exact Hlow]. by vm_compute. }
  { apply (Qle_trans _ (big (2 ^ 53) 800 + big 1 0)); [by apply Qplus_le_compat|]. by vm_compute. }
  set (d := rnd (m + EPSILON)). assert (Hd : 1 # 134217728 <= d) by (rewrite <- rnd_tiny; by apply rnd_mono).
  assert (Hpos : 0 < d) by (eapply Qlt_le_trans; [|exact Hd]; done). cbn [fdiv].
  destruct (Qeq_bool d 0) eqn:Ez; [apply Qeq_bool_iff in Ez; by rewrite Ez in Hpos|]. cbn [rbind].
  assert (Q0 : 0 <= x / d) by (apply Qle_shift_div_l; [done|]; by rewrite Qmult_0_l).
  assert (Q1 : x / d <= big (2 ^ 53) 827).
  { apply Qle_shift_div_r; [done|]. eapply Qle_trans; [exact X1|]. apply (Qle_trans _ (big (2 ^ 53) 827 * (1 # 134217728))); [by vm_compute|].
    apply Qmult_le_l; [|done]. by vm_compute. }
  destruct (to_float_within (2 ^ 53) 827 (x / d)) as (-> & _ & R1); [lia|lia|apply (Qle_trans _ 0); [by vm_compute|done]|done|].
  pose proof (rnd_nonneg _ Q0) as R0. set (r := rnd (x / d)) in *. cbn [fsub fneg fadd].
  assert (T1 : 1 + - r <= 1).
  { rewrite <- (Qplus_0_r 1) at 2. apply Qplus_le_compat; [apply Qle_refl|]. change 0 with (- 0). by apply Qopp_le_compat. }
  destruct (to_float_within (2 ^ 53) 827 (1 + - r)) as (-> & _ & _); [lia|lia| | |].
  { rewrite <- (Qplus_0_l (- big _ _)). apply Qplus_le_compat; [done|]. by apply Qopp_le_compat. }
  { eapply Qle_trans; [exact T1|]. by vm_compute. }
  unfold fmax. cbn [flt]. assert (V1 : rnd (1 + - r) <= 1) by (rewrite <- rnd_1 at 2; by apply rnd_mono).
  destruct (Qle_bool 0 (rnd (1 + - r))) eqn:Eb; cbn [negb].
  - apply Qle_bool_iff in Eb. eexists. split; [done|]. split_and!; [done|done|]. intros q [= <-] Hq. subst r. rewrite Hq. unfold Qdiv.
    rewrite Qmult_0_l, rnd_0. apply rnd_1.
  - exists 0. split; [done|]. split_and!; [done|done|]. intros q [= <-] Hq. exfalso. revert Eb. subst r.
    rewrite (proj2 (Qle_bool_iff _ _)); [done|]. rewrite Hq. unfold Qdiv. rewrite Qmult_0_l, rnd_0. apply rnd_nonneg. by vm_compute.
Qed.

(** The scores of validators with moderate reports; full when the report is that of everyone. *)
Lemma score_validators_within results :
  moderate results ->
  exists l, score_validators results = Ok l /\ Forall2 (fun e s => cs_peer_id s = e.1 /\ (0 <= cs_score s <= 10 ^ 18)%Z /\
    (Forall (fun m => forall q mu, md_score m = Fin q -> dget (peer_means results) (md_peer_id m) = Some (Fin mu) -> q == mu) e.2 ->
      cs_score s = (10 ^ 18)%Z)) results l.
Proof.
  intros Hmod. unfold score_validators. pose proof Hmod as [Hs Hlen]. rewrite Forall_forall in Hlen.
  set (same := fun e : Peer * list MathData => Forall (fun m => forall q mu, md_score m = Fin q ->
    dget (peer_means results) (md_peer_id m) = Some (Fin mu) -> q == mu) e.2).
  set (b := big (2 ^ 53) 800).
  destruct (mapM_r_related (fun e => let* err := validator_error (peer_means results) e.2 in Ok (e.1, err))
    (fun e x => x.1 = e.1 /\ exists q, x.2 = Fin q /\ 0 <= q /\ q <= b /\ (same e -> q == 0)) results) as (errors & -> & He).
  { intros [v l] Hl. destruct (validator_error_within (peer_means results) l) as (q & Hq & Q0 & Q1 & Qz).
    - by apply (Hlen (v, l)).
    - rewrite Forall_forall in Hs |- *. intros m Hm. apply Hs. by eapply concat_values.
    - intros. by eapply means_within.
    - cbn [fst snd]. rewrite Hq. eexists. split; [done|]. split; [done|]. exists q. done. }
  cbn [rbind]. assert (Hmx : upto b (max_or_one (dvalues errors))).
  { apply max_upto; [by vm_compute|]. apply Forall_forall. intros x Hx. apply list_elem_of_fmap in Hx as ([p y] & -> & Hy).
    apply list_elem_of_lookup in Hy as [i Hi]. destruct (Forall2_lookup_r _ _ _ _ _ He Hi) as (e & _ & _ & q & Hq & ? & ? & _). by exists q. }
  set (mx := max_or_one _) in *.
  destruct (mapM_r_related (fun e => let* v := validator_score mx e.2 in Ok (e.1, v))
    (fun e x => x.1 = e.1 /\ exists v, x.2 = Fin v /\ 0 <= v /\ v <= 1 /\ (forall q, e.2 = Fin q -> q == 0 -> v == 1)) errors) as (scores & -> & Hsc).
  { intros [p y] Hy. apply list_elem_of_lookup in Hy as [i Hi].
    destruct (Forall2_lookup_r _ _ _ _ _ He Hi) as (e & _ & _ & q & Hq & ? & ? & _). cbn in Hq. subst y.
    destruct (validator_score_within mx (Fin q)) as (v & Hv & V0 & V1 & Vz); [done|by exists q|]. cbn [fst snd]. rewrite Hv.
    eexists. split; [done|]. split; [done|]. by exists v. }
  cbn [rbind].
  destruct (mapM_r_related (fun e => let* n := scaled e.2 in Ok (mkScore e.1 n))
    (fun e x => cs_peer_id x = e.1 /\ (0 <= cs_score x <= 10 ^ 18)%Z /\ (forall v, e.2 = Fin v -> v == 1 -> cs_score x = (10 ^ 18)%Z)) scores) as (l & -> & Hl).
  { intros [p y] Hy. apply list_elem_of_lookup in Hy as [i Hi].
    destruct (Forall2_lookup_r _ _ _ _ _ Hsc Hi) as (e & _ & _ & v & Hv & ? & ? & _). cbn in Hv. subst y.
    destruct (scaled_bounds v) as (n & Hn & N0 & N1); [done|done|]. cbn [fst snd]. unfold scaled. rewrite Hn. eexists. split; [done|].
    cbn. split_and!; [done|lia|lia|]. intros v' [= <-]. done. }
  exists l. split; [done|]. apply Forall2_same_length_lookup_2.
  { by rewrite (Forall2_length _ _ _ He), (Forall2_length _ _ _ Hsc), (Forall2_length _ _ _ Hl). }
  intros i e s Hi Hsi. destruct (Forall2_lookup_l _ _ _ _ _ He Hi) as (x & Hxi & Hx & q & Hq & _ & _ & Qz).
  destruct (Forall2_lookup_l _ _ _ _ _ Hsc Hxi) as (y & Hyi & Hy & v & Hv & _ & _ & V1).
  destruct (Forall2_lookup_lr _ _ _ _ _ _ Hl Hyi Hsi) as (L1 & L2 & L3). split_and!; [congruence|lia|lia|]. intros Hsame. eauto.
Qed.

(** * Theorems *)

(** C27: If the scores revealed by the validators are finite floats of magnitude at most 2 ** 400, at most 2 ** 51 by each validator, then scoring
    the validators does not fail (no overflow, no division by zero), gives one score to each validator, and every score lies
    between 0 and 1e18, however floats are rounded; a validator whose scores all equal the mean of their peer gets 1e18. *)
Theorem validator_scores_bounded (results : pydict Peer (list MathData)) :
  moderate results ->
  exists l, score_validators results = Ok l /\ map cs_peer_id l = dkeys results /\
    Forall (fun s => (0 <= cs_score s <= 10 ^ 18)%Z) l /\
    forall i v ms s, results !! i = Some (v, ms) -> l !! i = Some s ->
      Forall (fun m => forall q mu, md_score m = Fin q -> dget (peer_means results) (md_peer_id m) = Some (Fin mu) -> q == mu) ms ->
      cs_score s = (10 ^ 18)%Z.
Proof.
  intros Hmod. destruct (score_validators_within results Hmod) as (l & Hl & Hf). exists l. split; [done|]. split_and!.
  - apply list_eq. intros i. unfold dkeys. rewrite !list_lookup_fmap. destruct (results !! i) as [e|] eqn:Hi.
    + destruct (Forall2_lookup_l _ _ _ _ _ Hf Hi) as (s & -> & Hs & _). cbn. by rewrite Hs.
    + rewrite (proj2 (lookup_ge_None l i)); [done|]. rewrite <- (Forall2_length _ _ _ Hf). by apply lookup_ge_None.
  - apply Forall_lookup_2. intros i s Hs. by destruct (Forall2_lookup_r _ _ _ _ _ Hf Hs) as (e & _ & _ & ? & _).
  - intros i v ms s Hi Hs. destruct (Forall2_lookup_lr _ _ _ _ _ _ Hf Hi Hs) as (_ & _ & H). done.
Qed.

(** One score that is not finite stops the scoring: if any validator reveals an infinite or NaN score for any peer, scoring
    the validators raises, whatever the others revealed. *)
Theorem infinite_score_stops_scoring (results : pydict Peer (list MathData)) v ms m :
  (v, ms) ∈ results -> m ∈ ms -> is_finite (md_score m) = false -> exists err, score_validators results = Raise err.
Proof.
  intros Hv Hm Hf. destruct (score_validators results) as [l|err] eqn:E; [exfalso|eauto]. unfold score_validators in E.
  destruct (peer_scores_in (concat (dvalues results)) m []) as (xs & Hxs & Hin); [left; by eapply concat_values|].
  assert (Hmu : dget (peer_means results) (md_peer_id m) = Some (mean xs)).
  { unfold peer_means. rewrite dget_map_value. unfold peer_scores. by rewrite Hxs. }
  pose proof (mean_not_finite xs _ Hin Hf) as Hmf. apply list_elem_of_lookup in Hv as [i Hi].
  destruct (mapM_r _ results) as [errors|] eqn:E1 in E; [|done]. cbn [rbind] in E.
  destruct (mapM_r _ errors) as [scores|] eqn:E2 in E; [|done]. cbn [rbind] in E.
  destruct (mapM_r_lookup _ _ _ _ _ E1 Hi) as ([p e] & He & Hei). cbn [fst snd] in He.
  destruct (validator_error _ ms) as [e'|] eqn:Ee; [|done]. cbn in He. injection He as <- <-.
  pose proof (validator_error_poisoned _ _ _ _ _ _ Hm Hmu Hmf Ee) as Hp.
  destruct (mapM_r_lookup _ _ _ _ _ E2 Hei) as ([p sc] & Hs & Hsi). cbn [fst snd] in Hs.
  destruct (validator_score _ e') as [sc'|] eqn:Es; [|done]. cbn in Hs. injection Hs as <- <-.
  apply validator_score_poisoned in Es as ->; [|done|].
  - destruct (mapM_r_lookup _ _ _ _ _ E Hsi) as (x & Hx & _). done.
  - intros ->. apply max_poisoned. apply list_elem_of_fmap. exists (v, Inf false). split; [done|]. by eapply list_elem_of_lookup_2.
Qed.

End Task.
Arguments MathData : clear implicits.

(** ** Commitments *)

Section Commitments.
Context {Peer : Type} `{EqP : EqDecision Peer} `{Fl : Float}.
Variable sha256 : bytes -> bytes.
Variable extract : bytes -> option Peer.

(** What an entry of the collected results goes back to. *)
Definition backed {X} (parse : bytes -> result X) (attested : Peer -> bool) (commits : commit_records)
    (reveals : pydict bytes payload) (p : Peer) (x : X) : Prop :=
  exists pk slt data, (pk, Some (slt, data)) ∈ reveals /\
    (exists c, commits = Some c /\ dget c pk = Some (sha256 (slt ++ data))) /\
    parse data = Ok x /\ extract pk = Some p /\ attested p = true.

Lemma collect_backed {X} (parse : bytes -> result X) attested commits reveals :
  forall p x, (p, x) ∈ collect sha256 extract parse attested commits reveals -> backed parse attested commits reveals p x.
Proof.
  unfold collect.
  assert (Hgo : forall l d, (forall e, e ∈ l -> e ∈ reveals) ->
    (forall p x, (p, x) ∈ d -> backed parse attested commits reveals p x) ->
    forall p x, (p, x) ∈ foldl (fun d e => match check_reveal sha256 extract parse commits e.1 e.2 with
                      | Some (p, x) => if attested p then dset d p x else d
                      | None => d end) d l -> backed parse attested commits reveals p x).
  2: { apply Hgo; [done|set_solver]. }
  induction l as [|[pk pl] l IH]; intros d Hl Hd; cbn [foldl]; [done|].
  apply IH; [set_solver|]. cbn [fst snd]. destruct (check_reveal sha256 extract parse commits pk pl) as [[p0 x0]|] eqn:Ec; [|done].
  destruct (attested p0) eqn:Ea; [|done]. intros p x Hin.
  assert (Hor : (p, x) ∈ d \/ (p, x) = (p0, x0)).
  { clear -Hin. induction d as [|[p1 x1] d IHd]; simpl in Hin; [set_solver|].
    destruct (decide (p1 = p0)) as [->|]; apply elem_of_cons in Hin as [Hin|Hin]; set_solver. }
  destruct Hor as [Hor|Hor]; [by apply Hd|]. simplify_eq.
  unfold check_reveal in Ec. destruct pl as [[slt data]|]; [|done]. destruct commits as [c|]; [|done].
  destruct (dget c pk) as [dg|] eqn:Edg; [|done]. destruct (decide (dg = sha256 (slt ++ data))) as [->|]; [|done].
  destruct (parse data) as [x1|] eqn:Ep; [|done]. destruct (extract pk) as [p1|] eqn:Ex; [|done]. simplify_eq.
  exists pk, slt, data. split; [apply Hl; set_solver|]. split_and!; eauto.
Qed.

(** C4: Only committed data counts: every validator whose answers are scored has published, under its own
    key, a reveal whose hash is the digest it had committed to, and the answers are what those bytes decode to. *)
Theorem scored_data_was_committed (loads_tasks : bytes -> result (list (MathData Peer))) (commits : commit_records) (reveals : pydict bytes payload) p x :
  (p, x) ∈ collect sha256 extract loads_tasks (fun _ => true) commits reveals ->
  exists pk slt data c, (pk, Some (slt, data)) ∈ reveals /\ commits = Some c /\
    dget c pk = Some (sha256 (slt ++ data)) /\ loads_tasks data = Ok x /\ extract pk = Some p.
Proof.
  intros Hin. apply collect_backed in Hin as (pk & slt & data & Hr & (c & Hc & Hd) & Hp & Hx & _).
  exists pk, slt, data, c. done.
Qed.

(** C3: What an honest node commits and later reveals in the same epoch passes verification on every node that has
    both records: the digest matches and the revealed answers are the ones it evaluated. *)
Theorem honest_reveal_verifies (dumps_tasks : list (MathData Peer) -> bytes) loads_tasks st own peers answers slt e st' digest lt evals pk p c :
  (forall l, loads_tasks (dumps_tasks l) = Ok l) ->
  evaluate_peers own peers answers = Ok evals ->
  call_and_commit_all_tasks sha256 dumps_tasks st own peers answers slt e =
    Ok (st', [StoreCommit (get_verifier_commit_key e) digest lt]) ->
  extract pk = Some p -> dget c pk = Some digest ->
  exists data, reveal_tasks st' e = [StoreReveal (get_verifier_reveal_key e) slt data reveal_lifetime] /\
    check_reveal sha256 extract loads_tasks (Some c) pk (Some (slt, data)) = Some (p, evals).
Proof.
  intros Hld Hev Hc Hx Hg. unfold call_and_commit_all_tasks in Hc. rewrite Hev in Hc. cbn [rbind] in Hc.
  destruct evals as [|m evals]; [done|]. injection Hc as <- <- _.
  exists (dumps_tasks (m :: evals)). unfold reveal_tasks. cbn [latest_task_commit target_epoch]. rewrite Z.eqb_refl.
  split; [done|]. unfold check_reveal. rewrite Hg, decide_True, Hld, Hx by done. done.
Qed.

(** Scores committed in an epoch are revealed two epochs later, and only then, under the key that verifiers of
    that later epoch read together with the commit of two epochs before; and the reveal verifies. *)
Theorem score_reveal_matches_commit (dumps_scores : list SubnetNodeConsensusData -> bytes) loads_scores st e scores slt pk p c st' acts :
  (forall l, loads_scores (dumps_scores l) = Ok l) ->
  commit_scores sha256 dumps_scores st e scores slt = (st', acts) ->
  extract pk = Some p -> dget c pk = Some (sha256 (slt ++ dumps_scores scores)) ->
  acts = [StoreCommit (get_scores_commit_key e) (sha256 (slt ++ dumps_scores scores)) commit_lifetime] /\
  reveal_scores st' (e + 2) =
    [StoreReveal (get_scores_reveal_key (e + 2)) slt (dumps_scores scores) reveal_lifetime] /\
  check_reveal sha256 extract loads_scores (Some c) pk (Some (slt, dumps_scores scores)) = Some (p, scores) /\
  (forall e', e' <> e + 2 -> reveal_scores st' e' = reveal_scores st e').
Proof.
  intros Hld Hc Hx Hg. unfold commit_scores in Hc. injection Hc as <- <-. split; [done|]. unfold reveal_scores.
  cbn [latest_scores_commit]. replace (e + 2 - 2) with e by lia. rewrite dget_dset_eq. split; [done|]. split.
  - unfold check_reveal. rewrite Hg, decide_True, Hld, Hx by done. done.
  - intros e' Hne. rewrite dget_dset_ne by lia. done.
Qed.

(** The guard of [verify_and_score_peers] uses "and": when commits exist but nobody has revealed, it goes on
    and raises [AttributeError] on [{}.value] instead of returning [(None, None)]. *)
Lemma no_reveal_raises loads_tasks loads_scores c sc sr included consensus :
  verify_and_score_peers sha256 loads_tasks loads_scores extract (Some c) None sc sr included consensus =
    Raise AttributeError.
Proof. done. Qed.
End Commitments.

(** ** Concrete instances: no rounding, integers for peers *)

(** Two validators (1 and 2) that score peers 3 and 4; they disagree on peer 4. *)
Definition math (p : Z) (sc : Q) : MathData Z := mkMath p (mkEq 1 Add 1) 2 2 (Fin sc).
Definition demo_results : pydict Z (list (MathData Z)) := [(1, [math 3 1; math 4 1]); (2, [math 3 1; math 4 0])].
Definition agreed_results : pydict Z (list (MathData Z)) := [(1, [math 3 1; math 4 0]); (2, [math 3 1; math 4 0])].

Lemma validator_scores_bounded_witness :
  exists l, score_validators demo_results = Ok l /\ map cs_peer_id l = [1; 2] /\
    Forall (fun s => 0 <= cs_score s <= 10 ^ 18) l.
Proof.
  destruct (validator_scores_bounded demo_results) as (l & H1 & H2 & H3 & _).
  - split; [|repeat constructor; vm_compute; discriminate].
    repeat (apply Forall_cons; split; [eexists; split; [reflexivity|]; split; vm_compute; discriminate|]). apply Forall_nil. exact I.
  - exists l. split; [exact H1|]. split; [exact H2|exact H3].
Defined.

(** When they agree, both get the full score. *)
Example agreement_scores : score_validators agreed_results = Ok [mkScore 1 (10 ^ 18); mkScore 2 (10 ^ 18)].
Proof. vm_compute. reflexivity. Qed.

(** Validator 2 reports an infinite score. *)
Abbreviation infinite_results := [(1, [math 3 1]); (2, [mkMath 3 (mkEq 1 Add 1) 2 2 (Inf false)])].

Lemma infinite_score_stops_scoring_witness : exists err, score_validators infinite_results = Raise err.
Proof.
  apply (infinite_score_stops_scoring infinite_results 2 [mkMath 3 (mkEq 1 Add 1) 2 2 (Inf false)] (mkMath 3 (mkEq 1 Add 1) 2 2 (Inf false)));
    [apply list_elem_of_further, list_elem_of_here|apply list_elem_of_here|reflexivity].
Defined.

(** A finite score can do it too: the square of half of [1e200] is beyond the largest float. *)
Example large_score_overflows :
  score_validators [(1, [math 3 0]); (2, [math 3 (inject_Z (10 ^ 200))])] = Raise OverflowError.
Proof. vm_compute. reflexivity. Qed.

(** A toy hash (the sum of the bytes) and toy pickles. *)
Definition toy_sum (b : bytes) : bytes := [foldr Z.add 0 b].
Definition toy_loads (b : bytes) : result (list (MathData Z)) :=
  match b with [p] => Ok [math p 1] | _ => Raise ValueError end.

Lemma scored_data_was_committed_witness :
  exists pk slt data c, (pk, Some (slt, data)) ∈ [([7], Some ([1; 2], [5]))] /\
    Some [([7], [8])] = Some c /\ dget c pk = Some (toy_sum (slt ++ data)) /\
    toy_loads data = Ok [math 5 1] /\ head pk = Some 7.
Proof.
  apply (scored_data_was_committed toy_sum head toy_loads (Some [([7], [8])]) [([7], Some ([1; 2], [5]))] 7 [math 5 1]).
  vm_compute. left.
Defined.

Lemma score_reveal_matches_commit_witness :
  reveal_scores (mkTask None [(10, mkCommit 10 [1] (concat (map (fun s => [subnet_node_id s; score s]) [mkNodeScore 4 9])))]) 12 =
    [StoreReveal (get_scores_reveal_key 12) [1] [4; 9] reveal_lifetime].
Proof.
  set (dumps := fun l => concat (map (fun s => [subnet_node_id s; score s]) l)).
  set (loads := fix loads (b : bytes) : result (list SubnetNodeConsensusData) :=
         match b with
         | [] => Ok []
         | a :: x :: t => rmap (cons (mkNodeScore a x)) (loads t)
         | _ => Raise ValueError
         end).
  apply (score_reveal_matches_commit toy_sum head dumps loads (mkTask None []) 10 [mkNodeScore 4 9] [1] [7] 7
           [([7], [14])] (mkTask None [(10, mkCommit 10 [1] [4; 9])])
           [StoreCommit (get_scores_commit_key 10) [14] commit_lifetime]); [|done|done|done].
  induction l as [|[a x] l IH]; [done|]. simpl. unfold dumps in IH. rewrite IH. done.
Defined.

(** An encoding of the answers as eleven integers each. *)
Definition float_kind (x : pyfloat) : Z := match x with Fin _ => 0 | Inf false => 1 | Inf true => 2 | NaN => 3 end.
Definition finite_or_0 (x : pyfloat) : Q := match x with Fin q => q | _ => 0%Q end.
Definition float_of (k : Z) (q : Q) : pyfloat :=
  if k =? 0 then Fin q else if k =? 1 then Inf false else if k =? 2 then Inf true else NaN.
Definition op_code (o : operator) : Z := match o with Add => 0 | Sub => 1 | Mul => 2 | Div => 3 end.
Definition op_of (c : Z) : operator := if c =? 0 then Add else if c =? 1 then Sub else if c =? 2 then Mul else Div.
Definition toy_dump (m : MathData Z) : bytes :=
  [md_peer_id m; num1 (md_equation m); op_code (op (md_equation m)); num2 (md_equation m);
   Qnum (md_answer m); Zpos (Qden (md_answer m)); Qnum (md_peer_answer m); Zpos (Qden (md_peer_answer m));
   float_kind (md_score m); Qnum (finite_or_0 (md_score m)); Zpos (Qden (finite_or_0 (md_score m)))].
Fixpoint toy_decode (b : bytes) : result (list (MathData Z)) :=
  match b with
  | [] => Ok []
  | p :: a :: o :: c :: n1 :: d1 :: n2 :: d2 :: k :: n3 :: d3 :: t =>
      rmap (cons (mkMath p (mkEq a (op_of o) c) (Qmake n1 (Z.to_pos d1)) (Qmake n2 (Z.to_pos d2)) (float_of k (Qmake n3 (Z.to_pos d3)))))
        (toy_decode t)
  | _ => Raise ValueError
  end.

Lemma toy_decode_dump l : toy_decode (concat (map toy_dump l)) = Ok l.
Proof.
  induction l as [|[p [a o c] [n1 d1] [n2 d2] sc] l IH]; [done|].
  cbn [map concat toy_dump app]. cbn [toy_decode md_peer_id md_equation num1 num2 op md_answer md_peer_answer md_score Qnum Qden].
  rewrite IH. by destruct o, sc as [[]|[]|].
Qed.

Lemma honest_reveal_verifies_witness :
  exists data, reveal_tasks (mkTask (Some (mkCommit 10 [1] data)) []) 10 =
      [StoreReveal (get_verifier_reveal_key 10) [1] data reveal_lifetime] /\
    check_reveal toy_sum head toy_decode (Some [([7], toy_sum ([1] ++ data))]) [7] (Some ([1], data)) =
      Some (7, [mkMath 3 (mkEq 6 Div 2) (ratio 6 2) (ratio 6 2) (Fin 1)]).
Proof.
  set (evals := [mkMath 3 (mkEq 6 Div 2) (ratio 6 2) (ratio 6 2) (Fin 1)]).
  set (data := concat (map toy_dump evals)). exists data.
  destruct (honest_reveal_verifies toy_sum head (fun l => concat (map toy_dump l)) toy_decode (mkTask None []) 1
              [(1, mkEq 1 Add 1); (3, mkEq 6 Div 2)] (fun _ _ => Ok (ratio 6 2)) [1] 10
              (mkTask (Some (mkCommit 10 [1] data)) []) (toy_sum ([1] ++ data)) commit_lifetime evals [7] 7
              [([7], toy_sum ([1] ++ data))])
    as (d & H1 & H2); [apply toy_decode_dump|by vm_compute|by vm_compute|done|by vm_compute|].
  injection H1 as <-. split; [done|exact H2].
Defined.
