(* ===== verification/Consensus.v ===== *)
(** * The consensus process ([mesh/subnet/consensus/consensus.py], [Consensus])

    Every loop polls the chain.  One iteration consumes one reading of a list, so a loop that has used up
    its list is still waiting ([Blocked]).  A node proposes its scores when elected, attests the validator's scores
    when they equal its own, and drives the commit and reveal phases of the epoch.

    The work of [TaskCommitReveal] (file [Task]) enters as the result of each call: it may raise. *)

From Stdlib Require Import QArith.
From S2P Require Import Prelude DHTID Epoch CommitReveal Scores.
#[local] Open Scope Z_scope.

Abbreviation Score_list := (list SubnetNodeConsensusData) (only parsing).

(** ** The state, the calls it makes, and the monad *)

(** The attributes of the process that the epoch loop uses. *)
Record Consensus : Type := mkConsensusSt {
  subnet_node_id_ : Z;
  is_mock : bool;  (* isinstance(hypertensor, MockHypertensor or LocalMockHypertensor) *)
  previous_epoch_data : option Score_list;
  epoch_scores : pydict Z Score_list;
}.

(** Transactions and calls of [TaskCommitReveal], with the reading that allowed them. *)
Inductive Call : Type :=
  | ProposeAttestation (at_ : EpochData) (data : Score_list)
  | AttestData (at_ : EpochData) (data : ConsensusData)
  | CallAndCommitAllTasks (at_ : EpochData)
  | RevealTasks (at_ : EpochData)
  | RevealScores (at_ : EpochData)
  | VerifyAndScorePeers (at_ : EpochData)
  | CommitScores (at_ : EpochData) (data : Score_list).

Inductive flow (A : Type) : Type :=
  | Go (a : A)
  | Blocked
  | Failed (e : exn).
Arguments Go {A} a.
Arguments Blocked {A}.
Arguments Failed {A} e.

(** A coroutine: the new state, the calls made, and how it ended. *)
Definition co (A : Type) : Type := Consensus -> Consensus * list Call * flow A.

Definition ret {A} (a : A) : co A := fun c => (c, [], Go a).
Definition blocked {A} : co A := fun c => (c, [], Blocked).
Definition lift {A} (r : result A) : co A :=
  fun c => (c, [], match r with Ok a => Go a | Raise e => Failed e end).
Definition emit (x : Call) : co unit := fun c => (c, [x], Go tt).
Definition gets {A} (f : Consensus -> A) : co A := fun c => (c, [], Go (f c)).
Definition modify (f : Consensus -> Consensus) : co unit := fun c => (f c, [], Go tt).
Definition bind {A B} (m : co A) (k : A -> co B) : co B := fun c =>
  match m c with
  | (c1, l1, Go a) => let '(c2, l2, r) := k a c1 in (c2, l1 ++ l2, r)
  | (c1, l1, Blocked) => (c1, l1, Blocked)
  | (c1, l1, Failed e) => (c1, l1, Failed e)
  end.

Notation "'let!' p := m 'in' k" := (bind m (fun p => k))
  (at level 10, p pattern, m at level 100, k at level 200) : py_scope.

Definition set_previous (d : option Score_list) : co unit :=
  modify (fun c => mkConsensusSt (subnet_node_id_ c) (is_mock c) d (epoch_scores c)).
Definition set_scores (es : pydict Z Score_list) : co unit :=
  modify (fun c => mkConsensusSt (subnet_node_id_ c) (is_mock c) (previous_epoch_data c) es).

(** ** Activation: [run_activate_subnet], [run_is_node_validator] and [_main_loop] *)

(** One iteration reads the slot (only while it is unknown), the epoch, and the subnet: [None] when it is not found,
    otherwise whether its state is "Active". *)
Record ActivateTick : Type := mkActivate {
  ac_stop : bool;
  ac_slot : result (option Z);
  ac_epoch : result Z;
  ac_info : result (option bool);
}.

Definition max_errors : Z := 3.

(** The slot found so far, and whether the subnet is active. *)
Fixpoint activate_loop (slot last_epoch : option Z) (errors_count : Z) (ticks : list ActivateTick)
    : option Z * flow bool :=
  match ticks with
  | [] => (slot, Blocked)
  | t :: rest =>
      if ac_stop t then (slot, Go false)
      else
        match slot, ac_slot t with
        | None, Ok None => activate_loop slot last_epoch errors_count rest
        | _, _ =>
            (* an exception of the query is logged, and the iteration goes on without a slot *)
            let slot := match slot, ac_slot t with None, Ok (Some s) => Some s | _, _ => slot end in
            match ac_epoch t with
            | Raise e => (slot, Failed e)
            | Ok current_epoch =>
                if bool_decide (Some current_epoch = last_epoch) then activate_loop slot last_epoch errors_count rest
                else
                  match ac_info t with
                  | Raise e => (slot, Failed e)
                  | Ok None =>
                      if max_errors <? errors_count then (slot, Go false)
                      else activate_loop slot (Some current_epoch) (errors_count + 1) rest
                  | Ok (Some true) => (slot, Go true)
                  | Ok (Some false) => activate_loop slot (Some current_epoch) errors_count rest
                  end
            end
        end
  end.

Definition run_activate_subnet (skip : bool) (ticks : list ActivateTick) : option Z * flow bool :=
  if skip then (None, Go true) else activate_loop None None 0 ticks.

(** One iteration reads the epoch of the slot and the nodes classed Idle or higher. *)
Record NodeTick : Type := mkNodeTick {
  nt_stop : bool;
  nt_epoch : Z -> result Z;
  nt_nodes : Z -> list Z;
}.

(** [get_subnet_epoch_data(None)] compares an integer with [None]. *)
Definition slot_epoch (slot : option Z) (t : NodeTick) : result Z :=
  match slot with None => Raise TypeError | Some s => nt_epoch t s end.

(** [run_is_node_validator] *)
Fixpoint run_is_node_validator (me : Z) (slot last_epoch : option Z) (ticks : list NodeTick) : flow bool :=
  match ticks with
  | [] => Blocked
  | t :: rest =>
      if nt_stop t then Go true
      else
        match slot_epoch slot t with
        | Raise e => Failed e
        | Ok current_epoch =>
            if bool_decide (Some current_epoch = last_epoch) then run_is_node_validator me slot last_epoch rest
            else if existsb (fun id => id =? me) (nt_nodes t current_epoch) then Go true
            else run_is_node_validator me slot (Some current_epoch) rest
        end
  end.

(** [_main_loop] up to the point where [run_forever] starts with the slot. *)
Definition main_loop_start (me : Z) (skip : bool) (activation : list ActivateTick) (nodes : list NodeTick)
    : flow (option (option Z)) :=
  match run_activate_subnet skip activation with
  | (_, Blocked) => Blocked
  | (_, Failed e) => Failed e
  | (_, Go false) => Go None
  | (slot, Go true) =>
      match run_is_node_validator me slot None nodes with
      | Blocked => Blocked
      | Failed e => Failed e
      | Go false => Go None
      | Go true => Go (Some slot)
      end
  end.

(** ** The phases of an epoch *)

(** What one iteration reads: the stop event, then the epoch data of the subnet. *)
Record Tick : Type := mkTick { stopped : bool; tick_epoch : result EpochData }.

(** [run_task_commit]: the loop breaks in its first iteration, whatever it reads. *)
Definition run_task_commit (current_epoch : Z) (ticks : list Tick) (work : result unit) : co unit :=
  match ticks with
  | [] => blocked
  | t :: _ =>
      if stopped t then ret tt
      else
        let! ed := lift (tick_epoch t) in
        if negb (epoch ed =? current_epoch) || after (percent_complete ed) VERIFIER_COMMIT_DEADLINE then ret tt
        else let! _ := emit (CallAndCommitAllTasks ed) in lift work
  end.

(** [run_task_reveal] *)
Fixpoint run_task_reveal (current_epoch : Z) (ticks : list Tick) (work : result unit) : co unit :=
  match ticks with
  | [] => blocked
  | t :: rest =>
      if stopped t then ret tt
      else
        let! ed := lift (tick_epoch t) in
        if negb (epoch ed =? current_epoch) || after (percent_complete ed) VERIFIER_REVEAL_DEADLINE then ret tt
        else if Qle_bool (percent_complete ed) VERIFIER_COMMIT_DEADLINE then run_task_reveal current_epoch rest work
        else let! _ := emit (RevealTasks ed) in lift work
  end.

(** [run_reveal_scores] *)
Fixpoint run_reveal_scores (current_epoch : Z) (ticks : list Tick) (work : result unit) : co unit :=
  match ticks with
  | [] => blocked
  | t :: rest =>
      if stopped t then ret tt
      else
        let! ed := lift (tick_epoch t) in
        if negb (epoch ed =? current_epoch) || after (percent_complete ed) SCORES_REVEAL_DEADLINE then ret tt
        else if Qle_bool (percent_complete ed) VERIFIER_COMMIT_DEADLINE then run_reveal_scores current_epoch rest work
        else let! _ := emit (RevealScores ed) in lift work
  end.

(** [run_verify_and_score_peers] and the unpacking of its pair by the caller; the pair's second component is what
    is kept.  A loop ended by the stop event returns [None], which cannot be unpacked. *)
Fixpoint run_verify_and_score_peers (current_epoch : Z) (ticks : list Tick) (work : result (option Score_list))
    : co (option Score_list) :=
  match ticks with
  | [] => blocked
  | t :: rest =>
      if stopped t then lift (Raise TypeError)
      else
        let! ed := lift (tick_epoch t) in
        if negb (epoch ed =? current_epoch) then ret None
        else if Qle_bool (percent_complete ed) VERIFIER_REVEAL_DEADLINE
        then run_verify_and_score_peers current_epoch rest work
        else let! _ := emit (VerifyAndScorePeers ed) in lift work
  end.

(** [run_commit_scores]; nothing happens without scores. *)
Fixpoint commit_scores_loop (current_epoch : Z) (scores : Score_list) (ticks : list Tick) (work : result unit)
    : co unit :=
  match ticks with
  | [] => blocked
  | t :: rest =>
      if stopped t then ret tt
      else
        let! ed := lift (tick_epoch t) in
        if negb (epoch ed =? current_epoch) then ret tt
        else if Qle_bool (percent_complete ed) SCORES_REVEAL_DEADLINE
        then commit_scores_loop current_epoch scores rest work
        else let! _ := emit (CommitScores ed scores) in lift work
  end.

Definition run_commit_scores (current_epoch : Z) (ticks : list Tick) (work : result unit) : co unit :=
  let! es := gets epoch_scores in
  let! scores := lift (dgetitem es current_epoch) in
  match scores with
  | [] => ret tt
  | _ => commit_scores_loop current_epoch scores ticks work
  end.

(** ** [run_consensus] *)

(** [get_scores]: forgets the scores of the epoch before. *)
Definition get_scores (target_epoch : Z) : co (option Score_list) :=
  let! es := gets epoch_scores in
  let es' := if dmem es (target_epoch - 1) then ddel es (target_epoch - 1) else es in
  let! _ := set_scores es' in
  ret (dget es' target_epoch).

(** The reading of one iteration of the validator loop. *)
Record ElectionTick : Type := mkElection {
  el_stopped : bool;
  el_validator : result (option Z);
  el_epoch : result EpochData;
}.

(** The loop that waits for the elected validator.  Its exit condition
    [validator is not None or validator != 'None'] holds for every value: a node id or [None] never equals 'None'.
    A validator is returned with the [epoch_data] it was read with. *)
Fixpoint wait_validator (current_epoch : Z) (validator : option (Z * EpochData)) (ticks : list ElectionTick)
    : co (option (Z * EpochData)) :=
  match ticks with
  | [] => blocked
  | t :: rest =>
      if el_stopped t then ret validator
      else
        let! v := lift (el_validator t) in
        let! ed := lift (el_epoch t) in
        let validator := (fun n => (n, ed)) <$> v in
        if negb (epoch ed =? current_epoch) then ret None
        else if bool_decide (v <> None) || true then ret validator
        else wait_validator current_epoch validator rest
  end.

(** The reading of one iteration of the attestation loop; the receipt is that of an attestation sent in it. *)
Record AttestTick : Type := mkAttest {
  at_stopped : bool;
  at_consensus : result (option ConsensusData);
  at_epoch : result EpochData;
  at_receipt : result bool;
}.

Definition is_one (q : Q) : bool := Qeq_bool 1 q.

(** The attestation loop; the consensus data, once read, is kept. *)
Fixpoint attest_loop (current_epoch : Z) (scores : Score_list) (consensus_data : option ConsensusData)
    (ticks : list AttestTick) : co unit :=
  match ticks with
  | [] => blocked
  | t :: rest =>
      if at_stopped t then ret tt
      else
        let! cd := match consensus_data with Some d => ret (Some d) | None => lift (at_consensus t) end in
        let! ed := lift (at_epoch t) in
        if negb (epoch ed =? current_epoch) || after (percent_complete ed) (3 # 20) then ret tt
        else
          match cd with
          | None => attest_loop current_epoch scores None rest
          | Some d =>
              let! _ := set_previous None in
              if is_one (compare_consensus_data scores (consensus_scores d)) then
                let! _ := set_previous (Some scores) in
                let! me := gets subnet_node_id_ in
                if did_node_attest (Some me) d then ret tt
                else
                  let! _ := emit (AttestData ed d) in
                  let! success := lift (at_receipt t) in
                  let! mock := gets is_mock in
                  if mock then ret tt
                  else if success then ret tt
                  else attest_loop current_epoch scores (Some d) rest
              else ret tt
          end
  end.

(** [run_consensus]; [submitted] is the consensus data an elected validator finds on chain, [proposed] the
    outcome of its transaction. *)
Definition run_consensus (current_epoch : Z) (elections : list ElectionTick)
    (submitted : result (option ConsensusData)) (proposed : result unit) (ticks : list AttestTick) : co unit :=
  let! scores_opt := get_scores (current_epoch - 1) in
  match scores_opt with
  | None => ret tt
  | Some scores =>
      let! validator := wait_validator current_epoch None elections in
      match validator with
      | None => ret tt
      | Some (v, ed) =>
          let! me := gets subnet_node_id_ in
          if v =? me then
            let! consensus_data := lift submitted in
            match consensus_data with
            | Some _ => ret tt
            | None => let! _ := emit (ProposeAttestation ed scores) in lift proposed
            end
          else attest_loop current_epoch scores None ticks
      end
  end.

(** ** [run_forever] *)

(** What the process reads while it works on one epoch. *)
Record Readings : Type := mkReadings {
  rd_elections : list ElectionTick;
  rd_submitted : result (option ConsensusData);
  rd_proposed : result unit;
  rd_attests : list AttestTick;
  rd_task_commit : list Tick * result unit;
  rd_task_reveal : list Tick * result unit;
  rd_reveal_scores : list Tick * result unit;
  rd_verify : list Tick * result (option Score_list);
  rd_commit_scores : list Tick * result unit;
}.

(** The body of the loop for a new epoch. *)
Definition process_epoch (current_epoch : Z) (r : Readings) : co unit :=
  let! _ := run_consensus current_epoch (rd_elections r) (rd_submitted r) (rd_proposed r) (rd_attests r) in
  let! _ := run_task_commit current_epoch (rd_task_commit r).1 (rd_task_commit r).2 in
  let! _ := run_task_reveal current_epoch (rd_task_reveal r).1 (rd_task_reveal r).2 in
  let! _ := run_reveal_scores current_epoch (rd_reveal_scores r).1 (rd_reveal_scores r).2 in
  let! scores := run_verify_and_score_peers current_epoch (rd_verify r).1 (rd_verify r).2 in
  match scores with
  | None | Some [] => ret tt
  | Some s =>
      let! es := gets epoch_scores in
      let! _ := set_scores (dset es current_epoch s) in
      run_commit_scores current_epoch (rd_commit_scores r).1 (rd_commit_scores r).2
  end.

(** One iteration: the stop event, the epoch data, and what is read if the epoch is processed. *)
Record Iteration : Type := mkIteration {
  it_stop : bool;
  it_epoch : result EpochData;
  it_readings : Readings;
}.

(** The local variables, the attributes, and the calls made for each epoch that was processed to its end. *)
Record Forever : Type := mkForever {
  started : bool;
  last_epoch : option Z;
  process : Consensus;
  begun : list Z;
  completed : list (Z * list Call);
}.

(** An exception is logged and the loop goes on, without [last_epoch] being set.  The reading after the
    processing only decides how long to wait. *)
Fixpoint run_forever (s : Forever) (its : list Iteration) : Forever :=
  match its with
  | [] => s
  | it :: rest =>
      if it_stop it then s
      else
        match it_epoch it with
        | Raise _ => run_forever s rest
        | Ok ed =>
            if negb (started s) then run_forever (mkForever true (last_epoch s) (process s) (begun s) (completed s)) rest
            else if bool_decide (Some (epoch ed) = last_epoch s) then run_forever s rest
            else
              let b := begun s ++ [epoch ed] in
              match process_epoch (epoch ed) (it_readings it) (process s) with
              | (c, log, Go _) =>
                  run_forever (mkForever true (Some (epoch ed)) c b (completed s ++ [(epoch ed, log)])) rest
              | (c, _, Blocked) => mkForever true (last_epoch s) c b (completed s)
              | (c, _, Failed _) => run_forever (mkForever true (last_epoch s) c b (completed s)) rest
              end
        end
  end.

Definition forever_init (c : Consensus) : Forever := mkForever false None c [] [].

(** ** Lemmas *)

(** Skipping the activation leaves the slot unknown, and the first query for the epoch raises. *)
Lemma skipped_activation_raises me activation t nodes :
  nt_stop t = false -> main_loop_start me true activation (t :: nodes) = Failed TypeError.
Proof. intros H. unfold main_loop_start. cbn. by rewrite H. Qed.

(** A slot is known whenever activation succeeds without a failed query. *)
Lemma activation_finds_slot ticks slot : forall s0 last errs,
  Forall (fun t => is_ok (ac_slot t) = true) ticks ->
  activate_loop s0 last errs ticks = (slot, Go true) -> is_Some slot.
Proof.
  induction ticks as [|t rest IH]; intros s0 last errs Hf H; cbn in H; [done|].
  apply Forall_cons in Hf as [Ht Hf]. destruct (ac_stop t); [done|].
  destruct s0 as [s|]; destruct (ac_slot t) as [[s'|]|]; try done;
    try (by eapply IH); destruct (ac_epoch t) as [ep|]; try done;
    (case_bool_decide; [by eapply IH|]); destruct (ac_info t) as [[[]|]|]; simplify_eq; eauto;
    destruct (max_errors <? errs); simplify_eq; by eapply IH.
Qed.

(** The position of a call in an epoch. *)
Definition stage (x : Call) : Z :=
  match x with
  | ProposeAttestation _ _ | AttestData _ _ => 0
  | CallAndCommitAllTasks _ => 1
  | RevealTasks _ => 2
  | RevealScores _ => 3
  | VerifyAndScorePeers _ => 4
  | CommitScores _ _ => 5
  end.

Definition in_stage_order : list Call -> Prop := StronglySorted (fun a b => stage a <= stage b).

(** The reading a call needs: this epoch, and the window in which the peers accept the record (a proposal has none). *)
Definition call_ok (e : Z) (x : Call) : Prop :=
  match x with
  | ProposeAttestation ed _ => epoch ed = e
  | AttestData ed _ => epoch ed = e /\ (percent_complete ed <= 3 # 20)%Q
  | CallAndCommitAllTasks ed => epoch ed = e /\ window VerifierCommit (percent_complete ed)
  | RevealTasks ed => epoch ed = e /\ window VerifierReveal (percent_complete ed)
  | RevealScores ed => epoch ed = e /\ window ScoresReveal (percent_complete ed)
  | VerifyAndScorePeers ed => epoch ed = e /\ (3 # 5 < percent_complete ed)%Q
  | CommitScores ed _ => epoch ed = e /\ window ScoresCommit (percent_complete ed)
  end.

(** Every call of [m] satisfies [P] and is of a stage between [lo] and [hi], and the stages are in order. *)
Definition calls {A} (P : Call -> Prop) (lo hi : Z) (m : co A) : Prop := forall c,
  Forall (fun x => P x /\ lo <= stage x <= hi) (m c).1.2 /\ in_stage_order (m c).1.2.

Lemma calls_nil {A} P lo hi (m : co A) : (forall c, (m c).1.2 = []) -> calls P lo hi m.
Proof. intros H c. rewrite H. split; constructor. Qed.

Lemma calls_emit (P : Call -> Prop) x : P x -> calls P (stage x) (stage x) (emit x).
Proof. intros H c. cbn. split; [repeat constructor; first [done|lia]|]. repeat constructor. Qed.

Lemma calls_weaken {A} P lo hi lo' hi' (m : co A) : calls P lo hi m -> lo' <= lo -> hi <= hi' -> calls P lo' hi' m.
Proof. intros H Hlo Hhi c. destruct (H c) as [H1 H2]. split; [|done]. eapply Forall_impl; [exact H1|]. intros x [? ?]. split; [done|lia]. Qed.

Lemma in_stage_order_app l1 l2 mid :
  in_stage_order l1 -> in_stage_order l2 -> Forall (fun x => stage x <= mid) l1 -> Forall (fun x => mid <= stage x) l2 ->
  in_stage_order (l1 ++ l2).
Proof.
  intros H1 H2 F1 F2. induction H1 as [|x l Hl IH Hx]; [done|]. apply Forall_cons in F1 as [Hxm F1].
  cbn. constructor; [by apply IH|]. apply Forall_app. split; [done|].
  eapply Forall_impl; [exact F2|]. intros y. cbn. lia.
Qed.

Lemma calls_bind {A B} P lo mid hi (m : co A) (k : A -> co B) :
  calls P lo mid m -> (forall a, calls P mid hi (k a)) -> lo <= mid <= hi -> calls P lo hi (bind m k).
Proof.
  intros Hm Hk Hle c. unfold bind. destruct (Hm c) as [F1 S1]. destruct (m c) as [[c1 l1] [a| |e]]; cbn in F1, S1 |- *.
  2,3: split; [eapply Forall_impl; [exact F1|]; intros x [? ?]; split; [done|lia]|done].
  destruct (Hk a c1) as [F2 S2]. destruct (k a c1) as [[c2 l2] r]. cbn in F2, S2 |- *. split.
  - apply Forall_app. split; (eapply Forall_impl; [eassumption|]); intros x [? ?]; (split; [done|lia]).
  - apply in_stage_order_app with mid; [done|done| |]; (eapply Forall_impl; [eassumption|]); intros x [? ?]; lia.
Qed.

(** Both commands of a sequence stay in the same stages, the first making no call. *)
Lemma calls_then {A B} P lo hi (m : co A) (k : A -> co B) :
  (forall c, (m c).1.2 = []) -> (forall a, calls P lo hi (k a)) -> lo <= hi -> calls P lo hi (bind m k).
Proof. intros H Hk Hle. apply calls_bind with lo; [by apply calls_nil|done|lia]. Qed.

(** The same when what follows depends on how the first command ended. *)
Lemma calls_after {A B} P lo hi (m : co A) (k : A -> co B) :
  (forall c, (m c).1.2 = []) -> (forall c c1 l a, m c = (c1, l, Go a) -> calls P lo hi (k a)) -> calls P lo hi (bind m k).
Proof.
  intros H Hk c. unfold bind. specialize (H c). destruct (m c) as [[c1 l1] [a| |e]] eqn:E; cbn in H; subst; [|split; constructor..].
  destruct (Hk _ _ _ _ E c1) as [F S]. by destruct (k a c1) as [[c2 l2] r].
Qed.

Create HintDb calls.
#[export] Hint Extern 4 (calls _ _ _ (ret _)) => apply calls_nil; reflexivity : calls.
#[export] Hint Extern 4 (calls _ _ _ (lift _)) => apply calls_nil; reflexivity : calls.
#[export] Hint Extern 4 (calls _ _ _ blocked) => apply calls_nil; reflexivity : calls.

(** Decompose a coroutine: silent commands, branches, and a final emission followed by silent work. *)
Ltac calls_step :=
  match goal with
  | |- calls _ _ _ (if ?b then _ else _) => let E := fresh "E" in destruct b eqn:E
  | |- calls _ _ _ (bind (emit ?x) _) =>
      apply (calls_weaken _ (stage x) (stage x)); [|cbn; lia|cbn; lia];
      apply (calls_bind _ _ (stage x)); [apply calls_emit|intros ?|lia]
  | |- calls _ _ _ (bind (match ?o with Some _ => _ | None => _ end) _) => destruct o eqn:?
  | |- calls _ _ _ (bind _ _) => apply calls_then; [intros; reflexivity|intros ?|lia]
  | |- calls _ _ _ (match ?o with Some _ => _ | None => _ end) => destruct o eqn:?
  | |- calls _ _ _ _ => solve [auto with calls]
  end.

(** Read the tests of a phase off its branch conditions. *)
Ltac window_of_tests :=
  unfold after in *; propify; destruct_and?; split; [lia|]; cbn;
  repeat split; first [by apply Qle_bool_iff | by apply Qle_bool_false].

Lemma run_task_commit_calls e ticks work : calls (call_ok e) 1 1 (run_task_commit e ticks work).
Proof. destruct ticks; cbn [run_task_commit]; repeat calls_step. cbn. window_of_tests. Qed.

Lemma run_task_reveal_calls e ticks work : calls (call_ok e) 2 2 (run_task_reveal e ticks work).
Proof. induction ticks; cbn [run_task_reveal]; repeat calls_step. cbn. window_of_tests. Qed.

Lemma run_reveal_scores_calls e ticks work : calls (call_ok e) 3 3 (run_reveal_scores e ticks work).
Proof. induction ticks; cbn [run_reveal_scores]; repeat calls_step. cbn. window_of_tests. Qed.

Lemma run_verify_calls e ticks work : calls (call_ok e) 4 4 (run_verify_and_score_peers e ticks work).
Proof. induction ticks; cbn [run_verify_and_score_peers]; repeat calls_step. cbn. window_of_tests. Qed.

Lemma commit_scores_loop_calls e s ticks work : calls (call_ok e) 5 5 (commit_scores_loop e s ticks work).
Proof. induction ticks; cbn [commit_scores_loop]; repeat calls_step. cbn. window_of_tests. Qed.

Lemma run_commit_scores_calls e ticks work : calls (call_ok e) 5 5 (run_commit_scores e ticks work).
Proof.
  unfold run_commit_scores. calls_step. apply calls_then; [reflexivity| |lia].
  intros [|]; [auto with calls|apply commit_scores_loop_calls].
Qed.

Lemma wait_validator_silent e ticks : forall v c, (wait_validator e v ticks c).1.2 = [].
Proof.
  induction ticks as [|t rest IH]; intros v c; cbn; [done|]. destruct (el_stopped t); [done|].
  unfold bind, lift. destruct (el_validator t); [|done]. destruct (el_epoch t); [|done].
  cbn. destruct (negb _); [done|]. by rewrite orb_true_r.
Qed.

(** What an attestation of epoch [e] rests on. *)
Definition attests_match (e me : Z) (scores : Score_list) (x : Call) : Prop :=
  match x with
  | AttestData ed d =>
      epoch ed = e /\ (percent_complete ed <= 3 # 20)%Q /\ scores <> [] /\
      (forall y, y ∈ scores <-> y ∈ consensus_scores d) /\ did_node_attest (Some me) d = false
  | _ => False
  end.

Lemma is_one_spec my v : is_one (compare_consensus_data my v) = true -> (forall x, x ∈ my <-> x ∈ v) /\ my <> [].
Proof. unfold is_one. intros H. apply Qeq_bool_iff in H. by apply compare_one, Qeq_sym. Qed.

(** Every call of [m] from a state in [I] satisfies [P], and the final state is in [I]. *)
Definition keeps {A} (I : Consensus -> Prop) (P : Call -> Prop) (m : co A) : Prop :=
  forall c, I c -> I (m c).1.1 /\ Forall P (m c).1.2.

Lemma keeps_bind {A B} I P (m : co A) (k : A -> co B) :
  keeps I P m -> (forall a, keeps I P (k a)) -> keeps I P (bind m k).
Proof.
  intros Hm Hk c Hc. unfold bind. destruct (Hm c Hc) as [I1 F1]. destruct (m c) as [[c1 l1] [a| |e]]; cbn in I1, F1 |- *; try done.
  destruct (Hk a c1 I1) as [I2 F2]. destruct (k a c1) as [[c2 l2] r]. cbn in I2, F2 |- *. by rewrite Forall_app.
Qed.

Lemma keeps_gets {A B} I P (f : Consensus -> A) (k : A -> co B) :
  (forall c, I c -> keeps I P (k (f c))) -> keeps I P (bind (gets f) k).
Proof.
  intros Hk c Hc. unfold bind, gets. destruct (Hk c Hc c Hc) as [I2 F2].
  destruct (k (f c) c) as [[c2 l2] r]. done.
Qed.

Lemma keeps_emit (I : Consensus -> Prop) (P : Call -> Prop) x : P x -> keeps I P (emit x).
Proof. intros H c Hc. split; [done|]. by repeat constructor. Qed.

Lemma keeps_silent {A} (I : Consensus -> Prop) P (m : co A) :
  (forall c, I c -> I (m c).1.1) -> (forall c, (m c).1.2 = []) -> keeps I P m.
Proof. intros H1 H2 c Hc. rewrite H2. auto. Qed.

Ltac keeps_step :=
  match goal with
  | |- keeps _ _ (if ?b then _ else _) => let E := fresh "E" in destruct b eqn:E
  | |- keeps _ _ (bind (gets _) _) => apply keeps_gets; let c := fresh "c" in let Hc := fresh "Hc" in intros c Hc
  | |- keeps _ _ (bind _ _) => apply keeps_bind; [|intros ?]
  | |- keeps _ _ (match ?o with Some _ => _ | None => _ end) => destruct o eqn:?
  | |- keeps _ _ (emit _) => apply keeps_emit
  | |- keeps _ _ (set_previous _) => apply keeps_silent; [by intros ? ?|done]
  | |- keeps _ _ (ret _) => apply keeps_silent; done
  | |- keeps _ _ (lift _) => apply keeps_silent; done
  | |- keeps _ _ blocked => apply keeps_silent; done
  end.

Lemma attest_loop_calls e me scores ticks : forall cd,
  keeps (fun c => subnet_node_id_ c = me) (attests_match e me scores) (attest_loop e scores cd ticks).
Proof.
  induction ticks as [|t rest IH]; intros cd; cbn [attest_loop]; [by keeps_step|].
  repeat first [apply IH | keeps_step]. subst me. unfold after in *. propify. destruct_and?.
  match goal with H : is_one _ = true |- _ => apply is_one_spec in H as [Hs Hne] end.
  cbn. split_and!; try done. by apply Qle_bool_iff.
Qed.

Lemma attest_loop_stage e scores cd ticks : calls (call_ok e) 0 0 (attest_loop e scores cd ticks).
Proof.
  intros c. destruct (attest_loop_calls e (subnet_node_id_ c) scores ticks cd c eq_refl) as [_ F].
  induction F as [|x l Hx _ [F S]]; [split; constructor|].
  destruct x as [|ed d| | | | |]; try done. destruct Hx as (? & ? & _). split.
  - constructor; [|done]. cbn. split; [done|lia].
  - constructor; [done|]. eapply Forall_impl; [exact F|]. cbn. intros y [_ ?]. lia.
Qed.

(** The reading [ed] that elects [v] for epoch [e]. *)
Definition elected (e : Z) (els : list ElectionTick) (v : Z) (ed : EpochData) : Prop :=
  exists t, t ∈ els /\ el_stopped t = false /\ el_validator t = Ok (Some v) /\ el_epoch t = Ok ed /\ epoch ed = e.

Lemma wait_validator_elected e els c c1 l v ed :
  wait_validator e None els c = (c1, l, Go (Some (v, ed))) -> c1 = c /\ elected e els v ed.
Proof.
  destruct els as [|t rest]; [done|]. cbn. destruct (el_stopped t) eqn:Es; [by intros ?; simplify_eq|].
  unfold bind, lift, ret. destruct (el_validator t) as [o|] eqn:Ev; [|done]. destruct (el_epoch t) as [ed'|] eqn:Ee; [|done].
  cbn. destruct (negb _) eqn:En; [by intros ?; simplify_eq|]. rewrite orb_true_r. intros H. destruct o; cbn in H; simplify_eq.
  split; [done|]. exists t. propify. split_and!; [apply list_elem_of_here|done..].
Qed.

Lemma run_consensus_calls e els sub prop ticks : calls (call_ok e) 0 0 (run_consensus e els sub prop ticks).
Proof.
  unfold run_consensus. apply calls_then; [done| |lia]. intros [scores|]; [|auto with calls].
  apply calls_after; [intros; apply wait_validator_silent|]. intros c c1 l [[v ed]|] Ew; [|auto with calls].
  apply wait_validator_elected in Ew as [_ (t & _ & _ & _ & _ & He)].
  calls_step. calls_step; [|apply attest_loop_stage]. calls_step. by repeat calls_step.
Qed.

Lemma process_epoch_calls e r : calls (call_ok e) 0 5 (process_epoch e r).
Proof.
  unfold process_epoch.
  apply (calls_bind _ _ 0); [apply run_consensus_calls|intros _|lia].
  apply (calls_bind _ _ 1); [eapply calls_weaken; [apply run_task_commit_calls|lia|lia]|intros _|lia].
  apply (calls_bind _ _ 2); [eapply calls_weaken; [apply run_task_reveal_calls|lia|lia]|intros _|lia].
  apply (calls_bind _ _ 3); [eapply calls_weaken; [apply run_reveal_scores_calls|lia|lia]|intros _|lia].
  apply (calls_bind _ _ 4); [eapply calls_weaken; [apply run_verify_calls|lia|lia]|intros scores|lia].
  destruct scores as [[|s0 ss]|]; try (apply calls_nil; reflexivity).
  do 2 (apply calls_then; [reflexivity|intros ?|lia]).
  eapply calls_weaken; [apply run_commit_scores_calls|lia|lia].
Qed.

Lemma get_scores_spec k c : exists c1,
  get_scores k c = (c1, [], Go (dget (epoch_scores c) k)) /\ subnet_node_id_ c1 = subnet_node_id_ c.
Proof.
  assert (Hd : dget (if dmem (epoch_scores c) (k - 1) then ddel (epoch_scores c) (k - 1) else epoch_scores c) k =
               dget (epoch_scores c) k) by (destruct (dmem _ _); [apply dget_ddel_ne; lia|done]).
  eexists. split; [unfold get_scores, bind, gets, set_scores, modify, ret; cbn; rewrite Hd; reflexivity|done].
Qed.

(** Inversion of a sequence that finished. *)
Lemma bind_go {A B} (m : co A) (k : A -> co B) c c2 l b :
  bind m k c = (c2, l, Go b) ->
  exists c1 l1 a l2, m c = (c1, l1, Go a) /\ k a c1 = (c2, l2, Go b) /\ l = l1 ++ l2.
Proof.
  unfold bind. destruct (m c) as [[c1 l1] [a| |]]; [|done|done].
  destruct (k a c1) as [[c2' l2] r] eqn:E. intros H. simplify_eq. exists c1, l1, a, l2. done.
Qed.

Lemma run_verify_result e ticks work c c' l a :
  run_verify_and_score_peers e ticks work c = (c', l, Go a) -> c' = c /\ (l <> [] -> work = Ok a).
Proof.
  induction ticks as [|t rest IH]; cbn; [done|]. destruct (stopped t); [done|].
  unfold bind, lift. destruct (tick_epoch t) as [ed|]; [|done]. destruct (negb _); [intros ?; simplify_eq; naive_solver|].
  destruct (Qle_bool _ _).
  - destruct (run_verify_and_score_peers _ _ _ c) as [[c1 l1] r]. intros H. simplify_eq. auto.
  - cbn. destruct work; [|done]. intros H. simplify_eq. naive_solver.
Qed.

Lemma commit_scores_loop_state e s ticks work c : (commit_scores_loop e s ticks work c).1.1 = c.
Proof.
  induction ticks as [|t rest IH]; cbn; [done|]. destruct (stopped t); [done|].
  unfold bind, lift. destruct (tick_epoch t) as [ed|]; [|done]. destruct (negb _); [done|].
  destruct (Qle_bool _ _); [|by destruct work].
  destruct (commit_scores_loop e s rest work c) as [[c1 l1] r]. done.
Qed.

Lemma run_commit_scores_state e ticks work c : (run_commit_scores e ticks work c).1.1 = c.
Proof.
  unfold run_commit_scores, bind, gets, lift. destruct (dgetitem _ _) as [[|s ss]|]; try done.
  pose proof (commit_scores_loop_state e (s :: ss) ticks work c) as H.
  destruct (commit_scores_loop _ _ _ _ _) as [[c1 l1] r]. done.
Qed.

(** The calls of a coroutine that cannot reach a stage do not contain that stage. *)
Lemma calls_not_in {A} P lo hi (m : co A) c c' l r x :
  calls P lo hi m -> m c = (c', l, r) -> x ∈ l -> lo <= stage x <= hi.
Proof.
  intros H E Hx. destruct (H c) as [F _]. rewrite E in F. rewrite Forall_forall in F. by apply F.
Qed.

(** An epoch in which the peers were scored leaves the scores in [epoch_scores]. *)
Lemma process_epoch_scores e r c c1 log ed s :
  process_epoch e r c = (c1, log, Go tt) -> VerifyAndScorePeers ed ∈ log -> (rd_verify r).2 = Ok (Some s) -> s <> [] ->
  dget (epoch_scores c1) e = Some s.
Proof.
  intros H Hin Hw Hs. unfold process_epoch in H.
  apply bind_go in H as (ca & la & ? & l1 & Ha & H & ->). apply bind_go in H as (cb & lb & ? & l2 & Hb & H & ->).
  apply bind_go in H as (cc & lc & ? & l3 & Hc & H & ->). apply bind_go in H as (cd & ld & ? & l4 & Hd & H & ->).
  apply bind_go in H as (ce & le & sc & l5 & He & H & ->).
  destruct (run_verify_result _ _ _ _ _ _ _ He) as [-> Hwork].
  destruct (decide (le = [])) as [-> |Hne].
  - exfalso. rewrite !elem_of_app in Hin. destruct Hin as [Hin|[Hin|[Hin|[Hin|[Hin|Hin]]]]]; [..|by apply not_elem_of_nil in Hin|].
    + eapply calls_not_in in Ha; [|apply run_consensus_calls|exact Hin]. cbn in Ha. lia.
    + eapply calls_not_in in Hb; [|apply run_task_commit_calls|exact Hin]. cbn in Hb. lia.
    + eapply calls_not_in in Hc; [|apply run_task_reveal_calls|exact Hin]. cbn in Hc. lia.
    + eapply calls_not_in in Hd; [|apply run_reveal_scores_calls|exact Hin]. cbn in Hd. lia.
    + destruct sc as [[|s0 ss]|]; [by unfold ret in H; simplify_eq; apply not_elem_of_nil in Hin| |by unfold ret in H; simplify_eq; apply not_elem_of_nil in Hin].
    apply bind_go in H as (? & ? & ? & ? & E1 & H & ->). unfold gets in E1. simplify_eq.
    apply bind_go in H as (? & ? & ? & ? & E2 & H & ->). unfold set_scores, modify in E2. simplify_eq. cbn in Hin.
    eapply calls_not_in in H; [|apply run_commit_scores_calls|exact Hin]. cbn in H. lia.
  - rewrite Hwork in Hw by done. simplify_eq. destruct s as [|s0 ss]; [done|].
    apply bind_go in H as (? & ? & ? & ? & E1 & H & ->). unfold gets in E1. simplify_eq.
    apply bind_go in H as (? & ? & ? & ? & E2 & H & ->). unfold set_scores, modify in E2. simplify_eq.
    pose proof (run_commit_scores_state e (rd_commit_scores r).1 (rd_commit_scores r).2) as Hst.
    eassert (E := Hst _). rewrite H in E. cbn in E. rewrite E. cbn. apply dget_dset_eq.
Qed.

Lemma bind_head {A B} (m : co A) (k : A -> co B) c x :
  (m c).1.2 = [x] -> exists rest, (bind m k c).1.2 = x :: rest.
Proof.
  unfold bind. destruct (m c) as [[c1 l1] [a| |]]; cbn; intros ->; [|eauto..].
  destruct (k a c1) as [[c2 l2] r]. cbn. eauto.
Qed.

(** The elected node proposes its scores. *)
Lemma elected_proposes e t els ed s prop ticks c :
  dget (epoch_scores c) (e - 1) = Some s -> el_stopped t = false -> el_validator t = Ok (Some (subnet_node_id_ c)) ->
  el_epoch t = Ok ed -> epoch ed = e ->
  (run_consensus e (t :: els) (Ok None) prop ticks c).1.2 = [ProposeAttestation ed s].
Proof.
  intros Hd Hst Hv Hed He. unfold run_consensus. unfold bind at 1.
  destruct (get_scores_spec (e - 1) c) as (c1 & -> & Hid). rewrite Hd. unfold bind at 1. cbn [wait_validator].
  unfold bind at 1 2, lift, ret. rewrite Hst, Hv, Hed, He, Z.eqb_refl, orb_true_r. cbn.
  unfold bind, gets. rewrite Hid, Z.eqb_refl. by destruct prop.
Qed.

(** The epochs an iteration list reads successfully. *)
Definition read_epochs (its : list Iteration) : list Z :=
  omap (fun it => match it_epoch it with Ok ed => Some (epoch ed) | Raise _ => None end) its.

(** The invariant of the main loop: the completed epochs are strictly increasing and end with [last_epoch]. *)
Record forever_ok (s : Forever) : Prop := {
  fo_sorted : StronglySorted Z.lt (completed s).*1;
  fo_last : last_epoch s = last (completed s).*1;
  fo_logs : Forall (fun el => Forall (call_ok el.1) el.2 /\ in_stage_order el.2) (completed s);
}.

Lemma StronglySorted_last_le (l : list Z) y : StronglySorted Z.lt l -> last l = Some y -> forall x, x ∈ l -> x <= y.
Proof.
  induction 1 as [|a l Hl IH Ha]; [done|]. destruct l as [|b l'].
  - cbn. intros ? x Hx. simplify_eq. apply list_elem_of_singleton in Hx. lia.
  - intros Hlast x Hx. change (last (b :: l') = Some y) in Hlast. apply elem_of_cons in Hx as [-> |Hx]; [|auto].
    assert (Hb : b <= y) by (apply IH; [done|apply list_elem_of_here]). apply Forall_cons in Ha as [? _]. lia.
Qed.

Lemma StronglySorted_snoc (l : list Z) x : StronglySorted Z.lt l -> (forall y, y ∈ l -> y < x) -> StronglySorted Z.lt (l ++ [x]).
Proof.
  induction 1 as [|a l Hl IH Ha]; intros H; cbn; [repeat constructor|].
  constructor; [apply IH; intros; apply H; set_solver|]. apply Forall_app. split; [done|].
  repeat constructor. apply H. set_solver.
Qed.

Lemma forever_ok_complete s e c b log :
  forever_ok s -> (forall l, last_epoch s = Some l -> l < e) -> Forall (call_ok e) log -> in_stage_order log ->
  forever_ok (mkForever true (Some e) c b (completed s ++ [(e, log)])).
Proof.
  intros [H1 H2 H3] Hlt Hl Ho. split; cbn.
  - rewrite fmap_app. apply StronglySorted_snoc; [done|]. intros y Hy.
    destruct (last (completed s).*1) as [l|] eqn:El.
    + pose proof (StronglySorted_last_le _ _ H1 El _ Hy). specialize (Hlt l H2). cbn. lia.
    + apply last_None in El. rewrite El in Hy. by apply not_elem_of_nil in Hy.
  - rewrite fmap_app. symmetry. apply last_snoc.
  - apply Forall_app. split; [done|]. by repeat constructor.
Qed.

Lemma run_forever_ok its : forall s,
  forever_ok s -> StronglySorted Z.le (read_epochs its) ->
  (forall l e, last_epoch s = Some l -> e ∈ read_epochs its -> l <= e) -> forever_ok (run_forever s its).
Proof.
  induction its as [|it rest IH]; intros s Hs Hsort Hle; cbn [run_forever]; [done|].
  destruct (it_stop it); [done|]. unfold read_epochs in Hsort, Hle. cbn in Hsort, Hle.
  destruct (it_epoch it) as [ed|]; [|by apply IH]. fold (read_epochs rest) in Hsort, Hle.
  apply StronglySorted_inv in Hsort as [Hsort Hed]. rewrite Forall_forall in Hed.
  assert (Hle' : forall l e, last_epoch s = Some l -> e ∈ read_epochs rest -> l <= e) by (intros; eapply Hle; set_solver).
  destruct (negb (started s)); [apply IH; try done; by destruct Hs|].
  case_bool_decide as Hl; [by apply IH|].
  destruct (process_epoch_calls (epoch ed) (it_readings it) (process s)) as [F S].
  destruct (process_epoch _ _ _) as [[c log] [[]| |x]]; cbn in F, S.
  - apply IH; [|done|intros l e He Hin; cbn in He; simplify_eq; by apply Hed].
    apply forever_ok_complete; try done.
    + intros l El. assert (l <= epoch ed) by (eapply Hle; [done|set_solver]). assert (l <> epoch ed) by congruence. lia.
    + eapply Forall_impl; [exact F|]. intros y [? _]. done.
  - by destruct Hs.
  - apply IH; try done. by destruct Hs.
Qed.

(** * Theorems *)

(** C5: Every call made while an epoch is processed was allowed by a reading of the same epoch.  For a record it lies in the
    window in which the peers accept it, for an attestation in the first 15%, for scoring after 60%; a proposal needs the epoch
    only.  The calls come in the order consensus, task commit, task reveal, score reveal, scoring, score commit.  Errors and
    waiting included. *)
Theorem epoch_calls_in_window e r c c' log fl :
  process_epoch e r c = (c', log, fl) -> Forall (call_ok e) log /\ in_stage_order log.
Proof.
  intros H. destruct (process_epoch_calls e r c) as [F S]. rewrite H in F, S. split; [|done].
  eapply Forall_impl; [exact F|]. by intros x [? _].
Qed.

(** C6: Consensus sends a proposal only when the node is elected, nothing was submitted yet, and then once, with its own
    scores of the previous epoch; it attests only another elected validator, whose scores are the same non-empty
    set as its own, and only if its attestation is not on chain.  It sends nothing else. *)
Theorem consensus_sends_only_matching e els sub prop ticks c c' log fl :
  run_consensus e els sub prop ticks c = (c', log, fl) ->
  forall x, x ∈ log ->
    exists scores v ed, dget (epoch_scores c) (e - 1) = Some scores /\ elected e els v ed /\
      match x with
      | ProposeAttestation ed' d => ed' = ed /\ d = scores /\ v = subnet_node_id_ c /\ sub = Ok None /\ log = [x]
      | _ => v <> subnet_node_id_ c /\ attests_match e (subnet_node_id_ c) scores x
      end.
Proof.
  unfold run_consensus. unfold bind at 1. destruct (get_scores_spec (e - 1) c) as (c1 & -> & Hid). cbn.
  destruct (dget (epoch_scores c) (e - 1)) as [scores|]; [|intros; simplify_eq; set_solver].
  intros H x Hx. exists scores. unfold bind at 1 in H.
  pose proof (wait_validator_silent e els None c1) as Hsil.
  destruct (wait_validator e None els c1) as [[c2 l2] [[[v ed]|]| |]] eqn:Ew; cbn in Hsil, H; simplify_eq;
    try (exfalso; set_solver).
  apply wait_validator_elected in Ew as [-> Hel]. exists v, ed. split_and!; [done|done|].
  unfold bind at 1, gets in H. destruct (v =? subnet_node_id_ c1) eqn:Ev; propify.
  - unfold bind, lift, emit in H. destruct sub as [[]|]; cbn in H; simplify_eq; try set_solver.
  - destruct (attest_loop_calls e (subnet_node_id_ c) scores ticks None c1 Hid) as [_ F].
    destruct (attest_loop e scores None ticks c1) as [[c2 l2] r]. cbn in H, F. simplify_eq.
    rewrite Forall_forall in F. specialize (F x Hx). rewrite <- Hid in *. destruct x; cbn in F; done.
Qed.

(** C7: The scores a node computes in one epoch are what it proposes when it is elected in the next. *)
Theorem scores_reach_chain e r1 r2 c c1 log ed s t els ed' :
  process_epoch e r1 c = (c1, log, Go tt) -> VerifyAndScorePeers ed ∈ log ->
  (rd_verify r1).2 = Ok (Some s) -> s <> [] ->
  rd_elections r2 = t :: els -> el_stopped t = false -> el_validator t = Ok (Some (subnet_node_id_ c1)) ->
  el_epoch t = Ok ed' -> epoch ed' = e + 1 -> rd_submitted r2 = Ok None ->
  exists rest, (process_epoch (e + 1) r2 c1).1.2 = ProposeAttestation ed' s :: rest.
Proof.
  intros H Hin Hw Hs Hels Hst Hv Hed He Hsub. pose proof (process_epoch_scores _ _ _ _ _ _ _ H Hin Hw Hs) as Hd.
  unfold process_epoch. apply bind_head. rewrite Hels, Hsub. eapply elected_proposes; try done. by replace (e + 1 - 1) with e by lia.
Qed.

(** While the epochs read do not decrease, no epoch is completed twice, they are completed in increasing
    order, and every call made for one of them respects the windows. *)
Theorem epochs_completed_once c its :
  StronglySorted Z.le (read_epochs its) ->
  let s := run_forever (forever_init c) its in
  StronglySorted Z.lt (completed s).*1 /\
  Forall (fun el => Forall (call_ok el.1) el.2 /\ in_stage_order el.2) (completed s).
Proof.
  intros H. destruct (run_forever_ok its (forever_init c)) as [H1 _ H2]; [|done|done|done].
  split; cbn; [constructor|done|constructor].
Qed.

(** ** A concrete epoch *)

(** Epoch [e] of 100 blocks, at [p] percent. *)
Definition toy_data (e p : Z) : EpochData :=
  match get_subnet_epoch_data (e * 100 + p) 100 0 with Ok ed => ed | Raise _ => epoch_zero 0 100 end.
Definition toy_tick (e p : Z) : Tick := mkTick false (Ok (toy_data e p)).
Definition toy_scores : Score_list := [mkNodeScore 1 10; mkNodeScore 2 20].
Definition toy_state : Consensus := mkConsensusSt 7 false None [(4, toy_scores)].

(** In epoch 5 node 8 is elected and has submitted the same scores in another order. *)
Definition toy_consensus : ConsensusData := mkConsensus [[(8, 0)]] [1; 2] (reverse toy_scores).
Definition toy_readings (e validator : Z) : Readings :=
  mkReadings [mkElection false (Ok (Some validator)) (Ok (toy_data e 2))] (Ok None) (Ok tt)
    [mkAttest false (Ok None) (Ok (toy_data e 3)) (Ok true);
     mkAttest false (Ok (Some toy_consensus)) (Ok (toy_data e 4)) (Ok false);
     mkAttest false (Ok None) (Ok (toy_data e 5)) (Ok true)]
    ([toy_tick e 20], Ok tt) ([toy_tick e 30; toy_tick e 52], Ok tt) ([toy_tick e 55], Ok tt)
    ([toy_tick e 56; toy_tick e 61], Ok (Some toy_scores)) ([toy_tick e 62], Ok tt).

Abbreviation toy_run := (process_epoch 5 (toy_readings 5 8) toy_state).

Lemma epoch_calls_in_window_witness :
  length toy_run.1.2 = 7%nat /\ Forall (call_ok 5) toy_run.1.2 /\ in_stage_order toy_run.1.2.
Proof.
  split; [vm_compute; reflexivity|].
  exact (epoch_calls_in_window 5 (toy_readings 5 8) toy_state _ _ _
           (eq_trans (surjective_pairing toy_run) (f_equal2 pair (surjective_pairing toy_run.1) eq_refl))).
Defined.

Abbreviation toy_run_consensus := (run_consensus 5 (rd_elections (toy_readings 5 8)) (Ok None) (Ok tt)
  (rd_attests (toy_readings 5 8)) toy_state).

Lemma consensus_sends_only_matching_witness :
  toy_run_consensus.1.2 = [AttestData (toy_data 5 4) toy_consensus; AttestData (toy_data 5 5) toy_consensus] /\
  exists scores v ed, dget (epoch_scores toy_state) 4 = Some scores /\ elected 5 (rd_elections (toy_readings 5 8)) v ed /\
    v <> 7 /\ attests_match 5 7 scores (AttestData (toy_data 5 4) toy_consensus).
Proof.
  split; [vm_compute; reflexivity|].
  exact (consensus_sends_only_matching 5 _ (Ok None) (Ok tt) (rd_attests (toy_readings 5 8)) toy_state _ _ _
    (eq_trans (surjective_pairing toy_run_consensus) (f_equal2 pair (surjective_pairing toy_run_consensus.1) eq_refl))
    (AttestData (toy_data 5 4) toy_consensus) (list_elem_of_here _ _)).
Defined.

Lemma scores_reach_chain_witness :
  exists rest, (process_epoch 6 (toy_readings 6 7) toy_run.1.1).1.2 = ProposeAttestation (toy_data 6 2) toy_scores :: rest.
Proof.
  apply (scores_reach_chain 5 (toy_readings 5 8) (toy_readings 6 7) toy_state toy_run.1.1 toy_run.1.2 (toy_data 5 61)
           toy_scores (mkElection false (Ok (Some 7)) (Ok (toy_data 6 2))) [] (toy_data 6 2)); try reflexivity; try discriminate.
  apply (list_elem_of_lookup_2 _ 5%nat). reflexivity.
Defined.

Definition toy_iterations : list Iteration :=
  [mkIteration false (Ok (toy_data 4 50)) (toy_readings 4 8); mkIteration false (Raise RuntimeError) (toy_readings 5 8);
   mkIteration false (Ok (toy_data 5 1)) (toy_readings 5 8); mkIteration false (Ok (toy_data 5 99)) (toy_readings 5 8);
   mkIteration false (Ok (toy_data 6 0)) (toy_readings 6 7)].

Lemma epochs_completed_once_witness :
  let s := run_forever (forever_init toy_state) toy_iterations in
  (completed s).*1 = [5; 6] /\ StronglySorted Z.lt (completed s).*1.
Proof.
  split; [vm_compute; reflexivity|].
  refine (proj1 (epochs_completed_once toy_state toy_iterations _)).
  change (read_epochs toy_iterations) with [4; 5; 5; 6]. repeat constructor; discriminate.
Defined.
