(* ===== verification/MockChain.v ===== *)
(** * The local mock chain ([mesh/substrate/mock/mock_db.py] and [mesh/substrate/mock/local_chain_functions.py])

    [LocalMockHypertensor] lets several processes on one machine run the consensus without a chain: it answers most
    queries with constants, derives blocks and epochs from the clock, and keeps registrations and proposals in a SQLite
    file that the processes share.  The file is the state [MockDatabase]; a process is a [Mock].

    A table is the list of its rows in the order of their AUTOINCREMENT id, which is the order in which a
    SELECT without ORDER BY scans it.  A JSON column holds what [json.loads] gives back: the keys of an object are
    strings, whatever they were when it was dumped. *)

From Stdlib Require Import QArith String.
From stdpp Require Import strings pretty.
From S2P Require Import Prelude DHTID Epoch CommitReveal Scores Consensus.
#[local] Open Scope Z_scope.

(** Evaluate the consensus, but not its test for an attestation. *)
Ltac cbn_consensus := with_strategy opaque [did_node_attest] cbn.

Section MockChain.
(** JSON values that are passed through. *)
Context {Json : Type}.

(** ** Data *)

(** The dictionary [node_info]; its keys are strings, so it survives JSON as it is. *)
Record NodeInfo : Type := mkInfo {
  ni_subnet_node_id : Z;
  ni_peer_id : string;
  ni_coldkey : string;
  ni_hotkey : string;
  ni_bootnode_peer_id : string;
  ni_client_peer_id : string;
  ni_bootnode : string;
  ni_identity : string;
  ni_node_class : string;
  ni_start_epoch : Z;
  ni_delegate_reward_rate : Z;
  ni_last_update : Z;
  ni_unique : string;
  ni_non_unique : string;
  ni_stake_balance : Z;
  ni_node_delegate_stake_balance : Z;
  ni_penalties : Z;
  ni_reputation : Z;
}.

(** Keys of the dictionaries in [attests]: the code writes integers, JSON gives strings back. *)
Inductive Key : Type := KInt (z : Z) | KStr (s : string).

#[export] Instance Key_eq_dec : EqDecision Key.
Proof. solve_decision. Defined.

(** [str(key)] *)
Definition key_str (k : Key) : string := match k with KInt z => pretty z | KStr s => s end.

(** [json.loads(json.dumps(d))] on the keys of a dictionary *)
Definition json_dict {V} (d : pydict Key V) : pydict Key V :=
  dict_of_list (map (fun kv => (KStr (key_str kv.1), kv.2)) d).

(** The ["data"] of an attestation: [null], the empty string, or what was passed. *)
Inductive AttData : Type := ANull | AEmpty | AValue (l : list Json).

Record Attestation : Type := mkAttestation {
  att_block : Z;
  attestor_progress : Z;
  reward_factor : Z;
  att_data : AttData;
}.

(** The dictionary that [propose_attestation] builds and [get_consensus_data] returns. *)
Record Proposal : Type := mkProposal {
  validator_id : Z;
  validator_epoch_progress : Z;
  p_attests : list (pydict Key Attestation);
  p_subnet_nodes : list NodeInfo;
  prioritize_queue_node_id : option Z;
  remove_queue_node_id : option Z;
  p_data : list SubnetNodeConsensusData;
  p_args : option Json;
}.

Record NodeRow : Type := mkNodeRow { nr_id : Z; nr_subnet_id : Z; nr_info : NodeInfo }.
Record ConsensusRow : Type := mkConsensusRow { cr_id : Z; cr_subnet_id : Z; cr_epoch : Z; cr_record : Proposal }.

(** The two tables with their AUTOINCREMENT counters. *)
Record MockDatabase : Type := mkDB {
  node_rows : list NodeRow;
  next_node_id : Z;
  consensus_rows : list ConsensusRow;
  next_consensus_id : Z;
}.
Implicit Types (db : MockDatabase) (now subnet : Z).

(** [_create_tables] on a new file, and [reset_database] *)
Definition empty_database : MockDatabase := mkDB [] 1 [] 1.
Definition reset_database (db : MockDatabase) : MockDatabase := empty_database.

(** [insert_subnet_node]: INSERT OR REPLACE deletes a row with the same [subnet_node_id], which is UNIQUE. *)
Definition insert_subnet_node db subnet (info : NodeInfo) : MockDatabase :=
  mkDB (filter (fun r => ni_subnet_node_id (nr_info r) <> ni_subnet_node_id info) (node_rows db)
          ++ [mkNodeRow (next_node_id db) subnet info])
    (next_node_id db + 1) (consensus_rows db) (next_consensus_id db).

(** [get_all_subnet_nodes] *)
Definition get_all_subnet_nodes db subnet : list NodeInfo :=
  map nr_info (filter (fun r => nr_subnet_id r = subnet) (node_rows db)).

(** What the JSON columns of a proposal give back. *)
Definition json_proposal (p : Proposal) : Proposal :=
  mkProposal (validator_id p) (validator_epoch_progress p) (map json_dict (p_attests p)) (p_subnet_nodes p)
    (prioritize_queue_node_id p) (remove_queue_node_id p) (p_data p) (p_args p).

(** [insert_consensus_data]: INSERT OR REPLACE, but the table has no UNIQUE column besides its id. *)
Definition insert_consensus_data db subnet (epoch : Z) (data : Proposal) : MockDatabase :=
  mkDB (node_rows db) (next_node_id db)
    (consensus_rows db ++ [mkConsensusRow (next_consensus_id db) subnet epoch (json_proposal data)])
    (next_consensus_id db + 1).

(** [get_consensus_data]: [fetchone] *)
Definition get_consensus_data db subnet (epoch : Z) : option Proposal :=
  cr_record <$> head (filter (fun r => cr_subnet_id r = subnet /\ cr_epoch r = epoch) (consensus_rows db)).

(** ** [LocalMockHypertensor] *)

Record Mock : Type := mkMock {
  m_subnet_id : Z;
  m_peer_id : string;
  m_subnet_node_id : Z;
  m_coldkey : string;
  m_hotkey : string;
  m_bootnode_peer_id : string;
  m_client_peer_id : string;
}.
Implicit Types (me : Mock).

(** [get_block_number], [get_epoch_length], [get_epoch] *)
Definition get_block_number now : Z := now / BLOCK_SECS.
Definition get_epoch_length : Z := 20.
Definition get_epoch now : Z := get_block_number now / get_epoch_length.

(** [get_epoch_data] and [get_subnet_epoch_data] *)
Definition local_epoch_data now : result EpochData :=
  epoch_at (get_block_number now) get_epoch_length (get_block_number now).
Definition local_subnet_epoch_data now (slot : Z) : result EpochData :=
  epoch_at (get_block_number now) get_epoch_length (get_block_number now - slot).

(** The constants: [get_subnet_slot], [get_rewards_validator], [proof_of_stake]. *)
Definition get_subnet_slot (subnet : Z) : Z := 3.
Definition get_rewards_validator (subnet epoch : Z) : Z := 6.
Definition proof_of_stake (subnet : Z) (peer_id : string) (min_class : Z) : bool := true.

Definition ONE : Z := 10 ^ 18.

(** The registration record of [__init__] *)
Definition my_info now me : NodeInfo :=
  mkInfo (m_subnet_node_id me) (m_peer_id me) (m_coldkey me) (m_hotkey me) (m_bootnode_peer_id me)
    (m_client_peer_id me) "" "" "Validator" (get_epoch now) 0 0 "" "" ONE 0 0 ONE.

(** [__init__]: a node with id 0 is a bootnode and is not registered. *)
Definition mock_init now db (reset_db : bool) me : MockDatabase :=
  let db := if reset_db then reset_database db else db in
  if m_subnet_node_id me =? 0 then db else insert_subnet_node db (m_subnet_id me) (my_info now me).

(** [propose_attestation] *)
Definition propose_attestation now db me subnet (data : list SubnetNodeConsensusData) (args : option Json)
    (attest_data : AttData) : MockDatabase * Proposal :=
  let subnet_nodes := get_all_subnet_nodes db subnet in
  let proposal :=
    mkProposal (m_subnet_node_id me) 0
      (map (fun n => [(KInt (ni_subnet_node_id n), mkAttestation 0 0 ONE attest_data)]) subnet_nodes)
      subnet_nodes None None data args in
  (insert_consensus_data db subnet (get_epoch now) proposal, proposal).

(** [data or ""] *)
Definition or_empty (data : option (list Json)) : AttData :=
  match data with None | Some [] => AEmpty | Some l => AValue l end.

(** [attest] *)
Definition attest now db me subnet (data : option (list Json)) : result MockDatabase :=
  match get_consensus_data db subnet (get_epoch now) with
  | None => Raise ValueError
  | Some consensus =>
      let attestation_entry :=
        [(KInt (m_subnet_node_id me), mkAttestation (get_block_number now) 0 ONE (or_empty data))] in
      let updated_attests :=
        filter (fun a => pretty (m_subnet_node_id me) ∉ map key_str (dkeys a)) (p_attests consensus) ++ [attestation_entry] in
      Ok (insert_consensus_data db subnet (get_epoch now)
            (mkProposal (validator_id consensus) (validator_epoch_progress consensus) updated_attests
               (p_subnet_nodes consensus) (prioritize_queue_node_id consensus) (remove_queue_node_id consensus)
               (p_data consensus) (p_args consensus)))
  end.

(** [SubnetNode]; the registration has no key ["id"]. *)
Record SubnetNode : Type := mkSubnetNode {
  sn_id : option Z;
  sn_hotkey : string;
  sn_peer_id : string;
  sn_bootnode_peer_id : string;
  sn_bootnode : string;
  sn_client_peer_id : string;
  sn_classification : string * Z;
  sn_delegate_reward_rate : Z;
  sn_last_update : Z;
  sn_unique : string;
  sn_non_unique : string;
}.

Definition subnet_node_of (n : NodeInfo) : SubnetNode :=
  mkSubnetNode None (ni_hotkey n) (ni_peer_id n) (ni_bootnode_peer_id n) (ni_bootnode n) (ni_client_peer_id n)
    (ni_node_class n, ni_start_epoch n) (ni_delegate_reward_rate n) (ni_last_update n) (ni_unique n) (ni_non_unique n).

(** The [ConsensusData] of the mock. *)
Record MockConsensusData : Type := mkMockConsensus {
  mc_validator_id : Z;
  mc_validator_epoch_progress : Z;
  mc_attests : list (pydict Key Attestation);
  mc_subnet_nodes : list SubnetNode;
  mc_prioritize_queue_node_id : option Z;
  mc_remove_queue_node_id : option Z;
  mc_data : list SubnetNodeConsensusData;
  mc_args : option Json;
}.

(** [get_consensus_data_formatted] *)
Definition get_consensus_data_formatted db subnet (epoch : Z) : option MockConsensusData :=
  (fun p => mkMockConsensus (validator_id p) (validator_epoch_progress p) (p_attests p)
              (map subnet_node_of (p_subnet_nodes p)) (prioritize_queue_node_id p) (remove_queue_node_id p)
              (p_data p) (p_args p)) <$> get_consensus_data db subnet epoch.

(** [SubnetNodeClass[name].value] *)
Definition class_value (name : string) : result Z :=
  if decide (name = "Registered")%string then Ok 1
  else if decide (name = "Idle")%string then Ok 2
  else if decide (name = "Included")%string then Ok 3
  else if decide (name = "Validator")%string then Ok 4
  else Raise KeyError.

(** The fields of [SubnetNodeInfo] that the consensus uses are the node id and the peer id. *)
Fixpoint qualified (nodes : list NodeInfo) (subnet_epoch min_class : Z) : result (list (SubnetNodeInfo string)) :=
  match nodes with
  | [] => Ok []
  | n :: rest =>
      let* c := class_value (ni_node_class n) in
      let* l := qualified rest subnet_epoch min_class in
      Ok (if (min_class <=? c) && (ni_start_epoch n <=? subnet_epoch)
          then mkNode (ni_subnet_node_id n) (ni_peer_id n) :: l else l)
  end.

(** [get_min_class_subnet_nodes_formatted]: an exception gives the empty list. *)
Definition get_min_class_subnet_nodes_formatted db subnet (subnet_epoch min_class : Z)
    : list (SubnetNodeInfo string) :=
  match qualified (get_all_subnet_nodes db subnet) subnet_epoch min_class with Ok l => l | Raise _ => [] end.

(** ** What the consensus sees of it *)

(** The integer keys of a dictionary: a string never equals a node id. *)
Definition int_keys (d : pydict Key Attestation) : pydict Z Z :=
  omap (fun kv => match kv.1 with KInt z => Some (z, att_block kv.2) | KStr _ => None end) d.

(** The functions of the consensus look at the keys of [attests], the scores, and the number of nodes. *)
Definition consensus_view (c : MockConsensusData) : ConsensusData :=
  mkConsensus (map int_keys (mc_attests c)) (map (fun n => default 0 (sn_id n)) (mc_subnet_nodes c)) (mc_data c).

(** ** Runs of the processes that share the file *)

Inductive mock_op : Type :=
  | OInit now me
  | OPropose now me subnet (data : list SubnetNodeConsensusData) (args : option Json) (attest_data : AttData)
  | OAttest now me subnet (data : option (list Json)).

Definition run_mock db (o : mock_op) : MockDatabase :=
  match o with
  | OInit now me => mock_init now db false me
  | OPropose now me subnet data args ad => (propose_attestation now db me subnet data args ad).1
  | OAttest now me subnet data => match attest now db me subnet data with Ok db' => db' | Raise _ => db end
  end.

Definition run_mocks db (ops : list mock_op) : MockDatabase := foldl run_mock db ops.

(** ** Lemmas *)

Lemma get_insert db subnet e p subnet' e' :
  get_consensus_data (insert_consensus_data db subnet' e' p) subnet e =
  match get_consensus_data db subnet e with
  | Some q => Some q
  | None => if decide (subnet' = subnet /\ e' = e) then Some (json_proposal p) else None
  end.
Proof.
  unfold get_consensus_data, insert_consensus_data. cbn [consensus_rows]. rewrite filter_app.
  destruct (filter _ (consensus_rows db)) as [|r l]; [|done]. cbn [app fmap option_fmap option_map].
  rewrite filter_cons. cbn. destruct (decide _); done.
Qed.

Lemma get_init now db me subnet e : get_consensus_data (mock_init now db false me) subnet e = get_consensus_data db subnet e.
Proof. unfold mock_init. by destruct (_ =? 0). Qed.

(** Rows are only appended, and the first one counts. *)
Lemma get_run db o subnet e p :
  get_consensus_data db subnet e = Some p -> get_consensus_data (run_mock db o) subnet e = Some p.
Proof.
  intros Hp. destruct o as [now me|now me subnet' data args ad|now me subnet' data]; cbn.
  - by rewrite get_init.
  - by rewrite get_insert, Hp.
  - unfold attest. destruct (get_consensus_data db subnet' _); [|done]. by rewrite get_insert, Hp.
Qed.

Lemma get_runs ops : forall db subnet e p,
  get_consensus_data db subnet e = Some p -> get_consensus_data (run_mocks db ops) subnet e = Some p.
Proof. unfold run_mocks. induction ops as [|o ops IH]; intros db subnet e p Hp; cbn; [done|]. by apply IH, get_run. Qed.

(** Everything read back from JSON has string keys. *)
Definition string_keys (d : pydict Key Attestation) : Prop := Forall (fun k => exists s, k = KStr s) (dkeys d).

Lemma json_dict_string_keys d : string_keys (json_dict d).
Proof.
  unfold string_keys, json_dict, dict_of_list, dupdate. set (l := map _ d).
  assert (Hl : Forall (fun kv : Key * Attestation => exists s, kv.1 = KStr s) l)
    by (subst l; apply Forall_map, Forall_true; eauto).
  assert (Hnil : Forall (fun k => exists s, k = KStr s) (dkeys (K:=Key) (V:=Attestation) [])) by constructor.
  revert Hnil. generalize (@nil (Key * Attestation)). induction Hl as [|[k v] l [st Hk] _ IH]; intros d0 Hd; cbn; [done|].
  cbn in Hk. subst k. apply IH. apply Forall_forall. intros k' Hk'. rewrite dkeys_dset in Hk'. rewrite Forall_forall in Hd.
  case_decide; [auto|]. apply elem_of_app in Hk' as [Hk'|Hk']; [auto|]. apply list_elem_of_singleton in Hk' as ->. eauto.
Qed.

Definition rows_ok db : Prop := Forall (fun r => Forall string_keys (p_attests (cr_record r))) (consensus_rows db).

Lemma insert_rows_ok db subnet e p : rows_ok db -> rows_ok (insert_consensus_data db subnet e p).
Proof.
  intros H. apply Forall_app. split; [done|]. repeat constructor. cbn. apply Forall_map, Forall_true. apply json_dict_string_keys.
Qed.

Lemma run_rows_ok db o : rows_ok db -> rows_ok (run_mock db o).
Proof.
  intros H. destruct o as [now me|now me subnet data args ad|now me subnet data]; cbn.
  - unfold mock_init. by destruct (_ =? 0).
  - by apply insert_rows_ok.
  - unfold attest. destruct (get_consensus_data _ _ _); [by apply insert_rows_ok|done].
Qed.

Lemma runs_rows_ok ops : forall db, rows_ok db -> rows_ok (run_mocks db ops).
Proof. unfold run_mocks. induction ops as [|o ops IH]; intros db H; cbn; [done|]. by apply IH, run_rows_ok. Qed.

Lemma get_rows_ok db subnet e p : rows_ok db -> get_consensus_data db subnet e = Some p -> Forall string_keys (p_attests p).
Proof.
  unfold get_consensus_data, rows_ok. rewrite Forall_forall. intros H Hp.
  destruct (filter _ (consensus_rows db)) as [|r l] eqn:E; [done|]. cbn in Hp. simplify_eq. apply H.
  apply (list_elem_of_filter (fun r => cr_subnet_id r = subnet /\ cr_epoch r = e) (consensus_rows db) r). rewrite E. apply list_elem_of_here.
Qed.

Lemma int_keys_strings d : string_keys d -> int_keys d = [].
Proof.
  unfold string_keys, int_keys, dkeys. induction d as [|[k v] d IH]; cbn; [done|]. intros H.
  apply Forall_cons in H as [[st ->] H]. auto.
Qed.

Lemma no_visible_attestation db subnet e c id :
  rows_ok db -> get_consensus_data_formatted db subnet e = Some c -> did_node_attest id (consensus_view c) = false.
Proof.
  intros Hr. unfold get_consensus_data_formatted. destruct (get_consensus_data db subnet e) as [p|] eqn:E; [|done].
  cbn. intros [= <-]. pose proof (get_rows_ok _ _ _ _ Hr E) as Hk. unfold did_node_attest. cbn.
  induction Hk as [|d l Hd _ IH]; cbn; [done|]. by rewrite (int_keys_strings _ Hd), IH.
Qed.

(** Epochs of the mock and of the subnet, which starts 3 blocks later. *)
Lemma local_epochs now subnet :
  exists ed, local_subnet_epoch_data now (get_subnet_slot subnet) = Ok ed /\ epoch_ok get_epoch_length ed /\
    percent_complete ed = ratio (blocks_elapsed ed) get_epoch_length /\
    get_epoch now = epoch ed + (if blocks_elapsed ed <? 17 then 0 else 1).
Proof.
  unfold local_subnet_epoch_data. destruct (epoch_at_spec (get_block_number now) get_epoch_length
    (get_block_number now - get_subnet_slot subnet) ltac:(reflexivity)) as (ed & -> & Hok & Hb & Hp).
  exists ed. split_and!; auto. destruct Hok as [Hel _ _ _]. unfold get_epoch, get_epoch_length, get_subnet_slot in *.
  destruct (blocks_elapsed ed <? 17) eqn:E; propify; symmetry; [apply (Z.div_unique _ 20 _ (blocks_elapsed ed + 3))|
    apply (Z.div_unique _ 20 _ (blocks_elapsed ed - 17))]; lia.
Qed.

(** Early in a subnet epoch the mock files proposals under it. *)
Lemma early_epoch now subnet ed :
  local_subnet_epoch_data now (get_subnet_slot subnet) = Ok ed -> after (percent_complete ed) (3 # 20) = false ->
  get_epoch now = epoch ed.
Proof.
  intros Hed Hp. destruct (local_epochs now subnet) as (ed' & Hed' & _ & Hpc & ->). rewrite Hed in Hed'. simplify_eq.
  unfold after in Hp. apply negb_false_iff, Qle_bool_iff in Hp. rewrite Hpc in Hp.
  assert (Hle : (ratio (blocks_elapsed ed') get_epoch_length <= ratio 3 get_epoch_length)%Q) by exact Hp.
  apply ratio_le in Hle; [|reflexivity]. destruct (blocks_elapsed ed' <? 17) eqn:E; propify; lia.
Qed.

(** An attestor with the same scores attests. *)
Lemma matching_attests e t ed scores cd sub prop st :
  epoch ed = e -> after (percent_complete ed) (3 # 20) = false -> is_mock st = true ->
  dget (epoch_scores st) (e - 1) = Some scores -> el_stopped t = false -> el_epoch t = Ok ed ->
  (exists v, el_validator t = Ok (Some v) /\ v <> subnet_node_id_ st) ->
  is_one (compare_consensus_data scores (consensus_scores cd)) = true -> did_node_attest (Some (subnet_node_id_ st)) cd = false ->
  (run_consensus e [t] sub prop [mkAttest false (Ok (Some cd)) (Ok ed) (Ok true)] st).1.2 = [Consensus.AttestData ed cd].
Proof.
  intros He Hp Hm Hs Hst Hte (v & Hv & Hne) Hone Hno. unfold run_consensus, get_scores, bind. cbn_consensus.
  set (es := if dmem (epoch_scores st) (e - 1 - 1) then _ else _).
  assert (Hes : dget es (e - 1) = Some scores).
  { subst es. destruct (dmem _ _); [|done]. rewrite dget_ddel_ne by lia. done. }
  rewrite Hes, Hst, Hv. cbn_consensus. rewrite Hte. cbn_consensus.
  rewrite He, Z.eqb_refl. cbn_consensus.
  rewrite ?orb_true_r, (proj2 (Z.eqb_neq _ _) Hne). cbn_consensus. rewrite Hp.
  cbn_consensus. rewrite Hone.
  rewrite He, Z.eqb_refl. unfold bind. cbn_consensus. rewrite Hno. cbn. by rewrite Hm.
Qed.

(** ** Registrations *)

(** Node ids are unique, and every registered node is of class Validator. *)
Definition nodes_ok db : Prop :=
  NoDup (map (fun r => ni_subnet_node_id (nr_info r)) (node_rows db)) /\
  Forall (fun r => ni_node_class (nr_info r) = "Validator"%string) (node_rows db).

Lemma NoDup_map_filter {A B} (f : A -> B) (P : A -> Prop) `{forall x, Decision (P x)} l :
  NoDup (map f l) -> NoDup (map f (filter P l)).
Proof.
  induction l as [|x l IH]; cbn [map]; [done|]. rewrite NoDup_cons, filter_cons. intros [Hx Hl].
  destruct (decide (P x)); [|auto]. cbn [map]. apply NoDup_cons. split; [|auto].
  intros Hin. apply Hx. apply list_elem_of_fmap in Hin as (y & -> & Hy). apply list_elem_of_filter in Hy as [_ Hy].
  by apply list_elem_of_fmap_2.
Qed.

Lemma insert_nodes_ok db subnet info :
  nodes_ok db -> ni_node_class info = "Validator"%string -> nodes_ok (insert_subnet_node db subnet info).
Proof.
  intros [H1 H2] Hc. unfold nodes_ok, insert_subnet_node. cbn [node_rows]. split.
  - rewrite map_app. apply NoDup_app. split; [by apply NoDup_map_filter|]. split; [|apply NoDup_singleton].
    intros i Hi Hi'. cbn in Hi'. apply list_elem_of_singleton in Hi' as ->.
    apply list_elem_of_fmap in Hi as (r & Hr & Hin). by apply list_elem_of_filter in Hin as [? _].
  - apply Forall_app. split; [|by repeat constructor]. rewrite Forall_forall in *. intros r Hr.
    apply list_elem_of_filter in Hr as [_ Hr]. auto.
Qed.

Lemma run_nodes_ok db o : nodes_ok db -> nodes_ok (run_mock db o).
Proof.
  intros H. destruct o as [now me|now me subnet data args ad|now me subnet data]; cbn.
  - unfold mock_init. destruct (_ =? 0); [done|]. by apply insert_nodes_ok.
  - done.
  - unfold attest. by destruct (get_consensus_data _ _ _).
Qed.

Lemma runs_nodes_ok ops : forall db, nodes_ok db -> nodes_ok (run_mocks db ops).
Proof. unfold run_mocks. induction ops as [|o ops IH]; intros db H; cbn; [done|]. by apply IH, run_nodes_ok. Qed.

Lemma empty_nodes_ok : nodes_ok empty_database.
Proof. split; constructor. Qed.

(** Validators qualify for every class, from their start epoch on. *)
Lemma qualified_validators nodes e c :
  c <= 4 -> Forall (fun n => ni_node_class n = "Validator"%string) nodes ->
  qualified nodes e c =
    Ok (map (fun n => mkNode (ni_subnet_node_id n) (ni_peer_id n)) (filter (fun n => ni_start_epoch n <= e) nodes)).
Proof.
  intros Hc. induction nodes as [|n nodes IH]; intros Hf; cbn [qualified]; [done|].
  apply Forall_cons in Hf as [Hn Hf]. rewrite Hn, (IH Hf). cbn [class_value rbind]. change (class_value "Validator") with (Ok 4).
  cbn [rbind]. rewrite (proj2 (Z.leb_le c 4) Hc), filter_cons. cbn [andb].
  destruct (decide (ni_start_epoch n <= e)) as [Hle|Hgt]; [by rewrite (proj2 (Z.leb_le _ _) Hle)|].
  by rewrite (proj2 (Z.leb_gt (ni_start_epoch n) e)) by lia.
Qed.

Lemma all_nodes_validators db subnet : nodes_ok db -> Forall (fun n => ni_node_class n = "Validator"%string) (get_all_subnet_nodes db subnet).
Proof.
  intros [_ H]. unfold get_all_subnet_nodes. apply Forall_map. rewrite Forall_forall in *. intros r Hr.
  apply list_elem_of_filter in Hr as [_ Hr]. by apply H.
Qed.

(** * Theorems *)

(** The first proposal of an epoch is what every process reads from then on: with its scores, its validator and one attestation per
    registered node, whatever is proposed, attested or registered later. *)
Theorem first_proposal_final now db me subnet data args ad ops :
  get_consensus_data db subnet (get_epoch now) = None ->
  exists c, get_consensus_data_formatted (run_mocks (propose_attestation now db me subnet data args ad).1 ops) subnet (get_epoch now) = Some c /\
    mc_validator_id c = m_subnet_node_id me /\ mc_data c = data /\ mc_args c = args /\
    length (mc_attests c) = length (get_all_subnet_nodes db subnet) /\
    mc_subnet_nodes c = map subnet_node_of (get_all_subnet_nodes db subnet).
Proof.
  intros Hn. unfold get_consensus_data_formatted, propose_attestation. cbn [fst].
  erewrite get_runs; [|rewrite get_insert, Hn, decide_True by done; reflexivity].
  eexists. split; [reflexivity|]. cbn. by rewrite !length_map.
Qed.

(** An attestation is never recorded: [attest] returns without error, but afterwards every process reads the same
    consensus data as before, in which no node has attested in the eyes of [did_node_attest].  (The row is appended and the first
    one is read; and the keys of [attests] come back from JSON as strings.) *)
Theorem attest_not_recorded ops now me subnet data db' :
  let db := run_mocks empty_database ops in
  attest now db me subnet data = Ok db' ->
  (forall s e, get_consensus_data_formatted db' s e = get_consensus_data_formatted db s e) /\
  (forall c id, get_consensus_data_formatted db' subnet (get_epoch now) = Some c -> did_node_attest id (consensus_view c) = false).
Proof.
  intros db. assert (Hr : rows_ok db) by (apply runs_rows_ok; constructor). unfold attest.
  destruct (get_consensus_data db subnet (get_epoch now)) as [p|] eqn:E; [|done]. intros [= <-]. split.
  - intros s e. unfold get_consensus_data_formatted. rewrite get_insert. destruct (get_consensus_data db s e) eqn:E'; [done|].
    case_decide as Hd; [|done]. destruct Hd as [<- <-]. congruence.
  - intros c id. apply no_visible_attestation. by apply insert_rows_ok.
Qed.

(** The mock files a proposal under the epoch of the chain, the consensus asks for the epoch of the subnet: the two are the same
    in the first 17 of the 20 blocks of a subnet epoch, and differ by one in the last three. *)
Theorem mock_epochs_agree now subnet :
  exists ed, local_subnet_epoch_data now (get_subnet_slot subnet) = Ok ed /\ epoch_ok get_epoch_length ed /\
    get_epoch now = epoch ed + (if blocks_elapsed ed <? 17 then 0 else 1).
Proof. destruct (local_epochs now subnet) as (ed & ? & ? & _ & ?). eauto. Qed.

(** C8: A round of consensus over the mock: if nothing was proposed for the epoch, the elected node proposes its scores; an attestor that
    computed the same scores, and looks within the first 15% of the epoch, finds the proposal, sends its attestation, and the
    mock accepts it. *)
Theorem local_consensus_round ops now1 now2 subnet v a scores scores' ed1 ed2 st_v st_a :
  let db := run_mocks empty_database ops in
  let elect ed := mkElection false (Ok (Some (get_rewards_validator subnet (epoch ed)))) (Ok ed) in
  let e := epoch ed1 in
  local_subnet_epoch_data now1 (get_subnet_slot subnet) = Ok ed1 -> after (percent_complete ed1) (3 # 20) = false ->
  local_subnet_epoch_data now2 (get_subnet_slot subnet) = Ok ed2 -> after (percent_complete ed2) (3 # 20) = false ->
  epoch ed2 = e -> get_consensus_data db subnet e = None ->
  subnet_node_id_ st_v = get_rewards_validator subnet e -> dget (epoch_scores st_v) (e - 1) = Some scores ->
  subnet_node_id_ st_a <> get_rewards_validator subnet e -> is_mock st_a = true -> dget (epoch_scores st_a) (e - 1) = Some scores' ->
  scores' <> [] -> (forall x, x ∈ scores' <-> x ∈ scores) ->
  (run_consensus e [elect ed1] (Ok (consensus_view <$> get_consensus_data_formatted db subnet e)) (Ok tt) [] st_v).1.2
    = [ProposeAttestation ed1 scores] /\
  let db1 := (propose_attestation now1 db v subnet scores None ANull).1 in
  exists c db2, consensus_view <$> get_consensus_data_formatted db1 subnet e = Some c /\
    (run_consensus e [elect ed2] (Ok None) (Ok tt) [mkAttest false (Ok (Some c)) (Ok ed2) (Ok true)] st_a).1.2
      = [Consensus.AttestData ed2 c] /\
    attest now2 db1 a subnet None = Ok db2.
Proof.
  intros db elect e H1 P1 H2 P2 He Hn Hv Hsv Ha Hm Hsa Hne Heq. pose proof (early_epoch _ _ _ H1 P1) as E1.
  pose proof (early_epoch _ _ _ H2 P2) as E2. rewrite He in E2. split.
  { assert (Hf : consensus_view <$> get_consensus_data_formatted db subnet e = None)
      by (unfold get_consensus_data_formatted; by rewrite Hn).
    rewrite Hf. eapply elected_proposes; try done. cbn. by rewrite Hv. }
  intros db1. assert (Hr : rows_ok db1) by (apply insert_rows_ok, runs_rows_ok; constructor).
  assert (Hg : exists p, get_consensus_data db1 subnet e = Some p /\ p_data p = scores).
  { subst db1. unfold propose_attestation. cbn [fst]. rewrite get_insert, Hn, decide_True by done. eexists. done. }
  destruct Hg as (p & Hg & Hp).
  assert (Hc : exists mc, get_consensus_data_formatted db1 subnet e = Some mc /\ mc_data mc = scores)
    by (unfold get_consensus_data_formatted; rewrite Hg; eexists; done).
  destruct Hc as (mc & Hc & Hd). unfold attest. rewrite E2, Hg, Hc. eexists (consensus_view mc), _. split; [done|]. split; [|done].
  eapply matching_attests; try done.
  - eexists. split; [done|]. cbn in *. congruence.
  - unfold is_one. apply Qeq_bool_iff, Qeq_sym, compare_one. cbn. rewrite Hd. done.
  - by eapply no_visible_attestation.
Qed.

(** A process that registers is found by the validator check of its subnet from its first full epoch on, and node ids are
    unique in the answer. *)
Theorem registered_node_found ops now me subnet_epoch min_class :
  let db := run_mocks empty_database (ops ++ [OInit now me]) in
  let nodes := get_min_class_subnet_nodes_formatted db (m_subnet_id me) subnet_epoch min_class in
  m_subnet_node_id me <> 0 -> get_epoch now <= subnet_epoch -> min_class <= 4 ->
  mkNode (m_subnet_node_id me) (m_peer_id me) ∈ nodes /\ NoDup (map node_subnet_node_id nodes).
Proof.
  intros db nodes Hid He Hc. subst nodes. assert (Hok : nodes_ok db) by apply runs_nodes_ok, empty_nodes_ok.
  unfold get_min_class_subnet_nodes_formatted. rewrite (qualified_validators _ _ _ Hc (all_nodes_validators _ _ Hok)). split.
  - apply (list_elem_of_fmap_2' (fun n => mkNode (ni_subnet_node_id n) (ni_peer_id n)) _ (my_info now me)); [|done].
    apply list_elem_of_filter. split; [done|]. apply (list_elem_of_fmap_2' nr_info _ (mkNodeRow (next_node_id (run_mocks empty_database ops)) (m_subnet_id me) (my_info now me))); [|done].
    apply list_elem_of_filter. split; [done|]. subst db. unfold run_mocks. rewrite foldl_app. cbn. unfold mock_init.
    rewrite (proj2 (Z.eqb_neq _ _) Hid). cbn. apply elem_of_app. right. apply list_elem_of_here.
  - rewrite map_map. cbn. apply NoDup_map_filter. unfold get_all_subnet_nodes. rewrite map_map. apply NoDup_map_filter, Hok.
Qed.

(** Node ids are unique over all subnets: registering a node in one subnet deletes the node with the same id in another. *)
Lemma registration_replaces_other_subnet db now me subnet info :
  m_subnet_node_id me <> 0 -> subnet <> m_subnet_id me -> info ∈ get_all_subnet_nodes (mock_init now db false me) subnet ->
  ni_subnet_node_id info <> m_subnet_node_id me.
Proof.
  intros Hid Hsub. unfold mock_init, get_all_subnet_nodes. rewrite (proj2 (Z.eqb_neq _ _) Hid). cbn [insert_subnet_node node_rows].
  intros Hin. apply list_elem_of_fmap in Hin as (r & -> & Hr). apply list_elem_of_filter in Hr as [Hs Hr].
  apply elem_of_app in Hr as [Hr|Hr]; [by apply list_elem_of_filter in Hr as [? _]|].
  apply list_elem_of_singleton in Hr as ->. cbn in Hs. lia.
Qed.

End MockChain.

(** ** Two processes: node 6, which is always elected, and node 7 *)

Definition toy_mock (id : Z) (peer : string) : Mock := mkMock 1 peer id "cold" "hot" "boot" "client".
Abbreviation toy_ops := [OInit (Json:=unit) 0 (toy_mock 6 "Qm6"); OInit 0 (toy_mock 7 "Qm7")].
Abbreviation toy_db := (run_mocks empty_database toy_ops).

(** Times in subnet epoch 5, which starts at block 103, second 618. *)
Definition toy_epoch (now : Z) : EpochData :=
  match local_subnet_epoch_data now 3 with Ok ed => ed | Raise _ => epoch_zero 0 20 end.
Definition toy_process (id : Z) : Consensus := mkConsensusSt id true None [(4, toy_scores)].

Lemma first_proposal_final_witness :
  exists c, get_consensus_data_formatted
      (run_mocks (propose_attestation 620 toy_db (toy_mock 6 "Qm6") 1 toy_scores None ANull).1
         [OPropose 625 (toy_mock 7 "Qm7") 1 [] None ANull; OAttest 630 (toy_mock 7 "Qm7") 1 None]) 1 5 = Some c /\
    mc_data c = toy_scores /\ length (mc_attests c) = 2%nat.
Proof.
  destruct (first_proposal_final 620 toy_db (toy_mock 6 "Qm6") 1 toy_scores None ANull
    [OPropose 625 (toy_mock 7 "Qm7") 1 [] None ANull; OAttest 630 (toy_mock 7 "Qm7") 1 None]) as (c & H & _ & Hd & _ & Hl & _).
  - vm_compute. reflexivity.
  - exists c. split; [exact H|]. split; [exact Hd|]. rewrite Hl. vm_compute. reflexivity.
Defined.

Lemma attest_not_recorded_witness :
  exists db' : MockDatabase (Json:=unit),
    attest 630 (run_mocks empty_database (toy_ops ++ [OPropose 620 (toy_mock 6 "Qm6") 1 toy_scores None ANull]))
      (toy_mock 7 "Qm7") 1 None = Ok db' /\
    forall c id, get_consensus_data_formatted db' 1 5 = Some c -> did_node_attest id (consensus_view c) = false.
Proof.
  destruct (attest 630 (run_mocks empty_database (toy_ops ++ [OPropose 620 (toy_mock 6 "Qm6") 1 toy_scores None ANull]))
    (toy_mock 7 "Qm7") 1 None) as [db'|] eqn:E; [|vm_compute in E; discriminate].
  exists db'. split; [reflexivity|].
  apply (attest_not_recorded (toy_ops ++ [OPropose 620 (toy_mock 6 "Qm6") 1 toy_scores None ANull]) 630 (toy_mock 7 "Qm7") 1 None db' E).
Defined.

Lemma local_consensus_round_witness :
  exists (c : ConsensusData) (db2 : MockDatabase (Json:=unit)),
    (run_consensus 5 [mkElection false (Ok (Some 6)) (Ok (toy_epoch 630))] (Ok None) (Ok tt)
       [mkAttest false (Ok (Some c)) (Ok (toy_epoch 630)) (Ok true)] (toy_process 7)).1.2
      = [Consensus.AttestData (toy_epoch 630) c] /\
    attest 630 (propose_attestation 620 toy_db (toy_mock 6 "Qm6") 1 toy_scores None ANull).1 (toy_mock 7 "Qm7") 1 None = Ok db2.
Proof.
  destruct (local_consensus_round toy_ops 620 630 1 (toy_mock 6 "Qm6") (toy_mock 7 "Qm7") toy_scores toy_scores
    (toy_epoch 620) (toy_epoch 630) (toy_process 6) (toy_process 7)) as (_ & c & db2 & _ & H1 & H2); try (vm_compute; reflexivity).
  - vm_compute. discriminate.
  - vm_compute. discriminate.
  - reflexivity.
  - exists c, db2. split; [exact H1|exact H2].
Defined.

Lemma registered_node_found_witness :
  mkNode 7 "Qm7"%string ∈ get_min_class_subnet_nodes_formatted toy_db 1 5 2.
Proof.
  destruct (registered_node_found [OInit (Json:=unit) 0 (toy_mock 6 "Qm6")] 0 (toy_mock 7 "Qm7") 5 2) as [H _].
  - discriminate.
  - vm_compute. discriminate.
  - lia.
  - exact H.
Defined.
