(* ===== verification/Protocol.v ===== *)
(** * The RPC protocol of the DHT ([mesh/dht/protocol.py], [DHTProtocol])

    A handler runs in a monad that keeps the state when it raises and records the tasks it spawns with
    [asyncio.create_task]; the tasks are operations of this file and run later.  What a remote peer answers is an
    argument, [None] when the call raised (timeout, refused, unauthorized).  The clock is read once per operation.

    The record validator is an interface with its own state, so that validators that count (file
    [CommitReveal]) and validators that do not (file [Crypto]) both fit. *)

From S2P Require Import Prelude TimedStorage DHTID Routing RoutingFacts RoutingInvariant Storage Validation.

(** [record_validator.validate] of a validator that may change its state. *)
Class RecordChecker (VS : Type) := check : VS -> DHTRecord -> DHTRecordRequestType -> VS * result bool.

(** A validator of the file [Validation] does not change. *)
#[export] Instance stateless_checker {Val : Type} `{RV : RecordValidator Val} : RecordChecker (list Val) :=
  fun vs r t => (vs, composite_validate vs r t).

Definition MAX_DHT_TIME_DISCREPANCY_SECONDS : Z := 3.

(** [RESERVED_SUBKEYS]: the packed [None], and the empty string. *)
Definition IS_REGULAR_VALUE : bytes := [192].
Definition IS_DICTIONARY : bytes := [].

Section Protocol.
Context {PeerID : Type} `{EqP : EqDecision PeerID} `{OrdP : PyOrd PeerID} {LawP : PyOrdLaws PeerID}.
Context {Subkey : Type} `{EqS : EqDecision Subkey} `{OrdS : PyOrd Subkey} {LawS : PyOrdLaws Subkey}.
Context {VS : Type} {Chk : RecordChecker VS}.
Abbreviation Dict := (DictionaryDHTValue Subkey bytes).
Abbreviation LocalStorage := (DHTLocalStorage Subkey bytes).

(** [MSGPackSerializer] on dictionaries and on sub-keys; bytes that are not a dictionary load as something else. *)
Abbreviation packed := (option nat * option Z * list (Subkey * bytes * Z))%type.
Variable dumps_dict : packed -> bytes.
Variable loads_value : bytes -> result (option packed).
Variable dumps_subkey : Subkey -> bytes.
Variable loads_subkey : bytes -> result Subkey.

Record DHTProtocol : Type := mkProtocol {
  own_id : Z;
  p_bucket_size : nat;
  num_replicas : nat;
  client_mode : bool;
  storage : LocalStorage;
  cache : LocalStorage;
  routing_table : RoutingTable PeerID;
  record_validator : option VS;
}.

(** A value handed to [call_store]. *)
Inductive StoreValue : Type := SBytes (v : bytes) | SDict (d : Dict).

(** Coroutines started with [asyncio.create_task]. *)
Inductive Task : Type :=
  | UpdateRoutingTable (node : option Z) (peer : PeerID) (responded : bool)
  | RpcPing (sender : bytes) (remote : PeerID)
  | CallPing (peer : PeerID)
  | CallStore (peer : PeerID) (items : list (Z * StoreValue * Z)).

(** ** The monad *)

Definition pm (A : Type) : Type := DHTProtocol -> DHTProtocol * list Task * result A.
Definition pret {A} (a : A) : pm A := fun s => (s, [], Ok a).
Definition plift {A} (r : result A) : pm A := fun s => (s, [], r).
Definition spawn (t : Task) : pm unit := fun s => (s, [t], Ok tt).
Definition pget {A} (f : DHTProtocol -> A) : pm A := fun s => (s, [], Ok (f s)).
Definition pbind {A B} (m : pm A) (k : A -> pm B) : pm B := fun s =>
  match m s with
  | (s1, l1, Ok a) => let '(s2, l2, r) := k a s1 in (s2, l1 ++ l2, r)
  | (s1, l1, Raise e) => (s1, l1, Raise e)
  end.
Notation "'let@' p := m 'in' k" := (pbind m (fun p => k)) (at level 10, p pattern, m at level 100, k at level 200).

Fixpoint pmapM {A B} (f : A -> pm B) (l : list A) : pm (list B) :=
  match l with
  | [] => pret []
  | x :: t => let@ y := f x in let@ ys := pmapM f t in pret (y :: ys)
  end.

(** A result of a storage or of the routing table; the state is kept when it raises. *)
Definition upd {X A} (get : DHTProtocol -> X) (set : DHTProtocol -> X -> DHTProtocol) (f : X -> result (X * A)) : pm A :=
  fun s => match f (get s) with
           | Ok (x, a) => (set s x, [], Ok a)
           | Raise e => (s, [], Raise e)
           end.

Definition set_storage s (st : LocalStorage) : DHTProtocol :=
  mkProtocol (own_id s) (p_bucket_size s) (num_replicas s) (client_mode s) st (cache s) (routing_table s) (record_validator s).
Definition set_cache s (st : LocalStorage) : DHTProtocol :=
  mkProtocol (own_id s) (p_bucket_size s) (num_replicas s) (client_mode s) (storage s) st (routing_table s) (record_validator s).
Definition set_table s (t : RoutingTable PeerID) : DHTProtocol :=
  mkProtocol (own_id s) (p_bucket_size s) (num_replicas s) (client_mode s) (storage s) (cache s) t (record_validator s).
Definition set_validator s (v : option VS) : DHTProtocol :=
  mkProtocol (own_id s) (p_bucket_size s) (num_replicas s) (client_mode s) (storage s) (cache s) (routing_table s) v.

Definition on_store {A} (in_cache : bool) (f : LocalStorage -> result (LocalStorage * A)) : pm A :=
  if in_cache then upd cache set_cache f else upd storage set_storage f.

(** [create]: empty storages and a table with one bucket. *)
Definition create (now node_id : Z) (bucket_size depth_modulo num_replicas : nat) (cache_size : option nat)
    (client_mode : bool) (validator : option VS) : result DHTProtocol :=
  let* table := RoutingTable_init now node_id bucket_size depth_modulo in
  Ok (mkProtocol node_id bucket_size num_replicas client_mode (storage_init None) (storage_init cache_size) table validator).

(** The node id others see: empty in client mode. *)
Definition node_info (s : DHTProtocol) : result bytes := if client_mode s then Ok [] else to_bytes (own_id s).

(** ** Validation *)

Definition validate_record (key_bytes subkey_bytes value_bytes : bytes) (expiration : Z) (t : DHTRecordRequestType)
    : pm bool := fun s =>
  match record_validator s with
  | None => (s, [], Ok true)
  | Some v =>
      let '(v', r) := check v (mkRecord key_bytes (Some subkey_bytes) value_bytes expiration) t in
      (set_validator s (Some v'), [], r)
  end.

(** The loop stops at the first entry that is refused. *)
Fixpoint validate_entries (key_bytes : bytes) (entries : list (Subkey * ValueWithExpiration bytes))
    (t : DHTRecordRequestType) : pm bool :=
  match entries with
  | [] => pret true
  | (subkey, VWE v e) :: rest =>
      let@ ok := validate_record key_bytes (dumps_subkey subkey) v e t in
      if (ok : bool) then validate_entries key_bytes rest t else pret false
  end.

(** [_validate_dictionary]; the dictionary is frozen, so expired entries are checked too. *)
Definition validate_dictionary (key_bytes : bytes) (d : Dict) (t : DHTRecordRequestType) : pm bool := fun s =>
  match record_validator s with
  | None => (s, [], Ok true)
  | Some _ => validate_entries key_bytes (data (entries d)) t s
  end.

(** [serializer.loads] of a value: a dictionary or something else. *)
Definition load_dictionary (now : Z) (raw : bytes) : result (option Dict) :=
  let* w := loads_value raw in
  match w with
  | None => Ok None
  | Some p => rmap Some (unpackb Ok now p)
  end.

(** ** The routing table *)

(** What a new node should store: [None] neighbors known, or it is closer than the farthest of them and this node is
    closer than the nearest. *)
Definition should_send (own node key : Z) (neighbors : list (Z * PeerID)) : bool :=
  match neighbors with
  | [] => true
  | first :: _ =>
      let farthest := match last neighbors with Some l => l | None => first end in
      (xor_distance node key <? xor_distance farthest.1 key) && (xor_distance own key <? xor_distance first.1 key)
  end.

(** A stored value as [call_store] gets it. *)
Definition store_value (st : LocalStorage) (v : DHTValue bytes) : result StoreValue :=
  match v with
  | Binary b => Ok (SBytes b)
  | Dictionary ref => let* d := of_option RuntimeError (objects st !! ref) in Ok (SDict d)
  end.

(** The loop over the stored items for a node that was not known. *)
Definition data_to_send (s : DHTProtocol) (node : Z) (its : list (Z * ValueWithExpiration (DHTValue bytes)))
    : result (list (Z * StoreValue * Z)) :=
  foldM_r (fun acc it =>
    let '(key, VWE v e) := it in
    let* neighbors := get_nearest_neighbors (routing_table s) key (num_replicas s) (Some (own_id s)) in
    if should_send (own_id s) node key neighbors then
      let* sv := store_value (storage s) v in Ok (acc ++ [(key, sv, e)])
    else Ok acc) [] its.

(** [update_routing_table] *)
Definition update_routing_table (now : Z) (node : option Z) (peer : PeerID) (responded : bool) : pm unit :=
  let@ t := pget routing_table in
  let node := match node with Some n => Some n | None => get_by_peer_id t peer end in
  if responded then
    match node with
    | None => plift (Raise TypeError) (* no caller passes an unknown id for a peer that responded *)
    | Some n =>
        let@ _ := (if contains_node t n then pret tt
                 else
                   let@ its := on_store false (fun st => let* (tb, its) := items now (table st) in Ok (mkLS (objects st) tb, its)) in
                   let@ s := pget id in
                   let@ send := plift (data_to_send s n its) in
                   match send with
                   | [] => pret tt
                   | _ => spawn (CallStore peer send)
                   end) in
        let@ ping := upd routing_table set_table (fun t => add_or_update_node now t n peer) in
        match ping with
        | Some (_, p) => spawn (CallPing p)
        | None => pret tt
        end
    end
  else
    match node with
    | Some n => if contains_node t n then upd routing_table set_table (fun t => rmap (fun t' => (t', tt)) (table_delitem t n))
                else pret tt
    | None => pret tt
    end.

(** ** Ping *)

(** A response; an absent node id is empty, an absent time is 0. *)
Record PingResponse : Type := mkPing { pr_node_id : bytes; pr_dht_time : Z; pr_available : bool }.

(** The two checks of a validated ping. *)
Definition ping_invalid (client : bool) (r : PingResponse) (requested responded : Z) : bool :=
  (negb client && negb (pr_available r)) ||
  (negb (pr_dht_time r =? 0) &&
   ((pr_dht_time r <? requested - MAX_DHT_TIME_DISCREPANCY_SECONDS) ||
    (responded + MAX_DHT_TIME_DISCREPANCY_SECONDS <? pr_dht_time r))).

(** [call_ping] *)
Definition call_ping (peer : PeerID) (validate strict : bool) (time_requested : Z) (response : option PingResponse)
    (time_responded : Z) : pm (option Z) :=
  let answer := match response with Some r => if decide (pr_node_id r = []) then None else Some r | None => None end in
  let@ client := pget client_mode in
  let@ _ := (match answer with
           | Some r => if validate && ping_invalid client r time_requested time_responded && strict
                       then plift (Raise ValidationError) else pret tt
           | None => pret tt
           end) in
  let@ peer_id := plift (match answer with Some r => rmap Some (from_bytes (pr_node_id r)) | None => Ok None end) in
  let@ _ := spawn (UpdateRoutingTable peer_id peer (match answer with Some _ => true | None => false end)) in
  pret peer_id.

(** [rpc_ping]; [ping_back] is the answer to the ping sent when the sender asks for validation. *)
Definition rpc_ping (now : Z) (sender : bytes) (validate : bool) (remote : PeerID) (ping_back : option PingResponse)
    : pm PingResponse :=
  let@ s := pget id in
  let@ info := plift (node_info s) in
  if decide (sender = []) then pret (mkPing info now false)
  else
    let@ sender_id := plift (from_bytes sender) in
    let@ available := (if (validate : bool) then
                       let@ id := call_ping remote false true now ping_back now in pret (bool_decide (id = Some sender_id))
                     else pret false) in
    let@ _ := spawn (UpdateRoutingTable (Some sender_id) remote (available || negb validate)) in
    pret (mkPing info now available).
(** ** Store *)

(** [dht_pb2.StoreRequest] *)
Record StoreRequest : Type := mkStoreRequest {
  sr_keys : list bytes;
  sr_subkeys : list bytes;
  sr_values : list bytes;
  sr_expiration : list Z;
  sr_in_cache : list bool;
  sr_peer : bytes;
}.

(** The tag and the value bytes of one item of [call_store]; [dict_bytes] is [serializer.dumps] of a dictionary. *)
Definition tag_of (subkey : option Subkey) (v : StoreValue) : bytes :=
  match subkey with
  | Some sk => dumps_subkey sk
  | None => match v with SDict _ => IS_DICTIONARY | SBytes _ => IS_REGULAR_VALUE end
  end.

Definition pack_item (now : Z) (subkey : option Subkey) (v : StoreValue) : result (bytes * bytes) :=
  let tag := tag_of subkey v in
  match v with
  | SBytes b => Ok (tag, b)
  | SDict d =>
      let* _ := py_assert (bool_decide (tag = IS_DICTIONARY)) in
      let* (_, raw) := packb dumps_dict now d in Ok (tag, raw)
  end.

(** The request [call_store] builds from its (already broadcast) argument lists. *)
Definition store_request (now : Z) (keys : list Z) (values : list StoreValue) (expiration : list Z)
    (subkeys : option (list (option Subkey))) (in_cache : option (list bool)) (info : bytes) : result StoreRequest :=
  let subkeys := match subkeys with Some l => l | None => replicate (length keys) None end in
  let in_cache := match in_cache with Some l => l | None => replicate (length keys) false end in
  let* packs := mapM_r (fun i =>
    let* sk := of_option IndexError (subkeys !! i) in
    let* v := of_option IndexError (values !! i) in pack_item now sk v) (seq 0 (length keys)) in
  let* _ := py_assert ((length keys =? length values)%nat && (length values =? length expiration)%nat &&
                       (length expiration =? length in_cache)%nat) in
  let* raw_keys := mapM_r to_bytes keys in
  Ok (mkStoreRequest raw_keys packs.*1 packs.*2 expiration in_cache info).

(** The answer to a store: which items were stored, and the node id of the peer. *)
Record StoreResponse : Type := mkStoreResponse { store_ok : list bool; st_peer : bytes }.

(** What [call_store] does with the answer; [None] when the call raised. *)
Definition store_answer (peer : PeerID) (response : option StoreResponse) : pm (option (list bool)) :=
  let failed :=
    let@ t := pget routing_table in
    let@ _ := spawn (UpdateRoutingTable (get_by_peer_id t peer) peer false) in
    pret None in
  match response with
  | None => failed
  | Some r =>
      if decide (st_peer r = []) then pret (Some (store_ok r))
      else
        match from_bytes (st_peer r) with
        | Raise _ => failed
        | Ok id => let@ _ := spawn (UpdateRoutingTable (Some id) peer true) in pret (Some (store_ok r))
        end
  end.

(** [call_store]; [ask] is what the peer answers to the request. *)
Definition call_store (now : Z) (peer : PeerID) (keys : list Z) (values : list StoreValue) (expiration : list Z)
    (subkeys : option (list (option Subkey))) (in_cache : option (list bool))
    (ask : StoreRequest -> option StoreResponse) : pm (option (list bool)) :=
  let@ s := pget id in
  let@ info := plift (node_info s) in
  let@ request := plift (store_request now keys values expiration subkeys in_cache info) in
  store_answer peer (ask request).

(** The items [zip] pairs up: it stops at the shortest list. *)
Fixpoint zip5 (k t v : list bytes) (e : list Z) (c : list bool) : list (bytes * bytes * bytes * Z * bool) :=
  match k, t, v, e, c with
  | k0 :: k', t0 :: t', v0 :: v', e0 :: e', c0 :: c' => (k0, t0, v0, e0, c0) :: zip5 k' t' v' e' c'
  | _, _, _, _, _ => []
  end.

(** The body of the loop of [rpc_store].  The call [self._validate_dictionary(key, value_dictionary)] lacks the
    argument [type], so the branch for whole dictionaries always raises. *)
Definition store_item (now : Z) (it : bytes * bytes * bytes * Z * bool) : pm bool :=
  let '(key, tag, value_bytes, expiration, in_cache) := it in
  let@ key_id := plift (from_bytes key) in
  if decide (tag = IS_DICTIONARY) then
    let@ d := plift (load_dictionary now value_bytes) in
    let@ _ := plift (py_assert (match d with Some _ => true | None => false end)) in
    plift (Raise TypeError)
  else
    let@ valid := validate_record key tag value_bytes expiration POST in
    if negb valid then pret false
    else if decide (tag = IS_REGULAR_VALUE) then
      on_store in_cache (fun st => local_store now st key_id value_bytes expiration None)
    else
      let@ subkey := plift (loads_subkey tag) in
      on_store in_cache (fun st => store_subkey now st key_id subkey value_bytes expiration).

(** [rpc_store] *)
Definition rpc_store (now : Z) (request : StoreRequest) (remote : PeerID) : pm StoreResponse :=
  let@ s := pget id in
  let@ _ := spawn (RpcPing (sr_peer request) remote) in
  let@ _ := plift (py_assert ((length (sr_keys request) =? length (sr_values request))%nat &&
              (length (sr_values request) =? length (sr_expiration request))%nat &&
              (length (sr_expiration request) =? length (sr_in_cache request))%nat)) in
  let@ info := plift (node_info s) in
  let@ oks := pmapM (store_item now) (zip5 (sr_keys request) (sr_subkeys request) (sr_values request)
                                   (sr_expiration request) (sr_in_cache request)) in
  pret (mkStoreResponse oks info).

(** ** Find *)

Inductive ResultType : Type := NOT_FOUND | FOUND_REGULAR | FOUND_DICTIONARY | UNKNOWN_TYPE.

Record FindResult : Type := mkFind {
  fr_type : ResultType;
  fr_value : bytes;
  fr_expiration : Z;
  fr_nearest : list (bytes * PeerID);
}.

(** A dictionary of a storage, packed; packing drops its expired entries. *)
Definition pack_stored (now : Z) (ref : nat) (st : LocalStorage) : result (LocalStorage * bytes) :=
  let* d := of_option RuntimeError (objects st !! ref) in
  let* (d', raw) := packb dumps_dict now d in
  Ok (mkLS (<[ref := d']> (objects st)) (table st), raw).

(** The value to return: the cached one when it is newer.  The flag says that it is in the cache. *)
Definition pick_newer (stored cached : option (ValueWithExpiration (DHTValue bytes)))
    : option (bool * ValueWithExpiration (DHTValue bytes)) :=
  match stored, cached with
  | None, None => None
  | Some x, None => Some (false, x)
  | None, Some y => Some (true, y)
  | Some x, Some y => if expiration_time x <? expiration_time y then Some (true, y) else Some (false, x)
  end.

(** The body of the loop of [rpc_find]. *)
Definition find_item (now : Z) (exclude : bytes) (key_id : Z) : pm FindResult :=
  let@ stored := on_store false (fun st => local_get now st key_id) in
  let@ cached := on_store true (fun st => local_get now st key_id) in
  let@ (ty, value, e) :=
    match pick_newer stored cached with
    | None => pret (NOT_FOUND, [], 0)
    | Some (_, VWE (Binary v) e) => pret (FOUND_REGULAR, v, e)
    | Some (where_, VWE (Dictionary ref) e) =>
        let@ raw := on_store where_ (pack_stored now ref) in pret (FOUND_DICTIONARY, raw, e)
    end in
  let@ s := pget id in
  let@ ex := plift (from_bytes exclude) in
  let@ neighbors := plift (get_nearest_neighbors (routing_table s) key_id (p_bucket_size s) (Some ex)) in
  let@ nearest := plift (mapM_r (fun e => let* raw := to_bytes e.1 in Ok (raw, e.2)) neighbors) in
  pret (mkFind ty value e nearest).

(** [rpc_find] *)
Definition rpc_find (now : Z) (keys : list bytes) (requester : bytes) (remote : PeerID) : pm (list FindResult * bytes) :=
  let@ s := pget id in
  let@ _ := spawn (RpcPing requester remote) in
  let@ info := plift (node_info s) in
  let@ results := pmapM (fun raw => let@ key_id := plift (from_bytes raw) in find_item now requester key_id) keys in
  pret (results, info).

(** A value found; without a validator, bytes that load as something else are returned as they are. *)
Inductive Found : Type := FBinary (v : bytes) | FDictionary (d : Dict) | FOther (raw : bytes).

(** The body of the loop of [call_find]: an unknown type leaves no entry. *)
Definition read_result (now : Z) (key : Z) (r : FindResult)
    : pm (option (option (ValueWithExpiration Found) * pydict Z PeerID)) :=
  let@ key_bytes := plift (to_bytes key) in
  let@ ids := plift (mapM_r from_bytes (fr_nearest r).*1) in
  let nearest := dict_of_list (zip ids (fr_nearest r).*2) in
  match fr_type r with
  | NOT_FOUND => pret (Some (None, nearest))
  | FOUND_REGULAR =>
      let@ ok := validate_record key_bytes IS_REGULAR_VALUE (fr_value r) (fr_expiration r) GET in
      pret (Some (if (ok : bool) then Some (VWE (FBinary (fr_value r)) (fr_expiration r)) else None, nearest))
  | FOUND_DICTIONARY =>
      let@ d := plift (load_dictionary now (fr_value r)) in
      match d with
      | None =>
          let@ v := pget record_validator in
          match v with
          | None => pret (Some (Some (VWE (FOther (fr_value r)) (fr_expiration r)), nearest))
          | Some _ => plift (Raise AttributeError)
          end
      | Some d =>
          let@ ok := validate_dictionary key_bytes d GET in
          pret (Some (if (ok : bool) then Some (VWE (FDictionary d) (fr_expiration r)) else None, nearest))
      end
  | UNKNOWN_TYPE => pret None
  end.

Fixpoint read_results (now : Z) (krs : list (Z * FindResult))
    (output : pydict Z (option (ValueWithExpiration Found) * pydict Z PeerID))
    : pm (pydict Z (option (ValueWithExpiration Found) * pydict Z PeerID)) :=
  match krs with
  | [] => pret output
  | (key, r) :: rest =>
      let@ o := read_result now key r in
      read_results now rest (match o with Some x => dset output key x | None => output end)
  end.

(** The part of [call_find] inside [try]. *)
Definition find_answer (now : Z) (peer : PeerID) (keys : list Z) (response : option (list FindResult * bytes))
    : pm (pydict Z (option (ValueWithExpiration Found) * pydict Z PeerID)) :=
  match response with
  | None => plift (Raise RuntimeError)
  | Some (results, info) =>
      let@ _ := (if decide (info = []) then pret tt
                 else let@ id := plift (from_bytes info) in spawn (UpdateRoutingTable (Some id) peer true)) in
      let@ _ := plift (py_assert (length keys =? length results)%nat) in
      read_results now (zip keys results) []
  end.

(** [call_find]: any exception is logged, the peer counts as unresponsive, and the answer is [None]. *)
Definition call_find (now : Z) (peer : PeerID) (keys : list Z) (response : option (list FindResult * bytes))
    : pm (option (pydict Z (option (ValueWithExpiration Found) * pydict Z PeerID))) := fun s =>
  match find_answer now peer keys response s with
  | (s', l, Ok out) => (s', l, Ok (Some out))
  | (s', l, Raise _) => (s', l ++ [UpdateRoutingTable (get_by_peer_id (routing_table s') peer) peer false], Ok None)
  end.
(** ** Lemmas *)

Lemma pbind_ok {A B} (m : pm A) (k : A -> pm B) s s2 l b :
  pbind m k s = (s2, l, Ok b) ->
  exists s1 l1 a l2, m s = (s1, l1, Ok a) /\ k a s1 = (s2, l2, Ok b) /\ l = l1 ++ l2.
Proof.
  unfold pbind. destruct (m s) as [[s1 l1] [a|]]; [|done].
  destruct (k a s1) as [[s2' l2] r] eqn:E. intros H. simplify_eq. exists s1, l1, a, l2. done.
Qed.

(** Running a sequence whose first part is known. *)
Lemma pbind_run {A B} (m : pm A) (k : A -> pm B) s s1 l1 a :
  m s = (s1, l1, Ok a) -> pbind m k s = ((k a s1).1.1, l1 ++ (k a s1).1.2, (k a s1).2).
Proof. intros H. unfold pbind. rewrite H. by destruct (k a s1) as [[s2 l2] r]. Qed.

Lemma pbind_raise {A B} (m : pm A) (k : A -> pm B) s s1 l1 e :
  m s = (s1, l1, Raise e) -> pbind m k s = (s1, l1, Raise e).
Proof. intros H. unfold pbind. by rewrite H. Qed.

(** If some item makes [f] raise in every state, the whole loop raises. *)
Lemma pmapM_raises {A B} (f : A -> pm B) l x :
  x ∈ l -> (forall s, exists e, (f x s).2 = Raise e) -> forall s, exists e, (pmapM f l s).2 = Raise e.
Proof.
  intros Hx Hf. induction l as [|y l IH]; [by apply not_elem_of_nil in Hx|]. intros s. cbn [pmapM]. unfold pbind.
  destruct (f y s) as [[s1 l1] [b|e]] eqn:E; [|eauto].
  apply elem_of_cons in Hx as [-> |Hx]; [destruct (Hf s) as [e He]; rewrite E in He; done|].
  destruct (IH Hx s1) as [e He]. destruct (pmapM f l s1) as [[s2 l2] r]. cbn in He. subst r. eauto.
Qed.

Abbreviation item := (bytes * bytes * bytes * Z * bool)%type.

(** The record of an item as the validator sees it. *)
Definition item_record (it : item) : DHTRecord :=
  let '(key, tag, value, e, _) := it in mkRecord key (Some tag) value e.

(** How a node with a validator may get from [s] to [s'] over a list of items and their answers: each item is judged, as a POST,
    by the validator in the state the items before it left it in; an item it refuses changes nothing else and is not reported
    as stored. *)
Inductive judged : DHTProtocol -> list item -> list bool -> DHTProtocol -> Prop :=
  | judged_nil s : judged s [] [] s
  | judged_refused s v v1 it its oks s' :
      record_validator s = Some v -> it.1.1.1.2 <> IS_DICTIONARY -> check v (item_record it) POST = (v1, Ok false) ->
      judged (set_validator s (Some v1)) its oks s' -> judged s (it :: its) (false :: oks) s'
  | judged_accepted s v v1 it s1 ok its oks s' :
      record_validator s = Some v -> it.1.1.1.2 <> IS_DICTIONARY -> check v (item_record it) POST = (v1, Ok true) ->
      record_validator s1 = Some v1 -> routing_table s1 = routing_table s ->
      judged s1 its oks s' -> judged s (it :: its) (ok :: oks) s'.

Lemma on_store_frame {A} c (f : LocalStorage -> result (LocalStorage * A)) s :
  record_validator (on_store c f s).1.1 = record_validator s /\ routing_table (on_store c f s).1.1 = routing_table s.
Proof. unfold on_store, upd. by destruct c; destruct (f _) as [[]|]. Qed.

(** One item, with the validator [v] of the node. *)
Lemma store_item_judged now it s v s1 l ok :
  record_validator s = Some v -> store_item now it s = (s1, l, Ok ok) ->
  it.1.1.1.2 <> IS_DICTIONARY /\ exists v1 accepted, check v (item_record it) POST = (v1, Ok accepted) /\
    if (accepted : bool) then record_validator s1 = Some v1 /\ routing_table s1 = routing_table s
    else ok = false /\ s1 = set_validator s (Some v1).
Proof.
  destruct it as [[[[key tag] value] e] c]. cbn [fst snd item_record]. intros Hv H. unfold store_item in H.
  apply pbind_ok in H as (s2 & l1 & id & l2 & Hp & H & ->). unfold plift in Hp. simplify_eq.
  destruct (decide (tag = IS_DICTIONARY)) as [Ht|Ht].
  { do 2 (apply pbind_ok in H as (? & ? & ? & ? & ? & H & ->)). done. }
  split; [done|]. apply pbind_ok in H as (s3 & l3 & valid & l4 & Hc & H & ->).
  unfold validate_record in Hc. rewrite Hv in Hc. destruct (check _ _ _) as [v1 res]. simplify_eq.
  exists v1, valid. split; [done|]. destruct valid; cbn [negb] in H; [|unfold pret in H; by simplify_eq].
  destruct (decide (tag = IS_REGULAR_VALUE)).
  - destruct (on_store_frame c (fun st => local_store now st id value e None) (set_validator s2 (Some v1))) as [Hf1 Hf2].
    rewrite H in Hf1, Hf2. done.
  - apply pbind_ok in H as (s3 & l5 & sk & l6 & Hl & H & ->). unfold plift in Hl. simplify_eq.
    destruct (on_store_frame c (fun st => store_subkey now st id sk value e) (set_validator s2 (Some v1))) as [Hf1 Hf2].
    rewrite H in Hf1, Hf2. done.
Qed.

Lemma store_items_judged now its : forall s s' l oks,
  is_Some (record_validator s) -> pmapM (store_item now) its s = (s', l, Ok oks) -> judged s its oks s'.
Proof.
  induction its as [|it its IH]; intros s s' l oks [v Hv] H; cbn [pmapM] in H.
  { unfold pret in H. simplify_eq. constructor. }
  apply pbind_ok in H as (s1 & l1 & ok & l2 & Hit & H & ->). apply pbind_ok in H as (s2 & l3 & oks' & l4 & Hl & H & ->).
  unfold pret in H. simplify_eq. destruct (store_item_judged _ _ _ _ _ _ _ Hv Hit) as (Ht & v1 & [] & Hc & Hs).
  - destruct Hs as [Hs Hr]. eapply judged_accepted; eauto.
  - destruct Hs as [-> ->]. eapply judged_refused; [done..|]. eapply IH; [|done]. done.
Qed.

Lemma dictionary_item_raises now key value e c s :
  exists x, (store_item now (key, IS_DICTIONARY, value, e, c) s).2 = Raise x.
Proof.
  unfold store_item, pbind, plift. destruct (from_bytes key); [|cbn; eauto]. rewrite decide_True by done. destruct (load_dictionary now value) as [[d|]|]; cbn; eauto.
Qed.

Lemma rpc_store_raises now request remote s it :
  it ∈ zip5 (sr_keys request) (sr_subkeys request) (sr_values request) (sr_expiration request) (sr_in_cache request) ->
  it.1.1.1.2 = IS_DICTIONARY -> exists x, (rpc_store now request remote s).2 = Raise x.
Proof.
  destruct it as [[[[key tag] value] e] c]. cbn [fst snd]. intros Hin ->. unfold rpc_store.
  rewrite (pbind_run _ _ s s [] s) by done. cbn [snd]. erewrite pbind_run by reflexivity. cbn [snd].
  destruct (py_assert _); [|cbn; eauto]. erewrite pbind_run by reflexivity. cbn [snd].
  destruct (node_info s) as [info|]; [|cbn; eauto]. erewrite pbind_run by reflexivity. cbn [snd].
  unfold pbind. destruct (pmapM_raises (store_item now) _ _ Hin) with (s := s) as [x Hx].
  { intros s0. apply dictionary_item_raises. }
  destruct (pmapM _ _ s) as [[s1 l1] r]. cbn in Hx |- *. subst r. eauto.
Qed.

Lemma zip5_lookup k t v e c : forall i k0 t0 v0 e0 c0,
  k !! i = Some k0 -> t !! i = Some t0 -> v !! i = Some v0 -> e !! i = Some e0 -> c !! i = Some c0 ->
  zip5 k t v e c !! i = Some (k0, t0, v0, e0, c0).
Proof.
  revert t v e c. induction k as [|k1 k IH]; intros t v e c i k0 t0 v0 e0 c0 Hk Ht Hv He Hc; [done|].
  destruct t, v, e, c; try done. destruct i; [by simplify_eq/=|]. by apply IH.
Qed.

(** A dictionary among the values travels under the tag of dictionaries. *)
Lemma store_request_items now keys values exps info req d :
  store_request now keys values exps None None info = Ok req -> SDict d ∈ values ->
  exists it, it ∈ zip5 (sr_keys req) (sr_subkeys req) (sr_values req) (sr_expiration req) (sr_in_cache req) /\
    it.1.1.1.2 = IS_DICTIONARY.
Proof.
  unfold store_request. intros H Hin. mon_inv. cbn [sr_keys sr_subkeys sr_values sr_expiration sr_in_cache].
  unfold py_assert in E0. destruct (_ && _) eqn:El; [|done]. rewrite !andb_true_iff, !Nat.eqb_eq in El.
  destruct El as [[Hkv Hve] Hec]. apply list_elem_of_lookup in Hin as [i Hi].
  pose proof (lookup_lt_Some _ _ _ Hi) as Hlt. rewrite <- Hkv in Hlt.
  destruct (mapM_r_lookup _ _ _ i i E) as ([tag raw] & Hp & Ha); [by apply lookup_seq|].
  rewrite lookup_replicate_2 in Hp by done. rewrite Hi in Hp. cbn in Hp. mon_inv. destruct a2 as [d' raw']. simplify_eq.
  destruct (lookup_lt_is_Some_2 exps i) as [e0 He0]; [lia|].
  destruct (lookup_lt_is_Some_2 a1 i) as [k0 Hk0]; [by rewrite (mapM_r_length _ _ _ E1)|].
  exists (k0, IS_DICTIONARY, raw, e0, false). split; [|done]. apply (list_elem_of_lookup_2 _ i).
  apply zip5_lookup; [done| | |done|by apply lookup_replicate_2]; rewrite list_lookup_fmap, Ha; done.
Qed.
(** ** Tables and storages of a running node *)

Record protocol_inv (s : DHTProtocol) : Prop := {
  pi_own : valid_id (own_id s);
  pi_storage : ls_inv (storage s);
  pi_cache : wf (table (cache s));
  pi_keys : forall k x, dget (data (table (storage s))) k = Some x -> valid_id k;
  pi_table : table_inv (routing_table s);
  pi_size : (2 <= bucket_size (routing_table s))%nat;
  pi_modulo : (0 < depth_modulo (routing_table s))%nat;
}.

Lemma node_info_total s :
  protocol_inv s -> exists info, node_info s = Ok info /\ exists x, from_bytes info = Ok x.
Proof.
  intros Hi. unfold node_info. destruct (client_mode s); [eexists; split; [done|]; by exists 0|].
  destruct (to_from_bytes _ (pi_own _ Hi)) as (b & Hb & _ & Hf). eauto.
Qed.

(** The nodes sent with a result. *)
Lemma nearest_bytes_total s key ex :
  protocol_inv s -> valid_id key ->
  exists nb raw ids, get_nearest_neighbors (routing_table s) key (p_bucket_size s) ex = Ok nb /\
    mapM_r (fun e : Z * PeerID => let* raw := to_bytes e.1 in Ok (raw, e.2)) nb = Ok raw /\
    mapM_r from_bytes raw.*1 = Ok ids.
Proof.
  intros Hi Hk. destruct (nearest_total (routing_table s) key (p_bucket_size s) ex (ti_tiles _ (pi_table _ Hi)) Hk)
    as (nb & Hnb & Hin). exists nb.
  assert (Hv : Forall (fun e : Z * PeerID => valid_id e.1) nb) by (apply Forall_forall; intros; by apply (table_nodes_valid (routing_table s)), Hin; [apply Hi|]).
  clear Hin. assert (Hgo : exists raw ids,
    mapM_r (fun e : Z * PeerID => let* raw := to_bytes e.1 in Ok (raw, e.2)) nb = Ok raw /\ mapM_r from_bytes raw.*1 = Ok ids).
  { clear Hnb. induction Hv as [|e nb He _ (raw & ids & H1 & H2)]; [by exists [], []|].
    destruct (to_from_bytes _ He) as (b & Hb & _ & Hf). exists ((b, e.2) :: raw), (e.1 :: ids). cbn.
    rewrite Hb. cbn. rewrite H1. cbn. rewrite Hf. cbn. rewrite H2. done. }
  destruct Hgo as (raw & ids & H1 & H2). exists raw, ids. done.
Qed.

Lemma local_get_spec now (st : LocalStorage) key :
  wf (table st) -> exists tb, local_get now st key = Ok (mkLS (objects st) tb, dget (data tb) key) /\
    cleaned now (table st) tb.
Proof. intros Hw. unfold local_get. destruct (get_effect now (table st) key Hw) as (tb & -> & Hc). cbn. eauto. Qed.

(** A key whose binary value lives until [e] is found by a peer's request until then. *)
Lemma find_item_regular now s key v e req ex :
  protocol_inv s -> valid_id key -> holds (table (storage s)) key (Binary v) e -> now <= e ->
  (forall y, dget (data (table (cache s))) key = Some y -> expiration_time y <= e) ->
  from_bytes req = Ok ex ->
  exists s' l r ids, find_item now req key s = (s', l, Ok r) /\ fr_type r = FOUND_REGULAR /\ fr_value r = v /\
    fr_expiration r = e /\ mapM_r from_bytes (fr_nearest r).*1 = Ok ids.
Proof.
  intros Hi Hk Hh He Hcache Hex. unfold find_item.
  destruct (local_get_spec now (storage s) key (li_wf _ (pi_storage _ Hi))) as (tb & Hg & Hc).
  destruct (holds_cleaned _ _ _ _ _ _ Hh Hc He) as (_ & _ & Hd & _). rewrite Hd in Hg.
  erewrite pbind_run by (unfold on_store, upd; rewrite Hg; reflexivity).
  destruct (local_get_spec now (cache s) key (pi_cache _ Hi)) as (tb2 & Hg2 & Hc2).
  erewrite pbind_run by (unfold on_store, upd; cbn [cache set_storage]; rewrite Hg2; reflexivity).
  assert (Hpick : pick_newer (Some (VWE (Binary v) e)) (dget (data tb2) key) = Some (false, VWE (Binary v) e)).
  { destruct (dget (data tb2) key) as [y|] eqn:Ey; [|done]. apply (cl_kept _ _ _ Hc2) in Ey as [Ey _].
    cbn. rewrite (proj2 (Z.ltb_ge _ _)); [done|]. by apply Hcache. }
  rewrite Hpick. erewrite pbind_run by reflexivity. cbv beta iota. erewrite pbind_run by reflexivity.
  erewrite pbind_run by (unfold plift; rewrite Hex; reflexivity).
  destruct (nearest_bytes_total s key (Some ex) Hi Hk) as (nb & raw & ids & Hnb & Hraw & Hids).
  erewrite pbind_run by (unfold plift; cbn [routing_table p_bucket_size set_cache set_storage id]; rewrite Hnb; reflexivity).
  erewrite pbind_run by (unfold plift; rewrite Hraw; reflexivity).
  cbn. eexists _, _, _, ids. split; [reflexivity|]. done.
Qed.
Lemma protocol_inv_storage s st :
  protocol_inv s -> ls_inv st -> (forall k x, dget (data (table st)) k = Some x -> valid_id k) ->
  protocol_inv (set_storage s st).
Proof. intros [] ? ?. by split. Qed.

Lemma protocol_inv_validator s v : protocol_inv s -> protocol_inv (set_validator s v).
Proof. intros []. by split. Qed.

Lemma protocol_inv_table s t :
  protocol_inv s -> table_inv t -> (2 <= bucket_size t)%nat -> (0 < depth_modulo t)%nat -> protocol_inv (set_table s t).
Proof. intros [] ? ? ?. by split. Qed.

(** A regular value that was accepted is held until it expires. *)
Lemma store_item_holds now key kb v e s s1 l :
  protocol_inv s -> from_bytes kb = Ok key -> valid_id key ->
  store_item now (kb, IS_REGULAR_VALUE, v, e, false) s = (s1, l, Ok true) ->
  protocol_inv s1 /\ holds (table (storage s1)) key (Binary v) e /\ cache s1 = cache s /\ now <= e.
Proof.
  intros Hi Hkb Hk H. unfold store_item in H. apply pbind_ok in H as (s0 & l0 & id & l2 & Hp & H & ->).
  unfold plift in Hp. rewrite Hkb in Hp. simplify_eq. rewrite decide_False in H by done.
  apply pbind_ok in H as (s2 & l3 & valid & l4 & Hc & H & ->).
  assert (Hs2 : protocol_inv s2 /\ cache s2 = cache s0 /\ storage s2 = storage s0).
  { revert Hc. unfold validate_record. destruct (record_validator s0); [destruct (check _ _ _)|];
      intros; simplify_eq; [split; [by apply protocol_inv_validator|done]|done]. }
  destruct Hs2 as (Hi2 & <- & Hst). destruct valid; cbn [negb] in H; [|unfold pret in H; by simplify_eq].
  rewrite decide_True in H by done. unfold on_store, upd in H. pose proof (pi_storage _ Hi2) as Hls.
  destruct (local_store_spec (storage s2) now id v e None Hls) as (st' & ok & Hstore & Hls').
  rewrite Hstore in H. simplify_eq. unfold local_store in Hstore. mon_inv. destruct a as [tb ok]. mon_inv.
  destruct (store_spec now (table (storage s2)) id (Binary v) e (li_wf _ Hls)) as (tb' & Hs & _).
  rewrite E in Hs. simplify_eq.
  assert (He : now <= e) by (eapply accepts_unfrozen; [apply (li_frozen _ Hls)|done]).
  split_and!; [|cbn; eapply store_true_holds; [apply Hls|apply Hls|done|exact E]|done|done].
  apply protocol_inv_storage; [done|done|]. intros k x Hx. cbn in Hx.
  destruct (store_effect _ _ _ _ _ _ _ _ _ (li_wf _ Hls) E Hx) as [(-> & _)|[Hx' _]]; [done|]. by eapply pi_keys.
Qed.

(** ** Requests that only read *)

(** Operations that keep [I], whether they return or raise. *)
Definition pkeeps {A} (I : DHTProtocol -> Prop) (m : pm A) : Prop := forall s, I s -> I (m s).1.1.

Lemma pkeeps_bind {A B} I (m : pm A) (k : A -> pm B) : pkeeps I m -> (forall a, pkeeps I (k a)) -> pkeeps I (pbind m k).
Proof.
  intros Hm Hk s Hs. specialize (Hm s Hs). unfold pbind. destruct (m s) as [[s1 l1] [a|]]; [|done]. cbn in Hm.
  specialize (Hk a s1 Hm). by destruct (k a s1) as [[s2 l2] r].
Qed.

Lemma pkeeps_same {A} I (m : pm A) : (forall s, (m s).1.1 = s) -> pkeeps I m.
Proof. intros H s Hs. by rewrite H. Qed.

Lemma pkeeps_mapM {A B} I (f : A -> pm B) l : (forall x, pkeeps I (f x)) -> pkeeps I (pmapM f l).
Proof.
  intros Hf. induction l; cbn [pmapM]; [by apply pkeeps_same|]. apply pkeeps_bind; [done|]. intros.
  apply pkeeps_bind; [done|]. intros. by apply pkeeps_same.
Qed.

(** A key whose binary value is stored until [e], and not cached for longer. *)
Definition holding (key : Z) (v : bytes) (e : Z) (s : DHTProtocol) : Prop :=
  protocol_inv s /\ holds (table (storage s)) key (Binary v) e /\
  forall y, dget (data (table (cache s))) key = Some y -> expiration_time y <= e.

Lemma holding_get key v e now c k : now <= e -> pkeeps (holding key v e) (on_store c (fun st => local_get now st k)).
Proof.
  intros He s (Hi & Hh & Hc). unfold on_store, upd. destruct c.
  - destruct (local_get_spec now (cache s) k (pi_cache _ Hi)) as (tb & -> & Hcl). cbn. split_and!.
    + destruct Hi. split; try done. apply Hcl.
    + done.
    + intros y Hy. apply (cl_kept _ _ _ Hcl) in Hy as [Hy _]. by apply Hc.
  - destruct (local_get_spec now (storage s) k (li_wf _ (pi_storage _ Hi))) as (tb & -> & Hcl). cbn. split_and!; [|by eapply holds_cleaned|done].
    apply protocol_inv_storage; [done|by eapply ls_inv_cleaned; [apply pi_storage|]|].
    intros k' x Hx. apply (cl_kept _ _ _ Hcl) in Hx as [Hx _]. by eapply pi_keys.
Qed.

(** Packing a stored dictionary drops its expired entries and nothing else. *)
Lemma pack_stored_inv now r (st st' : LocalStorage) raw :
  ls_inv st -> pack_stored now r st = Ok (st', raw) -> ls_inv st' /\ table st' = table st.
Proof.
  intros [H1 H2 H3 H4 H5 H6] H. unfold pack_stored, packb, items in H. mon_inv.
  destruct (objects st !! r) as [d|] eqn:Hd; cbn in *; simplify_eq.
  assert (Hok : dict_ok a) by (eapply Forall_lookup_1; [exact H4|exact Hd]). destruct Hok as (Hw & Hf & Hm).
  destruct (remove_outdated_spec now (entries a) Hw) as (ts & Hts & Hcl). rewrite Hts in *. cbn in *. simplify_eq. cbn.
  split; [|done]. split; cbn; try done.
  - apply Forall_insert; [done|]. unfold dict_ok. cbn. rewrite (cl_frozen _ _ _ Hcl), (cl_maxsize _ _ _ Hcl). split_and!; [apply Hcl|done|done].
  - intros key r' o Hk. destruct (H5 _ _ _ Hk) as (d & Hd' & Hl). destruct (decide (r' = r)) as [-> |Hne].
    + rewrite list_lookup_insert_eq by (by eapply lookup_lt_Some). simplify_eq. eauto.
    + rewrite list_lookup_insert_ne by done. eauto.
Qed.

Lemma pack_stored_table now r (st st' : LocalStorage) raw : pack_stored now r st = Ok (st', raw) -> table st' = table st.
Proof. unfold pack_stored. intros H. mon_inv. by destruct a0; simplify_eq. Qed.

Lemma holding_pack key v e now c r : pkeeps (holding key v e) (on_store c (pack_stored now r)).
Proof.
  intros s (Hi & Hh & Hc). unfold on_store, upd. destruct c.
  - destruct (pack_stored now r (cache s)) as [[st raw]|] eqn:E; [|done]. apply pack_stored_table in E. cbn.
    unfold holding. cbn. rewrite E. split_and!; [|done|done]. destruct Hi. split; try done. cbn. by rewrite E.
  - destruct (pack_stored now r (storage s)) as [[st raw]|] eqn:E; [|done].
    apply pack_stored_inv in E as [Hls E]; [|by apply pi_storage]. cbn. unfold holding. cbn. rewrite E.
    split_and!; [|done|done]. apply protocol_inv_storage; [done|done|]. rewrite E. apply Hi.
Qed.

Lemma holding_find key v e now keys requester remote :
  now <= e -> pkeeps (holding key v e) (rpc_find now keys requester remote).
Proof.
  intros He. unfold rpc_find, find_item.
  repeat first [ by apply pkeeps_same | by apply holding_get | apply holding_pack
               | apply pkeeps_mapM; intros ? | apply pkeeps_bind; [|intros ?]
               | match goal with |- pkeeps _ (match ?x with _ => _ end) => destruct x end ].
Qed.

(** The state after a list of requests to read: when, the keys, who asks. *)
Definition run_finds (s : DHTProtocol) (reads : list (Z * list bytes * bytes * PeerID)) : DHTProtocol :=
  foldl (fun s '(now, keys, requester, remote) => (rpc_find now keys requester remote s).1.1) s reads.

Lemma holding_finds key v e reads : forall s,
  Forall (fun rd => rd.1.1.1 <= e) reads -> holding key v e s -> holding key v e (run_finds s reads).
Proof.
  induction reads as [|[[[t ks] rq] rm] reads IH]; intros s Hr Hs; [done|]. apply Forall_cons in Hr as [Ht Hr].
  cbn. apply IH; [done|]. by apply holding_find.
Qed.

(** ** Data handed over to a new node *)

Lemma store_value_total st (v : DHTValue bytes) key e :
  ls_inv st -> dget (data (table st)) key = Some (VWE v e) -> exists sv, store_value st v = Ok sv.
Proof.
  intros Hls Hk. destruct v as [b|r]; cbn; [eauto|]. destruct (li_refs _ Hls _ _ _ Hk) as (d & -> & _). cbn. eauto.
Qed.

Lemma data_to_send_total s node its :
  protocol_inv s -> (forall k x, (k, x) ∈ its -> dget (data (table (storage s))) k = Some x) ->
  exists send, data_to_send s node its = Ok send.
Proof.
  intros Hi Hits. unfold data_to_send.
  match goal with |- exists _, foldM_r ?F _ _ = _ => enough (H : forall acc, exists send, foldM_r F acc its = Ok send) by exact (H []) end.
  induction its as [|[k [v e]] its IH]; intros acc; cbn [foldM_r]; [eauto|].
  assert (Hk : dget (data (table (storage s))) k = Some (VWE v e)) by (apply Hits; apply list_elem_of_here).
  destruct (nearest_total (routing_table s) k (num_replicas s) (Some (own_id s))) as (nb & -> & _);
    [apply (pi_table _ Hi)|by eapply pi_keys|]. cbn [rbind].
  assert (Hrest : forall k x, (k, x) ∈ its -> dget (data (table (storage s))) k = Some x)
    by (intros; apply Hits; by apply list_elem_of_further).
  destruct (should_send _ _ _ _); [|cbn [rbind]; by apply IH].
  destruct (store_value_total _ _ _ _ (pi_storage _ Hi) Hk) as [sv ->]. cbn [rbind]. by apply IH.
Qed.
(** Finding the items of a storage drops the expired ones only. *)
Lemma items_storage now s :
  protocol_inv s ->
  exists tb, items now (table (storage s)) = Ok (tb, data tb) /\ protocol_inv (set_storage s (mkLS (objects (storage s)) tb)) /\
    cleaned now (table (storage s)) tb.
Proof.
  intros Hi. unfold items. destruct (remove_outdated_spec now (table (storage s))) as (tb & -> & Hc).
  { apply (li_wf _ (pi_storage _ Hi)). }
  exists tb. split; [done|]. split; [|done]. apply protocol_inv_storage; [done| |].
  - by eapply ls_inv_cleaned; [apply pi_storage|].
  - intros k x Hx. apply (cl_kept _ _ _ Hc) in Hx as [Hx _]. by eapply pi_keys.
Qed.

(** What a requester makes of an answer with one regular value. *)
Lemma read_found now c peer key kb r v e info x ids :
  to_bytes key = Ok kb -> fr_type r = FOUND_REGULAR -> fr_value r = v -> fr_expiration r = e ->
  mapM_r from_bytes (fr_nearest r).*1 = Ok ids -> from_bytes info = Ok x ->
  match record_validator c with
  | None => True
  | Some val => (check val (mkRecord kb (Some IS_REGULAR_VALUE) v e) GET).2 = Ok true
  end ->
  exists c' l nearest, call_find now peer [key] (Some ([r], info)) c =
    (c', l, Ok (Some [(key, (Some (VWE (FBinary v) e), nearest))])).
Proof.
  intros Hkb Ht <- <- Hids Hx Hval. unfold call_find, find_answer.
  assert (Hres : exists c' l nearest, read_results now [(key, r)] [] c =
    (c', l, Ok [(key, (Some (VWE (FBinary (fr_value r)) (fr_expiration r)), nearest))])).
  { cbn [read_results]. unfold read_result, pbind, plift. rewrite Hkb, Hids, Ht. unfold validate_record, pret.
    destruct (record_validator c) as [val|]; [|cbn; eauto].
    destruct (check val _ GET) as [val' rv]. cbn in Hval. subst rv. cbn. eauto. }
  destruct Hres as (c' & l & nearest & Hres). cbn [length zip Nat.eqb py_assert].
  destruct (decide (info = [])); [|rewrite Hx]; unfold pbind, pret, plift, spawn; rewrite ?Hx, Hres; cbn; eauto.
Qed.

(** The hand-over of values to a new node always succeeds, and keeps the table. *)
Lemma hand_over_total now s n peer :
  protocol_inv s ->
  exists s' l, (let@ its := on_store false (fun st => let* (tb, its) := items now (table st) in Ok (mkLS (objects st) tb, its)) in
    let@ s := pget id in
    let@ send := plift (data_to_send s n its) in
    match send with [] => pret tt | _ => spawn (CallStore peer send) end) s = (s', l, Ok tt) /\
    protocol_inv s' /\ routing_table s' = routing_table s /\
    Forall (fun t => exists items, t = CallStore peer items) l.
Proof.
  intros Hi. destruct (items_storage now s Hi) as (tb & Hit & Hi' & Hc).
  set (s1 := set_storage s (mkLS (objects (storage s)) tb)) in *.
  assert (Hrun : on_store false (fun st => let* (tb, its) := items now (table st) in Ok (mkLS (objects st) tb, its)) s =
    (s1, [], Ok (data tb))) by (unfold on_store, upd; rewrite Hit; done).
  erewrite pbind_run by exact Hrun. erewrite pbind_run by reflexivity.
  destruct (data_to_send_total s1 n (data tb) Hi') as [send Hsend].
  { intros k x Hx. apply dwf_elem_dget; [|done]. apply (wf_data _ (cl_wf _ _ _ Hc)). }
  erewrite pbind_run by (unfold plift, id; rewrite Hsend; reflexivity). destruct send as [|it send]; cbn.
  - exists s1, []. by split_and!.
  - eexists s1, _. split; [reflexivity|]. split_and!; try done. repeat constructor. eauto.
Qed.

(** * Theorems *)

(** C13: A node with a record validator that answers a store request has given every item, in order, to its own validator
    as a POST, each time in the state the items before left it in.  An item the validator refuses is not reported as
    stored and leaves the storages and the routing table as they were; none of the items is a whole dictionary, and there is one
    answer per item. *)
Theorem rpc_store_validates now request remote s s' l resp :
  is_Some (record_validator s) -> rpc_store now request remote s = (s', l, Ok resp) ->
  judged s
    (zip5 (sr_keys request) (sr_subkeys request) (sr_values request) (sr_expiration request) (sr_in_cache request))
    (store_ok resp) s'.
Proof.
  intros Hv H. unfold rpc_store in H.
  do 4 (apply pbind_ok in H as (? & ? & ? & ? & Hp & H & ->); unfold pget, spawn, plift in Hp; simplify_eq).
  apply pbind_ok in H as (s1 & l1 & oks & l2 & Hm & H & ->). unfold pret in H. simplify_eq. cbn.
  by eapply store_items_judged.
Qed.

(** Handing over a dictionary always fails.  Whatever the receiver, a [call_store] with a dictionary among its values
    ends with [None] and a task that treats the receiver as unresponsive, although it answered:
    the receiver's handler raises [TypeError]. *)
Theorem dictionary_store_fails now now' a b peer me keys values exps d s' l out :
  SDict d ∈ values ->
  call_store now peer keys values exps None None
    (fun req => match rpc_store now' req me b with (_, _, Ok r) => Some r | _ => None end) a = (s', l, Ok out) ->
  out = None /\ s' = a /\ l = [UpdateRoutingTable (get_by_peer_id (routing_table a) peer) peer false].
Proof.
  intros Hin H. unfold call_store in H. apply pbind_ok in H as (? & ? & ? & ? & Hp & H & ->). unfold pget in Hp. simplify_eq.
  apply pbind_ok in H as (? & ? & info & ? & Hp & H & ->). unfold plift in Hp. simplify_eq.
  apply pbind_ok in H as (? & ? & req & ? & Hp & H & ->). unfold plift in Hp. simplify_eq.
  match goal with E : store_request _ _ _ _ _ _ _ = Ok _ |- _ =>
    destruct (store_request_items _ _ _ _ _ _ _ E Hin) as (it & Hit & Htag) end.
  destruct (rpc_store_raises now' req me b it Hit Htag) as [x Hx].
  destruct (rpc_store now' req me b) as [[b' lb] r]. cbn in Hx. subst r. cbn in H. unfold pbind, pget, spawn, pret in H.
  cbn in H. by simplify_eq.
Qed.

(** C14: A node that reports the one regular value of a store request as stored (outside its cache) answers [rpc_find]
    for that key with it until it expires, after any requests that only read, at any times until then, and if its cache
    held no value for the key that lives longer.  A requester without a validator, or whose validator accepts the
    record, gets that value. *)
Theorem stored_then_found now now' now2 s s1 c key kb v e p remote l resp reads requester ex remote' peer :
  protocol_inv s -> to_bytes key = Ok kb -> from_bytes kb = Ok key -> valid_id key ->
  rpc_store now (mkStoreRequest [kb] [IS_REGULAR_VALUE] [v] [e] [false] p) remote s = (s1, l, Ok resp) ->
  store_ok resp = [true] -> Forall (fun rd => rd.1.1.1 <= e) reads -> now' <= e ->
  (forall y, dget (data (table (cache s))) key = Some y -> expiration_time y <= e) ->
  from_bytes requester = Ok ex ->
  match record_validator c with
  | None => True
  | Some val => (check val (mkRecord kb (Some IS_REGULAR_VALUE) v e) GET).2 = Ok true
  end ->
  exists s2 l2 r info, rpc_find now' [kb] requester remote' (run_finds s1 reads) = (s2, l2, Ok ([r], info)) /\
    fr_type r = FOUND_REGULAR /\ fr_value r = v /\ fr_expiration r = e /\
    exists c' l3 nearest, call_find now2 peer [key] (Some ([r], info)) c =
      (c', l3, Ok (Some [(key, (Some (VWE (FBinary v) e), nearest))])).
Proof.
  intros Hi Htb Hfb Hk H Hok Hrd He Hcache Hex Hval. unfold rpc_store in H.
  do 4 (apply pbind_ok in H as (? & ? & ? & ? & Hp & H & ->); unfold pget, spawn, plift in Hp; simplify_eq).
  cbn [sr_keys sr_subkeys sr_values sr_expiration sr_in_cache zip5 pmapM] in H.
  apply pbind_ok in H as (s2 & l1 & oks & l2 & Hm & H & ->). unfold pret in H. simplify_eq. cbn in Hok. subst oks.
  apply pbind_ok in Hm as (s3 & l3 & ok & l4 & Hit & Hm & ->). cbn in Hm. unfold pret, pbind in Hm. simplify_eq.
  destruct (store_item_holds _ _ _ _ _ _ _ _ Hi Hfb Hk Hit) as (Hi1 & Hh & Hce & _).
  assert (Hhold : holding key v e s1) by (split_and!; [done|done|by rewrite Hce]).
  destruct (holding_finds _ _ _ reads _ Hrd Hhold) as (Hi2 & Hh2 & Hc2).
  generalize dependent (run_finds s1 reads). clear Hi1 Hh Hce Hhold. intros st Hi1 Hh Hce. unfold rpc_find.
  erewrite pbind_run by reflexivity. erewrite pbind_run by reflexivity.
  destruct (node_info_total _ Hi1) as (info & Hinfo & xid & Hxid). erewrite pbind_run by (unfold plift, id; rewrite Hinfo; reflexivity).
  destruct (find_item_regular now' st key v e requester ex Hi1 Hk Hh He) as (s4 & l5 & r & ids & Hf & Ht & Hv & Hr & Hids); [done|done|].
  cbn [pmapM]. unfold pbind, plift. rewrite Hfb, Hf. cbn [fst snd]. do 4 eexists. split; [reflexivity|].
  split_and!; [done..|]. by eapply read_found.
Qed.

(** A peer that was heard of always gets into the routing table: [update_routing_table] does not raise, keeps the
    invariants of the node, and afterwards maps the id to the peer and back; the only calls it starts are
    a hand-over of values to that peer, and a ping. *)
Theorem update_routing_table_adds now s n peer :
  protocol_inv s -> valid_id n ->
  exists s' l, update_routing_table now (Some n) peer true s = (s', l, Ok tt) /\ protocol_inv s' /\
    get_by_node_id (routing_table s') n = Some peer /\ get_by_peer_id (routing_table s') peer = Some n /\
    Forall (fun t => match t with CallStore p _ => p = peer | CallPing _ => True | _ => False end) l.
Proof.
  intros Hi Hn. unfold update_routing_table. erewrite pbind_run by reflexivity.
  set (hand := if contains_node (routing_table s) n then pret tt else _).
  assert (Hh : exists s1 l1, hand s = (s1, l1, Ok tt) /\ protocol_inv s1 /\ routing_table s1 = routing_table s /\
    Forall (fun t => exists items, t = CallStore peer items) l1).
  { subst hand. destruct (contains_node _ _); [exists s, []; split_and!; try done; constructor|]. by apply hand_over_total. }
  destruct Hh as (s1 & l1 & Hh & Hi1 & Ht & Hl). erewrite pbind_run by exact Hh.
  destruct (add_total now (routing_table s1) n peer (pi_table _ Hi1) (pi_size _ Hi1) (pi_modulo _ Hi1) Hn)
    as (t' & ping & Ha & Hti & Hs & Hm & _ & Hk1 & Hk2).
  erewrite pbind_run by (unfold upd; rewrite Ha; reflexivity).
  assert (Hi2 : protocol_inv (set_table s1 t')).
  { apply protocol_inv_table; [done|done|rewrite Hs; apply Hi1|rewrite Hm; apply Hi1]. }
  assert (Hl' : Forall (fun t => match t with CallStore p _ => p = peer | CallPing _ => True | _ => False end) l1).
  { eapply Forall_impl; [exact Hl|]. by intros ? [its ->]. }
  destruct ping as [[m p]|]; cbn; eexists _, _; (split; [reflexivity|]); rewrite ?app_nil_r;
    split_and!; try done. apply Forall_app. split; [done|]. by repeat constructor.
Qed.

(** A peer that did not respond is not in the table afterwards, unless deleting it raised, in which case nothing
    changed. *)
Theorem update_routing_table_removes now s n peer :
  protocol_inv s ->
  exists s', ((update_routing_table now (Some n) peer false s = (s', [], Ok tt) /\
               contains_node (routing_table s') n = false /\ protocol_inv s') \/
              (exists e, update_routing_table now (Some n) peer false s = (s', [], Raise e) /\ s' = s)).
Proof.
  intros Hi. unfold update_routing_table. erewrite pbind_run by reflexivity.
  destruct (contains_node (routing_table s) n) eqn:Ec; [|exists s; left; by split_and!].
  unfold upd. destruct (table_delitem (routing_table s) n) as [t'|e] eqn:Ed; cbn; [|exists s; right; eauto].
  exists (set_table s t'). left. split; [done|].
  destruct (table_delitem_inv _ _ _ (pi_table _ Hi) Ed) as (Hti & Hs & Hm & _). split.
  - unfold table_delitem in Ed. mon_inv. simplify_eq. unfold contains_node. cbn. apply dmem_false, dget_ddel_eq.
  - apply protocol_inv_table; [done|done|rewrite Hs; apply Hi|rewrite Hm; apply Hi].
Qed.
End Protocol.

(** ** A concrete node: integers for peers and sub-keys, a validator that accepts one record *)

Definition toy_dumps (p : option nat * option Z * list (Z * bytes * Z)) : bytes := [1].
Definition toy_loads (raw : bytes) : result (option (option nat * option Z * list (Z * bytes * Z))) := Ok None.
Definition toy_dumps_subkey (sk : Z) : bytes := [sk].
Definition toy_loads_subkey (raw : bytes) : result Z := of_option ValueError (head raw).
#[local] Instance toy_checker : RecordChecker Z := fun n r t => (n + 1, Ok (n <? 1)).

Definition toy_node : DHTProtocol (PeerID:=Z) (Subkey:=Z) (VS:=Z) :=
  mkProtocol 5 2 3 false (storage_init None) (storage_init (Some 4%nat))
    (mkTable 5 2 5 [mkBucket MIN MAX 2 0 [] [] ∅ 0] [] []) (Some 0).

Definition toy_key : bytes := to_be 20 77.
Definition toy_request : StoreRequest :=
  mkStoreRequest [toy_key; toy_key] [IS_REGULAR_VALUE; [9]] [[1; 2]; [3]] [50; 60] [false; false] [].
Abbreviation toy_rpc_store req := (rpc_store toy_loads toy_loads_subkey 10 req 8 toy_node).

Lemma toy_node_inv : protocol_inv toy_node.
Proof.
  split; try done; cbn; try lia.
  - apply storage_init_inv.
  - apply wf_init.
  - destruct (table_init_inv (PeerID:=Z) 0 5 2 5) as (t & Ht & Hi & _). vm_compute in Ht. injection Ht as <-. exact Hi.
Qed.

Abbreviation toy_items := [(toy_key, IS_REGULAR_VALUE, [1; 2], 50, false); (toy_key, [9], [3], 60, false)].

Lemma rpc_store_validates_witness :
  (toy_rpc_store toy_request).2 = Ok (mkStoreResponse [true; false] (to_be 20 5)) /\
  judged toy_node toy_items [true; false] (toy_rpc_store toy_request).1.1 /\
  record_validator (toy_rpc_store toy_request).1.1 = Some 2.
Proof.
  split; [vm_compute; reflexivity|]. split; [|vm_compute; reflexivity].
  apply (rpc_store_validates toy_loads toy_loads_subkey 10 toy_request 8 toy_node
           (toy_rpc_store toy_request).1.1 (toy_rpc_store toy_request).1.2 (mkStoreResponse [true; false] (to_be 20 5))).
  - by exists 0.
  - vm_compute. reflexivity.
Defined.

Definition toy_dict : DictionaryDHTValue Z bytes := mkDict (mkTS false None [(7, VWE [1] 50)] [(50, 7)] [(7, (50, 7))]) (Some 50).
Abbreviation toy_call := (call_store toy_dumps toy_dumps_subkey 10 8 [77] [SDict toy_dict] [50] None None
  (fun req => match rpc_store toy_loads toy_loads_subkey 11 req 5 toy_node with (_, _, Ok r) => Some r | _ => None end) toy_node).

Lemma dictionary_store_fails_witness :
  toy_call.2 = Ok None /\ toy_call.1.2 = [UpdateRoutingTable None 8 false].
Proof.
  destruct (dictionary_store_fails toy_dumps toy_loads toy_dumps_subkey toy_loads_subkey 10 11 toy_node toy_node 8 5 [77]
              [SDict toy_dict] [50] toy_dict toy_call.1.1 toy_call.1.2 None) as (_ & _ & Hl).
  - apply list_elem_of_here.
  - vm_compute. reflexivity.
  - split; [vm_compute; reflexivity|exact Hl].
Defined.

Definition toy_single : StoreRequest := mkStoreRequest [toy_key] [IS_REGULAR_VALUE] [[1; 2]] [50] [false] [].

Abbreviation toy_reads := [(20, [toy_key], to_be 20 6, 9); (30, [toy_key; to_be 20 3], [], 9)].

Lemma stored_then_found_witness :
  exists s2 l2 r info, rpc_find toy_dumps 40 [toy_key] (to_be 20 6) 9
      (run_finds toy_dumps (toy_rpc_store toy_single).1.1 toy_reads) = (s2, l2, Ok ([r], info)) /\ fr_value r = [1; 2].
Proof.
  destruct (stored_then_found toy_dumps toy_loads toy_dumps_subkey toy_loads_subkey 10 40 41 toy_node
              (toy_rpc_store toy_single).1.1 toy_node 77 toy_key [1; 2] 50 [] 8 (toy_rpc_store toy_single).1.2
              (mkStoreResponse [true] (to_be 20 5)) toy_reads (to_be 20 6) 6 9 8) as (s2 & l2 & r & info & Hr & _ & Hv & _).
  - apply toy_node_inv.
  - vm_compute. reflexivity.
  - vm_compute. reflexivity.
  - split; vm_compute; congruence.
  - vm_compute. reflexivity.
  - reflexivity.
  - repeat constructor; vm_compute; discriminate.
  - lia.
  - intros y Hy. vm_compute in Hy. discriminate Hy.
  - vm_compute. reflexivity.
  - vm_compute. reflexivity.
  - exists s2, l2, r, info. split; [exact Hr|exact Hv].
Defined.

Lemma update_routing_table_adds_witness :
  exists s' l, update_routing_table 10 (Some 6) 9 true toy_node = (s', l, Ok tt) /\
    get_by_node_id (routing_table s') 6 = Some 9.
Proof.
  destruct (update_routing_table_adds (VS:=Z) (Subkey:=Z) 10 toy_node 6 9) as (s' & l & H & _ & Hg & _).
  - apply toy_node_inv.
  - split; vm_compute; congruence.
  - exists s', l. split; [exact H|exact Hg].
Defined.

Lemma update_routing_table_removes_witness :
  exists s', update_routing_table 10 (Some 6) 9 false toy_node = (s', [], Ok tt) /\ contains_node (routing_table s') 6 = false.
Proof.
  destruct (update_routing_table_removes (VS:=Z) (Subkey:=Z) 10 toy_node 6 9 toy_node_inv) as (s' & [(H & Hc & _)|(e & H & _)]).
  - exists s'. split; [exact H|exact Hc].
  - exfalso. assert (Hk : (update_routing_table 10 (Some 6) 9 false toy_node).2 = Ok tt) by (vm_compute; reflexivity).
    rewrite H in Hk. discriminate Hk.
Defined.
