(* ===== verification/Blacklist.v ===== *)
(** * The blacklist of non-responding peers ([mesh/dht/node.py], [Blacklist])

    A peer that fails to respond is excluded from searches for [base_time * backoff ** n] seconds, where [n] counts its
    successive failures.  [_call_find_with_blacklist] and [_filter_blacklisted] of [DHTNode] use it. *)

From S2P Require Import Prelude TimedStorage Storage.

Section Blacklist.
Context {PeerID : Type} `{EqP : EqDecision PeerID} `{OrdP : PyOrd PeerID} {LawP : PyOrdLaws PeerID}.

Record Blacklist : Type := mkBlacklist {
  base_time : Z;
  backoff : Z;
  banned_peers : TimedStorage PeerID Z;
  ban_counter : pydict PeerID Z;
}.
Implicit Types (b : Blacklist) (p : PeerID) (now t : Z).

(** [Counter]: a missing key counts 0 and is not inserted by reading it. *)
Definition bans b p : Z := match dget (ban_counter b) p with Some n => n | None => 0 end.

Definition with_banned b ts : Blacklist := mkBlacklist (base_time b) (backoff b) ts (ban_counter b).

(** [__init__] *)
Definition blacklist_init (base rate : Z) (size : option nat) : Blacklist := mkBlacklist base rate (init false size) [].

(** [__contains__] *)
Definition is_banned now b p : result (Blacklist * bool) :=
  let* (ts, r) := contains now (banned_peers b) p in Ok (with_banned b ts, r).

Definition ban_duration b p : Z := base_time b * backoff b ^ bans b p.

(** [register_failure] *)
Definition register_failure now b p : result Blacklist :=
  let* (b1, banned) := is_banned now b p in
  if negb banned && (0 <? base_time b1) then
    let* (ts, _) := store now (banned_peers b1) p (bans b1 p) (now + ban_duration b1 p) in
    Ok (mkBlacklist (base_time b1) (backoff b1) ts (dset (ban_counter b1) p (bans b1 p + 1)))
  else Ok b1.

(** [register_success] *)
Definition register_success b p : result Blacklist :=
  let* ts := delitem (banned_peers b) p in
  Ok (mkBlacklist (base_time b) (backoff b) ts (ddel (ban_counter b) p)).

(** [clear] *)
Definition blacklist_clear b : Blacklist := mkBlacklist (base_time b) (backoff b) (clear (banned_peers b)) [].

(** [_filter_blacklisted] *)
Fixpoint filter_blacklisted {Id : Type} now b (peers : list (Id * PeerID)) : result (Blacklist * list (Id * PeerID)) :=
  match peers with
  | [] => Ok (b, [])
  | (id, p) :: rest =>
      let* (b1, banned) := is_banned now b p in
      let* (b2, l) := filter_blacklisted now b1 rest in
      Ok (b2, if (banned : bool) then l else (id, p) :: l)
  end.

(** The neighbors in the answer of a peer, filtered key by key. *)
Fixpoint filter_response {Id X : Type} now b (response : list (Id * (X * list (Id * PeerID))))
    : result (Blacklist * list (Id * (X * list (Id * PeerID)))) :=
  match response with
  | [] => Ok (b, [])
  | (key, (maybe_value, nearest)) :: rest =>
      let* (b1, nearest') := filter_blacklisted now b nearest in
      let* (b2, out) := filter_response now b1 rest in
      Ok (b2, (key, (maybe_value, nearest')) :: out)
  end.

(** [_call_find_with_blacklist]; [response] is what [call_find] returns when it is called, at time [now']; the flag tells
    whether it was. *)
Definition call_find_with_blacklist {Id X : Type} now now' b p (response : option (list (Id * (X * list (Id * PeerID)))))
    : result (Blacklist * bool * option (list (Id * (X * list (Id * PeerID))))) :=
  let* (b1, banned) := is_banned now b p in
  if (banned : bool) then Ok (b1, false, None)
  else
    match response with
    | Some ((_ :: _) as r) =>
        let* b2 := register_success b1 p in
        let* (b3, out) := filter_response now' b2 r in
        Ok (b3, true, Some out)
    | _ => let* b2 := register_failure now' b1 p in Ok (b2, true, None)
    end.

(** ** Lemmas *)

Record bl_inv b : Prop := {
  bl_wf : wf (banned_peers b);
  bl_frozen : frozen (banned_peers b) = false;
  bl_maxsize : maxsize (banned_peers b) = None;
  bl_base : 0 <= base_time b;
  bl_rate : 1 <= backoff b;
  bl_counts : forall p, 0 <= bans b p;
}.

Lemma blacklist_init_inv base rate : 0 <= base -> 1 <= rate -> bl_inv (blacklist_init base rate None).
Proof. intros H1 H2. split; try done. apply wf_init. Qed.

(** The time until which a peer is banned. *)
Definition banned_until b p : option Z := evict_time (banned_peers b) p.

Definition banned_at now b p : bool := match banned_until b p with Some e => now <=? e | None => false end.

(** Cleaning up drops the bans that are over, and no other. *)
Lemma cleaned_bans now (s s' : TimedStorage PeerID Z) p :
  wf s -> frozen s = false -> maxsize s = None -> cleaned now s s' ->
  evict_time s' p = (match evict_time s p with Some e => if now <=? e then Some e else None | None => None end) /\
  dmem (data s') p = (match evict_time s p with Some e => now <=? e | None => false end).
Proof.
  intros Hw Hf Hm Hc. unfold evict_time.
  destruct (dget (key_to_heap s) p) as [[e p']|] eqn:Ek; cbn.
  - destruct (wf_entry _ Hw _ _ Ek) as [Hp' _]. cbn in Hp'. subst p'.
    destruct (proj2 (wf_dom _ Hw p)) as [x Hx]; [eauto|].
    destruct (dget (data s') p) as [y|] eqn:Ey.
    + destruct (cl_kept _ _ _ Hc _ _ Ey) as [Hy Hk]. rewrite Hk, Ek. cbn.
      assert (He : now <= e) by (apply (cl_fresh _ _ _ Hc p); [done|]; unfold evict_time; by rewrite Hk, Ek).
      rewrite (proj2 (Z.leb_le _ _)) by done. split; [done|]. apply dmem_true. eauto.
    + destruct (cl_dropped _ _ _ Hc _ _ Hx Ey) as (_ & e' & Hk' & [Hlt|[Hcap _]]).
      * rewrite Ek in Hk'. simplify_eq. rewrite (proj2 (Z.leb_gt _ _)) by done.
        rewrite (wf_no_data_no_entry _ _ (cl_wf _ _ _ Hc) Ey). split; [done|]. by apply dmem_false.
      * rewrite Hm in Hcap. done.
  - assert (Hx : dget (data s) p = None).
    { destruct (dget (data s) p) eqn:E; [|done]. destruct (proj1 (wf_dom _ Hw p)) as [? ?]; [eauto|congruence]. }
    assert (Hx' : dget (data s') p = None).
    { destruct (dget (data s') p) eqn:E; [|done]. apply (cl_kept _ _ _ Hc) in E as [E _]. congruence. }
    rewrite (wf_no_data_no_entry _ _ (cl_wf _ _ _ Hc) Hx'). split; [done|]. by apply dmem_false.
Qed.

(** From [now] on, [b'] bans the same peers as [b], and counts the same. *)
Definition same_bans now b b' : Prop :=
  bl_inv b' /\ base_time b' = base_time b /\ backoff b' = backoff b /\ ban_counter b' = ban_counter b /\
  forall t q, now <= t -> banned_at t b' q = banned_at t b q.

Lemma banned_at_cleaned now t b ts q :
  bl_inv b -> cleaned now (banned_peers b) ts -> now <= t -> banned_at t (with_banned b ts) q = banned_at t b q.
Proof.
  intros Hi Hc Ht. destruct (cleaned_bans now _ _ q (bl_wf _ Hi) (bl_frozen _ Hi) (bl_maxsize _ Hi) Hc) as [He _].
  unfold banned_at, banned_until. cbn. rewrite He. destruct (evict_time (banned_peers b) q) as [e|]; [|done].
  destruct (now <=? e) eqn:E; [done|]. propify. symmetry. apply Z.leb_gt. lia.
Qed.

Lemma bl_inv_cleaned now b ts : bl_inv b -> cleaned now (banned_peers b) ts -> bl_inv (with_banned b ts).
Proof.
  intros Hi Hc. split; cbn; try apply Hi; [apply Hc|by rewrite (cl_frozen _ _ _ Hc), (bl_frozen _ Hi)|].
  by rewrite (cl_maxsize _ _ _ Hc), (bl_maxsize _ Hi).
Qed.

Lemma is_banned_spec now b p : bl_inv b ->
  exists b', is_banned now b p = Ok (b', banned_at now b p) /\ same_bans now b b' /\
    (banned_at now b p = false -> dget (data (banned_peers b')) p = None).
Proof.
  intros Hi. unfold is_banned, contains. destruct (remove_outdated_spec now _ (bl_wf _ Hi)) as (ts & -> & Hc). cbn.
  destruct (cleaned_bans now _ _ p (bl_wf _ Hi) (bl_frozen _ Hi) (bl_maxsize _ Hi) Hc) as [_ Hm].
  exists (with_banned b ts). rewrite Hm. split; [done|]. split.
  - split; [by apply (bl_inv_cleaned now)|]. split_and!; try done. intros. by apply (banned_at_cleaned now).
  - intros Hf. unfold banned_at, banned_until in Hf. apply dmem_false. cbn. by rewrite Hm.
Qed.

Lemma ban_duration_pos b p : bl_inv b -> 0 < base_time b -> 0 < ban_duration b p.
Proof.
  intros Hi Hb. unfold ban_duration. apply Z.mul_pos_pos; [done|]. apply Z.pow_pos_nonneg; [|apply Hi].
  pose proof (bl_rate _ Hi). lia.
Qed.

(** A store of a peer that is not banned. *)
Lemma store_ban now b p n e :
  bl_inv b -> dget (data (banned_peers b)) p = None -> now <= e ->
  exists ts ok, store now (banned_peers b) p n e = Ok (ts, ok) /\ wf ts /\ frozen ts = false /\ maxsize ts = None /\
    forall t q, now <= t -> banned_at t (with_banned b ts) q = if decide (p = q) then t <=? e else banned_at t b q.
Proof.
  intros Hi Hd He. pose proof Hi as [Hw Hf Hm _ _ _]. unfold store.
  rewrite (proj2 (Z.ltb_ge e now)) by done. cbn [andb]. rewrite Hd.
  set (s1 := mkTS _ _ (dset (data (banned_peers b)) p (VWE n e)) _ _).
  assert (Hw1 : wf s1) by (subst s1; destruct (banned_peers b); by apply wf_store_new).
  destruct (remove_outdated_spec now s1 Hw1) as (ts & -> & Hc). cbn. exists ts, true. split; [done|].
  split; [apply Hc|]. split; [by rewrite (cl_frozen _ _ _ Hc)|]. split; [by rewrite (cl_maxsize _ _ _ Hc)|].
  intros t q Ht. destruct (cleaned_bans now s1 ts q Hw1 Hf Hm Hc) as [Hq _].
  unfold banned_at, banned_until. cbn. rewrite Hq. unfold evict_time. cbn. destruct (decide (p = q)) as [<-|Hne].
  - rewrite dget_dset_eq. cbn. by rewrite (proj2 (Z.leb_le now e)).
  - rewrite dget_dset_ne by done. destruct (dget (key_to_heap (banned_peers b)) q) as [[e' q']|]; [|done]. cbn.
    destruct (now <=? e') eqn:E; [done|]. propify. symmetry. apply Z.leb_gt. lia.
Qed.

Lemma bans_dset b ts p q n :
  bans (mkBlacklist (base_time b) (backoff b) ts (dset (ban_counter b) p n)) q = if decide (p = q) then n else bans b q.
Proof.
  unfold bans. cbn. destruct (decide (p = q)) as [<-|]; [by rewrite dget_dset_eq|by rewrite dget_dset_ne].
Qed.

(** [register_failure] on a peer that is banned, and on one that is not. *)
Lemma register_failure_spec now b p : bl_inv b ->
  exists b', register_failure now b p = Ok b' /\ bl_inv b' /\ base_time b' = base_time b /\ backoff b' = backoff b /\
    (banned_at now b p = true \/ base_time b = 0 -> same_bans now b b') /\
    (banned_at now b p = false -> 0 < base_time b ->
       bans b' p = bans b p + 1 /\ (forall q, q <> p -> bans b' q = bans b q) /\
       forall t q, now <= t -> banned_at t b' q = if decide (p = q) then t <=? now + ban_duration b p else banned_at t b q).
Proof.
  intros Hi. unfold register_failure. destruct (is_banned_spec now b p Hi) as (b1 & -> & (Hi1 & Hb & Hr & Hcn & Hsame) & Hnd).
  cbn [rbind]. assert (Hd : forall q, bans b1 q = bans b q) by (intros; unfold bans; by rewrite Hcn).
  assert (Hdur : ban_duration b1 p = ban_duration b p) by (unfold ban_duration; by rewrite Hb, Hr, Hd).
  destruct (negb (banned_at now b p) && (0 <? base_time b1)) eqn:E; propify.
  - destruct E as [E1 E2]. rewrite Hb in E2. pose proof (ban_duration_pos b p Hi E2).
    destruct (store_ban now b1 p (bans b1 p) (now + ban_duration b1 p) Hi1 (Hnd E1)) as (ts & ok & -> & Hw & Hf & Hm & Hat); [lia|].
    cbn [rbind]. eexists. split; [done|]. split.
    { split; cbn; try done; try apply Hi1. intros q. rewrite bans_dset. pose proof (bl_counts _ Hi1 q).
      pose proof (bl_counts _ Hi1 p). destruct (decide (p = q)); lia. }
    split; [done|]. split; [done|]. split; [intros [?|?]; [congruence|lia]|]. intros _ _. split_and!.
    + rewrite bans_dset, decide_True by done. by rewrite Hd.
    + intros q Hq. rewrite bans_dset, decide_False by done. apply Hd.
    + intros t q Ht. change (banned_at t (with_banned b1 ts) q = if decide (p = q) then t <=? now + ban_duration b p else banned_at t b q).
      rewrite Hat by done. rewrite Hdur. destruct (decide (p = q)); [done|by apply Hsame].
  - exists b1. split_and!; try done. intros H0 Hpos. rewrite Hb in E. destruct E as [E|E]; [congruence|lia].
Qed.

Lemma register_success_spec b p : bl_inv b ->
  exists b', register_success b p = Ok b' /\ bl_inv b' /\ base_time b' = base_time b /\ bans b' p = 0 /\
    (forall t, banned_at t b' p = false) /\ forall q, q <> p -> bans b' q = bans b q /\ forall t, banned_at t b' q = banned_at t b q.
Proof.
  intros Hi. unfold register_success.
  destruct (delitem_spec (banned_peers b) p (bl_wf _ Hi)) as (ts & -> & Hw & Hf & Hm & Hd & Ho). cbn.
  assert (Hq : forall q, bans (mkBlacklist (base_time b) (backoff b) ts (ddel (ban_counter b) p)) q =
    if decide (p = q) then 0 else bans b q).
  { intros q. unfold bans. cbn. destruct (decide (p = q)) as [<-|]; [by rewrite dget_ddel_eq|by rewrite dget_ddel_ne]. }
  eexists. split; [done|]. split.
  { split; cbn; try apply Hi; [done|by rewrite Hf, (bl_frozen _ Hi)|by rewrite Hm, (bl_maxsize _ Hi)|].
    intros q. rewrite Hq. pose proof (bl_counts _ Hi q). destruct (decide (p = q)); lia. }
  split; [done|]. split; [by rewrite Hq, decide_True|]. split.
  - intros t. unfold banned_at, banned_until, evict_time. cbn. by rewrite (wf_no_data_no_entry _ _ Hw Hd).
  - intros q Hne. rewrite Hq, decide_False by done. split; [done|]. intros t.
    unfold banned_at, banned_until, evict_time. cbn. by rewrite (proj2 (Ho q (not_eq_sym Hne))).
Qed.

Lemma same_bans_trans now b1 b2 b3 : same_bans now b1 b2 -> same_bans now b2 b3 -> same_bans now b1 b3.
Proof.
  intros (_ & A1 & A2 & A3 & A4) (I & B1 & B2 & B3 & B4). split; [done|]. split_and!; try congruence.
  intros t q Ht. by rewrite B4, A4.
Qed.

Lemma same_bans_refl now b : bl_inv b -> same_bans now b b.
Proof. by split. Qed.

Lemma filter_blacklisted_spec {Id : Type} now (peers : list (Id * PeerID)) : forall b, bl_inv b ->
  exists b', filter_blacklisted now b peers = Ok (b', filter (fun e => banned_at now b e.2 = false) peers) /\ same_bans now b b'.
Proof.
  induction peers as [|[id p] rest IH]; intros b Hi; cbn [filter_blacklisted].
  { exists b. split; [done|]. by apply same_bans_refl. }
  destruct (is_banned_spec now b p Hi) as (b1 & -> & Hs1 & _). cbn [rbind].
  destruct (IH b1 (proj1 Hs1)) as (b2 & -> & Hs2). cbn [rbind]. exists b2.
  split; [|by eapply same_bans_trans]. rewrite filter_cons. cbn.
  assert (Hf : filter (fun e : Id * PeerID => banned_at now b1 e.2 = false) rest =
               filter (fun e : Id * PeerID => banned_at now b e.2 = false) rest).
  { apply list_filter_iff. intros e. destruct Hs1 as (_ & _ & _ & _ & Hs1). by rewrite Hs1 by lia. }
  rewrite Hf. destruct (banned_at now b p); [by rewrite decide_False|by rewrite decide_True].
Qed.

Lemma filter_response_spec {Id X : Type} now (r : list (Id * (X * list (Id * PeerID)))) : forall b, bl_inv b ->
  exists b', filter_response now b r =
    Ok (b', map (fun e => (e.1, (e.2.1, filter (fun n => banned_at now b n.2 = false) e.2.2))) r) /\ same_bans now b b'.
Proof.
  induction r as [|[k [v ns]] rest IH]; intros b Hi; cbn [filter_response].
  { exists b. split; [done|]. by apply same_bans_refl. }
  destruct (filter_blacklisted_spec now ns b Hi) as (b1 & -> & Hs1). cbn [rbind].
  destruct (IH b1 (proj1 Hs1)) as (b2 & -> & Hs2). cbn [rbind]. exists b2. split; [|by eapply same_bans_trans].
  cbn [map fst snd]. do 3 f_equal. apply map_ext. intros [k' [v' ns']]. cbn. do 2 f_equal.
  apply list_filter_iff. intros e. destruct Hs1 as (_ & _ & _ & _ & Hs1). by rewrite Hs1 by lia.
Qed.

(** * Theorems *)

(** Failures that each come after the previous ban is over, and the end of the last ban. *)
Fixpoint spaced (base rate n until : Z) (times : list Z) : Prop :=
  match times with
  | [] => True
  | t :: rest => until < t /\ spaced base rate (n + 1) (t + base * rate ^ n) rest
  end.
Fixpoint last_ban (base rate n until : Z) (times : list Z) : Z :=
  match times with
  | [] => until
  | t :: rest => last_ban base rate (n + 1) (t + base * rate ^ n) rest
  end.

(** Exponential backoff.  The [n]-th of several successive failures, each after the previous ban is over, bans
    the peer for [base_time * backoff ** n] seconds, exactly; the counter counts them. *)
Theorem exponential_backoff p times : forall b until,
  bl_inv b -> 0 < base_time b -> (forall t, until < t -> banned_at t b p = false) ->
  spaced (base_time b) (backoff b) (bans b p) until times -> times <> [] ->
  exists b', foldM_r (fun b t => register_failure t b p) b times = Ok b' /\ bl_inv b' /\
    bans b' p = bans b p + Z.of_nat (length times) /\
    forall t, default until (last times) <= t ->
      banned_at t b' p = (t <=? last_ban (base_time b) (backoff b) (bans b p) until times).
Proof.
  induction times as [|t0 times IH]; intros b until Hi Hb Hn Hsp Hne; [done|]. cbn [foldM_r spaced last_ban] in *.
  destruct Hsp as [Ht0 Hsp]. destruct (register_failure_spec t0 b p Hi) as (b1 & -> & Hi1 & Hb1 & Hr1 & _ & Hnew).
  destruct (Hnew (Hn _ Ht0) Hb) as (Hc & _ & Hat). cbn [rbind].
  assert (Hat' : forall t, t0 <= t -> banned_at t b1 p = (t <=? t0 + base_time b * backoff b ^ bans b p)).
  { intros t Ht. rewrite Hat by done. by rewrite decide_True. }
  destruct times as [|t1 times].
  - exists b1. split; [done|]. split; [done|]. split; [cbn [length]; lia|]. intros t Ht. cbn in Ht |- *. by apply Hat'.
  - pose proof (ban_duration_pos b p Hi Hb) as Hpos. unfold ban_duration in Hpos.
    destruct (IH b1 (t0 + base_time b * backoff b ^ bans b p) Hi1) as (b' & H1 & H2 & H3 & H4); [lia| | |done|].
    + intros t Ht. rewrite Hat' by lia. apply Z.leb_gt. lia.
    + by rewrite Hb1, Hr1, Hc.
    + exists b'. split; [done|]. split; [done|]. split; [cbn [length] in *; lia|]. intros t Ht.
      rewrite H4, Hb1, Hr1, Hc; [done|]. change (default until (last (t1 :: times)) <= t) in Ht.
      destruct (last (t1 :: times)) eqn:El; [done|]. by apply last_None in El.
Qed.

(** [_call_find_with_blacklist] always returns; it contacts the peer exactly when it is not banned; a peer that did
    not answer is banned afterwards, one that answered is not and starts over; and no neighbor it
    reports is banned. *)
Theorem blacklist_respected {Id X : Type} now now' b p (response : option (list (Id * (X * list (Id * PeerID))))) :
  bl_inv b -> now <= now' ->
  exists b' called out, call_find_with_blacklist now now' b p response = Ok (b', called, out) /\ bl_inv b' /\
    called = negb (banned_at now b p) /\
    match out with
    | Some r => bans b' p = 0 /\ banned_at now' b' p = false /\
                forall k v ns id q, (k, (v, ns)) ∈ r -> (id, q) ∈ ns -> banned_at now' b' q = false
    | None => called = true -> 0 < base_time b -> banned_at now' b' p = true
    end.
Proof.
  intros Hi Hle. unfold call_find_with_blacklist. destruct (is_banned_spec now b p Hi) as (b1 & -> & Hs1 & _). cbn [rbind].
  destruct Hs1 as (Hi1 & Hb1 & _). destruct (banned_at now b p) eqn:Eb; [by exists b1, false, None|].
  assert (Hfail : exists b' called out, (let* b2 := register_failure now' b1 p in
    Ok (b2, true, @None (list (Id * (X * list (Id * PeerID)))))) = Ok (b', called, out) /\ bl_inv b' /\ called = true /\
    match out with Some _ => False | None => 0 < base_time b -> banned_at now' b' p = true end).
  { destruct (register_failure_spec now' b1 p Hi1) as (b2 & -> & Hi2 & _ & _ & Hsame & Hnew). cbn.
    exists b2, true, None. split_and!; try done. intros Hpos. rewrite <- Hb1 in Hpos.
    destruct (banned_at now' b1 p) eqn:E.
    - destruct Hsame as (_ & _ & _ & _ & Hs); [by left|]. by rewrite Hs.
    - destruct (Hnew eq_refl Hpos) as (_ & _ & Hat). rewrite Hat, decide_True by done. apply Z.leb_le.
      pose proof (ban_duration_pos b1 p Hi1 Hpos). lia. }
  destruct response as [[|e r]|].
  1,3: (destruct Hfail as (b' & called & out & -> & ? & -> & Ho); exists b', true, out; split_and!; try done; destruct out; [done|auto]).
  destruct (register_success_spec b1 p Hi1) as (b2 & -> & Hi2 & _ & Hc & Hnb & _). cbn [rbind].
  destruct (filter_response_spec now' (e :: r) b2 Hi2) as (b3 & -> & Hs3). cbn [rbind].
  destruct Hs3 as (Hi3 & _ & _ & Hcnt & Hs3). eexists b3, true, _. split; [done|]. split_and!; try done.
  - unfold bans in *. by rewrite Hcnt.
  - rewrite Hs3 by lia. apply Hnb.
  - intros k v ns id q Hin Hns. apply list_elem_of_In, in_map_iff in Hin as (x & Hx & _). simplify_eq.
    apply list_elem_of_filter in Hns as [Hns _]. cbn in Hns. by rewrite Hs3 by lia.
Qed.
End Blacklist.

(** ** The defaults of [DHTNode.create]: 5 seconds, doubled at each failure *)

Definition toy_blacklist : Blacklist (PeerID:=Z) := blacklist_init 5 2 None.

Lemma exponential_backoff_witness :
  exists b', foldM_r (fun b t => register_failure t b 7) toy_blacklist [100; 106; 120] = Ok b' /\
    bans b' 7 = 3 /\ banned_at 140 b' 7 = true /\ banned_at 141 b' 7 = false.
Proof.
  destruct (exponential_backoff (PeerID:=Z) 7 [100; 106; 120] toy_blacklist 0) as (b' & H & _ & Hc & Hat).
  - apply blacklist_init_inv; lia.
  - reflexivity.
  - intros t _. reflexivity.
  - cbn. lia.
  - discriminate.
  - exists b'. split; [exact H|]. split; [exact Hc|]. split; apply Hat; discriminate.
Defined.

(** A peer that does not answer. *)
Lemma blacklist_respected_witness :
  exists b', call_find_with_blacklist (Id:=Z) (X:=Z) 100 103 toy_blacklist 7 None = Ok (b', true, None) /\
    banned_at 103 b' 7 = true.
Proof.
  destruct (blacklist_respected (PeerID:=Z) (Id:=Z) (X:=Z) 100 103 toy_blacklist 7 None) as (b' & called & out & H & _ & Hc & Ho).
  - apply blacklist_init_inv; lia.
  - lia.
  - cbn in Hc. subst called. destruct out as [r|].
    + exfalso. assert (Hn : exists b, call_find_with_blacklist (Id:=Z) (X:=Z) 100 103 toy_blacklist 7 None = Ok (b, true, None))
        by (eexists; vm_compute; reflexivity). destruct Hn as [b Hn]. rewrite H in Hn. discriminate Hn.
    + exists b'. split; [exact H|]. apply Ho; reflexivity.
Defined.
