(* ===== verification/Client.v ===== *)
(** * The client: choice of a server and sessions ([mesh/subnet/client], [mesh/utils/ping.py])

    [PingAggregator] keeps smoothed round-trip times, [RemoteServerInfo] what the DHT says about the servers.
    [RemoteManager] brings both up to date in a thread and chooses a server; [Session.run_protocol_task] sends a request to it and
    tries again when that fails.  Round-trip times are rationals, [None] is [math.inf]; tensors are opaque. *)

From Stdlib Require Import QArith Lqa.
From S2P Require Import Prelude TimedStorage Storage Blacklist.

(** ** Round-trip times *)

Definition Rtt : Type := option Q.

(** [a <= b] for floats with [inf] *)
Definition rtt_leb (a b : Rtt) : bool :=
  match a, b with
  | _, None => true
  | None, Some _ => false
  | Some x, Some y => Qle_bool x y
  end.

(** [if prev_rtt is not None and prev_rtt.value != math.inf: rtt = alpha * rtt + (1 - alpha) * prev_rtt.value] *)
Definition smooth (alpha : Q) (prev : option Rtt) (rtt : Rtt) : Rtt :=
  match prev with
  | Some (Some p) => match rtt with Some r => Some (alpha * r + (1 - alpha) * p)%Q | None => None end
  | _ => rtt
  end.

Section Client.
Context {PeerID : Type} `{EqP : EqDecision PeerID} `{OrdP : PyOrd PeerID} {LawP : PyOrdLaws PeerID}.

Record PingAggregator : Type := mkAggregator { ema_alpha : Q; expiration : Z; ping_emas : TimedStorage PeerID Rtt }.
Definition new_aggregator : PingAggregator := mkAggregator (2 # 10) 300 (init false None).

(** [ping_parallel]: what every peer measured, [inf] if it did not answer *)
Definition ping_parallel (peer_ids : list PeerID) (rtts : list Rtt) : pydict PeerID Rtt := dict_of_list (zip peer_ids rtts).

(** The loop of [ping] *)
Fixpoint ping_loop (now : Z) (a : PingAggregator) (current_rtts : list (PeerID * Rtt)) : result PingAggregator :=
  match current_rtts with
  | [] => Ok a
  | (peer_id, rtt) :: rest =>
      let* (s1, prev) := get now (ping_emas a) peer_id in
      let rtt := smooth (ema_alpha a) (option_map value prev) rtt in
      let* (s2, _) := store now s1 peer_id rtt (now + expiration a) in
      ping_loop now (mkAggregator (ema_alpha a) (expiration a) s2) rest
  end.

Definition ping (now : Z) (a : PingAggregator) (peer_ids : list PeerID) (rtts : list Rtt) : result PingAggregator :=
  ping_loop now a (ping_parallel peer_ids rtts).

(** [to_dict]: the storage is frozen meanwhile, so that nothing is evicted. *)
Definition to_dict (now : Z) (a : PingAggregator) : result (pydict PeerID Rtt) :=
  let* (_, d) := items now (set_frozen (ping_emas a) true) in Ok (map (fun kv => (kv.1, value kv.2)) d).

(** ** What is known about the servers *)

(** [RemoteModuleInfo]; the rest of the server's information is opaque, but for its state. *)
Record ModuleInfo : Type := mkInfo { peer_id : PeerID; state_value : Z; payload : nat }.

Record RemoteServerInfo : Type := mkServers {
  server_infos : list ModuleInfo; servers_by_priority : list ModuleInfo; last_updated_time : option Z }.
Definition make_empty : RemoteServerInfo := mkServers [] [] None.

(** [sort_peers]: the loop over the infos never adds to [spans]. *)
Definition sort_peers (module_infos : list ModuleInfo) (min_state : Z) : list ModuleInfo :=
  foldl (fun spans info => if state_value info <? min_state then spans else spans) [] module_infos.

Definition ONLINE : Z := 2.

Definition update_ (s : RemoteServerInfo) (new_server_infos : list ModuleInfo) (now : Z) : RemoteServerInfo :=
  let infos := dvalues (dict_of_list (map (fun i => (peer_id i, i)) (server_infos s ++ new_server_infos))) in
  mkServers infos (sort_peers infos ONLINE) (Some now).

(** ** [RemoteManager] *)

Record ClientConfig : Type := mkConfig { max_retries : option Z; min_backoff : Z; max_backoff : Z }.

Record RemoteManager : Type := mkManager {
  config : ClientConfig;
  remote_servers_infos : RemoteServerInfo;
  banned_peers : Blacklist (PeerID := PeerID);
  ping_aggregator : PingAggregator;
  ready : bool;
  trigger : bool;
}.
Definition set_ready (m : RemoteManager) (r t : bool) : RemoteManager :=
  mkManager (config m) (remote_servers_infos m) (banned_peers m) (ping_aggregator m) r t.

(** One round of the update thread: what [get_node_infos] returned or raised, and the round-trip times.  An exception is
    logged; the manager is then as it was when it occurred. *)
Record round : Type := mkRound { r_now : Z; r_infos : result (list ModuleInfo); r_rtts : list Rtt }.

Definition _update (m : RemoteManager) (r : round) : RemoteManager :=
  let m := set_ready m (ready m) false in
  match r_infos r with
  | Raise _ => m
  | Ok hoster_infos =>
      let infos := update_ (remote_servers_infos m) hoster_infos (r_now r) in
      let m := mkManager (config m) infos (banned_peers m) (ping_aggregator m) (ready m) (trigger m) in
      match ping (r_now r) (ping_aggregator m) (map peer_id hoster_infos) (r_rtts r) with
      | Raise _ => m
      | Ok a => mkManager (config m) infos (banned_peers m) a true (trigger m)
      end
  end.

(** [update] with [wait=False] *)
Definition request_update (m : RemoteManager) : RemoteManager := set_ready m false true.

(** [min(d, key=d.get)] *)
Fixpoint argmin (d : list (PeerID * Rtt)) (best : PeerID * Rtt) : PeerID * Rtt :=
  match d with
  | [] => best
  | e :: rest => argmin rest (if rtt_leb best.2 e.2 then best else e)
  end.

Definition _get_peer_with_max_throughput (now : Z) (m : RemoteManager) : result ModuleInfo :=
  let* client_server_rtts := to_dict now (ping_aggregator m) in
  match client_server_rtts with
  | [] => Raise ValueError
  | e :: rest =>
      let max_throughput_server := (argmin rest e).1 in
      of_option RuntimeError (find (fun i => bool_decide (peer_id i = max_throughput_server)) (server_infos (remote_servers_infos m)))
  end.

(** [self.ready.wait()] with the rounds of the thread that follow; [None] while it waits *)
Fixpoint await_ready (m : RemoteManager) (rounds : list round) : option RemoteManager :=
  if ready m then Some m else
  match rounds with [] => None | r :: rest => await_ready (_update m r) rest end.

Definition make_sequence (now : Z) (m : RemoteManager) (rounds : list round) : option (RemoteManager * result ModuleInfo) :=
  let m := if ready m then m else request_update m in
  option_map (fun m => (m, _get_peer_with_max_throughput now m)) (await_ready m rounds).

Definition on_request_failure (now : Z) (m : RemoteManager) (p : option PeerID) : result RemoteManager :=
  let* b := match p with Some p => register_failure now (banned_peers m) p | None => Ok (banned_peers m) end in
  let m := mkManager (config m) (remote_servers_infos m) b (ping_aggregator m) (ready m) (trigger m) in
  Ok (match server_infos (remote_servers_infos m) with [] => request_update m | _ => m end).

Definition on_request_success (m : RemoteManager) (p : PeerID) : result RemoteManager :=
  let* b := register_success (banned_peers m) p in
  Ok (mkManager (config m) (remote_servers_infos m) b (ping_aggregator m) (ready m) (trigger m)).

Definition get_retry_delay (c : ClientConfig) (attempt_no : Z) : Z :=
  if attempt_no =? 0 then 0 else Z.min (min_backoff c * 2 ^ (attempt_no - 1)) (max_backoff c).

(** [_peer_ids_to_set]: the elements are [PeerID]s, texts or something else. *)
Inductive PeerArg : Type := PeerObj (p : PeerID) | PeerText (p : result PeerID) | PeerOther.
Fixpoint peer_ids_to_set (l : list PeerArg) : result (list PeerID) :=
  match l with
  | [] => Ok []
  | x :: rest =>
      let* p := match x with PeerObj p => Ok p | PeerText r => r | PeerOther => Raise TypeError end in
      let* s := peer_ids_to_set rest in
      Ok (if bool_decide (p ∈ s) then s else p :: s)
  end.

(** ** Sessions *)

Section Session.
Context {Tensor : Type}.

(** What happens in one attempt: the clock, the rounds of the update thread if the session waits for one, the tensors
    that the server streams and how the stream ends. *)
Record attempt : Type := mkAttempt { a_now : Z; a_rounds : list round; a_tensors : list Tensor; a_end : option exn }.

(** What a call has done: the requests (the peer and the tensor it was sent), the tensors it has yielded, its pauses, and
    its end ([None] while it waits). *)
Record trace : Type := mkTrace {
  requests : list (PeerID * Tensor); yielded : list Tensor; sleeps : list Z; outcome : option (result unit) }.
Definition prefix_trace (reqs : list (PeerID * Tensor)) (ys : list Tensor) (ss : list Z) (t : trace) : trace :=
  mkTrace (reqs ++ requests t) (ys ++ yielded t) (ss ++ sleeps t) (outcome t).

(** [attempt_no + 1 == self.config.max_retries or attempt_no + 1 >= max_retries] *)
Definition gives_up (c : ClientConfig) (max_retries_arg : option Z) (attempt_no : Z) : result bool :=
  if bool_decide (Some (attempt_no + 1) = max_retries c) then Ok true
  else match max_retries_arg with Some n => Ok (n <=? attempt_no + 1) | None => Raise TypeError end.

(** The handler of the exception [e]; [next] is the rest of the loop. *)
Definition handle (a : attempt) (attempt_no : Z) (arg : option Z) (m : RemoteManager) (server : option ModuleInfo) (e : exn)
    (next : RemoteManager -> trace) : trace :=
  match (let* m' := on_request_failure (a_now a) m (option_map peer_id server) in
         let* stop := gives_up (config m) arg attempt_no in Ok (m', stop)) with
  | Raise e' => mkTrace [] [] [] (Some (Raise e'))
  | Ok (_, true) => mkTrace [] [] [] (Some (Raise e))
  | Ok (m', false) => prefix_trace [] [] [get_retry_delay (config m) attempt_no] (next m')
  end.

(** The loop of [run_protocol_task]; [session] is [self._server_session].  The received tensors are bound to the name [tensor]
    as well, which is the argument of the next request. *)
Fixpoint run_loop (attempts : list attempt) (attempt_no : Z) (arg : option Z) (m : RemoteManager) (session : option ModuleInfo)
    (tensor : Tensor) : trace :=
  match attempts with
  | [] => mkTrace [] [] [] None
  | a :: rest =>
      let found :=
        match session with
        | Some s => if 1 <=? attempt_no then make_sequence (a_now a) m (a_rounds a) else Some (m, Ok s)
        | None => make_sequence (a_now a) m (a_rounds a)
        end in
      match found with
      | None => mkTrace [] [] [] None
      | Some (m, Raise e) => handle a attempt_no arg m None e (fun m' => run_loop rest (attempt_no + 1) arg m' session tensor)
      | Some (m, Ok server) =>
          prefix_trace [(peer_id server, tensor)] (a_tensors a) []
            (match a_end a with
             | None => mkTrace [] [] [] (Some (Ok tt))
             | Some e =>
                 handle a attempt_no arg m (Some server) e
                   (fun m' => run_loop rest (attempt_no + 1) arg m' (Some server) (List.last (a_tensors a) tensor))
             end)
      end
  end.

Definition run_protocol_task (m : RemoteManager) (session : option ModuleInfo) (tensor : Tensor) (arg : option Z) (attempts : list attempt) : trace :=
  run_loop attempts 0 arg m session tensor.
End Session.
End Client.

(** ** Lemmas *)

Section ClientFacts.
Context {PeerID : Type} `{EqP : EqDecision PeerID} `{OrdP : PyOrd PeerID} {LawP : PyOrdLaws PeerID}.
Implicit Types (m : RemoteManager (PeerID := PeerID)) (i : ModuleInfo (PeerID := PeerID)).

(** The frozen storage gives all entries it still has, whatever the time. *)
Lemma to_dict_frozen now (a : PingAggregator (PeerID := PeerID)) : to_dict now a = Ok (map (fun kv => (kv.1, value kv.2)) (data (ping_emas a))).
Proof.
  unfold to_dict, items, _remove_outdated, set_frozen. cbn [frozen maxsize expiration_heap data key_to_heap].
  by destruct (expiration_heap (ping_emas a)) as [|[e k] h].
Qed.

Lemma choice_any_time now now' m : _get_peer_with_max_throughput now m = _get_peer_with_max_throughput now' m.
Proof. unfold _get_peer_with_max_throughput. by rewrite !to_dict_frozen. Qed.

Lemma rtt_leb_refl r : rtt_leb r r = true.
Proof. destruct r; [|done]. apply Qle_bool_iff, Qle_refl. Qed.

Lemma rtt_leb_trans r1 r2 r3 : rtt_leb r1 r2 = true -> rtt_leb r2 r3 = true -> rtt_leb r1 r3 = true.
Proof.
  destruct r1, r2, r3; try done. cbn. rewrite !Qle_bool_iff. apply Qle_trans.
Qed.

Lemma rtt_leb_total r1 r2 : rtt_leb r1 r2 = false -> rtt_leb r2 r1 = true.
Proof.
  destruct r1 as [x|], r2 as [y|]; try done. cbn. intros Hf. apply Qle_bool_iff. destruct (Qlt_le_dec y x) as [Hl|Hl]; [by apply Qlt_le_weak|].
  apply Qle_bool_iff in Hl. congruence.
Qed.

Lemma argmin_spec (d : list (PeerID * Rtt)) : forall best,
  argmin d best ∈ best :: d /\ forall e, e ∈ best :: d -> rtt_leb (argmin d best).2 e.2 = true.
Proof.
  induction d as [|x d IH]; intros best; cbn [argmin].
  - split; [left|]. intros e He. apply list_elem_of_singleton in He as ->. apply rtt_leb_refl.
  - destruct (IH (if rtt_leb best.2 x.2 then best else x)) as [Hin Hle]. split.
    + destruct (rtt_leb best.2 x.2); set_solver.
    + intros e He. destruct (rtt_leb best.2 x.2) eqn:E.
      * apply elem_of_cons in He as [-> |He]; [apply Hle; left|]. apply elem_of_cons in He as [-> |He]; [|apply Hle; by right].
        eapply rtt_leb_trans; [apply Hle; left|exact E].
      * apply elem_of_cons in He as [-> |He]; [|by apply Hle].
        eapply rtt_leb_trans; [apply Hle; left|by apply rtt_leb_total].
Qed.

(** What a failure leaves as it is. *)
Definition same_servers m m' : Prop :=
  config m' = config m /\ remote_servers_infos m' = remote_servers_infos m /\ ping_aggregator m' = ping_aggregator m /\ ready m' = ready m.

Lemma same_servers_choice now m m' : same_servers m m' -> _get_peer_with_max_throughput now m' = _get_peer_with_max_throughput now m.
Proof. intros (_ & Hi & Ha & _). unfold _get_peer_with_max_throughput. by rewrite Ha, Hi. Qed.

(** A manager that knows servers and is ready: it never waits. *)
Definition settled m : Prop := ready m = true /\ server_infos (remote_servers_infos m) <> [] /\ bl_inv (banned_peers m).

Lemma settled_sequence now m rounds : settled m -> make_sequence now m rounds = Some (m, _get_peer_with_max_throughput now m).
Proof. intros (Hr & _). unfold make_sequence. rewrite Hr. destruct rounds; cbn [await_ready]; by rewrite Hr. Qed.

Lemma failure_settled now m p : settled m -> exists m', on_request_failure now m p = Ok m' /\ settled m' /\ same_servers m m'.
Proof.
  intros (Hr & Hi & Hb). unfold on_request_failure.
  assert (exists b, match p with Some p => register_failure now (banned_peers m) p | None => Ok (banned_peers m) end = Ok b /\ bl_inv b) as (b & -> & Hb').
  { destruct p as [p|]; [|eauto]. destruct (register_failure_spec now (banned_peers m) p Hb) as (b & -> & Hb' & _). eauto. }
  cbn [rbind]. destruct (server_infos (remote_servers_infos m)) as [|x l] eqn:E; [done|]. eexists. split; [cbn; by rewrite E|].
  split; [|done]. split; [done|]. cbn. by rewrite E.
Qed.
End ClientFacts.

Section ClientTheorems.
Context {PeerID : Type} `{EqP : EqDecision PeerID} `{OrdP : PyOrd PeerID} {LawP : PyOrdLaws PeerID} {Tensor : Type}.
Implicit Types (m : RemoteManager (PeerID := PeerID)) (i : ModuleInfo (PeerID := PeerID)) (attempts : list (attempt (PeerID := PeerID) (Tensor := Tensor))).

(** The server that is chosen is one of those known from the DHT, and no server that is still in the table of round-trip times
    has a smaller one.  The choice depends on the table only: neither the time nor the bans of the manager matter, so
    that a server that has just failed and is banned is chosen as before. *)
Theorem fastest_server_chosen (now : Z) m i : _get_peer_with_max_throughput now m = Ok i ->
  i ∈ server_infos (remote_servers_infos m) /\
  (exists d rtt, to_dict now (ping_aggregator m) = Ok d /\ (peer_id i, rtt) ∈ d /\ forall p r, (p, r) ∈ d -> rtt_leb rtt r = true) /\
  forall t t' p m', on_request_failure t m p = Ok m' -> _get_peer_with_max_throughput t' m' = Ok i.
Proof.
  intros Hi. assert (Hsave := Hi). unfold _get_peer_with_max_throughput in Hi.
  destruct (to_dict now (ping_aggregator m)) as [d|] eqn:Ed; [|done]. cbn [rbind] in Hi. destruct d as [|e d]; [done|].
  destruct (find _ _) as [i'|] eqn:Ef; [|done]. cbn in Hi. injection Hi as ->. apply find_some in Ef as [Hin Hp].
  apply bool_decide_eq_true in Hp. destruct (argmin_spec d e) as [Hmem Hle]. split_and!.
  - by apply list_elem_of_In.
  - exists (e :: d), (argmin d e).2. split; [done|]. split; [|intros p r Hpr; by apply (Hle (p, r))].
    rewrite Hp. by destruct (argmin d e).
  - intros t t' p m' Hm. rewrite (choice_any_time t' now). rewrite <- Hsave. unfold on_request_failure in Hm.
    destruct (match p with Some _ => _ | None => _ end) as [b|]; [|done]. cbn [rbind] in Hm. injection Hm as <-.
    by destruct (server_infos (remote_servers_infos m)) eqn:E.
Qed.

(** Every attempt but the last is followed by a pause; each of them asks the server with the smallest round-trip time. *)
Lemma run_failed_attempts (m : RemoteManager) : forall attempts attempt_no session x n i,
  settled m -> _get_peer_with_max_throughput 0 m = Ok i -> max_retries (config m) = None -> 0 <= attempt_no -> (attempt_no = 0 -> session = None) ->
  Forall (fun a => exists e, a_end a = Some e) attempts -> attempts <> [] -> attempt_no + Z.of_nat (length attempts) = n ->
  let t := run_loop attempts attempt_no (Some n) m session x in
  (requests t).*1 = replicate (length attempts) (peer_id i) /\
  sleeps t = map (fun k => get_retry_delay (config m) (attempt_no + Z.of_nat k)) (seq 0 (length attempts - 1)) /\
  exists e, outcome t = Some (Raise e).
Proof.
  intros attempts. revert m. induction attempts as [|a rest IH]; intros m attempt_no session x n i Hs Hi Hmax Hno Hses Hall Hne Hn; [done|].
  inversion_clear Hall as [|? ? [e He] Hrest]. cbn [run_loop].
  assert (Hfound : match session with
        | Some s => if 1 <=? attempt_no then make_sequence (a_now a) m (a_rounds a) else Some (m, Ok s)
        | None => make_sequence (a_now a) m (a_rounds a) end = Some (m, Ok i)).
  { rewrite <- Hi, (choice_any_time 0 (a_now a)), <- (settled_sequence _ _ (a_rounds a) Hs).
    destruct session; [|done]. destruct (decide (attempt_no = 0)) as [E0|E0]; [by specialize (Hses E0)|].
    by replace (1 <=? attempt_no) with true by lia. }
  rewrite Hfound, He. unfold handle. destruct (failure_settled (a_now a) m (Some (peer_id i)) Hs) as (m' & Hm' & Hs' & Hsame).
  cbn [option_map]. rewrite Hm'. cbn [rbind]. unfold gives_up. rewrite Hmax. rewrite bool_decide_false by done. cbn [rbind].
  cbn [length] in Hn. destruct (n <=? attempt_no + 1) eqn:Eg.
  - assert (rest = []) as -> by (destruct rest; [done|cbn in Hn; lia]). cbn. split_and!; try done. by exists e.
  - assert (Hrne : rest <> []) by (destruct rest; [cbn in Hn; lia|done]).
    destruct Hsame as (Hc & Hsame). pose proof (conj Hc Hsame) as Hsm.
    destruct (IH m' (attempt_no + 1) (Some i) (List.last (a_tensors a) x) n i) as (Hr & Hsl & Ho); try done; try lia.
    + by rewrite (same_servers_choice 0 m m' Hsm).
    + by rewrite Hc.
    + cbn [prefix_trace requests sleeps outcome app length fmap list_fmap replicate]. rewrite Hr, Hsl. split_and!; [done| |done].
      destruct rest as [|b rest]; [done|]. cbn [length Nat.sub]. rewrite Nat.sub_0_r. cbn [seq map]. f_equal; [f_equal; lia|].
      rewrite <- seq_shift, map_map. rewrite Hc. apply map_ext. intros k. f_equal. lia.
Qed.

(** A call ends after [max_retries] failed attempts, with the exception of the last one; but all of these attempts ask the same
    server, which was banned after the first, as long as its round-trip time is the smallest that is known. *)
Theorem failing_server_asked_again m (x : Tensor) (n : Z) i attempts :
  settled m -> _get_peer_with_max_throughput 0 m = Ok i -> max_retries (config m) = None ->
  Forall (fun a => exists e, a_end a = Some e) attempts -> attempts <> [] -> Z.of_nat (length attempts) = n ->
  let t := run_protocol_task m None x (Some n) attempts in
  (requests t).*1 = replicate (length attempts) (peer_id i) /\
  sleeps t = map (fun k => get_retry_delay (config m) (Z.of_nat k)) (seq 0 (length attempts - 1)) /\
  exists e, outcome t = Some (Raise e).
Proof. intros Hs Hi Hmax Hall Hne Hn. by apply (run_failed_attempts m attempts 0 None x n i). Qed.

(** A retry does not repeat the request.  When a stream fails after it has delivered tensors, the next server is sent
    the last of these in place of the caller's tensor, and the caller receives the delivered ones followed by the
    answers to that other request. *)
Theorem retry_sends_last_output m (s i : ModuleInfo (PeerID := PeerID)) (x t : Tensor) (ts us : list Tensor) (n now now' : Z) rounds rounds' (e : exn) rest :
  settled m -> _get_peer_with_max_throughput now' m = Ok i -> max_retries (config m) = None -> 2 <= n ->
  run_protocol_task m (Some s) x (Some n) (mkAttempt now rounds (ts ++ [t]) (Some e) :: mkAttempt now' rounds' us None :: rest) =
    mkTrace [(peer_id s, x); (peer_id i, t)] (ts ++ t :: us) [0] (Some (Ok tt)).
Proof.
  intros Hs Hi Hmax Hn. unfold run_protocol_task. cbn [run_loop a_end a_now a_tensors a_rounds]. unfold handle.
  destruct (failure_settled now m (Some (peer_id s)) Hs) as (m' & Hm' & Hs' & Hsame). cbn -[run_loop get_retry_delay on_request_failure].
  rewrite Hm'. cbn [rbind]. unfold gives_up. rewrite Hmax. rewrite bool_decide_false by done. cbn [rbind].
  replace (n <=? 0 + 1) with false by lia. cbn [run_loop a_rounds a_now a_end a_tensors]. replace (1 <=? 0 + 1) with true by lia.
  rewrite (settled_sequence _ _ _ Hs'), (same_servers_choice _ _ _ Hsame), Hi. unfold prefix_trace.
  cbn [requests yielded sleeps outcome app]. rewrite List.last_last, app_nil_r, <- app_assoc. done.
Qed.

(** ** The list of servers *)

Lemma dict_of_list_snoc {K V} `{EqDecision K} (l : list (K * V)) (k : K) (v : V) : dict_of_list (l ++ [(k, v)]) = dset (dict_of_list l) k v.
Proof. unfold dict_of_list, dupdate. by rewrite foldl_app. Qed.

Lemma dict_of_list_wf {K V} `{EqDecision K} (l : list (K * V)) : dwf (dict_of_list l).
Proof. induction l as [|[k v] l IH] using rev_ind; [apply dwf_nil|]. rewrite dict_of_list_snoc. by apply dwf_dset. Qed.

Lemma dict_of_list_last {K V} `{EqDecision K} (l : list (K * V)) : forall k v,
  dget (dict_of_list l) k = Some v <-> exists before after, l = before ++ (k, v) :: after /\ (k ∉ after.*1).
Proof.
  induction l as [|[k0 v0] l IH] using rev_ind; intros k v.
  - split; [done|]. intros (b & a & E & _). by destruct b.
  - rewrite dict_of_list_snoc. destruct (decide (k0 = k)) as [-> |Hne].
    + rewrite dget_dset_eq. split.
      * intros [= ->]. exists l, []. split; [done|]. apply not_elem_of_nil.
      * intros (b & a & E & Hk). destruct a as [|y a _] using rev_ind; [apply app_inj_tail in E as [_ [= ->]]; done|].
        rewrite app_comm_cons, app_assoc in E. apply app_inj_tail in E as [_ <-]. exfalso. apply Hk. rewrite fmap_app. set_solver.
    + rewrite dget_dset_ne by done. rewrite IH. split; intros (b & a & E & Hk).
      * exists b, (a ++ [(k0, v0)]). split; [by rewrite E, <- app_assoc|]. rewrite fmap_app. set_solver.
      * destruct a as [|y a _] using rev_ind; [apply app_inj_tail in E as [_ [= ? ?]]; done|].
        rewrite app_comm_cons, app_assoc in E. apply app_inj_tail in E as [E _]. exists b, a. split; [done|].
        intros Hin. apply Hk. rewrite fmap_app. set_solver.
Qed.

Lemma values_keys {K V} (f : V -> K) (d : pydict K V) : (forall k v, (k, v) ∈ d -> k = f v) -> map f (dvalues d) = dkeys d.
Proof.
  unfold dvalues, dkeys. induction d as [|[k v] d IH]; intros Hd; [done|]. cbn. rewrite <- (Hd k v); [|left]. f_equal.
  apply IH. intros k' v' Hin. apply Hd. by right.
Qed.

(** After an update the list has one entry for each peer that was ever seen, and it is the latest one: an entry is replaced
    by a newer one of the same peer and never dropped.  The list by priority stays empty. *)
Theorem update_keeps_latest (s : RemoteServerInfo (PeerID := PeerID)) (new : list ModuleInfo) (now : Z) :
  let all := server_infos s ++ new in let s' := update_ s new now in
  NoDup (map peer_id (server_infos s')) /\ servers_by_priority s' = [] /\
  forall i, i ∈ server_infos s' <-> exists before after, all = before ++ i :: after /\ (peer_id i ∉ map peer_id after).
Proof.
  cbn. set (all := server_infos s ++ new). set (l := map (fun i => (peer_id i, i)) all).
  assert (Hkv : forall k v, (k, v) ∈ dict_of_list l -> k = peer_id v).
  { intros k v Hin. apply dwf_elem_dget in Hin; [|apply dict_of_list_wf]. apply dict_of_list_last in Hin as (b & a & E & _).
    assert (Hin : (k, v) ∈ l) by (rewrite E; set_solver). apply list_elem_of_fmap in Hin as (i & [= -> ->] & _). done. }
  split_and!.
  - rewrite (values_keys peer_id _ Hkv). apply dict_of_list_wf.
  - unfold sort_peers. induction (dvalues (dict_of_list l)) as [|x xs IH]; [done|]. cbn. by destruct (state_value x <? ONLINE).
  - intros i. unfold dvalues. rewrite list_elem_of_fmap. split.
    + intros ([k v] & -> & Hin). pose proof (Hkv _ _ Hin) as ->. apply dwf_elem_dget in Hin; [|apply dict_of_list_wf].
      apply dict_of_list_last in Hin as (b & a & E & Hk). unfold l in E. apply fmap_app_inv in E as (b' & r & -> & Er & Eall).
      symmetry in Er. apply fmap_cons_inv in Er as (i' & a' & [= _ <-] & -> & ->). exists b', a'. split; [done|].
      cbn [snd]. by rewrite <- list_fmap_compose in Hk.
    + intros (b & a & E & Hk). exists (peer_id i, i). split; [done|]. apply dget_elem_of, dict_of_list_last.
      exists (map (fun i => (peer_id i, i)) b), (map (fun i => (peer_id i, i)) a). split; [unfold l; rewrite E; by rewrite map_app|].
      change (map (fun i => (peer_id i, i)) a) with ((fun i : ModuleInfo => (peer_id i, i)) <$> a). by rewrite <- list_fmap_compose.
Qed.
End ClientTheorems.

(** *** Witnesses *)

Definition toy_config : ClientConfig := mkConfig None 1 60.
Definition toy_aggregator : PingAggregator (PeerID := Z) :=
  match ping 0 new_aggregator [7; 8] [Some (1 # 10); None] with Ok a => a | Raise _ => new_aggregator end.
Definition toy_manager : RemoteManager (PeerID := Z) :=
  mkManager toy_config (update_ make_empty [mkInfo 7 2 0; mkInfo 8 2 0] 0) (blacklist_init 15 2 None) toy_aggregator true false.
Definition toy_server : ModuleInfo (PeerID := Z) := mkInfo 7 2 0.

Lemma toy_settled : settled toy_manager.
Proof. split; [done|]. split; [vm_compute; discriminate|]. by apply blacklist_init_inv. Qed.

Lemma fastest_server_chosen_witness : toy_server ∈ server_infos (remote_servers_infos toy_manager).
Proof. apply (fastest_server_chosen 5 toy_manager toy_server). vm_compute. reflexivity. Defined.

Definition toy_failure : attempt (PeerID := Z) (Tensor := Z) := mkAttempt 3 [] [] (Some ConnectionError).

Lemma failing_server_asked_again_witness :
  (requests (run_protocol_task toy_manager None 9 (Some 3) [toy_failure; toy_failure; toy_failure])).*1 = [7; 7; 7].
Proof.
  apply (failing_server_asked_again toy_manager 9 3 toy_server [toy_failure; toy_failure; toy_failure]); try reflexivity.
  - exact toy_settled.
  - repeat constructor; by exists ConnectionError.
  - discriminate.
Defined.

Lemma retry_sends_last_output_witness :
  run_protocol_task toy_manager (Some toy_server) 9 (Some 2) [mkAttempt 3 [] ([1] ++ [2]) (Some ConnectionError); mkAttempt 4 [] [5] None] =
    mkTrace [(7, 9); (7, 2)] ([1] ++ 2 :: [5]) [0] (Some (Ok tt)).
Proof.
  apply (retry_sends_last_output toy_manager toy_server toy_server 9 2 [1] [5] 2 3 4 [] [] ConnectionError []); try reflexivity.
  exact toy_settled.
Defined.

