(* ===== verification/Search.v ===== *)
(** * The state of a GET request ([mesh/dht/node.py], [_SearchState], and the use of its results by [DHTNode])

    The dictionaries found by a search are objects: the one in the node's own storage is not copied, and merging another
    candidate into it changes the storage.  All dictionary objects of a node therefore live in one list, the heap, to which
    the tables of the storage and of the cache, and the searches, refer by index. *)

From S2P Require Import Prelude TimedStorage DHTID Storage Validation Protocol.

Section Search.
Context {Subkey : Type} `{EqS : EqDecision Subkey} `{OrdS : PyOrd Subkey} {LawS : PyOrdLaws Subkey}.
(** Values after [serializer.loads]. *)
Context {Value : Type}.
Abbreviation Dict := (DictionaryDHTValue Subkey bytes).

Variable loads : bytes -> result Value.
Variable dumps_subkey : Subkey -> bytes.
(** [record_validator.strip_value], the identity without a validator. *)
Variable strip : DHTRecord -> result bytes.

(** What a finished search gives: a value, or a dictionary of values with expirations. *)
Inductive Answer : Type := AValue (v : Value) | ADict (d : list (Subkey * ValueWithExpiration Value)).

Record SearchState : Type := mkSearch {
  key_id : Z;
  sufficient_expiration_time : option Z;  (* None: infinity *)
  binary_value : option (DHTValue bytes);
  found_expiration : option Z;
  source_node_id : option Z;
  future : option (option (ValueWithExpiration Answer));
}.

Definition new_search (key : Z) (sufficient : option Z) : SearchState := mkSearch key sufficient None None None None.

Definition finished (s : SearchState) : bool := match future s with Some _ => true | None => false end.
Definition found_something (s : SearchState) : bool := match found_expiration s with Some _ => true | None => false end.

Definition set_future (s : SearchState) (f : option (ValueWithExpiration Answer)) : SearchState :=
  mkSearch (key_id s) (sufficient_expiration_time s) (binary_value s) (found_expiration s) (source_node_id s) (Some f).

(** A value as the caller sees it: stripped of its signature and loaded. *)
Definition render (key : Z) (subkey value : bytes) (e : Z) : result Value :=
  let* key_bytes := to_bytes key in
  let* raw := strip (mkRecord key_bytes (Some subkey) value e) in
  loads raw.

Fixpoint render_entries (key : Z) (its : list (Subkey * ValueWithExpiration bytes))
    : result (list (Subkey * ValueWithExpiration Value)) :=
  match its with
  | [] => Ok []
  | (sk, VWE v e) :: rest =>
      let* x := render key (dumps_subkey sk) v e in
      let* l := render_entries key rest in
      Ok ((sk, VWE x e) :: l)
  end.

(** [finish_search] *)
Definition finish_search (now : Z) (heap : list Dict) (s : SearchState) : result (list Dict * SearchState) :=
  if finished s then Ok (heap, s)
  else
    match found_expiration s, binary_value s with
    | None, _ => Ok (heap, set_future s None)
    | Some e, Some (Binary v) =>
        let* x := render (key_id s) IS_REGULAR_VALUE v e in
        Ok (heap, set_future s (Some (VWE (AValue x) e)))
    | Some e, Some (Dictionary ref) =>
        let* d := of_option RuntimeError (heap !! ref) in
        let* (ts, its) := items now (entries d) in
        let* l := render_entries (key_id s) its in
        Ok (<[ref := mkDict ts (latest_expiration_time d)]> heap, set_future s (Some (VWE (ADict l) e)))
    | Some _, None => Ok (heap, s)
    end.

(** [candidate.expiration_time > (self.expiration_time or float("-inf"))]; note that 0 counts as absent. *)
Definition newer (e : Z) (o : option Z) : bool :=
  match o with Some l => (l =? 0) || (l <? e) | None => true end.

(** [max] of two sizes, where [None] is infinity. *)
Definition max_size (a b : option nat) : option nat :=
  match a, b with Some x, Some y => Some (Nat.max x y) | _, _ => None end.

(** Merge the entries of one dictionary object into another. *)
Definition merge_into (now : Z) (heap : list Dict) (target from : nat) : result (list Dict) :=
  let* c := of_option RuntimeError (heap !! from) in
  let* d := of_option RuntimeError (heap !! target) in
  let* (ts, its) := items now (entries c) in
  let heap1 := <[from := mkDict ts (latest_expiration_time c)]> heap in
  let* d1 := of_option RuntimeError (heap1 !! target) in
  let d2 := mkDict (mkTS (frozen (entries d1)) (max_size (maxsize (entries d)) (maxsize (entries c))) (data (entries d1))
                      (expiration_heap (entries d1)) (key_to_heap (entries d1))) (latest_expiration_time d1) in
  let* d3 := foldM_r (fun d it => rmap fst (dict_store now d it.1 (value it.2) (expiration_time it.2))) d2 its in
  Ok (<[target := d3]> heap1).

(** [add_candidate] *)
Definition add_candidate (now : Z) (heap : list Dict) (s : SearchState)
    (candidate : option (ValueWithExpiration (DHTValue bytes))) (source : option Z) : result (list Dict * SearchState) :=
  match candidate with
  | None => Ok (heap, s)
  | Some (VWE v e) =>
      if finished s then Ok (heap, s)
      else
        let* (heap1, bv) :=
          match v, binary_value s with
          | Dictionary from, Some (Dictionary target) =>
              let* h := merge_into now heap target from in Ok (h, binary_value s)
          | _, _ => Ok (heap, if newer e (found_expiration s) then Some v else binary_value s)
          end in
        if newer e (found_expiration s) then
          let s1 := mkSearch (key_id s) (sufficient_expiration_time s) bv (Some e) source (future s) in
          if match sufficient_expiration_time s with Some x => x <=? e | None => false end
          then finish_search now heap1 s1
          else Ok (heap1, s1)
        else Ok (heap1, mkSearch (key_id s) (sufficient_expiration_time s) bv (found_expiration s) (source_node_id s) (future s))
  end.

(** Candidates one after the other, each with its source. *)
Definition add_candidates (now : Z) (heap : list Dict) (s : SearchState)
    (l : list (option (ValueWithExpiration (DHTValue bytes)) * option Z)) : result (list Dict * SearchState) :=
  foldM_r (fun hs c => add_candidate now hs.1 hs.2 c.1 c.2) (heap, s) l.

(** ** Reusing a finished search for concurrent requests *)

(** [max(finished.expiration_time, finished.sufficient_expiration_time)] *)
Definition threshold (e : Z) (sufficient : option Z) : option Z :=
  match sufficient with Some x => Some (Z.max e x) | None => None end.

Definition at_least (t sufficient : option Z) : bool :=
  match t, sufficient with
  | None, _ => true
  | Some _, None => false
  | Some a, Some b => b <=? a
  end.

(** The loop of [_reuse_finished_search_result]; [pending] is listed in ascending order of the sufficient expiration
    time, the reverse of the sorted set.  The searches that are finished and removed come first. *)
Fixpoint reuse_loop (now : Z) (heap : list Dict) (t : option Z) (candidate : ValueWithExpiration (DHTValue bytes))
    (source : option Z) (pending : list SearchState) : result (list Dict * list SearchState * list SearchState) :=
  match pending with
  | [] => Ok (heap, [], [])
  | p :: rest =>
      if at_least t (sufficient_expiration_time p) then
        let* (heap1, p1) := add_candidate now heap p (Some candidate) source in
        let* (heap2, p2) := finish_search now heap1 p1 in
        let* (heap3, popped, left_) := reuse_loop now heap2 t candidate source rest in
        Ok (heap3, p2 :: popped, left_)
      else Ok (heap, [], pending)
  end.

(** [_reuse_finished_search_result]; without a result, the finished search itself is discarded. *)
Definition reuse_finished_search_result (now : Z) (heap : list Dict) (fin : SearchState) (is_finished : SearchState -> bool)
    (pending : list SearchState) : result (list Dict * list SearchState * list SearchState) :=
  match found_expiration fin, binary_value fin with
  | Some e, Some v =>
      reuse_loop now heap (threshold e (sufficient_expiration_time fin)) (VWE v e) (source_node_id fin) pending
  | _, _ => Ok (heap, [], filter (fun p => is_finished p = false) pending)
  end.

(** ** Caching a result *)

Definition expiration_or_inf (o : option (ValueWithExpiration (DHTValue bytes))) : option Z :=
  match o with Some x => Some (expiration_time x) | None => None end.

Definition above_both (e : Z) (a b : option Z) : bool := above e a && above e b.

(** The nodes to which a found value is sent: the nearest ones except the source. *)
Fixpoint nodes_to_cache (limit : nat) (source : option Z) (nearest : list Z) : list Z :=
  match nearest with
  | [] => []
  | n :: rest =>
      if decide (Some n = source) then nodes_to_cache limit source rest
      else n :: match limit with
                | S (S l) => nodes_to_cache (S l) source rest
                | _ => []
                end
  end.

(** [_cache_new_result]: the tables of storage and cache, and the nodes asked to cache the value. *)
Definition cache_new_result (now : Z) (storage_tb cache_tb : TimedStorage Z (DHTValue bytes)) (s : SearchState)
    (nearest : list Z) (cache_locally is_refresh : bool) (cache_nearest : nat)
    : result (TimedStorage Z (DHTValue bytes) * TimedStorage Z (DHTValue bytes) * list Z) :=
  match found_expiration s, binary_value s with
  | Some e, Some v =>
      let* (st, in_storage) := get now storage_tb (key_id s) in
      let* (ct, in_cache) := get now cache_tb (key_id s) in
      if above_both e (expiration_or_inf in_storage) (expiration_or_inf in_cache) then
        let* ct' := if cache_locally || is_refresh then rmap fst (store now ct (key_id s) v e) else Ok ct in
        Ok (st, ct', match cache_nearest with O => [] | _ => nodes_to_cache cache_nearest (source_node_id s) nearest end)
      else Ok (st, ct, [])
  | _, _ => Ok (storage_tb, cache_tb, [])
  end.

(** ** Lemmas *)

(** A candidate with a plain value: value, expiration, source. *)
Abbreviation plain := (bytes * Z * Z)%type.
Definition as_candidate (c : plain) : option (ValueWithExpiration (DHTValue bytes)) * option Z :=
  (Some (VWE (Binary c.1.1) c.1.2), Some c.2).
Definition exp_of (c : plain) : Z := c.1.2.

(** [e] is enough for a request that asks for [sufficient]. *)
Definition suffices (sufficient : option Z) (e : Z) : bool :=
  match sufficient with Some x => x <=? e | None => false end.

(** The candidate a search has settled on after [cs]. *)
Record chosen (sufficient : option Z) (cs pre : list plain) (c : plain) (post : list plain) : Prop := {
  ch_split : cs = pre ++ c :: post;
  ch_before : Forall (fun x => exp_of x < exp_of c /\ suffices sufficient (exp_of x) = false) pre;
  ch_after : suffices sufficient (exp_of c) = false -> Forall (fun x => exp_of x <= exp_of c) post;
}.

Lemma suffices_mono sufficient a b : a <= b -> suffices sufficient a = true -> suffices sufficient b = true.
Proof. destruct sufficient; cbn; [|done]. intros ? H. propify. apply Z.leb_le. lia. Qed.

Section Plain.
Context (now : Z) (heap : list Dict) (key : Z) (sufficient : option Z).

(** What a search looks like after the candidates [cs]. *)
Definition search_after (cs : list plain) (s : SearchState) : Prop :=
  key_id s = key /\ sufficient_expiration_time s = sufficient /\
  ((cs = [] /\ found_expiration s = None /\ future s = None) \/
   exists pre c post, chosen sufficient cs pre c post /\ 0 < exp_of c /\ found_expiration s = Some (exp_of c) /\
     binary_value s = Some (Binary c.1.1) /\ source_node_id s = Some c.2 /\
     match future s with
     | None => suffices sufficient (exp_of c) = false
     | Some f => suffices sufficient (exp_of c) = true /\
                 exists x, render key IS_REGULAR_VALUE c.1.1 (exp_of c) = Ok x /\ f = Some (VWE (AValue x) (exp_of c))
     end).

Lemma chosen_snoc cs pre c post y :
  chosen sufficient cs pre c post -> suffices sufficient (exp_of c) = true \/ exp_of y <= exp_of c ->
  chosen sufficient (cs ++ [y]) pre c (post ++ [y]).
Proof.
  intros [-> Hb Ha] Hy. split; [by rewrite <- app_assoc|done|]. intros Hs. apply Forall_app. split; [auto|].
  repeat constructor. destruct Hy as [Hy|Hy]; [congruence|done].
Qed.

Lemma chosen_new cs pre c post y :
  chosen sufficient cs pre c post -> suffices sufficient (exp_of c) = false -> exp_of c < exp_of y ->
  chosen sufficient (cs ++ [y]) cs y [].
Proof.
  intros [-> Hb Ha] Hs Hlt. split; [done| |constructor]. apply Forall_app. split.
  - eapply Forall_impl; [exact Hb|]. cbn. intros x [? ?]. split; [lia|done].
  - constructor; [done|]. eapply Forall_impl; [exact (Ha Hs)|]. cbn. intros x Hx. split; [lia|].
    apply not_true_iff_false. intros Hx'. pose proof (suffices_mono _ _ _ Hx Hx'). congruence.
Qed.

(** One more candidate. *)
Lemma add_plain cs s y :
  search_after cs s -> 0 < exp_of y -> (exists x, render key IS_REGULAR_VALUE y.1.1 (exp_of y) = Ok x) ->
  exists s', add_candidate now heap s (as_candidate y).1 (as_candidate y).2 = Ok (heap, s') /\ search_after (cs ++ [y]) s'.
Proof.
  intros (Hk & Hsuf & Hst) Hpos [x Hx]. cbn. fold (exp_of y).
  assert (Htake : finished s = false -> chosen sufficient (cs ++ [y]) cs y [] -> newer (exp_of y) (found_expiration s) = true ->
    exists s', (let* (heap1, bv) := Ok (heap, if newer (exp_of y) (found_expiration s) then Some (Binary y.1.1) else binary_value s) in
      if newer (exp_of y) (found_expiration s) then
        let s1 := mkSearch (key_id s) (sufficient_expiration_time s) bv (Some (exp_of y)) (Some y.2) (future s) in
        if match sufficient_expiration_time s with Some x => x <=? exp_of y | None => false end
        then finish_search now heap1 s1 else Ok (heap1, s1)
      else Ok (heap1, mkSearch (key_id s) (sufficient_expiration_time s) bv (found_expiration s) (source_node_id s) (future s)))
    = Ok (heap, s') /\ search_after (cs ++ [y]) s').
  { intros Hf Hch Hn. rewrite Hn. cbn [rbind]. rewrite Hsuf. fold (suffices sufficient (exp_of y)).
    assert (Hfut : future s = None) by (unfold finished in Hf; by destruct (future s)).
    destruct (suffices sufficient (exp_of y)) eqn:Es.
    - unfold finish_search. cbn. rewrite Hfut. cbn. rewrite Hk, Hx. cbn. eexists. split; [done|].
      split; [done|]. split; [done|]. right. exists cs, y, []. cbn. split_and!; try done. by exists x.
    - eexists. split; [done|]. split; [done|]. split; [done|]. right. exists cs, y, []. cbn. rewrite Hfut. done. }
  destruct Hst as [(-> & Hfe & Hfu)|(pre & c & post & Hch & Hc & Hfe & Hbv & Hsrc & Hfu)].
  - assert (Hf : finished s = false) by (unfold finished; by rewrite Hfu). rewrite Hf. apply Htake; [done|by split|by rewrite Hfe].
  - destruct (future s) as [f|] eqn:Ef.
    + assert (Hf : finished s = true) by (unfold finished; by rewrite Ef). rewrite Hf. exists s. split; [done|].
      split; [done|]. split; [done|]. right. exists pre, c, (post ++ [y]). rewrite Ef.
      split; [|done]. apply chosen_snoc; [done|]. left. apply Hfu.
    + assert (Hf : finished s = false) by (unfold finished; by rewrite Ef). rewrite Hf.
      destruct (decide (exp_of c < exp_of y)) as [Hlt|Hge].
      * apply Htake; [done|by eapply chosen_new|]. rewrite Hfe. cbn. apply orb_true_iff. right. by apply Z.ltb_lt.
      * assert (Hn : newer (exp_of y) (found_expiration s) = false).
        { rewrite Hfe. cbn. apply orb_false_iff. split; [apply Z.eqb_neq; lia|apply Z.ltb_ge; lia]. }
        rewrite Hn. cbn. eexists. split; [done|]. split; [done|]. split; [done|]. right.
        exists pre, c, (post ++ [y]). cbn. rewrite ?Ef. split; [|done]. apply chosen_snoc; [done|]. right. lia.
Qed.

Lemma add_plains cs : forall done_ s,
  search_after done_ s -> Forall (fun c => 0 < exp_of c /\ exists x, render key IS_REGULAR_VALUE c.1.1 (exp_of c) = Ok x) cs ->
  exists s', add_candidates now heap s (map as_candidate cs) = Ok (heap, s') /\ search_after (done_ ++ cs) s'.
Proof.
  unfold add_candidates. induction cs as [|y cs IH]; intros done_ s Hs Hf; cbn [map foldM_r].
  { exists s. by rewrite app_nil_r. }
  apply Forall_cons in Hf as [[Hp Hr] Hf]. destruct (add_plain done_ s y Hs Hp Hr) as (s1 & Ha & Hs1).
  cbn [fst snd]. rewrite Ha. cbn [rbind]. destruct (IH _ _ Hs1 Hf) as (s' & Hs' & Hd). rewrite <- app_assoc in Hd. eauto.
Qed.
End Plain.

Lemma finish_plain now (heap : list Dict) key sufficient cs s :
  search_after key sufficient cs s ->
  Forall (fun c => exists x, render key IS_REGULAR_VALUE c.1.1 (exp_of c) = Ok x) cs ->
  exists s', finish_search now heap s = Ok (heap, s') /\ finished s' = true.
Proof.
  intros (Hk & Hsuf & [(-> & Hfe & Hfu)|(pre & c & post & Hch & Hc & Hfe & Hbv & Hsrc & Hfu)]) Hf;
    unfold finish_search; destruct (finished s) eqn:E; eauto.
  - rewrite Hfe. eauto.
  - rewrite Hfe, Hbv, Hk. rewrite Forall_forall in Hf. destruct (Hf c) as [x Hx].
    { rewrite (ch_split _ _ _ _ _ Hch). set_solver. }
    rewrite Hx. cbn. eauto.
Qed.

(** A pending request for [key] that has seen plain candidates only. *)
Definition pending_ok (key : Z) (p : SearchState) : Prop :=
  exists cs, search_after key (sufficient_expiration_time p) cs p /\
    Forall (fun c => exists x, render key IS_REGULAR_VALUE c.1.1 (exp_of c) = Ok x) cs.

Lemma reuse_loop_spec now (heap : list Dict) key t (y : plain) pending :
  0 < exp_of y -> (exists x, render key IS_REGULAR_VALUE y.1.1 (exp_of y) = Ok x) -> Forall (pending_ok key) pending ->
  exists taken popped left_, reuse_loop now heap t (VWE (Binary y.1.1) (exp_of y)) (Some y.2) pending = Ok (heap, popped, left_) /\
    pending = taken ++ left_ /\ length popped = length taken /\ Forall (fun p => finished p = true) popped /\
    Forall (fun p => at_least t (sufficient_expiration_time p) = true) taken /\
    match left_ with [] => True | p :: _ => at_least t (sufficient_expiration_time p) = false end.
Proof.
  intros Hpos Hr. induction pending as [|p rest IH]; intros Hf; cbn [reuse_loop].
  { exists [], [], []. by split_and!. }
  apply Forall_cons in Hf as [(cs & Hs & Hcs) Hf]. destruct (at_least t (sufficient_expiration_time p)) eqn:E.
  - destruct (add_plain now heap _ _ cs p y Hs Hpos Hr) as (p1 & Ha & Hs1). cbn [as_candidate fst snd] in Ha. unfold as_candidate in Ha. cbn [fst snd] in Ha. unfold exp_of at 1. rewrite Ha. fold (exp_of y). cbn [rbind].
    destruct (finish_plain now heap _ _ _ _ Hs1) as (p2 & -> & Hfin).
    { apply Forall_app. split; [done|]. by repeat constructor. }
    cbn [rbind]. destruct (IH Hf) as (taken & popped & left_ & -> & -> & Hlen & Hp & Ht & Hl). cbn [rbind].
    exists (p :: taken), (p2 :: popped), left_. split_and!; [done|done|cbn; lia|by constructor|by constructor|done].
  - exists [], [], (p :: rest). by split_and!.
Qed.

Lemma nodes_to_cache_spec limit source nearest :
  (0 < limit)%nat -> (length (nodes_to_cache limit source nearest) <= limit)%nat /\
  Forall (fun n => n ∈ nearest /\ Some n <> source) (nodes_to_cache limit source nearest).
Proof using Type.
  clear loads dumps_subkey strip.
  revert limit. induction nearest as [|n rest IH]; intros limit Hl; cbn [nodes_to_cache]; [split; [cbn; lia|constructor]|].
  destruct (decide (Some n = source)).
  - destruct (IH limit Hl) as [H1 H2]. split; [done|]. eapply Forall_impl; [exact H2|].
    intros x [Hx ?]. split; [by apply list_elem_of_further|done].
  - destruct limit as [|[|l]]; [lia|split; [cbn; lia|constructor; [split; [apply list_elem_of_here|done]|constructor]]|].
    destruct (IH (S l) ltac:(lia)) as [H1 H2]. split; [cbn [length]; lia|]. constructor; [split; [apply list_elem_of_here|done]|].
    eapply Forall_impl; [exact H2|].
    intros x [Hx ?]. split; [by apply list_elem_of_further|done].
Qed.

(** * Theorems *)

(** A GET returns the best value it has seen.  Over any sequence of plain candidates, the answer is the first one that
    lives long enough for the request, and if there is none, the first one with the greatest expiration
    time (so a request for the latest value gets the latest); it is [None] exactly when nothing was
    found. *)
Theorem search_returns_best now (heap : list Dict) key sufficient (cs : list plain) :
  Forall (fun c => 0 < exp_of c /\ exists x, render key IS_REGULAR_VALUE c.1.1 (exp_of c) = Ok x) cs ->
  exists s, (let* (h, s) := add_candidates now heap (new_search key sufficient) (map as_candidate cs) in
             finish_search now h s) = Ok (heap, s) /\
    match future s with
    | Some None => cs = []
    | Some (Some (VWE (AValue x) e)) =>
        exists pre c post, chosen sufficient cs pre c post /\ exp_of c = e /\
          render key IS_REGULAR_VALUE c.1.1 e = Ok x /\ source_node_id s = Some c.2
    | _ => False
    end.
Proof.
  intros Hf. destruct (add_plains now heap key sufficient cs [] (new_search key sufficient)) as (s & -> & Hs); [|done|].
  { split; [done|]. split; [done|]. by left. }
  cbn [rbind]. cbn [app] in Hs. destruct Hs as (Hk & Hsuf & [(-> & Hfe & Hfu)|(pre & c & post & Hch & Hc & Hfe & Hbv & Hsrc & Hfu)]).
  - exists (set_future s None). unfold finish_search, finished. rewrite Hfu, Hfe. done.
  - unfold finish_search, finished. destruct (future s) as [f|] eqn:Ef.
    + destruct Hfu as (_ & x & Hx & ->). exists s. split; [done|]. rewrite Ef. exists pre, c, post. done.
    + rewrite Hfe, Hbv, Hk. rewrite Forall_forall in Hf. destruct (Hf c) as [_ [x Hx]].
      { rewrite (ch_split _ _ _ _ _ Hch). set_solver. }
      rewrite Hx. cbn. eexists. split; [done|]. cbn. exists pre, c, post. done.
Qed.

(** A GET of the latest value writes into the node's own storage.  When the node stores a dictionary under the
    key and a peer answers with another one, the entries of the answer are merged into the stored
    object: after the search the storage serves them, although no POST validation has accepted
    them. *)
Theorem get_writes_into_storage now (st : DHTLocalStorage Subkey bytes) key own peer r o d c ts sk v e e' :
  ls_inv st -> dget (data (table st)) key = Some (VWE (Dictionary r) o) -> objects st !! r = Some d ->
  items now (entries c) = Ok (ts, [(sk, VWE v e)]) -> accepts now (entries d) sk e = true ->
  exists heap s, add_candidates now (objects st ++ [c]) (new_search key None)
      [(Some (VWE (Dictionary r) o), Some own); (Some (VWE (Dictionary (length (objects st))) e'), Some peer)] = Ok (heap, s) /\
    exists es, read (mkLS heap (table st)) key = Some (CDict es, o) /\ dget es sk = Some (VWE v e).
Proof.
  intros Hi Hk Hr Hits Hacc. assert (Hok : dict_ok d) by (eapply Forall_lookup_1; [apply Hi|done]).
  pose proof Hok as (Hwf & Hfz & Hmx). pose proof (lookup_lt_Some _ _ _ Hr) as Hlt.
  unfold add_candidates. cbn [foldM_r fst snd]. unfold add_candidate at 1. cbn. unfold merge_into.
  rewrite list_lookup_middle by done. cbn. rewrite (lookup_app_l_Some _ _ _ _ Hr). cbn. rewrite Hits. cbn.
  rewrite list_lookup_insert_ne by lia. rewrite (lookup_app_l_Some _ _ _ _ Hr). cbn. rewrite Hmx. cbn.
  assert (Hd : mkDict (mkTS (frozen (entries d)) None (data (entries d)) (expiration_heap (entries d)) (key_to_heap (entries d)))
                 (latest_expiration_time d) = d) by (destruct d as [[] ?]; cbn in Hmx; by rewrite Hmx).
  rewrite Hd. destruct (dict_store_spec now d sk v e Hok) as (d' & -> & _ & _ & Hst). cbn. rewrite Hacc in Hst.
  assert (He : now <= e) by (by apply (accepts_unfrozen now (entries d) sk)).
  assert (Hg : dget (data (entries d')) sk = Some (VWE v e)) by (by apply (store_true_data now (entries d))).
  set (heap := <[r := d']> _).
  assert (Hread : exists es, read (mkLS heap (table st)) key = Some (CDict es, o) /\ dget es sk = Some (VWE v e)).
  { exists (data (entries d')). unfold read. cbn. rewrite Hk. subst heap.
    rewrite list_lookup_insert_eq by (rewrite length_insert, length_app; lia). done. }
  destruct (_ || _); eauto.
Qed.

(** When a search with a plain result finishes, exactly the pending requests that its result (or its thoroughness)
    satisfies are taken from the front of the queue, and each of them is answered. *)
Theorem reuse_answers_pending now (heap : list Dict) fin y isf pending :
  found_expiration fin = Some (exp_of y) -> binary_value fin = Some (Binary y.1.1) -> source_node_id fin = Some y.2 ->
  0 < exp_of y -> (exists x, render (key_id fin) IS_REGULAR_VALUE y.1.1 (exp_of y) = Ok x) ->
  Forall (pending_ok (key_id fin)) pending ->
  exists taken popped left_, reuse_finished_search_result now heap fin isf pending = Ok (heap, popped, left_) /\
    pending = taken ++ left_ /\ length popped = length taken /\ Forall (fun p => finished p = true) popped /\
    let t := threshold (exp_of y) (sufficient_expiration_time fin) in
    Forall (fun p => at_least t (sufficient_expiration_time p) = true) taken /\
    match left_ with [] => True | p :: _ => at_least t (sufficient_expiration_time p) = false end.
Proof.
  intros He Hv Hs Hpos Hr Hf. unfold reuse_finished_search_result. rewrite He, Hv, Hs. by apply reuse_loop_spec with (key := key_id fin).
Qed.

(** A found value is put into the local cache and sent to other nodes only if it is strictly newer than what the
    storage and the cache hold, and then to at most [cache_nearest] of the nearest nodes, never back
    to its source. *)
Theorem cache_only_newer now stb ctb s nearest locally refresh limit stb' ctb' nodes :
  wf stb -> wf ctb ->
  cache_new_result now stb ctb s nearest locally refresh limit = Ok (stb', ctb', nodes) ->
  (length nodes <= limit)%nat /\ Forall (fun n => n ∈ nearest /\ Some n <> source_node_id s) nodes /\
  (nodes <> [] -> exists e, found_expiration s = Some e /\
     (forall x, dget (data stb') (key_id s) = Some x -> expiration_time x < e) /\
     forall x c, get now ctb (key_id s) = Ok (c, Some x) -> expiration_time x < e).
Proof using Type.
  clear loads dumps_subkey strip.
  intros Hw1 Hw2. unfold cache_new_result.
  destruct (found_expiration s) as [e|]; [|intros; simplify_eq; split_and!; [cbn; lia|constructor|done]].
  destruct (binary_value s) as [v|]; [|intros; simplify_eq; split_and!; [cbn; lia|constructor|done]].
  destruct (get_effect now stb (key_id s) Hw1) as (st & -> & _). cbn [rbind].
  destruct (get_effect now ctb (key_id s) Hw2) as (ct & -> & _). cbn [rbind].
  destruct (above_both e _ _) eqn:E; [|intros; simplify_eq; split_and!; [cbn; lia|constructor|done]].
  intros H. mon_inv. simplify_eq. apply andb_true_iff in E as [E1 E2].
  assert (Hn : (0 < limit)%nat \/ limit = 0%nat) by lia. split; [|split].
  - destruct Hn as [Hn| ->]; [|done]. destruct (nodes_to_cache_spec limit (source_node_id s) nearest Hn). by destruct limit.
  - destruct Hn as [Hn| ->]; [|constructor]. destruct (nodes_to_cache_spec limit (source_node_id s) nearest Hn). by destruct limit.
  - intros _. exists e. split; [done|]. split.
    + intros x Hx. rewrite Hx in E1. cbn in E1. lia.
    + intros x c Hx. simplify_eq. match goal with H : dget _ _ = Some _ |- _ => rewrite H in E2 end. cbn in E2. lia.
Qed.
End Search.

(** ** Concrete searches: bytes as values, no validator *)

Definition raw_value (r : DHTRecord) : result bytes := Ok (rec_value r).
Abbreviation toy_sufficient := (Some 30).
Definition toy_candidates : list (bytes * Z * Z) := [([1], 10, 100); ([2], 20, 101); ([3], 20, 102)].

(** No candidate suffices; the first of the two latest ones is returned. *)
Lemma search_returns_best_witness :
  exists s, (let* (h, s) := add_candidates (Subkey:=Z) Ok (fun _ => []) raw_value 5 [] (new_search 77 toy_sufficient)
                              (map as_candidate toy_candidates) in
             finish_search Ok (fun _ => []) raw_value 5 h s) = Ok ([], s) /\
    future s = Some (Some (VWE (AValue [2]) 20)).
Proof.
  destruct (search_returns_best (Subkey:=Z) (Value:=bytes) Ok (fun _ => []) raw_value 5 [] 77 toy_sufficient toy_candidates)
    as (s & Hs & _).
  - repeat constructor; eexists; vm_compute; reflexivity.
  - exists s. split; [exact Hs|]. assert (Hc : exists s', (let* (h, s) := add_candidates (Subkey:=Z) Ok (fun _ => []) raw_value 5 []
        (new_search 77 toy_sufficient) (map as_candidate toy_candidates) in finish_search Ok (fun _ => []) raw_value 5 h s) = Ok ([], s') /\
      future s' = Some (Some (VWE (AValue [2]) 20))) by (eexists; split; [vm_compute; reflexivity|reflexivity]).
    destruct Hc as (s' & Hs' & Hf). rewrite Hs in Hs'. injection Hs' as <-. exact Hf.
Defined.

(** A storage with a dictionary under key 7, and a dictionary a peer answers with. *)
Abbreviation toy_dict_storage := (mkLS [mkDict (mkTS false None [(3, VWE [2] 20)] [(20, 3)] [(3, (20, 3))]) (Some 20)]
  (mkTS false None [(7, VWE (Dictionary 0) 20)] [(20, 7)] [(7, (20, 7))])).
Abbreviation toy_answer := (mkDict (mkTS false None [(4, VWE [9] 25)] [(25, 4)] [(4, (25, 4))]) (Some 25)).

Lemma get_writes_into_storage_witness :
  exists heap s, add_candidates (Subkey:=Z) Ok (fun _ => []) raw_value 5 (objects toy_dict_storage ++ [toy_answer]) (new_search 7 None)
      [(Some (VWE (Dictionary 0) 20), Some 1); (Some (VWE (Dictionary 1) 25), Some 2)] = Ok (heap, s) /\
    exists es, read (mkLS heap (table toy_dict_storage)) 7 = Some (CDict es, 20) /\ dget es 4 = Some (VWE [9] 25).
Proof.
  destruct (local_store_spec (storage_init (Subkey:=Z) (V:=bytes) None) 0 7 [2] 20 (Some 3) storage_init_inv)
    as (st & ok & Hs & Hi).
  assert (Hst : local_store (Subkey:=Z) (V:=bytes) 0 (storage_init None) 7 [2] 20 (Some 3) = Ok (toy_dict_storage, true))
    by (vm_compute; reflexivity).
  rewrite Hst in Hs. injection Hs as <- <-.
  apply (get_writes_into_storage (Value:=bytes) Ok (fun _ => []) raw_value 5 toy_dict_storage 7 1 2 0%nat 20 (mkDict (mkTS false None [(3, VWE [2] 20)] [(20, 3)] [(3, (20, 3))]) (Some 20)) toy_answer
           (entries toy_answer) 4 [9] 25 25 Hi); vm_compute; reflexivity.
Defined.

(** A finished search, one pending request that it satisfies and one that asks for more. *)
Definition toy_finished : SearchState (Subkey:=Z) (Value:=bytes) :=
  mkSearch 77 (Some 15) (Some (Binary [2])) (Some 20) (Some 101) (Some (Some (VWE (AValue [2]) 20))).

Lemma reuse_answers_pending_witness :
  exists popped left_, reuse_finished_search_result (Subkey:=Z) Ok (fun _ => []) raw_value 5 [] toy_finished (fun _ => true)
      [new_search 77 (Some 18); new_search 77 (Some 90)] = Ok ([], popped, left_) /\
    Forall (fun p => finished p = true) popped /\ length popped = 1%nat.
Proof.
  destruct (reuse_answers_pending (Subkey:=Z) (Value:=bytes) Ok (fun _ => []) raw_value 5 [] toy_finished ([2], 20, 101)
              (fun _ => true) [new_search 77 (Some 18); new_search 77 (Some 90)])
    as (taken & popped & left_ & Hr & _ & _ & Hp & _).
  - reflexivity.
  - reflexivity.
  - reflexivity.
  - reflexivity.
  - eexists. vm_compute. reflexivity.
  - assert (Hn : forall n, pending_ok (Subkey:=Z) Ok raw_value 77 (new_search (Value:=bytes) 77 (Some n)))
      by (intros n; exists []; split; [split; [reflexivity|split; [reflexivity|left; auto]]|constructor]).
    repeat constructor; apply Hn.
  - exists popped, left_. split; [exact Hr|]. split; [exact Hp|].
    assert (Hc : exists p l, reuse_finished_search_result (Subkey:=Z) Ok (fun _ => []) raw_value 5 [] toy_finished (fun _ => true)
      [new_search 77 (Some 18); new_search 77 (Some 90)] = Ok ([], [p], l)) by (do 2 eexists; vm_compute; reflexivity).
    destruct Hc as (p & l & Hc). rewrite Hr in Hc. injection Hc as -> _. reflexivity.
Defined.

Lemma cache_only_newer_witness :
  exists stb' ctb', cache_new_result 5 (init false None) (init false None) toy_finished [101; 102; 103] true false 1 =
    Ok (stb', ctb', [102]) /\ Forall (fun n => n ∈ [101; 102; 103] /\ Some n <> Some 101) [102].
Proof.
  do 2 eexists. split; [vm_compute; reflexivity|].
  destruct (cache_only_newer (Subkey:=Z) (Value:=bytes) 5 (init false None) (init false None) toy_finished [101; 102; 103] true false 1
    (init false None) (mkTS false None [(77, VWE (Binary [2]) 20)] [(20, 77)] [(77, (20, 77))]) [102]) as (_ & H & _).
  - apply wf_init.
  - apply wf_init.
  - vm_compute. reflexivity.
  - exact H.
Defined.
