(* ===== verification/Replicas.v ===== *)
(** * Storing on several nodes ([mesh/dht/node.py], the callback [on_found] of [DHTNode.store_many])

    Once the nodes nearest to a key are known, the value is sent to them, nearest first, until [num_replicas] of them have
    answered.  The calls run concurrently: one round of the outer loop waits until at least one of them is finished.  A round
    names the nodes whose calls have finished by then and what they answered, [None] when there was no
    response. *)

From S2P Require Import Prelude DHTID.

Section Replicas.
(** The node itself may be a candidate; [local] are the statuses of its own storage for the sub-keys. *)
Context (num_replicas : nat) (own : Z) (local : list bool).

Record ReplicaState : Type := mkReplicas {
  candidates : list Z;  (* untried, nearest first *)
  pending : list Z;
  responded : list Z;  (* num_successful_stores counts these *)
  contacted : list Z;
  store_ok : list (option bool);  (* one per sub-key *)
}.
Implicit Types (s : ReplicaState).

(** [for subkey, status in zip(current_subkeys, statuses): store_ok[...] = status]: the last answer wins. *)
Fixpoint overwrite (ok : list (option bool)) (statuses : list bool) : list (option bool) :=
  match ok, statuses with
  | _ :: ok', b :: st => Some b :: overwrite ok' st
  | _, _ => ok
  end.

(** [sorted(..., key=key_id.xor_distance)]: a stable insertion sort; [store_candidates.pop()] takes the nearest. *)
Fixpoint insert_by_distance (key n : Z) (l : list Z) : list Z :=
  match l with
  | [] => [n]
  | m :: l' => if xor_distance key n <=? xor_distance key m then n :: l else m :: insert_by_distance key n l'
  end.
Definition store_candidates (key : Z) (nearest : list Z) (exclude_self : bool) : list Z :=
  foldr (insert_by_distance key) [] (nearest ++ if exclude_self then [] else [own]).

Definition replicas_init (cands : list Z) (subkeys : nat) : ReplicaState :=
  mkReplicas cands [] [] [] (replicate subkeys None).

(** The inner loop: start calls while fewer than [num_replicas] have succeeded or are under way. *)
Fixpoint dispatch (cands pend resp cont : list Z) (ok : list (option bool)) : ReplicaState :=
  match cands with
  | [] => mkReplicas [] pend resp cont ok
  | n :: rest =>
      if (length resp + length pend <? num_replicas)%nat then
        if n =? own then dispatch rest pend (resp ++ [n]) (cont ++ [n]) (overwrite ok local)
        else dispatch rest (pend ++ [n]) resp (cont ++ [n]) ok
      else mkReplicas cands pend resp cont ok
  end.

Definition dispatch_all s : ReplicaState := dispatch (candidates s) (pending s) (responded s) (contacted s) (store_ok s).

(** One finished call. *)
Definition settle_one (answer : Z -> option (list bool)) (acc : list Z * list (option bool)) (n : Z) : list Z * list (option bool) :=
  match answer n with
  | Some statuses => (acc.1 ++ [n], overwrite acc.2 statuses)
  | None => acc
  end.

(** The calls to [fin] that were pending have finished. *)
Definition settle s (fin : list Z) (answer : Z -> option (list bool)) : ReplicaState :=
  let finished := filter (fun n => n ∈ fin) (pending s) in
  let '(resp, ok) := foldl (settle_one answer) (responded s, store_ok s) finished in
  mkReplicas (candidates s) (filter (fun n => n ∉ fin) (pending s)) resp (contacted s) ok.

Definition loop_goes_on s : bool :=
  (length (responded s) <? num_replicas)%nat && (bool_decide (candidates s <> []) || bool_decide (pending s <> [])).

Inductive Outcome : Type := Stored (s : ReplicaState) | Waiting (s : ReplicaState).

(** The outer loop. *)
Fixpoint store_loop s (rounds : list (list Z * (Z -> option (list bool)))) : Outcome :=
  if loop_goes_on s then
    let s1 := dispatch_all s in
    match pending s1 with
    | [] => Stored s1
    | _ => match rounds with
           | [] => Waiting s1
           | (fin, answer) :: rest => store_loop (settle s1 fin answer) rest
           end
    end
  else Stored s.

(** [status or False] *)
Definition final_status s : list bool := map (fun o => match o with Some b => b | None => false end) (store_ok s).

(** ** Lemmas *)

Record replicas_inv (cands : list Z) s : Prop := {
  ri_split : contacted s ++ candidates s = cands;
  ri_bound : (length (responded s) + length (pending s) <= num_replicas)%nat;
  ri_pending : forall n, n ∈ pending s -> n ∈ contacted s;
  ri_responded : forall n, n ∈ responded s -> n ∈ contacted s;
  ri_nodup : NoDup (responded s ++ pending s);
}.

Lemma dispatch_inv (all cands : list Z) : forall pend resp cont ok,
  NoDup all -> replicas_inv all (mkReplicas cands pend resp cont ok) ->
  let s := dispatch cands pend resp cont ok in
  replicas_inv all s /\ (candidates s = [] \/ (num_replicas <= length (responded s) + length (pending s))%nat) /\
  (length (candidates s) + length (pending s) <= length cands + length pend)%nat.
Proof.
  induction cands as [|n rest IH]; intros pend resp cont ok Hnd Hi; cbn [dispatch]; [split_and!; [done|by left|cbn; lia]|].
  destruct (length resp + length pend <? num_replicas)%nat eqn:E; propify.
  2: { split_and!; [done|right; cbn; lia|cbn; lia]. }
  destruct Hi as [Hs Hb Hp Hr Hn]. cbn in Hs, Hb, Hp, Hr, Hn.
  assert (Hnew : n ∉ cont) by (intros Hin; rewrite <- Hs in Hnd; apply NoDup_app in Hnd as (_ & Hd & _); apply (Hd n Hin); set_solver).
  assert (Hfresh : n ∉ resp ++ pend) by (rewrite elem_of_app; intros [?|?]; apply Hnew; auto).
  destruct (n =? own) eqn:Eo.
  - destruct (IH pend (resp ++ [n]) (cont ++ [n]) (overwrite ok local) Hnd) as (H1 & H2 & H3).
    { split; cbn; [by rewrite <- app_assoc|rewrite length_app; cbn; lia|set_solver|set_solver|].
      rewrite <- app_assoc. cbn. rewrite <- Permutation_middle. by constructor. }
    split_and!; [done|done|cbn [length] in *; lia].
  - destruct (IH (pend ++ [n]) resp (cont ++ [n]) ok Hnd) as (H1 & H2 & H3).
    { split; cbn; [by rewrite <- app_assoc|rewrite length_app; cbn; lia|set_solver|set_solver|].
      rewrite app_assoc. rewrite <- Permutation_cons_append. by constructor. }
    split_and!; [done|done|]. rewrite length_app in H3. cbn [length] in *. lia.
Qed.

Lemma settle_fold answer fin : forall resp ok,
  exists got, (foldl (settle_one answer) (resp, ok) fin).1 = resp ++ got /\ sublist got fin.
Proof.
  induction fin as [|n fin IH]; intros resp ok; cbn [foldl]; [exists []; by rewrite app_nil_r|].
  unfold settle_one at 2. cbn. destruct (answer n) as [st|].
  - destruct (IH (resp ++ [n]) (overwrite ok st)) as (got & -> & Hg). exists (n :: got). rewrite <- app_assoc. by split; [|constructor].
  - destruct (IH resp ok) as (got & -> & Hg). exists got. by split; [|constructor].
Qed.

Lemma filter_split_length {A : Type} (P : A -> Prop) `{!forall x, Decision (P x)} (l : list A) :
  (length (filter P l) + length (filter (fun x => ~ P x) l) = length l)%nat.
Proof. induction l as [|x l IH]; [done|]. rewrite !filter_cons. repeat case_decide; cbn; try lia; naive_solver. Qed.

Lemma filter_split_perm {A : Type} (P : A -> Prop) `{!forall x, Decision (P x)} (l : list A) :
  filter P l ++ filter (fun x => ~ P x) l ≡ₚ l.
Proof.
  induction l as [|x l IH]; [done|]. rewrite !filter_cons. destruct (decide (P x)) as [Hx|Hx].
  - rewrite decide_False by naive_solver. cbn. by rewrite IH.
  - rewrite decide_True by done. rewrite <- Permutation_middle. by rewrite IH.
Qed.

Lemma settle_inv all s fin answer :
  replicas_inv all s -> replicas_inv all (settle s fin answer) /\ candidates (settle s fin answer) = candidates s /\
  pending (settle s fin answer) = filter (fun n => n ∉ fin) (pending s).
Proof.
  intros [Hs Hb Hp Hr Hn]. unfold settle.
  destruct (settle_fold answer (filter (fun n => n ∈ fin) (pending s)) (responded s) (store_ok s)) as (got & Hg & Hsub).
  destruct (foldl _ _ _) as [resp ok]. cbn in Hg. subst resp. split; [|done].
  pose proof (filter_split_length (fun n => n ∈ fin) (pending s)) as Hlen. pose proof (sublist_length _ _ Hsub).
  assert (Hgot : forall n, n ∈ got -> n ∈ pending s).
  { intros n Hin. apply (sublist_subseteq _ _ Hsub) in Hin. by apply list_elem_of_filter in Hin as [_ Hin]. }
  split; cbn; [done|rewrite length_app; lia| | |].
  - intros n Hin. apply Hp. exact (proj2 (proj1 (list_elem_of_filter (fun n => n ∉ fin) _ n) Hin)).
  - intros n Hin. apply elem_of_app in Hin as [Hin|Hin]; auto.
  - rewrite <- app_assoc. apply NoDup_app in Hn as (N1 & N2 & N3). apply NoDup_app. split; [done|]. split.
    + intros n Hin Hin2. apply (N2 n Hin). apply elem_of_app in Hin2 as [?|Hin2]; [auto|].
      exact (proj2 (proj1 (list_elem_of_filter (fun n => n ∉ fin) _ n) Hin2)).
    + rewrite <- (filter_split_perm (fun n => n ∈ fin)) in N3.
      eapply sublist_NoDup; [exact N3|]. by apply sublist_app.
Qed.

(** When the loop ends: enough answers, or nobody left. *)
Definition settled s : Prop :=
  length (responded s) = num_replicas \/ (candidates s = [] /\ pending s = []).

Lemma goes_on_false s all : replicas_inv all s -> loop_goes_on s = false -> settled s.
Proof.
  intros Hi H. unfold loop_goes_on in H. apply andb_false_iff in H as [H|H].
  - propify. left. pose proof (ri_bound _ _ Hi). lia.
  - apply orb_false_iff in H as [H1 H2]. right. propify. split; [destruct (candidates s)|destruct (pending s)]; naive_solver.
Qed.

Lemma dispatched_done all s :
  replicas_inv all s -> (candidates s = [] \/ (num_replicas <= length (responded s) + length (pending s))%nat) ->
  pending s = [] -> settled s.
Proof. intros Hi [Hc|Hc] Hp; [by right|]. left. rewrite Hp in Hc. pose proof (ri_bound _ _ Hi). cbn in Hc. lia. Qed.

Lemma dispatch_all_inv all s :
  NoDup all -> replicas_inv all s -> replicas_inv all (dispatch_all s) /\
  (candidates (dispatch_all s) = [] \/
     (num_replicas <= length (responded (dispatch_all s)) + length (pending (dispatch_all s)))%nat) /\
  (length (candidates (dispatch_all s)) + length (pending (dispatch_all s)) <= length (candidates s) + length (pending s))%nat.
Proof. intros Hnd Hi. unfold dispatch_all. apply dispatch_inv; [done|]. by destruct s. Qed.

Lemma store_loop_inv all rounds : forall s,
  NoDup all -> replicas_inv all s ->
  match store_loop s rounds with
  | Stored s' => replicas_inv all s' /\ settled s'
  | Waiting s' => replicas_inv all s' /\ pending s' <> []
  end.
Proof.
  induction rounds as [|[fin answer] rest IH]; intros s Hnd Hi; cbn [store_loop];
    (destruct (loop_goes_on s) eqn:Eg; [|split; [done|by eapply goes_on_false]]);
    destruct (dispatch_all_inv all s Hnd Hi) as (Hd & Hc & _);
    (destruct (pending (dispatch_all s)) as [|n ns] eqn:Ep in |- *; [split; [done|by eapply dispatched_done]|]).
  - split; [done|by rewrite Ep].
  - apply IH; [done|]. by apply settle_inv.
Qed.

(** Every round in which the loop waits finishes at least one call. *)
Fixpoint fair s (rounds : list (list Z * (Z -> option (list bool)))) : Prop :=
  match rounds with
  | [] => True
  | (fin, answer) :: rest =>
      (pending (dispatch_all s) <> [] -> exists n, n ∈ pending (dispatch_all s) /\ n ∈ fin) /\
      fair (settle (dispatch_all s) fin answer) rest
  end.

Lemma store_loop_ends all rounds : forall s,
  NoDup all -> replicas_inv all s -> fair s rounds -> (length (candidates s) + length (pending s) <= length rounds)%nat ->
  exists s', store_loop s rounds = Stored s'.
Proof.
  induction rounds as [|[fin answer] rest IH]; intros s Hnd Hi Hf Hlen; cbn [store_loop];
    (destruct (loop_goes_on s) eqn:Eg; [|eauto]); destruct (dispatch_all_inv all s Hnd Hi) as (Hd & _ & Hm).
  - destruct (candidates s) eqn:Ec, (pending s) eqn:Ep; cbn in Hlen; try lia.
    destruct (pending (dispatch_all s)) eqn:Ep'; [eauto|]. cbn in Hm. lia.
  - destruct Hf as [Hhit Hf]. destruct (pending (dispatch_all s)) as [|n ns] eqn:Ep; [eauto|]. rewrite <- Ep in *.
    destruct (settle_inv all (dispatch_all s) fin answer Hd) as (Hi' & Hc' & Hp'). apply IH; [done|done|done|].
    rewrite Hc', Hp'. destruct Hhit as (m & Hm1 & Hm2); [by rewrite Ep|].
    pose proof (filter_split_length (fun n => n ∈ fin) (pending (dispatch_all s))) as Hfl.
    assert (Hpos : (0 < length (filter (fun n => n ∈ fin) (pending (dispatch_all s))))%nat).
    { apply Nat.neq_0_lt_0. intros Hz. apply length_zero_iff_nil in Hz. apply (not_elem_of_nil m). rewrite <- Hz.
      apply list_elem_of_filter. done. }
    cbn [length] in Hlen. lia.
Qed.

(** The candidates in order. *)
Definition nearer (key a b : Z) : Prop := xor_distance key a <= xor_distance key b.

Lemma insert_by_distance_perm key n l : insert_by_distance key n l ≡ₚ n :: l.
Proof.
  induction l as [|m l IH]; cbn; [done|]. destruct (_ <=? _); [done|]. rewrite IH. apply Permutation_swap.
Qed.

Lemma insert_by_distance_sorted key n l :
  StronglySorted (nearer key) l -> StronglySorted (nearer key) (insert_by_distance key n l).
Proof.
  induction 1 as [|m l Hl IH Hm]; cbn; [repeat constructor|]. destruct (_ <=? _) eqn:E; propify.
  - constructor; [by constructor|]. constructor; [done|]. eapply Forall_impl; [exact Hm|]. unfold nearer. intros. lia.
  - constructor; [done|]. rewrite insert_by_distance_perm. constructor; [unfold nearer; lia|done].
Qed.

Lemma store_candidates_spec key nearest ex :
  StronglySorted (nearer key) (store_candidates key nearest ex) /\
  store_candidates key nearest ex ≡ₚ nearest ++ (if ex then [] else [own]).
Proof.
  unfold store_candidates. induction (nearest ++ if ex then [] else [own]) as [|n l [IH1 IH2]]; cbn; [split; constructor|].
  split; [by apply insert_by_distance_sorted|]. by rewrite insert_by_distance_perm, IH2.
Qed.

(** * Theorems *)

(** C21: Storing a key always ends, whatever the peers answer, in at most as many rounds as there are candidates, as long
    as each round some call returns.  At most [num_replicas] calls are successful or under
    way at any time, nodes are contacted at most once, nearest to the key first, and when it
    ends either [num_replicas] different nodes have answered or every candidate was tried. *)
Theorem replicas_stored key nearest ex subkeys rounds :
  NoDup nearest -> own ∉ nearest ->
  let cands := store_candidates key nearest ex in
  let s0 := replicas_init cands subkeys in
  fair s0 rounds -> (length cands <= length rounds)%nat ->
  exists s, store_loop s0 rounds = Stored s /\ settled s /\
    (length (responded s) <= num_replicas)%nat /\ NoDup (responded s) /\ (forall n, n ∈ responded s -> n ∈ contacted s) /\
    contacted s ++ candidates s = cands /\ StronglySorted (nearer key) (contacted s).
Proof.
  intros Hnd Hown cands s0 Hf Hlen. destruct (store_candidates_spec key nearest ex) as [Hso Hpe]. fold cands in Hso, Hpe.
  assert (Hall : NoDup cands).
  { rewrite Hpe. destruct ex; [by rewrite app_nil_r|]. apply NoDup_app. split; [done|].
    split; [intros x Hx ->%list_elem_of_singleton; done|apply NoDup_singleton]. }
  assert (Hi : replicas_inv cands s0) by (split; cbn; [done|lia|set_solver|set_solver|constructor]).
  destruct (store_loop_ends cands rounds s0 Hall Hi Hf) as [s Hs]; [cbn; lia|].
  pose proof (store_loop_inv cands rounds s0 Hall Hi) as H. rewrite Hs in H. destruct H as [[H1 H2 H3 H4 H5] Hse].
  exists s. split_and!; try done; [lia|by apply NoDup_app in H5 as (? & _)|].
  rewrite <- H1 in Hso. clear -Hso. induction (contacted s) as [|x l IH]; [constructor|].
  cbn in Hso. apply StronglySorted_inv in Hso as [Hso Hx]. constructor; [auto|]. by apply Forall_app in Hx as [? _].
Qed.
End Replicas.

(** The status of a key is that of the last answer: one replica that refuses hides another one that stored. *)
Lemma last_answer_wins :
  match store_loop 2 0 [] (replicas_init [1; 2] 1)
          [([1], fun _ => Some [true]); ([2], fun _ => Some [false])] with
  | Stored s => final_status s = [false] /\ responded s = [1; 2]
  | Waiting _ => False
  end.
Proof. vm_compute. auto. Qed.

(** Three candidates, two replicas: node 1 does not respond, nodes 2 and 3 do. *)
Definition toy_rounds : list (list Z * (Z -> option (list bool))) :=
  [([1], fun _ => None); ([2], fun _ => Some [true]); ([3], fun _ => Some [true])].

Lemma replicas_stored_witness :
  exists s, store_loop 2 9 [] (replicas_init (store_candidates 9 0 [3; 1; 2] true) 1) toy_rounds = Stored s /\
    settled 2 s /\ NoDup (responded s).
Proof.
  destruct (replicas_stored 2 9 [] 0 [3; 1; 2] true 1 toy_rounds) as (s & Hs & Hse & _ & Hn & _).
  - apply (bool_decide_unpack _). vm_compute. exact I.
  - apply (bool_decide_unpack _). vm_compute. exact I.
  - cbn. split; [intros _; exists 1; split; apply list_elem_of_here|].
    split; [intros _; exists 2; split; apply list_elem_of_here|]. split; [intros _; exists 3; split; apply list_elem_of_here|exact I].
  - vm_compute. lia.
  - exists s. split; [exact Hs|]. split; [exact Hse|exact Hn].
Defined.
