(* ===== verification/NodeStore.v ===== *)
(** * Stores, look-ups by key and bootstrap ([mesh/dht/node.py], class [DHTNode])

    [store_many] hashes its keys, groups the items by identifier, signs the records of a group when the nearest nodes
    of its identifier are known, has them stored (the loop is in [Replicas]), and returns one status per item;
    [get_many] translates between keys and identifiers; [create] pings the initial peers.  Keys, sub-keys and values are
    Python objects: a key is a [bytes] object or another one.  SHA-1 and msgpack are parameters. *)

From S2P Require Import Prelude DHTID Routing Validation Replicas.

Section Keys.
Context {Obj Subkey Value : Type} `{EqO : EqDecision Obj} `{EqS : EqDecision Subkey}.
Context (sha1 : bytes -> bytes) (dumps : Obj -> bytes) (dumps_subkey : option Subkey -> bytes) (dumps_value : Value -> bytes).
(** The tuple [(key, subkey)] as an object. *)
Inductive DHTKey : Type := KBytes (b : bytes) | KObj (o : Obj).
Context (tup : DHTKey -> Subkey -> Obj).

#[export] Instance DHTKey_eq_dec : EqDecision DHTKey.
Proof. solve_decision. Defined.

(** [DHTID.generate(source=key)]: a [bytes] object is hashed as it is, anything else after [dumps]. *)
Definition generate_key (k : DHTKey) : result Z :=
  new (from_be (sha1 (match k with KBytes b => b | KObj o => dumps o end))).

(** ** [store_many] *)

Definition item : Type := DHTKey * option Subkey * Value * Z.
Definition ikey (it : item) : DHTKey * option Subkey := it.1.1.

Record StoreState : Type := mkStore {
  key_id_to_data : pydict Z (list item);
  unfinished_key_ids : list Z;
  store_ok : pydict (DHTKey * option Subkey) (option bool);
  events : list (DHTKey * option Subkey);  (* the [store_finished_events] that are set *)
}.

(** [key_id_to_data[DHTID.generate(source=key)].append(...)] *)
Definition add_item (d : pydict Z (list item)) (it : item) : result (pydict Z (list item)) :=
  let* id := generate_key it.1.1.1 in
  Ok (dset d id (match dget d id with Some l => l ++ [it] | None => [it] end)).

(** [if subkeys is None: subkeys = [None] * len(keys)] *)
Definition all_subkeys (keys : list DHTKey) (subkeys : option (list (option Subkey))) : list (option Subkey) :=
  match subkeys with None => replicate (length keys) None | Some l => l end.

(** The arguments of [store_many] are put in parallel; [expiration] is one number or a list. *)
Definition start_store (keys : list DHTKey) (values : list Value) (expiration : Z + list Z) (subkeys : option (list (option Subkey)))
    : result StoreState :=
  let expirations := match expiration with inl e => replicate (length keys) e | inr l => l end in
  let subkeys := all_subkeys keys subkeys in
  let* _ := py_assert ((length keys =? length subkeys)%nat && (length subkeys =? length values)%nat && (length values =? length expirations)%nat) in
  let items := zip (zip (zip keys subkeys) values) expirations in
  let* groups := foldM_r add_item [] items in
  Ok (mkStore groups (dkeys groups) (dict_of_list (map (fun ks => (ks, None)) (zip keys subkeys))) []).

(** The record of one item as it is stored: [validator.sign_value], if there is a validator, replaces its value. *)
Definition prepare_item (sign : option (DHTRecord -> result bytes)) (key_bytes : bytes) (it : item) : result DHTRecord :=
  let '(_, subkey, value, expiration) := it in
  let record := mkRecord key_bytes (Some (dumps_subkey subkey)) (dumps_value value) expiration in
  match sign with
  | None => Ok record
  | Some sign => let* value_bytes := sign record in Ok (replace_value record value_bytes)
  end.

(** What the node stores itself: [validate] is the validator for [POST], [store] the local storage, whose state is passed on. *)
Fixpoint local_stores {St} (validate : option (DHTRecord -> result bool)) (store : St -> option Subkey -> DHTRecord -> result (St * bool))
    (st : St) (l : list (option Subkey * DHTRecord)) : result (St * list bool) :=
  match l with
  | [] => Ok (st, [])
  | (subkey, record) :: rest =>
      let* valid := match validate with None => Ok true | Some v => v record end in
      let* (st1, ok) := if (valid : bool) then store st subkey record else Ok (st, false) in
      let* (st2, oks) := local_stores validate store st1 rest in
      Ok (st2, ok :: oks)
  end.

(** The end of [on_found]: the statuses are noted under the key of the first item of the group, and the events of its
    sub-keys are set. *)
Definition write_statuses (original_key : DHTKey) (data : list item) (statuses : list (option bool)) : list ((DHTKey * option Subkey) * option bool) :=
  zip (map (fun it => (original_key, it.1.1.2)) data) statuses.

Definition finish_key (s : StoreState) (f : Z * list (option bool)) : StoreState :=
  let '(key_id, statuses) := f in
  match dget (key_id_to_data s) key_id with
  | Some ((it0 :: _) as data) =>
      let original_key := it0.1.1.1 in
      mkStore (key_id_to_data s) (filter (fun k => k <> key_id) (unfinished_key_ids s))
        (dupdate (store_ok s) (write_statuses original_key data statuses))
        (events s ++ map (fun it => (original_key, it.1.1.2)) data)
  | _ => s
  end.

(** [on_found]: [local] are the statuses of the node's own storage, [rounds] the answers of the other nodes (see
    [Replicas]).  [None] while the stores are under way. *)
Definition on_found (num_replicas : nat) (own : Z) (sign : option (DHTRecord -> result bytes)) (exclude_self : bool) (s : StoreState)
    (key_id : Z) (nearest_nodes : list Z) (local : list bool) (rounds : list (list Z * (Z -> option (list bool))))
    : result (option StoreState) :=
  let* _ := py_assert (bool_decide (key_id ∈ unfinished_key_ids s)) in
  let* _ := py_assert (bool_decide (own ∉ nearest_nodes)) in
  let* data := dgetitem (key_id_to_data s) key_id in
  let* key_bytes := to_bytes key_id in
  let* records := mapM_r (prepare_item sign key_bytes) data in
  match store_loop num_replicas own local (replicas_init (store_candidates own key_id nearest_nodes exclude_self) (length data)) rounds with
  | Waiting _ => Ok None
  | Stored r => Ok (Some (finish_key s (key_id, Replicas.store_ok r)))
  end.

(** [(key, subkey) if subkey is not None else key] *)
Definition out_key (ks : DHTKey * option Subkey) : DHTKey := match ks.2 with Some sk => KObj (tup ks.1 sk) | None => ks.1 end.

(** What [store_many] returns once the search is over and every event is set; [None] while it waits. *)
Definition store_many_result (s : StoreState) : option (result (pydict DHTKey bool)) :=
  if forallb (fun ks => bool_decide (ks ∈ events s)) (dkeys (store_ok s)) then
    Some (let* _ := py_assert (bool_decide (unfinished_key_ids s = [])) in
          Ok (dict_of_list (map (fun e => (out_key e.1, match e.2 with Some b => b | None => false end)) (store_ok s))))
  else None.

(** [store] *)
Definition store_result (key : DHTKey) (subkey : option Subkey) (r : pydict DHTKey bool) : result bool := dgetitem r (out_key (key, subkey)).

(** ** [get] and [get_many] *)

Definition get_many {A} (keys : list DHTKey) (get_many_by_id : list Z -> result (pydict Z A)) : result (pydict DHTKey A) :=
  let* key_ids := mapM_r generate_key keys in
  let id_to_original_key := dict_of_list (zip key_ids keys) in
  let* results_by_id := get_many_by_id key_ids in
  let* pairs := mapM_r (fun e : Z * A => let* k := dgetitem id_to_original_key e.1 in Ok (k, e.2)) results_by_id in
  Ok (dict_of_list pairs).

Definition get {A} (key : DHTKey) (get_many_by_id : list Z -> result (pydict Z A)) : result A :=
  let* r := get_many [key] get_many_by_id in dgetitem r key.

(** ** Lemmas *)

Definition of_id (id : Z) (it : item) : Prop := generate_key it.1.1.1 = Ok id.
#[local] Instance of_id_dec id it : Decision (of_id id it) := decide (generate_key it.1.1.1 = Ok id).

(** A group holds the items with its identifier, in order. *)
Lemma add_item_groups items : forall d g, foldM_r add_item d items = Ok g -> forall id,
  dget g id = match dget d id with
              | Some l => Some (l ++ filter (of_id id) items)
              | None => match filter (of_id id) items with [] => None | l => Some l end
              end.
Proof.
  induction items as [|it items IH]; intros d g E id; cbn [foldM_r] in E.
  - injection E as <-. cbn. destruct (dget d id); [by rewrite app_nil_r|done].
  - destruct (add_item d it) as [d1|] eqn:E1; [|done]. cbn [rbind] in E. unfold add_item in E1. mon_inv.
    rewrite (IH _ _ E), filter_cons. unfold of_id at 3 6. destruct (decide (a = id)) as [->|Hne].
    + rewrite dget_dset_eq, !(decide_True _ _ E0). destruct (dget d id); [by rewrite <- app_assoc|done].
    + rewrite dget_dset_ne by done. rewrite !decide_False by congruence. done.
Qed.

Lemma groups_of items g : foldM_r add_item [] items = Ok g -> forall id,
  dget g id = match filter (of_id id) items with [] => None | l => Some l end.
Proof. intros E id. by rewrite (add_item_groups _ _ _ E). Qed.

Lemma group_member items g it k : foldM_r add_item [] items = Ok g -> it ∈ items -> (ikey it).1 = k ->
  exists id l, generate_key k = Ok id /\ dget g id = Some l /\ it ∈ l.
Proof.
  intros Hg Hit <-. change ((ikey it).1) with (it.1.1.1). destruct (generate_key it.1.1.1) as [id|e] eqn:Ei.
  - pose proof (groups_of _ _ Hg id) as Hgr. assert (Hf : it ∈ filter (of_id id) items) by (by apply list_elem_of_filter).
    destruct (filter (of_id id) items) as [|x l] eqn:Ef; [by apply elem_of_nil in Hf|]. eauto.
  - exfalso. apply list_elem_of_split in Hit as (l1 & l2 & ->). clear -Ei Hg. revert Hg. generalize (@nil (Z * list item)) as d.
    induction l1 as [|x l1 IH]; intros d E; cbn [app foldM_r] in E.
    + unfold add_item in E. by rewrite Ei in E.
    + destruct (add_item d x); [|done]. by eapply IH.
Qed.

Lemma dict_of_pairs (ks : list (DHTKey * option Subkey)) : NoDup ks -> dict_of_list (map (fun k => (k, @None bool)) ks) = map (fun k => (k, None)) ks.
Proof.
  intros Hnd. unfold dict_of_list. assert (Hgen : forall d, (forall k, k ∈ ks -> k ∉ dkeys d) -> dupdate d (map (fun k => (k, @None bool)) ks) = d ++ map (fun k => (k, None)) ks).
  { induction Hnd as [|k ks Hk Hnd IH]; intros d Hd; [by rewrite app_nil_r|]. cbn [map].
    change (dupdate d ((k, None) :: ?l)) with (dupdate (dset d k None) l). rewrite dkeys_dset_notin by (apply Hd; left).
    rewrite IH; [by rewrite <- app_assoc|]. intros k' Hk'. unfold dkeys. rewrite fmap_app, elem_of_app. cbn.
    rewrite list_elem_of_singleton. intros [Hin| ->]; [|done]. by apply (Hd k'); [right|]. }
  rewrite Hgen; [done|]. intros k _. apply not_elem_of_nil.
Qed.

(** ** Theorems *)

Section Returns.
Context (items : list item) (g : pydict Z (list item)).
Hypothesis grouped : foldM_r add_item [] items = Ok g.
(** Different keys have different identifiers, and the names of the results are different. *)
Hypothesis distinct_ids : forall it it', it ∈ items -> it' ∈ items -> generate_key it.1.1.1 = generate_key it'.1.1.1 -> it.1.1.1 = it'.1.1.1.
Hypothesis distinct_names : NoDup (map (fun it => out_key (ikey it)) items).

Lemma ikeys_nodup : NoDup (map ikey items).
Proof using distinct_names.
  clear -distinct_names. induction items as [|it l IH]; cbn [map] in *; [constructor|].
  apply NoDup_cons in distinct_names as [Hn Hd]. constructor; [|by apply IH].
  intros (it' & E & Hin)%list_elem_of_fmap. apply Hn. apply list_elem_of_fmap. exists it'. split; [by rewrite E|done].
Qed.

Lemma group_data id l : dget g id = Some l ->
  (forall it, it ∈ l -> it ∈ items /\ generate_key it.1.1.1 = Ok id) /\ NoDup (map ikey l) /\
  exists it0 rest, l = it0 :: rest /\ map (fun it => (it0.1.1.1, it.1.1.2)) l = map ikey l.
Proof using grouped distinct_ids distinct_names.
  intros Hg. rewrite (groups_of _ _ grouped) in Hg.
  assert (Hl : l = filter (of_id id) items /\ l <> []) by (destruct (filter (of_id id) items); [done|]; by injection Hg as <-).
  destruct Hl as [-> Hne].
  assert (Hin : forall it, it ∈ filter (of_id id) items -> it ∈ items /\ generate_key it.1.1.1 = Ok id)
    by (intros it [? ?]%list_elem_of_filter; done).
  split; [done|]. split.
  - eapply sublist_NoDup; [apply ikeys_nodup|]. apply fmap_sublist, sublist_filter.
  - destruct (filter (of_id id) items) as [|it0 rest] eqn:E; [done|]. exists it0, rest. split; [done|].
    apply map_ext_in. intros it Hit%list_elem_of_In. destruct (Hin it Hit) as [Hi1 Hi2], (Hin it0 ltac:(left)) as [H01 H02].
    rewrite (distinct_ids it0 it) by (done || congruence). by destruct it as [[[k sk] v] e].
Qed.

Definition answered (fs : list (Z * list (option bool))) (s : StoreState) : Prop :=
  key_id_to_data s = g /\ dkeys (store_ok s) = map ikey items /\
  unfinished_key_ids s = filter (fun k => k ∉ fs.*1) (dkeys g) /\
  (forall id l it, dget g id = Some l -> id ∈ fs.*1 -> it ∈ l -> ikey it ∈ events s) /\
  (forall id l sts i it b, dget g id = Some l -> (id, sts) ∈ fs -> l !! i = Some it -> sts !! i = Some b ->
     dget (store_ok s) (ikey it) = Some b).

Lemma answered_step fs id sts s l : answered fs s -> (id ∉ fs.*1) -> dget g id = Some l -> length sts = length l ->
  answered (fs ++ [(id, sts)]) (finish_key s (id, sts)).
Proof using grouped distinct_ids distinct_names.
  intros (Hg & Hk & Hu & He & Hs) Hnew Hl Hlen. destruct (group_data id l Hl) as (Hin & Hnd & it0 & rest & Hl0 & Hkeys).
  assert (Hz : (zip (map ikey l) sts).*1 = map ikey l) by (apply fst_zip; rewrite length_map; lia).
  unfold finish_key. rewrite Hg, Hl, Hl0. unfold write_statuses. rewrite <- Hl0, Hkeys.
  unfold answered. cbn [key_id_to_data unfinished_key_ids store_ok events]. split_and!; [done|..].
  - rewrite dkeys_dupdate_in; [done|]. intros k. rewrite Hz, Hk. intros (it & -> & Hit)%list_elem_of_fmap.
    apply list_elem_of_fmap. exists it. split; [done|]. by apply Hin.
  - rewrite Hu, list_filter_filter. apply list_filter_iff. intros k. rewrite fmap_app, not_elem_of_app. cbn. rewrite list_elem_of_singleton. tauto.
  - intros id' l' it Hl' Hid Hit. rewrite fmap_app, elem_of_app in Hid. rewrite elem_of_app. destruct Hid as [Hid|Hid]; [left; eauto|right].
    cbn in Hid. apply list_elem_of_singleton in Hid as ->. rewrite Hl in Hl'. injection Hl' as <-. by apply list_elem_of_fmap_2.
  - intros id' l' sts' i it b Hl' Hf Hi Hb. apply elem_of_app in Hf as [Hf|Hf].
    + rewrite dget_dupdate_other; [by eapply Hs|]. rewrite Hz. intros (it' & Ek & Hit')%list_elem_of_fmap.
      destruct (group_data id' l' Hl') as (Hin' & _). destruct (Hin' it) as [_ H1]; [by eapply list_elem_of_lookup_2|].
      destruct (Hin it' Hit') as [_ H2]. assert (Ekk : it.1.1.1 = it'.1.1.1) by (unfold ikey in Ek; by rewrite Ek).
      rewrite Ekk, H2 in H1. injection H1 as <-. apply Hnew. apply list_elem_of_fmap. by exists (id, sts').
    + apply list_elem_of_singleton in Hf as [= -> ->]. rewrite Hl in Hl'. injection Hl' as <-.
      apply dget_dupdate_nodup; [by rewrite Hz|]. apply list_elem_of_lookup. exists i. apply lookup_zip_with_Some.
      exists (ikey it), b. split; [done|]. split; [|done]. by rewrite list_lookup_fmap, Hi.
Qed.

(** Every status is returned under the name of its item, in whatever order the groups are finished. *)
Lemma all_answered (fs : list (Z * list (option bool))) s0 :
  answered [] s0 -> NoDup fs.*1 -> (forall id sts, (id, sts) ∈ fs -> exists l, dget g id = Some l /\ length sts = length l) ->
  answered fs (foldl finish_key s0 fs).
Proof using grouped distinct_ids distinct_names.
  intros H0. induction fs as [|[id sts] fs IH] using rev_ind; intros Hnd Hlen; [done|].
  rewrite fmap_app in Hnd. apply NoDup_app in Hnd as (Hnd & Hdis & _). rewrite foldl_app. cbn [foldl].
  destruct (Hlen id sts) as (l & Hl & Hll); [set_solver|]. eapply answered_step; [|..|done|done].
  - apply IH; [done|]. intros id' sts' Hin. apply Hlen. set_solver.
  - intros Hin. apply (Hdis id Hin). cbn. set_solver.
Qed.

Lemma answered_result fs s : answered fs s -> fs.*1 ≡ₚ dkeys g -> exists r, store_many_result s = Some (Ok r) /\
  forall id l sts i it b, dget g id = Some l -> (id, sts) ∈ fs -> l !! i = Some it -> sts !! i = Some b ->
    dget r (out_key (ikey it)) = Some (match b with Some x => x | None => false end).
Proof using grouped distinct_ids distinct_names.
  intros (Hg & Hk & Hu & He & Hs) Hp. unfold store_many_result.
  assert (Hall : forallb (fun ks => bool_decide (ks ∈ events s)) (dkeys (store_ok s)) = true).
  { apply forallb_forall. intros ks Hks%list_elem_of_In. apply bool_decide_eq_true. rewrite Hk in Hks.
    apply list_elem_of_fmap in Hks as (it & -> & Hit). destruct (group_member _ _ it _ grouped Hit eq_refl) as (id & l & _ & Hl & Hin).
    eapply He; [done| |done]. rewrite Hp. apply dget_dkeys. by rewrite Hl. }
  rewrite Hall. assert (Hun : unfinished_key_ids s = []).
  { rewrite Hu. destruct (filter (fun k => k ∉ fs.*1) (dkeys g)) as [|k ks] eqn:E; [done|].
    assert (Hkk : k ∈ filter (fun k => k ∉ fs.*1) (dkeys g)) by (rewrite E; left).
    apply list_elem_of_filter in Hkk as [Hn Hkg]. exfalso. apply Hn. by rewrite Hp. }
  rewrite Hun. rewrite bool_decide_true by done. cbn [rbind py_assert]. eexists. split; [reflexivity|].
  intros id l sts i it b Hl Hf Hi Hb. pose proof (Hs id l sts i it b Hl Hf Hi Hb) as Hd.
  apply dget_dupdate_nodup.
  - apply dget_elem_of in Hd. replace ((map _ (store_ok s)).*1) with (map (fun it => out_key (ikey it)) items); [done|].
    rewrite <- (map_map ikey out_key), <- Hk. unfold dkeys. clear. induction (store_ok s) as [|[k v] d IH]; [done|]. cbn. by f_equal.
  - apply dget_elem_of in Hd. apply list_elem_of_fmap. exists (ikey it, b). by split.
Qed.
End Returns.

Lemma start_store_inv keys values expiration subkeys s0 : start_store keys values expiration subkeys = Ok s0 ->
  exists items : list item, map ikey items = zip keys (all_subkeys keys subkeys) /\
    (length keys = length (all_subkeys keys subkeys)) /\ foldM_r add_item [] items = Ok (key_id_to_data s0) /\
    s0 = mkStore (key_id_to_data s0) (dkeys (key_id_to_data s0)) (dict_of_list (map (fun ks => (ks, None)) (map ikey items))) [].
Proof.
  unfold start_store. set (es := match expiration with inl e => _ | inr l => l end). set (sks := all_subkeys keys subkeys).
  intros E. mon_inv. unfold py_assert in E0. destruct (_ && _) eqn:El; [|done]. propify.
  destruct El as [[L1%Nat.eqb_eq L2%Nat.eqb_eq] L3%Nat.eqb_eq].
  exists (zip (zip (zip keys sks) values) es). cbn [key_id_to_data].
  assert (Hk : map ikey (zip (zip (zip keys sks) values) es) = zip keys sks).
  { assert (H1 : (zip (zip (zip keys sks) values) es).*1 = zip (zip keys sks) values) by (apply fst_zip; rewrite !length_zip_with; lia).
    assert (H2 : (zip (zip keys sks) values).*1 = zip keys sks) by (apply fst_zip; rewrite length_zip_with; lia).
    transitivity ((zip (zip (zip keys sks) values) es).*1.*1); [|by rewrite H1, H2].
    unfold ikey. by rewrite <- list_fmap_compose. }
  rewrite Hk. split_and!; [done|lia|done|]. destruct a; done.
Qed.

(** C35: [store_many] reports every item under its own name.  Let the keys have different identifiers and the names of the
    results be different.  When the stores of all identifiers are finished, in any order and with any statuses, the
    function returns, and for every item (for every key and its sub-key) the dictionary holds the status that
    was noted at the item's place in its group, [False] if there was none. *)
Theorem store_many_statuses (keys : list DHTKey) (values : list Value) expiration subkeys s0 (fs : list (Z * list (option bool))) :
  start_store keys values expiration subkeys = Ok s0 ->
  (forall k k', k ∈ keys -> k' ∈ keys -> generate_key k = generate_key k' -> k = k') ->
  NoDup (map out_key (zip keys (all_subkeys keys subkeys))) ->
  NoDup fs.*1 -> fs.*1 ≡ₚ dkeys (key_id_to_data s0) ->
  (forall id sts, (id, sts) ∈ fs -> exists l, dget (key_id_to_data s0) id = Some l /\ length sts = length l) ->
  exists r, store_many_result (foldl finish_key s0 fs) = Some (Ok r) /\
    forall k sk, (k, sk) ∈ zip keys (all_subkeys keys subkeys) -> exists id l sts j it b,
      generate_key k = Ok id /\ dget (key_id_to_data s0) id = Some l /\ (id, sts) ∈ fs /\
      l !! j = Some it /\ ikey it = (k, sk) /\ sts !! j = Some b /\
      store_result k sk r = Ok (match b with Some x => x | None => false end).
Proof.
  intros Hs Hid Hnames Hnd Hp Hlen. destruct (start_store_inv _ _ _ _ _ Hs) as (items & Hk & Hl & Hg & Hs0).
  set (g := key_id_to_data s0) in *.
  assert (Hkeys : forall it, it ∈ items -> it.1.1.1 ∈ keys).
  { intros it Hit. assert (Hz : ikey it ∈ zip keys (all_subkeys keys subkeys)) by (rewrite <- Hk; by apply list_elem_of_fmap_2).
    unfold ikey in Hz. destruct it as [[[k sk] v] e]. by apply elem_of_zip_l in Hz. }
  assert (Hdi : forall it it', it ∈ items -> it' ∈ items -> generate_key it.1.1.1 = generate_key it'.1.1.1 -> it.1.1.1 = it'.1.1.1) by eauto.
  assert (Hdn : NoDup (map (fun it => out_key (ikey it)) items)) by (by rewrite <- (map_map ikey out_key), Hk).
  assert (H0 : answered items g [] s0).
  { rewrite Hs0. unfold answered. cbn [key_id_to_data store_ok unfinished_key_ids events]. split_and!; [done|..].
    - rewrite (dict_of_pairs (map ikey items)) by (by eapply ikeys_nodup). unfold dkeys. clear. induction items; [done|]. cbn. by f_equal.
    - symmetry. clear. induction (dkeys g) as [|x l IH]; [done|]. rewrite filter_cons_True; [by f_equal|]. apply not_elem_of_nil.
    - intros id l it _ Hin. by apply elem_of_nil in Hin.
    - intros id l sts i it b _ Hin. by apply elem_of_nil in Hin. }
  pose proof (all_answered items g Hg Hdi Hdn fs s0 H0 Hnd Hlen) as Ha.
  destruct (answered_result items g Hg Hdi Hdn fs _ Ha Hp) as (r & Hr & Hres). exists r. split; [done|].
  intros k sk Hin. rewrite <- Hk in Hin. apply list_elem_of_fmap in Hin as (it & Eit & Hit).
  assert (Hgen : exists id l, generate_key k = Ok id /\ dget g id = Some l /\ it ∈ l).
  { eapply group_member; [exact Hg|exact Hit|]. by rewrite <- Eit. }
  destruct Hgen as (id & l & Hgk & Hgl & Hitl). apply list_elem_of_lookup in Hitl as [j Hj].
  assert (Hf : id ∈ fs.*1) by (rewrite Hp; apply dget_dkeys; by rewrite Hgl).
  apply list_elem_of_fmap in Hf as ([id' sts] & -> & Hf). destruct (Hlen _ _ Hf) as (l' & Hl' & Hll). cbn [fst] in *. rewrite Hgl in Hl'. injection Hl' as <-.
  destruct (lookup_lt_is_Some_2 sts j) as [b Hb]; [rewrite Hll; by eapply lookup_lt_Some|].
  exists id', l, sts, j, it, b. split_and!; try done. unfold store_result, dgetitem. rewrite Eit.
  by rewrite (Hres _ _ _ _ _ _ Hgl Hf Hj Hb).
Qed.

Lemma finish_groups s fs : key_id_to_data (foldl finish_key s fs) = key_id_to_data s /\
  (forall ks, ks ∈ events (foldl finish_key s fs) -> ks ∈ events s \/
     exists id it0 rest, dget (key_id_to_data s) id = Some (it0 :: rest) /\ ks.1 = it0.1.1.1) /\
  (forall ks, is_Some (dget (store_ok s) ks) -> is_Some (dget (store_ok (foldl finish_key s fs)) ks)).
Proof.
  revert s. induction fs as [|[id sts] fs IH]; intros s; cbn [foldl]; [split_and!; auto|].
  destruct (IH (finish_key s (id, sts))) as (I1 & I2 & I3). unfold finish_key in *.
  destruct (dget (key_id_to_data s) id) as [[|it0 rest]|] eqn:E; [split_and!; auto| |split_and!; auto].
  cbn [key_id_to_data events store_ok] in *. split_and!; [done|..].
  - intros ks Hks. destruct (I2 ks Hks) as [Hin|Hin]; [|by right]. apply elem_of_app in Hin as [Hin|Hin]; [by left|right].
    apply list_elem_of_fmap in Hin as (it & -> & _). by exists id, it0, rest.
  - intros ks Hks. apply I3. apply dget_dkeys. apply dget_dkeys in Hks.
    clear -Hks. revert Hks. generalize (store_ok s) as d. generalize (write_statuses it0.1.1.1 (it0 :: rest) sts) as l.
    induction l as [|[k v] l IH]; intros d Hks; [done|]. change (dupdate d ((k, v) :: l)) with (dupdate (dset d k v) l). apply IH.
    rewrite dkeys_dset. destruct (decide (k ∈ dkeys d)); [done|set_solver].
Qed.

(** Two different keys can have the same identifier without a collision of the hash function: a [bytes] object is hashed
    as it is, so the serialized form of a key has the identifier of the key.  If a call of [store_many] has both, it
    waits for ever, however the stores end; and [get_many] of both has no entry for the first. *)
Theorem colliding_keys_hang (o : Obj) (v1 v2 : Value) (e : Z) s0 (fs : list (Z * list (option bool))) :
  start_store [KObj o; KBytes (dumps o)] [v1; v2] (inl e) None = Ok s0 ->
  store_many_result (foldl finish_key s0 fs) = None /\
  forall {A} (f : list Z -> result (pydict Z A)) (a : A) id, generate_key (KObj o) = Ok id -> f [id; id] = Ok [(id, a)] ->
    exists r, get_many [KObj o; KBytes (dumps o)] f = Ok r /\ dget r (KObj o) = None /\ dget r (KBytes (dumps o)) = Some a.
Proof.
  clear dumps_value dumps_subkey. intros Hs. destruct (start_store_inv _ _ _ _ _ Hs) as (items & Hk & _ & Hg & Hs0). cbn [all_subkeys length replicate zip_with] in Hk.
  destruct items as [|it1 [|it2 [|it3 items]]]; try discriminate Hk. cbn in Hk. injection Hk as K1 K2.
  assert (Hsame : generate_key (KBytes (dumps o)) = generate_key (KObj o)) by done.
  split.
  - destruct (finish_groups s0 fs) as (_ & Hev & Hok). unfold store_many_result.
    assert (Hf : forallb (fun ks => bool_decide (ks ∈ events (foldl finish_key s0 fs))) (dkeys (store_ok (foldl finish_key s0 fs))) = false);
      [|by rewrite Hf].
    apply not_true_iff_false. intros Hall. rewrite forallb_forall in Hall.
    assert (Hin : (KBytes (dumps o), None) ∈ dkeys (store_ok (foldl finish_key s0 fs))).
    { apply dget_dkeys, Hok. rewrite Hs0. cbn [store_ok map]. rewrite K1, K2. cbn. rewrite decide_False by done.
      cbn. rewrite decide_False by done. rewrite decide_True by done. eauto. }
    specialize (Hall _ (proj1 (list_elem_of_In _ _) Hin)). apply bool_decide_eq_true in Hall. apply Hev in Hall as [Hall|Hall].
    + rewrite Hs0 in Hall. cbn in Hall. by apply elem_of_nil in Hall.
    + destruct Hall as (id & it0 & rest & Hd & Hk0). rewrite (groups_of _ _ Hg) in Hd.
      destruct it1 as [[[k1 sk1] w1] e1], it2 as [[[k2 sk2] w2] e2]. unfold ikey in K1, K2. cbn in K1, K2. injection K1 as -> ->. injection K2 as -> ->.
      assert (Hiff : of_id id (KBytes (dumps o), None, w2, e2) <-> of_id id (KObj o, None, w1, e1)) by done.
      rewrite filter_cons in Hd. destruct (decide (of_id id (KObj o, None, w1, e1))) as [Hi|Hi].
      * injection Hd as <- _. done.
      * rewrite filter_cons, decide_False in Hd by tauto. done.
  - intros A f a id Hid Hf. unfold get_many. cbn [mapM_r]. rewrite Hsame, Hid. cbn [rbind]. rewrite Hf. cbn [rbind mapM_r].
    unfold dgetitem, dict_of_list, dupdate. cbn [zip_with foldl fst snd dset]. rewrite decide_True by done. cbn [dget]. rewrite decide_True by done. cbn [of_option rbind].
    eexists. split; [reflexivity|]. cbn. rewrite decide_False by done. by rewrite decide_True.
Qed.

Lemma mapM_r_zip {A B C : Type} (f : A * B -> result (C * B)) (ks : list C) (l : list (A * B)) :
  Forall2 (fun e k => f e = Ok (k, e.2)) l ks -> mapM_r f l = Ok (zip ks l.*2).
Proof. induction 1 as [|e k l ks He _ IH]; [done|]. cbn. rewrite He. cbn [rbind]. by rewrite IH. Qed.

(** [get_many] answers every key with the result for its identifier, if the identifiers are different. *)
Lemma get_many_by_key {A} (keys : list DHTKey) (ids : list Z) (f : list Z -> result (pydict Z A)) (res : pydict Z A) :
  mapM_r generate_key keys = Ok ids -> NoDup ids -> NoDup keys -> f ids = Ok res -> dkeys res = ids ->
  exists r, get_many keys f = Ok r /\ forall n k id, keys !! n = Some k -> ids !! n = Some id -> dget r k = dget res id.
Proof.
  intros Hm Hni Hnk Hf Hd. unfold get_many. rewrite Hm. cbn [rbind]. rewrite Hf. cbn [rbind].
  pose proof (mapM_r_length _ _ _ Hm) as Hlen.
  assert (Hlk : forall n k id, keys !! n = Some k -> ids !! n = Some id -> dgetitem (dict_of_list (zip ids keys)) id = Ok k).
  { intros n k id H1 H2. unfold dgetitem, dict_of_list. rewrite (dget_dupdate_nodup _ _ id k); [done| |].
    - rewrite fst_zip by lia. done.
    - apply list_elem_of_lookup. exists n. apply lookup_zip_with_Some. eauto. }
  assert (Hrn : forall n id, ids !! n = Some id -> exists a, res !! n = Some (id, a)).
  { intros n id Hn. rewrite <- Hd in Hn. unfold dkeys in Hn. rewrite list_lookup_fmap in Hn. destruct (res !! n) as [[i a]|]; [|done].
    cbn in Hn. injection Hn as ->. eauto. }
  assert (Hlr : length res = length keys) by (rewrite <- Hlen, <- Hd; unfold dkeys; by rewrite length_fmap).
  rewrite (mapM_r_zip _ keys res).
  - cbn [rbind]. eexists. split; [reflexivity|]. intros n k id H1 H2. destruct (Hrn n id H2) as [a Ha].
    rewrite (dwf_elem_dget res id a); [|unfold dwf; by rewrite Hd|by eapply list_elem_of_lookup_2].
    apply dget_dupdate_nodup; [rewrite fst_zip; [done|rewrite length_fmap; lia]|].
    apply list_elem_of_lookup. exists n. apply lookup_zip_with_Some. exists k, a. by rewrite list_lookup_fmap, Ha.
  - apply Forall2_same_length_lookup. split; [done|]. intros n [id a] k Ha Hk.
    assert (Hi : ids !! n = Some id) by (rewrite <- Hd; unfold dkeys; by rewrite list_lookup_fmap, Ha). cbn [fst snd]. by rewrite (Hlk n k id).
Qed.
End Keys.

Arguments DHTKey Obj : clear implicits.
Arguments KBytes {Obj} b.
Arguments KObj {Obj} o.

(** ** Bootstrap ([DHTNode.create]) *)

(** A ping of an initial peer: when it ended, counted from the start, and what [call_ping] returned or raised. *)
Definition ping : Type := Z * result (option Z).

Definition first_end (pings : list ping) : Z := match pings with [] => 0 | p :: l => foldr Z.min p.1 (map fst l) end.

(** Stages 1 and 2: the first ping is awaited without a limit, the others until [bootstrap_timeout]. *)
Definition finished_pings (bootstrap_timeout : Z) (pings : list ping) : list (result (option Z)) :=
  map snd (filter (fun p : ping => p.1 <= Z.max (first_end pings) bootstrap_timeout) pings).

(** [all(ping.result() is None for ping in finished_pings)] *)
Fixpoint all_none (l : list (result (option Z))) : result bool :=
  match l with
  | [] => Ok true
  | Raise e :: _ => Raise e
  | Ok None :: rest => all_none rest
  | Ok (Some _) :: _ => Ok false
  end.

(** [for task in asyncio.as_completed(finished_pings): await task] *)
Fixpoint await_all (l : list (result (option Z))) : result unit :=
  match l with [] => Ok tt | Raise e :: _ => Raise e | Ok _ :: rest => await_all rest end.

(** What [create] does with the pings, in the order [finished] and, at the end, [completed] *)
Definition bootstrap (ensure_bootstrap_success strict : bool) (finished completed : list (result (option Z))) : result unit :=
  let* failed := match finished with [] => Ok true | _ => all_none finished end in
  let* _ := if failed && ensure_bootstrap_success then Raise RuntimeError else Ok tt in
  if strict then await_all completed else Ok tt.

Definition answered_ping (r : result (option Z)) : bool := match r with Ok (Some _) => true | _ => false end.

Lemma all_none_spec l :
  (Forall (fun r => exists o, r = Ok o) l -> all_none l = Ok (negb (existsb answered_ping l))) /\
  (forall e, all_none l = Raise e -> Raise e ∈ l) /\ (all_none l = Ok true -> forall e, Raise e ∉ l).
Proof.
  induction l as [|[[n|]|e] l (IH1 & IH2 & IH3)]; cbn [all_none existsb answered_ping]; (split; [|split]); try done.
  - intros _ e. apply not_elem_of_nil.
  - intros Hf. apply Forall_cons in Hf as [_ Hf]. by rewrite IH1.
  - intros e He. right. by apply IH2.
  - intros He e [?|?]%elem_of_cons; [done|]. by apply (IH3 He e).
  - intros Hf. apply Forall_cons in Hf as [[o ?] _]. done.
  - intros e' [= ->]. left.
Qed.

Lemma await_all_spec l : match await_all l with Ok _ => Forall (fun r => exists o, r = Ok o) l | Raise e => Raise e ∈ l end.
Proof.
  induction l as [|[o|e] l IH]; cbn [await_all]; [constructor| |left].
  destruct (await_all l); [constructor; [by exists o|done]|by right].
Qed.

(** Joining the network.  Every ping that ends within [bootstrap_timeout] is taken into account, and so is the first one to
    end.  If none of these pings raised, [create] goes on exactly if one of the peers has answered or
    [ensure_bootstrap_success] is off, and raises [RuntimeError] otherwise, in whatever order the pings are looked
    at.  If [strict] is set and one of them raised, [create] raises one of their exceptions. *)
Theorem bootstrap_outcome (timeout : Z) (pings : list ping) (finished completed : list (result (option Z))) (ensure strict : bool) :
  pings <> [] -> finished ≡ₚ finished_pings timeout pings -> completed ≡ₚ finished ->
  (forall t r, (t, r) ∈ pings -> t <= timeout -> r ∈ finished) /\ finished <> [] /\
  (Forall (fun r => exists o, r = Ok o) finished ->
     bootstrap ensure strict finished completed = if existsb answered_ping finished || negb ensure then Ok tt else Raise RuntimeError) /\
  (strict = true -> (exists e, Raise e ∈ finished) -> exists e, bootstrap ensure strict finished completed = Raise e /\ Raise e ∈ finished).
Proof.
  intros Hne Hf Hc.
  assert (Hin : forall t r, (t, r) ∈ pings -> t <= Z.max (first_end pings) timeout -> r ∈ finished).
  { intros t r Hp Ht. rewrite Hf. apply list_elem_of_fmap. exists (t, r). split; [done|]. by apply list_elem_of_filter. }
  assert (Hfirst : exists r, (first_end pings, r) ∈ pings).
  { clear -Hne. destruct pings as [|[t r] l]; [done|]. clear Hne. cbn [first_end fst]. induction l as [|[t' r'] l [x IH]]; [exists r; left|].
    cbn [map foldr fst]. destruct (Z.min_spec t' (foldr Z.min t (map fst l))) as [[_ ->]|[_ ->]]; [exists r'; right; left|].
    apply elem_of_cons in IH as [IH|IH]; [exists x; rewrite IH; left|exists x; right; by right]. }
  assert (Hnil : finished <> []).
  { destruct Hfirst as [r Hr]. specialize (Hin _ _ Hr ltac:(lia)). intros ->. by apply elem_of_nil in Hin. }
  split_and!.
  - intros t r Hp Ht. apply (Hin t r Hp). lia.
  - done.
  - intros Hok. unfold bootstrap. replace (match finished with [] => Ok true | _ => all_none finished end) with (all_none finished) by (by destruct finished).
    rewrite (proj1 (all_none_spec finished) Hok). cbn [rbind].
    assert (Haw : await_all completed = Ok tt).
    { pose proof (await_all_spec completed) as Ha. destruct (await_all completed) as [[]|e]; [done|]. rewrite Hc in Ha.
      rewrite Forall_forall in Hok. by destruct (Hok _ Ha). }
    destruct (existsb answered_ping finished), ensure; cbn; rewrite ?Haw; by destruct strict.
  - intros -> [e He]. unfold bootstrap. replace (match finished with [] => Ok true | _ => all_none finished end) with (all_none finished) by (by destruct finished).
    destruct (all_none_spec finished) as (_ & H2 & H3). destruct (all_none finished) as [[|]|e'].
    + exfalso. by apply (H3 eq_refl e).
    + cbn. pose proof (await_all_spec completed) as Ha. destruct (await_all completed) as [u|e'].
      * rewrite Forall_forall in Ha. rewrite <- Hc in He. by destruct (Ha _ He).
      * exists e'. split; [done|]. by rewrite <- Hc.
    + exists e'. split; [done|]. by apply H2.
Qed.

(** Without [strict], whether an exception of a ping is raised depends on the order in which the set of pings is iterated. *)
Example bootstrap_order : bootstrap true false [Raise AssertionError; Ok (Some 1)] [] = Raise AssertionError /\
  bootstrap true false [Ok (Some 1); Raise AssertionError] [] = Ok tt.
Proof. done. Qed.

(** ** The refresh of the routing table *)

(** The argument [queries] of [find_nearest_nodes]: one identifier, or a collection. *)
Inductive Queries : Type := OneId (id : Z) | Ids (ids : list Z).
Definition tuple_of (q : Queries) : result (list Z) := match q with OneId _ => Raise TypeError | Ids l => Ok l end.

(** One round of [_refresh_routing_table]: [pick] chooses an identifier in a bucket, [find] is the rest of [find_nearest_nodes]. *)
Section Refresh.
Context {PeerID : Type} (pick : Z -> Z -> Z) (find : list Z -> result unit).

Definition refresh_round (now period : Z) (buckets : list (KBucket PeerID)) : result unit :=
  let stale := filter (fun b : KBucket PeerID => last_updated b < now - period) buckets in
  foldM_r (fun _ b => let* refresh_id := new (pick (lower b) (upper b - 1)) in
                      let* queries := tuple_of (OneId refresh_id) in find queries) tt stale.

(** The first stale bucket ends the task with a [TypeError]; without one the round does nothing. *)
Lemma refresh_dies now period buckets : (forall b, b ∈ buckets -> valid_id (pick (lower b) (upper b - 1))) ->
  refresh_round now period buckets =
    if bool_decide (Forall (fun b : KBucket PeerID => now - period <= last_updated b) buckets) then Ok tt else Raise TypeError.
Proof.
  intros Hv. unfold refresh_round. induction buckets as [|b l IH]; [by rewrite bool_decide_true by constructor|].
  rewrite filter_cons. destruct (decide (last_updated b < now - period)) as [Hs|Hs].
  - rewrite bool_decide_false by (rewrite Forall_cons; lia). cbn [foldM_r]. specialize (Hv b ltac:(left)). unfold valid_id in Hv.
    unfold new. rewrite (proj2 (Z.leb_le _ _)), (proj2 (Z.ltb_lt _ _)) by lia. done.
  - rewrite IH by (intros x Hx; apply Hv; by right). assert (Hiff : Forall (fun b : KBucket PeerID => now - period <= last_updated b) (b :: l) <->
      Forall (fun b : KBucket PeerID => now - period <= last_updated b) l) by (rewrite Forall_cons; split; [tauto|split; [lia|done]]).
    by rewrite (bool_decide_ext _ _ Hiff).
Qed.
End Refresh.

(** ** Witnesses *)

Definition toy_sha1 (b : bytes) : bytes := b.
Definition toy_tup (k : DHTKey Z) (s : Z) : Z := 1000 + s.
Definition toy_start := start_store (Value := Z) toy_sha1 (fun o => [o]) [KObj 1; KObj 2; KObj 1] [10; 20; 30] (inl 99) (Some [Some 5; None; Some 6]).
Definition toy_finish : list (Z * list (option bool)) := [(2, [Some true]); (1, [Some false; None])].

Lemma store_many_statuses_witness : exists s0 r, toy_start = Ok s0 /\
  store_many_result toy_tup (foldl finish_key s0 toy_finish) = Some (Ok r) /\ store_result toy_tup (KObj 2) None r = Ok true.
Proof.
  destruct toy_start as [s0|] eqn:E; [|discriminate E]. exists s0.
  destruct (store_many_statuses toy_sha1 (fun o => [o]) toy_tup [KObj 1; KObj 2; KObj 1] [10; 20; 30] (inl 99) (Some [Some 5; None; Some 6]) s0 toy_finish E)
    as (r & Hr & Hall).
  - intros k k' Hk Hk'. assert (Hc : forall x, x ∈ [KObj 1; KObj 2; KObj 1] -> x = KObj 1 \/ x = KObj 2) by (intros x Hx; set_solver).
    destruct (Hc k Hk) as [-> | ->], (Hc k' Hk') as [-> | ->]; vm_compute; congruence.
  - repeat (apply NoDup_cons; split; [apply (bool_decide_eq_false_1 (_ ∈ _)); vm_compute; reflexivity|]). apply NoDup_nil. exact I.
  - repeat (apply NoDup_cons; split; [apply (bool_decide_eq_false_1 (_ ∈ _)); vm_compute; reflexivity|]). apply NoDup_nil. exact I.
  - injection E as <-. apply Permutation_swap.
  - injection E as <-. intros id sts Hin. apply elem_of_cons in Hin as [[= -> ->]|Hin]; [vm_compute; eauto|].
    apply list_elem_of_singleton in Hin as [= -> ->]. vm_compute. eauto.
  - exists r. split; [reflexivity|]. split; [exact Hr|]. injection E as <-. injection Hr as <-. reflexivity.
Defined.

Lemma colliding_keys_hang_witness : exists s0,
  start_store (Obj := Z) (Subkey := Z) (Value := Z) toy_sha1 (fun o => [o]) [KObj 1; KBytes [1]] [10; 20] (inl 99) None = Ok s0 /\
  store_many_result toy_tup (foldl finish_key s0 [(1, [Some true; Some true])]) = None.
Proof.
  eexists. split; [vm_compute; reflexivity|].
  apply (colliding_keys_hang (Subkey := Z) toy_sha1 (fun o => [o]) toy_tup 1 10 20 99). vm_compute. reflexivity.
Defined.

Lemma bootstrap_outcome_witness : bootstrap true true [Ok None; Ok (Some 7)] [Ok (Some 7); Ok None] = Ok tt.
Proof.
  edestruct (bootstrap_outcome 3 [(1, Ok None); (2, Ok (Some 7)); (9, Raise ValidationError)] [Ok None; Ok (Some 7)] [Ok (Some 7); Ok None] true true)
    as (_ & _ & Hok & _); [done|vm_compute; reflexivity|apply Permutation_swap|].
  rewrite Hok; [reflexivity|]. repeat apply Forall_cons_2; [eauto..|apply Forall_nil_2].
Defined.
