(* ===== verification/NodeGet.v ===== *)
(** * GET requests of a node ([mesh/dht/node.py], [get_many_by_id] and [find_nearest_nodes])

    A GET first looks into the node's own storage and cache; the keys that are left are searched by [traverse_dht], which calls
    back into the request: with every answer of a peer ([get_neighbors]) and once per key when its search is
    over ([found_callback]).  The request is the state [GetState]; a run is a list of these events, in any order.

    The traversal runs as a task that nobody awaits: an exception in a callback ends that callback and is lost.  The
    callbacks therefore return the state in which an exception leaves them. *)

From S2P Require Import Prelude TimedStorage DHTID Storage Validation Protocol Search Replicas.

Section NodeGet.
Context {Subkey : Type} `{EqS : EqDecision Subkey} `{OrdS : PyOrd Subkey} {LawS : PyOrdLaws Subkey}.
Context {Value PeerID : Type}.
Abbreviation Dict := (DictionaryDHTValue Subkey bytes).
Abbreviation SState := (SearchState (Subkey:=Subkey) (Value:=Value)).
Abbreviation Table := (TimedStorage Z (DHTValue bytes)).
Abbreviation MaybeValue := (option (ValueWithExpiration (DHTValue bytes))).

Variable loads : bytes -> result Value.
Variable dumps_subkey : Subkey -> bytes.
Variable strip : DHTRecord -> result bytes.
(** [node_id], [cache_locally] and [cache_nearest] of the node. *)
Variable node_id : Z.
Variable cache_locally : bool.
Variable cache_nearest : nat.

(** The dictionary objects, the tables of storage and cache, [search_results] and [node_to_peer_id]. *)
Record GetState : Type := mkGet {
  g_heap : list Dict;
  g_storage : Table;
  g_cache : Table;
  g_searches : pydict Z SState;
  g_peers : pydict Z PeerID;
}.
Implicit Types (st : GetState) (s : SState) (now key : Z).

Definition with_search st key (heap : list Dict) s : GetState :=
  mkGet heap (g_storage st) (g_cache st) (dset (g_searches st) key s) (g_peers st).

(** [sufficient_expiration_time or get_dht_time()]; infinity is [Some None]. *)
Definition sufficient_or_now (sufficient : option (option Z)) now : option Z :=
  match sufficient with
  | None | Some (Some 0) => Some now
  | Some x => x
  end.

(** ** Stage 1: the node's own values *)

(** One key: its candidate from the storage and, unless the cache is being refreshed, from the cache. *)
Definition local_lookup now (is_refresh : bool) st key : result GetState :=
  let* s := dgetitem (g_searches st) key in
  let* (sto, v) := get now (g_storage st) key in
  let* (heap1, s1) := add_candidate loads dumps_subkey strip now (g_heap st) s v (Some node_id) in
  if is_refresh then Ok (mkGet heap1 sto (g_cache st) (dset (g_searches st) key s1) (g_peers st))
  else
    let* (ca, v') := get now (g_cache st) key in
    let* (heap2, s2) := add_candidate loads dumps_subkey strip now heap1 s1 v' (Some node_id) in
    Ok (mkGet heap2 sto ca (dset (g_searches st) key s2) (g_peers st)).

(** [not search_results[key_id].finished] *)
Definition unfinished st key : bool := match dget (g_searches st) key with Some s => negb (finished s) | None => false end.

(** The searches, stage 1 for every key, and the keys to search in the network with the nodes to start from; [neighbors] is
    [routing_table.get_nearest_neighbors]. *)
Definition start_get now (sufficient : option (option Z)) (is_refresh : bool) (heap : list Dict) (storage cache : Table)
    (neighbors : Z -> list (Z * PeerID)) (key_ids : list Z) : result (GetState * list Z) :=
  let suff := sufficient_or_now sufficient now in
  let searches := dict_of_list (map (fun key => (key, new_search key suff)) key_ids) in
  let* st := foldM_r (local_lookup now is_refresh) (mkGet heap storage cache searches []) key_ids in
  let unfinished_key_ids := filter (fun key => unfinished st key = true) key_ids in
  let peers := foldl (fun d key => dupdate d (neighbors key)) [] unfinished_key_ids in
  Ok (mkGet (g_heap st) (g_storage st) (g_cache st) (g_searches st) peers, unfinished_key_ids).

(** ** Stage 2: the callbacks *)

Definition set_sufficient s (suff : option Z) : SState :=
  mkSearch (key_id s) suff (binary_value s) (found_expiration s) (source_node_id s) (future s).

(** [add_candidate] with the state an exception leaves: the candidate is taken, but the search is not finished. *)
Definition add_candidate_st now (heap : list Dict) s (candidate : MaybeValue) (source : option Z)
    : list Dict * SState * result unit :=
  match add_candidate loads dumps_subkey strip now heap s candidate source with
  | Ok (heap1, s1) => (heap1, s1, Ok tt)
  | Raise e =>
      match add_candidate loads dumps_subkey strip now heap (set_sufficient s None) candidate source with
      | Ok (heap1, s1) => (heap1, set_sufficient s1 (sufficient_expiration_time s), Raise e)
      | Raise _ => (heap, s, Raise e)
      end
  end.

(** The loop of [get_neighbors] over the answer of a peer. *)
Fixpoint take_answer now (peer : Z) (items : list (Z * (MaybeValue * list (Z * PeerID)))) st
    : GetState * result (list (Z * (list Z * bool))) :=
  match items with
  | [] => (st, Ok [])
  | (key, (maybe_value, peers)) :: rest =>
      let st1 := mkGet (g_heap st) (g_storage st) (g_cache st) (g_searches st) (dupdate (g_peers st) peers) in
      match dget (g_searches st1) key with
      | None => (st1, Raise KeyError)
      | Some s =>
          let '(heap, s', r) := add_candidate_st now (g_heap st1) s maybe_value (Some peer) in
          let st2 := with_search st1 key heap s' in
          match r with
          | Raise e => (st2, Raise e)
          | Ok _ =>
              let '(st3, out) := take_answer now peer rest st2 in
              (st3, rmap (cons (key, (peers.*1, finished s'))) out)
          end
      end
  end.

(** [get_neighbors]; [objects] are the dictionaries unpacked from the answer. *)
Definition get_neighbors now (peer : Z) (queries : list Z) (objects : list Dict)
    (response : option (list (Z * (MaybeValue * list (Z * PeerID))))) st : GetState * result (list (Z * (list Z * bool))) :=
  match response with
  | None | Some [] => (st, Ok (map (fun q => (q, ([], false))) queries))
  | Some items =>
      take_answer now peer items
        (mkGet (g_heap st ++ objects) (g_storage st) (g_cache st) (g_searches st) (g_peers st))
  end.

(** The dictionary that [finish_search] was rendering when it raised: its outdated entries are dropped. *)
Definition heap_after_raise now (heap : list Dict) s : list Dict :=
  match binary_value s with
  | Some (Dictionary ref) =>
      match heap !! ref with
      | Some d => match items now (entries d) with
                  | Ok (ts, _) => <[ref := mkDict ts (latest_expiration_time d)]> heap
                  | Raise _ => heap
                  end
      | None => heap
      end
  | _ => heap
  end.

(** [found_callback]; the nodes asked to cache the value are in the result. *)
Definition found_callback now (is_refresh : bool) key (nearest : list Z) st : GetState * result (list Z) :=
  match dget (g_searches st) key with
  | None => (st, Raise KeyError)
  | Some s =>
      match finish_search loads dumps_subkey strip now (g_heap st) s with
      | Raise e => (with_search st key (heap_after_raise now (g_heap st) s) s, Raise e)
      | Ok (heap, s') =>
          let st1 := with_search st key heap s' in
          match cache_new_result now (g_storage st1) (g_cache st1) s' nearest cache_locally is_refresh cache_nearest with
          | Raise e => (st1, Raise e)
          | Ok (sto, ca, nodes) => (mkGet heap sto ca (g_searches st1) (g_peers st1), Ok nodes)
          end
      end
  end.

Inductive get_event : Type :=
  | PeerAnswered now (peer : Z) (queries : list Z) (objects : list Dict) (response : option (list (Z * (MaybeValue * list (Z * PeerID)))))
  | SearchOver now key (nearest : list Z).

Definition run_get (is_refresh : bool) st (ev : get_event) : GetState :=
  match ev with
  | PeerAnswered now peer queries objs response => (get_neighbors now peer queries objs response st).1
  | SearchOver now key nearest => (found_callback now is_refresh key nearest st).1
  end.

Definition run_gets (is_refresh : bool) st (evs : list get_event) : GetState := foldl (run_get is_refresh) st evs.

(** What the caller awaits for a key: [None] while the future is pending. *)
Definition answer_of st key : option (option (ValueWithExpiration (Answer (Subkey:=Subkey) (Value:=Value)))) :=
  match dget (g_searches st) key with Some s => future s | None => None end.

(** ** Lemmas *)

Lemma finish_finished now heap s : finished s = true -> finish_search loads dumps_subkey strip now heap s = Ok (heap, s).
Proof. unfold finish_search. by intros ->. Qed.

Lemma add_finished now heap s c src : finished s = true -> add_candidate loads dumps_subkey strip now heap s c src = Ok (heap, s).
Proof. unfold add_candidate. intros ->. by destruct c as [[]|]. Qed.

(** The value renders, and is not of the time 0, which counts as absent. *)
Definition good key (c : bytes * Z * Z) : Prop :=
  0 < exp_of c /\ exists x, render loads strip key IS_REGULAR_VALUE c.1.1 (exp_of c) = Ok x.

(** [s] is the answer to a request that saw the candidates [cs]. *)
Definition best_answer key (sufficient : option Z) (cs : list (bytes * Z * Z)) s : Prop :=
  match future s with
  | Some None => cs = []
  | Some (Some (VWE (AValue x) e)) =>
      exists pre c post, chosen sufficient cs pre c post /\ exp_of c = e /\
        render loads strip key IS_REGULAR_VALUE c.1.1 e = Ok x /\ source_node_id s = Some c.2
  | _ => False
  end.

Lemma finish_best now heap key sufficient cs s :
  search_after loads strip key sufficient cs s -> Forall (good key) cs ->
  exists s', finish_search loads dumps_subkey strip now heap s = Ok (heap, s') /\ best_answer key sufficient cs s'.
Proof.
  intros (Hk & Hsuf & [(-> & Hfe & Hfu)|(pre & c & post & Hch & Hc & Hfe & Hbv & Hsrc & Hfu)]) Hg;
    unfold finish_search, finished.
  - rewrite Hfu, Hfe. eexists. split; [done|]. done.
  - destruct (future s) as [f|] eqn:Ef.
    + destruct Hfu as (_ & x & Hx & ->). exists s. split; [done|]. unfold best_answer. rewrite Ef. eauto 10.
    + rewrite Hfe, Hbv, Hk. rewrite Forall_forall in Hg. destruct (Hg c) as [_ [x Hx]].
      { rewrite (ch_split _ _ _ _ _ Hch). set_solver. }
      rewrite Hx. cbn. eexists. split; [done|]. unfold best_answer. cbn. eauto 10.
Qed.

Lemma best_finished key sufficient cs s : best_answer key sufficient cs s -> finished s = true.
Proof. unfold best_answer, finished. by destruct (future s). Qed.

(** The candidates for [key] in a value found, and in the answer of a peer. *)
Definition cand (v : MaybeValue) (source : Z) : list (bytes * Z * Z) :=
  match v with Some (VWE (Binary b) e) => [(b, e, source)] | _ => [] end.

Definition plain_value key (v : MaybeValue) : Prop :=
  match v with
  | None => True
  | Some (VWE (Binary b) e) => good key (b, e, 0)
  | Some (VWE (Dictionary _) _) => False
  end.

Lemma cand_good key v source : plain_value key v -> Forall (good key) (cand v source).
Proof. destruct v as [[[b|ref] e]|]; cbn; intros H; repeat constructor; apply H. Qed.

Lemma add_value now heap key sufficient cs s v source :
  search_after loads strip key sufficient cs s -> plain_value key v ->
  exists s', add_candidate loads dumps_subkey strip now heap s v (Some source) = Ok (heap, s') /\
    search_after loads strip key sufficient (cs ++ cand v source) s'.
Proof.
  intros Hs Hv. destruct v as [[[b|ref] e]|]; cbn [cand plain_value] in *.
  - destruct Hv as [Hp Hr]. exact (add_plain loads dumps_subkey strip now heap key sufficient cs s (b, e, source) Hs Hp Hr).
  - done.
  - exists s. by rewrite app_nil_r.
Qed.

(** Every search is over, or has seen good plain candidates only. *)
Definition quiet (sufficient : option Z) key s : Prop :=
  finished s = true \/ exists cs, search_after loads strip key sufficient cs s /\ Forall (good key) cs.

(** [s'] is [s] after the candidates [new]: the same if [s] was finished. *)
Definition evolves (sufficient : option Z) key (new : list (bytes * Z * Z)) s s' : Prop :=
  (finished s = true -> s' = s) /\
  (forall cs, search_after loads strip key sufficient cs s -> search_after loads strip key sufficient (cs ++ new) s').

Lemma evolves_refl sufficient key s : evolves sufficient key [] s s.
Proof. split; [done|]. intros cs. by rewrite app_nil_r. Qed.

Lemma evolves_trans sufficient key l l' s1 s2 s3 :
  evolves sufficient key l s1 s2 -> evolves sufficient key l' s2 s3 -> evolves sufficient key (l ++ l') s1 s3.
Proof.
  intros [H1 H2] [H3 H4]. split.
  - intros Hf. rewrite (H1 Hf) in *. auto.
  - intros cs Hs. rewrite app_assoc. auto.
Qed.

Lemma quiet_add now heap key sufficient s v source :
  quiet sufficient key s -> plain_value key v ->
  exists s', add_candidate loads dumps_subkey strip now heap s v (Some source) = Ok (heap, s') /\ quiet sufficient key s' /\
    evolves sufficient key (cand v source) s s'.
Proof.
  intros Hq Hv. unfold evolves. destruct (finished s) eqn:Ef.
  - exists s. rewrite add_finished by done. split_and!; [done|by left|done|]. intros cs Hs.
    destruct (add_value now heap key sufficient cs s v source Hs Hv) as (s' & Ha & Hs'). rewrite add_finished in Ha by done. by simplify_eq.
  - destruct Hq as [?|(cs & Hs & Hg)]; [congruence|].
    destruct (add_value now heap key sufficient cs s v source Hs Hv) as (s' & Ha & Hs'). exists s'. split_and!; [done| |done|].
    + right. exists (cs ++ cand v source). split; [done|]. apply Forall_app. split; [done|by apply cand_good].
    + intros cs' Hs2. destruct (add_value now heap key sufficient cs' s v source Hs2 Hv) as (s2 & Ha2 & ?). rewrite Ha in Ha2. by simplify_eq.
Qed.

Lemma quiet_finish now heap key sufficient s :
  quiet sufficient key s ->
  exists s', finish_search loads dumps_subkey strip now heap s = Ok (heap, s') /\ finished s' = true /\ (finished s = true -> s' = s).
Proof.
  intros Hq. destruct (finished s) eqn:Ef; [exists s; rewrite finish_finished by done; done|].
  destruct Hq as [?|(cs & Hs & Hg)]; [congruence|]. destruct (finish_best now heap key sufficient cs s Hs Hg) as (s' & -> & Hb).
  exists s'. split_and!; [done|by eapply best_finished|done].
Qed.

(** The invariant of a request for the keys [keys]. *)
Record get_ok (sufficient : option Z) (keys : list Z) st : Prop := {
  go_storage : wf (g_storage st);
  go_cache : wf (g_cache st);
  go_searches key : key ∈ keys -> exists s, dget (g_searches st) key = Some s /\ quiet sufficient key s;
}.

(** One more search state: what happens to the others. *)
Lemma get_ok_search sufficient keys st key heap s sto ca peers :
  get_ok sufficient keys st -> quiet sufficient key s -> wf sto -> wf ca ->
  get_ok sufficient keys (mkGet heap sto ca (dset (g_searches st) key s) peers).
Proof.
  intros [H1 H2 H3] Hq Hsto Hca. split; cbn; auto. intros k Hk. destruct (decide (key = k)) as [->|].
  - rewrite dget_dset_eq. eauto.
  - rewrite dget_dset_ne by done. auto.
Qed.

(** The candidates for [key] in an answer. *)
Definition item_cands key (peer : Z) (its : list (Z * (MaybeValue * list (Z * PeerID)))) : list (bytes * Z * Z) :=
  mjoin (map (fun it => if decide (it.1 = key) then cand it.2.1 peer else []) its).

Definition plain_items (keys : list Z) (its : list (Z * (MaybeValue * list (Z * PeerID)))) : Prop :=
  Forall (fun it => it.1 ∈ keys /\ plain_value it.1 it.2.1) its.

Lemma take_answer_spec sufficient keys now peer its : forall st,
  get_ok sufficient keys st -> plain_items keys its ->
  exists st' out, take_answer now peer its st = (st', Ok out) /\ get_ok sufficient keys st' /\
    forall key s, dget (g_searches st) key = Some s ->
      exists s', dget (g_searches st') key = Some s' /\ evolves sufficient key (item_cands key peer its) s s'.
Proof.
  induction its as [|[k [v peers]] its IH]; intros st Hok Hits; cbn [take_answer].
  { exists st, []. split_and!; [done|done|]. intros key s Hs. exists s. split; [done|]. apply evolves_refl. }
  apply Forall_cons in Hits as [[Hk Hv] Hits]. cbn [fst snd] in Hk, Hv. cbn [g_searches g_heap].
  destruct (go_searches _ _ _ Hok k Hk) as (s & Hs & Hq). rewrite Hs. unfold add_candidate_st.
  destruct (quiet_add now (g_heap st) k sufficient s v peer Hq Hv) as (s1 & -> & Hq1 & Hev).
  unfold with_search. cbn [g_heap g_storage g_cache g_searches g_peers]. set (st2 := mkGet _ _ _ _ _).
  destruct (IH st2) as (st' & out & -> & Hok' & Hall).
  { apply get_ok_search; auto; apply Hok. }
  { done. }
  eexists st', _. split; [done|]. split; [done|]. intros key s0 Hs0. unfold item_cands. cbn [map mjoin list_join fst snd].
  destruct (decide (k = key)) as [->|Hne].
  - rewrite Hs0 in Hs. simplify_eq. destruct (Hall key s1) as (s' & Hs' & He'); [subst st2; cbn; by rewrite dget_dset_eq|].
    exists s'. split; [done|]. by eapply evolves_trans.
  - apply Hall. subst st2. cbn. by rewrite dget_dset_ne.
Qed.

Lemma cache_total now (sto ca : Table) s nearest refresh :
  wf sto -> wf ca -> exists sto' ca' nodes,
    cache_new_result now sto ca s nearest cache_locally refresh cache_nearest = Ok (sto', ca', nodes) /\ wf sto' /\ wf ca'.
Proof.
  intros H1 H2. unfold cache_new_result. destruct (found_expiration s) as [e|]; [|eauto 10]. destruct (binary_value s) as [v|]; [|eauto 10].
  destruct (get_effect now sto (key_id s) H1) as (st1 & -> & Hc1). cbn [rbind].
  destruct (get_effect now ca (key_id s) H2) as (ca1 & -> & Hc2). cbn [rbind]. pose proof (cl_wf _ _ _ Hc1). pose proof (cl_wf _ _ _ Hc2) as Hw2.
  destruct (above_both _ _ _); [|eauto 10]. destruct (_ || _); [|cbn; eauto 10].
  destruct (store_spec now ca1 (key_id s) v e Hw2) as (ca2 & -> & Hw & _). cbn. eauto 10.
Qed.

(** The end of a search. *)
Lemma found_callback_spec sufficient keys now refresh key nearest st s :
  get_ok sufficient keys st -> key ∈ keys -> dget (g_searches st) key = Some s ->
  exists st' nodes s', found_callback now refresh key nearest st = (st', Ok nodes) /\ get_ok sufficient keys st' /\
    finish_search loads dumps_subkey strip now (g_heap st) s = Ok (g_heap st', s') /\ finished s' = true /\
    (finished s = true -> s' = s) /\ g_searches st' = dset (g_searches st) key s'.
Proof.
  intros Hok Hk Hs. unfold found_callback. rewrite Hs. destruct (go_searches _ _ _ Hok key Hk) as (s0 & Hs0 & Hq). rewrite Hs in Hs0. simplify_eq.
  destruct (quiet_finish now (g_heap st) key sufficient s0 Hq) as (s' & -> & Hf & Hsame). cbn [with_search g_storage g_cache g_searches g_peers].
  destruct (cache_total now (g_storage st) (g_cache st) s' nearest refresh) as (sto & ca & nodes & -> & Hw1 & Hw2); [apply Hok..|].
  eexists _, nodes, s'. split; [done|]. cbn. split_and!; auto. apply get_ok_search; auto. by left.
Qed.

(** Events that carry plain values only, and end searches of the request only. *)
Definition plain_event (keys : list Z) (ev : get_event) : Prop :=
  match ev with
  | PeerAnswered _ _ _ _ response => plain_items keys (default [] response)
  | SearchOver _ key _ => key ∈ keys
  end.

(** The candidates for [key] in an event. *)
Definition event_cands key (ev : get_event) : list (bytes * Z * Z) :=
  match ev with
  | PeerAnswered _ peer _ _ response => item_cands key peer (default [] response)
  | SearchOver _ _ _ => []
  end.

Definition ends key (ev : get_event) : bool :=
  match ev with SearchOver _ k _ => bool_decide (k = key) | _ => false end.

Lemma run_get_spec sufficient keys refresh ev st :
  get_ok sufficient keys st -> plain_event keys ev ->
  get_ok sufficient keys (run_get refresh st ev) /\
  forall key s, dget (g_searches st) key = Some s ->
    exists s', dget (g_searches (run_get refresh st ev)) key = Some s' /\ (finished s = true -> s' = s) /\
      (ends key ev = false -> evolves sufficient key (event_cands key ev) s s').
Proof.
  intros Hok Hp. destruct ev as [now peer queries objs response|now k nearest]; cbn [run_get plain_event event_cands ends] in *.
  - unfold get_neighbors. destruct response as [[|it its]|]; cbn [default fst] in *.
    + split; [done|]. intros key s Hs. exists s. split_and!; [done|done|]. intros _. apply evolves_refl.
    + destruct (take_answer_spec sufficient keys now peer (it :: its)
        (mkGet (g_heap st ++ objs) (g_storage st) (g_cache st) (g_searches st) (g_peers st))) as (st' & out & -> & Hok' & Hall);
        [split; apply Hok|done|]. split; [done|]. intros key s Hs. destruct (Hall key s Hs) as (s' & Hs' & He).
      exists s'. split_and!; [done|apply He|done].
    + split; [done|]. intros key s Hs. exists s. split_and!; [done|done|]. intros _. apply evolves_refl.
  - destruct (go_searches _ _ _ Hok k Hp) as (s0 & Hs0 & _).
    destruct (found_callback_spec sufficient keys now refresh k nearest st s0 Hok Hp Hs0) as (st' & nodes & s' & -> & Hok' & _ & _ & Hsame & Hd).
    split; [done|]. intros key s Hs. cbn [fst]. rewrite Hd. destruct (decide (k = key)) as [->|Hne].
    + rewrite dget_dset_eq. rewrite Hs in Hs0. simplify_eq. exists s'. split_and!; [done|done|]. by rewrite bool_decide_eq_true_2.
    + rewrite dget_dset_ne by done. exists s. split_and!; [done|done|]. intros _. apply evolves_refl.
Qed.

Lemma run_gets_spec sufficient keys refresh evs : forall st,
  get_ok sufficient keys st -> Forall (plain_event keys) evs ->
  get_ok sufficient keys (run_gets refresh st evs) /\
  forall key s, dget (g_searches st) key = Some s ->
    exists s', dget (g_searches (run_gets refresh st evs)) key = Some s' /\ (finished s = true -> s' = s) /\
      (Forall (fun ev => ends key ev = false) evs -> evolves sufficient key (mjoin (map (event_cands key) evs)) s s').
Proof.
  unfold run_gets. induction evs as [|ev evs IH]; intros st Hok Hp; cbn [foldl map mjoin list_join].
  { split; [done|]. intros key s Hs. exists s. split_and!; [done|done|]. intros _. apply evolves_refl. }
  apply Forall_cons in Hp as [Hp Hps]. destruct (run_get_spec sufficient keys refresh ev st Hok Hp) as [Hok1 H1].
  destruct (IH _ Hok1 Hps) as [Hok2 H2]. split; [done|]. intros key s Hs. destruct (H1 key s Hs) as (s1 & Hs1 & Hf1 & He1).
  destruct (H2 key s1 Hs1) as (s2 & Hs2 & Hf2 & He2). exists s2. split_and!; [done| |].
  - intros Hf. rewrite (Hf1 Hf) in *. auto.
  - intros Hends. apply Forall_cons in Hends as [Hend Hends]. eapply evolves_trans; eauto.
Qed.

(** ** The start of a request *)

(** What [get] answers. *)
Definition local_value now (tb : Table) key : MaybeValue :=
  match get now tb key with Ok (_, v) => v | Raise _ => None end.

(** A second clean-up at the same time changes nothing. *)
Lemma cleaned_again now (tb tb1 tb2 : Table) key :
  cleaned now tb tb1 -> cleaned now tb1 tb2 -> dget (data tb2) key = dget (data tb1) key.
Proof.
  intros H1 H2. destruct (dget (data tb1) key) as [x|] eqn:E.
  - destruct (dget (data tb2) key) as [y|] eqn:E2; [by apply (cl_kept _ _ _ H2) in E2 as [? _]; simplify_eq|].
    destruct (cl_dropped _ _ _ H2 _ _ E E2) as (Hf & e & He & Hor). rewrite (cl_frozen _ _ _ H1) in Hf. destruct Hor as [Hlt|[Hcap _]].
    + assert (now <= e); [|lia]. apply (cl_fresh _ _ _ H1 key); [done|]. unfold evict_time. by rewrite He.
    + rewrite (cl_maxsize _ _ _ H1), (cl_capacity _ _ _ H1 Hf) in Hcap. done.
  - destruct (dget (data tb2) key) as [y|] eqn:E2; [|done]. apply (cl_kept _ _ _ H2) in E2 as [? _]. congruence.
Qed.

Lemma get_local now (tb : Table) k : wf tb ->
  exists tb', get now tb k = Ok (tb', local_value now tb k) /\ wf tb' /\ (forall key, local_value now tb' key = local_value now tb key).
Proof.
  intros Hw. destruct (get_effect now tb k Hw) as (tb' & Hg & Hc). pose proof (cl_wf _ _ _ Hc) as Hw'. exists tb'.
  assert (Hv : forall key, local_value now tb key = dget (data tb') key).
  { intros key. unfold local_value. destruct (get_effect now tb key Hw) as (t & Hg' & _). rewrite Hg'.
    unfold get in Hg, Hg'. destruct (_remove_outdated now tb); cbn in Hg, Hg'; [|done]. congruence. }
  split_and!; [by rewrite Hv|done|]. intros key. rewrite Hv. unfold local_value.
  destruct (get_effect now tb' key Hw') as (t & -> & Hc2). by eapply cleaned_again.
Qed.

Definition local_cands now (refresh : bool) (sto ca : Table) key : list (bytes * Z * Z) :=
  cand (local_value now sto key) node_id ++ (if refresh then [] else cand (local_value now ca key) node_id).

(** A request in stage 1, with the keys [todo] left. *)
Record starting now (refresh : bool) (sufficient : option Z) (sto ca : Table) (keys todo : list Z) st : Prop := {
  sg_storage : wf (g_storage st);
  sg_cache : wf (g_cache st);
  sg_same_storage key : local_value now (g_storage st) key = local_value now sto key;
  sg_same_cache key : local_value now (g_cache st) key = local_value now ca key;
  sg_searches key : key ∈ keys -> exists s, dget (g_searches st) key = Some s /\
    search_after loads strip key sufficient (if decide (key ∈ todo) then [] else local_cands now refresh sto ca key) s;
}.

(** The own values of the keys are plain and readable. *)
Definition plain_tables now (sto ca : Table) (keys : list Z) : Prop :=
  Forall (fun key => plain_value key (local_value now sto key) /\ plain_value key (local_value now ca key)) keys.

Lemma local_lookup_spec now refresh sufficient sto ca keys k todo st :
  starting now refresh sufficient sto ca keys (k :: todo) st -> plain_tables now sto ca keys -> k ∈ keys -> NoDup (k :: todo) ->
  exists st', local_lookup now refresh st k = Ok st' /\ starting now refresh sufficient sto ca keys todo st'.
Proof.
  intros [H1 H2 H3 H4 H5] Hp Hk Hnd. apply NoDup_cons in Hnd as [Hnk Hnd].
  unfold plain_tables in Hp. rewrite Forall_forall in Hp. destruct (Hp k Hk) as [Hp1 Hp2]. unfold local_lookup.
  destruct (H5 k Hk) as (s & Hs & Hsa). rewrite decide_True in Hsa by apply list_elem_of_here. unfold dgetitem. rewrite Hs. cbn [of_option rbind].
  destruct (get_local now (g_storage st) k H1) as (sto1 & -> & Hw1 & Hl1). cbn [rbind]. rewrite H3.
  destruct (add_value now (g_heap st) k sufficient [] s _ node_id Hsa Hp1) as (s1 & -> & Hs1). cbn [rbind app] in *.
  assert (Hrest : forall sto' ca' heap s', wf sto' -> wf ca' -> (forall key, local_value now sto' key = local_value now sto key) ->
    (forall key, local_value now ca' key = local_value now ca key) ->
    search_after loads strip k sufficient (local_cands now refresh sto ca k) s' ->
    starting now refresh sufficient sto ca keys todo (mkGet heap sto' ca' (dset (g_searches st) k s') (g_peers st))).
  { intros sto' ca' heap s' Hwa Hwb Hla Hlb Hsc. split; cbn; auto. intros key Hkey. destruct (decide (k = key)) as [->|Hne].
    - rewrite dget_dset_eq, decide_False by done. eauto.
    - rewrite dget_dset_ne by done. destruct (H5 key Hkey) as (s0 & Hs0 & Hsa0). exists s0. split; [done|].
      destruct (decide (key ∈ todo)); [by rewrite decide_True in Hsa0 by (by apply list_elem_of_further)|].
      rewrite decide_False in Hsa0; [done|]. rewrite elem_of_cons. naive_solver. }
  destruct refresh.
  - eexists. split; [done|]. apply Hrest; auto; [intros; by rewrite Hl1|]. unfold local_cands. by rewrite app_nil_r.
  - destruct (get_local now (g_cache st) k H2) as (ca1 & -> & Hw2 & Hl2). cbn [rbind]. rewrite H4.
    destruct (add_value now (g_heap st) k sufficient _ s1 _ node_id Hs1 Hp2) as (s2 & -> & Hs2). cbn [rbind].
    eexists. split; [done|]. apply Hrest; auto; intros; by rewrite ?Hl1, ?Hl2.
Qed.

Lemma local_lookups_spec now refresh sufficient sto ca keys todo : forall st,
  starting now refresh sufficient sto ca keys todo st -> plain_tables now sto ca keys -> (forall k, k ∈ todo -> k ∈ keys) -> NoDup todo ->
  exists st', foldM_r (local_lookup now refresh) st todo = Ok st' /\ starting now refresh sufficient sto ca keys [] st'.
Proof.
  induction todo as [|k todo IH]; intros st Hst Hp Hin Hnd; cbn [foldM_r]; [eauto|].
  destruct (local_lookup_spec now refresh sufficient sto ca keys k todo st Hst Hp) as (st1 & -> & Hst1); [apply Hin, list_elem_of_here|done|].
  cbn [rbind]. apply IH; [done|done| |by apply NoDup_cons in Hnd as [_ ?]]. intros k' Hk'. apply Hin. by apply list_elem_of_further.
Qed.

Lemma new_searches suff l : forall d key, key ∈ l \/ dget d key = Some (new_search key suff) ->
  dget (dupdate d (map (fun k => (k, new_search k suff)) l)) key = Some (new_search (Subkey:=Subkey) (Value:=Value) key suff).
Proof.
  unfold dupdate. induction l as [|k l IH]; intros d key Hk; cbn; [set_solver|]. apply IH. destruct (decide (k = key)) as [->|Hne].
  - right. by rewrite dget_dset_eq.
  - rewrite dget_dset_ne by done. set_solver.
Qed.

Lemma start_get_spec now sufficient refresh heap sto ca neighbors keys :
  wf sto -> wf ca -> NoDup keys -> plain_tables now sto ca keys ->
  exists st, start_get now sufficient refresh heap sto ca neighbors keys = Ok (st, filter (fun key => unfinished st key = true) keys) /\
    get_ok (sufficient_or_now sufficient now) keys st /\
    forall key, key ∈ keys -> exists s, dget (g_searches st) key = Some s /\
      search_after loads strip key (sufficient_or_now sufficient now) (local_cands now refresh sto ca key) s.
Proof.
  intros Hw1 Hw2 Hnd Hp. unfold start_get. set (suff := sufficient_or_now sufficient now). set (st0 := mkGet _ _ _ _ _).
  destruct (local_lookups_spec now refresh suff sto ca keys keys st0) as (st & -> & Hst); [|done|done|done|].
  { split; cbn; auto. intros key Hk. exists (new_search key suff). split; [apply new_searches; by left|].
    rewrite decide_True by done. split; [done|]. split; [done|]. by left. }
  cbn [rbind]. lazymatch goal with |- exists _, Ok (?x, _) = _ /\ _ => exists x end. split; [reflexivity|]. destruct Hst as [G1 G2 G3 G4 G5].
  assert (Hs : forall key, key ∈ keys -> exists s, dget (g_searches st) key = Some s /\
            search_after loads strip key suff (local_cands now refresh sto ca key) s).
  { intros key Hk. destruct (G5 key Hk) as (s & Hs & Hsa). rewrite decide_False in Hsa by apply not_elem_of_nil. eauto. }
  split; [|exact Hs]. split; cbn; auto. intros key Hk. destruct (Hs key Hk) as (s & Hd & Hsa). exists s. split; [done|]. right.
  eexists. split; [done|]. unfold plain_tables in Hp. rewrite Forall_forall in Hp. destruct (Hp key Hk) as [P1 P2]. apply Forall_app.
  split; [by apply cand_good|]. destruct refresh; [constructor|by apply cand_good].
Qed.

(** A search that has seen a sufficient candidate is over. *)
Lemma sufficient_finishes key sufficient cs s c :
  search_after loads strip key sufficient cs s -> c ∈ cs -> suffices sufficient (exp_of c) = true -> finished s = true.
Proof.
  intros (_ & _ & [(-> & _)|(pre & c0 & post & Hch & _ & _ & _ & _ & Hfu)]) Hc Hs; [by apply not_elem_of_nil in Hc|].
  unfold finished. destruct (future s); [done|]. exfalso. destruct Hch as [-> Hb Ha]. specialize (Ha Hfu).
  rewrite Forall_forall in Hb, Ha. apply elem_of_app in Hc as [Hc|Hc]; [destruct (Hb c Hc); congruence|].
  apply elem_of_cons in Hc as [->|Hc]; [congruence|]. pose proof (suffices_mono _ _ _ (Ha c Hc) Hs). congruence.
Qed.

(** ** A value that cannot be rendered *)

Lemma render_entries_raises key its sk v e :
  (sk, VWE v e) ∈ its -> (forall x, render loads strip key (dumps_subkey sk) v e <> Ok x) ->
  exists err, render_entries loads dumps_subkey strip key its = Raise err.
Proof.
  induction its as [|[sk' [v' e']] its IH]; intros Hin Hbad; [by apply not_elem_of_nil in Hin|]. cbn [render_entries].
  apply elem_of_cons in Hin as [Heq|Hin].
  - simplify_eq. destruct (render loads strip key (dumps_subkey sk') v' e') as [x|err]; [by destruct (Hbad x)|]. cbn. eauto.
  - destruct (render loads strip key (dumps_subkey sk') v' e') as [x|err]; cbn; [|eauto].
    destruct (IH Hin Hbad) as (err & ->). cbn. eauto.
Qed.

Lemma finish_bad now heap s ref d o sk v e :
  future s = None -> found_expiration s = Some o -> binary_value s = Some (Dictionary ref) -> heap !! ref = Some d ->
  holds (entries d) sk v e -> now <= e -> (forall x, render loads strip (key_id s) (dumps_subkey sk) v e <> Ok x) ->
  exists err, finish_search loads dumps_subkey strip now heap s = Raise err.
Proof.
  intros Hf Ho Hb Hr Hh He Hbad. unfold finish_search, finished. rewrite Hf, Ho, Hb, Hr. cbn [of_option rbind]. unfold items.
  destruct (remove_outdated_spec now (entries d)) as (ts & -> & Hc); [apply Hh|]. cbn [rbind].
  destruct (holds_cleaned _ _ _ _ _ _ Hh Hc He) as (_ & _ & Hd & _). apply dget_elem_of in Hd.
  destruct (render_entries_raises (key_id s) (data ts) sk v e Hd Hbad) as (err & ->). cbn. eauto.
Qed.

(** Answers without a value for the key, and the end of its search at a time until [e]. *)
Definition no_news key (e : Z) (ev : get_event) : Prop :=
  match ev with
  | PeerAnswered _ _ _ _ response => Forall (fun it => it.1 = key /\ it.2.1 = None) (default [] response)
  | SearchOver now k _ => k = key /\ now <= e
  end.

(** The search [s] is pending, and the dictionary it found has an entry that cannot be rendered and lives until [e]. *)
Definition blocked_by (r : nat) sk v e key s st : Prop :=
  dget (g_searches st) key = Some s /\ exists d, g_heap st !! r = Some d /\ holds (entries d) sk v e.

Lemma take_empty_answer now peer its key s : forall st,
  dget (g_searches st) key = Some s -> Forall (fun it : Z * (MaybeValue * list (Z * PeerID)) => it.1 = key /\ it.2.1 = None) its ->
  exists st' out, take_answer now peer its st = (st', Ok out) /\ g_heap st' = g_heap st /\ dget (g_searches st') key = Some s.
Proof.
  induction its as [|[k [v peers]] its IH]; intros st Hs Hits; cbn [take_answer]; [eauto|].
  apply Forall_cons in Hits as [[Hk Hv] Hits]. cbn in Hk, Hv. subst k v. cbn [g_searches]. rewrite Hs. cbn.
  set (st2 := with_search _ _ _ _). destruct (IH st2) as (st' & out & -> & Hh & Hs').
  { subst st2. cbn. by rewrite dget_dset_eq. }
  { done. }
  eexists _, _. split; [done|]. by rewrite Hh.
Qed.

Lemma blocked_callback r sk v e key s now refresh nearest st :
  blocked_by r sk v e key s st -> key_id s = key -> future s = None -> binary_value s = Some (Dictionary r) ->
  is_Some (found_expiration s) -> now <= e -> (forall x, render loads strip key (dumps_subkey sk) v e <> Ok x) ->
  exists err st', found_callback now refresh key nearest st = (st', Raise err) /\ blocked_by r sk v e key s st'.
Proof.
  intros (Hs & d & Hd & Hh) <- Hf Hb [o Ho] He Hbad.
  destruct (finish_bad now (g_heap st) s r d o sk v e Hf Ho Hb Hd Hh He Hbad) as (err & Hfin).
  exists err. eexists. unfold found_callback. rewrite Hs, Hfin. split; [reflexivity|]. split; cbn.
  { by rewrite dget_dset_eq. }
  unfold heap_after_raise. rewrite Hb, Hd. unfold items.
  destruct (remove_outdated_spec now (entries d)) as (ts & -> & Hc); [apply Hh|]. cbn [rbind].
  rewrite list_lookup_insert_eq by (by eapply lookup_lt_Some). eexists. split; [done|]. by eapply holds_cleaned.
Qed.

Lemma blocked_run r sk v e key s refresh evs :
  key_id s = key -> future s = None -> binary_value s = Some (Dictionary r) -> is_Some (found_expiration s) ->
  (forall x, render loads strip key (dumps_subkey sk) v e <> Ok x) -> forall st,
  blocked_by r sk v e key s st -> Forall (no_news key e) evs -> blocked_by r sk v e key s (run_gets refresh st evs).
Proof.
  intros Hk Hf Hb Ho Hbad. unfold run_gets. induction evs as [|ev evs IH]; intros st Hst Hev; cbn [foldl]; [done|].
  apply Forall_cons in Hev as [Hev Hevs]. apply IH; [|done]. destruct ev as [now peer queries objs response|now k nearest]; cbn [no_news run_get] in *.
  - unfold get_neighbors. destruct response as [[|it its]|]; cbn [default fst] in *; [done| |done].
    destruct Hst as (Hs & d & Hd & Hh). destruct (take_empty_answer now peer (it :: its) key s
      (mkGet (g_heap st ++ objs) (g_storage st) (g_cache st) (g_searches st) (g_peers st)) Hs Hev) as (st' & out & -> & Hh' & Hs').
    split; [done|]. cbn [fst]. rewrite Hh'. cbn. exists d. split; [by apply lookup_app_l_Some|done].
  - destruct Hev as [-> He]. by destruct (blocked_callback r sk v e key s now refresh nearest st) as (err & st' & -> & Hst').
Qed.

(** * Theorems *)

(** C22: A GET of several keys that meets only plain values (no dictionaries) which can be decoded and have a positive expiration
    answers each key with the best value it has seen: when the search for a key is over, its answer is the first
    value that lives long enough, and otherwise the first with the latest expiration, among the node's own value, the cached one
    (unless the cache is being refreshed) and those in the answers of peers until then; later events do not change it. *)
Theorem get_answers_best now sufficient refresh heap sto ca neighbors keys key now' nearest evs1 evs2 :
  wf sto -> wf ca -> NoDup keys -> plain_tables now sto ca keys -> key ∈ keys ->
  Forall (plain_event keys) (evs1 ++ SearchOver now' key nearest :: evs2) -> Forall (fun ev => ends key ev = false) evs1 ->
  exists st todo s, start_get now sufficient refresh heap sto ca neighbors keys = Ok (st, todo) /\
    dget (g_searches (run_gets refresh st (evs1 ++ SearchOver now' key nearest :: evs2))) key = Some s /\
    best_answer key (sufficient_or_now sufficient now)
      ((local_cands now refresh sto ca key) ++ (mjoin (map (event_cands key) evs1))) s.
Proof.
  intros Hw1 Hw2 Hnd Hp Hk Hev Hends. set (suff := sufficient_or_now sufficient now).
  destruct (start_get_spec now sufficient refresh heap sto ca neighbors keys Hw1 Hw2 Hnd Hp) as (st & Hst & Hok & Hs).
  destruct (Hs key Hk) as (s0 & Hs0 & Hsa). apply Forall_app in Hev as [Hev1 Hev2]. apply Forall_cons in Hev2 as [Hover Hev2].
  destruct (run_gets_spec suff keys refresh evs1 st Hok Hev1) as [Hok1 H1]. destruct (H1 key s0 Hs0) as (s1 & Hs1 & _ & He1).
  destruct (He1 Hends) as [_ Hsa1]. specialize (Hsa1 _ Hsa). set (st1 := run_gets refresh st evs1) in *.
  destruct (found_callback_spec suff keys now' refresh key nearest st1 s1 Hok1 Hk Hs1) as (st2 & nodes & s2 & Hf & Hok2 & Hfin & Hdone & _ & Hd).
  destruct (go_searches _ _ _ Hok key Hk) as (s0' & Hs0' & Hq0).
  assert (Hgood : Forall (good key) (local_cands now refresh sto ca key ++ mjoin (map (event_cands key) evs1))).
  { unfold plain_tables in Hp. rewrite Forall_forall in Hp. destruct (Hp key Hk) as [P1 P2]. apply Forall_app. split.
    - apply Forall_app. split; [by apply cand_good|]. destruct refresh; [constructor|by apply cand_good].
    - clear -Hev1. induction Hev1 as [|ev evs Hev _ IH]; cbn; [constructor|]. apply Forall_app. split; [|done].
      destruct ev as [n peer q objs response|]; cbn in *; [|constructor]. unfold item_cands, plain_items in *.
      induction Hev as [|it its [_ Hv] _ IHi]; cbn; [constructor|]. apply Forall_app. split; [|done].
      destruct (decide (it.1 = key)) as [<-|]; [by apply cand_good|constructor]. }
  destruct (finish_best now' (g_heap st1) key suff _ s1 Hsa1 Hgood) as (s2' & Hfin' & Hbest). rewrite Hfin in Hfin'. simplify_eq.
  assert (Hs2 : dget (g_searches st2) key = Some s2') by (rewrite Hd; by rewrite dget_dset_eq).
  destruct (run_gets_spec suff keys refresh evs2 st2 Hok2 Hev2) as [_ H2]. destruct (H2 key s2' Hs2) as (s3 & Hs3 & Hsame & _).
  rewrite (Hsame Hdone) in Hs3. exists st. eexists. exists s2'. split; [exact Hst|]. split; [|done].
  unfold run_gets. rewrite foldl_app. cbn [foldl run_get]. change (foldl (run_get refresh) st evs1) with st1. by rewrite Hf.
Qed.

(** A value that the node holds itself answers a default GET at once: the key is not searched in the network. *)
Theorem local_value_needs_no_network now heap sto ca neighbors keys key b e :
  wf sto -> wf ca -> frozen sto = false -> NoDup keys -> plain_tables now sto ca keys -> key ∈ keys ->
  local_value now sto key = Some (VWE (Binary b) e) ->
  exists st todo, start_get now None false heap sto ca neighbors keys = Ok (st, todo) /\ (key ∉ todo) /\ is_Some (answer_of st key).
Proof.
  intros Hw1 Hw2 Hf Hnd Hp Hk Hv.
  destruct (start_get_spec now None false heap sto ca neighbors keys Hw1 Hw2 Hnd Hp) as (st & Hst & _ & Hs).
  destruct (Hs key Hk) as (s & Hd & Hsa). eexists st, _. split; [exact Hst|].
  assert (He : now <= e).
  { destruct (get_local now sto key Hw1) as (sto' & Hg & _). rewrite Hv in Hg.
    exact (get_never_expired now sto sto' key (VWE (Binary b) e) Hw1 Hf Hg). }
  assert (Hfin : finished s = true).
  { eapply (sufficient_finishes key _ _ s (b, e, node_id)); [exact Hsa| |cbn; by apply Z.leb_le].
    unfold local_cands. rewrite Hv. apply elem_of_app. left. apply list_elem_of_here. }
  split.
  - rewrite list_elem_of_filter. unfold unfinished. rewrite Hd, Hfin. cbn. naive_solver.
  - unfold answer_of. rewrite Hd. unfold finished in Hfin. by destruct (future s).
Qed.

(** C23: One record that cannot be decoded blocks a GET of the latest value.  Suppose the node stores a dictionary under the key with an
    entry that [strip_value] or [loads] rejects, has nothing cached for it, and no peer answers with a value.  Then the end of
    the search raises in its callback, and after any sequence of such answers and ends of the search, as long as the entry
    lives, the future of the request is pending: no event of the request resolves it (only another request could, through
    [_reuse_finished_search_result]). *)
Theorem bad_record_blocks_get now now' refresh heap sto ca neighbors key r o d sk v e evs nearest :
  wf sto -> wf ca -> local_value now sto key = Some (VWE (Dictionary r) o) -> local_value now ca key = None ->
  heap !! r = Some d -> holds (entries d) sk v e -> now' <= e ->
  (forall x, render loads strip key (dumps_subkey sk) v e <> Ok x) -> Forall (no_news key e) evs ->
  exists st, start_get now (Some None) refresh heap sto ca neighbors [key] = Ok (st, [key]) /\
    answer_of (run_gets refresh st evs) key = None /\
    exists err, (found_callback now' refresh key nearest (run_gets refresh st evs)).2 = Raise err.
Proof.
  intros Hw1 Hw2 Hv Hca Hr Hh He Hbad Hev.
  set (s1 := mkSearch (Subkey:=Subkey) (Value:=Value) key None (Some (Dictionary r)) (Some o) (Some node_id) None).
  assert (Hstart : exists st, start_get now (Some None) refresh heap sto ca neighbors [key] = Ok (st, [key]) /\
            g_heap st = heap /\ dget (g_searches st) key = Some s1).
  { assert (Hl : exists st, local_lookup now refresh (mkGet heap sto ca (dict_of_list [(key, new_search key None)]) []) key = Ok st /\
      g_heap st = heap /\ dget (g_searches st) key = Some s1).
    { unfold local_lookup. cbn [g_searches g_storage g_cache g_heap]. unfold dgetitem, dict_of_list, dupdate. cbn [foldl fst snd].
      rewrite dget_dset_eq. cbn [of_option rbind]. destruct (get_local now sto key Hw1) as (sto1 & -> & _ & _). rewrite Hv.
      destruct (get_local now ca key Hw2) as (ca1 & -> & _ & _). rewrite Hca.
      destruct refresh; (eexists; split; [reflexivity|]; cbn [g_heap g_searches]; by rewrite dget_dset_eq). }
    destruct Hl as (st & Hl & Hh1 & Hs1). unfold start_get. cbn [foldM_r map]. cbn [sufficient_or_now]. rewrite Hl. cbn [rbind].
    rewrite filter_cons_True by (unfold unfinished; by rewrite Hs1). cbn [g_searches]. eexists. split; [reflexivity|done]. }
  destruct Hstart as (st & Hst & Hheap & Hs). exists st. split; [done|].
  assert (Hb : blocked_by r sk v e key s1 (run_gets refresh st evs)).
  { apply blocked_run; try done. split; [done|]. exists d. by rewrite Hheap. }
  split; [unfold answer_of; by rewrite (proj1 Hb)|].
  destruct (blocked_callback r sk v e key s1 now' refresh nearest _ Hb) as (err & st' & -> & _); try done. by exists err.
Qed.

End NodeGet.

(** ** [find_nearest_nodes] *)

Section FindNearest.
Context {PeerID : Type}.
(** [node_id] and [peer_id] of the node, and [k_nearest]. *)
Variable own : Z.
Variable own_peer : PeerID.
Variable k_nearest : nat.

(** [get_neighbors]: every node it names has its peer id in [node_to_peer_id]. *)
Definition find_get_neighbors {X} (queries : list Z) (response : option (list (Z * (X * list (Z * PeerID)))))
    (node_to_peer_id : pydict Z PeerID) : pydict Z PeerID * list (Z * (list Z * bool)) :=
  match response with
  | None | Some [] => (node_to_peer_id, map (fun q => (q, ([], false))) queries)
  | Some items =>
      (foldl (fun d it => dupdate d it.2.2) node_to_peer_id items, map (fun it => (it.1, (it.2.2.*1, false))) items)
  end.

(** The result for one query, from the nodes that the traversal found. *)
Definition nearest_with_peer_ids (exclude_self : bool) (node_to_peer_id : pydict Z PeerID) (query : Z) (nearest_nodes : list Z)
    : result (pydict Z PeerID * pydict Z PeerID) :=
  let nearest := if exclude_self then nearest_nodes else store_candidates own query nearest_nodes false in
  let peers := if exclude_self then node_to_peer_id else dset node_to_peer_id own own_peer in
  let* l := mapM_r (fun node => let* p := dgetitem peers node in Ok (node, p)) (take k_nearest nearest) in
  Ok (peers, dict_of_list l).

(** Nodes named in an answer are known afterwards, and none is forgotten. *)
Lemma find_get_neighbors_known {X} queries response peers (n : Z) :
  let '(peers', out) := find_get_neighbors (X:=X) queries response peers in
  is_Some (dget peers n) \/ (exists q l b, (q, (l, b)) ∈ out /\ n ∈ l) -> is_Some (dget peers' n).
Proof.
  unfold find_get_neighbors.
  assert (Hq : is_Some (dget peers n) \/ (exists q l b, (q, (l, b)) ∈ map (fun q => (q, ([] : list Z, false))) queries /\ n ∈ l) -> is_Some (dget peers n)).
  { intros [?|(q & l & b & Hin & Hn)]; [done|]. apply list_elem_of_fmap in Hin as (q' & Heq & _). simplify_eq. by apply not_elem_of_nil in Hn. }
  assert (Hup : forall (l : list (Z * PeerID)) d, is_Some (dget d n) \/ n ∈ l.*1 -> is_Some (dget (dupdate d l) n)).
  { unfold dupdate. induction l as [|[k v] l IH]; intros d Hd; cbn [foldl]; [set_solver|]. apply IH. cbn [fst snd].
    destruct (decide (k = n)) as [->|Hne]; [left; rewrite dget_dset_eq; eauto|]. rewrite dget_dset_ne by done. set_solver. }
  destruct response as [[|it its]|]; [done| |done]. clear Hq. generalize (it :: its). intros l. revert peers.
  induction l as [|[q [x ps]] l IH]; intros peers Hin; cbn [foldl map] in *.
  { destruct Hin as [?|(q & l & b & Hin & _)]; [done|]. by apply not_elem_of_nil in Hin. }
  apply IH. cbn [fst snd]. destruct Hin as [Hd|(q' & l' & b & Hin & Hn)]; [left; apply Hup; by left|].
  apply elem_of_cons in Hin as [Heq|Hin]; [|right; eauto 6]. simplify_eq. left. apply Hup. by right.
Qed.

Lemma take_nearer query (l : list Z) (k : nat) n m :
  StronglySorted (nearer query) l -> n ∈ take k l -> m ∈ l -> (m ∉ take k l) -> nearer query n m.
Proof.
  intros Hs Hn Hm Hnot. rewrite <- (take_drop k l) in Hm, Hs. apply elem_of_app in Hm as [?|Hm]; [done|].
  apply StronglySorted_app in Hs as (H & _ & _). auto.
Qed.

Lemma dict_of_distinct (f : Z -> PeerID) l :
  NoDup l -> dict_of_list (map (fun n => (n, f n)) l) = map (fun n => (n, f n)) l.
Proof.
  unfold dict_of_list, dupdate. change (map (fun n => (n, f n)) l) with ([] ++ map (fun n => (n, f n)) l) at 2.
  assert (H0 : forall n, n ∈ l -> n ∉ dkeys (K:=Z) (V:=PeerID) []) by (intros; apply not_elem_of_nil).
  revert H0. generalize (@nil (Z * PeerID)). induction l as [|n l IH]; intros d Hd Hnd; cbn [map foldl]; [by rewrite app_nil_r|].
  apply NoDup_cons in Hnd as [Hn Hnd]. cbn [fst snd]. rewrite dkeys_dset_notin by (apply Hd, list_elem_of_here).
  rewrite IH; [by rewrite <- app_assoc| |done]. intros m Hm. unfold dkeys. rewrite fmap_app. cbn. apply not_elem_of_app. split.
  - apply Hd. by apply list_elem_of_further.
  - intros Hin. apply list_elem_of_singleton in Hin as ->. done.
Qed.

(** The node returns the [k_nearest] nearest of the nodes it found, itself included unless excluded, in order of distance, each with
    its peer id. *)
Theorem find_nearest_correct (exclude_self : bool) (peers : pydict Z PeerID) (query : Z) (nearest : list Z) :
  (forall n, n ∈ nearest -> is_Some (dget peers n)) -> StronglySorted (nearer query) nearest -> NoDup nearest -> (own ∉ nearest) ->
  let all := nearest ++ (if exclude_self then [] else [own]) in
  exists peers' d, nearest_with_peer_ids exclude_self peers query nearest = Ok (peers', d) /\
    length d = Nat.min k_nearest (length all) /\ NoDup (dkeys d) /\ StronglySorted (nearer query) (dkeys d) /\
    (forall n, n ∈ dkeys d -> n ∈ all /\ dget d n = dget peers' n) /\
    (forall n m, n ∈ dkeys d -> m ∈ all -> (m ∉ dkeys d) -> nearer query n m).
Proof.
  intros Hknown Hsorted Hnd Hown all. unfold nearest_with_peer_ids.
  set (l := if exclude_self then nearest else store_candidates own query nearest false).
  set (ps := if exclude_self then peers else dset peers own own_peer).
  assert (Hl : StronglySorted (nearer query) l /\ l ≡ₚ all).
  { subst l all. destruct exclude_self; [by rewrite app_nil_r|]. apply store_candidates_spec. }
  destruct Hl as [Hls Hlp]. assert (Hndl : NoDup l).
  { rewrite Hlp. subst all. apply NoDup_app. split; [done|]. destruct exclude_self; split; try set_solver; [constructor|apply NoDup_singleton]. }
  assert (Hps : forall n, n ∈ l -> exists p, dget ps n = Some p).
  { intros n Hn. rewrite Hlp in Hn. subst all ps. apply elem_of_app in Hn as [Hn|Hn].
    - destruct (Hknown n Hn) as [p Hp]. destruct exclude_self; [eauto|]. rewrite dget_dset_ne by set_solver. eauto.
    - destruct exclude_self; [by apply not_elem_of_nil in Hn|]. apply list_elem_of_singleton in Hn as ->. rewrite dget_dset_eq. eauto. }
  assert (Htk : forall n, n ∈ take k_nearest l -> n ∈ l) by (intros n Hn; rewrite <- (take_drop k_nearest l); set_solver).
  pose (f := fun n => default own_peer (dget ps n)).
  assert (Hmap : mapM_r (fun node => let* p := dgetitem ps node in Ok (node, p)) (take k_nearest l) = Ok (map (fun n => (n, f n)) (take k_nearest l))).
  { apply mapM_r_Ok. intros n Hn. destruct (Hps n (Htk n Hn)) as [p Hp]. unfold dgetitem, f. by rewrite Hp. }
  rewrite Hmap. cbn [rbind]. assert (Hndt : NoDup (take k_nearest l)).
  { rewrite <- (take_drop k_nearest l) in Hndl. by apply NoDup_app in Hndl as [? _]. }
  rewrite dict_of_distinct by done. eexists ps, _. split; [done|].
  assert (Hkeys : dkeys (map (fun n => (n, f n)) (take k_nearest l)) = take k_nearest l).
  { unfold dkeys. rewrite <- list_fmap_compose. cbn. apply list_fmap_id. }
  rewrite Hkeys. split_and!.
  - rewrite length_map, length_take, Hlp. done.
  - done.
  - rewrite <- (take_drop k_nearest l) in Hls. by apply StronglySorted_app in Hls as (_ & ? & _).
  - intros n Hn. split; [rewrite <- Hlp; auto|]. destruct (Hps n (Htk n Hn)) as [p Hp]. rewrite Hp.
    apply dwf_elem_dget; [unfold dwf; by rewrite Hkeys|]. apply list_elem_of_fmap. exists n. split; [|done]. unfold f. by rewrite Hp.
  - intros n m Hn Hm Hnot. rewrite <- Hlp in Hm. by eapply take_nearer.
Qed.
End FindNearest.

(** ** Concrete requests: bytes as values, of which [[255]] cannot be loaded *)

Definition toy_loads (b : bytes) : result bytes := if decide (b = [255]) then Raise ValueError else Ok b.
Definition toy_table (v : DHTValue bytes) : TimedStorage Z (DHTValue bytes) :=
  mkTS false None [(7, VWE v 20)] [(20, 7)] [(7, (20, 7))].
Abbreviation empty_table := (init (K:=Z) (V:=DHTValue bytes) false None).

Lemma toy_table_wf v : wf (toy_table v).
Proof.
  destruct (store_true_holds 0 empty_table (toy_table v) 7 v 20) as [H _]; [apply wf_init|reflexivity|lia|reflexivity|exact H].
Qed.

(** The node has a value until 20; a peer has one until 30. *)
Definition toy_answers : list (get_event (Subkey:=Z) (PeerID:=Z)) :=
  [PeerAnswered 6 101 [7] [] (Some [(7, (Some (VWE (Binary [2]) 30), [(102, 1002)]))]); PeerAnswered 6 102 [7] [] None].

Lemma get_answers_best_witness :
  exists st todo s, start_get (Value:=bytes) toy_loads (fun _ => []) raw_value 1 5 (Some None) false [] (toy_table (Binary [1])) empty_table
      (fun _ => [(101, 1001)]) [7] = Ok (st, todo) /\
    dget (g_searches (run_gets toy_loads (fun _ => []) raw_value true 2 false st (toy_answers ++ SearchOver 8 7 [101] :: []))) 7 = Some s /\
    best_answer toy_loads raw_value 7 None [([1], 20, 1); ([2], 30, 101)] s.
Proof.
  apply (get_answers_best toy_loads (fun _ => []) raw_value 1 true 2 5 (Some None) false [] (toy_table (Binary [1])) empty_table
    (fun _ => [(101, 1001)]) [7] 7 8 [101] toy_answers []).
  - apply toy_table_wf.
  - apply wf_init.
  - apply NoDup_singleton.
  - repeat constructor. cbn. eexists. reflexivity.
  - apply list_elem_of_here.
  - repeat constructor. cbn. eexists. reflexivity.
  - repeat constructor.
Defined.

Lemma local_value_needs_no_network_witness :
  exists st todo, start_get (Subkey:=Z) (Value:=bytes) (PeerID:=Z) toy_loads (fun _ => []) raw_value 1 5 None false [] (toy_table (Binary [1])) empty_table
      (fun _ => []) [7] = Ok (st, todo) /\ (7 ∉ todo) /\ is_Some (answer_of st 7).
Proof.
  apply (local_value_needs_no_network toy_loads (fun _ => []) raw_value 1 5 [] (toy_table (Binary [1])) empty_table (fun _ => []) [7] 7 [1] 20).
  - apply toy_table_wf.
  - apply wf_init.
  - reflexivity.
  - apply NoDup_singleton.
  - repeat constructor. cbn. eexists. reflexivity.
  - apply list_elem_of_here.
  - reflexivity.
Defined.

(** A dictionary with the entry [3], whose value cannot be loaded. *)
Abbreviation bad_dict := (mkDict (mkTS (K:=Z) false None [(3, VWE [255] 20)] [(20, 3)] [(3, (20, 3))]) (Some 20)).

Abbreviation bad_events := [PeerAnswered 6 101 [7] [] None; SearchOver 8 7 [101]; PeerAnswered 9 102 [7] [] (Some [(7, (None, []))])].

Lemma bad_record_blocks_get_witness :
  exists st, start_get (Value:=bytes) toy_loads (fun _ => []) raw_value 1 5 (Some None) false [bad_dict] (toy_table (Dictionary 0)) empty_table
      (fun _ => [(101, 1001)]) [7] = Ok (st, [7]) /\
    answer_of (run_gets toy_loads (fun _ => []) raw_value true 2 false st bad_events) 7 = None /\
    exists err, (found_callback toy_loads (fun _ => []) raw_value true 2 10 false 7 [101]
       (run_gets toy_loads (fun _ => []) raw_value true 2 false st bad_events)).2 = Raise err.
Proof.
  apply (bad_record_blocks_get toy_loads (fun _ => []) raw_value 1 true 2 5 10 false [bad_dict] (toy_table (Dictionary 0)) empty_table
    (fun _ => [(101, 1001)]) 7 0%nat 20 bad_dict 3 [255] 20 bad_events [101]).
  - apply toy_table_wf.
  - apply wf_init.
  - reflexivity.
  - reflexivity.
  - reflexivity.
  - apply (store_true_holds 0 (init (K:=Z) (V:=bytes) false None)); [apply wf_init|reflexivity|lia|reflexivity].
  - lia.
  - intros x. vm_compute. discriminate.
  - repeat constructor. vm_compute. discriminate.
Defined.

(** Of the nodes 4 and 9, and the node 1 itself, the two nearest to 5 are 4 and 1. *)
Lemma find_nearest_correct_witness :
  exists peers' d, nearest_with_peer_ids 1 1001 2 false [(9, 1009); (4, 1004)] 5 [4; 9] = Ok (peers', d) /\
    length d = 2%nat /\ NoDup (dkeys d).
Proof.
  destruct (find_nearest_correct 1 1001 2 false [(9, 1009); (4, 1004)] 5 [4; 9]) as (peers' & d & H1 & H2 & H3 & _).
  - intros n Hn. apply elem_of_cons in Hn as [->|Hn]; [eexists; reflexivity|]. apply list_elem_of_singleton in Hn as ->. eexists. reflexivity.
  - repeat constructor; vm_compute; discriminate.
  - apply NoDup_cons. split; [set_solver|apply NoDup_singleton].
  - set_solver.
  - exists peers', d. split; [exact H1|]. split; [exact H2|exact H3].
Defined.
