(* ===== verification/CacheRefresh.v ===== *)
(** * Refreshing the cache in the background ([mesh/dht/node.py], [CacheRefreshQueue] and its users in [DHTNode])

    Values that were read from the local cache are fetched again shortly before they expire.  The keys to
    refresh wait in a [CacheRefreshQueue], a [TimedStorage] that is frozen, so that nothing is dropped from it
    by time; the coroutine [_refresh_stale_cache_entries] sleeps until the earliest refresh time, or until
    [cache_refresh_evt] says that an earlier key was added, and then fetches the keys that are due.

    The coroutine is a state machine whose states are its [await]s ([pc]); the functions below are the
    code it runs between two of them, and [step] interleaves them with the calls of the other coroutines of the
    node.  One clock gives the time-outs and [get_dht_time]. *)

From S2P Require Import Prelude TimedStorage DHTID Storage Validation Protocol Search.

(** [CacheRefreshQueue]: [frozen = True] *)
Abbreviation CacheRefreshQueue := (TimedStorage Z Z).
Definition new_queue : CacheRefreshQueue := init true None.

(** Two equations give the result of the same call. *)
Ltac same_result H1 H2 := rewrite H1 in H2; simplify_eq.

Section CacheRefresh.
(** Sub-keys are Python values; a plain value has the sub-key [None]. *)
Context {Subkey : Type} `{EqS : EqDecision Subkey} `{OrdS : PyOrd Subkey} {LawS : PyOrdLaws Subkey}.
Variable py_none : Subkey.
(** [node_id], [cache_refresh_before_expiry] and [chunk_size] of the node. *)
Variable node_id before_expiry : Z.
Variable chunk_size : nat.

(** Where the refresh coroutine is suspended. *)
Inductive pc : Type :=
  | Created                        (* [create_task], not run yet *)
  | OnEmpty                        (* [await self.cache_refresh_evt.wait()] *)
  | Waiting (key t since : Z)      (* [wait_for(..., timeout=t - since)], [key] is the earliest key *)
  | Fetching (keys : list Z) (sufficient : Z).  (* [await self.get_many_by_id(keys, sufficient, ...)] *)

(** The part of [DHTNode] that takes part; [task = None] when there is no task or it is done. *)
Record Node : Type := mkNode {
  cache : DHTLocalStorage Subkey bytes;
  queue : CacheRefreshQueue;
  evt : bool;
  task : option pc;
  is_alive : bool;
}.
Implicit Types (n : Node) (q : CacheRefreshQueue) (now key : Z).

Definition set_cache n c : Node := mkNode c (queue n) (evt n) (task n) (is_alive n).
Definition set_queue n q : Node := mkNode (cache n) q (evt n) (task n) (is_alive n).
Definition set_evt n b : Node := mkNode (cache n) (queue n) b (task n) (is_alive n).
Definition set_task n t : Node := mkNode (cache n) (queue n) (evt n) t (is_alive n).

(** [_schedule_for_refresh] *)
Definition schedule_for_refresh now n key (refresh_time : Z) : result Node :=
  let n1 := match task n with None => set_task n (Some Created) | Some _ => n end in
  let* (q, earliest) := top now (queue n1) in
  let wake := match earliest with None => true | Some (_, item) => refresh_time <? expiration_time item end in
  let n2 := set_evt n1 (wake || evt n1) in
  let* (q', _) := store now q key refresh_time refresh_time in
  Ok (set_queue n2 q').

(** [_trigger_cache_refresh] *)
Definition trigger_cache_refresh {Value} now n (search : SearchState (Subkey:=Subkey) (Value:=Value)) : result Node :=
  match found_expiration search with
  | None => Ok n
  | Some e =>
      if bool_decide (source_node_id search = Some node_id) && negb (before_expiry =? 0) then
        let* (tb, cached) := contains now (table (cache n)) (key_id search) in
        let n1 := set_cache n (mkLS (objects (cache n)) tb) in
        if cached then schedule_for_refresh now n1 (key_id search) (e - before_expiry) else Ok n1
      else Ok n
  end.

(** [max(zip(expirations, binary_values))]: pairs compare by expiration, then by value. *)
Definition py_max (l : list (Z * bytes)) : result (Z * bytes) :=
  match l with
  | [] => Raise ValueError
  | x :: rest => Ok (fold_left (fun m y => if py_leb y m then m else y) rest x)
  end.

(** The loop over the sub-keys of an accepted dictionary store. *)
Fixpoint cache_subkeys now (c : DHTLocalStorage Subkey bytes) key (l : list (Subkey * bytes * Z * bool))
    : result (DHTLocalStorage Subkey bytes) :=
  match l with
  | [] => Ok c
  | (subkey, v, e, accepted) :: rest =>
      if accepted : bool then let* (c', _) := store_subkey now c key subkey v e in cache_subkeys now c' key rest
      else cache_subkeys now c key rest
  end.

(** [_update_cache_on_store] *)
Definition update_cache_on_store now n key (subkeys : list Subkey) (binary_values : list bytes)
    (expirations : list Z) (store_ok : list bool) : result Node :=
  let store_succeeded := existsb id store_ok in
  let is_dictionary := existsb (fun sk => negb (bool_decide (sk = py_none))) subkeys in
  if store_succeeded && negb is_dictionary then
    let* (stored_expiration, stored_value) := py_max (zip expirations binary_values) in
    let* (tb, _) := store now (table (cache n)) key (Binary stored_value) stored_expiration in
    Ok (set_cache n (mkLS (objects (cache n)) tb))
  else if negb store_succeeded && negb is_dictionary then
    let* (rejected_expiration, _) := py_max (zip expirations binary_values) in
    let* (c, cached) := local_get now (cache n) key in
    let n1 := set_cache n c in
    match cached with
    | Some x => if expiration_time x <=? rejected_expiration then schedule_for_refresh now n1 key now else Ok n1
    | None => Ok n1
    end
  else
    let* (tb, cached) := contains now (table (cache n)) key in
    let n1 := set_cache n (mkLS (objects (cache n)) tb) in
    if cached then
      let* c := cache_subkeys now (cache n1) key (zip (zip (zip subkeys binary_values) expirations) store_ok) in
      schedule_for_refresh now (set_cache n1 c) key now
    else Ok n1.

(** ** [_refresh_stale_cache_entries] *)

(** The inner [while len(...) == 0] loop up to the next [await], and the computation of the time to wait. *)
Definition await_earliest now n : result Node :=
  let* (q, size) := len now (queue n) in
  if (size =? 0)%nat then Ok (set_task (set_queue n q) (Some OnEmpty))
  else
    let* (q', earliest) := top now q in
    match earliest with
    | None => Raise TypeError
    | Some (key, item) => Ok (set_task (set_queue n q') (Some (Waiting key (expiration_time item) now)))
    end.

(** [while self.is_alive] *)
Definition loop_head now n : result Node :=
  if is_alive n then await_earliest now n else Ok (set_task n None).

(** [keys_to_refresh.add(key_id)] on a set *)
Definition set_add (keys : list Z) key : list Z := if decide (key ∈ keys) then keys else keys ++ [key].

(** The loop of step 2; each iteration removes one key from the queue, whose size is the fuel. *)
Fixpoint collect_due (fuel : nat) now q (c : DHTLocalStorage Subkey bytes) (keys : list Z) (max_expiration_time : Z)
    : result (CacheRefreshQueue * DHTLocalStorage Subkey bytes * list Z * Z) :=
  match fuel with
  | O => Ok (q, c, keys, max_expiration_time)
  | S fuel =>
      if bool_ q && (length keys <? chunk_size)%nat then
        let* (q1, earliest) := top now q in
        match earliest with
        | None => Raise TypeError
        | Some (key, item) =>
            if now <? expiration_time item then Ok (q1, c, keys, max_expiration_time)
            else
              let* q2 := delitem q1 key in
              let* (c1, cached_item) := local_get now c key in
              let max' := match cached_item with
                          | Some x => if max_expiration_time <? expiration_time x then expiration_time x
                                      else max_expiration_time
                          | None => max_expiration_time
                          end in
              collect_due fuel now q2 c1 (set_add keys key) max'
        end
      else Ok (q, c, keys, max_expiration_time)
  end.

(** The [except asyncio.TimeoutError] branch, up to the call of [get_many_by_id]. *)
Definition on_timeout now n key (t : Z) : result Node :=
  let* q := delitem (queue n) key in
  let* r := collect_due (length (data q)) now q (cache n) [key] t in
  let '(q', c, keys, max_expiration_time) := r in
  Ok (set_task (set_queue (set_cache n c) q') (Some (Fetching keys (max_expiration_time + before_expiry + 1)))).

(** ** Interleaving *)

Inductive event : Type :=
  | Schedule (key refresh_time : Z)  (* a call of [_schedule_for_refresh] *)
  | Resume                           (* the refresh coroutine runs to its next [await] *)
  | FetchRaised                      (* [get_many_by_id] raised, the coroutine ends *)
  | Shutdown                         (* [is_alive = False] *)
  | CacheUse.                        (* other users of the cache *)

(** What runs between two [await]s.  A task resumes from a wait when the event is set, or when the time is up; a
    wait of no time at all ends with a time-out whether or not the event is set. *)
Inductive step now : event -> Node -> Node -> Prop :=
  | st_schedule n key r n' : schedule_for_refresh now n key r = Ok n' -> step now (Schedule key r) n n'
  | st_start n n' : task n = Some Created -> loop_head now n = Ok n' -> step now Resume n n'
  | st_nonempty n n' :
      task n = Some OnEmpty -> evt n = true -> await_earliest now (set_evt n false) = Ok n' -> step now Resume n n'
  | st_wake n key t since n' :
      task n = Some (Waiting key t since) -> since < t -> evt n = true ->
      loop_head now (set_evt n false) = Ok n' -> step now Resume n n'
  | st_timeout n key t since n' :
      task n = Some (Waiting key t since) -> t <= now -> on_timeout now n key t = Ok n' -> step now Resume n n'
  | st_fetched n keys e n' :
      task n = Some (Fetching keys e) -> loop_head now n = Ok n' -> step now Resume n n'
  | st_fetch_raised n keys e : task n = Some (Fetching keys e) -> step now FetchRaised n (set_task n None)
  | st_shutdown n : step now Shutdown n (mkNode (cache n) (queue n) (evt n) (task n) false)
  | st_cache n c : ls_inv c -> step now CacheUse n (set_cache n c).

(** The node as [DHTNode.create] leaves it. *)
Definition new_node (c : DHTLocalStorage Subkey bytes) : Node := mkNode c new_queue false None true.

(** The refresh time under which a key waits. *)
Definition scheduled q key : option Z := expiration_time <$> dget (data q) key.

(** ** The queue: a frozen [TimedStorage] *)

Definition qwf q : Prop := wf q /\ frozen q = true.

(** The heap orders the keys by the refresh times they are stored with. *)
Definition agree q : Prop :=
  forall k p x, dget (key_to_heap q) k = Some p -> dget (data q) k = Some x -> p.1 = expiration_time x.

Lemma qwf_new : qwf new_queue.
Proof. split; [apply wf_init|done]. Qed.

Lemma frozen_clean now q : qwf q -> _remove_outdated now q = Ok q.
Proof.
  intros [Hw Hf]. destruct (remove_outdated_spec now q Hw) as (q' & -> & Hc).
  by rewrite (cl_frozen_same _ _ _ Hc Hf).
Qed.

(** Same keys, refresh times and heap entries. *)
Definition same_queue q q' : Prop := data q' = data q /\ key_to_heap q' = key_to_heap q.

Lemma same_scheduled q q' key : same_queue q q' -> scheduled q' key = scheduled q key.
Proof. unfold scheduled. by intros [-> _]. Qed.

Lemma same_agree q q' : same_queue q q' -> agree q -> agree q'.
Proof. unfold agree. by intros [-> ->]. Qed.

Lemma top_frozen now q :
  qwf q -> exists q' r, top now q = Ok (q', r) /\ qwf q' /\ same_queue q q' /\
    match r with
    | None => data q = []
    | Some (k, x) => dget (data q) k = Some x /\
        exists e, evict_time q k = Some e /\ forall k' e', evict_time q k' = Some e' -> e <= e'
    end.
Proof.
  intros [Hw Hf]. destruct (top_spec now q Hw) as (q' & r & Ht & Hw' & Hf' & _ & (s1 & Hc & Hd & Hk) & Hr).
  rewrite (cl_frozen_same _ _ _ Hc Hf) in Hd, Hk. exists q', r. unfold evict_time in *. rewrite Hd, Hk in Hr.
  split_and!; [done| |done|done]. split; [done|congruence].
Qed.

(** With an agreeing heap, [top] is the key with the earliest refresh time. *)
Lemma agree_earliest q k x e k' t' :
  qwf q -> agree q -> dget (data q) k = Some x -> evict_time q k = Some e ->
  (forall k' e', evict_time q k' = Some e' -> e <= e') -> scheduled q k' = Some t' -> expiration_time x <= t'.
Proof.
  intros [Hw _] Ha Hx He Hmin. unfold scheduled, evict_time in *. destruct (dget (data q) k') as [x'|] eqn:E; [|done].
  cbn. intros [= <-]. destruct (proj1 (wf_dom _ Hw k')) as [p' Hp']; [eauto|].
  destruct (dget (key_to_heap q) k) as [p|] eqn:Ep; [|done]. cbn in He. injection He as <-.
  rewrite <- (Ha _ _ _ Ep Hx), <- (Ha _ _ _ Hp' E). apply (Hmin k'). by rewrite Hp'.
Qed.

Lemma store_frozen now q k v e :
  qwf q -> exists q', store now q k v e = Ok (q', accepts now q k e) /\ qwf q' /\
    data q' = (if accepts now q k e then dset (data q) k (VWE v e) else data q) /\
    key_to_heap q' = dset (key_to_heap q) k (e, k).
Proof.
  intros [Hw Hf]. destruct (store_spec now q k v e Hw) as (q' & Hs & Hw' & Hf' & _).
  exists q'. split; [done|]. split; [split; [done|congruence]|]. revert Hs. unfold store, accepts.
  rewrite Hf, andb_false_r. cbn [negb andb]. destruct (dget (data q) k) as [old|]; [destruct (expiration_time old <? e)|];
    [intros; by simplify_eq..|].
  rewrite frozen_clean; [cbn; intros; by simplify_eq|]. split; [|done].
  rewrite <- Hf. destruct q. by apply wf_store_new.
Qed.

(** A queued key keeps the later of its two refresh times. *)
Lemma scheduled_store now q k e q' b key :
  qwf q -> store now q k e e = Ok (q', b) ->
  scheduled q' key = if decide (key = k) then Some (max_inf (scheduled q k) e) else scheduled q key.
Proof.
  intros Hq Hs. destruct (store_frozen now q k e e Hq) as (q1 & Hs1 & _ & Hd & _). rewrite Hs in Hs1.
  simplify_eq. unfold scheduled. rewrite Hd. destruct Hq as [_ Hf]. unfold accepts. rewrite Hf, andb_false_r. cbn [negb andb].
  case_decide as Hk; subst.
  - destruct (dget (data q) k) as [old|] eqn:E; cbn; [|by rewrite dget_dset_eq].
    destruct (expiration_time old <? e) eqn:El; propify; [rewrite dget_dset_eq|rewrite E]; cbn; f_equal; lia.
  - destruct (match dget (data q) k with Some _ => _ | None => _ end); [|done]. by rewrite dget_dset_ne.
Qed.

(** Not asking for an earlier refresh than the one that is queued. *)
Definition not_sooner q key (r : Z) : Prop := forall t, scheduled q key = Some t -> t <= r.

Lemma agree_store now q k e q' b :
  qwf q -> agree q -> not_sooner q k e -> store now q k e e = Ok (q', b) -> agree q'.
Proof.
  intros Hq Ha Hn Hs k' p x Hp Hx. pose proof (scheduled_store _ _ _ _ _ _ k' Hq Hs) as Hsch.
  destruct (store_frozen now q k e e Hq) as (q1 & Hs1 & _ & Hd & Hk). same_result Hs Hs1.
  rewrite Hk in Hp. unfold scheduled at 1 in Hsch. rewrite Hx in Hsch. cbn in Hsch. case_decide; subst.
  - rewrite dget_dset_eq in Hp. simplify_eq. cbn. rewrite Hsch. unfold not_sooner in Hn.
    destruct (scheduled q k) as [t|]; cbn; [specialize (Hn t eq_refl); lia|done].
  - rewrite dget_dset_ne in Hp by done. unfold scheduled in Hsch. destruct (dget (data q) k') as [y|] eqn:E; [|done].
    cbn in Hsch. simplify_eq. rewrite (Ha _ _ _ Hp E). congruence.
Qed.

Lemma del_frozen q k :
  qwf q -> exists q', delitem q k = Ok q' /\ qwf q' /\
    (forall key, scheduled q' key = if decide (key = k) then None else scheduled q key) /\
    (agree q -> agree q') /\ (is_Some (scheduled q k) -> (length (data q') < length (data q))%nat) /\
    (length (data q') <= length (data q))%nat.
Proof.
  intros [Hw Hf]. destruct (delitem_spec q k Hw) as (q' & Hd & Hw' & Hf' & _ & Hn & Ho).
  exists q'. split; [done|]. split; [split; [done|congruence]|]. split; [|split].
  - intros key. unfold scheduled. case_decide; subst; [by rewrite Hn|]. by destruct (Ho key) as [-> _].
  - intros Ha key p x Hp Hx. destruct (decide (k = key)) as [->|Hne]; [congruence|].
    destruct (Ho key Hne) as [Hod Hok]. apply (Ha key); congruence.
  - revert Hd. unfold delitem, scheduled. destruct (dmem (key_to_heap q) k) eqn:E.
    + apply dmem_true, (wf_dom q Hw) in E. rewrite (pydel_ok (data q)) by done. cbn.
      intros. mon_inv. simplify_eq. cbn. pose proof (ddel_length (data q) k (wf_data q Hw) E). split; intros; lia.
    + apply dmem_false in E. intros. simplify_eq. split; [|lia]. intros [t Ht].
      destruct (dget (data q') k) eqn:Ed; [|done]. destruct (proj1 (wf_dom q' Hw k)); [eauto|congruence].
Qed.

(** ** What each operation does *)

Definition node_ok n : Prop := qwf (queue n) /\ ls_inv (cache n).

(** The coroutine sleeps no longer than until the earliest refresh, unless it is being woken. *)
Definition wakes_in_time n : Prop :=
  match task n with
  | Some OnEmpty => evt n = true \/ data (queue n) = []
  | Some (Waiting _ t _) => evt n = true \/ forall key t', scheduled (queue n) key = Some t' -> t <= t'
  | _ => True
  end.

Lemma schedule_spec now n key r :
  qwf (queue n) -> exists n', schedule_for_refresh now n key r = Ok n' /\ qwf (queue n') /\ cache n' = cache n /\
    is_alive n' = is_alive n /\ task n' = Some (default Created (task n)) /\
    (forall k, scheduled (queue n') k =
       if decide (k = key) then Some (max_inf (scheduled (queue n) key) r) else scheduled (queue n) k) /\
    key_to_heap (queue n') = dset (key_to_heap (queue n)) key (r, key) /\
    ((evt n = true \/ forall k e, evict_time (queue n) k = Some e -> r < e) -> evt n' = true) /\
    (agree (queue n) -> not_sooner (queue n) key r -> agree (queue n') /\ (wakes_in_time n -> wakes_in_time n')).
Proof.
  intros Hq. unfold schedule_for_refresh.
  set (n1 := match task n with None => _ | Some _ => n end).
  assert (Hn1 : queue n1 = queue n /\ cache n1 = cache n /\ is_alive n1 = is_alive n /\ evt n1 = evt n /\
                task n1 = Some (default Created (task n))) by (subst n1; by destruct (task n) eqn:E).
  destruct Hn1 as (E1 & E2 & E3 & E4 & E5). rewrite E1.
  destruct (top_frozen now (queue n) Hq) as (q & earliest & -> & Hq1 & Hsame & Hr). cbn [rbind].
  destruct (store_frozen now q key r r Hq1) as (q' & Hs & Hq' & _ & Hk). rewrite Hs. cbn [rbind].
  eexists. split; [done|]. cbn. rewrite E2, E3, E4, E5. split_and!; auto.
  - intros k. rewrite (scheduled_store _ _ _ _ _ _ k Hq1 Hs). by rewrite !(same_scheduled _ _ _ Hsame).
  - by rewrite Hk, (proj2 Hsame).
  - intros [->|Hall]; [apply orb_true_r|]. destruct earliest as [[k x]|]; [|done].
    destruct Hr as (Hx & e & He & _). specialize (Hall _ _ He). unfold evict_time in He.
    destruct (dget (key_to_heap (queue n)) k) as [p|] eqn:Ep; [|done]. cbn in He. injection He as <-.
    pose proof (wf_evict _ (proj1 Hq) _ _ _ Ep Hx). apply orb_true_iff. left. apply Z.ltb_lt. lia.
  - intros Ha Hns. split.
    + eapply agree_store; [exact Hq1|by eapply same_agree| |exact Hs]. intros t. rewrite (same_scheduled _ _ _ Hsame). apply Hns.
    + unfold wakes_in_time. cbn. rewrite ?E5, ?E4. destruct (task n) as [[| |k t since|]|]; try done; cbn.
      * intros [->|Hempty]; [left; apply orb_true_r|]. left. destruct earliest as [[k x]|]; [|done].
        destruct Hr as [Hr _]. by rewrite Hempty in Hr.
      * intros [->|Hmin]; [left; apply orb_true_r|]. destruct earliest as [[k0 x]|]; [|by left].
        destruct Hr as [Hx _]. destruct (r <? expiration_time x) eqn:El; [by left|]. right. propify.
        intros k' t'. rewrite (scheduled_store _ _ _ _ _ _ k' Hq1 Hs), !(same_scheduled _ _ _ Hsame).
        case_decide; subst; [|apply Hmin]. intros [= <-].
        assert (t <= expiration_time x) by (apply (Hmin k0); unfold scheduled; by rewrite Hx).
        destruct (scheduled (queue n) key) eqn:Ek; cbn; [|lia]. specialize (Hmin _ _ Ek). lia.
Qed.

(** Values that are still cached are the ones that were. *)
Definition kept (c c' : DHTLocalStorage Subkey bytes) : Prop :=
  forall k x, dget (data (table c')) k = Some x -> dget (data (table c)) k = Some x.

Lemma cached_get_spec now c k :
  ls_inv c -> exists c', local_get now c k = Ok (c', dget (data (table c')) k) /\ ls_inv c' /\ kept c c'.
Proof.
  intros Hi. unfold local_get. destruct (get_effect now (table c) k (li_wf _ Hi)) as (tb & -> & Hc). cbn.
  exists (mkLS (objects c) tb). split; [done|]. split; [by eapply ls_inv_cleaned|]. intros k' x Hx. by apply (cl_kept _ _ _ Hc) in Hx as [? _].
Qed.

(** The keys [new] are taken from the queue [q], which becomes [q']. *)
Record taken now q q' (c c' : DHTLocalStorage Subkey bytes) (keys new : list Z) (m m' : Z) : Prop := {
  tk_queue : qwf q';
  tk_cache : ls_inv c';
  tk_kept : kept c c';
  tk_nodup : NoDup (keys ++ new);
  tk_due : Forall (fun k => exists t, scheduled q k = Some t /\ t <= now) new;
  tk_rest k : scheduled q' k = if decide (k ∈ new) then None else scheduled q k;
  tk_agree : agree q -> agree q';
  tk_size : new = [] \/ (length (keys ++ new) <= chunk_size)%nat;
  tk_max : m <= m';
  tk_newer k x : k ∈ new -> dget (data (table c')) k = Some x -> expiration_time x <= m';
  tk_all k t : agree q -> (length (keys ++ new) < chunk_size)%nat -> scheduled q' k = Some t -> now < t;
}.

Lemma taken_none now q q' c keys m :
  qwf q' -> same_queue q q' -> ls_inv c -> NoDup keys ->
  (forall k t, agree q -> (length keys < chunk_size)%nat -> scheduled q' k = Some t -> now < t) ->
  taken now q q' c c keys [] m m.
Proof.
  intros Hq Hs Hi Hnd Hall. split; rewrite ?app_nil_r; auto.
  - by intros k x.
  - intros k. by rewrite (same_scheduled _ _ _ Hs).
  - by apply same_agree.
  - lia.
  - intros k x Hk. by apply not_elem_of_nil in Hk.
Qed.

Lemma taken_cons now q q2 q' c c1 c' keys k t new m m1 m' :
  qwf q -> ls_inv c1 -> kept c c1 -> scheduled q k = Some t -> t <= now -> k ∉ keys -> (length keys < chunk_size)%nat ->
  (forall k', scheduled q2 k' = if decide (k' = k) then None else scheduled q k') -> (agree q -> agree q2) ->
  m <= m1 -> (forall x, dget (data (table c1)) k = Some x -> expiration_time x <= m1) ->
  taken now q2 q' c1 c' (keys ++ [k]) new m1 m' -> taken now q q' c c' keys (k :: new) m m'.
Proof.
  intros Hq Hi Hk Ht Hdue Hfresh Hlen Hq2 Ha Hm Hx [T1 T2 T3 T4 T5 T6 T7 T8 T9 T10 T11].
  rewrite <- app_assoc in T4, T8, T11. cbn [app] in T4, T8, T11. split; auto.
  - intros k' x Hx'. apply Hk, T3, Hx'.
  - constructor; [eauto|]. eapply Forall_impl; [exact T5|]. intros k' (t' & Ht' & Hle). rewrite Hq2 in Ht'.
    case_decide; [done|]. eauto.
  - intros k'. rewrite T6, Hq2. destruct (decide (k' ∈ new)), (decide (k' ∈ k :: new)), (decide (k' = k)); set_solver.
  - right. destruct T8 as [->|]; [|done]. rewrite length_app. cbn. lia.
  - lia.
  - intros k' x Hin Hx'. apply elem_of_cons in Hin as [->|]; [|by eapply T10]. apply T3, Hx in Hx'. lia.
  - intros k' t' Hag. eauto.
Qed.

Lemma collect_due_spec fuel now : forall q c keys m,
  qwf q -> ls_inv c -> NoDup keys -> (forall k, k ∈ keys -> scheduled q k = None) -> (length (data q) <= fuel)%nat ->
  exists q' c' new m', collect_due fuel now q c keys m = Ok (q', c', keys ++ new, m') /\ taken now q q' c c' keys new m m'.
Proof.
  induction fuel as [|fuel IH]; intros q c keys m Hq Hi Hnd Hdis Hfuel; cbn [collect_due].
  { exists q, c, [], m. rewrite app_nil_r. split; [done|]. apply taken_none; auto; [done|].
    intros k t _ _. unfold scheduled. destruct (data q); [done|cbn in Hfuel; lia]. }
  destruct (bool_ q && _) eqn:Eg; propify.
  2:{ exists q, c, [], m. rewrite app_nil_r. split; [done|]. apply taken_none; auto; [done|].
    intros k t _ Hlt. destruct Eg as [Eg|Eg]; [|propify; lia]. unfold bool_ in Eg. apply bool_decide_eq_false_1, dec_stable in Eg.
    unfold scheduled. by rewrite Eg. }
  destruct Eg as [Eb Elen]. propify. unfold bool_ in Eb. apply bool_decide_eq_true_1 in Eb.
  destruct (top_frozen now q Hq) as (q1 & earliest & -> & Hq1 & Hsame & Hr). cbn [rbind].
  destruct earliest as [[k x]|]; [|done]. destruct Hr as [Hx (e & He & Hmin)].
  destruct (now <? expiration_time x) eqn:El; propify.
  - exists q1, c, [], m. rewrite app_nil_r. split; [done|]. apply taken_none; auto.
    intros k' t' Ha _ Hk'. rewrite (same_scheduled _ _ _ Hsame) in Hk'.
    pose proof (agree_earliest _ _ _ _ _ _ Hq Ha Hx He Hmin Hk'). lia.
  - assert (Hsk : scheduled q1 k = Some (expiration_time x))
      by (rewrite (same_scheduled _ _ _ Hsame); unfold scheduled; by rewrite Hx).
    destruct (del_frozen q1 k Hq1) as (q2 & -> & Hq2 & Hs2 & Ha2 & Hlt & _). cbn [rbind].
    destruct (cached_get_spec now c k Hi) as (c1 & -> & Hi1 & Hk1). cbn [rbind].
    set (m1 := match dget _ _ with Some x => _ | None => _ end).
    assert (Hfresh : k ∉ keys).
    { intros Hin. apply Hdis in Hin. rewrite <- (same_scheduled _ _ _ Hsame), Hsk in Hin. done. }
    unfold set_add. destruct (decide (k ∈ keys)); [done|].
    destruct (IH q2 c1 (keys ++ [k]) m1) as (q' & c' & new & m' & -> & Ht); auto.
    { apply NoDup_app. split; [done|]. split; [set_solver|apply NoDup_singleton]. }
    { intros k' Hin. rewrite Hs2. case_decide; [done|]. rewrite (same_scheduled _ _ _ Hsame). apply Hdis. set_solver. }
    { destruct Hsame as [Hsd _]. rewrite <- Hsd in Hfuel. specialize (Hlt ltac:(eauto)). lia. }
    exists q', c', (k :: new), m'. rewrite <- app_assoc. split; [done|].
    eapply (taken_cons now q q2); eauto.
    + by rewrite <- (same_scheduled _ _ _ Hsame).
    + intros k'. rewrite Hs2. by rewrite (same_scheduled _ _ _ Hsame).
    + intros Ha. apply Ha2. by eapply same_agree.
    + subst m1. destruct (dget (data (table c1)) k) as [y|]; [|lia]. destruct (m <? expiration_time y) eqn:Ey; propify; lia.
    + intros y Hy. subst m1. rewrite Hy. destruct (m <? expiration_time y) eqn:Ey; propify; lia.
Qed.

Lemma await_earliest_spec now n :
  qwf (queue n) -> exists n', await_earliest now n = Ok n' /\ qwf (queue n') /\ same_queue (queue n) (queue n') /\
    cache n' = cache n /\ evt n' = evt n /\ is_alive n' = is_alive n /\
    ((data (queue n) = [] /\ task n' = Some OnEmpty) \/
     (exists key x, dget (data (queue n)) key = Some x /\ task n' = Some (Waiting key (expiration_time x) now) /\
       exists e, evict_time (queue n) key = Some e /\ forall k' e', evict_time (queue n) k' = Some e' -> e <= e')).
Proof.
  intros Hq. unfold await_earliest, len. rewrite (frozen_clean _ _ Hq). cbn [rbind].
  destruct (length (data (queue n)) =? 0)%nat eqn:E.
  - apply Nat.eqb_eq, length_zero_iff_nil in E. eexists. split; [done|]. cbn. split_and!; try done. by left.
  - apply Nat.eqb_neq in E. destruct (top_frozen now (queue n) Hq) as (q1 & r & -> & Hq1 & Hsame & Hr). cbn [rbind].
    destruct r as [[k x]|]; [|by rewrite Hr in E]. destruct Hr as [Hx Hmin].
    eexists. split; [done|]. cbn. split_and!; try done. right. eauto 6.
Qed.

Lemma loop_head_spec now n :
  qwf (queue n) -> exists n', loop_head now n = Ok n' /\ qwf (queue n') /\ same_queue (queue n) (queue n') /\
    cache n' = cache n /\ (agree (queue n) -> wakes_in_time n').
Proof.
  intros Hq. unfold loop_head. destruct (is_alive n); [|eexists; split; [done|]; cbn; by split_and!].
  destruct (await_earliest_spec now n Hq) as (n' & -> & Hq' & Hs & Hc & _ & _ & Hor). exists n'. split_and!; try done.
  intros Ha. unfold wakes_in_time. destruct Hor as [[Hd ->]|(k & x & Hx & -> & e & He & Hmin)]; right.
  - by rewrite (proj1 Hs).
  - intros k' t' Hk'. rewrite (same_scheduled _ _ _ Hs) in Hk'. by apply (agree_earliest (queue n) k x e k').
Qed.

Lemma on_timeout_spec now n key t :
  node_ok n -> exists q1 n' new m, on_timeout now n key t = Ok n' /\ qwf q1 /\
    (forall k, scheduled q1 k = if decide (k = key) then None else scheduled (queue n) k) /\
    (agree (queue n) -> agree q1) /\ evt n' = evt n /\
    task n' = Some (Fetching (key :: new) (m + before_expiry + 1)) /\
    taken now q1 (queue n') (cache n) (cache n') [key] new t m.
Proof.
  intros [Hq Hi]. unfold on_timeout. destruct (del_frozen (queue n) key Hq) as (q1 & -> & Hq1 & Hs1 & Ha1 & _).
  cbn [rbind]. destruct (collect_due_spec (length (data q1)) now q1 (cache n) [key] t) as (q' & c' & new & m & -> & Ht); auto.
  { apply NoDup_singleton. }
  { intros k Hk. apply list_elem_of_singleton in Hk as ->. rewrite Hs1. by rewrite decide_True. }
  cbn [rbind]. eexists q1, _, new, m. split; [done|]. cbn. by split_and!.
Qed.

(** ** Runs *)

(** No key is asked to be refreshed earlier than it is queued for. *)
Definition calm n (ev : event) : Prop :=
  match ev with Schedule key r => not_sooner (queue n) key r | _ => True end.

Lemma step_ok now ev n n' :
  step now ev n n' -> node_ok n ->
  node_ok n' /\ (calm n ev -> agree (queue n) -> wakes_in_time n -> agree (queue n') /\ wakes_in_time n').
Proof.
  intros Hstep [Hq Hi]. unfold node_ok. destruct Hstep as [n key r n' Hs|n n' Ht Hs|n n' Ht He Hs|n key t since n' Ht Hlt He Hs
    |n key t since n' Ht Hle Hs|n keys e n' Ht Hs|n keys e Ht|n|n c Hc].
  - destruct (schedule_spec now n key r Hq) as (n1 & Hs1 & Hq1 & Hc1 & _ & _ & _ & _ & _ & Ha). same_result Hs Hs1.
    rewrite Hc1. split; [done|]. cbn. intros Hn Hag Hw. destruct (Ha Hag Hn). auto.
  - destruct (loop_head_spec now n Hq) as (n1 & Hs1 & Hq1 & Hsame & Hc & Hw). same_result Hs Hs1.
    rewrite Hc. split; [done|]. intros _ Ha _. split; [by eapply same_agree|auto].
  - destruct (await_earliest_spec now (set_evt n false) Hq) as (n1 & Hs1 & Hq1 & Hsame & Hc & _ & _ & Hor). same_result Hs Hs1.
    rewrite Hc. split; [done|]. intros _ Ha _. split; [by eapply same_agree|]. unfold wakes_in_time.
    destruct Hor as [[Hd ->]|(k & x & Hx & -> & e & Hev & Hmin)]; right; [by rewrite (proj1 Hsame)|].
    intros k' t' Hk'. rewrite (same_scheduled _ _ _ Hsame) in Hk'. by apply (agree_earliest (queue n) k x e k').
  - destruct (loop_head_spec now (set_evt n false) Hq) as (n1 & Hs1 & Hq1 & Hsame & Hc & Hw). same_result Hs Hs1.
    rewrite Hc. split; [done|]. intros _ Ha _. split; [by eapply same_agree|auto].
  - destruct (on_timeout_spec now n key t (conj Hq Hi)) as (q1 & n1 & new & m & Hs1 & Hq1 & _ & Ha1 & _ & Ht1 & Htk).
    same_result Hs Hs1. split; [split; apply Htk|]. intros _ Ha _.
    split; [by apply Htk, Ha1|]. unfold wakes_in_time. by rewrite Ht1.
  - destruct (loop_head_spec now n Hq) as (n1 & Hs1 & Hq1 & Hsame & Hc & Hw). same_result Hs Hs1.
    rewrite Hc. split; [done|]. intros _ Ha _. split; [by eapply same_agree|auto].
  - done.
  - done.
  - done.
Qed.

Definition any_step n n' : Prop := exists now ev, step now ev n n'.
Definition calm_step n n' : Prop := exists now ev, step now ev n n' /\ calm n ev.

Lemma new_node_ok c : ls_inv c -> node_ok (new_node c).
Proof. intros Hi. split; [apply qwf_new|done]. Qed.

Lemma any_steps_ok n n' : rtc any_step n n' -> node_ok n -> node_ok n'.
Proof. induction 1 as [|n n1 n' (now & ev & Hs) _ IH]; [done|]. intros Hn. apply IH. by eapply step_ok. Qed.

Lemma calm_steps_ok n n' :
  rtc calm_step n n' -> node_ok n -> agree (queue n) -> wakes_in_time n -> agree (queue n') /\ wakes_in_time n'.
Proof.
  induction 1 as [|n n1 n' (now & ev & Hs & Hc) _ IH]; [done|]. intros Hn Ha Hw.
  destruct (step_ok _ _ _ _ Hs Hn) as [Hn1 H1]. destruct (H1 Hc Ha Hw). auto.
Qed.

(** A key whose heap entry was moved to [r] while it stays queued for [T]. *)
Definition moved q key (r T : Z) : Prop :=
  dget (key_to_heap q) key = Some (r, key) /\ scheduled q key = Some T /\
  forall k e, k <> key -> evict_time q k = Some e -> r < e.

Lemma moved_same q q' key r T : same_queue q q' -> moved q key r T -> moved q' key r T.
Proof. unfold moved, evict_time. intros Hs. rewrite (same_scheduled _ _ _ Hs), (proj2 Hs). done. Qed.

Lemma moved_schedule now n k r' n' key r T :
  qwf (queue n) -> moved (queue n) key r T -> k <> key -> r < r' -> schedule_for_refresh now n k r' = Ok n' ->
  moved (queue n') key r T.
Proof.
  intros Hq (H1 & H2 & H3) Hk Hr Hs. destruct (schedule_spec now n k r' Hq) as (n1 & Hs1 & _ & _ & _ & _ & Hsch & Hh & _).
  same_result Hs Hs1. unfold moved, evict_time. rewrite Hh, Hsch. rewrite dget_dset_ne by done.
  rewrite decide_False by done. split_and!; [done|done|]. intros k' e Hne. destruct (decide (k = k')) as [->|].
  - rewrite dget_dset_eq. intros [= <-]. done.
  - rewrite dget_dset_ne by done. by apply H3.
Qed.

(** Such a key is the one the coroutine waits for, until its old refresh time. *)
Lemma moved_await now n key r T :
  qwf (queue n) -> moved (queue n) key r T -> exists n', await_earliest now n = Ok n' /\ qwf (queue n') /\
    same_queue (queue n) (queue n') /\ evt n' = evt n /\ is_alive n' = is_alive n /\ task n' = Some (Waiting key T now).
Proof.
  intros Hq (H1 & H2 & H3). destruct (await_earliest_spec now n Hq) as (n' & Ha & Hq' & Hs & _ & He & Hal & Hor). exists n'.
  split_and!; auto. unfold scheduled in H2. destruct Hor as [[Hd _]|(k & x & Hx & -> & e & Hev & Hmin)].
  { by rewrite Hd in H2. }
  specialize (Hmin key r). unfold evict_time at 1 in Hmin. rewrite H1 in Hmin. specialize (Hmin eq_refl).
  destruct (decide (k = key)) as [->|Hne]; [|specialize (H3 _ _ Hne Hev); lia].
  rewrite Hx in H2. cbn in H2. by simplify_eq.
Qed.

(** What other coroutines do before time [T]: they schedule other keys, later than [r]; and the refresh coroutine
    runs whenever it can. *)
Definition later_step key (r T : Z) n n' : Prop :=
  exists now ev, now < T /\ step now ev n n' /\
    match ev with Schedule k r' => k <> key /\ r < r' | Shutdown => False | _ => True end.

Definition stuck_on key (r T : Z) n : Prop :=
  qwf (queue n) /\ is_alive n = true /\ moved (queue n) key r T /\ exists since, task n = Some (Waiting key T since).

Lemma later_step_stuck key r T n n' : later_step key r T n n' -> stuck_on key r T n -> stuck_on key r T n'.
Proof.
  intros (now & ev & Hnow & Hstep & Hev) (Hq & Hal & Hm & since0 & Hw).
  destruct Hstep as [n k r' n' Hs|n n' Ht Hs|n n' Ht He Hs|n k t since n' Ht Hlt He Hs
    |n k t since n' Ht Hle Hs|n keys e n' Ht Hs|n keys e Ht|n|n c Hc]; try congruence.
  - destruct Hev as [Hne Hr]. pose proof (moved_schedule _ _ _ _ _ _ _ _ Hq Hm Hne Hr Hs) as Hm'.
    destruct (schedule_spec now n k r' Hq) as (n1 & Hs1 & Hq1 & _ & Ha1 & Ht1 & _). same_result Hs Hs1.
    unfold stuck_on. rewrite Ha1, Ht1, Hw. cbn. eauto 6.
  - unfold loop_head in Hs. cbn in Hs. rewrite Hal in Hs.
    destruct (moved_await now (set_evt n false) key r T Hq Hm) as (n1 & Hs1 & Hq1 & Hsame & _ & Hal1 & Ht1).
    same_result Hs Hs1. split_and!; eauto using moved_same; congruence.
  - rewrite Hw in Ht. simplify_eq. lia.
  - done.
  - unfold stuck_on. cbn. eauto 6.
Qed.

Lemma later_steps_stuck key r T n n' : rtc (later_step key r T) n n' -> stuck_on key r T n -> stuck_on key r T n'.
Proof. induction 1; eauto using later_step_stuck. Qed.

(** * Theorems *)

(** C24: The refresh coroutine oversleeps no refresh: as long as no key is rescheduled to an earlier time than the one it
    is queued for, whenever the coroutine sleeps without a wake-up being signalled, it does so only while
    the queue is empty or until a time that is no later than any refresh time in the queue. *)
Theorem no_refresh_overslept c n : ls_inv c -> rtc calm_step (new_node c) n -> wakes_in_time n.
Proof.
  intros Hi Hr. eapply calm_steps_ok; [exact Hr|by apply new_node_ok|by intros k p x|done].
Qed.

(** In every reachable state of the node the code of the refresh queue returns: scheduling a key, going round the
    loop, waking up on an empty queue and collecting a batch raise no exception. *)
Theorem refresher_never_raises c n :
  ls_inv c -> rtc any_step (new_node c) n ->
  (forall now key r, exists n', schedule_for_refresh now n key r = Ok n') /\
  (forall now b, exists n1 n2, loop_head now (set_evt n b) = Ok n1 /\ await_earliest now (set_evt n b) = Ok n2) /\
  (forall now key t, exists n', on_timeout now n key t = Ok n').
Proof.
  intros Hi Hr. pose proof (any_steps_ok _ _ Hr (new_node_ok c Hi)) as [Hq Hc]. split_and!.
  - intros now key r. destruct (schedule_spec now n key r Hq) as (n' & -> & _). eauto.
  - intros now b. destruct (loop_head_spec now (set_evt n b) Hq) as (n1 & -> & _).
    destruct (await_earliest_spec now (set_evt n b) Hq) as (n2 & -> & _). eauto.
  - intros now key t. destruct (on_timeout_spec now n key t (conj Hq Hc)) as (q1 & n' & new & m & -> & _). eauto.
Qed.

(** A batch holds the key whose time has come and only other keys that are due, each once and at most
    [chunk_size] of them; they leave the queue and nothing else does.  A value found for the batch counts as
    sufficient only if it outlives every cached value of the batch by more than [cache_refresh_before_expiry], and the refresh time
    of the first key likewise.  A batch that is not full leaves no due key in a queue whose heap agrees. *)
Theorem refresh_batch_correct now n key t :
  node_ok n -> exists n' new sufficient, on_timeout now n key t = Ok n' /\ node_ok n' /\
    task n' = Some (Fetching (key :: new) sufficient) /\
    NoDup (key :: new) /\ (length (key :: new) <= Nat.max 1 chunk_size)%nat /\
    Forall (fun k => exists t', scheduled (queue n) k = Some t' /\ t' <= now) new /\
    (forall k, scheduled (queue n') k = if decide (k ∈ key :: new) then None else scheduled (queue n) k) /\
    t + before_expiry < sufficient /\
    (forall k x, k ∈ new -> dget (data (table (cache n'))) k = Some x -> expiration_time x + before_expiry < sufficient) /\
    (forall k t', agree (queue n) -> (length (key :: new) < chunk_size)%nat -> scheduled (queue n') k = Some t' -> now < t').
Proof.
  intros Hn. destruct (on_timeout_spec now n key t Hn) as (q1 & n' & new & m & Hs & Hq1 & Hs1 & Ha1 & _ & Ht & Htk).
  destruct Htk as [T1 T2 T3 T4 T5 T6 T7 T8 T9 T10 T11]. cbn [app] in *.
  exists n', new, (m + before_expiry + 1). split_and!; auto.
  - by split.
  - destruct T8 as [->|T8]; cbn [length] in *; lia.
  - eapply Forall_impl; [exact T5|]. intros k (t' & Ht' & Hle). rewrite Hs1 in Ht'. case_decide; [done|]. eauto.
  - intros k. rewrite T6, Hs1. destruct (decide (k ∈ new)), (decide (k ∈ key :: new)), (decide (k = key)); set_solver.
  - lia.
  - intros k x Hk Hx. specialize (T10 _ _ Hk Hx). lia.
  - intros k t' Ha. eauto.
Qed.

(** A scheduled key stays in the queue until it is fetched: no step of the node removes it, except into the batch
    that the coroutine then fetches. *)
Theorem queued_until_fetched now ev n n' key :
  node_ok n -> step now ev n n' -> is_Some (scheduled (queue n) key) ->
  is_Some (scheduled (queue n') key) \/
  exists keys sufficient, task n' = Some (Fetching keys sufficient) /\ key ∈ keys.
Proof.
  intros [Hq Hi] Hstep Hk. destruct Hstep as [n k r n' Hs|n n' Ht Hs|n n' Ht He Hs|n k t since n' Ht Hlt He Hs
    |n k t since n' Ht Hle Hs|n keys e n' Ht Hs|n keys e Ht|n|n c Hc]; cbn; auto.
  - destruct (schedule_spec now n k r Hq) as (n1 & Hs1 & _ & _ & _ & _ & Hsch & _). same_result Hs Hs1.
    left. rewrite Hsch. case_decide; eauto.
  - destruct (loop_head_spec now n Hq) as (n1 & Hs1 & _ & Hsame & _). same_result Hs Hs1.
    left. by rewrite (same_scheduled _ _ _ Hsame).
  - destruct (await_earliest_spec now (set_evt n false) Hq) as (n1 & Hs1 & _ & Hsame & _). same_result Hs Hs1.
    left. by rewrite (same_scheduled _ _ _ Hsame).
  - destruct (loop_head_spec now (set_evt n false) Hq) as (n1 & Hs1 & _ & Hsame & _). same_result Hs Hs1.
    left. by rewrite (same_scheduled _ _ _ Hsame).
  - destruct (on_timeout_spec now n k t (conj Hq Hi)) as (q1 & n1 & new & m & Hs1 & _ & Hsch & _ & _ & Ht1 & Htk).
    same_result Hs Hs1. rewrite (tk_rest _ _ _ _ _ _ _ _ _ Htk), Hsch.
    destruct (decide (key ∈ new)); [right; eexists _, _; split; [done|]; set_solver|].
    destruct (decide (key = k)); [right; eexists _, _; split; [done|]; set_solver|by left].
  - destruct (loop_head_spec now n Hq) as (n1 & Hs1 & _ & Hsame & _). same_result Hs Hs1.
    left. by rewrite (same_scheduled _ _ _ Hsame).
Qed.

(** An "asap" refresh of a key that is already queued does not happen sooner, and it holds up the others: the new time [r]
    orders the heap, but the coroutine reads the old time [T] and sleeps until then, although another key is
    queued for [T2 < T].  Scheduling more keys (later than [r]) only wakes it up to go back to that sleep. *)
Theorem asap_refresh_holds_up_queue now n key key2 r T T2 k0 t since :
  node_ok n -> is_alive n = true -> task n = Some (Waiting k0 t since) ->
  scheduled (queue n) key = Some T -> scheduled (queue n) key2 = Some T2 -> T2 < T ->
  (forall k e, evict_time (queue n) k = Some e -> r < e) ->
  exists n1 n2, schedule_for_refresh now n key r = Ok n1 /\ evt n1 = true /\
    loop_head now (set_evt n1 false) = Ok n2 /\ evt n2 = false /\ task n2 = Some (Waiting key T now) /\
    scheduled (queue n2) key2 = Some T2 /\
    forall n3, rtc (later_step key r T) n2 n3 -> exists since', task n3 = Some (Waiting key T since').
Proof.
  intros [Hq Hi] Hal Ht Hk Hk2 Hlt Hall. destruct (schedule_spec now n key r Hq) as (n1 & Hs1 & Hq1 & _ & Ha1 & Ht1 & Hsch & Hh & He1 & _).
  assert (HrT : r < T).
  { unfold scheduled in Hk. destruct (dget (data (queue n)) key) as [x|] eqn:Ex; [|done]. cbn in Hk. injection Hk as <-.
    destruct (proj1 (wf_dom _ (proj1 Hq) key)) as [p Hp]; [eauto|]. pose proof (wf_evict _ (proj1 Hq) _ _ _ Hp Ex).
    specialize (Hall key p.1). unfold evict_time in Hall. rewrite Hp in Hall. specialize (Hall eq_refl). lia. }
  assert (Hm : moved (queue n1) key r T).
  { unfold moved, evict_time. rewrite Hh, dget_dset_eq, Hsch, decide_True, Hk by done. cbn. split_and!; auto.
    - f_equal. lia.
    - intros k e Hne. rewrite dget_dset_ne by done. apply Hall. }
  destruct (moved_await now (set_evt n1 false) key r T Hq1 Hm) as (n2 & Hs2 & Hq2 & Hsame & He2 & Hal2 & Ht2).
  exists n1, n2. unfold loop_head. cbn [is_alive set_evt]. rewrite Ha1, Hal. split_and!; auto.
  - cbn in Hsame. rewrite (same_scheduled _ _ _ Hsame), Hsch. case_decide; [|done]. subst. rewrite Hk2 in Hk. injection Hk as ->. lia.
  - intros n3 Hr. apply later_steps_stuck in Hr as (_ & _ & _ & ?); [done|]. split_and!; eauto using moved_same; congruence.
Qed.

(** ** Updating the cache after a store *)

Lemma py_max_spec l : l <> [] -> exists m, py_max l = Ok m /\ m ∈ l /\ forall y, y ∈ l -> py_leb y m = true.
Proof.
  destruct l as [|x l]; [done|]. intros _. cbn [py_max]. eexists. split; [done|]. revert x. induction l as [|y l IH]; intros x; cbn [fold_left].
  { split; [set_solver|]. intros y Hy. apply list_elem_of_singleton in Hy as ->. destruct (py_total x x); done. }
  destruct (IH (if py_leb y x then x else y)) as [Hin Hle]. split.
  - destruct (py_leb y x); set_solver.
  - assert (Hm : py_leb x (if py_leb y x then x else y) = true /\ py_leb y (if py_leb y x then x else y) = true).
    { destruct (py_leb y x) eqn:E; [split; [by destruct (py_total x x)|done]|].
      split; [by destruct (py_total x y) as [|H]; [|rewrite H in E]|by destruct (py_total y y)]. }
    destruct Hm as [Hx Hy]. intros z Hz. apply elem_of_cons in Hz as [->|Hz].
    + eapply py_trans; [exact Hx|]. apply Hle. apply list_elem_of_here.
    + apply elem_of_cons in Hz as [->|Hz]; [|apply Hle; by apply list_elem_of_further].
      eapply py_trans; [exact Hy|]. apply Hle. apply list_elem_of_here.
Qed.

Lemma contains_spec now (c : DHTLocalStorage Subkey bytes) k :
  ls_inv c -> exists tb, contains now (table c) k = Ok (tb, dmem (data tb) k) /\ ls_inv (mkLS (objects c) tb).
Proof.
  intros Hi. unfold contains. destruct (remove_outdated_spec now (table c) (li_wf _ Hi)) as (tb & -> & Hc). cbn.
  exists tb. split; [done|]. by eapply ls_inv_cleaned.
Qed.

Lemma cache_subkeys_spec now key l : forall c : DHTLocalStorage Subkey bytes,
  ls_inv c -> exists c', cache_subkeys now c key l = Ok c' /\ ls_inv c'.
Proof.
  induction l as [|[[[sk v] e] acc] l IH]; intros c Hi; cbn [cache_subkeys]; [eauto|].
  destruct acc; [|auto]. destruct (store_subkey_spec c now key sk v e Hi) as (tb & c' & _ & -> & Hi' & _). cbn. auto.
Qed.

(** After a store the cache serves a value at least as new, unless it is expired. *)
Lemma store_serves now (s s' : TimedStorage Z (DHTValue bytes)) k v e b :
  wf s -> maxsize s = None -> frozen s = false -> now <= e -> store now s k v e = Ok (s', b) ->
  exists x, dget (data s') k = Some x /\ e <= expiration_time x.
Proof.
  intros Hw Hm Hf He Hs. destruct b.
  - exists (VWE v e). split; [by eapply store_true_data|]. cbn. lia.
  - revert Hs. unfold store. rewrite Hf. replace (e <? now) with false by (symmetry; apply Z.ltb_ge; lia). cbn [andb].
    destruct (dget (data s) k) as [old|] eqn:E.
    + destruct (expiration_time old <? e) eqn:El; [intros; by simplify_eq|]. intros. simplify_eq. cbn. propify. eauto.
    + destruct (_remove_outdated _ _); cbn; [intros; by simplify_eq|done].
Qed.

(** After a store was answered, the local cache is brought up to date.  A plain value that was accepted is cached, unless the cache
    holds one that lives at least as long; of several, it is the one with the latest expiration.  A plain value that was
    rejected although it would replace the cached one shows that the cache is outdated, and the key is queued for
    refresh; so is a cached dictionary that the store may have changed.  The invariants of cache and queue are kept. *)
Theorem update_cache_correct now n key subkeys values expirations store_ok :
  node_ok n -> zip expirations values <> [] ->
  exists n', update_cache_on_store now n key subkeys values expirations store_ok = Ok n' /\ node_ok n' /\
    let is_dictionary := existsb (fun sk => negb (bool_decide (sk = py_none))) subkeys in
    (existsb id store_ok = true -> is_dictionary = false ->
       queue n' = queue n /\ forall e v, (e, v) ∈ zip expirations values -> now <= e ->
         exists x, dget (data (table (cache n'))) key = Some x /\ e <= expiration_time x) /\
    (existsb id store_ok = false -> is_dictionary = false ->
       forall x e v, dget (data (table (cache n'))) key = Some x -> (e, v) ∈ zip expirations values ->
         expiration_time x <= e -> is_Some (scheduled (queue n') key)) /\
    (is_dictionary = true -> is_Some (dget (data (table (cache n'))) key) -> is_Some (scheduled (queue n') key)).
Proof.
  intros [Hq Hi] Hz. unfold update_cache_on_store. cbv zeta.
  destruct (existsb (fun sk => _) subkeys) eqn:Ed.
  - rewrite !andb_false_r. destruct (contains_spec now (cache n) key Hi) as (tb & -> & Hi1). cbn [rbind].
    destruct (dmem (data tb) key) eqn:Em.
    + destruct (cache_subkeys_spec now key (zip (zip (zip subkeys values) expirations) store_ok) _ Hi1) as (c & Hc & Hi2).
      cbn [cache set_cache]. rewrite Hc. cbn [rbind].
      destruct (schedule_spec now (set_cache (set_cache n (mkLS (objects (cache n)) tb)) c) key now Hq)
        as (n' & -> & Hq' & Hc' & _ & _ & Hsch & _).
      exists n'. split; [done|]. unfold node_ok. rewrite Hc', Hsch, decide_True by done. split_and!; (done || eauto).
    + eexists. split; [done|]. cbn. split_and!; try done. apply dmem_false in Em. rewrite Em. by intros _ [? ?].
  - rewrite !andb_true_r. destruct (py_max_spec _ Hz) as ([e v] & Hm & Hin & Hmax).
    assert (Hmax' : forall e' v', (e', v') ∈ zip expirations values -> e' <= e).
    { intros e' v' Hin'. apply Hmax in Hin'. unfold py_leb, prod_pyord, py_leb, Z_pyord in Hin'. cbn in Hin'.
      destruct (e' <=? e) eqn:El; [by apply Z.leb_le|done]. }
    destruct (existsb id store_ok); cbn [andb negb]; rewrite Hm; cbn [rbind].
    + destruct (store_spec now (table (cache n)) key (Binary v) e (li_wf _ Hi)) as (tb & Hs & _). rewrite Hs. cbn [rbind].
      eexists. split; [done|]. cbn. split_and!; try done.
      * split; [done|]. eapply ls_inv_store; [done|done|apply Hi|done|done].
      * intros _ _. split; [done|]. intros e' v' Hin' Hnow. pose proof (Hmax' _ _ Hin').
        destruct (store_serves now (table (cache n)) tb key (Binary v) e _ (li_wf _ Hi) (li_maxsize _ Hi) (li_frozen _ Hi)
          ltac:(lia) Hs) as (x & Hx & Hle). exists x. split; [done|lia].
    + destruct (cached_get_spec now (cache n) key Hi) as (c & -> & Hi1 & _). cbn [rbind].
      destruct (schedule_spec now (set_cache n c) key now Hq) as (n' & Hs & Hq' & Hc' & _ & _ & Hsch & _).
      destruct (dget (data (table c)) key) as [x|] eqn:Ex; [destruct (expiration_time x <=? e) eqn:El; propify|].
      * exists n'. split; [done|]. unfold node_ok. rewrite Hc', Hsch, decide_True by done. split_and!; (done || eauto).
      * eexists. split; [done|]. cbn. split_and!; try done. intros _ _ x' e' v' Hx' Hin' Hle. simplify_eq.
        specialize (Hmax' _ _ Hin'). lia.
      * eexists. split; [done|]. cbn. split_and!; try done. intros _ _ x' e' v' Hx'. congruence.
Qed.

(** A finished GET queues its key for refresh exactly when the value came from this node itself and is still cached; the key
    then waits until [cache_refresh_before_expiry] before the expiration of the value, or longer if it was queued for later. *)
Theorem trigger_schedules_before_expiry {Value} now n (s : SearchState (Subkey:=Subkey) (Value:=Value)) e :
  node_ok n -> found_expiration s = Some e -> before_expiry <> 0 ->
  exists n', trigger_cache_refresh now n s = Ok n' /\ node_ok n' /\
    if bool_decide (source_node_id s = Some node_id) && dmem (data (table (cache n'))) (key_id s)
    then scheduled (queue n') (key_id s) = Some (max_inf (scheduled (queue n) (key_id s)) (e - before_expiry))
    else queue n' = queue n.
Proof.
  intros [Hq Hi] He Hb. unfold trigger_cache_refresh. rewrite He.
  destruct (bool_decide _); cbn [andb]; [|exists n; by split_and!].
  rewrite (proj2 (Z.eqb_neq _ _) Hb). cbn [negb]. destruct (contains_spec now (cache n) (key_id s) Hi) as (tb & -> & Hi1). cbn [rbind].
  destruct (dmem (data tb) (key_id s)) eqn:Em; [|eexists; split; [done|]; cbn; rewrite Em; by split_and!].
  destruct (schedule_spec now (set_cache n (mkLS (objects (cache n)) tb)) (key_id s) (e - before_expiry) Hq)
    as (n' & -> & Hq' & Hc' & _ & _ & Hsch & _). exists n'. split; [done|]. unfold node_ok. rewrite Hc', Hsch. cbn.
  rewrite Em, decide_True by done. done.
Qed.

End CacheRefresh.

(** ** A concrete node: integers as sub-keys, refresh 5 ticks before the expiration, batches of 16 *)

Abbreviation toy_cache := (storage_init (Subkey:=Z) (V:=bytes) None).
Definition from_ok (r : result (Node (Subkey:=Z))) : Node (Subkey:=Z) :=
  match r with Ok n => n | Raise _ => new_node toy_cache end.

(** Key 7 is to be refreshed at 50, key 8 at 40; the coroutine waits for key 8. *)
Definition toy_one : Node := Eval vm_compute in from_ok (schedule_for_refresh 1 (new_node toy_cache) 7 50).
Definition toy_two : Node := Eval vm_compute in from_ok (schedule_for_refresh 2 toy_one 8 40).
Definition toy_started : Node := Eval vm_compute in from_ok (loop_head 3 toy_two).
Definition toy_waiting : Node := Eval vm_compute in from_ok (loop_head 3 (set_evt toy_started false)).

Lemma toy_run : rtc (calm_step 5 16) (new_node toy_cache) toy_waiting.
Proof.
  eapply rtc_l; [exists 1, (Schedule 7 50); split; [apply st_schedule; vm_compute; reflexivity|intros t; discriminate]|].
  eapply rtc_l; [exists 2, (Schedule 8 40); split; [apply (st_schedule _ _ 2 toy_one); vm_compute; reflexivity|intros t; discriminate]|].
  eapply rtc_l; [exists 3, Resume; split; [apply (st_start _ _ 3 toy_two); vm_compute; reflexivity|exact I]|].
  eapply rtc_l; [exists 3, Resume; split; [apply (st_wake _ _ 3 toy_started 8 40 3); vm_compute; reflexivity|exact I]|].
  apply rtc_refl.
Defined.

Lemma calm_run_any {Subkey} `{EqS : EqDecision Subkey} `{OrdS : PyOrd Subkey} b c (n n' : Node (Subkey:=Subkey)) :
  rtc (calm_step b c) n n' -> rtc (any_step b c) n n'.
Proof. induction 1 as [|n n1 n' (now & ev & Hs & _)]; [apply rtc_refl|]. eapply rtc_l; [by exists now, ev|done]. Qed.

Lemma toy_waiting_ok : node_ok toy_waiting.
Proof. apply (any_steps_ok 5 16 (new_node toy_cache)); [apply calm_run_any, toy_run|apply new_node_ok, storage_init_inv]. Qed.

Lemma no_refresh_overslept_witness : task toy_waiting = Some (Waiting 8 40 3) /\ wakes_in_time toy_waiting.
Proof. split; [reflexivity|]. apply (no_refresh_overslept 5 16 toy_cache); [apply storage_init_inv|apply toy_run]. Defined.

Lemma refresher_never_raises_witness : exists n', on_timeout 5 16 60 toy_waiting 8 40 = Ok n'.
Proof.
  destruct (refresher_never_raises 5 16 toy_cache toy_waiting) as (_ & _ & H);
    [apply storage_init_inv|apply calm_run_any, toy_run|apply H].
Defined.

(** At time 60 both keys are due. *)
Lemma refresh_batch_correct_witness :
  exists n' new sufficient, on_timeout 5 16 60 toy_waiting 8 40 = Ok n' /\
    task n' = Some (Fetching (8 :: new) sufficient) /\ 40 + 5 < sufficient /\ (length (8%Z :: new) <= 16)%nat.
Proof.
  destruct (refresh_batch_correct 5 16 60 toy_waiting 8 40 toy_waiting_ok)
    as (n' & new & sufficient & H1 & _ & H2 & _ & H3 & _ & _ & H4 & _).
  exists n', new, sufficient. split; [exact H1|]. split; [exact H2|]. split; [exact H4|exact H3].
Defined.

Lemma queued_until_fetched_witness :
  is_Some (scheduled (queue (set_task toy_waiting None)) 7) \/
  exists keys sufficient, task (set_task toy_waiting None) = Some (Fetching keys sufficient) /\ 7 ∈ keys.
Proof.
  apply (queued_until_fetched 5 16 60 FetchRaised (set_task toy_waiting (Some (Fetching [] 0))) (set_task toy_waiting None) 7).
  - exact toy_waiting_ok.
  - apply (st_fetch_raised 5 16 60 (set_task toy_waiting (Some (Fetching [] 0))) [] 0). reflexivity.
  - exists 50. reflexivity.
Defined.

(** Key 7 is scheduled again, asap, at time 10: the coroutine now sleeps until 50 and key 8, due at 40, waits with it. *)
Lemma asap_refresh_holds_up_queue_witness :
  exists n1 n2, schedule_for_refresh 10 toy_waiting 7 10 = Ok n1 /\ loop_head 10 (set_evt n1 false) = Ok n2 /\
    task n2 = Some (Waiting 7 50 10) /\ scheduled (queue n2) 8 = Some 40.
Proof.
  destruct (asap_refresh_holds_up_queue 5 16 10 toy_waiting 7 8 10 50 40 8 40 3 toy_waiting_ok) as (n1 & n2 & H1 & _ & H2 & _ & H3 & H4 & _).
  - reflexivity.
  - reflexivity.
  - reflexivity.
  - reflexivity.
  - reflexivity.
  - intros k e. unfold evict_time. cbn. destruct (decide (7 = k)); [intros [= <-]; reflexivity|].
    destruct (decide (8 = k)); [intros [= <-]; reflexivity|discriminate].
  - exists n1, n2. split; [exact H1|]. split; [exact H2|]. split; [exact H3|exact H4].
Defined.

(** Two values were sent for one key; the later one is cached. *)
Lemma update_cache_correct_witness :
  exists n', update_cache_on_store 0 4 toy_waiting 7 [0; 0] [[1]; [2]] [20; 30] [true; true] = Ok n' /\
    exists x, dget (data (table (cache n'))) 7 = Some x /\ 30 <= expiration_time x.
Proof.
  destruct (update_cache_correct 0 4 toy_waiting 7 [0; 0] [[1]; [2]] [20; 30] [true; true] toy_waiting_ok)
    as (n' & H1 & _ & H2 & _).
  - discriminate.
  - exists n'. split; [exact H1|]. destruct (H2 eq_refl eq_refl) as [_ H3]. apply (H3 30 [2]); [set_solver|lia].
Defined.

Lemma trigger_schedules_before_expiry_witness :
  exists n', trigger_cache_refresh 101 5 4 (set_cache toy_waiting
      (mkLS [] (mkTS false None [(77, VWE (Binary [2]) 20)] [(20, 77)] [(77, (20, 77))]))) toy_finished = Ok n' /\
    scheduled (queue n') 77 = Some 15.
Proof.
  destruct (trigger_schedules_before_expiry 101 5 4 (set_cache toy_waiting
      (mkLS [] (mkTS false None [(77, VWE (Binary [2]) 20)] [(20, 77)] [(77, (20, 77))]))) toy_finished 20) as (n' & H1 & _).
  - split; [apply toy_waiting_ok|].
    destruct (local_store_spec toy_cache 0 77 [2] 20 None storage_init_inv) as (st & ok & Hs & Hi).
    vm_compute in Hs. injection Hs as <- _. exact Hi.
  - reflexivity.
  - lia.
  - exists n'. split; [exact H1|]. vm_compute in H1. injection H1 as <-. reflexivity.
Defined.
