(* ===== verification/MPFuture.v ===== *)
(** * Futures across processes and the DHT process ([mesh/utils/mpfuture.py], [mesh/dht/dht.py])

    An [MPFuture] is created in one process (the origin) and fulfilled in another one (the remote side).  Its state is
    a byte of shared memory; results travel through a pipe that a background thread of the origin reads.  [DHT] runs a
    node in a child process, sends it commands through a pipe and waits on such futures.  Both are state
    machines.  No lock guards the shared byte: where a method reads it and writes later, the other process can run in between, so such a method
    is two steps.  Within the origin the condition of [concurrent.futures] serialises [cancel] and the delivery of an update.  Weak
    references, event loops and the allocation of shared bytes are left out. *)

From S2P Require Import Prelude.

(** ** [MPFuture] *)

Inductive fstate : Type := PENDING | RUNNING | FINISHED | CANCELLED.
#[export] Instance fstate_eq_dec : EqDecision fstate.
Proof. solve_decision. Defined.

Definition terminal (s : fstate) : bool := match s with FINISHED | CANCELLED => true | _ => false end.

Section Future.
Context {V : Type}.

(** [UpdateType] with its payload; an exception is a result that raises. *)
Inductive update : Type := URESULT (r : result V) | UCANCEL.

(** Where the remote side is: between its calls, in [set_running_or_notify_cancel] after it has seen [PENDING], or in [set_result] or
    [set_exception] after it has seen a state that is not terminal. *)
Inductive remote_pc : Type := RIdle | RWriteRunning | RSetting (r : result V).

(** [shared] is the shared byte, [value] the origin's result or exception, [active] tells whether the future is in
    [_active_futures], [pipe] holds the updates under way; [cache] and [rvalue] are the remote side's [_state_cache] and
    result.  [cancelling] says that [cancel] in the origin has seen [PENDING] and is about to write. *)
Record Fut : Type := mkFut {
  shared : fstate;
  value : option (result V);
  active : bool;
  pipe : list update;
  cache : pydict fstate fstate;
  rvalue : option (result V);
  remote : remote_pc;
  cancelling : bool;
}.

(** [__init__] *)
Definition new_future : Fut := mkFut PENDING None true [] [] None RIdle false.

(** The property [_state] on the two sides; the origin's cache stays empty. *)
Definition remote_state (f : Fut) : fstate := match dget (cache f) (shared f) with Some s => s | None => shared f end.

Definition at_remote (f : Fut) (pc : remote_pc) : Fut :=
  mkFut (shared f) (value f) (active f) (pipe f) (cache f) (rvalue f) pc (cancelling f).

(** [set_result] and [set_exception] in the origin, after [super().set_result] *)
Definition origin_set (f : Fut) (r : result V) : result Fut :=
  if terminal (shared f) then Raise InvalidStateError
  else Ok (mkFut FINISHED (Some r) false (pipe f) (cache f) (rvalue f) (remote f) (cancelling f)).

(** ... and on the remote side: the check, ... *)
Definition remote_set (f : Fut) (r : result V) : result Fut :=
  if terminal (remote_state f) then Raise InvalidStateError else Ok (at_remote f (RSetting r)).

(** [_send_update]: if the pipe is broken, that is logged and nothing is sent. *)
Definition send_update (sent : bool) (f : Fut) (u : update) : Fut :=
  mkFut (shared f) (value f) (active f) (if sent then pipe f ++ [u] else pipe f) (cache f) (rvalue f) (remote f) (cancelling f).

(** ... and the rest *)
Definition remote_set_rest (sent : bool) (f : Fut) (r : result V) : Fut :=
  send_update sent (mkFut (shared f) (value f) (active f) (pipe f) (dset (cache f) (remote_state f) FINISHED) (Some r) RIdle (cancelling f)) (URESULT r).

(** [cancel] in the origin: the future is dropped from [_active_futures] first; [None] when there is something to write. *)
Definition origin_cancel (f : Fut) : Fut * option bool :=
  let drop cancelling := mkFut (shared f) (value f) false (pipe f) (cache f) (rvalue f) (remote f) cancelling in
  match shared f with
  | RUNNING | FINISHED => (drop (cancelling f), Some false)
  | CANCELLED => (drop (cancelling f), Some true)
  | PENDING => (drop true, None)
  end.

(** The write of [cancel], which returns [True] *)
Definition origin_cancel_rest (f : Fut) : Fut :=
  if cancelling f then mkFut CANCELLED (value f) (active f) (pipe f) (cache f) (rvalue f) (remote f) false else f.

Definition remote_cancel (sent : bool) (f : Fut) : Fut * bool :=
  match remote_state f with
  | RUNNING | FINISHED => (f, false)
  | s => (send_update sent (mkFut (shared f) (value f) (active f) (pipe f) (dset (cache f) s CANCELLED) (rvalue f) (remote f) (cancelling f)) UCANCEL, true)
  end.

(** [set_running_or_notify_cancel] on the remote side up to the write of [RUNNING] *)
Definition set_running (f : Fut) : result Fut :=
  match remote_state f with
  | PENDING => Ok (at_remote f RWriteRunning)
  | CANCELLED => Ok f
  | _ => Raise InvalidStateError
  end.

(** The rest of the remote side's method *)
Definition remote_rest (sent : bool) (f : Fut) : Fut :=
  match remote f with
  | RIdle => f
  | RWriteRunning => mkFut RUNNING (value f) (active f) (pipe f) (cache f) (rvalue f) RIdle (cancelling f)
  | RSetting r => remote_set_rest sent f r
  end.

(** One round of [_process_updates_in_background]: the future is popped from [_active_futures]; exceptions are logged. *)
Definition deliver (f : Fut) : Fut :=
  match pipe f with
  | [] => f
  | u :: rest =>
      let f1 := mkFut (shared f) (value f) false rest (cache f) (rvalue f) (remote f) (cancelling f) in
      if active f then
        match u with
        | URESULT r => match origin_set f1 r with Ok f2 => f2 | Raise _ => f1 end
        | UCANCEL => origin_cancel_rest (origin_cancel f1).1
        end
      else f1
  end.

(** [result] in the origin; [None] while it waits. *)
Definition origin_result (f : Fut) : option (result V) :=
  match shared f with
  | FINISHED => value f
  | CANCELLED => Some (Raise CancelledError)
  | _ => None
  end.

(** The use that the class documents: only the remote side sets results and marks the future as running, only the origin
    cancels and waits.  The remote side calls one method at a time; [RRest] finishes it, with the fate of the update it sends. *)
Inductive fevent : Type := RSet (r : result V) | RRunning | RRest (sent : bool) | OCancel | OCancelRest | Deliver.

Definition fstep (f : Fut) (e : fevent) : Fut :=
  match e with
  | RSet r => match remote f, remote_set f r with RIdle, Ok f' => f' | _, _ => f end
  | RRunning => match remote f, set_running f with RIdle, Ok f' => f' | _, _ => f end
  | RRest sent => remote_rest sent f
  | OCancel => (origin_cancel f).1
  | OCancelRest => origin_cancel_rest f
  | Deliver => deliver f
  end.

Definition frun (f : Fut) (es : list fevent) : Fut := foldl fstep f es.

(** ** Lemmas *)

(** [first] is the first result that was set, as a history variable. *)
Definition note (first : option (result V)) (f : Fut) (e : fevent) : option (result V) :=
  match e, first, remote f with
  | RRest _, None, RSetting r => Some r
  | _, _, _ => first
  end.

Fixpoint first_result (first : option (result V)) (f : Fut) (es : list fevent) : option (result V) :=
  match es with [] => first | e :: es' => first_result (note first f e) (fstep f e) es' end.

(** No call of [cancel] comes after the future was seen running, or overlaps with [set_running_or_notify_cancel]; updates are sent. *)
Definition calm_event (f : Fut) (e : fevent) : Prop :=
  match e with
  | OCancel => shared f <> RUNNING
  | RRest sent => match remote f with RWriteRunning => active f = true | RSetting _ => sent = true | RIdle => True end
  | _ => True
  end.

Fixpoint calm (f : Fut) (es : list fevent) : Prop :=
  match es with [] => True | e :: es' => calm_event f e /\ calm (fstep f e) es' end.

Record fut_ok (first : option (result V)) (f : Fut) : Prop := {
  fk_cache : forall s s', dget (cache f) s = Some s' -> s' = FINISHED;
  fk_active : active f = true -> terminal (shared f) = false /\ cancelling f = false /\
    match first with None => pipe f = [] | Some r => exists rest, pipe f = URESULT r :: rest end;
  fk_dropped : active f = false -> cancelling f = false /\ shared f = FINISHED /\ value f = first /\ first <> None \/
    cancelling f = false /\ shared f = CANCELLED \/ cancelling f = true /\ shared f = PENDING;
}.

Lemma fut_ok_new : fut_ok None new_future.
Proof. by split. Qed.

Lemma fut_ok_rest first f sent : fut_ok first f -> calm_event f (RRest sent) -> fut_ok (note first f (RRest sent)) (remote_rest sent f).
Proof.
  intros [Hc Ha Hi] He. cbn [calm_event note] in *. unfold remote_rest. destruct (remote f) as [| |r] eqn:Er; [by destruct first|..].
  - destruct first; split; cbn; try done; intros Hact; [destruct (Ha Hact) as (_ & ? & ?); done|congruence|destruct (Ha Hact) as (_ & ? & ?); done|congruence].
  - subst sent. unfold remote_set_rest, send_update. split; cbn.
    + intros s s'. destruct (decide (remote_state f = s)) as [<-|Hne]; [rewrite dget_dset_eq; congruence|]. rewrite dget_dset_ne by done. apply Hc.
    + intros Hact. destruct (Ha Hact) as (H1 & H2 & H3). split_and!; [done|done|]. destruct first as [r0|].
      * destruct H3 as [rest ->]. by exists (rest ++ [URESULT r]).
      * rewrite H3. by exists [].
    + intros Hact. destruct (Hi Hact) as [(? & ? & H3 & H4)|[?|?]]; [left|by right; left|by right; right]. by destruct first.
Qed.

Lemma fut_ok_step first f e : fut_ok first f -> calm_event f e -> fut_ok (note first f e) (fstep f e).
Proof.
  intros Hok He. pose proof Hok as [Hc Ha Hi]. destruct e as [r| |sent| | |].
  - cbn [fstep note]. unfold remote_set. replace (match first with Some _ => first | None => first end) with first by (by destruct first).
    destruct (remote f), (terminal (remote_state f)); done || by split.
  - cbn [fstep note]. unfold set_running. replace (match first with Some _ => first | None => first end) with first by (by destruct first).
    destruct (remote f), (remote_state f); done || by split.
  - by apply fut_ok_rest.
  - cbn [fstep note calm_event] in *. replace (match first with Some _ => first | None => first end) with first by (by destruct first). unfold origin_cancel.
    assert (Hact : shared f <> PENDING -> active f = false).
    { intros Hs. apply not_true_iff_false. intros Hact. destruct (Ha Hact) as [H1 _]. by destruct (shared f). }
    destruct (shared f) eqn:Es; [|done|..]; (split; cbn; [done|done|]); rewrite ?Es.
    + intros _. by right; right.
    + intros _. destruct (Hi (Hact ltac:(done))) as [?|[[??]|[??]]]; [by left|done|done].
    + intros _. destruct (Hi (Hact ltac:(done))) as [(? & ? & _)|[[??]|[??]]]; [done|by right; left|done].
  - cbn [fstep note]. replace (match first with Some _ => first | None => first end) with first by (by destruct first). unfold origin_cancel_rest.
    destruct (cancelling f) eqn:Ec; [|done]. split; cbn; [done| |].
    + intros Hact. destruct (Ha Hact) as (_ & ? & _). congruence.
    + intros _. by right; left.
  - cbn [fstep note]. replace (match first with Some _ => first | None => first end) with first by (by destruct first). unfold deliver.
    destruct (pipe f) as [|u rest] eqn:Ep; [done|]. destruct (active f) eqn:Eact.
    + destruct (Ha eq_refl) as (H1 & H2 & H3). destruct first as [r|]; [|done]. destruct H3 as [rest' [= -> ->]].
      unfold origin_set. cbn [shared]. rewrite H1. split; cbn; [done|done|]. intros _. by left.
    + split; cbn; [done|done|]. auto.
Qed.

Lemma fut_ok_run es : forall first f, fut_ok first f -> calm f es -> fut_ok (first_result first f es) (frun f es).
Proof.
  induction es as [|e es IH]; intros first f Hf Hc; [done|]. destruct Hc as [He Hc]. cbn [first_result frun foldl].
  apply IH; [by apply fut_ok_step|done].
Qed.

Lemma deliver_pipe (f : Fut) : forall n, (length (pipe f) <= n)%nat ->
  pipe (frun f (replicate n Deliver)) = [] /\ (cancelling f = false -> cancelling (frun f (replicate n Deliver)) = false).
Proof.
  intros n. revert f. induction n as [|n IH]; intros f Hl; [cbn; destruct (pipe f); [done|cbn in Hl; lia]|]. cbn [replicate frun foldl].
  assert (Hd : (length (pipe (deliver f)) <= n)%nat /\ (cancelling f = false -> cancelling (deliver f) = false)).
  { unfold deliver. destruct (pipe f) as [|u rest] eqn:E; [rewrite E; cbn; split; [lia|done]|]. cbn [length] in Hl.
    destruct (active f); [destruct u as [r|]|cbn; split; [lia|done]].
    - unfold origin_set. cbn. destruct (terminal _); cbn; (split; [lia|done]).
    - unfold origin_cancel, origin_cancel_rest. cbn. destruct (shared f), (cancelling f); cbn; (split; [lia|done]). }
  destruct Hd as [Hd1 Hd2]. destruct (IH (deliver f) Hd1) as [H1 H2]. split; [exact H1|]. auto.
Qed.

Lemma calm_rest n : forall f : Fut, calm f (OCancelRest :: replicate n Deliver).
Proof. intros f. split; [done|]. generalize (fstep f OCancelRest). induction n as [|n IH]; intros g; [done|]. split; [done|apply IH]. Qed.

Lemma first_rest r n : forall f : Fut, first_result (Some r) f (OCancelRest :: replicate n Deliver) = Some r.
Proof. intros f. cbn [first_result note]. generalize (fstep f OCancelRest). induction n as [|n IH]; intros g; [done|apply IH]. Qed.

(** ** Theorems *)

(** C36: The process that created a future gets what the other process has set.  Suppose the future is used as documented (one side sets, the other
    one cancels and waits), no call of [cancel] finds the future running or overlaps with [set_running_or_notify_cancel] of the other process, and the
    pipe is not broken.  Then after any interleaving of the steps of both processes: when a pending [cancel] has finished and the pipe has been
    read, the future is finished with the first result or exception that was set (later attempts change nothing), or it was cancelled; and while none
    was set, it is cancelled, being cancelled, or still waiting in the table of active futures. *)
Theorem first_result_delivered (es : list fevent) (n : nat) :
  calm new_future es -> (length (pipe (frun new_future es)) <= n)%nat ->
  match first_result None new_future es with
  | Some r => origin_result (frun new_future (es ++ OCancelRest :: replicate n Deliver)) = Some r \/
              origin_result (frun new_future (es ++ OCancelRest :: replicate n Deliver)) = Some (Raise CancelledError)
  | None => shared (frun new_future es) = CANCELLED \/ cancelling (frun new_future es) = true \/
            active (frun new_future es) = true /\ origin_result (frun new_future es) = None
  end.
Proof.
  intros Hc Hn. pose proof (fut_ok_run es None new_future fut_ok_new Hc) as Hok.
  destruct (first_result None new_future es) as [r|].
  - unfold frun in *. rewrite foldl_app. set (f := foldl fstep new_future es) in *.
    pose proof (fut_ok_run _ _ _ Hok (calm_rest n f)) as Hok2. rewrite first_rest in Hok2. cbn [frun foldl] in Hok2 |- *.
    set (g := fstep f OCancelRest) in *. fold (frun g (replicate n Deliver)) in *.
    assert (Hg : (length (pipe g) <= n)%nat /\ cancelling g = false).
    { subst g. cbn. unfold origin_cancel_rest. by destruct (cancelling f) eqn:E. }
    destruct Hg as [Hgp Hgc]. destruct (deliver_pipe g n Hgp) as [Hp Hcl]. specialize (Hcl Hgc). destruct Hok2 as [_ Ha Hi].
    destruct (active (frun g (replicate n Deliver))) eqn:Ea.
    + destruct (Ha eq_refl) as (_ & _ & rest & Hr). congruence.
    + unfold origin_result. destruct (Hi eq_refl) as [(_ & -> & -> & _)|[[_ ->]|[? _]]]; [auto|auto|congruence].
  - destruct Hok as [_ Ha Hi]. destruct (active (frun new_future es)) eqn:Ea.
    + right; right. split; [done|]. destruct (Ha eq_refl) as (Ht & _). unfold origin_result. by destruct (shared (frun new_future es)).
    + destruct (Hi eq_refl) as [(_ & _ & _ & ?)|[[_ ?]|[? _]]]; [done|by left|by right; left].
Qed.

(** A future that is running and not in the table of active futures stays so. *)
Lemma running_lost (es : list fevent) : forall f : Fut, shared f = RUNNING -> active f = false -> cancelling f = false ->
  origin_result (frun f es) = None.
Proof.
  induction es as [|e es IH]; intros f Hs Ha Hc; [unfold origin_result; cbn; by rewrite Hs|]. cbn [frun foldl].
  enough (H : shared (fstep f e) = RUNNING /\ active (fstep f e) = false /\ cancelling (fstep f e) = false) by (apply IH; apply H).
  destruct e as [r| |sent| | |]; cbn [fstep].
  - unfold remote_set. by destruct (remote f), (terminal (remote_state f)).
  - unfold set_running. by destruct (remote f), (remote_state f).
  - unfold remote_rest, remote_set_rest, send_update. by destruct (remote f), sent.
  - unfold origin_cancel. cbn. by rewrite Hs.
  - unfold origin_cancel_rest. by rewrite Hc.
  - unfold deliver. destruct (pipe f); [done|]. by rewrite Ha.
Qed.

(** Cancelling a running future fails and loses its result: [cancel] takes the future out of [_active_futures] before it
    finds that the future is running and returns [False].  Whatever is set and delivered afterwards, the origin
    waits for ever. *)
Theorem failed_cancel_loses_result (es : list fevent) :
  let f := frun new_future [RRunning; RRest true] in
  (origin_cancel f).2 = Some false /\ origin_result (frun (origin_cancel f).1 es) = None.
Proof. split; [done|]. by apply running_lost. Qed.

(** So does a successful [cancel] that overlaps with [set_running_or_notify_cancel]: the other process has seen [PENDING], and its write of [RUNNING]
    undoes the cancellation, although [cancel] has returned [True]. *)
Theorem racing_cancel_loses_result (es : list fevent) :
  shared (frun new_future [RRunning; OCancel; OCancelRest]) = CANCELLED /\
  origin_result (frun new_future ([RRunning; OCancel; OCancelRest; RRest true] ++ es)) = None.
Proof. split; [done|]. unfold frun. rewrite foldl_app. by apply running_lost. Qed.
End Future.

(** ** The DHT process *)

(** The commands [_get] and [_store] check that the future is not done before they set it, [_run_coroutine] does not.  A
    request is known by the number of its future. *)
Inductive method : Type := MGet | MStore | MRunCoroutine.
Inductive command : Type := CCall (m : method) (future : nat) | CShutdown.
Inductive phase : Type := Serving | Stopping | Dead.
#[export] Instance method_eq_dec : EqDecision method.
Proof. solve_decision. Defined.

Section Process.
Context {V : Type}.

Record Proc : Type := mkProc {
  dpipe : list command;
  pipe_open : bool;
  dphase : phase;
  dtasks : list (method * nat);
  futures : pydict nat (option (result V));  (* the futures of the parent, [None] while they are pending *)
  sent : list nat;     (* history: the requests sent, and those whose task was created *)
  started : list nat;
}.

Definition new_proc : Proc := mkProc [] true Serving [] [] [] [].

(** [get], [store] and [run_coroutine] of the parent up to the wait, and [shutdown] *)
Definition call (p : Proc) (m : method) (future : nat) : result Proc :=
  if pipe_open p
  then Ok (mkProc (dpipe p ++ [CCall m future]) true (dphase p) (dtasks p) (dset (futures p) future None) (sent p ++ [future]) (started p))
  else Raise OSError.

Definition shutdown (p : Proc) : result Proc :=
  match dphase p with
  | Dead => Ok p
  | _ => if pipe_open p then Ok (mkProc (dpipe p ++ [CShutdown]) false (dphase p) (dtasks p) (futures p) (sent p) (started p))
         else Raise OSError
  end.

(** One round of the loop of [run]: the next command becomes a task; [_shutdown] is awaited. *)
Definition serve (p : Proc) : Proc :=
  match dphase p, dpipe p with
  | Serving, CCall m future :: rest =>
      mkProc rest (pipe_open p) Serving (dtasks p ++ [(m, future)]) (futures p) (sent p) (started p ++ [future])
  | Serving, CShutdown :: rest => mkProc rest (pipe_open p) Stopping (dtasks p) (futures p) (sent p) (started p)
  | _, _ => p
  end.

(** The end of a task with the outcome [r]: [set_result] or [set_exception], if the future is not done (cancelled by the
    parent); [_run_coroutine] then raises, to the same effect. *)
Definition finish_task (p : Proc) (m : method) (future : nat) (r : result V) : Proc :=
  match dphase p with
  | Dead => p
  | _ =>
      if bool_decide ((m, future) ∈ dtasks p) then
        mkProc (dpipe p) (pipe_open p) (dphase p) (filter (fun t => t <> (m, future)) (dtasks p))
          (match dget (futures p) future with Some None => dset (futures p) future (Some r) | _ => futures p end) (sent p) (started p)
      else p
  end.

(** The task of [_shutdown] is over: the event loop ends, with the tasks that are left. *)
Definition shut_down (p : Proc) : Proc :=
  match dphase p with
  | Stopping => mkProc (dpipe p) (pipe_open p) Dead (dtasks p) (futures p) (sent p) (started p)
  | _ => p
  end.

Inductive pevent : Type := PCall (m : method) (future : nat) | PShutdown | PServe | PFinish (m : method) (future : nat) (r : result V) | PEnd.

Definition pstep (p : Proc) (e : pevent) : Proc :=
  match e with
  | PCall m future => match call p m future with Ok p' => p' | Raise _ => p end
  | PShutdown => match shutdown p with Ok p' => p' | Raise _ => p end
  | PServe => serve p
  | PFinish m future r => finish_task p m future r
  | PEnd => shut_down p
  end.

Definition prun (p : Proc) (es : list pevent) : Proc := foldl pstep p es.

(** ** Lemmas *)

Definition calls (l : list command) : list nat := omap (fun c => match c with CCall _ f => Some f | CShutdown => None end) l.

Definition proc_ok (p : Proc) : Prop :=
  sent p = started p ++ calls (dpipe p) /\
  (pipe_open p = true -> dphase p = Serving /\ CShutdown ∉ dpipe p) /\
  (forall f, dget (futures p) f = Some None -> exists m, (m, f) ∈ dtasks p \/ CCall m f ∈ dpipe p).

Lemma calls_app l1 l2 : calls (l1 ++ l2) = calls l1 ++ calls l2.
Proof. apply omap_app. Qed.

Lemma proc_ok_step p e : proc_ok p -> proc_ok (pstep p e).
Proof.
  intros Hok. pose proof Hok as (Hs & Ho & Hf). destruct e as [m f| | |m f r|]; cbn [pstep].
  - unfold call. destruct (pipe_open p) eqn:Eo; [|done]. destruct (Ho eq_refl) as [Hp Hn]. unfold proc_ok. cbn. split_and!.
    + rewrite Hs, calls_app, app_assoc. done.
    + intros _. split; [done|]. rewrite elem_of_app, list_elem_of_singleton. intros [?|?]; done.
    + intros f'. destruct (decide (f = f')) as [<-|Hne]; [intros _; exists m; right; set_solver|]. rewrite dget_dset_ne by done.
      intros (m' & [?|?])%Hf; exists m'; [by left|right; set_solver].
  - unfold shutdown. destruct (dphase p); try done; destruct (pipe_open p); try done; unfold proc_ok; cbn.
    all: split_and!; [rewrite calls_app; cbn; by rewrite app_nil_r|done|]; intros f (m' & [?|?])%Hf; exists m'; [by left|right; set_solver].
  - unfold serve. destruct (dphase p) eqn:Ed; [|done..]. destruct (dpipe p) as [|[m f|] rest] eqn:Ep; [done|..]; unfold proc_ok; cbn.
    + split_and!.
      * rewrite Hs. cbn. by rewrite <- app_assoc.
      * intros Hop. destruct (Ho Hop) as [_ Hn]. split; [done|set_solver].
      * intros f' (m' & [?|Hin])%Hf; exists m'; [left; set_solver|]. apply elem_of_cons in Hin as [[= -> ->]|Hin]; [left; set_solver|by right].
    + split_and!.
      * done.
      * intros Hop. destruct (Ho Hop) as [_ Hn]. set_solver.
      * intros f' (m' & [?|Hin])%Hf; exists m'; [by left|]. apply elem_of_cons in Hin as [?|Hin]; [done|by right].
  - unfold finish_task. destruct (dphase p) eqn:Ed; [| |done].
    all: case_bool_decide; [|done]; unfold proc_ok; cbn; split_and!; [done|done|]; intros f'.
    all: destruct (decide (f = f')) as [<-|Hne].
    all: try (destruct (dget (futures p) f) as [[?|]|] eqn:Ef; rewrite ?dget_dset_eq, ?Ef; done).
    all: intros Hx; assert (Hx' : dget (futures p) f' = Some None) by (destruct (dget (futures p) f) as [[?|]|]; rewrite ?dget_dset_ne in Hx by done; done).
    all: destruct (Hf f' Hx') as (m' & [?|?]); exists m'; [left; apply list_elem_of_filter; split; [congruence|done]|by right].
  - unfold shut_down. destruct (dphase p) eqn:Ed; [done| |done]. unfold proc_ok. cbn. split_and!; [done| |done].
    intros Hop. destruct (Ho Hop). congruence.
Qed.

Lemma proc_ok_run es : proc_ok (prun new_proc es).
Proof.
  assert (Hgen : forall p, proc_ok p -> proc_ok (prun p es)).
  { induction es as [|e es IH]; intros p Hp; [done|]. cbn. by apply IH, proc_ok_step. }
  apply Hgen. split_and!; [done| |done]. intros _. split; [done|]. apply not_elem_of_nil.
Qed.

Lemma answered_by_task es : forall p f r, dget (futures (prun p es)) f = Some (Some r) ->
  dget (futures p) f = Some (Some r) \/ exists m, PFinish m f r ∈ es.
Proof.
  induction es as [|e es IH]; intros p f r Hr; [by left|]. cbn [prun foldl] in Hr. apply IH in Hr as [Hr|[m Hm]]; [|right; exists m; by right].
  destruct e as [m f'| | |m f' r'|]; cbn [pstep] in Hr.
  - unfold call in Hr. destruct (pipe_open p); [|by left]. cbn in Hr. destruct (decide (f' = f)) as [->|Hne]; [by rewrite dget_dset_eq in Hr|].
    rewrite dget_dset_ne in Hr by done. by left.
  - unfold shutdown in Hr. destruct (dphase p), (pipe_open p); by left.
  - unfold serve in Hr. destruct (dphase p), (dpipe p) as [|[]]; by left.
  - unfold finish_task in Hr. destruct (dphase p); [..|by left]; (case_bool_decide; [|by left]); cbn in Hr;
      (destruct (dget (futures p) f') as [[?|]|] eqn:Ef; [by left| |by left]);
      (destruct (decide (f' = f)) as [->|Hne]; [rewrite dget_dset_eq in Hr; injection Hr as ->; right; exists m; left|
         rewrite dget_dset_ne in Hr by done; by left]).
  - unfold shut_down in Hr. destruct (dphase p); by left.
Qed.

(** The commands before one in the pipe are served one after the other. *)
Lemma served (l1 l2 : list command) c p : dphase p = Serving -> dpipe p = l1 ++ c :: l2 -> (CShutdown ∉ l1) ->
  let p' := prun p (replicate (length l1) PServe) in
  dphase p' = Serving /\ dpipe p' = c :: l2 /\ futures p' = futures p.
Proof.
  revert p. induction l1 as [|[m f|] l1 IH]; intros p Hd Hp Hn; [done| |set_solver]. cbn [length replicate prun foldl pstep].
  assert (Hsv : serve p = mkProc (l1 ++ c :: l2) (pipe_open p) Serving (dtasks p ++ [(m, f)]) (futures p) (sent p) (started p ++ [f]))
    by (unfold serve; by rewrite Hd, Hp).
  rewrite Hsv. apply (IH (mkProc _ _ _ _ _ _ _)); cbn; [done|done|set_solver].
Qed.

(** ** Theorems *)

(** The DHT process serves its callers.  After any sequence of calls, tasks and shutdown: the requests whose task was created are
    the first of those sent, in order; a future only holds what a task of its own request has returned or
    raised; and as long as the process has not been told to shut down, every request that is pending can still be
    answered, with whatever its task returns. *)
Theorem requests_served (es : list pevent) :
  let p := prun new_proc es in
  sent p = started p ++ calls (dpipe p) /\
  (forall f r, dget (futures p) f = Some (Some r) -> exists m, PFinish m f r ∈ es) /\
  (pipe_open p = true -> forall f r, dget (futures p) f = Some None ->
     exists n m, dget (futures (prun p (replicate n PServe ++ [PFinish m f r]))) f = Some (Some r)).
Proof.
  intros p. destruct (proc_ok_run es) as (Hs & Ho & Hf). fold p in Hs, Ho, Hf. split_and!; [done|..].
  - intros f r Hr. apply answered_by_task in Hr as [Hr|?]; done.
  - intros Hop f r Hp. destruct (Ho Hop) as [Hd Hn]. destruct (Hf f Hp) as (m & Hin).
    assert (Hfin : forall q, dphase q = Serving -> (m, f) ∈ dtasks q -> dget (futures q) f = Some None ->
              dget (futures (prun q [PFinish m f r])) f = Some (Some r)).
    { intros q Hq Ht Hfq. cbn. unfold finish_task. rewrite Hq, bool_decide_true by done. cbn. rewrite Hfq. apply dget_dset_eq. }
    destruct Hin as [Hin|Hin]; [exists O, m; by apply Hfin|].
    apply list_elem_of_split in Hin as (l1 & l2 & Hl). assert (Hn1 : CShutdown ∉ l1) by (rewrite Hl in Hn; set_solver).
    destruct (served l1 l2 _ p Hd Hl Hn1) as (H1 & H2 & H3). exists (S (length l1)), m.
    replace (replicate (S (length l1)) PServe ++ [PFinish m f r]) with (replicate (length l1) PServe ++ [PServe; PFinish m f r])
      by (rewrite <- (Nat.add_1_r (length l1)), replicate_add, <- app_assoc; done).
    unfold prun at 1. rewrite foldl_app. fold (prun p (replicate (length l1) PServe)). set (q := prun p _) in *.
    change (foldl pstep q [PServe; PFinish m f r]) with (prun (serve q) [PFinish m f r]).
    assert (Hsv : serve q = mkProc l2 (pipe_open q) Serving (dtasks q ++ [(m, f)]) (futures q) (sent q) (started q ++ [f]))
      by (unfold serve; by rewrite H1, H2).
    rewrite Hsv. apply Hfin; cbn; [done|set_solver|by rewrite H3].
Qed.

(** A shutdown leaves its callers waiting: a request that is pending when the task of [_shutdown] ends is not answered, and
    [future.result()] of the parent, which has no time limit, does not return.  The tasks that are left go down with the event
    loop; that a garbage collection before the process exits may close their coroutines, which would then set an
    exception, is not part of the model. *)
Theorem shutdown_loses_requests (p : Proc) (f : nat) (es : list pevent) :
  dphase p = Stopping -> dget (futures p) f = Some None -> dget (futures (prun p (PEnd :: es))) f = Some None.
Proof.
  intros Hd Hp. cbn [prun foldl pstep]. unfold shut_down. rewrite Hd.
  assert (Hgen : forall q, dphase q = Dead -> dget (futures q) f = Some None -> dget (futures (prun q es)) f = Some None); [|by apply Hgen].
  clear. induction es as [|e es IH]; intros q Hd Hp; [done|]. cbn [prun foldl]. apply IH; destruct e as [m f'| | |m f' r|]; cbn [pstep];
    unfold call, shutdown, serve, finish_task, shut_down; rewrite ?Hd; try done; destruct (pipe_open q); try done.
  cbn. destruct (decide (f' = f)) as [->|Hne]; [apply dget_dset_eq|by rewrite dget_dset_ne].
Qed.
End Process.

(** ** Witnesses *)

Lemma first_result_delivered_witness :
  origin_result (frun new_future ([RRunning; RRest true; RSet (Ok 5); RRest true; RSet (Ok 6); RRest true] ++ OCancelRest :: replicate 2 Deliver)) = Some (Ok 5).
Proof.
  destruct (first_result_delivered (V := Z) [RRunning; RRest true; RSet (Ok 5); RRest true; RSet (Ok 6); RRest true] 2) as [E|E]; [repeat split|vm_compute; lia|exact E|].
  vm_compute in E. discriminate E.
Defined.

Lemma requests_served_witness :
  exists n m, dget (futures (V := Z) (prun (prun new_proc [PCall MGet 1; PCall MStore 2]) (replicate n PServe ++ [PFinish m 2 (Ok 7)]))) 2%nat = Some (Some (Ok 7)).
Proof. apply (requests_served [PCall MGet 1; PCall MStore 2]); reflexivity. Defined.

Lemma shutdown_loses_requests_witness :
  dget (futures (V := Z) (prun (prun new_proc [PCall MGet 1; PServe; PShutdown; PServe]) (PEnd :: [PFinish MGet 1 (Ok 7)]))) 1%nat = Some None.
Proof. apply (shutdown_loses_requests (prun new_proc [PCall MGet 1; PServe; PShutdown; PServe]) 1 [PFinish MGet 1 (Ok 7)]); reflexivity. Defined.
