(* ===== verification/Heartbeat.v ===== *)
(** * The server's announcements ([mesh/subnet/server/server.py], [mesh/utils/dht.py], [mesh/utils/data_structures.py])

    A server tells the network that it is there by storing its [ServerInfo] under the key ["node"] and its own sub-key.
    [ModuleHeartbeatThread] repeats this; others read the records with [get_node_infos] and its variants.  The record
    travels as a tuple.  What pydantic does with the fields is a parameter, with the law that the fields of a valid record
    are accepted as they are. *)

From Stdlib Require Import QArith.
From S2P Require Import Prelude DHTID.

(** ** [ServerInfo] *)

Inductive ServerState : Type := OFFLINE | JOINING | ONLINE.
Inductive ServerClass : Type := VALIDATOR.
#[export] Instance ServerState_eq_dec : EqDecision ServerState.
Proof. solve_decision. Defined.

Definition state_value (s : ServerState) : Z := match s with OFFLINE => 0 | JOINING => 1 | ONLINE => 2 end.

(** A float; [None] is infinity. *)
Definition Float : Type := option Q.

Record ServerInfo : Type := mkServerInfo {
  state : ServerState; role : ServerClass; throughput : Q;
  public_name : option string; version : option string; using_relay : option bool;
  next_pings : option (list (string * Float)) }.

(** The values of a record *)
#[warnings="-register-all"] Inductive wval : Type :=
  | WNone | WBool (b : bool) | WInt (n : Z) | WFloat (q : Float) | WStr (s : string)
  | WMap (m : list (string * wval)) | WTuple (l : list wval) | WOther.

Definition opt {A} (f : A -> wval) (o : option A) : wval := match o with Some a => f a | None => WNone end.
Definition role_value (r : ServerClass) : string := "validator".

(** [dataclasses.asdict(self)] without the first three fields *)
Definition extra_info (i : ServerInfo) : list (string * wval) :=
  [("public_name", opt WStr (public_name i)); ("version", opt WStr (version i)); ("using_relay", opt WBool (using_relay i));
   ("next_pings", opt (fun l => WMap (map (fun e => (e.1, WFloat e.2)) l)) (next_pings i))]%string.

Definition to_tuple (i : ServerInfo) : wval :=
  WTuple [WInt (state_value (state i)); WStr (role_value (role i)); WFloat (Some (throughput i)); WMap (extra_info i)].

(** [ServerState(value)]: the members are found by equality, which numbers of all types share. *)
Definition ServerState_of (w : wval) : result ServerState :=
  let n := match w with WInt n => Some n | WBool b => Some (if b then 1 else 0)
                   | WFloat (Some q) => if Qeq_bool q 0 then Some 0 else if Qeq_bool q 1 then Some 1 else if Qeq_bool q 2 then Some 2 else None
                   | _ => None end in
  match n with Some 0 => Ok OFFLINE | Some 1 => Ok JOINING | Some 2 => Ok ONLINE | _ => Raise ValueError end.

(** What pydantic makes of the arguments: the state, the values for role and throughput, and the other keywords. *)
Class Pydantic := { init_info : ServerState -> wval -> wval -> list (string * wval) -> result ServerInfo }.

Definition ping_ok (e : string * Float) : Prop := match e.2 with Some q => (0 <= q)%Q | None => True end.
(** The constraints of the annotations *)
Definition valid_info (i : ServerInfo) : Prop :=
  (0 <= throughput i)%Q /\ match next_pings i with Some l => Forall ping_ok l | None => True end.

Class PydanticLaws `{Pydantic} : Prop := {
  init_info_valid (i : ServerInfo) : valid_info i ->
    init_info (state i) (WStr (role_value (role i))) (WFloat (Some (throughput i))) (extra_info i) = Ok i }.

(** What [get_many] found under the key: nothing, a dictionary of sub-keys, or a plain value. *)
Inductive Found (Subkey : Type) : Type := FNothing | FPlain | FDict (d : list (Subkey * (wval * Z))).
Arguments FNothing {Subkey}.
Arguments FPlain {Subkey}.
Arguments FDict {Subkey} d.

Section Reading.
Context `{Pydantic}.

Definition from_tuple (source : wval) : result ServerInfo :=
  match source with
  | WTuple (st :: role :: throughput :: more) =>
      let* extra := of_option IndexError (head more) in
      let* st := ServerState_of st in
      match extra with
      | WMap kw =>
          if existsb (fun k => bool_decide (k ∈ ["state"; "role"; "throughput"]%string)) kw.*1 then Raise TypeError
          else init_info st role throughput kw
      | _ => Raise TypeError
      end
  | WTuple _ => Raise ValueError
  | _ => Raise TypeError
  end.

(** ** Reading and writing records *)

(** The argument [expiration_time] of the look-up; [None] is infinity. *)
Definition lookup_expiration (now : Z) (expiration_time : option Z) (latest : bool) : result (option Z) :=
  if latest then match expiration_time with Some _ => Raise AssertionError | None => Ok None end
  else Ok (Some (default now expiration_time)).

Section Infos.
Context {Subkey PeerID : Type}.

(** The loop of [_get_node_infos], [_get_node_infos_sig] and [_get_node_heartbeats]; [peer] reads the sub-key. *)
Fixpoint node_infos (peer : Subkey -> result PeerID) (d : list (Subkey * (wval * Z))) : result (list (PeerID * ServerInfo * Z)) :=
  match d with
  | [] => Ok []
  | (sk, (v, e)) :: rest =>
      let* p := peer sk in
      let* i := from_tuple v in
      let* l := node_infos peer rest in
      Ok ((p, i, e) :: l)
  end.

Definition get_node_heartbeats (now : Z) (expiration_time : option Z) (latest : bool) (get_many : option Z -> result (Found Subkey))
    (peer : Subkey -> result PeerID) : result (list (PeerID * ServerInfo * Z)) :=
  let* e := lookup_expiration now expiration_time latest in
  let* found := get_many e in
  match found with
  | FNothing => Ok []
  | FPlain => Raise AttributeError
  | FDict d => node_infos peer d
  end.

Definition get_node_infos (now : Z) (expiration_time : option Z) (latest : bool) (get_many : option Z -> result (Found Subkey))
    (peer : Subkey -> result PeerID) : result (list (PeerID * ServerInfo)) :=
  rmap (map fst) (get_node_heartbeats now expiration_time latest get_many peer).
End Infos.
End Reading.

(** The sub-key of [declare_node_sig]: the identifier, followed by the public key if there is a validator *)
Definition declare_subkey (base58 : bytes) (local_public_key : option bytes) : bytes :=
  match local_public_key with None => base58 | Some k => base58 ++ k end.

(** ** The heartbeat *)

Definition MAX_DHT_TIME_DISCREPANCY_SECONDS : Z := 3.
(** [Server.__init__] *)
Definition default_expiration (update_period : Z) : Z := Z.max (2 * update_period) MAX_DHT_TIME_DISCREPANCY_SECONDS.

(** Where the thread is in [run]; [start] is its [start_time].  While a declaration is under way ([HStoring]), what is being stored is the
    state at the time of the call, which sends a copy of [server_info] to the DHT process, and its expiration time. *)
Inductive hpc : Type :=
  | HTop | HDeclare (start : Z) | HStoring (start : Z) (s : ServerState) (expires : Z) | HCheck (start : Z) | HWait (deadline : Z) | HClear
  | HEnded | HDead (e : exn).

Record Heartbeat : Type := mkHeartbeat {
  hstate : ServerState;    (* [server_info.state], shared with the caller of [announce] *)
  htrigger : bool;
  pc : hpc;
  declared : list (ServerState * Z * Z) }.   (* history: the records stored, when the store returned, and their expiration *)

(** A round of pings: [get_node_infos_sig], then the table of round-trip times with its keys as texts.  A peer whose identifier
    could not be read is [None]. *)
Definition ping_round {PeerID} (infos : result (list (option PeerID * ServerInfo))) (table : list (option PeerID * Float)) : result unit :=
  let* l := infos in
  let* t := mapM_r (fun e => match e.1 with Some p => Ok (p, e.2) | None => Raise AttributeError end) table in
  Ok tt.

(** What happens next: a call of [announce] sets the state, and then the event; the thread runs, with what the pings or the
    declaration return: whether the record was stored. *)
Inductive hevent : Type := HSetState (s : ServerState) | HSetTrigger | HRun (now : Z) (r : result bool).

Section Thread.
Context (update_period expiration : Z).

(** The thread's next step; [None] while it waits. *)
Definition hstep (now : Z) (r : result bool) (h : Heartbeat) : option Heartbeat :=
  let goto pc := Some (mkHeartbeat (hstate h) (htrigger h) pc (declared h)) in
  match pc h with
  | HTop =>
      if decide (hstate h = OFFLINE) then goto (HDeclare now)
      else match r with Ok _ => goto (HDeclare now) | Raise e => goto (HDead e) end
  | HDeclare start => goto (HStoring start (hstate h) (now + expiration))
  | HStoring start s expires =>
      match r with
      | Ok stored => (* the returned status is not looked at *)
          Some (mkHeartbeat (hstate h) (htrigger h) (HCheck start)
                  (if stored : bool then declared h ++ [(s, now, expires)] else declared h))
      | Raise e => goto (HDead e)
      end
  | HCheck start =>
      if decide (hstate h = OFFLINE) then goto HEnded
      else goto (HWait (now + Z.max (update_period - (now - start)) 0))
  | HWait deadline => if htrigger h || (deadline <=? now) then goto HClear else None
  | HClear => Some (mkHeartbeat (hstate h) false HTop (declared h))
  | HEnded | HDead _ => None
  end.

Definition hexec (h : Heartbeat) (e : hevent) : Heartbeat :=
  match e with
  | HSetState s => mkHeartbeat s (htrigger h) (pc h) (declared h)
  | HSetTrigger => mkHeartbeat (hstate h) true (pc h) (declared h)
  | HRun now r => default h (hstep now r h)
  end.
Definition hrun (h : Heartbeat) (es : list hevent) : Heartbeat := foldl hexec h es.
Definition announce (s : ServerState) : list hevent := [HSetState s; HSetTrigger].
Definition new_heartbeat : Heartbeat := mkHeartbeat JOINING false HTop [].
End Thread.

(** ** Theorems *)

Section Records.
Context `{PL : PydanticLaws}.

Lemma from_to_tuple (i : ServerInfo) : valid_info i -> from_tuple (to_tuple i) = Ok i.
Proof.
  intros Hi. unfold from_tuple, to_tuple. cbn [head of_option rbind].
  assert (Hs : ServerState_of (WInt (state_value (state i))) = Ok (state i)) by (by destruct (state i)). rewrite Hs. cbn [rbind].
  replace (existsb _ _) with false by (vm_compute; reflexivity). by apply init_info_valid.
Qed.

(** A record is read back as it was announced: [from_tuple] inverts [to_tuple] on every record that satisfies the constraints of
    its fields; a tuple without its fourth part, which the code means to accept, raises an [IndexError]. *)
Theorem server_info_roundtrip (i : ServerInfo) : valid_info i ->
  from_tuple (to_tuple i) = Ok i /\ forall a b c, from_tuple (WTuple [a; b; c]) = Raise IndexError.
Proof. intros Hi. split; [by apply from_to_tuple|done]. Qed.

Lemma node_infos_malformed {Subkey PeerID : Type} (peer : Subkey -> result PeerID) d sk v e x :
  (sk, (v, e)) ∈ d -> from_tuple v = Raise x -> exists y, node_infos peer d = Raise y.
Proof.
  induction d as [|[sk' [v' e']] d IH]; intros Hin Hx; [by apply elem_of_nil in Hin|]. cbn [node_infos].
  destruct (peer sk') as [p|y]; [|by eexists]. cbn [rbind]. destruct (from_tuple v') as [i|y] eqn:Ev; [|by eexists]. cbn [rbind].
  apply elem_of_cons in Hin as [[= -> -> ->]|Hin]; [congruence|]. destruct (IH Hin Hx) as [y ->]. by exists y.
Qed.
End Records.

Section ThreadFacts.
Context (update_period expiration : Z).
Abbreviation hstep := (hstep update_period expiration).
Abbreviation hexec := (hexec update_period expiration).
Abbreviation hrun := (hrun update_period expiration).

Lemma hrun_cons h e es : hrun h (e :: es) = hrun (hexec h e) es.
Proof. done. Qed.

Lemma dead_stays (h : Heartbeat) (x : exn) es : pc h = HDead x -> declared (hrun h es) = declared h /\ pc (hrun h es) = HDead x.
Proof.
  revert h. induction es as [|e es IH]; intros h Hp; [done|]. rewrite hrun_cons.
  assert (Hh : declared (hexec h e) = declared h /\ pc (hexec h e) = HDead x).
  { destruct e; cbn; try done. unfold hstep. by rewrite Hp. }
  destruct Hh as [Hd Hp']. destruct (IH (hexec h e) Hp') as [H1 H2]. split; [by rewrite H1, Hd|done].
Qed.

(** One malformed record silences every server: if any value under the key cannot be read, the round of pings raises,
    the thread of the heartbeat ends with that exception, and nothing is declared any more, whatever happens. *)
Theorem malformed_record_stops_heartbeat `{Pydantic} {Subkey PeerID : Type} (peer : Subkey -> result (option PeerID)) d sk v e x table (h : Heartbeat) (now : Z) :
  (sk, (v, e)) ∈ d -> from_tuple v = Raise x -> pc h = HTop -> hstate h <> OFFLINE ->
  exists y, ping_round (get_node_infos now None true (fun _ => Ok (FDict d)) peer) table = Raise y /\
    forall es, declared (hrun h (HRun now (Raise y) :: es)) = declared h /\ pc (hrun h (HRun now (Raise y) :: es)) = HDead y.
Proof.
  intros Hin Hx Hp Hs. destruct (node_infos_malformed peer d sk v e x Hin Hx) as [y Hy]. exists y. split.
  { unfold get_node_infos, get_node_heartbeats. cbn [lookup_expiration rbind]. by rewrite Hy. }
  intros es. rewrite hrun_cons. set (h1 := hexec h (HRun now (Raise y))).
  assert (Hh : h1 = mkHeartbeat (hstate h) (htrigger h) (HDead y) (declared h)).
  { unfold h1. cbn [hexec]. unfold hstep. rewrite Hp. by rewrite decide_False. }
  destruct (dead_stays h1 y es) as [H1 H2]; [by rewrite Hh|]. split; [|done]. etransitivity; [exact H1|]. by rewrite Hh.
Qed.

(** *** Renewal in time *)

(** [busy] bounds the time from the start of a round to the end of its declaration and the check, [slack] the time from the end of the
    wait to the start of the next round, and [tolerated] how many declarations in a row are rejected. *)
Context (busy slack tolerated : Z).
Definition longest : Z := Z.max update_period busy.
Definition round_time : Z := longest + slack.

(** What is assumed of a step: [deadline] is the end of the last wait, [missed] the number of declarations rejected since a record was
    stored.  Nothing is assumed of what the pings do. *)
Definition in_time (deadline missed : Z) (h : Heartbeat) (e : hevent) : Prop :=
  match e with
  | HRun now r =>
      match pc h with
      | HTop => now <= deadline + slack
      | HDeclare start | HCheck start => start <= now <= start + busy
      | HStoring start _ _ => start <= now <= start + busy /\ (r = Ok false -> missed < tolerated)
      | _ => True
      end
  | _ => True
  end.
Definition next_deadline (deadline : Z) (h : Heartbeat) : Z := match pc h with HWait x => x | _ => deadline end.
Definition next_missed (missed : Z) (h : Heartbeat) (e : hevent) : Z :=
  match pc h, e with
  | HStoring _ _ _, HRun _ (Ok true) => 0
  | HStoring _ _ _, HRun _ (Ok false) => missed + 1
  | _, _ => missed
  end.
Fixpoint timely (deadline missed : Z) (h : Heartbeat) (es : list hevent) : Prop :=
  match es with
  | [] => True
  | e :: es => in_time deadline missed h e /\ timely (next_deadline deadline h) (next_missed missed h e) (hexec h e) es
  end.

(** Each record is stored before the one before it expires. *)
Definition renewed (l : list (ServerState * Z * Z)) : Prop :=
  forall i s1 t1 e1 s2 t2 e2, l !! i = Some (s1, t1, e1) -> l !! (S i) = Some (s2, t2, e2) -> t2 <= e1.

Definition on_time (deadline missed : Z) (h : Heartbeat) : Prop :=
  0 <= missed <= tolerated /\ renewed (declared h) /\
  match pc h with HStoring start _ expires => start <= expires - expiration | _ => True end /\
  forall s t e, last (declared h) = Some (s, t, e) ->
    let asked := e - expiration in
    match pc h with
    | HTop | HClear => deadline <= asked + missed * round_time + longest
    | HDeclare start | HStoring start _ _ => start <= asked + (missed + 1) * round_time
    | HCheck start => start <= asked + missed * round_time
    | HWait x => x <= asked + missed * round_time + longest
    | HEnded | HDead _ => True
    end.

Lemma renewed_snoc l s t e : renewed l -> (forall s' t' e', last l = Some (s', t', e') -> t <= e') -> renewed (l ++ [(s, t, e)]).
Proof.
  intros Hr Hl i s1 t1 e1 s2 t2 e2 H1 H2. destruct (decide (S i < length l)%nat) as [Hi|Hi].
  - rewrite lookup_app_l in H1, H2 by lia. eauto.
  - pose proof (lookup_lt_Some _ _ _ H2) as Hlt. rewrite length_app in Hlt. cbn in Hlt.
    rewrite lookup_app_l in H1 by lia. rewrite lookup_app_r in H2 by lia. replace (S i - length l)%nat with 0%nat in H2 by lia. injection H2 as -> -> ->.
    apply (Hl s1 t1). rewrite last_lookup. by replace (pred (length l)) with i by lia.
Qed.

Lemma on_time_step deadline missed (h : Heartbeat) (e : hevent) :
  0 <= update_period -> 0 <= busy -> 0 <= slack -> (tolerated + 1) * round_time + busy <= expiration ->
  on_time deadline missed h -> in_time deadline missed h e ->
  on_time (next_deadline deadline h) (next_missed missed h e) (hexec h e).
Proof.
  intros Hu Hb Hs He (Hm & Hr & Hst & Hl) Ht. destruct e as [s| |now r].
  1, 2: (unfold on_time, next_missed, next_deadline; cbn [hexec declared pc]; split_and!; [by destruct (pc h); lia..|done|done|];
         intros s' t' e' Hlast; specialize (Hl s' t' e' Hlast); by destruct (pc h)).
  cbn [hexec]. unfold hstep. cbn [in_time] in Ht. unfold next_deadline, next_missed, on_time, round_time, longest in *.
  destruct (pc h) as [|start|start s0 expires|start|x| | |x] eqn:Epc; cbn [default].
  - destruct (decide (hstate h = OFFLINE)); [|destruct r as [b|y]]; cbn; (split_and!; [lia|lia|done|done|]); intros s1 t1 e1 Hlast; specialize (Hl s1 t1 e1 Hlast); cbn in Hl; lia.
  - cbn. split_and!; [lia|lia|done|lia|]. intros s1 t1 e1 Hlast. specialize (Hl s1 t1 e1 Hlast). cbn in Hl. lia.
  - destruct Ht as [Ht Hrej]. destruct r as [[]|x]; cbn.
    + split_and!; [lia|lia| |done|].
      * apply renewed_snoc; [done|]. intros s' t' e' Hlast. specialize (Hl s' t' e' Hlast). cbn in Hl. nia.
      * intros s t e. rewrite last_snoc. intros [= <- <- <-]. lia.
    + specialize (Hrej eq_refl). split_and!; [lia|lia|done|done|]. intros s1 t1 e1 Hlast. specialize (Hl s1 t1 e1 Hlast). cbn in Hl. lia.
    + by split_and!; [lia|lia|..].
  - destruct (decide (hstate h = OFFLINE)); cbn; (split_and!; [lia|lia|done|done|]); intros s1 t1 e1 Hlast; specialize (Hl s1 t1 e1 Hlast); cbn in Hl; lia.
  - destruct (htrigger h || (x <=? now)); cbn; rewrite ?Epc; (split_and!; [lia|lia|done|done|]); intros s1 t1 e1 Hlast; specialize (Hl s1 t1 e1 Hlast); cbn in Hl; lia.
  - cbn. split_and!; [lia|lia|done|done|]. intros s1 t1 e1 Hlast. by specialize (Hl s1 t1 e1 Hlast).
  - cbn. rewrite Epc. by split_and!; [lia|lia|..].
  - cbn. rewrite Epc. by split_and!; [lia|lia|..].
Qed.

(** C30: A server's record does not lapse while its heartbeat keeps up.  Suppose that a round takes at most [busy] seconds until its declaration has
    returned, that at most [slack] seconds pass before the next round starts, and that at most [tolerated] declarations in a row are
    rejected.  If records live for ([tolerated] + 1) rounds and [busy] seconds more, every record stored is stored before the one before it
    expires, whatever is announced in between and whether or not the pings or a declaration end the thread at some point. *)
Theorem heartbeat_never_lapses (start : Z) (es : list hevent) :
  0 <= update_period -> 0 <= busy -> 0 <= slack -> 0 <= tolerated -> (tolerated + 1) * round_time + busy <= expiration ->
  timely start 0 new_heartbeat es -> renewed (declared (hrun new_heartbeat es)).
Proof.
  intros Hu Hb Hs Hk He Ht. assert (H0 : on_time start 0 new_heartbeat) by (split_and!; [lia|lia| |done|done]; intros i s1 t1 e1 s2 t2 e2 H1; by destruct i).
  assert (Hgen : forall es d m h, on_time d m h -> timely d m h es -> renewed (declared (hrun h es))).
  { induction es0 as [|e es0 IH]; intros d m h Hh Hes; [apply Hh|]. destruct Hes as [Hi Hes]. rewrite hrun_cons.
    eapply IH; [|exact Hes]. by apply on_time_step. }
  by eapply Hgen.
Qed.

(** *** Going offline *)

Definition declared_offline (h : Heartbeat) : Prop := exists t e, last (declared h) = Some (OFFLINE, t, e).

Lemma offline_run (es : list hevent) : forall h, hstate h = OFFLINE -> (forall e, e ∈ es -> exists now, e = HRun now (Ok true)) ->
  match pc h with HCheck _ | HEnded => declared_offline h | HStoring _ s _ => s = OFFLINE | HDead _ => False | _ => True end ->
  pc (hrun h es) = HEnded -> declared_offline (hrun h es).
Proof.
  induction es as [|e es IH]; intros h Hs Hes Hpc Hend; [cbn in Hend; by rewrite Hend in Hpc|]. rewrite hrun_cons in *.
  destruct (Hes e) as [now ->]; [left|]. apply IH; try done.
  - cbn [hexec]. unfold hstep. destruct (pc h); cbn; try done; repeat (case_decide || destruct (_ || _)); done.
  - intros e He. apply Hes. by right.
  - cbn [hexec]. unfold hstep. rewrite Hs. rewrite decide_True by done. destruct (pc h) eqn:Epc; cbn; try done.
    + eexists _, _. cbn. rewrite last_snoc. by rewrite Hpc.
    + destruct (htrigger h || (deadline <=? now)); cbn; [done|]. by rewrite Epc.
    + by rewrite Epc.
Qed.

(** How many steps are left, once the state is [OFFLINE] *)
Definition steps_left (p : hpc) : nat :=
  match p with HWait _ => 6 | HClear => 5 | HTop => 4 | HDeclare _ => 3 | HStoring _ _ _ => 2 | HCheck _ => 1 | _ => 0 end.

Lemma offline_ends (es : list hevent) : forall h, hstate h = OFFLINE -> (forall e, e ∈ es -> exists now, e = HRun now (Ok true)) ->
  match pc h with HWait _ => htrigger h = true | HDead _ => False | _ => True end ->
  (steps_left (pc h) <= length es)%nat -> pc (hrun h es) = HEnded.
Proof.
  induction es as [|e es IH]; intros h Hs Hes Hw Hl; [cbn in Hl |- *; destruct (pc h); done || (cbn in Hl; lia)|].
  rewrite hrun_cons. destruct (Hes e) as [now ->]; [left|]. cbn [length] in Hl. apply IH; try (intros e He; apply Hes; by right).
  all: cbn [hexec]; unfold hstep; rewrite Hs; rewrite !decide_True by done; destruct (pc h) eqn:Epc; cbn in Hl |- *; rewrite ?Epc, ?Hw; rewrite ?decide_True by done; cbn; try done; try lia.
Qed.

(** When a server announces that it goes offline, and its thread then runs to its end, the last record it has
    stored says [OFFLINE], except if the announcement comes while a declaration is under way or before the check that follows it: then the
    thread ends at once, and the last record is the earlier one.  The thread ends after at most six steps. *)
Theorem offline_announcement (h : Heartbeat) (es : list hevent) :
  (forall e, e ∈ es -> exists now, e = HRun now (Ok true)) -> (forall x, pc h <> HDead x) -> pc h <> HEnded ->
  let h' := hrun h (announce OFFLINE ++ es) in
  ((6 <= length es)%nat -> pc h' = HEnded) /\
  ((forall start, pc h <> HCheck start) -> (forall start s e, pc h = HStoring start s e -> s = OFFLINE) -> pc h' = HEnded -> declared_offline h') /\
  (forall start now, pc h = HCheck start -> es = [HRun now (Ok true)] -> pc h' = HEnded /\ declared h' = declared h) /\
  (forall start s e now now', pc h = HStoring start s e -> es = [HRun now (Ok true); HRun now' (Ok true)] ->
     pc h' = HEnded /\ declared h' = declared h ++ [(s, now, e)]).
Proof.
  intros Hes Hd Hn h'. assert (Hh' : h' = hrun (mkHeartbeat OFFLINE true (pc h) (declared h)) es) by reflexivity. clearbody h'. subst h'.
  split_and!.
  - intros Hl. apply offline_ends; try done; cbn [pc htrigger]; destruct (pc h) eqn:E; try done; try (cbn; lia). by destruct (Hd e).
  - intros Hc Ho He. apply offline_run with (h := mkHeartbeat OFFLINE true (pc h) (declared h)); try done. cbn.
    destruct (pc h) eqn:E; try done; [by eapply Ho|by destruct (Hc start)|by destruct (Hd e)].
  - intros start now Hc ->. cbn. unfold hstep. cbn. by rewrite Hc.
  - intros start s e now now' Hc ->. cbn. unfold hstep. cbn. by rewrite Hc.
Qed.
End ThreadFacts.

(** *** Witnesses *)

Definition toy_info : ServerInfo := mkServerInfo ONLINE VALIDATOR 1 None (Some "1.0.0"%string) (Some false) None.
Definition toy_float (w : wval) : option Q := match w with WFloat (Some q) => Some q | _ => None end.
Definition toy_text (w : wval) : option string := match w with WStr s => Some s | _ => None end.
Definition toy_bool (w : wval) : option bool := match w with WBool b => Some b | _ => None end.
Definition toy_pings (w : wval) : option (list (string * Float)) :=
  match w with WMap m => Some (map (fun e => (e.1, match e.2 with WFloat q => q | _ => None end)) m) | _ => None end.
#[export] Instance toy_pydantic : Pydantic := {|
  init_info (s : ServerState) (r t : wval) (kw : list (string * wval)) :=
    match toy_float t, kw with
    | Some q, [(_, n); (_, v); (_, u); (_, p)] => Ok (mkServerInfo s VALIDATOR q (toy_text n) (toy_text v) (toy_bool u) (toy_pings p))
    | _, _ => Raise ValidationError
    end |}.
#[export] Instance toy_pydantic_laws : PydanticLaws.
Proof.
  constructor. intros [s [] t n v u p] _. cbn. f_equal. f_equal; [by destruct n|by destruct v|by destruct u|].
  destruct p as [l|]; [|done]. cbn. f_equal. rewrite map_map. rewrite <- (map_id l) at 2. apply map_ext. by intros [].
Qed.

Lemma server_info_roundtrip_witness : from_tuple (to_tuple toy_info) = Ok toy_info.
Proof. apply (server_info_roundtrip toy_info). split; [discriminate|exact I]. Defined.

Definition toy_malformed : list (Z * (wval * Z)) := [(1, (to_tuple toy_info, 9)); (2, (WNone, 9))].
Lemma malformed_record_stops_heartbeat_witness :
  exists y, ping_round (get_node_infos 0 None true (fun _ => Ok (FDict toy_malformed)) (fun k => Ok (Some k))) [] = Raise y.
Proof.
  destruct (malformed_record_stops_heartbeat 60 120 (fun k : Z => Ok (Some k)) toy_malformed 2 WNone 9 TypeError [] new_heartbeat 0) as [y [Hy _]].
  - right; left.
  - reflexivity.
  - reflexivity.
  - discriminate.
  - by exists y.
Defined.

(** The second declaration is rejected, the third is stored. *)
Definition toy_beat : list hevent :=
  [HRun 0 (Ok true); HRun 5 (Ok true); HRun 6 (Ok true); HRun 7 (Ok true); HRun 60 (Ok true); HRun 60 (Ok true);
   HRun 61 (Ok true); HRun 66 (Ok true); HRun 67 (Ok false); HRun 68 (Ok true); HRun 121 (Ok true); HRun 121 (Ok true);
   HRun 121 (Ok true); HRun 122 (Ok true); HRun 131 (Ok true)].
Lemma heartbeat_never_lapses_witness :
  length (declared (hrun 60 135 new_heartbeat toy_beat)) = 2%nat /\ renewed (declared (hrun 60 135 new_heartbeat toy_beat)).
Proof.
  split; [vm_compute; reflexivity|].
  apply (heartbeat_never_lapses 60 135 10 2 1 0 toy_beat); vm_compute; intuition discriminate.
Defined.

(** With records that live for two periods, one rejected declaration is enough for a gap. *)
Example default_expiration_gap : ~ renewed (declared (hrun 60 (default_expiration 60) new_heartbeat toy_beat)).
Proof. intros H. specialize (H 0%nat JOINING 6 125 JOINING 131 242). vm_compute in H. by apply H. Qed.

Lemma offline_announcement_witness :
  declared_offline (hrun 60 120 new_heartbeat (announce OFFLINE ++ [HRun 1 (Ok true); HRun 2 (Ok true); HRun 3 (Ok true); HRun 4 (Ok true)])).
Proof.
  apply (offline_announcement 60 120 new_heartbeat [HRun 1 (Ok true); HRun 2 (Ok true); HRun 3 (Ok true); HRun 4 (Ok true)]); try discriminate.
  - intros e He. repeat (apply elem_of_cons in He as [-> |He]; [by eexists|]). by apply elem_of_nil in He.
  - reflexivity.
Defined.
