(* ===== verification/Discovery.v ===== *)
(** * How clients find servers

    The composition of [Heartbeat.v], [Client.v] and the identifiers: a server stores its record with [declare_node_sig], a
    [RemoteManager] reads it with [get_node_infos].  The sub-key of a record is the text of the peer identifier, followed by
    the marker of the owner if the server signs its records, as [Server] always does. *)

From S2P Require Import Prelude DHTID Base58 PeerIdentity Crypto TimedStorage Client Heartbeat.

(** [PeerID.__lt__] *)
#[export] Instance peer_ord : PyOrd PeerID := fun p q => py_leb (to_base58 p) (to_base58 q).
#[export] Instance peer_eq_dec : EqDecision PeerID.
Proof. solve_decision. Defined.

(** What the manager keeps of a record *)
Definition module_info (e : PeerID * ServerInfo) : ModuleInfo := Client.mkInfo e.1 (Heartbeat.state_value (state e.2)) 0.

Section Discovery.
Context `{PL : PydanticLaws} {PrivateKey PublicKey : Type} `{Lib : CryptoLib PrivateKey PublicKey}.

(** The answer to [get_node_infos(self.dht, uid="node", latest=True)] when [d] is stored *)
Definition read_servers (now : Z) (d : list (bytes * (wval * Z))) : result (list (PeerID * ServerInfo)) :=
  get_node_infos now None true (fun _ => Ok (FDict d)) from_base58.

(** A round of the update thread that reads [d] *)
Definition reads (r : round) (d : list (bytes * (wval * Z))) : Prop :=
  r_infos r = rmap (map module_info) (read_servers (r_now r) d).

(** A record of a server that signs *)
Definition has_signed_record (d : list (bytes * (wval * Z))) : Prop :=
  exists p sk v e, (declare_subkey (to_base58 p) (Some (local_public_key sk)), (v, e)) ∈ d.

(** *** Texts that are not base58 *)

Lemma foldM_r_bad {A S} (f : S -> A -> result S) (l : list A) (x : A) :
  x ∈ l -> (forall s, is_ok (f s x) = false) -> forall s, is_ok (foldM_r f s l) = false.
Proof.
  induction l as [|y l IH]; intros Hin Hf s; [by apply elem_of_nil in Hin|]. cbn [foldM_r]. destruct (f s y) as [s'|e] eqn:E; [|done].
  cbn [rbind]. apply elem_of_cons in Hin as [-> |Hin]; [|by apply IH]. specialize (Hf s). by rewrite E in Hf.
Qed.

Lemma rstrip_last (v : bytes) (c : Z) : is_space c = false -> rstrip (v ++ [c]) = v ++ [c].
Proof. intros Hc. unfold rstrip. rewrite reverse_snoc. cbn [drop_spaces]. rewrite Hc, reverse_cons, reverse_involutive. done. Qed.

Lemma lstrip_suffix (chars v : bytes) (c : Z) : (c ∉ chars) -> exists u, lstrip chars (v ++ [c]) = u ++ [c] /\ forall x, x ∈ v -> (x ∉ chars) -> x ∈ u.
Proof.
  intros Hc. induction v as [|b v (u & Hu & Hx)]; cbn [app lstrip].
  - rewrite bool_decide_false by done. exists []. split; [done|]. intros x Hx. by apply elem_of_nil in Hx.
  - case_bool_decide as Hb.
    + exists u. split; [done|]. intros x Hin Hn. apply elem_of_cons in Hin as [-> |Hin]; [done|auto].
    + exists (b :: v). done.
Qed.

(** A closing bracket at the end keeps white space from being removed; an opening one is not in the alphabet. *)
Lemma bracketed_not_base58 (v : bytes) : 91 ∈ v -> is_ok (from_base58 (v ++ [CLOSE])) = false.
Proof.
  intros Hv. unfold from_base58, b58decode. rewrite rstrip_last by done.
  destruct (lstrip_suffix (slice1 BITCOIN_ALPHABET 0) v CLOSE) as (u & -> & Hu).
  { apply (bool_decide_unpack _). vm_compute. exact I. }
  assert (H91 : 91 ∈ u). { apply Hu; [done|]. apply (bool_decide_unpack _). vm_compute. exact I. }
  unfold b58decode_int. rewrite bool_decide_false by (apply (bool_decide_unpack _); vm_compute; exact I). rewrite rstrip_last by done.
  match goal with |- context [foldM_r ?f 0 ?l] => pose proof (foldM_r_bad f l 91) as Hf end.
  specialize (Hf ltac:(set_solver)). match type of Hf with ?P -> _ => assert P as Hp end.
  { intros s. by replace (dget (get_base58_decode_map BITCOIN_ALPHABET false) 91) with (@None Z) by (vm_compute; reflexivity). }
  specialize (Hf Hp 0). destruct (foldM_r _ 0 _); [done|reflexivity].
Qed.

Lemma signed_subkey_unreadable (p : PeerID) (sk : PrivateKey) :
  is_ok (from_base58 (declare_subkey (to_base58 p) (Some (local_public_key sk)))) = false.
Proof.
  unfold declare_subkey, local_public_key. rewrite !app_assoc. apply bracketed_not_base58.
  apply elem_of_app; left. apply elem_of_app; right. apply (bool_decide_unpack _). vm_compute. exact I.
Qed.

Lemma node_infos_bad_key {Subkey : Type} (peer : Subkey -> result PeerID) d sk v :
  (sk, v) ∈ d -> is_ok (peer sk) = false -> is_ok (node_infos peer d) = false.
Proof.
  induction d as [|[sk' [v' e']] d IH]; intros Hin Hx; [by apply elem_of_nil in Hin|]. cbn [node_infos].
  destruct (peer sk') as [p|y] eqn:Ep; [|done]. cbn [rbind]. destruct (from_tuple v') as [i|y]; [|done]. cbn [rbind].
  apply elem_of_cons in Hin as [[= -> ->]|Hin]; [by rewrite Ep in Hx|]. specialize (IH Hin Hx). by destruct (node_infos peer d).
Qed.

Lemma signed_record_unreadable now d : has_signed_record d -> is_ok (read_servers now d) = false.
Proof.
  intros (p & sk & v & e & Hin). pose proof (node_infos_bad_key from_base58 d _ _ Hin (signed_subkey_unreadable p sk)) as Hn.
  unfold read_servers, get_node_infos, get_node_heartbeats. cbn [lookup_expiration rbind]. by destruct (node_infos from_base58 d).
Qed.

Lemma never_ready (rounds : list round) : forall m : RemoteManager (PeerID := PeerID), ready m = false ->
  Forall (fun r => exists d, reads r d /\ has_signed_record d) rounds -> await_ready m rounds = None.
Proof.
  induction rounds as [|r rounds IH]; intros m Hm Hr; cbn [await_ready]; rewrite Hm; [done|].
  inversion_clear Hr as [|? ? (d & Hd & Hs) Hrest]. apply IH; [|done]. unfold _update. rewrite Hd.
  pose proof (signed_record_unreadable (r_now r) d Hs) as Hn. by destruct (read_servers (r_now r) d).
Qed.

(** C31: one server that signs its records, as every [Server] does, makes all servers invisible to clients.  A sub-key that
    ends with the marker of an owner is not base58, so that reading the servers raises; the update thread logs this, the manager
    never becomes ready, and a session waits for ever without sending a request, for as long as one such record is stored. *)
Theorem signed_servers_block_clients {Tensor : Type} (m : RemoteManager (PeerID := PeerID)) (now : Z) (rounds : list round) (x : Tensor) (n : option Z)
    (a : attempt (PeerID := PeerID) (Tensor := Tensor)) (later : list attempt) :
  ready m = false -> Forall (fun r => exists d, reads r d /\ has_signed_record d) rounds -> a_rounds a = rounds ->
  make_sequence now m rounds = None /\ run_protocol_task m None x n (a :: later) = mkTrace [] [] [] None.
Proof.
  intros Hm Hr Ha. assert (Hw : forall t, make_sequence t m rounds = None).
  { intros t. unfold make_sequence. rewrite Hm. by rewrite never_ready. }
  split; [done|]. unfold run_protocol_task. cbn [run_loop]. by rewrite Ha, Hw.
Qed.

(** Servers that do not sign are found as they announced themselves: from the records stored under the text of their
    identifiers, a client reads exactly these identifiers with exactly the announced data, in the order of the records. *)
Theorem unsigned_servers_found (now : Z) (l : list (bytes * ServerInfo * Z)) :
  Forall (fun s => Forall is_byte s.1.1 /\ valid_info s.1.2) l ->
  read_servers now (map (fun s => (declare_subkey (to_base58 (PeerID_init s.1.1)) None, (to_tuple s.1.2, s.2))) l) =
    Ok (map (fun s => (PeerID_init s.1.1, s.1.2)) l).
Proof.
  intros Hl. assert (Hn : node_infos from_base58 (map (fun s => (declare_subkey (to_base58 (PeerID_init s.1.1)) None, (to_tuple s.1.2, s.2))) l) =
    Ok (map (fun s => (PeerID_init s.1.1, s.1.2, s.2)) l)).
  { induction Hl as [|[[b i] e] l [Hb Hi] Hl IH]; [done|]. cbn [map fst snd node_infos]. unfold declare_subkey at 1, from_base58 at 1, to_base58 at 1.
    cbn [PeerID_init b58_str fst snd] in *. rewrite (decode_encode BITCOIN_ALPHABET b Hb). cbn [rmap rbind].
    rewrite (from_to_tuple i Hi). cbn [rbind]. by rewrite IH. }
  unfold read_servers, get_node_infos, get_node_heartbeats. cbn [lookup_expiration rbind]. rewrite Hn. cbn [rmap]. f_equal. rewrite map_map. done.
Qed.
End Discovery.

(** *** Witnesses *)

Definition toy_signed_records : list (bytes * (wval * Z)) :=
  [(declare_subkey (to_base58 (PeerID_init [18; 1; 7])) (Some (local_public_key 7)), (to_tuple toy_info, 100))].
Definition toy_round : round (PeerID := PeerID) := mkRound 5 (rmap (map module_info) (read_servers 5 toy_signed_records)) [].
Definition toy_client : RemoteManager (PeerID := PeerID) :=
  mkManager toy_config make_empty (Blacklist.blacklist_init 15 2 None) new_aggregator false false.

Lemma signed_servers_block_clients_witness : make_sequence 6 toy_client [toy_round; toy_round] = None.
Proof.
  apply (signed_servers_block_clients (Tensor := Z) toy_client 6 [toy_round; toy_round] 9 (Some 4) (mkAttempt 6 [toy_round; toy_round] [] None) []); try reflexivity.
  assert (Hr : exists d, reads toy_round d /\ has_signed_record d).
  { exists toy_signed_records. split; [reflexivity|]. exists (PeerID_init [18; 1; 7]), 7, (to_tuple toy_info), 100. left. }
  constructor; [exact Hr|]. constructor; [exact Hr|]. constructor.
Defined.

Lemma unsigned_servers_found_witness :
  read_servers 5 [(declare_subkey (to_base58 (PeerID_init [18; 1; 7])) None, (to_tuple toy_info, 100))] = Ok [(PeerID_init [18; 1; 7], toy_info)].
Proof.
  apply (unsigned_servers_found 5 [([18; 1; 7], toy_info, 100)]). constructor; [|constructor].
  split; [repeat constructor; unfold is_byte; cbn; lia|]. split; [discriminate|exact I].
Defined.
