(* ===== verification/Nested.v ===== *)
(** * Nested structures ([mesh/utils/nested.py])

    Trees of lists, tuples, namedtuples and dictionaries: comparing their structure, turning them into a flat sequence and back,
    and mapping a function over their leaves.  The keys of dictionaries are ordered. *)

From S2P Require Import Prelude.

Section Nested.
Context {K : Type} `{EqK : EqDecision K} `{OrdK : PyOrd K}.

(** The type of a sequence; a namedtuple has a class and a number of fields. *)
Inductive seq_type : Type := TList | TTuple | TNamed (class fields : nat).

(** [Generator] is a generator object over the given items that was not run. *)
#[warnings="-register-all"] Inductive nested (A : Type) : Type :=
  | Leaf (a : A)
  | Seq (t : seq_type) (l : list (nested A))
  | Dict (d : list (K * nested A))
  | Generator.
Arguments Leaf {A} a.
Arguments Seq {A} t l.
Arguments Dict {A} d.
Arguments Generator {A}.

(** [isinstance(u, type(t))]: the classes of namedtuples are subclasses of [tuple]. *)
Definition instance_of (u t : seq_type) : bool :=
  match t, u with
  | TList, TList => true
  | TTuple, (TTuple | TNamed _ _) => true
  | TNamed c _, TNamed c' _ => Nat.eqb c c'
  | _, _ => false
  end.

(** [sorted(d.items())]: the keys differ, so that the values are not compared. *)
Fixpoint insert_item {V} (e : K * V) (l : list (K * V)) : list (K * V) :=
  match l with
  | [] => [e]
  | e' :: l' => if py_leb e.1 e'.1 then e :: l else e' :: insert_item e l'
  end.
Definition sorted_items {V} (d : list (K * V)) : list (K * V) := foldr insert_item [] d.

Definition same_keys {V W} (d : list (K * V)) (d' : list (K * W)) : bool :=
  forallb (fun k => bool_decide (k ∈ d'.*1)) d.*1 && forallb (fun k => bool_decide (k ∈ d.*1)) d'.*1.

Fixpoint nested_compare {A B} (t : nested A) (u : nested B) : bool :=
  match t with
  | Seq ty l =>
      match u with
      | Seq ty' l' => instance_of ty' ty && Nat.eqb (length l) (length l') &&
          forallb (fun p => p.1 p.2) (zip (map nested_compare l) l')
      | _ => false
      end
  | Dict d =>
      match u with
      | Dict d' => same_keys d d' &&
          forallb (fun e => match dget d' e.1 with Some v => e.2 v | None => false end) (map (fun e => (e.1, nested_compare e.2)) d)
      | _ => false
      end
  | Leaf _ | Generator => true
  end.

(** A generator object is a leaf for the code; it has no value of type [A] and does not occur in arguments. *)
Fixpoint nested_flatten {A} (t : nested A) : list A :=
  match t with
  | Leaf a => [a]
  | Seq _ l => mjoin (map nested_flatten l)
  | Dict d => mjoin (map snd (sorted_items (map (fun e => (e.1, nested_flatten e.2)) d)))
  | Generator => []
  end.

(** What [all(n is str for n in f)] says about the field names, which are strings and not the class [str] *)
Definition is_namedtuple (ty : seq_type) : bool :=
  match ty with TNamed _ fields => Nat.eqb fields 0 | _ => false end.

(** A computation with the iterator over the flat sequence, whose items may raise *)
Definition packer (A : Type) : Type := list (result A) -> result (nested A * list (result A)).

Fixpoint pack_all {A} (ps : list (packer A)) (it : list (result A)) : result (list (nested A) * list (result A)) :=
  match ps with
  | [] => Ok ([], it)
  | p :: ps' => let* (x, it1) := p it in let* (xs, it2) := pack_all ps' it1 in Ok (x :: xs, it2)
  end.

(** An exception in a generator expression: [StopIteration] becomes [RuntimeError]. *)
Definition in_generator {A} (r : result A) : result A :=
  match r with Raise StopIteration => Raise RuntimeError | _ => r end.

(** [type(structure)(... for x in structure)].  A class of namedtuples takes its fields as arguments: one field is set to the generator
    object, several are missing. *)
Definition construct {A} (ty : seq_type) (ps : list (packer A)) : packer A := fun it =>
  match ty with
  | TList | TTuple => let* (xs, it1) := in_generator (pack_all ps it) in Ok (Seq ty xs, it1)
  | TNamed _ 1 => Ok (Seq ty [Generator], it)
  | TNamed _ _ => Raise TypeError
  end.

Fixpoint _nested_pack {A B} (structure : nested B) : packer A :=
  match structure with
  | Seq ty l =>
      if is_namedtuple ty then fun it => let* (xs, it1) := pack_all (map _nested_pack l) it in Ok (Seq ty xs, it1)
      else construct ty (map _nested_pack l)
  | Dict d => fun it =>
      let items := sorted_items (map (fun e => (e.1, _nested_pack e.2)) d) in
      let* (xs, it1) := pack_all items.*2 it in Ok (Dict (zip items.*1 xs), it1)
  | Leaf _ | Generator => fun it => match it with [] => Raise StopIteration | r :: it1 => rmap (fun a => (Leaf a, it1)) r end
  end.

Definition nested_pack {A B} (flat : list (result A)) (structure : nested B) : result (nested A) :=
  rmap fst (_nested_pack structure flat).

(** The rows that [map] takes from several iterators, up to the length of the shortest *)
Fixpoint rows {A} (n : nat) (ls : list (list A)) : list (list A) :=
  match n with
  | O => []
  | S n' => match mapM head ls with Some row => row :: rows n' (map tail ls) | None => [] end
  end.

Definition nested_map {A B} (fn : list A -> result B) (ts : list (nested A)) : result (nested B) :=
  match ts with
  | [] => Raise ValueError
  | t :: rest =>
      if forallb (nested_compare t) rest then
        let flat := map nested_flatten ts in
        nested_pack (map fn (rows (length (nested_flatten t)) flat)) t
      else Raise ValueError
  end.

(** ** Lemmas *)

(** Every sub-tree of a sequence or a dictionary has the property. *)
Lemma nested_induction {A} (P : nested A -> Prop) :
  (forall a, P (Leaf a)) -> (forall ty l, Forall P l -> P (Seq ty l)) -> (forall d, Forall P d.*2 -> P (Dict d)) -> P Generator ->
  forall t, P t.
Proof.
  intros Hl Hs Hd Hg. fix IH 1. intros [a|ty l|d|]; [apply Hl|apply Hs|apply Hd|apply Hg].
  - induction l as [|x l IHl]; constructor; [apply IH|exact IHl].
  - induction d as [|[k x] d IHd]; constructor; [apply IH|exact IHd].
Qed.

(** Structures whose dictionaries have different keys and in which no namedtuple has fields *)
Fixpoint plain {A} (t : nested A) : Prop :=
  match t with
  | Leaf _ => True
  | Seq ty l => (match ty with TNamed _ n => n = 0%nat /\ l = [] | _ => True end) /\ foldr and True (map plain l)
  | Dict d => NoDup d.*1 /\ foldr and True (map (fun e => plain e.2) d)
  | Generator => False
  end.

(** The structure with its leaves replaced, and its dictionaries in the order of their keys *)
Fixpoint with_leaves {A B} (f : A -> B) (t : nested A) : nested B :=
  match t with
  | Leaf a => Leaf (f a)
  | Seq ty l => Seq ty (map (with_leaves f) l)
  | Dict d => Dict (sorted_items (map (fun e => (e.1, with_leaves f e.2)) d))
  | Generator => Generator
  end.

Lemma foldr_and_Forall {X} (P : X -> Prop) l : foldr and True (map P l) <-> Forall P l.
Proof. induction l as [|x l IH]; cbn; [by split|]. rewrite Forall_cons. tauto. Qed.

Lemma insert_item_map {V W} (f : V -> W) e l : insert_item (e.1, f e.2) (map (fun e => (e.1, f e.2)) l) = map (fun e => (e.1, f e.2)) (insert_item e l).
Proof. induction l as [|e' l IH]; [done|]. cbn. destruct (py_leb e.1 e'.1); [done|]. cbn. by rewrite IH. Qed.

Lemma sorted_items_map {V W} (f : V -> W) d : sorted_items (map (fun e => (e.1, f e.2)) d) = map (fun e => (e.1, f e.2)) (sorted_items d).
Proof. unfold sorted_items. induction d as [|e d IH]; [done|]. cbn. by rewrite IH, insert_item_map. Qed.

Lemma insert_item_perm {V} (e : K * V) l : insert_item e l ≡ₚ e :: l.
Proof. induction l as [|e' l IH]; [done|]. cbn. destruct (py_leb e.1 e'.1); [done|]. rewrite IH. apply Permutation_swap. Qed.

Lemma sorted_items_perm {V} (d : list (K * V)) : sorted_items d ≡ₚ d.
Proof. induction d as [|e d IH]; [done|]. cbn. rewrite insert_item_perm. by constructor. Qed.

Lemma insert_item_sorted {V} `{!PyOrdLaws K} (e : K * V) l : sorted_heap l.*1 -> sorted_heap (insert_item e l).*1.
Proof.
  unfold sorted_heap. induction l as [|e' l IH]; cbn; intros Hs; [repeat constructor|]. destruct (py_leb e.1 e'.1) eqn:E; cbn.
  - constructor; [done|]. inversion_clear Hs as [|? ? Hs' Hf]. constructor; [done|]. eapply Forall_impl; [exact Hf|]. cbn. intros x Hx. by transitivity (e'.1).
  - inversion_clear Hs as [|? ? Hs' Hf]. constructor; [by apply IH|]. rewrite insert_item_perm. cbn. constructor; [|done]. by apply ple_false.
Qed.

Lemma sorted_items_sorted {V} `{!PyOrdLaws K} (d : list (K * V)) : sorted_heap (sorted_items d).*1.
Proof. induction d as [|e d IH]; [constructor|]. cbn. by apply insert_item_sorted. Qed.

Lemma sorted_items_id {V} `{!PyOrdLaws K} (d : list (K * V)) : sorted_heap d.*1 -> sorted_items d = d.
Proof.
  induction d as [|e d IH]; intros Hs; [done|]. inversion_clear Hs as [|? ? Hs' Hf]. cbn. fold (sorted_items d). rewrite IH by done.
  destruct d as [|e' d]; [done|]. cbn in Hf |- *. inversion_clear Hf as [|? ? He _]. unfold ple in He. by rewrite He.
Qed.

Lemma pack_all_leaves {A B} (f : A -> B) (l : list (nested A)) :
  Forall (fun t => forall it, _nested_pack t (map (fun a => Ok (f a)) (nested_flatten t) ++ it) = Ok (with_leaves f t, it)) l ->
  forall it, pack_all (map _nested_pack l) (map (fun a => Ok (f a)) (mjoin (map nested_flatten l)) ++ it) = Ok (map (with_leaves f) l, it).
Proof.
  induction 1 as [|t l Ht Hl IH]; intros it; [done|]. cbn [map pack_all]. change (mjoin (?x :: ?y)) with (x ++ mjoin y).
  rewrite map_app, <- app_assoc, Ht. cbn [rbind]. by rewrite IH.
Qed.

Lemma pairs_map {V W} (f : V -> W) (d : list (K * V)) : (map (fun e => (e.1, f e.2)) d).*2 = map f d.*2 /\ (map (fun e => (e.1, f e.2)) d).*1 = d.*1.
Proof. induction d as [|e d [IH1 IH2]]; [done|]. cbn. by rewrite IH1, IH2. Qed.

Lemma zip_pairs {V W} (f : V -> W) (d : list (K * V)) : zip d.*1 (map f d.*2) = map (fun e => (e.1, f e.2)) d.
Proof. induction d as [|e d IH]; [done|]. cbn. by rewrite IH. Qed.

Lemma pack_leaves {A B} (f : A -> B) (t : nested A) : plain t ->
  forall it, _nested_pack t (map (fun a => Ok (f a)) (nested_flatten t) ++ it) = Ok (with_leaves f t, it).
Proof.
  induction t as [a|ty l IH|d IH|] using nested_induction; intros Hp it; [done| | |done]; cbn [plain] in Hp; destruct Hp as [Hty Hp].
  - apply foldr_and_Forall in Hp. assert (Hall := pack_all_leaves f l). cbn [_nested_pack nested_flatten with_leaves].
    rewrite Forall_forall in IH, Hp, Hall. specialize (Hall ltac:(auto)).
    destruct ty as [| |c n]; cbn [is_namedtuple]; [unfold construct; by rewrite Hall..|]. destruct Hty as [-> ->]. done.
  - apply (foldr_and_Forall (fun e : K * nested A => plain e.2)) in Hp. cbn [_nested_pack nested_flatten with_leaves].
    rewrite !sorted_items_map. set (sd := sorted_items d). destruct (pairs_map (_nested_pack (A := B)) sd) as [-> ->].
    replace (map snd _) with (map nested_flatten sd.*2) by (symmetry; apply pairs_map).
    rewrite pack_all_leaves; [cbn [rbind]; by rewrite zip_pairs|].
    unfold sd. rewrite sorted_items_perm. rewrite Forall_fmap in IH. apply Forall_fmap, Forall_forall. intros e He it'.
    rewrite Forall_forall in IH, Hp. by apply (IH e He), Hp.
Qed.

(** Any sequence with as many items as the structure has leaves fills it. *)
Lemma pack_all_fills {A B} `{!PyOrdLaws K} (l : list (nested B)) :
  Forall (fun t => forall (xs : list A) it, length xs = length (nested_flatten t) ->
    exists r, _nested_pack t (map Ok xs ++ it) = Ok (r, it) /\ nested_flatten r = xs /\ nested_compare t r = true) l ->
  forall (xs : list A) it, length xs = length (mjoin (map nested_flatten l)) ->
  exists rs, pack_all (map _nested_pack l) (map Ok xs ++ it) = Ok (rs, it) /\ mjoin (map nested_flatten rs) = xs /\
    Forall2 (fun t r => nested_compare t r = true) l rs.
Proof.
  induction 1 as [|t l Ht Hl IH]; intros xs it Hx.
  - exists []. destruct xs; [|done]. repeat split. constructor.
  - cbn [map] in Hx. change (mjoin (?x :: ?y)) with (x ++ mjoin y) in Hx. rewrite length_app in Hx.
    rewrite <- (take_drop (length (nested_flatten t)) xs). rewrite map_app, <- app_assoc.
    destruct (Ht (take (length (nested_flatten t)) xs) (map Ok (drop (length (nested_flatten t)) xs) ++ it)) as (r & E1 & Hf1 & Hc1); [rewrite length_take; lia|].
    destruct (IH (drop (length (nested_flatten t)) xs) it) as (rs & E2 & Hf2 & Hc2); [rewrite length_drop; lia|].
    exists (r :: rs). cbn [map pack_all]. rewrite E1. cbn [rbind]. rewrite E2. split; [done|]. split; [|by constructor].
    change (mjoin (?x :: ?y)) with (x ++ mjoin y). by rewrite Hf1, Hf2.
Qed.

Lemma compare_all {A B} (l : list (nested A)) (l' : list (nested B)) :
  Forall2 (fun t r => nested_compare t r = true) l l' -> forallb (fun p => p.1 p.2) (zip (map nested_compare l) l') = true.
Proof. induction 1 as [|t r l l' Ht Hl IH]; [done|]. cbn. by rewrite Ht. Qed.

Lemma instance_of_refl ty : instance_of ty ty = true.
Proof. destruct ty; cbn; [done..|]. apply Nat.eqb_refl. Qed.

Lemma same_keys_spec {V W} (d : list (K * V)) (d' : list (K * W)) : same_keys d d' = true <-> forall k, k ∈ d.*1 <-> k ∈ d'.*1.
Proof.
  unfold same_keys. rewrite andb_true_iff, !forallb_forall. split.
  - intros [H1 H2] k. rewrite !list_elem_of_In. split; intros Hk; [apply H1 in Hk|apply H2 in Hk]; apply bool_decide_eq_true in Hk; by apply list_elem_of_In.
  - intros Hk. split; intros k Hin; apply bool_decide_eq_true; apply Hk; by apply list_elem_of_In.
Qed.

Lemma compare_items {A B} (d : list (K * nested A)) (d' : list (K * nested B)) :
  forallb (fun e => match dget d' e.1 with Some v => e.2 v | None => false end) (map (fun e => (e.1, nested_compare e.2)) d) = true <->
  forall k t, (k, t) ∈ d -> exists u, dget d' k = Some u /\ nested_compare t u = true.
Proof.
  rewrite forallb_forall. split.
  - intros H k t Hin. specialize (H (k, nested_compare t)). cbn in H. destruct (dget d' k) as [u|]; [|discriminate H].
    + exists u. split; [done|]. apply H. apply in_map_iff. exists (k, t). split; [done|]. by apply list_elem_of_In.
    + apply in_map_iff. exists (k, t). split; [done|]. by apply list_elem_of_In.
  - intros H [k f] Hin. apply in_map_iff in Hin as ([k' t] & [= <- <-] & Hin). apply list_elem_of_In in Hin.
    destruct (H k' t Hin) as (u & Hu & Hc). cbn. by rewrite Hu.
Qed.

(** Any sequence with as many items as the structure has leaves fills it, and the result has the structure. *)
Lemma pack_fills {A B} `{!PyOrdLaws K} (t : nested B) : plain t -> forall (xs : list A) it, length xs = length (nested_flatten t) ->
  exists r, _nested_pack t (map Ok xs ++ it) = Ok (r, it) /\ nested_flatten r = xs /\ nested_compare t r = true.
Proof.
  induction t as [a|ty l IH|d IH|] using nested_induction; intros Hp xs it Hx; [| | |done].
  - destruct xs as [|x [|? ?]]; [done| |done]. by exists (Leaf x).
  - cbn [plain] in Hp. destruct Hp as [Hty Hp]. apply foldr_and_Forall in Hp. rewrite Forall_forall in IH, Hp.
    destruct (pack_all_fills (A := A) l) with (xs := xs) (it := it) as (rs & E & Hf & Hc); [apply Forall_forall; auto|done|].
    assert (Hr : _nested_pack (Seq ty l) (map Ok xs ++ it) = Ok (Seq ty rs, it)).
    { cbn [_nested_pack]. destruct ty as [| |c n]; cbn [is_namedtuple]; [unfold construct; by rewrite E..|]. destruct Hty as [-> _]. cbn [Nat.eqb]. by rewrite E. }
    exists (Seq ty rs). split; [done|]. split; [done|]. cbn [nested_compare]. rewrite instance_of_refl, (compare_all _ _ Hc).
    by rewrite (Forall2_length _ _ _ Hc), Nat.eqb_refl.
  - cbn [plain] in Hp. destruct Hp as [Hnd Hp]. apply (foldr_and_Forall (fun e : K * nested B => plain e.2)) in Hp.
    cbn [nested_flatten] in Hx. rewrite sorted_items_map in Hx. cbn [_nested_pack]. rewrite sorted_items_map.
    pose proof (sorted_items_perm d) as Hperm. pose proof (sorted_items_sorted d) as Hsort. set (sd := sorted_items d) in *.
    replace (map snd _) with (map nested_flatten sd.*2) in Hx by (symmetry; apply pairs_map).
    destruct (pack_all_fills (A := A) sd.*2) with (xs := xs) (it := it) as (rs & E & Hf & Hc); [|done|].
    { rewrite Forall_fmap in IH. apply Forall_fmap. rewrite Hperm. rewrite Forall_forall in IH, Hp |- *. intros e He. cbn. apply (IH e He), Hp, He. }
    destruct (pairs_map (_nested_pack (A := A)) sd) as [-> ->]. rewrite E. cbn [rbind]. exists (Dict (zip sd.*1 rs)). split; [done|].
    pose proof (Forall2_length _ _ _ Hc) as Hlen. assert (Hl1 : length sd.*1 = length rs) by (etransitivity; [|exact Hlen]; by rewrite !length_fmap).
    assert (Hk : (zip sd.*1 rs).*1 = sd.*1) by (apply fst_zip; lia). assert (Hv : (zip sd.*1 rs).*2 = rs) by (apply snd_zip; lia). split.
    + cbn [nested_flatten]. rewrite sorted_items_map, sorted_items_id by (by rewrite Hk).
      replace (map snd _) with (map nested_flatten (zip sd.*1 rs).*2) by (symmetry; apply pairs_map). by rewrite Hv.
    + cbn [nested_compare]. apply andb_true_iff. split.
      * apply same_keys_spec. intros k. rewrite Hk. by rewrite Hperm.
      * apply compare_items. intros k t Hin. rewrite <- Hperm in Hin. apply list_elem_of_lookup in Hin as [i Hi].
        assert (Hti : sd.*2 !! i = Some t) by (by rewrite list_lookup_fmap, Hi).
        destruct (Forall2_lookup_l _ _ _ i t Hc Hti) as (r & Hri & Hcr). exists r. split; [|done].
        apply dwf_elem_dget; [unfold dwf, dkeys; rewrite Hk, Hperm; done|]. apply list_elem_of_lookup. exists i.
        apply lookup_zip_Some. split; [|done]. by rewrite list_lookup_fmap, Hi.
Qed.

Definition leaves {A} (t : nested A) : nat := length (nested_flatten t).

Lemma length_mjoin {X} (ls : list (list X)) : length (mjoin ls) = sum_list_with length ls.
Proof. induction ls as [|l ls IH]; [done|]. change (mjoin (l :: ls)) with (l ++ mjoin ls). by rewrite length_app, IH. Qed.

Lemma sum_list_with_perm {X} (f : X -> nat) l l' : l ≡ₚ l' -> sum_list_with f l = sum_list_with f l'.
Proof. induction 1; cbn; lia. Qed.

Lemma leaves_dict {A} (d : list (K * nested A)) : leaves (Dict d) = sum_list_with (fun e => leaves e.2) d.
Proof.
  unfold leaves. cbn [nested_flatten]. rewrite length_mjoin, sorted_items_map.
  transitivity (sum_list_with (fun e : K * nested A => length (nested_flatten e.2)) (sorted_items d)).
  - induction (sorted_items d) as [|e l IH]; [done|]. cbn. by rewrite IH.
  - apply sum_list_with_perm, sorted_items_perm.
Qed.

Lemma sum_by_keys {V} (f : V -> nat) (d : list (K * V)) : NoDup d.*1 ->
  sum_list_with (fun e => f e.2) d = sum_list_with (fun k => match dget d k with Some v => f v | None => 0%nat end) d.*1.
Proof.
  intros Hd. assert (Hgen : forall l, l ⊆ d -> sum_list_with (fun e => f e.2) l = sum_list_with (fun k => match dget d k with Some v => f v | None => 0%nat end) l.*1).
  { induction l as [|[k v] l IH]; intros Hl; [done|]. cbn. rewrite IH by set_solver. rewrite (dwf_elem_dget d k v); [done|done|]. apply Hl. left. }
  by apply Hgen.
Qed.

(** Structures that match both ways have the same number of leaves. *)
Lemma matching_leaves {A B} (t : nested A) : forall u : nested B, plain t -> plain u -> nested_compare t u = true -> nested_compare u t = true -> leaves t = leaves u.
Proof.
  induction t as [a|ty l IH|d IH|] using nested_induction; intros u Hp Hu H1 H2; [by destruct u| | |done].
  - destruct u as [|ty' l'| |]; try done. cbn in H1, H2. apply andb_true_iff in H1 as [Hn1 H1], H2 as [_ H2]. apply andb_true_iff in Hn1 as [_ Hn1]. apply Nat.eqb_eq in Hn1.
    cbn in Hp, Hu. destruct Hp as [_ Hp], Hu as [_ Hu]. unfold leaves. cbn [nested_flatten]. rewrite !length_mjoin.
    revert l' Hn1 H1 H2 Hu. induction IH as [|t l Ht Hl IHl]; intros [|u l'] Hn H1 H2 Hu; try done. cbn in *.
    apply andb_true_iff in H1 as [H1 H1'], H2 as [H2 H2']. destruct Hp as [Hp Hp'], Hu as [Hu Hu']. f_equal; [by apply Ht|]. apply IHl; auto.
  - destruct u as [| |d'|]; try done. cbn in H1, H2. apply andb_true_iff in H1 as [Hk H1], H2 as [_ H2].
    rewrite same_keys_spec in Hk. rewrite compare_items in H1. rewrite compare_items in H2. cbn in Hp, Hu. destruct Hp as [Hn Hp], Hu as [Hn' Hu].
    apply (foldr_and_Forall (fun e : K * nested A => plain e.2)) in Hp. apply (foldr_and_Forall (fun e : K * nested B => plain e.2)) in Hu.
    rewrite !leaves_dict, (sum_by_keys leaves d Hn), (sum_by_keys leaves d' Hn').
    rewrite (sum_list_with_perm _ d'.*1 d.*1) by (apply NoDup_Permutation; [done|done|]; intros k; by rewrite Hk).
    assert (Hgen : forall ks, ks ⊆ d.*1 -> sum_list_with (fun k => match dget d k with Some v => leaves v | None => 0%nat end) ks =
      sum_list_with (fun k => match dget d' k with Some v => leaves v | None => 0%nat end) ks); [|by apply Hgen].
    induction ks as [|k ks IHk]; intros Hks; [done|]. cbn. rewrite IHk by set_solver. f_equal.
    assert (Hin : k ∈ d.*1) by (apply Hks; left). apply list_elem_of_fmap in Hin as ([k' t] & -> & Hin).
    destruct (H1 _ _ Hin) as (u & Hu1 & Hc1). pose proof (dget_elem_of _ _ _ Hu1) as Hin'. destruct (H2 _ _ Hin') as (t' & Ht' & Hc2).
    rewrite (dwf_elem_dget d k' t Hn Hin) in Ht'. injection Ht' as <-. cbn. rewrite (dwf_elem_dget d k' t Hn Hin), Hu1.
    rewrite Forall_fmap in IH. rewrite Forall_forall in IH, Hp. rewrite Forall_forall in Hu. apply (IH _ Hin); [apply (Hp _ Hin)|apply (Hu _ Hin')|done|done].
Qed.

Lemma rows_length {A} n (ls : list (list A)) : Forall (fun l => length l = n) ls -> length (rows n ls) = n.
Proof.
  revert ls. induction n as [|n IH]; intros ls Hl; [done|]. cbn. assert (exists row, mapM head ls = Some row) as [row ->].
  { apply mapM_is_Some_2. eapply Forall_impl; [exact Hl|]. intros [|x l] E; [done|]. by exists x. }
  cbn. f_equal. apply IH. rewrite Forall_map. eapply Forall_impl; [exact Hl|]. intros [|x l] E; cbn in *; lia.
Qed.

(** ** Theorems *)

(** Flattening and packing are inverse: the leaves of a structure fill it again, where dictionaries come out in the order of
    their keys, with the same leaves in the same order; and any sequence of the right length fills the structure with exactly these items. *)
Theorem nested_roundtrip {A B} `{!PyOrdLaws K} (t : nested A) : plain t ->
  nested_pack (map Ok (nested_flatten t)) t = Ok (with_leaves id t) /\ nested_flatten (with_leaves id t) = nested_flatten t /\
  forall xs : list B, length xs = leaves t ->
    exists r, nested_pack (map Ok xs) t = Ok r /\ nested_flatten r = xs /\ nested_compare t r = true.
Proof.
  intros Hp. assert (Ht : _nested_pack t (map Ok (nested_flatten t)) = Ok (with_leaves id t, [])).
  { rewrite <- (app_nil_r (map Ok _)). by apply (pack_leaves id). }
  split_and!; [unfold nested_pack; by rewrite Ht| |].
  - destruct (pack_fills t Hp (nested_flatten t) [] eq_refl) as (r & Hr & Hf & _). rewrite app_nil_r, Ht in Hr. by injection Hr as ->.
  - intros xs Hx. destruct (pack_fills t Hp xs [] Hx) as (r & Hr & Hf & Hc). exists r. unfold nested_pack. rewrite app_nil_r in Hr. by rewrite Hr.
Qed.

(** [nested_map] applies its function leaf by leaf: if the structures match the first one in both directions, the result
    has the structure of the first one, and its leaves are the values of the function on the rows of corresponding leaves. *)
Theorem nested_map_pointwise {A B} `{!PyOrdLaws K} (f : list A -> B) (t : nested A) (rest : list (nested A)) :
  plain t -> Forall (fun u => plain u /\ nested_compare t u = true /\ nested_compare u t = true) rest ->
  exists r, nested_map (fun row => Ok (f row)) (t :: rest) = Ok r /\ nested_compare t r = true /\
    nested_flatten r = map f (rows (leaves t) (map nested_flatten (t :: rest))) /\ leaves r = leaves t.
Proof.
  intros Hp Hr. unfold nested_map. rewrite (proj2 (forallb_forall _ _)).
  2: { intros u Hu. apply list_elem_of_In in Hu. rewrite Forall_forall in Hr. by destruct (Hr u Hu) as (_ & ? & _). }
  set (rs := rows _ _). assert (Hl : length rs = leaves t).
  { apply rows_length. constructor; [done|]. apply Forall_fmap. eapply Forall_impl; [exact Hr|]. intros u (Hu & H1 & H2). symmetry. by apply matching_leaves. }
  rewrite <- (map_map f Ok rs).
  destruct (pack_fills t Hp (map f rs) []) as (r & E & Hf & Hc); [by rewrite length_map|]. rewrite app_nil_r in E.
  exists r. unfold nested_pack. rewrite E. split_and!; [done|done|done|]. unfold leaves. rewrite Hf, length_map. exact Hl.
Qed.

(** The check of the arguments is one-sided: a leaf matches every structure, so that a leaf in the first argument is combined
    with the first leaf of whatever is at its place in the others, and the remaining leaves are dropped without an error. *)
Theorem leaf_matches_everything {A B} (fn : list A -> result B) (a b : A) (bs : list A) (u : nested A) :
  nested_flatten u = b :: bs -> nested_map fn [Leaf a; u] = rmap Leaf (fn [a; b]).
Proof. intros Hu. unfold nested_map. cbn. rewrite Hu. cbn. unfold nested_pack. cbn. by destruct (fn [a; b]). Qed.

(** Namedtuples are not restored: packing a namedtuple with several fields raises [TypeError], one with a single field holds an unused
    generator object, and in both cases no item of the sequence is taken; only one without fields comes back. *)
Theorem namedtuple_not_restored {A B} (class fields : nat) (l : list (nested B)) (flat : list (result A)) : length l = fields ->
  nested_pack flat (Seq (TNamed class fields) l) =
    match fields with O => Ok (Seq (TNamed class 0) []) | 1%nat => Ok (Seq (TNamed class 1) [Generator]) | _ => Raise TypeError end.
Proof. intros Hl. unfold nested_pack. cbn. destruct fields as [|[|n]]; [by destruct l|done|done]. Qed.
End Nested.
Arguments Leaf {K A} a.
Arguments Seq {K A} t l.
Arguments Dict {K A} d.
Arguments Generator {K A}.

(** *** Witnesses *)

Definition toy_tree : nested (K := Z) Z := Dict [(2, Seq TTuple [Leaf 20; Leaf 21]); (1, Leaf 10)].
Definition toy_tree2 : nested (K := Z) Z := Dict [(1, Leaf 11); (2, Seq TTuple [Leaf 22; Leaf 23])].

Lemma nested_roundtrip_witness : nested_pack (map Ok (nested_flatten toy_tree)) toy_tree = Ok (Dict [(1, Leaf 10); (2, Seq TTuple [Leaf 20; Leaf 21])]).
Proof.
  destruct (nested_roundtrip (B := Z) toy_tree) as [H _]; [|exact H]. cbn. split; [|tauto]. apply (bool_decide_unpack _). vm_compute. exact I.
Defined.

Lemma nested_map_pointwise_witness :
  exists r, nested_map (fun row => Ok (foldr Z.add 0 row)) [toy_tree; toy_tree2] = Ok r /\ nested_flatten r = [21; 42; 44].
Proof.
  destruct (nested_map_pointwise (foldr Z.add 0) toy_tree [toy_tree2]) as (r & H1 & _ & H2 & _).
  - cbn. split; [|tauto]. apply (bool_decide_unpack _). vm_compute. exact I.
  - constructor; [|constructor]. split; [|split; vm_compute; reflexivity]. cbn. split; [|tauto]. apply (bool_decide_unpack _). vm_compute. exact I.
  - exists r. split; [exact H1|]. rewrite H2. vm_compute. reflexivity.
Defined.

Lemma leaf_matches_everything_witness :
  nested_map (fun row => Ok (foldr Z.add 0 row)) [Leaf 1; Seq (K := Z) TList [Leaf 5; Leaf 6]] = Ok (Leaf 6).
Proof. apply (leaf_matches_everything (fun row => Ok (foldr Z.add 0 row)) 1 5 [6] (Seq TList [Leaf 5; Leaf 6])). reflexivity. Defined.

Lemma namedtuple_not_restored_witness : nested_pack (K := Z) [Ok 1; Ok 2] (Seq (TNamed 7 2) [Leaf 5; Leaf 6]) = Raise TypeError.
Proof. apply (namedtuple_not_restored (K := Z) 7 2 [Leaf 5; Leaf 6] [Ok 1; Ok 2]). reflexivity. Defined.
