(* ===== verification/Tensors.v ===== *)
(** * Tensors on the wire ([mesh/compression], [mesh/utils/streaming.py])

    A tensor is its element type, its shape and the bit patterns of its elements; [numpy] writes elements in little-endian order.
    What PyTorch and bitsandbytes compute with the numbers (conversions between element types, scaling, quantization) is the class
    [Numerics]; the formats of the compressed messages, the choice of a compression, the splitting for streams and the
    reassembly are the code's own. *)

From Stdlib Require Import ZifyBool.
From S2P Require Import Prelude DHTID.

(** ** Element types *)

Inductive dtype : Type := float16 | float32 | float64 | bfloat16 | int8 | int16 | int32 | int64 | uint8 | bool_.
#[export] Instance dtype_eq_dec : EqDecision dtype.
Proof. solve_decision. Defined.

Definition dtypes : list dtype := [float16; float32; float64; bfloat16; int8; int16; int32; int64; uint8; bool_].
Definition width (d : dtype) : nat :=
  match d with float16 | bfloat16 | int16 => 2 | float32 | int32 => 4 | float64 | int64 => 8 | int8 | uint8 | bool_ => 1 end%nat.
Definition is_floating_point (d : dtype) : bool := match d with float16 | float32 | float64 | bfloat16 => true | _ => false end.
Definition dtype_name (d : dtype) : string :=
  match d with
  | float16 => "float16" | float32 => "float32" | float64 => "float64" | bfloat16 => "bfloat16" | int8 => "int8"
  | int16 => "int16" | int32 => "int32" | int64 => "int64" | uint8 => "uint8" | bool_ => "bool"
  end%string.
(** [getattr(torch, name)], and [np.dtype(name)], which does not know [bfloat16] *)
Definition torch_dtype (name : string) : result dtype := of_option AttributeError (find (fun d => bool_decide (dtype_name d = name)) dtypes).
Definition np_dtype (name : string) : result dtype :=
  of_option TypeError (find (fun d => bool_decide (dtype_name d = name) && negb (bool_decide (d = bfloat16))) dtypes).

(** [get_num_bits] *)
Definition get_num_bits (d : dtype) : Z := 8 * Z.of_nat (width d).

(** ** Buffers *)

(** Little-endian integers *)
Fixpoint le (n : nat) (x : Z) : bytes := match n with O => [] | S n' => x mod 256 :: le n' (x / 256) end.
Fixpoint from_le (b : bytes) : Z := match b with [] => 0 | x :: b' => x + 256 * from_le b' end.
(** The integer of [np.int64] *)
Definition signed64 (x : Z) : Z := if x <? 2 ^ 63 then x else x - 2 ^ 64.

(** [array.tobytes()] *)
Definition tobytes (d : dtype) (xs : list Z) : bytes := mjoin (map (le (width d)) xs).

Fixpoint read_items (w n : nat) (b : bytes) : list Z :=
  match n with O => [] | S n' => from_le (take w b) :: read_items w n' (drop w b) end.

(** [np.frombuffer(buffer, dtype, count, offset)]; a negative count takes all items. *)
Definition frombuffer (d : dtype) (buffer : bytes) (offset count : Z) : result (list Z) :=
  let len := Z.of_nat (length buffer) in
  let w := Z.of_nat (width d) in
  if (offset <? 0) || (len <? offset) then Raise ValueError
  else if count <? 0 then
    if (len - offset) mod w =? 0 then Ok (read_items (width d) (Z.to_nat ((len - offset) / w)) (drop (Z.to_nat offset) buffer)) else Raise ValueError
  else if len - offset <? count * w then Raise ValueError
  else Ok (read_items (width d) (Z.to_nat count) (drop (Z.to_nat offset) buffer)).

(** ** Tensors *)

Record Torch : Type := mkTorch { t_dtype : dtype; shape : list Z; elems : list Z; t_grad : bool }.
Definition numel (shape : list Z) : Z := foldr Z.mul 1 shape.

(** [.reshape(shape)] and [.requires_grad_(b)] *)
Definition reshape (d : dtype) (sh : list Z) (xs : list Z) (grad : bool) : result Torch :=
  if Z.of_nat (length xs) =? numel sh then Ok (mkTorch d sh xs grad) else Raise RuntimeError.
Definition requires_grad_ (t : Torch) (b : bool) : result Torch :=
  if b && negb (is_floating_point (t_dtype t)) then Raise RuntimeError else Ok (mkTorch (t_dtype t) (shape t) (elems t) b).

(** The message [runtime_pb2.Tensor] *)
Inductive CompressionType : Type := NONE | MEANSTD_16BIT | FLOAT16 | QUANTILE_8BIT | UNIFORM_8BIT | BLOCKWISE_8BIT.
Record Tensor : Type := mkTensor {
  buffer : bytes; size : list Z; requires_grad : bool; dtype_ : string; compression : CompressionType; chunks : Z }.
Definition part (b : bytes) : Tensor := mkTensor b [] false "" NONE 0.
Definition set_buffer (t : Tensor) (b : bytes) : Tensor := mkTensor b (size t) (requires_grad t) (dtype_ t) (compression t) (chunks t).
Definition set_chunks (t : Tensor) (n : Z) : Tensor := mkTensor (buffer t) (size t) (requires_grad t) (dtype_ t) (compression t) n.

Class Numerics := {
  cast : dtype -> dtype -> Z -> Z;                       (* [.to(dtype)], [np.asarray(array, dtype)] *)
  clamp16 : Z -> Z;                                      (* [.clamp_(FP16_MIN, FP16_MAX)] on [float32] *)
  mean_std : list Z -> list Z -> list Z * list Z * list Z;  (* shape, [float32] elements: scaled elements, means, deviations *)
  rescale : dtype -> list Z -> list Z -> list Z -> list Z -> list Z;  (* [tensor.mul_(stds).add_(means)] *)
  quantize : CompressionType -> Torch -> result (list Z * list Z);  (* indices and codebook *)
  quantize_blockwise : list Z -> list Z * list Z * list Z;  (* indices, maxima, codebook *)
  dequantize_blockwise : list Z -> list Z -> list Z -> list Z;
}.

Definition is_nan16 (x : Z) : bool := (Z.land x 32640 =? 32640) && negb (Z.land x 127 =? 0).
(** Widening [bfloat16] loses nothing; scaling keeps the number of elements and has one mean and deviation per row. *)
Class NumericsLaws `{Numerics} : Prop := {
  cast_bfloat16 (x : Z) : 0 <= x < 2 ^ 16 -> is_nan16 x = false -> cast float32 bfloat16 (cast bfloat16 float32 x) = x;
  cast_range (d d' : dtype) (x : Z) : 0 <= cast d d' x < 2 ^ (8 * Z.of_nat (width d'));
  mean_std_sizes sh xs ys ms ss : mean_std sh xs = (ys, ms, ss) -> Z.of_nat (length xs) = numel sh -> Forall (Z.le 0) sh -> sh <> [] ->
    length ys = length xs /\ Z.of_nat (length ms) = numel (removelast sh) /\ Z.of_nat (length ss) = numel (removelast sh) /\
    Forall (fun x => 0 <= x < 2 ^ 16) ys /\ Forall (fun x => 0 <= x < 2 ^ 32) ms /\ Forall (fun x => 0 <= x < 2 ^ 32) ss;
}.

Section Compression.
Context `{Num : Numerics} (USE_LEGACY_BFLOAT16 : bool).

(** [NoCompression] *)
Definition compress_none (t : Torch) : Tensor :=
  let raw := if decide (t_dtype t = bfloat16)
             then if USE_LEGACY_BFLOAT16 then tobytes float32 (map (cast bfloat16 float32) (elems t)) else tobytes int16 (elems t)
             else tobytes (t_dtype t) (elems t) in
  mkTensor raw (shape t) (t_grad t) (dtype_name (t_dtype t)) NONE 0.

Definition extract_none (s : Tensor) : result Torch :=
  if bool_decide (dtype_ s = "bfloat16"%string) then
    let n := numel (size s) in
    if (0 <? n) && (Z.of_nat (length (buffer s)) / n =? 4) then
      let* xs := frombuffer float32 (buffer s) 0 (-1) in reshape bfloat16 (size s) (map (cast float32 bfloat16) xs) false
    else
      let* xs := frombuffer int16 (buffer s) 0 (-1) in reshape bfloat16 (size s) xs false
  else
    let* d := np_dtype (dtype_ s) in
    let* xs := frombuffer d (buffer s) 0 (-1) in reshape d (size s) xs false.

(** [Float16Compression] *)
Definition compress_float16 (t : Torch) : result Tensor :=
  if negb (is_floating_point (t_dtype t)) || bool_decide (t_dtype t = bfloat16) then Raise ValueError
  else Ok (mkTensor (tobytes float16 (map (fun x => cast float32 float16 (clamp16 (cast (t_dtype t) float32 x))) (elems t)))
             (shape t) (t_grad t) (dtype_name (t_dtype t)) FLOAT16 0).
Definition extract_float16 (s : Tensor) : result Torch :=
  let* d := np_dtype (dtype_ s) in
  let* xs := frombuffer float16 (buffer s) 0 (-1) in
  let* t := reshape d (size s) (map (cast float16 d) xs) false in
  requires_grad_ t (requires_grad s).

(** [ScaledFloat16Compression]: the scaled elements, then the means and the deviations of the rows.  A scalar has no last axis. *)
Definition FP32_BYTES : Z := 4.
Definition compress_meanstd (t : Torch) : result Tensor :=
  if negb (is_floating_point (t_dtype t)) || bool_decide (t_dtype t = bfloat16) then Raise ValueError
  else match shape t with
  | [] => Raise IndexError
  | _ =>
      let '(ys, means, stds) := mean_std (shape t) (map (cast (t_dtype t) float32) (elems t)) in
      Ok (mkTensor (tobytes float16 ys ++ tobytes float32 means ++ tobytes float32 stds)
            (shape t) (t_grad t) (dtype_name (t_dtype t)) MEANSTD_16BIT 0)
  end.
Definition extract_meanstd (s : Tensor) : result Torch :=
  match size s with
  | [] => Raise IndexError
  | _ =>
      let stats_count := numel (removelast (size s) ++ [1]) in
      let len := Z.of_nat (length (buffer s)) in
      let means_offset := len - 2 * stats_count * FP32_BYTES in
      let stds_offset := len - stats_count * FP32_BYTES in
      let* array := frombuffer float16 (buffer s) 0 (numel (size s)) in
      let* means := frombuffer float32 (buffer s) means_offset stats_count in
      let* stds := frombuffer float32 (buffer s) stds_offset stats_count in
      let* d := np_dtype (dtype_ s) in
      let* t := reshape d (size s) (rescale d (size s) (map (cast float16 d) array) means stds) false in
      requires_grad_ t (requires_grad s)
  end.

(** [Quantization]: the length of the codebook, the codebook, the indices *)
Definition compress_quantization (ty : CompressionType) (t : Torch) : result Tensor :=
  if negb (is_floating_point (t_dtype t)) then Raise ValueError
  else let* (quantized, codebook) := quantize ty t in
       Ok (mkTensor (le 8 (Z.of_nat (length codebook)) ++ tobytes float32 codebook ++ tobytes uint8 quantized)
             (shape t) (t_grad t) (dtype_name (t_dtype t)) ty 0).
Definition lookup_all (codebook : list Z) (quantized : list Z) : result (list Z) :=
  mapM_r (fun i => of_option IndexError (codebook !! Z.to_nat i)) quantized.
Definition extract_quantization (s : Tensor) : result Torch :=
  let* header := frombuffer int64 (buffer s) 0 1 in
  let codebook_size := signed64 (default 0 (head header)) in
  let* codebook := frombuffer float32 (buffer s) 8 codebook_size in
  let* quantized := frombuffer uint8 (buffer s) (8 + 4 * Z.of_nat (length codebook)) (-1) in
  let* _ := reshape int64 (size s) quantized false in
  let* d := torch_dtype (dtype_ s) in
  let* xs := lookup_all (map (cast float32 d) codebook) quantized in
  requires_grad_ (mkTorch d (size s) xs false) (requires_grad s).

(** [BlockwiseQuantization] *)
Definition compress_blockwise (t : Torch) : Tensor :=
  let '(quantized, absmax, codebook) := quantize_blockwise (map (cast (t_dtype t) float32) (elems t)) in
  mkTensor (le 8 (Z.of_nat (length absmax)) ++ le 8 (Z.of_nat (length codebook)) ++ tobytes float32 absmax ++ tobytes float32 codebook ++ tobytes uint8 quantized)
    (shape t) (t_grad t) (dtype_name (t_dtype t)) BLOCKWISE_8BIT 0.
Definition extract_blockwise (s : Tensor) : result Torch :=
  let* h1 := frombuffer int64 (buffer s) 0 1 in
  let* h2 := frombuffer int64 (buffer s) 8 1 in
  let* absmax := frombuffer float32 (buffer s) 16 (signed64 (default 0 (head h1))) in
  let* codebook := frombuffer float32 (buffer s) (16 + 4 * Z.of_nat (length absmax)) (signed64 (default 0 (head h2))) in
  let* quantized := frombuffer uint8 (buffer s) (16 + 4 * Z.of_nat (length absmax) + 4 * Z.of_nat (length codebook)) (-1) in
  let* q := reshape uint8 (size s) quantized false in
  let* d := torch_dtype (dtype_ s) in
  requires_grad_ (mkTorch d (size s) (map (cast float32 d) (dequantize_blockwise quantized absmax codebook)) false) (requires_grad s).

(** ** [serialization.py]: the strategy is found by the name of its type. *)
Definition serialize_torch_tensor (on_cpu : bool) (ty : CompressionType) (t : Torch) : result Tensor :=
  let* _ := py_assert on_cpu in
  match ty with
  | NONE => Ok (compress_none t)
  | FLOAT16 => compress_float16 t
  | MEANSTD_16BIT => compress_meanstd t
  | QUANTILE_8BIT | UNIFORM_8BIT => compress_quantization ty t
  | BLOCKWISE_8BIT => Ok (compress_blockwise t)
  end.
Definition extract (s : Tensor) : result Torch :=
  match compression s with
  | NONE => extract_none s
  | FLOAT16 => extract_float16 s
  | MEANSTD_16BIT => extract_meanstd s
  | QUANTILE_8BIT | UNIFORM_8BIT => extract_quantization s
  | BLOCKWISE_8BIT => extract_blockwise s
  end.
Definition deserialize_torch_tensor (s : Tensor) : result Torch :=
  let* t := extract s in requires_grad_ t (requires_grad s).
End Compression.

(** ** Streams *)

Definition STREAMING_CHUNK_SIZE_BYTES : Z := 2 ^ 16.

(** The slices from one chunk to the next; every one is shorter than what is left. *)
Fixpoint slices (fuel : nat) (c : nat) (b : bytes) : list bytes :=
  match fuel, b with
  | S n, _ :: _ => take c b :: slices n c (drop c b)
  | _, _ => []
  end.

(** [split_for_streaming].  A step of 0 is an error of [range]; with a negative one the ranges are empty, and the slice ends before the end. *)
Definition split_for_streaming (t : Tensor) (chunk_size_bytes : Z) : result (list Tensor) :=
  let len := Z.of_nat (length (buffer t)) in
  if chunk_size_bytes =? 0 then Raise ValueError
  else if chunk_size_bytes <? 0 then Ok [set_chunks (set_buffer t (take (Z.to_nat (len + chunk_size_bytes)) (buffer t))) 0]
  else let c := Z.to_nat chunk_size_bytes in
       Ok (set_chunks (set_buffer t (take c (buffer t))) ((len + chunk_size_bytes - 1) / chunk_size_bytes) ::
           map part (slices (length (buffer t)) c (drop c (buffer t)))).

Definition combine_from_streaming (stream : list Tensor) : result Tensor :=
  match stream with
  | [] => Raise StopIteration
  | first_chunk :: rest => Ok (set_buffer first_chunk (mjoin (buffer first_chunk :: map buffer rest)))
  end.

Section TensorStream.
Context `{Num : Numerics}.

Definition flush (tensors : list Torch) (tensor_parts : list Tensor) : result (list Torch) :=
  let* s := combine_from_streaming tensor_parts in
  let* t := deserialize_torch_tensor s in
  Ok (tensors ++ [t]).

Fixpoint stream_loop (parts : list Tensor) (tensors : list Torch) (tensor_parts : list Tensor) : result (list Torch) :=
  match parts with
  | [] => match tensor_parts with [] => Ok tensors | _ => flush tensors tensor_parts end
  | p :: rest =>
      match dtype_ p, tensor_parts with
      | EmptyString, _ | _, [] => stream_loop rest tensors (tensor_parts ++ [p])
      | _, _ => let* tensors := flush tensors tensor_parts in stream_loop rest tensors [p]
      end
  end.

(** [deserialize_tensor_stream]: the two loops, over messages and over their parts *)
Definition deserialize_tensor_stream (stream : list (list Tensor)) : result (list Torch) := stream_loop (mjoin stream) [] [].

(** ** Past key values *)
Definition serialize_past_key_values (legacy : bool) (past_key_values : list (list Torch)) : list Tensor :=
  map (compress_none legacy) (mjoin past_key_values).
Definition deserialize_past_key_values (tensors : list Tensor) (num_layers : Z) : result (list (Torch * Torch)) :=
  let* flat := mapM_r deserialize_torch_tensor tensors in
  mapM_r (fun i : nat => let* k := of_option IndexError (flat !! (2 * i)%nat) in let* v := of_option IndexError (flat !! S (2 * i)) in Ok (k, v))
    (seq 0 (Z.to_nat num_layers)).
End TensorStream.

(** ** Lemmas on buffers *)

Lemma length_le n x : length (le n x) = n.
Proof. revert x. induction n as [|n IH]; intros x; [done|]. cbn. by rewrite IH. Qed.

Lemma from_le_le n x : 0 <= x < 2 ^ (8 * Z.of_nat n) -> from_le (le n x) = x.
Proof.
  revert x. induction n as [|n IH]; intros x Hx; [cbn in *; lia|]. cbn [le from_le].
  replace (2 ^ (8 * Z.of_nat (S n))) with (256 * 2 ^ (8 * Z.of_nat n)) in Hx.
  2: { rewrite Nat2Z.inj_succ. replace (8 * Z.succ (Z.of_nat n)) with (8 + 8 * Z.of_nat n) by lia. rewrite Z.pow_add_r by lia. done. }
  rewrite IH; [pose proof (Z.div_mod x 256); lia|]. split; [apply Z.div_pos; lia|apply Z.div_lt_upper_bound; lia].
Qed.

Definition in_width (d : dtype) (x : Z) : Prop := 0 <= x < 2 ^ (8 * Z.of_nat (width d)).

Lemma tobytes_cons d x xs : tobytes d (x :: xs) = le (width d) x ++ tobytes d xs.
Proof. done. Qed.

Lemma length_tobytes d xs : length (tobytes d xs) = (width d * length xs)%nat.
Proof. induction xs as [|x xs IH]; [unfold tobytes; cbn; lia|]. rewrite tobytes_cons, length_app, length_le, IH. cbn. lia. Qed.

Lemma read_items_tobytes d xs rest : Forall (in_width d) xs -> read_items (width d) (length xs) (tobytes d xs ++ rest) = xs.
Proof.
  induction 1 as [|x xs Hx Hxs IH]; [done|]. rewrite tobytes_cons, <- app_assoc. cbn [length read_items].
  rewrite take_app_length', drop_app_length' by (by rewrite length_le). by rewrite from_le_le, IH.
Qed.

Lemma dtype_width_pos d : (0 < width d)%nat.
Proof. destruct d; cbn; lia. Qed.

(** A section of a buffer is read back. *)
Lemma frombuffer_section d (pre post : bytes) xs : Forall (in_width d) xs ->
  frombuffer d (pre ++ tobytes d xs ++ post) (Z.of_nat (length pre)) (Z.of_nat (length xs)) = Ok xs.
Proof.
  intros Hx. unfold frombuffer. cbv zeta. rewrite !length_app, length_tobytes. replace (_ || _) with false by (symmetry; apply orb_false_iff; split; apply Z.ltb_ge; rewrite ?Nat2Z.inj_add; [lia|nia]).
  replace (Z.of_nat (length xs) <? 0) with false by lia. replace (_ <? _) with false by nia.
  rewrite !Nat2Z.id, drop_app_length. by rewrite read_items_tobytes.
Qed.

(** The rest of a buffer is read back. *)
Lemma frombuffer_rest d (pre : bytes) xs : Forall (in_width d) xs -> frombuffer d (pre ++ tobytes d xs) (Z.of_nat (length pre)) (-1) = Ok xs.
Proof.
  intros Hx. unfold frombuffer. cbv zeta. rewrite !length_app, length_tobytes. replace (_ || _) with false by (symmetry; apply orb_false_iff; split; apply Z.ltb_ge; rewrite ?Nat2Z.inj_add; [lia|nia]). cbn [Z.ltb Z.compare].
  pose proof (dtype_width_pos d) as Hw. replace (Z.of_nat (length pre + width d * length xs) - Z.of_nat (length pre)) with (Z.of_nat (length xs) * Z.of_nat (width d)) by nia.
  rewrite Z.mod_mul, Z.div_mul by lia. cbn [Z.eqb]. rewrite !Nat2Z.id, drop_app_length. rewrite <- (app_nil_r (tobytes d xs)). by rewrite read_items_tobytes.
Qed.

Lemma frombuffer_all d xs : Forall (in_width d) xs -> frombuffer d (tobytes d xs) 0 (-1) = Ok xs.
Proof. intros Hx. apply (frombuffer_rest d [] xs Hx). Qed.

Lemma frombuffer_first d xs post : Forall (in_width d) xs -> frombuffer d (tobytes d xs ++ post) 0 (Z.of_nat (length xs)) = Ok xs.
Proof. intros Hx. apply (frombuffer_section d [] post xs Hx). Qed.

Lemma torch_dtype_name d : torch_dtype (dtype_name d) = Ok d.
Proof. by destruct d. Qed.

Lemma np_dtype_name d : d <> bfloat16 -> np_dtype (dtype_name d) = Ok d.
Proof. by destruct d. Qed.

(** A tensor as PyTorch has them *)
Definition proper (t : Torch) : Prop :=
  Forall (Z.le 0) (shape t) /\ Z.of_nat (length (elems t)) = numel (shape t) /\ Forall (in_width (t_dtype t)) (elems t) /\ (t_grad t = true -> is_floating_point (t_dtype t) = true) /\
  (t_dtype t = bfloat16 -> Forall (fun x => is_nan16 x = false) (elems t)).

Lemma requires_grad_id t : (t_grad t = true -> is_floating_point (t_dtype t) = true) -> requires_grad_ (mkTorch (t_dtype t) (shape t) (elems t) false) (t_grad t) = Ok t.
Proof. intros Hg. unfold requires_grad_. cbn. destruct t as [d s e []]; cbn in *; [by rewrite Hg|done]. Qed.

Section RoundTrip.
Context `{NL : NumericsLaws}.

Lemma extract_compress_none legacy t : proper t -> extract_none (compress_none legacy t) = Ok (mkTorch (t_dtype t) (shape t) (elems t) false).
Proof.
  intros (_ & Hn & Hw & Hg & Hb). unfold extract_none, compress_none. cbn [dtype_ buffer size]. destruct (decide (t_dtype t = bfloat16)) as [E|E].
  - rewrite E. cbn [dtype_name]. rewrite bool_decide_true by done. specialize (Hb E). rewrite E in Hw.
    assert (Hr : reshape bfloat16 (shape t) (elems t) false = Ok (mkTorch bfloat16 (shape t) (elems t) false)) by (unfold reshape; by rewrite Hn, Z.eqb_refl).
    destruct legacy.
    + rewrite length_tobytes, length_map. assert (Hf : Forall (in_width float32) (map (cast bfloat16 float32) (elems t))).
      { apply Forall_fmap, Forall_forall. intros x _. apply cast_range. }
      destruct ((0 <? numel (shape t)) && _) eqn:Ec.
      * rewrite frombuffer_all by done. cbn [rbind]. rewrite map_map. replace (map _ (elems t)) with (elems t); [done|].
        rewrite <- (map_id (elems t)) at 1. apply map_ext_Forall. rewrite Forall_forall in Hb, Hw |- *. intros x Hx. symmetry. apply cast_bfloat16; [by apply Hw|by apply Hb].
      * cbn [width] in Ec. destruct (Z.ltb_spec 0 (numel (shape t))) as [Hpos|Hpos].
        -- rewrite <- Hn in Ec. replace (Z.of_nat (4 * length (elems t))) with (4 * Z.of_nat (length (elems t))) in Ec by lia. rewrite Z.div_mul in Ec by lia. done.
        -- destruct (elems t); [by rewrite <- Hr|cbn in Hn; lia].
    + rewrite length_tobytes. destruct ((0 <? numel (shape t)) && _) eqn:Ec.
      * apply andb_true_iff in Ec as [Hpos Ec]. rewrite <- Hn in Ec, Hpos. cbn [width] in Ec.
        replace (Z.of_nat (2 * length (elems t))) with (2 * Z.of_nat (length (elems t))) in Ec by lia. rewrite Z.div_mul in Ec by lia. done.
      * by rewrite frombuffer_all.
  - rewrite bool_decide_false by (by destruct (t_dtype t)). rewrite np_dtype_name by done. cbn [rbind]. rewrite frombuffer_all by done. cbn [rbind].
    unfold reshape. by rewrite Hn, Z.eqb_refl.
Qed.

Lemma deserialize_compress_none legacy t n : proper t -> deserialize_torch_tensor (set_chunks (compress_none legacy t) n) = Ok t.
Proof.
  intros Hp. pose proof (extract_compress_none legacy t Hp) as He. unfold deserialize_torch_tensor, extract. change (compression _) with NONE. cbn beta iota.
  change (extract_none (set_chunks ?x n)) with (extract_none x). rewrite He. cbn [rbind requires_grad]. apply requires_grad_id, Hp.
Qed.

Lemma slices_join fuel c (b : bytes) : (0 < c)%nat -> (length b <= fuel)%nat -> mjoin (slices fuel c b) = b.
Proof.
  intros Hc. revert b. induction fuel as [|n IH]; intros b Hb; (destruct b as [|x b]; [done|]); [cbn in Hb; lia|]. cbn [slices].
  change (mjoin (?x :: ?y)) with (x ++ mjoin y). rewrite IH; [by rewrite take_drop|]. rewrite length_drop. cbn in *. lia.
Qed.

Lemma combine_split (t : Tensor) (c : Z) (ps : list Tensor) : 0 < c -> split_for_streaming t c = Ok ps ->
  combine_from_streaming ps = Ok (set_chunks t ((Z.of_nat (length (buffer t)) + c - 1) / c)) /\
  exists p bs, ps = p :: map part bs /\ dtype_ p = dtype_ t.
Proof.
  intros Hc. unfold split_for_streaming. replace (c =? 0) with false by lia. replace (c <? 0) with false by lia. intros [= <-]. split; [|by eexists _, _].
  cbn [combine_from_streaming]. f_equal. rewrite map_map. cbn [buffer part set_chunks set_buffer]. rewrite map_id.
  change (mjoin (?x :: ?y)) with (x ++ mjoin y). rewrite slices_join; [by rewrite take_drop|lia|rewrite length_drop; lia].
Qed.

Lemma stream_loop_parts bs more tensors tp : stream_loop (map part bs ++ more) tensors tp = stream_loop more tensors (tp ++ map part bs).
Proof. revert tp. induction bs as [|b bs IH]; intros tp; cbn; [by rewrite app_nil_r|]. rewrite IH. by rewrite <- app_assoc. Qed.

(** What a stream of tensors is: the parts of each, with chunks of any positive size, in the order of the tensors. *)
Inductive parts_of (legacy : bool) : list Torch -> list Tensor -> Prop :=
  | parts_nil : parts_of legacy [] []
  | parts_cons t ts c ps more : proper t -> 0 < c -> split_for_streaming (compress_none legacy t) c = Ok ps -> parts_of legacy ts more ->
      parts_of legacy (t :: ts) (ps ++ more).

Lemma stream_loop_tensors legacy ts parts : parts_of legacy ts parts -> forall acc t tp, tp <> [] ->
  flush acc tp = Ok (acc ++ [t]) -> stream_loop parts acc tp = Ok (acc ++ t :: ts).
Proof.
  induction 1 as [|t' ts c ps more Hp Hc Hs Hm IH]; intros acc t tp Htp Hf; cbn [stream_loop]; [by destruct tp|].
  destruct (combine_split _ _ _ Hc Hs) as (Hcomb & p & bs & -> & Hd). cbn [app stream_loop].
  assert (Hd' : exists a s, dtype_ p = String a s) by (rewrite Hd; cbn; destruct (t_dtype t'); cbn; eauto). destruct Hd' as (a & s & Hd').
  rewrite Hd'. destruct tp as [|p0 tp]; [done|]. rewrite Hf. cbn [rbind]. rewrite stream_loop_parts. rewrite (IH (acc ++ [t]) t'); [by rewrite <- app_assoc|done|].
  unfold flush. cbn [app]. rewrite Hcomb. cbn [rbind]. by rewrite deserialize_compress_none.
Qed.

(** ** Theorems *)

(** C37: Uncompressed tensors without [bfloat16] NaNs survive a stream.  However each tensor is cut into chunks, and however the chunks are grouped into messages, the receiver
    reassembles exactly the tensors that were sent, in order: element type, shape, every element and the gradient flag; [bfloat16]
    also, in both formats that are in use. *)
Theorem tensor_stream_roundtrip (legacy : bool) (ts : list Torch) (stream : list (list Tensor)) :
  parts_of legacy ts (mjoin stream) -> deserialize_tensor_stream stream = Ok ts.
Proof.
  unfold deserialize_tensor_stream. intros Hps0. inversion Hps0 as [Ht Hp|t ts' c ps more Hp Hc Hs Hm Ht Hps]; [done|]. subst.
  destruct (combine_split _ _ _ Hc Hs) as (Hcomb & p & bs & -> & Hd). cbn [app stream_loop].
  assert (E : stream_loop (map part bs ++ more) [] [p] = Ok ([] ++ t :: ts')).
  { rewrite stream_loop_parts. apply (stream_loop_tensors legacy _ _ Hm); [done|]. unfold flush. cbn [app]. rewrite Hcomb. cbn [rbind]. by rewrite deserialize_compress_none. }
  cbn [app] in E |- *. destruct (dtype_ p); exact E.
Qed.

Lemma numel_removelast (sh : list Z) : numel (removelast sh ++ [1]) = numel (removelast sh).
Proof. unfold numel. induction (removelast sh) as [|x l IH]; [done|]. cbn. by rewrite IH. Qed.

(** The formats of the lossy compressions lose nothing but what the numerics lose.  What [extract] computes with is exactly what
    [compress] put in: for [MEANSTD_16BIT] the scaled elements and the means and deviations of the rows, which the reader finds from the end of the
    buffer; for the quantizations the codebook and the indices. *)
Theorem compressed_formats_roundtrip (t : Torch) : proper t -> is_floating_point (t_dtype t) = true -> shape t <> [] ->
  (t_dtype t <> bfloat16 -> forall ys means stds, mean_std (shape t) (map (cast (t_dtype t) float32) (elems t)) = (ys, means, stds) ->
     let zs := rescale (t_dtype t) (shape t) (map (cast float16 (t_dtype t)) ys) means stds in
     length zs = length (elems t) ->
     exists s, compress_meanstd t = Ok s /\ extract_meanstd s = Ok (mkTorch (t_dtype t) (shape t) zs (t_grad t))) /\
  (forall ty quantized codebook, quantize ty t = Ok (quantized, codebook) -> length quantized = length (elems t) ->
     Forall (in_width float32) codebook -> Forall (fun i => 0 <= i < 256 /\ i < Z.of_nat (length codebook)) quantized -> Z.of_nat (length codebook) < 2 ^ 63 ->
     exists s zs, compress_quantization ty t = Ok s /\ extract_quantization s = Ok (mkTorch (t_dtype t) (shape t) zs (t_grad t)) /\
       Forall2 (fun i z => exists c, codebook !! Z.to_nat i = Some c /\ z = cast float32 (t_dtype t) c) quantized zs).
Proof.
  intros (Hpos & Hn & Hw & Hg & _) Hf Hsh. split.
  - intros Hb ys means stds Hms zs Hz. subst zs. unfold compress_meanstd. rewrite Hf. rewrite bool_decide_false by done. cbn [negb orb].
    destruct (shape t) as [|n sh] eqn:Es; [done|]. rewrite <- Es in *. rewrite Hms. eexists. split; [reflexivity|].
    destruct (mean_std_sizes _ _ _ _ _ Hms) as (L1 & L2 & L3 & R1 & R2 & R3); [by rewrite length_map|done|done|]. rewrite length_map in L1.
    unfold extract_meanstd. cbn [size buffer dtype_ requires_grad]. rewrite Es. rewrite <- Es. cbv zeta. rewrite numel_removelast, <- Hn, <- L1.
    rewrite frombuffer_first by done. cbn [rbind]. rewrite !length_app, !length_tobytes. cbn [width]. unfold FP32_BYTES.
    replace (Z.of_nat (2 * length ys + (4 * length means + 4 * length stds)) - 2 * numel (removelast (shape t)) * 4) with (Z.of_nat (length (tobytes float16 ys)))
      by (rewrite length_tobytes; cbn [width]; lia).
    rewrite <- L2. rewrite frombuffer_section by done. cbn [rbind].
    replace (Z.of_nat (2 * length ys + (4 * length means + 4 * length stds)) - Z.of_nat (length means) * 4) with (Z.of_nat (length (tobytes float16 ys ++ tobytes float32 means)))
      by (rewrite length_app, !length_tobytes; cbn [width]; lia).
    rewrite app_assoc, L2, <- L3. rewrite <- (app_nil_r (tobytes float32 stds)) at 1. rewrite frombuffer_section by done. cbn [rbind].
    rewrite np_dtype_name by done. cbn [rbind]. unfold reshape. rewrite Hz, Hn, Z.eqb_refl. cbn [rbind]. unfold requires_grad_. cbn. by rewrite Hf, andb_false_r.
  - intros ty quantized codebook Hq Hl Hc Hi Hlen. unfold compress_quantization. rewrite Hf, Hq. cbn [negb rbind].
    assert (Hu : Forall (in_width uint8) quantized) by (eapply Forall_impl; [exact Hi|]; intros i [Hi1 _]; exact Hi1).
    assert (Hlk : exists zs, lookup_all (map (cast float32 (t_dtype t)) codebook) quantized = Ok zs /\
      Forall2 (fun i z => exists c, codebook !! Z.to_nat i = Some c /\ z = cast float32 (t_dtype t) c) quantized zs).
    { unfold lookup_all. clear Hl Hu Hq. induction Hi as [|i q [Hi1 Hi2] Hi IH]; [exists []; split; [done|constructor]|]. destruct IH as (zs & E & H2).
      destruct (lookup_lt_is_Some_2 codebook (Z.to_nat i)) as [c Hci]; [lia|]. exists (cast float32 (t_dtype t) c :: zs). cbn [mapM_r].
      change (map ?f codebook) with (f <$> codebook) in E |- *. rewrite list_lookup_fmap, Hci. cbn [fmap option_fmap option_map of_option rbind]. rewrite E. split; [done|]. constructor; eauto. }
    destruct Hlk as (zs & E & H2). eexists _, zs. split; [reflexivity|]. split; [|exact H2]. unfold extract_quantization. cbn [buffer size dtype_ requires_grad].
    replace (le 8 (Z.of_nat (length codebook))) with (tobytes int64 [Z.of_nat (length codebook)]) by (change (tobytes int64 [?z]) with (le 8 z ++ []); by rewrite app_nil_r).
    rewrite (frombuffer_first int64 [_]) by (repeat constructor; [lia|]; eapply Z.lt_trans; [exact Hlen|]; reflexivity). cbn [rbind head length]. change (default 0 (Some ?x)) with x. unfold signed64. rewrite (proj2 (Z.ltb_lt _ _) Hlen).
    change (frombuffer float32 ?b 8 ?c) with (frombuffer float32 b (Z.of_nat (length (tobytes int64 [Z.of_nat (length codebook)]))) c).
    rewrite frombuffer_section by done. cbn [rbind].
    replace (8 + 4 * Z.of_nat (length codebook)) with (Z.of_nat (length (tobytes int64 [Z.of_nat (length codebook)] ++ tobytes float32 codebook))) by (rewrite length_app, !length_tobytes; cbn [width length]; lia).
    rewrite app_assoc, frombuffer_rest by done. cbn [rbind]. unfold reshape. rewrite Hl, Hn, Z.eqb_refl. cbn [rbind]. rewrite torch_dtype_name. cbn [rbind]. rewrite E. cbn [rbind].
    unfold requires_grad_. cbn. by rewrite Hf, andb_false_r.
Qed.

(** Past key values come back layer by layer when every layer is a pair; with a layer too few, an [IndexError] is raised. *)
Theorem past_key_values_roundtrip (legacy : bool) (layers : list (Torch * Torch)) (n : Z) :
  Forall (fun l => proper l.1 /\ proper l.2) layers ->
  deserialize_past_key_values (serialize_past_key_values legacy (map (fun l => [l.1; l.2]) layers)) n =
    if n <=? Z.of_nat (length layers) then Ok (take (Z.to_nat n) layers) else Raise IndexError.
Proof.
  intros Hl. unfold deserialize_past_key_values, serialize_past_key_values. set (flat := mjoin (map (fun l : Torch * Torch => [l.1; l.2]) layers)).
  assert (Hflat : mapM_r deserialize_torch_tensor (map (compress_none legacy) flat) = Ok flat).
  { assert (Hp : Forall proper flat) by (unfold flat; induction Hl as [|l ls [H1 H2] Hl IH]; [constructor|]; repeat (constructor; [done|]); exact IH).
    clear Hl. induction Hp as [|t ts Ht Hts IH]; [done|]. cbn [map mapM_r]. change (compress_none legacy t) with (set_chunks (compress_none legacy t) 0).
    rewrite deserialize_compress_none by done. cbn [rbind]. by rewrite IH. }
  rewrite Hflat. cbn [rbind]. clear Hflat Hl.
  assert (Hat : forall i l, layers !! i = Some l -> flat !! (2 * i)%nat = Some l.1 /\ flat !! S (2 * i) = Some l.2).
  { unfold flat. clear flat. induction layers as [|l0 ls IH]; intros i l Hi; [done|]. destruct i as [|i]; [by injection Hi as ->|].
    replace (2 * S i)%nat with (S (S (2 * i))) by lia. apply IH, Hi. }
  assert (Hlf : length flat = (2 * length layers)%nat) 
    by (unfold flat; clear; induction layers as [|l ls IH]; [done|]; cbn [map length]; change (mjoin (?x :: ?y)) with (x ++ mjoin y); rewrite length_app, IH; cbn; lia).
  set (f := fun i : nat => _). assert (Hgen : forall k i, mapM_r f (seq i k) = if (i + k <=? length layers)%nat || (k =? 0)%nat then Ok (take k (drop i layers)) else Raise IndexError).
  { induction k as [|k IH]; intros i; [rewrite orb_true_r; by rewrite take_0|]. cbn [seq mapM_r]. unfold f at 1. destruct (layers !! i) as [l|] eqn:Ei.
    - destruct (Hat i l Ei) as [-> ->]. cbn [of_option rbind]. rewrite IH. pose proof (lookup_lt_Some _ _ _ Ei) as Hlt. rewrite (drop_S _ _ _ Ei). cbn [firstn].
      replace ((S i + k <=? length layers)%nat || (k =? 0)%nat) with ((i + S k <=? length layers)%nat || (S k =? 0)%nat) by lia.
      destruct (_ || _); [|done]. cbn [rbind]. by rewrite <- surjective_pairing.
    - apply lookup_ge_None in Ei. rewrite (proj2 (lookup_ge_None flat (2 * i))) by lia. cbn [of_option rbind]. replace (_ || _) with false by lia. done. }
  rewrite Hgen. cbn [Nat.add drop]. destruct (n <=? Z.of_nat (length layers)) eqn:En.
  - replace (_ || _) with true by lia. done.
  - replace (_ || _) with false by lia. done.
Qed.
End RoundTrip.

(** *** Witnesses *)

(** A toy arithmetic: [bfloat16] is the upper half of [float32]; other conversions truncate. *)
#[export] Instance toy_numerics : Numerics := {|
  cast d d' x := match d, d' with
                 | bfloat16, float32 => (x * 2 ^ 16) mod 2 ^ 32
                 | float32, bfloat16 => (x / 2 ^ 16) mod 2 ^ 16
                 | _, _ => x mod 2 ^ (8 * Z.of_nat (width d'))
                 end;
  clamp16 x := x;
  mean_std sh xs := (map (fun x => x mod 2 ^ 16) xs, replicate (Z.to_nat (numel (removelast sh))) 0, replicate (Z.to_nat (numel (removelast sh))) 1);
  rescale _ _ xs _ _ := xs;
  quantize _ t := Ok (map (fun _ => 0) (elems t), [7; 8]);
  quantize_blockwise xs := (map (fun _ => 0) xs, [1], [5]);
  dequantize_blockwise qs _ _ := qs |}.

Lemma numel_nonneg sh : Forall (Z.le 0) sh -> 0 <= numel sh.
Proof. unfold numel. induction 1; cbn; lia. Qed.

#[export] Instance toy_numerics_laws : NumericsLaws.
Proof.
  split.
  - intros x Hx _. cbn. rewrite (Z.mod_small (x * _)) by lia. rewrite Z.div_mul by lia. apply Z.mod_small. lia.
  - intros d d' x. assert (0 < 2 ^ (8 * Z.of_nat (width d'))) by (apply Z.pow_pos_nonneg; lia).
    destruct d, d'; cbn -[Z.pow Z.modulo]; apply Z.mod_pos_bound; done.
  - intros sh xs ys ms ss [= <- <- <-] Hn Hp Hne.
    assert (Hr : 0 <= numel (removelast sh)).
    { apply numel_nonneg. rewrite (app_removelast_last 0 Hne) in Hp. by apply Forall_app in Hp as [Hp _]. }
    rewrite length_map, !length_replicate. split_and!; try lia; [|apply Forall_replicate; lia|apply Forall_replicate; lia].
    apply Forall_fmap, Forall_forall. intros x _. apply Z.mod_pos_bound. lia.
Qed.

Definition toy_half : Torch := mkTorch bfloat16 [2; 1] [16256; 49] true.
Definition toy_ints : Torch := mkTorch int16 [3] [1; 2; 300] false.
Lemma toy_proper : proper toy_half /\ proper toy_ints.
Proof. split; (split; [repeat constructor; lia|]); (split; [reflexivity|]); (split; [repeat constructor; cbn; lia|]); (split; [done|]); [repeat constructor|done]. Qed.

Definition toy_parts (t : Torch) (c : Z) : list Tensor := match split_for_streaming (compress_none true t) c with Ok ps => ps | Raise _ => [] end.
Lemma tensor_stream_roundtrip_witness :
  deserialize_tensor_stream [take 1 (toy_parts toy_half 3); drop 1 (toy_parts toy_half 3) ++ toy_parts toy_ints 4] = Ok [toy_half; toy_ints].
Proof.
  apply (tensor_stream_roundtrip true). replace (mjoin _) with (toy_parts toy_half 3 ++ toy_parts toy_ints 4 ++ []) by reflexivity.
  apply (parts_cons true _ _ 3); [apply toy_proper|lia|reflexivity|]. apply (parts_cons true _ _ 4); [apply toy_proper|lia|reflexivity|]. constructor.
Defined.

Definition toy_floats : Torch := mkTorch float32 [2; 2] [1; 2; 3; 4] true.
Lemma compressed_formats_roundtrip_witness :
  exists s, compress_meanstd toy_floats = Ok s /\ extract_meanstd s = Ok (mkTorch float32 [2; 2] [1; 2; 3; 4] true).
Proof.
  destruct (compressed_formats_roundtrip toy_floats) as [H _].
  - split; [repeat constructor; lia|]. split; [reflexivity|]. split; [repeat constructor; cbn; lia|]. split; [done|discriminate].
  - reflexivity.
  - discriminate.
  - apply (H ltac:(discriminate) [1; 2; 3; 4] [0; 0] [1; 1]); reflexivity.
Defined.

Lemma past_key_values_roundtrip_witness :
  deserialize_past_key_values (serialize_past_key_values true (map (fun l => [l.1; l.2]) [(toy_half, toy_ints)])) 1 = Ok [(toy_half, toy_ints)].
Proof. apply (past_key_values_roundtrip true [(toy_half, toy_ints)] 1). constructor; [exact toy_proper|constructor]. Defined.
