(* ===== verification/Serializer.v ===== *)
(** * Serialization of values ([mesh/utils/serializer.py], [mesh/utils/serializer_v2.py])

    [MSGPackSerializer] extends msgpack by tuples and by registered classes, both as extension types.  The msgpack format is a
    parameter: messages to bytes and back.  The classes that register themselves are a parameter as well, with their
    [packb] and [unpackb]. *)

From S2P Require Import Prelude DHTID.

(** Keys of dictionaries *)
Inductive dkey : Type := KStr (s : list Z) | KBytes (b : bytes) | KInt (n : Z).
#[export] Instance dkey_eq_dec : EqDecision dkey.
Proof. solve_decision. Defined.

(** What msgpack can write *)
#[warnings="-register-all"] Inductive msg : Type :=
  | MNil | MBool (b : bool) | MInt (n : Z) | MFloat (bits : Z) | MStr (s : list Z) | MBin (b : bytes)
  | MArray (l : list msg) | MMap (d : list (dkey * msg)) | MExt (code : Z) (data : bytes).

Section Serializer.
Context {Obj : Type}.

(** Python values; [PObj] is an object of any other class. *)
#[warnings="-register-all"] Inductive pyval : Type :=
  | PNone | PBool (b : bool) | PInt (n : Z) | PFloat (bits : Z) | PStr (s : list Z) | PBytes (b : bytes)
  | PList (l : list pyval) | PTuple (l : list pyval) | PDict (d : list (dkey * pyval)) | PObj (o : Obj).

(** The package msgpack, and the classes that can be registered: the class of an object, [packb] and [unpackb]. *)
Class MsgPack := {
  pack_msg : msg -> result bytes;
  unpack_msg : bytes -> result msg;
  type_of : Obj -> nat;
  obj_packb : Obj -> result bytes;
  unpackb : nat -> bytes -> result Obj;
}.
End Serializer.
Arguments pyval : clear implicits.
Arguments MsgPack : clear implicits.
Arguments PNone {Obj}.
Arguments PBool {Obj} b.
Arguments PInt {Obj} n.
Arguments PFloat {Obj} bits.
Arguments PStr {Obj} s.
Arguments PBytes {Obj} b.
Arguments PList {Obj} l.
Arguments PTuple {Obj} l.
Arguments PDict {Obj} d.
Arguments PObj {Obj} o.

(** [_ext_types] and [_ext_type_codes] *)
Record Registry : Type := mkRegistry { ext_types : pydict nat Z; ext_type_codes : pydict Z nat }.
Definition empty_registry : Registry := mkRegistry [] [].
Definition TUPLE_EXT_TYPE_CODE : Z := 64.

(** [ext_serializable(type_code)] applied to a class: an existing entry of the code is overwritten. *)
Definition ext_serializable (r : Registry) (type_code : Z) (wrapped_type : nat) : Registry :=
  mkRegistry (dset (ext_types r) wrapped_type type_code) (dset (ext_type_codes r) type_code wrapped_type).

(** [msgpack.ExtType(code, data)] *)
Definition ExtType (code : Z) (data : bytes) : result msg := if (0 <=? code) && (code <=? 127) then Ok (MExt code data) else Raise ValueError.

Fixpoint sequence {A} (l : list (result A)) : result (list A) :=
  match l with [] => Ok [] | r :: l' => let* x := r in let* xs := sequence l' in Ok (x :: xs) end.

(** The exts of a message, whose data the hook decodes *)
Fixpoint exts (m : msg) : list bytes :=
  match m with
  | MExt _ data => [data]
  | MArray l => mjoin (map exts l)
  | MMap d => mjoin (map (fun e => exts e.2) d)
  | _ => []
  end.

Section Coding.
Context {Obj : Type} `{Lib : MsgPack Obj} (r : Registry).

(** What [packb] writes for a value, with [_encode_ext_types] for what msgpack does not know; the packer works from left to right. *)
Fixpoint encode (v : pyval Obj) : result msg :=
  match v with
  | PNone => Ok MNil
  | PBool b => Ok (MBool b)
  | PInt n => Ok (MInt n)
  | PFloat bits => Ok (MFloat bits)
  | PStr s => Ok (MStr s)
  | PBytes b => Ok (MBin b)
  | PList l => rmap MArray (sequence (map encode l))
  | PDict d => rmap MMap (sequence (map (fun e => rmap (pair e.1) (encode e.2)) d))
  | PTuple l =>
      let* xs := sequence (map encode l) in
      let* data := pack_msg (MArray xs) in
      ExtType TUPLE_EXT_TYPE_CODE data
  | PObj o =>
      match dget (ext_types r) (type_of o) with
      | Some type_code => let* data := obj_packb o in ExtType type_code data
      | None => Raise TypeError
      end
  end.

Definition dumps (v : pyval Obj) : result bytes := let* m := encode v in pack_msg m.

(** [tuple(x)] *)
Definition tuple_of (x : pyval Obj) : result (pyval Obj) :=
  match x with
  | PList l | PTuple l => Ok (PTuple l)
  | PStr s => Ok (PTuple (map (fun c => PStr [c]) s))
  | PBytes b => Ok (PTuple (map PInt b))
  | PDict d => Ok (PTuple (map (fun e => match e.1 with KStr s => PStr s | KBytes b => PBytes b | KInt n => PInt n end) d))
  | _ => Raise TypeError
  end.

(** What the unpacker builds from a message, with [_decode_ext_types] as the hook; [hook] is the part of it that unpacks the data of a tuple. *)
Fixpoint build (hook : bytes -> result (pyval Obj)) (m : msg) : result (pyval Obj) :=
  match m with
  | MNil => Ok PNone
  | MBool b => Ok (PBool b)
  | MInt n => Ok (PInt n)
  | MFloat bits => Ok (PFloat bits)
  | MStr s => Ok (PStr s)
  | MBin b => Ok (PBytes b)
  | MArray l => rmap PList (sequence (map (build hook) l))
  | MMap d => rmap (fun l => PDict (dict_of_list l)) (sequence (map (fun e => rmap (pair e.1) (build hook e.2)) d))
  | MExt code data =>
      match dget (ext_type_codes r) code with
      | Some ty => rmap PObj (unpackb ty data)
      | None => if code =? TUPLE_EXT_TYPE_CODE then let* x := hook data in tuple_of x else Ok (PBytes data)
      end
  end.

(** [msgpack.loads]: the data of an extension is shorter than what contains it, so that the length of the input bounds the nesting. *)
Fixpoint unpack (fuel : nat) (buf : bytes) : result (pyval Obj) :=
  match fuel with
  | O => Raise RuntimeError
  | S n => let* m := unpack_msg buf in build (unpack n) m
  end.
Definition loads (buf : bytes) : result (pyval Obj) := unpack (S (length buf)) buf.
End Coding.

(** What is assumed of msgpack: it reads what it has written, as long as keys are texts or bytes that differ, and a message is longer than the data of an
    extension in it.  Of the classes: [unpackb] inverts [packb]. *)
Definition plain_keys {A} (d : list (dkey * A)) : Prop := NoDup d.*1 /\ Forall (fun k => match k with KInt _ => False | _ => True end) d.*1.
Fixpoint msg_keys (m : msg) : Prop :=
  match m with
  | MArray l => foldr and True (map msg_keys l)
  | MMap d => plain_keys d /\ foldr and True (map (fun e => msg_keys e.2) d)
  | _ => True
  end.
Class MsgPackLaws (Obj : Type) `{MsgPack Obj} : Prop := {
  unpack_pack m b : msg_keys m -> pack_msg m = Ok b -> unpack_msg b = Ok m;
  pack_longer m b data : pack_msg m = Ok b -> data ∈ exts m -> (length data < length b)%nat;
  unpackb_packb o b : obj_packb o = Ok b -> unpackb (type_of o) b = Ok o;
}.

(** A registry in which the code of a class leads back to it, and the code of tuples is free *)
Definition registry_ok (r : Registry) : Prop :=
  (forall ty code, dget (ext_types r) ty = Some code -> dget (ext_type_codes r) code = Some ty) /\ dget (ext_type_codes r) TUPLE_EXT_TYPE_CODE = None.

Fixpoint val_keys {Obj} (v : pyval Obj) : Prop :=
  match v with
  | PList l | PTuple l => foldr and True (map val_keys l)
  | PDict d => plain_keys d /\ foldr and True (map (fun e => val_keys e.2) d)
  | _ => True
  end.

(** ** Lemmas *)

Lemma sequence_Ok {A} (l : list (result A)) xs : sequence l = Ok xs <-> Forall2 (fun r x => r = Ok x) l xs.
Proof.
  revert xs. induction l as [|r l IH]; intros xs; cbn.
  - split; [intros [= <-]; constructor|]. by inversion 1.
  - split.
    + intros H. mon_inv. constructor; [done|]. by apply IH.
    + inversion_clear 1 as [|? x ? xs' -> Hl]. cbn. apply IH in Hl as ->. done.
Qed.

Lemma pyval_induction {Obj} (P : pyval Obj -> Prop) :
  P PNone -> (forall b, P (PBool b)) -> (forall n, P (PInt n)) -> (forall f, P (PFloat f)) -> (forall s, P (PStr s)) -> (forall b, P (PBytes b)) ->
  (forall l, Forall P l -> P (PList l)) -> (forall l, Forall P l -> P (PTuple l)) -> (forall d, Forall P d.*2 -> P (PDict d)) -> (forall o, P (PObj o)) ->
  forall v, P v.
Proof.
  intros H1 H2 H3 H4 H5 H6 H7 H8 H9 H10. fix IH 1. intros [|b|n|f|s|b|l|l|d|o]; [apply H1|apply H2|apply H3|apply H4|apply H5|apply H6|apply H7|apply H8|apply H9|apply H10].
  - induction l as [|x l IHl]; constructor; [apply IH|exact IHl].
  - induction l as [|x l IHl]; constructor; [apply IH|exact IHl].
  - induction d as [|[k x] d IHd]; constructor; [apply IH|exact IHd].
Qed.

Lemma foldr_and_map {X} (P : X -> Prop) l : foldr and True (map P l) <-> Forall P l.
Proof. induction l as [|x l IH]; cbn; [by split|]. rewrite Forall_cons. tauto. Qed.

Lemma dict_of_list_nodup {A} (d : list (dkey * A)) : NoDup d.*1 -> dict_of_list d = d.
Proof.
  induction d as [|[k v] d IH] using rev_ind; intros Hn; [done|]. unfold dict_of_list, dupdate in *. rewrite foldl_app. cbn.
  rewrite fmap_app in Hn. apply NoDup_app in Hn as (Hn & Hd & _). rewrite IH by done. apply dkeys_dset_notin.
  intros Hin. apply (Hd k Hin). cbn. left.
Qed.

Section RoundTrip.
Context {Obj : Type} `{Laws : MsgPackLaws Obj} (r : Registry).

Lemma ExtType_Ok code data m : ExtType code data = Ok m -> m = MExt code data.
Proof. unfold ExtType. destruct (_ && _); [by intros [= <-]|done]. Qed.

(** The messages for the elements of a list *)
Lemma encode_elements (P : pyval Obj -> msg -> Prop) l : Forall (fun v => forall m, encode r v = Ok m -> P v m) l ->
  forall ms, sequence (map (encode r) l) = Ok ms -> Forall2 P l ms.
Proof.
  intros Hl ms Hs. apply sequence_Ok in Hs. revert ms Hs. induction Hl as [|v l Hv Hl IH]; intros ms Hs; inversion_clear Hs; constructor; auto.
Qed.

Lemma encode_entries (P : pyval Obj -> msg -> Prop) (d : list (dkey * pyval Obj)) : Forall (fun v => forall m, encode r v = Ok m -> P v m) d.*2 ->
  forall ms, sequence (map (fun e => rmap (pair e.1) (encode r e.2)) d) = Ok ms -> ms.*1 = d.*1 /\ Forall2 P d.*2 ms.*2.
Proof.
  intros Hl ms Hs. apply sequence_Ok in Hs. revert ms Hs. induction d as [|[k v] d IH]; intros ms Hs; inversion_clear Hs as [|? y ? ys Hy Hys]; [split; [done|constructor]|].
  cbn in Hl. inversion_clear Hl as [|? ? Hv Hl']. cbn in Hy. destruct (encode r v) as [m|] eqn:Ev; [|done]. cbn in Hy. injection Hy as <-.
  destruct (IH Hl' ys Hys) as [Hk Hp]. cbn. split; [by rewrite Hk|]. constructor; auto.
Qed.

Lemma encode_keys (v : pyval Obj) : val_keys v -> forall m, encode r v = Ok m -> msg_keys m.
Proof.
  induction v as [|b|n|f|s|b|l IH|l IH|d IH|o] using pyval_induction; intros Hk m He; cbn [encode] in He; try (injection He as <-; exact I).
  - destruct (sequence _) as [ms|] eqn:Es; [|done]. injection He as <-. cbn in Hk |- *. rewrite foldr_and_map in Hk. rewrite foldr_and_map.
    assert (Hall : Forall2 (fun v m => msg_keys m) l ms) by (eapply encode_elements; [|exact Es]; rewrite Forall_forall in IH, Hk |- *; intros x Hx m Hm; by apply (IH x Hx (Hk x Hx) m)).
    clear -Hall. induction Hall; constructor; auto.
  - mon_inv. by apply ExtType_Ok in He as ->.
  - destruct (sequence _) as [ms|] eqn:Es; [|done]. injection He as <-. cbn in Hk |- *. destruct Hk as [[Hn Hp] Hk].
    rewrite (foldr_and_map (fun e : dkey * pyval Obj => val_keys e.2)) in Hk. rewrite (foldr_and_map (fun e : dkey * msg => msg_keys e.2)).
    destruct (encode_entries (fun v m => msg_keys m) d) with (ms := ms) as [Hks Hall]; [|exact Es|].
    { rewrite Forall_fmap in IH |- *. rewrite Forall_forall in IH, Hk |- *. intros e He m Hm. by apply (IH e He (Hk e He) m). }
    unfold plain_keys. rewrite Hks. split; [done|]. clear -Hall. apply (Forall_fmap snd). revert Hall. generalize (d.*2). induction (ms.*2) as [|m l IH]; intros vs Hv; [constructor|].
    inversion_clear Hv. constructor; eauto.
  - destruct (dget _ _) as [code|]; [|done]. mon_inv. by apply ExtType_Ok in He as ->.
Qed.

(** Decoding undoes encoding, if the hook undoes the packing of shorter data. *)
Lemma build_encode (v : pyval Obj) : registry_ok r -> val_keys v -> forall m hook, encode r v = Ok m ->
  (forall data w xs, data ∈ exts m -> Forall val_keys xs -> sequence (map (encode r) xs) = Ok w -> pack_msg (MArray w) = Ok data -> hook data = Ok (PList xs)) ->
  build r hook m = Ok v.
Proof.
  intros [Hr Ht]. induction v as [|b|n|f|s|b|l IH|l IH|d IH|o] using pyval_induction; intros Hk m hook He Hh; cbn [encode] in He; try (injection He as <-; done).
  - destruct (sequence _) as [ms|] eqn:Es; [|done]. injection He as <-. cbn in Hk, Hh |- *. rewrite foldr_and_map in Hk.
    assert (Hall : sequence (map (build r hook) ms) = Ok l); [|by rewrite Hall].
    apply sequence_Ok. apply sequence_Ok in Es. clear -IH Hk Hh Es. revert ms Es Hh. induction IH as [|v l Hv Hl IHl]; intros ms Es Hh; inversion Es as [|? m ? ms' Hm Hms]; subst; [constructor|].
    inversion_clear Hk as [|? ? Hk1 Hk2]. cbn in Hh |- *. constructor.
    + apply Hv; [done|done|]. intros data w xs Hd. apply Hh. apply elem_of_app. by left.
    + apply IHl; [done|done|]. intros data w xs Hd. apply Hh. apply elem_of_app. by right.
  - mon_inv. apply ExtType_Ok in He as ->. cbn in Hk, Hh |- *. rewrite foldr_and_map in Hk. rewrite Ht. cbn.
    by rewrite (Hh _ _ l (list_elem_of_here _ _) Hk ltac:(eassumption) ltac:(eassumption)).
  - destruct (sequence _) as [ms|] eqn:Es; [|done]. injection He as <-. cbn in Hk, Hh |- *. destruct Hk as [[Hn Hp] Hk].
    rewrite (foldr_and_map (fun e : dkey * pyval Obj => val_keys e.2)) in Hk.
    assert (Hall : sequence (map (fun e => rmap (pair e.1) (build r hook e.2)) ms) = Ok d); [|rewrite Hall; cbn; by rewrite dict_of_list_nodup].
    apply sequence_Ok. apply sequence_Ok in Es. clear -IH Hk Hh Es. revert ms Es Hh. induction d as [|[k v] d IHd]; intros ms Es Hh; inversion Es as [|? m ? ms' Hm Hms]; subst; [constructor|].
    cbn in IH. inversion_clear IH as [|? ? Hv Hl]. inversion_clear Hk as [|? ? Hk1 Hk2]. cbn in Hm. destruct (encode r v) as [m0|] eqn:Ev; [|done]. cbn in Hm. injection Hm as <-. cbn in Hh |- *. constructor.
    + cbn. rewrite (Hv Hk1 m0 hook); [done|done|]. intros data w xs Hd. apply Hh. apply elem_of_app. by left.
    + apply IHd; [done|done|done|]. intros data w xs Hd. apply Hh. apply elem_of_app. by right.
  - destruct (dget (ext_types r) (type_of o)) as [code|] eqn:Ec; [|done]. mon_inv. apply ExtType_Ok in He as ->. cbn. rewrite (Hr _ _ Ec).
    by rewrite (unpackb_packb _ _ ltac:(eassumption)).
Qed.

Lemma unpack_encode (fuel : nat) : registry_ok r -> forall (v : pyval Obj) m b, val_keys v -> encode r v = Ok m -> pack_msg m = Ok b ->
  (length b < fuel)%nat -> unpack r fuel b = Ok v.
Proof.
  intros Hr. induction fuel as [|n IH]; intros v m b Hk He Hb Hl; [lia|]. cbn [unpack].
  rewrite (unpack_pack m b (encode_keys v Hk m He) Hb). cbn [rbind]. apply build_encode; try done.
  intros data w xs Hd Hxs Hw Hp. pose proof (pack_longer _ _ _ Hb Hd) as Hlt. apply (IH (PList xs) (MArray w)); [by apply foldr_and_map|by cbn; rewrite Hw|done|lia].
Qed.

(** ** Theorems *)

(** What [dumps] writes, [loads] reads back: nested lists, tuples, dictionaries and registered objects come back as they were, tuples as
    tuples at every depth, provided that every key is a text or bytes, and that the codes of the classes are their own. *)
Theorem serializer_roundtrip (v : pyval Obj) (b : bytes) : registry_ok r -> val_keys v -> dumps r v = Ok b -> loads r b = Ok v.
Proof.
  intros Hr Hk Hd. unfold dumps in Hd. destruct (encode r v) as [m|] eqn:He; [|done]. cbn [rbind] in Hd.
  apply (unpack_encode _ Hr v m b); try done. lia.
Qed.

(** A code belongs to the class that registered it last.  Registering classes under codes that are not taken keeps the registry sound;
    but an object of a class whose code was taken by another is written as before, and read by the other class. *)
Theorem overwritten_code_misread (code : Z) (ty ty' : nat) (o : Obj) (data : bytes) (hook : bytes -> result (pyval Obj)) :
  registry_ok r -> dget (ext_types r) ty = Some code -> ty <> ty' -> type_of o = ty -> obj_packb o = Ok data -> 0 <= code <= 127 ->
  let r' := ext_serializable r code ty' in
  encode r' (PObj o) = Ok (MExt code data) /\ build r' hook (MExt code data) = rmap PObj (unpackb ty' data).
Proof.
  intros _ Hc Hne Hty Hp Hcode r'. subst r'. cbn. rewrite dget_dset_ne by congruence. rewrite Hty, Hc, Hp. cbn. unfold ExtType.
  replace ((0 <=? code) && (code <=? 127)) with true by (symmetry; apply andb_true_iff; split; apply Z.leb_le; lia).
  split; [done|]. by rewrite dget_dset_eq.
Qed.
End RoundTrip.

Lemma registry_empty : registry_ok empty_registry.
Proof. by split. Qed.

(** Registering a new class under a free code keeps the registry sound. *)
Lemma ext_serializable_ok (r : Registry) code ty : registry_ok r -> dget (ext_type_codes r) code = None -> dget (ext_types r) ty = None -> code <> TUPLE_EXT_TYPE_CODE ->
  registry_ok (ext_serializable r code ty).
Proof.
  intros [H1 H2] Hc Hty Hne. split; cbn; [|by rewrite dget_dset_ne].
  intros ty' code' H. destruct (decide (ty = ty')) as [<- |Hn].
  - rewrite dget_dset_eq in H. injection H as <-. by rewrite dget_dset_eq.
  - rewrite dget_dset_ne in H by done. rewrite dget_dset_ne; [by apply H1|]. intros <-. rewrite (H1 _ _ H) in Hc. done.
Qed.

(** *** Witnesses *)

(** A toy format for integers, lists of integers and extensions; objects are integers, with their parity as their class. *)
Definition toy_int (m : msg) : result Z := match m with MInt n => Ok n | _ => Raise OverflowError end.
#[export] Instance toy_msgpack : MsgPack Z := {|
  pack_msg m := match m with
                | MInt n => Ok [1; n]
                | MExt c d => Ok (2 :: c :: d)
                | MArray l => rmap (cons 3) (mapM_r toy_int l)
                | _ => Raise OverflowError
                end;
  unpack_msg b := match b with
                  | [1; n] => Ok (MInt n)
                  | 2 :: c :: d => Ok (MExt c d)
                  | 3 :: ns => Ok (MArray (map MInt ns))
                  | _ => Raise ValueError
                  end;
  type_of o := if Z.even o then 0%nat else 1%nat;
  obj_packb o := Ok [o];
  unpackb ty b := match b with [o] => if Nat.eqb ty (if Z.even o then 0 else 1) then Ok o else Raise TypeError | _ => Raise ValueError end |}.

Lemma toy_ints_read l ns : mapM_r toy_int l = Ok ns -> map MInt ns = l.
Proof. revert ns. induction l as [|m l IH]; intros ns H; cbn in H; mon_inv; [done|]. destruct m; try done. cbn in E. injection E as <-. cbn. by rewrite (IH _ E0). Qed.

#[export] Instance toy_msgpack_laws : MsgPackLaws Z.
Proof.
  split.
  - intros m b _ H. destruct m as [| | | | | |l| |]; cbn in H; try discriminate; [by injection H as <-| |by injection H as <-].
    destruct (mapM_r toy_int l) as [ns|] eqn:E; [|done]. injection H as <-. cbn. by rewrite (toy_ints_read _ _ E).
  - intros m b data H Hd. destruct m as [| | | | | |l| |]; cbn in H, Hd; try discriminate; try (by apply elem_of_nil in Hd).
    + destruct (mapM_r toy_int l) as [ns|] eqn:E; [|done]. exfalso. rewrite <- (toy_ints_read _ _ E) in Hd. clear -Hd. induction ns; cbn in Hd; [by apply elem_of_nil in Hd|auto].
    + apply list_elem_of_singleton in Hd as ->. injection H as <-. cbn. lia.
  - intros o b [= <-]. cbn. by destruct (Z.even o).
Qed.

Definition toy_registry : Registry := ext_serializable empty_registry 80 0.
Lemma toy_registry_ok : registry_ok toy_registry.
Proof. by apply ext_serializable_ok. Qed.

Lemma serializer_roundtrip_witness : loads toy_registry [2; 64; 3; 5; 6] = Ok (PTuple [PInt 5; PInt 6]).
Proof. apply (serializer_roundtrip toy_registry (PTuple [PInt 5; PInt 6])); [exact toy_registry_ok|cbn; tauto|reflexivity]. Defined.

Lemma overwritten_code_misread_witness : build (ext_serializable toy_registry 80 1) (fun _ => Raise ValueError) (MExt 80 [4]) = Raise (A := pyval Z) TypeError.
Proof.
  destruct (overwritten_code_misread toy_registry 80 0 1 4 [4] (fun _ => Raise ValueError)) as [_ H]; [exact toy_registry_ok|reflexivity|discriminate|reflexivity|reflexivity|lia|exact H].
Defined.
