(* ===== verification/StorageV2.v ===== *)
(** * The second version of the storage ([mesh/utils/timed_storage_v2.py], [mesh/dht/storage_v2.py])

    A copy of the storage whose values also know when they were stored.  The definitions follow the second version; the theorems
    relate them to the first one by forgetting the times of creation. *)

From S2P Require Import Prelude TimedStorage Storage.

Record ValueWithExpiration2 (V : Type) : Type := VWE2 { value2 : V; expiration_time2 : Z; created_at : Z }.
Arguments VWE2 {V} _ _ _.
Arguments value2 {V} _.
Arguments expiration_time2 {V} _.
Arguments created_at {V} _.

Section TimedStorage2.
Context {K V : Type} `{EqK : EqDecision K} `{OrdK : PyOrd K} {LawK : PyOrdLaws K}.

Record TimedStorage2 : Type := mkTS2 {
  frozen2 : bool;
  maxsize2 : option nat;
  data2 : pydict K (ValueWithExpiration2 V);
  expiration_heap2 : list (Z * K);
  key_to_heap2 : pydict K (Z * K) }.
Implicit Types (s : TimedStorage2) (k : K) (v : V) (now e : Z).

Definition init2 (frozen : bool) (size : option nat) : TimedStorage2 :=
  mkTS2 frozen (match size with Some (S n) => Some (S n) | _ => None end) [] [] [].

Definition over_capacity2 (size : option nat) (d : pydict K (ValueWithExpiration2 V)) : bool :=
  match size with None => false | Some n => (n <? length d)%nat end.

Fixpoint remove_loop2 (fz : bool) (size : option nat) now (h : list (Z * K)) (d : pydict K (ValueWithExpiration2 V)) (k2h : pydict K (Z * K))
    : result TimedStorage2 :=
  match h with
  | [] => Ok (mkTS2 fz size d [] k2h)
  | (e, k) :: h' =>
      if negb fz && ((e <? now) || over_capacity2 size d) then
        if decide (dget k2h k = Some (e, k)) then
          let* d' := pydel d k in
          let* k2h' := pydel k2h k in
          remove_loop2 fz size now h' d' k2h'
        else remove_loop2 fz size now h' d k2h
      else Ok (mkTS2 fz size d h k2h)
  end.
Definition remove_outdated2 now s : result TimedStorage2 :=
  remove_loop2 (frozen2 s) (maxsize2 s) now (expiration_heap2 s) (data2 s) (key_to_heap2 s).

Definition store2 now s k v e : result (TimedStorage2 * bool) :=
  if (e <? now) && negb (frozen2 s) then Ok (s, false)
  else
    let k2h := dset (key_to_heap2 s) k (e, k) in
    let h := heappush (e, k) (expiration_heap2 s) in
    match dget (data2 s) k with
    | Some old =>
        if expiration_time2 old <? e then Ok (mkTS2 (frozen2 s) (maxsize2 s) (dset (data2 s) k (VWE2 v e now)) h k2h, true)
        else Ok (mkTS2 (frozen2 s) (maxsize2 s) (data2 s) h k2h, false)
    | None =>
        let* s' := remove_outdated2 now (mkTS2 (frozen2 s) (maxsize2 s) (dset (data2 s) k (VWE2 v e now)) h k2h) in
        Ok (s', true)
    end.

Definition get2 now s k : result (TimedStorage2 * option (ValueWithExpiration2 V)) :=
  let* s' := remove_outdated2 now s in Ok (s', dget (data2 s') k).
Definition items2 now s : result (TimedStorage2 * pydict K (ValueWithExpiration2 V)) :=
  let* s' := remove_outdated2 now s in Ok (s', data2 s').
Definition top2 now s : result (TimedStorage2 * option (K * ValueWithExpiration2 V)) :=
  let* s' := remove_outdated2 now s in
  match data2 s' with
  | [] => Ok (s', None)
  | _ =>
      let* h := skip_ghosts (expiration_heap2 s') (key_to_heap2 s') in
      let* root := of_option IndexError (head h) in
      let* item := dgetitem (data2 s') root.2 in
      Ok (mkTS2 (frozen2 s') (maxsize2 s') (data2 s') h (key_to_heap2 s'), Some (root.2, item))
  end.
Definition clear2 s : TimedStorage2 := mkTS2 (frozen2 s) (maxsize2 s) [] [] [].
Definition contains2 now s k : result (TimedStorage2 * bool) := let* s' := remove_outdated2 now s in Ok (s', dmem (data2 s') k).
Definition len2 now s : result (TimedStorage2 * nat) := let* s' := remove_outdated2 now s in Ok (s', length (data2 s')).
Definition delitem2 s k : result TimedStorage2 :=
  if dmem (key_to_heap2 s) k then
    let* d' := pydel (data2 s) k in
    let* k2h' := pydel (key_to_heap2 s) k in
    Ok (mkTS2 (frozen2 s) (maxsize2 s) d' (expiration_heap2 s) k2h')
  else Ok s.
Definition set_frozen2 s (b : bool) : TimedStorage2 := mkTS2 b (maxsize2 s) (data2 s) (expiration_heap2 s) (key_to_heap2 s).

(** An operation of the storage, as in the first version *)
Definition run_op2 s (o : Z * op) : result TimedStorage2 :=
  let '(now, o) := o in
  match o with
  | OStore k v e => rmap fst (store2 now s k v e)
  | OGet k => rmap fst (get2 now s k)
  | OItems => rmap fst (items2 now s)
  | OTop => rmap fst (top2 now s)
  | OClear => Ok (clear2 s)
  | OContains k => rmap fst (contains2 now s k)
  | OLen => rmap fst (len2 now s)
  | ODel k => delitem2 s k
  | OFreeze b => Ok (set_frozen2 s b)
  end.
End TimedStorage2.
Arguments TimedStorage2 : clear implicits.

(** ** [DictionaryDHTValue]; [None] is [-inf]. *)
Section Dictionary2.
Context {Subkey V : Type} `{EqS : EqDecision Subkey} `{OrdS : PyOrd Subkey} {LawS : PyOrdLaws Subkey}.

Record DictionaryDHTValue2 : Type := mkDict2 { entries2 : TimedStorage2 Subkey V; latest_expiration_time2 : option Z; latest_created_at : option Z }.
Definition new_dictionary2 (maxsize : option nat) : DictionaryDHTValue2 := mkDict2 (init2 false maxsize) None None.

Definition dict_store2 (now : Z) (d : DictionaryDHTValue2) (k : Subkey) (v : V) (e : Z) : result (DictionaryDHTValue2 * bool) :=
  let* (s, ok) := store2 now (entries2 d) k v e in
  Ok (mkDict2 s (Some (max_inf (latest_expiration_time2 d) e)) (Some (max_inf (latest_created_at d) now)), ok).

Section wire2.
Context {Raw : Type}.
Abbreviation packed := (option nat * option Z * option Z * list (Subkey * V * Z * Z))%type.
Variable dumps : packed -> Raw.
Variable loads : Raw -> result packed.

Definition packb2 (now : Z) (d : DictionaryDHTValue2) : result (DictionaryDHTValue2 * Raw) :=
  let* (s, its) := items2 now (entries2 d) in
  let packed_items := map (fun kx => (kx.1, value2 kx.2, expiration_time2 kx.2, created_at kx.2)) its in
  Ok (mkDict2 s (latest_expiration_time2 d) (latest_created_at d), dumps (maxsize2 s, latest_expiration_time2 d, latest_created_at d, packed_items)).

(** The time of creation of an item is read and not used. *)
Definition unpackb2 (now : Z) (raw : Raw) : result DictionaryDHTValue2 :=
  let* x := loads raw in
  let '(size, latest, created, its) := x in
  let new_dict := mkDict2 (set_frozen2 (init2 false size) true) None None in
  let* d := foldM_r (fun d it => let '(k, v, e, _) := it in rmap fst (dict_store2 now d k v e)) new_dict its in
  Ok (mkDict2 (set_frozen2 (entries2 d) false) latest created).
End wire2.
End Dictionary2.
Arguments DictionaryDHTValue2 : clear implicits.

(** ** [DHTLocalStorage]; the dictionaries are objects, as in the first version. *)
Section DHTLocalStorage2.
Context {Subkey V : Type} `{EqS : EqDecision Subkey} `{OrdS : PyOrd Subkey} {LawS : PyOrdLaws Subkey}.

Record DHTLocalStorage2 : Type := mkLS2 { objects2 : list (DictionaryDHTValue2 Subkey V); table2 : TimedStorage2 Z (DHTValue V) }.

Definition store_subkey2 (now : Z) (st : DHTLocalStorage2) (key : Z) (subkey : Subkey) (v : V) (e : Z) : result (DHTLocalStorage2 * bool) :=
  let* (tb, previous) := get2 now (table2 st) key in
  let create :=
    let* (new_storage, _) := dict_store2 now (new_dictionary2 None) subkey v e in
    let* (tb', ok) := store2 now tb key (Dictionary (length (objects2 st))) (max_inf (latest_expiration_time2 new_storage) e) in
    Ok (mkLS2 (objects2 st ++ [new_storage]) tb', ok) in
  match previous with
  | None => create
  | Some (VWE2 (Binary _) previous_expiration_time _) => if previous_expiration_time <? e then create else Ok (mkLS2 (objects2 st) tb, false)
  | Some (VWE2 (Dictionary ref) _ _) =>
      let* d := of_option RuntimeError (objects2 st !! ref) in
      let* tb' := if above e (latest_expiration_time2 d) then rmap fst (store2 now tb key (Dictionary ref) e) else Ok tb in
      let* (d', ok) := dict_store2 now d subkey v e in
      Ok (mkLS2 (<[ref := d']> (objects2 st)) tb', ok)
  end.

Definition local_store2 (now : Z) (st : DHTLocalStorage2) (key : Z) (v : V) (e : Z) (subkey : option Subkey) : result (DHTLocalStorage2 * bool) :=
  match subkey with
  | Some sk => store_subkey2 now st key sk v e
  | None => let* (tb, ok) := store2 now (table2 st) key (Binary v) e in Ok (mkLS2 (objects2 st) tb, ok)
  end.
End DHTLocalStorage2.
Arguments DHTLocalStorage2 : clear implicits.

(** ** Forgetting the times of creation *)

Section Erasure.
Context {K V : Type} `{EqK : EqDecision K} `{OrdK : PyOrd K} {LawK : PyOrdLaws K}.
Implicit Types (s : TimedStorage2 K V) (k : K) (v : V) (now e : Z).

Definition forget (x : ValueWithExpiration2 V) : ValueWithExpiration V := VWE (value2 x) (expiration_time2 x).
Definition forget_data (d : pydict K (ValueWithExpiration2 V)) : pydict K (ValueWithExpiration V) := map (fun kx => (kx.1, forget kx.2)) d.
Definition erase s : TimedStorage K V := mkTS (frozen2 s) (maxsize2 s) (forget_data (data2 s)) (expiration_heap2 s) (key_to_heap2 s).
(** The same result, up to the times of creation *)
Definition erase_result {A B} (f : A -> B) (r : result (TimedStorage2 K V * A)) : result (TimedStorage K V * B) := rmap (fun p => (erase p.1, f p.2)) r.

Lemma dget_forget d k : dget (forget_data d) k = forget <$> dget d k.
Proof. induction d as [|[k' x] d IH]; [done|]. cbn. destruct (decide (k' = k)); [done|exact IH]. Qed.

Lemma dset_forget d k x : forget_data (dset d k x) = dset (forget_data d) k (forget x).
Proof. unfold forget_data. induction d as [|[k' y] d IH]; [done|]. cbn. destruct (decide (k' = k)); [done|]. cbn. by rewrite IH. Qed.

Lemma ddel_forget d k : forget_data (ddel d k) = ddel (forget_data d) k.
Proof.
  unfold ddel, forget_data. induction d as [|[k' y] d IH]; [done|]. rewrite filter_cons. cbn [map fst snd]. rewrite filter_cons. cbn [fst].
  case_decide; cbn; by rewrite IH.
Qed.

Lemma pydel_forget d k : rmap forget_data (pydel d k) = pydel (forget_data d) k.
Proof.
  unfold pydel, dmem. rewrite dget_forget. destruct (dget d k) as [x|]; [|done]. rewrite !bool_decide_true by (by eexists).
  cbn. by rewrite ddel_forget.
Qed.

Lemma remove_loop_erase fz size now h : forall d k2h, rmap erase (remove_loop2 fz size now h d k2h) = remove_loop fz size now h (forget_data d) k2h.
Proof.
  induction h as [|[e k] h IH]; intros d k2h; [done|]. cbn [remove_loop2 remove_loop].
  replace (over_capacity size (forget_data d)) with (over_capacity2 size d) by (destruct size; [|done]; unfold over_capacity, over_capacity2, forget_data; by rewrite length_map).
  destruct (negb fz && _); [|done]. case_decide; [|by rewrite IH]. rewrite <- pydel_forget.
  destruct (pydel d k) as [d'|]; [|done]. cbn [rmap rbind]. destruct (pydel k2h k) as [k2h'|]; [|done]. cbn [rbind]. apply IH.
Qed.

Lemma remove_outdated_erase now s : rmap erase (remove_outdated2 now s) = _remove_outdated now (erase s).
Proof. apply remove_loop_erase. Qed.

Lemma store_erase now s k v e : erase_result id (store2 now s k v e) = store now (erase s) k v e.
Proof.
  unfold store2, store. cbn [frozen erase data maxsize expiration_heap key_to_heap]. destruct ((e <? now) && _); [done|]. rewrite dget_forget.
  destruct (dget (data2 s) k) as [old|]; cbn [fmap option_fmap option_map].
  - cbn [forget expiration_time]. destruct (expiration_time2 old <? e); [|done]. unfold erase_result, erase. cbn. by rewrite dset_forget.
  - change (VWE v e) with (forget (VWE2 v e now)). rewrite <- dset_forget.
    change (mkTS (frozen2 s) (maxsize2 s) (forget_data ?d) ?h ?k2h) with (erase (mkTS2 (frozen2 s) (maxsize2 s) d h k2h)).
    rewrite <- remove_outdated_erase. by destruct (remove_outdated2 now _).
Qed.

Lemma get_erase now s k : erase_result (fmap forget) (get2 now s k) = get now (erase s) k.
Proof. unfold get2, get. rewrite <- remove_outdated_erase. destruct (remove_outdated2 now s) as [s'|]; [|done]. cbn. by rewrite dget_forget. Qed.

Lemma items_erase now s : erase_result forget_data (items2 now s) = items now (erase s).
Proof. unfold items2, items. rewrite <- remove_outdated_erase. by destruct (remove_outdated2 now s). Qed.

Lemma top_erase now s : erase_result (fmap (fun p => (p.1, forget p.2))) (top2 now s) = top now (erase s).
Proof.
  unfold top2, top. rewrite <- remove_outdated_erase. destruct (remove_outdated2 now s) as [s'|]; [|done]. cbn [rmap rbind].
  change (data (erase s')) with (forget_data (data2 s')). destruct (data2 s') as [|x d] eqn:E; [done|]. rewrite decide_False by done. rewrite <- E.
  cbn [expiration_heap key_to_heap erase]. destruct (skip_ghosts _ _) as [h|]; [|done]. cbn [rbind]. destruct (head h) as [root|]; [|done]. cbn [of_option rbind].
  unfold dgetitem. cbn [data erase]. rewrite dget_forget. by destruct (dget (data2 s') root.2).
Qed.

Lemma delitem_erase s k : rmap erase (delitem2 s k) = delitem (erase s) k.
Proof.
  unfold delitem2, delitem. cbn [key_to_heap erase data]. destruct (dmem (key_to_heap2 s) k); [|done]. rewrite <- pydel_forget.
  destruct (pydel (data2 s) k); [|done]. cbn. by destruct (pydel (key_to_heap2 s) k).
Qed.

Lemma run_op_erase s o : rmap erase (run_op2 s o) = run_op (erase s) o.
Proof.
  destruct o as [now o]. destruct o as [k v e|k| | | |k| |k|b]; cbn [run_op2 run_op].
  - rewrite <- store_erase. by destruct (store2 now s k v e).
  - rewrite <- get_erase. by destruct (get2 now s k).
  - rewrite <- items_erase. by destruct (items2 now s).
  - rewrite <- top_erase. by destruct (top2 now s).
  - done.
  - unfold contains2, contains. rewrite <- remove_outdated_erase. by destruct (remove_outdated2 now s).
  - unfold len2, len. rewrite <- remove_outdated_erase. by destruct (remove_outdated2 now s).
  - apply delitem_erase.
  - done.
Qed.

(** The second version of the storage behaves like the first: on any sequence of operations, at any readings of the clock, it reaches the state
    of the first version, when the times of creation are forgotten; and so it never raises. *)
Theorem second_version_equivalent (fz : bool) (size : option nat) (l : list (Z * op)) :
  rmap erase (foldM_r run_op2 (init2 fz size) l) = foldM_r run_op (init fz size) l /\ exists s, foldM_r run_op2 (init2 fz size) l = Ok s.
Proof.
  assert (Hgen : forall s, rmap erase (foldM_r run_op2 s l) = foldM_r run_op (erase s) l).
  { induction l as [|o l IH]; intros s; [done|]. cbn [foldM_r]. rewrite <- run_op_erase. destruct (run_op2 s o); [apply IH|done]. }
  pose proof (Hgen (init2 fz size)) as Hg. split; [exact Hg|].
  destruct (foldM_r_invariant (wf (K := K) (V := V)) run_op) with (l := l) (s := init (K := K) (V := V) fz size) as (s & Hs & _).
  - intros s o Hs. destruct (run_op_wf s o Hs) as (s' & E & Hs'). eauto.
  - apply wf_init.
  - change (erase (init2 fz size)) with (init (K := K) (V := V) fz size) in Hg. rewrite Hs in Hg. destruct (foldM_r run_op2 (init2 fz size) l) as [s2|]; [by exists s2|done].
Qed.
End Erasure.

Section LocalErasure.
Context {Subkey V : Type} `{EqS : EqDecision Subkey} `{OrdS : PyOrd Subkey} {LawS : PyOrdLaws Subkey}.

Definition erase_dict (d : DictionaryDHTValue2 Subkey V) : DictionaryDHTValue Subkey V := mkDict (erase (entries2 d)) (latest_expiration_time2 d).
Definition erase_local (st : DHTLocalStorage2 Subkey V) : DHTLocalStorage Subkey V := mkLS (map erase_dict (objects2 st)) (erase (table2 st)).

Lemma dict_store_erase now d k v e : rmap (fun p => (erase_dict p.1, p.2)) (dict_store2 now d k v e) = dict_store now (erase_dict d) k v e.
Proof. unfold dict_store2, dict_store. cbn [entries erase_dict]. rewrite <- store_erase. by destruct (store2 now (entries2 d) k v e) as [[s b]|]. Qed.

(** What each version computes from the results of its parts *)
Lemma store_rmap_erase {K X} `{EqK : EqDecision K} `{OrdK : PyOrd K} {LawK : PyOrdLaws K} now (s : TimedStorage2 K X) k v e :
  store now (erase s) k v e = rmap (fun p => (erase p.1, p.2)) (store2 now s k v e).
Proof. symmetry. apply store_erase. Qed.

(** The local storage of the second version, with its dictionaries, behaves like that of the first: every store has the same
    outcome and leads to the same state, up to the times of creation. *)
Theorem second_local_storage_equivalent (now : Z) (st : DHTLocalStorage2 Subkey V) (key : Z) (v : V) (e : Z) (sk : option Subkey) :
  rmap (fun p => (erase_local p.1, p.2)) (local_store2 now st key v e sk) = local_store now (erase_local st) key v e sk.
Proof.
  destruct sk as [sk|]; cbn [local_store2 local_store].
  2: { cbn [table erase_local]. rewrite store_rmap_erase. by destruct (store2 now (table2 st) key (Binary v) e) as [[tb ok]|]. }
  unfold store_subkey2, store_subkey. cbn [table erase_local objects]. rewrite <- get_erase. destruct (get2 now (table2 st) key) as [[tb p]|]; [|done]. cbn [erase_result rmap rbind].
  change (new_dictionary None) with (erase_dict (new_dictionary2 None)). rewrite <- dict_store_erase, length_map.
  set (create2 := rbind (dict_store2 _ _ _ _ _) _). set (create := rbind (rmap _ _) _).
  assert (Hc : rmap (fun p => (erase_local p.1, p.2)) create2 = create).
  { unfold create2, create. destruct (dict_store2 now (new_dictionary2 None) sk v e) as [[d b]|]; [|done]. cbn [rmap rbind fst snd].
    cbn [latest_expiration_time erase_dict]. rewrite store_rmap_erase. destruct (store2 now tb key _ _) as [[tb' ok]|]; [|done]. cbn. unfold erase_local. cbn. by rewrite map_app. }
  destruct p as [[[x|ref] pe pc]|]; cbn [fmap option_fmap option_map forget fst snd value2 expiration_time2]; [destruct (pe <? e); [exact Hc|done]| |exact Hc].
  change (map erase_dict (objects2 st)) with (erase_dict <$> objects2 st). rewrite list_lookup_fmap. destruct (objects2 st !! ref) as [d|] eqn:Eo; cbn [fmap option_fmap option_map of_option rbind]; [|reflexivity]. cbn [fmap option_fmap option_map of_option rbind].
  cbn [latest_expiration_time erase_dict]. rewrite <- dict_store_erase.
  assert (Ht : (if above e (latest_expiration_time2 d) then rmap fst (store now (erase tb) key (Dictionary ref) e) else Ok (erase tb)) =
    rmap erase (if above e (latest_expiration_time2 d) then rmap fst (store2 now tb key (Dictionary ref) e) else Ok tb)).
  { destruct (above _ _); [|done]. rewrite store_rmap_erase. by destruct (store2 now tb key (Dictionary ref) e) as [[tb' ok]|]. }
  cbn [fst]. rewrite Ht. clear Ht.
  destruct (if above e (latest_expiration_time2 d) then rmap fst (store2 now tb key (Dictionary ref) e) else Ok tb) as [tb'|]; cbn [rmap rbind]; [|reflexivity].
  destruct (dict_store2 now d sk v e) as [[d' ok]|]; [|done]. cbn. unfold erase_local. cbn. f_equal. f_equal. f_equal. apply (list_fmap_insert erase_dict).
Qed.

Lemma frozen_remove2 {K X} `{EqK : EqDecision K} now (s : TimedStorage2 K X) : frozen2 s = true -> remove_outdated2 now s = Ok s.
Proof. intros Hf. unfold remove_outdated2. destruct s as [fz ms d h k2h]. cbn in *. subst fz. by destruct h as [|[e k] h]. Qed.

(** The times of creation do not survive the wire: in an unpacked dictionary every entry counts as created when it was unpacked,
    although the packed form has the original times; [latest_created_at] is kept, and can then be earlier than the entries. *)
Theorem unpacking_renews_creation {Raw : Type} (loads : Raw -> result (option nat * option Z * option Z * list (Subkey * V * Z * Z)))
    (now : Z) (raw : Raw) size latest created its (d : DictionaryDHTValue2 Subkey V) :
  loads raw = Ok (size, latest, created, its) -> unpackb2 loads now raw = Ok d ->
  Forall (fun kx => created_at kx.2 = now) (data2 (entries2 d)) /\ latest_created_at d = created.
Proof.
  intros Hl. unfold unpackb2. rewrite Hl. cbn [rbind].
  set (P := fun d : DictionaryDHTValue2 Subkey V => frozen2 (entries2 d) = true /\ Forall (fun kx => created_at kx.2 = now) (data2 (entries2 d))).
  destruct (foldM_r_invariant P (fun d (it : Subkey * V * Z * Z) => let '(k, v, e, _) := it in rmap fst (dict_store2 now d k v e))) with (l := its)
    (s := mkDict2 (set_frozen2 (init2 false size) true) None None : DictionaryDHTValue2 Subkey V) as (d' & -> & Hf & Hd).
  - intros d0 [[[k v] e] c] [Hf Hd]. unfold dict_store2, store2. rewrite Hf, andb_false_r.
    assert (Hset : Forall (fun kx => created_at kx.2 = now) (dset (data2 (entries2 d0)) k (VWE2 v e now))).
    { clear -Hd. induction Hd as [|[k' x] l Hx Hl IH]; cbn; [by repeat constructor|]. destruct (decide (k' = k)); by constructor. }
    destruct (dget (data2 (entries2 d0)) k) as [old|].
    + destruct (expiration_time2 old <? e); cbn; eexists; (split; [reflexivity|]); by split.
    + rewrite frozen_remove2 by done. cbn. eexists. split; [reflexivity|]. by split.
  - split; [done|constructor].
  - cbn [rbind]. by intros [= <-].
Qed.
End LocalErasure.

(** *** Witnesses *)

Lemma unpacking_renews_creation_witness : exists d : DictionaryDHTValue2 Z Z,
  unpackb2 (fun x => Ok x) 50 (None, Some 90, Some 3, [(1, 7, 90, 3)]) = Ok d /\ Forall (fun kx => created_at kx.2 = 50) (data2 (entries2 d)).
Proof.
  eexists. split; [reflexivity|].
  eapply (unpacking_renews_creation (fun x => Ok x) 50 (None, Some 90, Some 3, [(1, 7, 90, 3)]) None (Some 90) (Some 3) [(1, 7, 90, 3)]); reflexivity.
Defined.
