(* ===== verification/Compression.v ===== *)
(** * Choosing a compression, descriptors and the arithmetic around them

    ([mesh/compression/base.py], [adaptive.py], [quantization.py], [mesh/utils/tensor_descr.py], [mesh/utils/math.py]).
    The averages of buckets are computed with rationals. *)

From Stdlib Require Import QArith Qfield ZifyBool.
From S2P Require Import Prelude DHTID Tensors Serializer.
Open Scope Z_scope.

(** ** [CompressionInfo] and the adaptive strategies *)

Inductive TensorRole : Type := ACTIVATION | PARAMETER | GRADIENT | OPTIMIZER | UNSPECIFIED.
#[export] Instance TensorRole_eq_dec : EqDecision TensorRole.
Proof. solve_decision. Defined.

Section Adaptive.
Context {Key : Type} `{EqDecision Key}.

Record CompressionInfo : Type := mkCInfo {
  key : Key; descriptor_shape : list Z; descriptor_dtype : dtype; role : TensorRole; part_index : Z; part_size : option Z }.
Definition get_part (i : CompressionInfo) (index : Z) (size : option Z) : CompressionInfo :=
  mkCInfo (key i) (descriptor_shape i) (descriptor_dtype i) (role i) index size.

(** A strategy: one of the basic ones, or an adaptive one that chooses among others *)
#[warnings="-register-all"] Inductive Strategy : Type :=
  | Basic (ty : CompressionType)
  | SizeAdaptive (threshold : Z) (less greater_equal : Strategy)
  | RoleAdaptive (role_compressions : list (TensorRole * Strategy))
  | PerTensor (tensor_compressions : list (Key * Strategy)).

(** [RoleAdaptiveCompression.__init__] *)
Definition make_role_adaptive (activation parameter gradient optimizer : option Strategy) (default_ : Strategy) : Strategy :=
  RoleAdaptive [(ACTIVATION, default default_ activation); (PARAMETER, default default_ parameter); (GRADIENT, default default_ gradient);
                (OPTIMIZER, default default_ optimizer); (UNSPECIFIED, default_)].

(** [compress] of a strategy calls the one it has chosen, which may choose again: the basic type in the end. *)
Fixpoint choose (s : Strategy) (i : CompressionInfo) : result CompressionType :=
  match s with
  | Basic ty => Ok ty
  | SizeAdaptive threshold less greater_equal => if threshold <=? numel (descriptor_shape i) then choose greater_equal i else choose less i
  | RoleAdaptive d => match dget (map (fun e => (e.1, choose e.2 i)) d) (role i) with Some r => r | None => Raise KeyError end
  | PerTensor d => match dget (map (fun e => (e.1, choose e.2 i)) d) (key i) with Some r => r | None => Raise KeyError end
  end.

Definition compress_with `{Numerics} (legacy on_cpu : bool) (s : Strategy) (i : CompressionInfo) (t : Torch) : result Tensor :=
  let* ty := choose s i in serialize_torch_tensor legacy on_cpu ty t.

(** [estimate_compression_ratio]; [torch.finfo] knows floating-point types only. *)
Definition basic_ratio (ty : CompressionType) (d : dtype) : result Q :=
  match ty with
  | NONE => Ok 1%Q
  | FLOAT16 | MEANSTD_16BIT => Ok (inject_Z 16 / inject_Z (get_num_bits d))%Q
  | _ => if is_floating_point d then Ok (inject_Z 8 / inject_Z (get_num_bits d))%Q else Raise TypeError
  end.
Definition estimate_compression_ratio (s : Strategy) (i : CompressionInfo) : result Q :=
  let* ty := choose s i in basic_ratio ty (descriptor_dtype i).
End Adaptive.

(** ** Quantization *)

Definition sumQ (xs : list Q) : Q := foldr Qplus 0%Q xs.
(** [torch.zeros(n_bins).scatter_add_(0, index, src)] at one bin, and [bincount] *)
Definition bin_sum (xs : list Q) (qs : list nat) (b : nat) : Q := sumQ (map fst (filter (fun p => p.2 = b) (zip xs qs))).
Definition bin_count (qs : list nat) (b : nat) : nat := length (filter (fun q => q = b) qs).
(** [average_buckets]: an index out of range is an error of PyTorch. *)
Definition average_buckets (xs : list Q) (qs : list nat) (n_bins : nat) : result (list Q) :=
  if forallb (fun q => (q <? n_bins)%nat) qs
  then Ok (map (fun b => bin_sum xs qs b / inject_Z (Z.of_nat (Nat.max (bin_count qs b) 1)))%Q (seq 0 n_bins))
  else Raise RuntimeError.

(** [get_chunk_size], and the number of chunks of [quantile_qq_approximation] *)
Definition get_chunk_size (num_elements min_chunk_size : Z) : result Z :=
  if num_elements <=? min_chunk_size then Ok min_chunk_size
  else if min_chunk_size =? 0 then Raise ZeroDivisionError
  else let leftover_elements := num_elements mod min_chunk_size in
       let num_chunks := num_elements / min_chunk_size in
       if num_chunks =? 0 then Raise ZeroDivisionError
       else Ok (min_chunk_size + (leftover_elements - 1) / num_chunks + 1).
Definition num_chunks (num_elements chunk_size : Z) : Z := (num_elements - 1) / chunk_size + 1.
(** The bounds of the slices of the array *)
Definition chunk_slices (num_elements chunk_size : Z) : list (Z * Z) :=
  map (fun i => (chunk_size * Z.of_nat i, Z.min (chunk_size * (Z.of_nat i + 1)) num_elements)) (seq 0 (Z.to_nat (num_chunks num_elements chunk_size))).

(** ** [get_flatten_greedy_dims] *)

(** The first index with the smallest product of neighbours *)
Fixpoint best_pair (dims : list Z) (i best : nat) (value : Z) : nat :=
  match dims with
  | a :: ((b :: _) as rest) => if a * b <? value then best_pair rest (S i) i (a * b) else best_pair rest (S i) best value
  | _ => best
  end.
Definition squeeze_ix (dims : list Z) : result nat :=
  match dims with a :: ((b :: _) as rest) => Ok (best_pair rest 1 0 (a * b)) | _ => Raise ValueError end.
(** [dims.pop(i)] and [dims[i] *= squeezed_dim] *)
Definition squeeze (dims : list Z) (i : nat) : list Z :=
  match drop i dims with a :: b :: rest => take i dims ++ (a * b) :: rest | _ => dims end.
Fixpoint flatten_loop (fuel : nat) (dims : list Z) (max_ndim : Z) : result (list Z) :=
  if max_ndim <? Z.of_nat (length dims) then
    match fuel with
    | O => Raise RuntimeError
    | S n => let* i := squeeze_ix dims in flatten_loop n (squeeze dims i) max_ndim
    end
  else Ok dims.
Definition get_flatten_greedy_dims (shape : list Z) (max_ndim : Z) : result (list Z) := flatten_loop (length shape) shape max_ndim.

(** ** [BatchTensorDescriptor] *)

Inductive layout : Type := strided | sparse_coo | sparse_csr.
Definition layout_name (l : layout) : string := match l with strided => "strided" | sparse_coo => "sparse_coo" | sparse_csr => "sparse_csr" end.
Definition layouts : list layout := [strided; sparse_coo; sparse_csr].

Section Descriptor.
Context {Obj Device : Type} `{Lib : MsgPack Obj} (reg : Registry).
(** [torch.device(type, index)] and the attributes of a device *)
Variable make_device : pyval Obj -> pyval Obj -> result Device.
Variable device_type device_index : Device -> pyval Obj.

Record BatchTensorDescriptor : Type := mkDescr {
  d_size : list (pyval Obj);    (* without the first dimension, which is [None] *)
  d_dtype : option dtype; d_layout : option layout; d_device : option Device;
  d_requires_grad : pyval Obj; d_pin_memory : pyval Obj; d_compression : pyval Obj }.

Definition k (s : string) : dkey := KStr (lit s).
Definition torch_name (s : string) : pyval Obj := PStr (lit "torch." ++ lit s).

(** [packb]: the dictionary of the fields, with the device in two parts *)
Definition descriptor_dict (d : BatchTensorDescriptor) : list (dkey * pyval Obj) :=
  [(k "size", PTuple (PNone :: d_size d)); (k "dtype", match d_dtype d with Some t => torch_name (dtype_name t) | None => PNone end);
   (k "layout", match d_layout d with Some l => torch_name (layout_name l) | None => PNone end);
   (k "requires_grad", d_requires_grad d); (k "pin_memory", d_pin_memory d); (k "compression", d_compression d);
   (k "device_type", match d_device d with Some v => device_type v | None => PNone end);
   (k "device_index", match d_device d with Some v => device_index v | None => PNone end)].
Definition descriptor_packb (d : BatchTensorDescriptor) : result bytes := dumps reg (PDict (descriptor_dict d)).

(** [name.split(".")[-1]] *)
Fixpoint last_component (s acc : list Z) : list Z := match s with [] => acc | c :: s' => if c =? 46 then last_component s' [] else last_component s' (acc ++ [c]) end.
(** [_str_to_torch_type], for a table of names *)
Definition str_to_torch_type {A} (names : list (string * A)) (name : list Z) : result A :=
  of_option ValueError (option_map snd (find (fun e => bool_decide (lit e.1 = last_component name [])) names)).
Definition named {A} (names : list (string * A)) (v : pyval Obj) : result (option A) :=
  match v with PNone => Ok None | PStr s => rmap Some (str_to_torch_type names s) | _ => Raise AttributeError end.

Definition is_none (v : pyval Obj) : bool := match v with PNone => true | _ => false end.
Definition INIT_KEYWORDS : list dkey := map k ["dtype"; "layout"; "device"; "requires_grad"; "pin_memory"; "compression"]%string.

(** [unpackb] *)
Definition descriptor_unpackb (raw : bytes) : result BatchTensorDescriptor :=
  let* v := loads reg raw in
  match v with
  | PDict od =>
      let* dt := dgetitem od (k "dtype") in
      let* dt := named (map (fun d => (dtype_name d, d)) dtypes) dt in
      let* lay := dgetitem od (k "layout") in
      let* lay := named (map (fun l => (layout_name l, l)) layouts) lay in
      let* ty := dgetitem od (k "device_type") in
      let* dev := (if is_none ty then Ok None else let* ix := dgetitem od (k "device_index") in rmap Some (make_device ty ix)) in
      let* od := pydel od (k "device_type") in
      let* od := pydel od (k "device_index") in
      let* size := dgetitem od (k "size") in
      let* size := match size with PTuple l | PList l => Ok (tail l) | _ => Raise TypeError end in
      let od := ddel od (k "size") in
      let size := match size with [PList l] | [PTuple l] => l | _ => size end in
      if forallb (fun e => bool_decide (e.1 ∈ INIT_KEYWORDS)) od then
        let field name dflt := default dflt (dget od (k name)) in
        Ok (mkDescr size dt lay dev (field "requires_grad"%string (PBool false)) (field "pin_memory"%string (PBool false)) (field "compression"%string (PInt 0)))
      else Raise TypeError
  | _ => Raise TypeError
  end.
End Descriptor.

(** ** Theorems *)

(** Messages say how they were compressed: whatever an adaptive strategy chooses, the message names the chosen type, the shape, the
    element type and the gradient flag of the tensor, so that the receiver, who does not know the strategy, extracts it accordingly. *)
Theorem adaptive_self_describing {Key : Type} `{EqDecision Key} `{Numerics} (legacy on_cpu : bool) (s : Strategy (Key := Key)) (i : CompressionInfo (Key := Key)) (t : Torch) (m : Tensor) :
  compress_with legacy on_cpu s i t = Ok m ->
  choose s i = Ok (compression m) /\ size m = shape t /\ dtype_ m = dtype_name (t_dtype t) /\ requires_grad m = t_grad t.
Proof.
  unfold compress_with. destruct (choose s i) as [ty|]; [|done]. cbn [rbind]. unfold serialize_torch_tensor. destruct on_cpu; [|done]. cbn [py_assert rbind].
  destruct ty; unfold compress_none, compress_float16, compress_meanstd, compress_quantization, compress_blockwise; intros Hm.
  - by injection Hm as <-.
  - destruct (_ || _); [done|]. destruct (shape t) eqn:Es; [done|]. destruct (mean_std _ _) as [[ys ms] ss]. by injection Hm as <-.
  - destruct (_ || _); [done|]. by injection Hm as <-.
  - destruct (negb _); [done|]. destruct (quantize QUANTILE_8BIT t) as [[q c]|]; [|done]. by injection Hm as <-.
  - destruct (negb _); [done|]. destruct (quantize UNIFORM_8BIT t) as [[q c]|]; [|done]. by injection Hm as <-.
  - destruct (quantize_blockwise _) as [[q a] c]. by injection Hm as <-.
Qed.

(** *** Averages *)

Lemma sumQ_cons x xs : sumQ (x :: xs) = (x + sumQ xs)%Q.
Proof. done. Qed.

Lemma sumQ_app xs ys : (sumQ (xs ++ ys) == sumQ xs + sumQ ys)%Q.
Proof. induction xs as [|x xs IH]; [change (sumQ ([] ++ ys)) with (sumQ ys); change (sumQ []) with 0%Q; ring|]. change ((x :: xs) ++ ys) with (x :: (xs ++ ys)). rewrite !sumQ_cons, IH. ring. Qed.

(** The sum over the bins of one value per element *)
Lemma sum_over_bins (f : nat -> Q) (qs : list nat) (n : nat) : Forall (fun q => (q < n)%nat) qs ->
  (sumQ (map f qs) == sumQ (map (fun b => inject_Z (Z.of_nat (bin_count qs b)) * f b) (seq 0 n)))%Q.
Proof.
  intros Hq. induction Hq as [|q qs Hlt Hq IH].
  - change (sumQ (map f [])) with 0%Q. induction (seq 0 n) as [|b bs IHb]; [reflexivity|]. cbn [map]. rewrite sumQ_cons, <- IHb.
    change (inject_Z (Z.of_nat (bin_count [] b))) with 0%Q. ring.
  - cbn [map]. rewrite sumQ_cons, IH. clear IH Hq.
    assert (Hgen : forall bs, NoDup bs ->
      (sumQ (map (fun b => inject_Z (Z.of_nat (bin_count (q :: qs) b)) * f b) bs) ==
       (if decide (q ∈ bs) then f q else 0) + sumQ (map (fun b => inject_Z (Z.of_nat (bin_count qs b)) * f b) bs))%Q).
    { induction bs as [|b bs IHb]; intros Hn; [rewrite decide_False by apply not_elem_of_nil; change (sumQ (map _ [])) with 0%Q; ring|].
      apply NoDup_cons in Hn as [Hb Hn]. cbn [map]. rewrite !sumQ_cons, (IHb Hn).
      unfold bin_count. rewrite filter_cons. destruct (decide (q = b)) as [-> |Hne].
      - rewrite decide_False by done. rewrite decide_True by (by left). cbn [length]. rewrite Nat2Z.inj_succ. unfold Z.succ. rewrite inject_Z_plus. ring.
      - destruct (decide (q ∈ bs)) as [Hin|Hin]; [rewrite decide_True by (by right)|rewrite decide_False by (intros [?|?]%elem_of_cons; done)]; ring. }
    rewrite (Hgen (seq 0 n) (NoDup_seq _ _)). rewrite decide_True by (apply elem_of_seq; lia). ring.
Qed.

Lemma bin_sum_cons x q xs qs b : (bin_sum (x :: xs) (q :: qs) b == (if decide (q = b) then x else 0) + bin_sum xs qs b)%Q.
Proof. unfold bin_sum. cbn [zip zip_with]. rewrite filter_cons. cbn [snd]. case_decide; cbn [map]; [rewrite sumQ_cons; cbn [fst]; ring|ring]. Qed.

Lemma sum_of_bins (xs : list Q) (qs : list nat) (n : nat) : length xs = length qs -> Forall (fun q => (q < n)%nat) qs ->
  (sumQ (map (bin_sum xs qs) (seq 0 n)) == sumQ xs)%Q.
Proof.
  intros Hl Hq. revert xs Hl. induction Hq as [|q qs Hlt Hq IH]; intros [|x xs] Hl; try done.
  - induction (seq 0 n) as [|b bs IHb]; [done|]. cbn [map]. rewrite sumQ_cons, IHb. reflexivity.
  - rewrite sumQ_cons, <- (IH xs) by (cbn in Hl; lia).
    assert (Hgen : forall bs, NoDup bs -> (sumQ (map (bin_sum (x :: xs) (q :: qs)) bs) == (if decide (q ∈ bs) then x else 0) + sumQ (map (bin_sum xs qs) bs))%Q).
    { induction bs as [|b bs IHb]; intros Hn; [rewrite decide_False by apply not_elem_of_nil; change (sumQ (map _ [])) with 0%Q; ring|]. apply NoDup_cons in Hn as [Hb Hn]. cbn [map]. rewrite !sumQ_cons, (IHb Hn), bin_sum_cons.
      destruct (decide (q = b)) as [-> |Hne]; [rewrite decide_False by done; rewrite decide_True by (by left); ring|].
      destruct (decide (q ∈ bs)) as [Hin|Hin]; [rewrite decide_True by (by right)|rewrite decide_False by (intros [?|?]%elem_of_cons; done)]; ring. }
    rewrite (Hgen (seq 0 n) (NoDup_seq _ _)). rewrite decide_True by (apply elem_of_seq; lia). reflexivity.
Qed.

Lemma bin_sum_empty xs qs b : bin_count qs b = 0%nat -> (bin_sum xs qs b == 0)%Q.
Proof.
  unfold bin_count, bin_sum. revert xs. induction qs as [|q qs IH]; intros [|x xs] Hb; try reflexivity. cbn [zip zip_with]. rewrite filter_cons in Hb. rewrite filter_cons. cbn [snd].
  destruct (decide (q = b)); [done|]. by apply IH.
Qed.

(** Quantization by averages keeps the total, and so the mean: the sum of the restored values equals the sum of the elements; an empty
    bucket has the value 0. *)
Theorem averages_keep_the_sum (xs : list Q) (qs : list nat) (n : nat) : length xs = length qs -> Forall (fun q => (q < n)%nat) qs ->
  exists codebook, average_buckets xs qs n = Ok codebook /\ length codebook = n /\
    (sumQ (map (fun q => nth q codebook 0) qs) == sumQ xs)%Q /\ (forall b, (b < n)%nat -> bin_count qs b = 0%nat -> (nth b codebook 0 == 0)%Q).
Proof.
  intros Hl Hq. unfold average_buckets. rewrite (proj2 (forallb_forall _ _)).
  2: { intros q Hin. apply list_elem_of_In in Hin. rewrite Forall_forall in Hq. apply Nat.ltb_lt, Hq, Hin. }
  set (f := fun b => (bin_sum xs qs b / inject_Z (Z.of_nat (Nat.max (bin_count qs b) 1)))%Q). eexists. split; [reflexivity|]. split; [by rewrite length_map, length_seq|].
  assert (Hnth : forall b, (b < n)%nat -> nth b (map f (seq 0 n)) 0%Q = f b).
  { intros b Hb. rewrite (nth_indep _ 0%Q (f 0%nat)) by (by rewrite length_map, length_seq). rewrite map_nth. by rewrite seq_nth. }
  split.
  - assert (Hm : map (fun q => nth q (map f (seq 0 n)) 0%Q) qs = map f qs).
    { apply map_ext_in. intros q Hin. apply Hnth. apply list_elem_of_In in Hin. rewrite Forall_forall in Hq. by apply Hq. }
    rewrite Hm, (sum_over_bins f qs n Hq), <- (sum_of_bins xs qs n Hl Hq).
    clear Hm Hnth. induction (seq 0 n) as [|b bs IH]; [reflexivity|]. cbn [map]. rewrite !sumQ_cons, IH. apply Qplus_comp; [|reflexivity]. unfold f.
    destruct (bin_count qs b) as [|c] eqn:Ec; [rewrite (bin_sum_empty xs qs b Ec); change (inject_Z (Z.of_nat 0)) with 0%Q; unfold Qdiv; ring|]. rewrite Nat.max_l by lia. field. intros Hz. unfold Qeq in Hz. cbn in Hz. lia.
  - intros b Hb Hc. rewrite (Hnth b Hb). unfold f. rewrite (bin_sum_empty xs qs b Hc). rewrite Hc. reflexivity.
Qed.

(** *** Chunks *)

(** The chunks of the quantile estimate cover the array without gaps or overlaps: there is at least one, every one is non-empty, each
    begins where the one before ends, the first at 0 and the last ends with the array; none is smaller than the minimum but the last, and there are
    at most as many as the minimum allows. *)
Theorem quantile_chunks_partition (n m : Z) : 0 < n -> 0 < m ->
  exists c, get_chunk_size n m = Ok c /\ m <= c /\ let k := num_chunks n c in
    1 <= k /\ k <= Z.max 1 (n / m) /\ length (chunk_slices n c) = Z.to_nat k /\
    forall i, 0 <= i < k -> exists hi, chunk_slices n c !! Z.to_nat i = Some (c * i, hi) /\ c * i < hi <= n /\
      (i + 1 < k -> hi = c * (i + 1)) /\ (i + 1 = k -> hi = n).
Proof.
  intros Hn Hm. unfold get_chunk_size. assert (Hc : exists c, (if n <=? m then Ok m else if m =? 0 then Raise ZeroDivisionError else
    if n / m =? 0 then Raise ZeroDivisionError else Ok (m + (n mod m - 1) / (n / m) + 1)) = Ok c /\ m <= c /\ (n <= m \/ n <= (n / m) * c)).
  { destruct (Z.leb_spec n m) as [Hle|Hlt]; [exists m; split; [done|lia]|]. replace (m =? 0) with false by lia.
    assert (Hq : 1 <= n / m) by (apply Z.div_le_lower_bound; lia). replace (n / m =? 0) with false by lia.
    eexists. split; [reflexivity|]. pose proof (Z.div_mod n m) as Hd. pose proof (Z.mod_pos_bound n m Hm) as Hr.
    pose proof (Z.div_mod (n mod m - 1) (n / m)) as Hd2. pose proof (Z.mod_pos_bound (n mod m - 1) (n / m)) as Hr2.
    assert (-1 <= (n mod m - 1) / (n / m)) by (apply Z.div_le_lower_bound; lia). split; [lia|right; nia]. }
  destruct Hc as (c & Hc & Hmc & Hcap). exists c. cbv zeta. split; [exact Hc|]. split; [exact Hmc|]. clear Hc.
  assert (Hk1 : 0 <= (n - 1) / c) by (apply Z.div_pos; lia). assert (Hkc : forall i, i < num_chunks n c <-> c * i < n).
  { intros i. unfold num_chunks. pose proof (Z.div_mod (n - 1) c). pose proof (Z.mod_pos_bound (n - 1) c). nia. }
  split; [unfold num_chunks; lia|]. split.
  { destruct Hcap as [Hcap|Hcap]; [unfold num_chunks; rewrite Z.div_small by lia; lia|]. apply Z.le_trans with (n / m); [|lia].
    destruct (Z.le_gt_cases (num_chunks n c) (n / m)) as [|Hgt]; [done|]. apply Hkc in Hgt. nia. }
  unfold chunk_slices. split; [by rewrite length_map, length_seq|]. intros i Hi.
  exists (Z.min (c * (i + 1)) n). change (map ?f ?l) with (f <$> l). rewrite list_lookup_fmap, lookup_seq_lt by lia. cbn [fmap option_fmap option_map Nat.add].
  rewrite Z2Nat.id by lia. split; [done|]. pose proof (proj1 (Hkc i) (proj2 Hi)) as Hlo. split; [split; [apply Z.min_glb_lt; nia|lia]|]. split.
  - intros Hi1. apply Hkc in Hi1. lia.
  - intros Hi1. apply Z.min_r. destruct (Z.le_gt_cases n (c * (i + 1))) as [|Hgt]; [done|]. apply Hkc in Hgt. lia.
Qed.

(** *** Dimensions *)

Lemma best_pair_lt dims i best value : (best < i)%nat -> (best_pair dims i best value < i + (length dims - 1))%nat \/ best_pair dims i best value = best.
Proof.
  revert i best value. induction dims as [|a [|b rest] IH]; intros i best value Hb; [by right|by right|].
  change (best_pair (a :: b :: rest) i best value) with (if a * b <? value then best_pair (b :: rest) (S i) i (a * b) else best_pair (b :: rest) (S i) best value).
  destruct (a * b <? value).
  - left. destruct (IH (S i) i (a * b)) as [Hl|Hl]; [lia| |]; cbn [length] in *; lia.
  - destruct (IH (S i) best value) as [Hl|Hl]; [lia| |by right]. left. cbn [length] in *. lia.
Qed.

Lemma squeeze_ix_lt dims : (2 <= length dims)%nat -> exists i, squeeze_ix dims = Ok i /\ (S i < length dims)%nat.
Proof.
  destruct dims as [|a [|b rest]]; cbn [length]; try lia. intros _. eexists. split; [reflexivity|].
  destruct (best_pair_lt (b :: rest) 1 0 (a * b)) as [Hl|Hl]; cbn [length] in *; lia.
Qed.

Lemma squeeze_spec dims i : (S i < length dims)%nat -> S (length (squeeze dims i)) = length dims /\ numel (squeeze dims i) = numel dims.
Proof.
  intros Hi. unfold squeeze. replace (length dims) with (length (take i dims ++ drop i dims)) by (by rewrite take_drop).
  replace (numel dims) with (numel (take i dims ++ drop i dims)) by (by rewrite take_drop). assert (Hd : (2 <= length (drop i dims))%nat) by (rewrite length_drop; lia).
  destruct (drop i dims) as [|a [|b rest]] eqn:E; cbn [length] in Hd; try lia. rewrite !length_app. cbn [length]. split; [lia|].
  unfold numel. rewrite !foldr_app. f_equal. cbn. lia.
Qed.

(** [get_flatten_greedy_dims] ends, and merges neighbouring axes until at most [max_ndim] are left: the number of elements is kept, and a shape
    with few axes is left as it is.  A shape cannot be merged to no axes at all: that raises [ValueError]. *)
Theorem flatten_dims_correct (shape : list Z) (max_ndim : Z) :
  (1 <= max_ndim -> exists dims, get_flatten_greedy_dims shape max_ndim = Ok dims /\ numel dims = numel shape /\
     length dims = Nat.min (length shape) (Z.to_nat max_ndim) /\ (Z.of_nat (length shape) <= max_ndim -> dims = shape)) /\
  (max_ndim <= 0 -> shape <> [] -> get_flatten_greedy_dims shape max_ndim = Raise ValueError).
Proof.
  unfold get_flatten_greedy_dims. split.
  - intros Hm. assert (Hgen : forall fuel dims, (length dims <= fuel)%nat -> exists r, flatten_loop fuel dims max_ndim = Ok r /\ numel r = numel dims /\
      length r = Nat.min (length dims) (Z.to_nat max_ndim) /\ (Z.of_nat (length dims) <= max_ndim -> r = dims)).
    { induction fuel as [|n IH]; intros dims Hf.
      - destruct dims; [|cbn in Hf; lia]. exists []. unfold flatten_loop. replace (max_ndim <? Z.of_nat (length [])) with false by (cbn [length]; lia). split_and!; [done|done|cbn; lia|done].
      - cbn [flatten_loop]. destruct (Z.ltb_spec max_ndim (Z.of_nat (length dims))) as [Hlt|Hge]; [|exists dims; split_and!; [done|done|lia|done]].
        destruct (squeeze_ix_lt dims) as (i & -> & Hi); [lia|]. cbn [rbind]. destruct (squeeze_spec dims i Hi) as [Hl Hn].
        destruct (IH (squeeze dims i)) as (r & Hr & Hnr & Hlr & _); [lia|]. exists r. split_and!; [done|congruence|lia|lia]. }
    destruct (Hgen (length shape) shape) as (r & H1 & H2 & H3 & H4); [lia|]. by exists r.
  - intros Hm Hne. assert (Hgen : forall fuel dims, (1 <= length dims <= fuel)%nat -> flatten_loop fuel dims max_ndim = Raise ValueError).
    { induction fuel as [|n IH]; intros dims Hf; [lia|]. cbn [flatten_loop]. replace (max_ndim <? Z.of_nat (length dims)) with true by lia.
      destruct (decide (length dims = 1)%nat) as [E|E].
      - destruct dims as [|a [|b rest]]; cbn in *; try lia. done.
      - destruct (squeeze_ix_lt dims) as (i & -> & Hi); [lia|]. cbn [rbind]. destruct (squeeze_spec dims i Hi) as [Hl _]. apply IH. lia. }
    apply Hgen. destruct shape; [done|cbn; lia].
Qed.

(** *** Descriptors *)

Section DescriptorRoundTrip.
Context {Obj Device : Type} `{Laws : MsgPackLaws Obj} (reg : Registry).
Variable make_device : pyval Obj -> pyval Obj -> result Device.
Variable device_type device_index : Device -> pyval Obj.
Abbreviation Descr := (BatchTensorDescriptor (Obj := Obj) (Device := Device)).

(** The fields as PyTorch has them: sizes are integers, a device is made from its type and index. *)
Definition proper_descriptor (d : Descr) : Prop :=
  Forall (fun v => exists n, v = PInt n) (d_size d) /\ val_keys (d_requires_grad d) /\ val_keys (d_pin_memory d) /\ val_keys (d_compression d) /\
  match d_device d with
  | Some v => is_none (device_type v) = false /\ make_device (device_type v) (device_index v) = Ok v /\ val_keys (device_type v) /\ val_keys (device_index v)
  | None => True
  end.

Lemma named_dtype (o : option dtype) : named (Obj := Obj) (map (fun d => (dtype_name d, d)) dtypes) (match o with Some t => torch_name (dtype_name t) | None => PNone end) = Ok o.
Proof. destruct o as [[]|]; vm_compute; reflexivity. Qed.

Lemma named_layout (o : option layout) : named (Obj := Obj) (map (fun l => (layout_name l, l)) layouts) (match o with Some l => torch_name (layout_name l) | None => PNone end) = Ok o.
Proof. destruct o as [[]|]; vm_compute; reflexivity. Qed.

Lemma descriptor_keys (d : Descr) : proper_descriptor d -> val_keys (PDict (descriptor_dict device_type device_index d)).
Proof.
  intros (Hs & Hg & Hp & Hc & Hd). cbn [val_keys]. split.
  - split; [apply (bool_decide_unpack _); vm_compute; exact I|repeat constructor].
  - cbn. split.
    { split; [exact I|]. apply foldr_and_map. eapply Forall_impl; [exact Hs|]. by intros v [n ->]. }
    destruct (d_dtype d), (d_layout d), (d_device d) as [v|]; try destruct Hd as (_ & _ & Hd1 & Hd2); repeat split; done.
Qed.

(** A descriptor survives its wire format: unpacking what [packb] has written gives the same sizes, element type, layout, device
    and flags. *)
Theorem descriptor_roundtrip (d : Descr) (raw : bytes) : registry_ok reg -> proper_descriptor d ->
  descriptor_packb reg device_type device_index d = Ok raw -> descriptor_unpackb reg make_device raw = Ok d.
Proof.
  intros Hr Hd Hp. unfold descriptor_unpackb. unfold descriptor_packb in Hp. assert (Hl : loads reg raw = Ok (PDict (descriptor_dict device_type device_index d))).
  { unfold dumps in Hp. destruct (encode reg _) as [m|] eqn:He; [|done]. cbn [rbind] in Hp. apply (unpack_encode reg _ Hr _ m raw); [by apply descriptor_keys|done|done|lia]. }
  rewrite Hl. cbn [rbind]. destruct Hd as (Hs & _ & _ & _ & Hd).
  change (dgetitem (descriptor_dict device_type device_index d) (k "dtype")) with (Ok (match d_dtype d with Some t => torch_name (Obj := Obj) (dtype_name t) | None => PNone end)).
  cbn [rbind]. rewrite named_dtype. cbn [rbind].
  change (dgetitem (descriptor_dict device_type device_index d) (k "layout")) with (Ok (match d_layout d with Some l => torch_name (Obj := Obj) (layout_name l) | None => PNone end)).
  cbn [rbind]. rewrite named_layout. cbn [rbind].
  change (dgetitem (descriptor_dict device_type device_index d) (k "device_type")) with (Ok (match d_device d with Some v => device_type v | None => PNone end)). cbn [rbind].
  change (dgetitem (descriptor_dict device_type device_index d) (k "device_index")) with (Ok (match d_device d with Some v => device_index v | None => PNone end)).
  assert (Hdev : (if is_none match d_device d with Some v => device_type v | None => PNone end then Ok None
     else let* ix := Ok (match d_device d with Some v => device_index v | None => PNone end) in rmap Some (make_device match d_device d with Some v => device_type v | None => PNone end ix)) = Ok (d_device d)).
  { destruct (d_device d) as [v|]; [|done]. destruct Hd as (Hn & Hm & _). rewrite Hn. cbn. by rewrite Hm. }
  rewrite Hdev. cbn [rbind]. change (pydel (descriptor_dict device_type device_index d) (k "device_type")) with (Ok (take 6 (descriptor_dict device_type device_index d) ++ drop 7 (descriptor_dict device_type device_index d))).
  cbn [rbind]. change (pydel (take 6 _ ++ drop 7 _) (k "device_index")) with (Ok (take 6 (descriptor_dict device_type device_index d))). cbn [rbind].
  change (dgetitem (take 6 _) (k "size")) with (Ok (PTuple (PNone :: d_size d))). cbn [rbind tail].
  replace (match d_size d with [PList l] | [PTuple l] => l | _ => d_size d end) with (d_size d).
  2: { destruct (d_size d) as [|v [|w l]]; [done| |by destruct v]. inversion_clear Hs as [|? ? [n ->] _]. done. }
  change (forallb _ _) with true. cbn iota. by destruct d.
Qed.
End DescriptorRoundTrip.

(** *** Witnesses *)

Definition toy_cinfo : CompressionInfo (Key := Z) := mkCInfo 3 [2; 2] float32 GRADIENT 0 None.
Definition toy_strategy : Strategy (Key := Z) := make_role_adaptive None None (Some (SizeAdaptive 4 (Basic NONE) (Basic MEANSTD_16BIT))) None (Basic FLOAT16).
Definition toy_message : Tensor := match compress_with true true toy_strategy toy_cinfo toy_floats with Ok m => m | Raise _ => part [] end.
Lemma adaptive_self_describing_witness : choose toy_strategy toy_cinfo = Ok MEANSTD_16BIT.
Proof.
  assert (H : compress_with true true toy_strategy toy_cinfo toy_floats = Ok toy_message) by (vm_compute; reflexivity).
  destruct (adaptive_self_describing true true toy_strategy toy_cinfo toy_floats toy_message H) as [Hc _]. exact Hc.
Defined.

Lemma averages_keep_the_sum_witness : exists codebook, average_buckets [1; 2; 6]%Q [0; 0; 2]%nat 3 = Ok codebook /\
  (sumQ (map (fun q => nth q codebook 0) [0; 0; 2]%nat) == sumQ [1; 2; 6])%Q.
Proof.
  destruct (averages_keep_the_sum [1; 2; 6]%Q [0; 0; 2]%nat 3) as (c & H1 & _ & H2 & _); [reflexivity|repeat constructor|]. exists c. split; [exact H1|exact H2].
Defined.

Lemma quantile_chunks_partition_witness : exists c, get_chunk_size 250 100 = Ok c /\ 100 <= c.
Proof. destruct (quantile_chunks_partition 250 100) as (c & H1 & H2 & _); [lia|lia|]. exists c. split; [exact H1|exact H2]. Defined.

Lemma flatten_dims_correct_witness : exists dims, get_flatten_greedy_dims [2; 3; 4; 5] 2 = Ok dims /\ numel dims = 120.
Proof. destruct (flatten_dims_correct [2; 3; 4; 5] 2) as [H _]. destruct (H ltac:(lia)) as (dims & H1 & H2 & _). exists dims. split; [exact H1|exact H2]. Defined.
