(* ===== verification/AsyncTools.v ===== *)
(** * Asynchronous iterators ([mesh/utils/asyncio.py])

    What an asynchronous iterable will do is a [stream]: its items, and the exception at its end, if any.  The combinators without
    state are functions on streams; [amap_in_executor] and [async_tee], which start tasks, are state machines whose steps
    are what the event loop may run next. *)

From S2P Require Import Prelude.

Section Combinators.
Context {A : Type}.

Record stream (X : Type) : Type := mkStream { produced : list X; fails : option exn }.
Arguments mkStream {X}.
Arguments produced {X}.
Arguments fails {X}.

Definition iter_as_aiter (iterable : list A) : stream A := mkStream iterable None.

(** [achain]: the first failure ends it. *)
Fixpoint achain (async_iters : list (stream A)) : stream A :=
  match async_iters with
  | [] => mkStream [] None
  | s :: rest =>
      match fails s with
      | Some e => mkStream (produced s) (Some e)
      | None => let t := achain rest in mkStream (produced s ++ produced t) (fails t)
      end
  end.

Fixpoint enumerate_from (index : Z) (l : list A) : list (Z * A) := match l with [] => [] | x :: l' => (index, x) :: enumerate_from (index + 1) l' end.
Definition aenumerate (aiterable : stream A) : stream (Z * A) := mkStream (enumerate_from 0 (produced aiterable)) (fails aiterable).

(** [azip]: all iterators advance together; when some end or fail in the same round, the one that is first ([pick] among their ends, in
    the order of the iterators) decides.  Without iterators there is no end. *)
Definition row {X} (ss : list (stream X)) : option (list X) := mapM (fun s => head (produced s)) ss.
Definition advance {X} (s : stream X) : stream X := mkStream (tail (produced s)) (fails s).
Definition ends {X} (ss : list (stream X)) : list (option exn) := map fails (filter (fun s => produced s = []) ss).
Fixpoint azip (fuel : nat) (pick : list (option exn) -> option exn) (ss : list (stream A)) : stream (list A) :=
  match fuel with
  | O => mkStream [] None
  | S n =>
      match row ss with
      | Some xs => let t := azip n pick (map advance ss) in mkStream (xs :: produced t) (fails t)
      | None => mkStream [] (pick (ends ss))
      end
  end.

(** [aiter_with_timeout]: every item comes with the time it takes; [last] is the time until the end is known. *)
Fixpoint aiter_with_timeout (timeout : option Z) (items : list (Z * A)) (last : Z) (failure : option exn) : stream A :=
  let late delay := match timeout with Some t => t <? delay | None => false end in
  match items with
  | [] => mkStream [] (if late last then Some TimeoutError else failure)
  | (delay, x) :: rest =>
      if late delay then mkStream [] (Some TimeoutError)
      else let t := aiter_with_timeout timeout rest last failure in mkStream (x :: produced t) (fails t)
  end.

(** [attach_event_on_finished]: the consumer asks for [asked] items (the end counts as one) and then closes the generator, or drops it; a generator that never
    started has no [finally] to run.  What the consumer gets, and whether the event is set once it has closed. *)
Definition attach_event_on_finished (s : stream A) (asked : nat) : list A * bool := (take asked (produced s), bool_decide (0 < asked)%nat).

(** [await_cancelled]: how the awaitable ends *)
Definition await_cancelled {B} (r : result B) : bool := match r with Raise CancelledError => true | _ => false end.
(** [cancel_and_wait]: [None] if it was already done, else what it makes of the cancellation *)
Definition cancel_and_wait {B} (done : option (result B)) (cancelled : result B) : bool := await_cancelled (default cancelled done).
(** [cancel_task_if_running]: whether the task is cancelled; [loop] is what [get_event_loop] gives: running or not, or an error with "Event loop is closed" or another one. *)
Inductive loop_state : Type := LoopRunning | LoopIdle | LoopClosed | LoopError (e : exn).
Definition cancel_task_if_running (task_done : option bool) (loop : loop_state) : result bool :=
  match task_done with
  | Some false => match loop with LoopRunning => Ok true | LoopIdle | LoopClosed => Ok false | LoopError e => Raise e end
  | _ => Ok false
  end.
End Combinators.
Arguments stream : clear implicits.
Arguments mkStream {X}.
Arguments produced {X}.
Arguments fails {X}.

(** ** [amap_in_executor] *)

Section Amap.
Context {Args T : Type} (func : Args -> result T) (source : stream Args) (max_prefetch : nat).

(** What the queue holds: the future of a job, by its number; [None], the end; a future that has failed already. *)
Inductive qitem : Type := QJob (i : nat) | QEnd | QFailed (e : exn).
(** [_put_items]: about to ask for arguments; about to put an item; done *)
Inductive producer : Type := PNext | PPut (q : qitem) | PDone.
(** The generator: about to take from the queue; awaiting a future; suspended at its [yield]; over *)
Inductive consumer : Type := CGet | CAwait (q : qitem) | CYield | COver (r : result unit).

Record Amap : Type := mkAmap { submitted : nat; finished : list nat; queue : list qitem; prod : producer; cons_ : consumer; yielded : list T }.
Definition start_amap : Amap := mkAmap 0 [] [] PNext CGet [].

(** [asyncio.Queue(max_prefetch)] without a positive size is unbounded. *)
Definition queue_full (q : list qitem) : bool := (0 <? max_prefetch)%nat && (max_prefetch <=? length q)%nat.

(** The task that reads the arguments: [run_in_executor] starts the job, then the future waits for a place in the queue. *)
Definition produce (s : Amap) : option Amap :=
  match prod s with
  | PNext =>
      match produced source !! submitted s with
      | Some _ => Some (mkAmap (S (submitted s)) (finished s) (queue s) (PPut (QJob (submitted s))) (cons_ s) (yielded s))
      | None =>
          let q := match fails source with Some e => QFailed e | None => QEnd end in
          Some (mkAmap (submitted s) (finished s) (queue s) (PPut q) (cons_ s) (yielded s))
      end
  | PPut q =>
      if queue_full (queue s) then None
      else let next := match q with QJob _ => PNext | _ => PDone end in
           Some (mkAmap (submitted s) (finished s) (queue s ++ [q]) next (cons_ s) (yielded s))
  | PDone => None
  end.

(** A job ends in its thread. *)
Definition finish_job (i : nat) (s : Amap) : option Amap :=
  if (i <? submitted s)%nat && negb (bool_decide (i ∈ finished s))
  then Some (mkAmap (submitted s) (i :: finished s) (queue s) (prod s) (cons_ s) (yielded s)) else None.

Definition set_cons (s : Amap) (c : consumer) (q : list qitem) (ys : list T) : Amap := mkAmap (submitted s) (finished s) q (prod s) c ys.

(** The generator, which its user resumes after a [yield]. *)
Definition consume (s : Amap) : option Amap :=
  match cons_ s with
  | CGet =>
      match queue s with
      | [] => None
      | QEnd :: q => Some (set_cons s (COver (Ok tt)) q (yielded s))
      | x :: q => Some (set_cons s (CAwait x) q (yielded s))
      end
  | CAwait (QJob i) =>
      if bool_decide (i ∈ finished s) then
        match produced source !! i with
        | Some a => match func a with
                    | Ok y => Some (set_cons s CYield (queue s) (yielded s ++ [y]))
                    | Raise e => Some (set_cons s (COver (Raise e)) (queue s) (yielded s))
                    end
        | None => None
        end
      else None
  | CAwait (QFailed e) => Some (set_cons s (COver (Raise e)) (queue s) (yielded s))
  | CAwait QEnd => None
  | CYield => Some (set_cons s CGet (queue s) (yielded s))
  | COver _ => None
  end.

Inductive amap_step : Amap -> Amap -> Prop :=
  | step_produce s s' : produce s = Some s' -> amap_step s s'
  | step_job i s s' : finish_job i s = Some s' -> amap_step s s'
  | step_consume s s' : consume s = Some s' -> amap_step s s'.

(** What is on its way, in the order in which the generator will meet it *)
Definition pending (s : Amap) : list qitem :=
  (match cons_ s with CAwait q => [q] | _ => [] end) ++ queue s ++ (match prod s with PPut q => [q] | _ => [] end).

(** The jobs from [c] to [n], and the mark of the end once everything was submitted *)
Definition expected (c n : nat) (over : bool) : list qitem :=
  map QJob (seq c (n - c)) ++ (if over then [match fails source with Some e => QFailed e | None => QEnd end] else []).

Definition ended (s : Amap) : bool := match prod s with PNext => false | PPut (QJob _) => false | _ => true end.

(** The results so far are those of the first arguments. *)
Definition results_ok (ys : list T) : Prop := Forall2 (fun a y => func a = Ok y) (take (length ys) (produced source)) ys.

Record amap_inv (s : Amap) : Prop := {
  am_results : results_ok (yielded s);
  am_submitted : (submitted s <= length (produced source))%nat;
  am_ended : ended s = true -> submitted s = length (produced source);
  am_count : (length (yielded s) <= submitted s)%nat;
  am_pending : match cons_ s with COver _ => True | _ => pending s = expected (length (yielded s)) (submitted s) (ended s) end;
  am_over : match cons_ s with
            | COver (Ok _) => length (yielded s) = length (produced source) /\ fails source = None
            | COver (Raise e) => (length (yielded s) = length (produced source) /\ fails source = Some e) \/
                                 (exists a, produced source !! length (yielded s) = Some a /\ func a = Raise e)
            | _ => True
            end;
  am_capacity : (0 < max_prefetch)%nat -> (length (queue s) <= max_prefetch)%nat;
  am_await : cons_ s <> CAwait QEnd;
}.

Lemma expected_cons c n over : (c < n)%nat -> expected c n over = QJob c :: expected (S c) n over.
Proof. intros Hc. unfold expected. replace (n - c)%nat with (S (n - S c)) by lia. done. Qed.

Lemma expected_nil c over : expected c c over = if over then [match fails source with Some e => QFailed e | None => QEnd end] else [].
Proof. unfold expected. by rewrite Nat.sub_diag. Qed.

Lemma expected_snoc c n : (c <= n)%nat -> expected c (S n) false = expected c n false ++ [QJob n].
Proof. intros Hc. unfold expected. rewrite !app_nil_r. replace (S n - c)%nat with (S (n - c)) by lia. rewrite seq_S, map_app. cbn. by replace (c + (n - c))%nat with n by lia. Qed.

Lemma results_snoc ys a y : results_ok ys -> produced source !! length ys = Some a -> func a = Ok y -> results_ok (ys ++ [y]).
Proof.
  unfold results_ok. intros Hr Ha Hy. rewrite length_app. cbn [length]. rewrite Nat.add_1_r, (take_S_r _ _ _ Ha). apply Forall2_app; [done|]. by repeat constructor.
Qed.

Lemma start_inv : amap_inv start_amap.
Proof. split; cbn; try done; try lia. constructor. Qed.

Lemma produce_inv s s' : amap_inv s -> produce s = Some s' -> amap_inv s'.
Proof.
  intros [H1 H2 H3 H4 H5 H6 H7 H8] Hs. unfold produce in Hs. destruct (prod s) as [|q|] eqn:Ep; [| |done].
  - destruct (produced source !! submitted s) as [a|] eqn:Ea.
    + injection Hs as <-. apply lookup_lt_Some in Ea. unfold ended in H3, H5. rewrite Ep in H3, H5.
      split; cbn [yielded submitted cons_ queue]; try done; try lia.
      change (ended _) with false. rewrite expected_snoc by lia. unfold pending in *. cbn [cons_ queue prod]. rewrite Ep in H5.
      destruct (cons_ s) eqn:Ec; [..|done]; rewrite <- H5; by rewrite <- ?app_assoc.
    + injection Hs as <-. apply lookup_ge_None in Ea. unfold ended in H3, H5. rewrite Ep in H3, H5.
      assert (Hend : ended (mkAmap (submitted s) (finished s) (queue s) (PPut (match fails source with Some e => QFailed e | None => QEnd end)) (cons_ s) (yielded s)) = true)
        by (unfold ended; cbn; by destruct (fails source)).
      split; cbn [yielded submitted cons_ queue]; try done; try lia. rewrite Hend. destruct (cons_ s) eqn:Ec; [..|done]; unfold pending, expected in *; cbn; rewrite ?Ec, ?Ep, ?app_nil_r in H5; cbn in H5; rewrite <- H5; by rewrite <- ?app_assoc.
  - destruct (queue_full (queue s)) eqn:Ef; [done|]. injection Hs as <-.
    assert (Hend : ended (mkAmap (submitted s) (finished s) (queue s ++ [q]) (match q with QJob _ => PNext | _ => PDone end) (cons_ s) (yielded s)) = ended s)
      by (unfold ended; rewrite Ep; by destruct q).
    split; rewrite ?Hend; cbn [yielded submitted cons_ queue]; try done.
    + destruct (cons_ s) eqn:Ec; [..|done]; unfold pending in *; cbn; rewrite ?Ec, ?Ep in H5; rewrite <- H5; destruct q; cbn; by rewrite ?app_nil_r.
    + intros Hm. unfold queue_full in Ef. rewrite length_app. cbn. destruct (Nat.leb_spec max_prefetch (length (queue s))) as [Hle|Hlt]; [|lia]. rewrite (proj2 (Nat.ltb_lt 0 max_prefetch) Hm) in Ef. done.
Qed.

Lemma consume_inv s s' : amap_inv s -> consume s = Some s' -> amap_inv s'.
Proof.
  intros [H1 H2 H3 H4 H5 H6 H7 H8] Hs. unfold consume in Hs. destruct (cons_ s) as [|q| |r] eqn:Ec; [| | |done]; unfold pending in H5; rewrite ?Ec in H5.
  - destruct (queue s) as [|x q] eqn:Eq; [done|]. assert (Hlen : (0 < max_prefetch)%nat -> (length q <= max_prefetch)%nat) by (intros Hm; specialize (H7 Hm); cbn in H7; lia).
    assert (Hget : x <> QEnd -> s' = set_cons s (CAwait x) q (yielded s) -> amap_inv s').
    { intros Hx ->. split; cbn; try done; first [exact H5|congruence]. }
    destruct x as [i| |e]; injection Hs as <-; [by apply Hget| |by apply Hget].
    split; cbn; try done. cbn in H5. destruct (Nat.lt_ge_cases (length (yielded s)) (submitted s)) as [Hlt|Hge]; [rewrite expected_cons in H5 by done; done|].
    assert (Hce : length (yielded s) = submitted s) by lia. rewrite Hce, expected_nil in H5. destruct (ended s) eqn:Ee; [|done]. destruct (fails source) eqn:Ef; [done|]. split; [|done]. rewrite Hce. by apply H3.
  - destruct q as [i| |e]; [| done |].
    + destruct (bool_decide (i ∈ finished s)); [|done]. destruct (produced source !! i) as [a|] eqn:Ea; [|done].
      assert (Hi : i = length (yielded s) /\ (length (yielded s) < submitted s)%nat).
      { destruct (Nat.lt_ge_cases (length (yielded s)) (submitted s)) as [Hlt|Hge]; [rewrite expected_cons in H5 by done; cbn in H5; by injection H5 as ->|].
        assert (Hce : length (yielded s) = submitted s) by lia. rewrite Hce, expected_nil in H5. destruct (ended s); [|done]. cbn in H5. by destruct (fails source). }
      destruct Hi as [-> Hlt]. destruct (func a) as [y|e] eqn:Ey; injection Hs as <-.
      * split; cbn; try done; try (by eapply results_snoc).
        -- rewrite length_app. cbn. lia.
        -- unfold pending. cbn. rewrite expected_cons in H5 by done. cbn in H5. injection H5 as H5. rewrite length_app. cbn [length]. rewrite Nat.add_1_r. unfold ended. cbn. fold (ended s). exact H5.
      * split; cbn; try done. right. eauto.
    + injection Hs as <-. split; cbn; try done. left. cbn in H5. destruct (Nat.lt_ge_cases (length (yielded s)) (submitted s)) as [Hlt|Hge]; [rewrite expected_cons in H5 by done; done|].
      assert (Hce : length (yielded s) = submitted s) by lia. rewrite Hce, expected_nil in H5. destruct (ended s) eqn:Ee; [|done]. destruct (fails source) as [e'|] eqn:Ef; [|done]. injection H5 as -> _. split; [|done]. rewrite Hce. by apply H3.
  - injection Hs as <-. split; cbn; try done; exact H5.
Qed.

Lemma amap_step_inv s s' : amap_inv s -> amap_step s s' -> amap_inv s'.
Proof.
  intros Hi Hs. destruct Hs as [s s' Hs|i s s' Hs|s s' Hs]; [by eapply produce_inv| |by eapply consume_inv].
  unfold finish_job in Hs. destruct (_ && _); [|done]. injection Hs as <-. destruct Hi as [H1 H2 H3 H4 H5 H6 H7 H8]. by split.
Qed.

Lemma amap_reachable_inv s : rtc amap_step start_amap s -> amap_inv s.
Proof.
  intros Hr. assert (Hgen : forall s0, rtc amap_step s0 s -> amap_inv s0 -> amap_inv s).
  { clear Hr. intros s0 Hr. induction Hr as [|s1 s2 s3 H12 H23 IH]; [done|]. intros Hi. apply IH. by eapply amap_step_inv. }
  by eapply Hgen; [exact Hr|apply start_inv].
Qed.

(** C38: [amap_in_executor] yields the results in the order of the arguments, whenever the jobs finish and however the tasks interleave: what was yielded are
    the results of the first arguments; it ends normally only after the results of all of them, and fails only with the failure of the source, after all
    results, or with that of the first job that failed.  At most [max_prefetch] and two more jobs are started ahead of what was yielded. *)
Theorem amap_in_order (s : Amap) : rtc amap_step start_amap s ->
  results_ok (yielded s) /\
  match cons_ s with
  | COver (Ok _) => length (yielded s) = length (produced source) /\ fails source = None
  | COver (Raise e) => (length (yielded s) = length (produced source) /\ fails source = Some e) \/
                       (exists a, produced source !! length (yielded s) = Some a /\ func a = Raise e)
  | _ => (0 < max_prefetch)%nat -> (submitted s <= length (yielded s) + max_prefetch + 2)%nat
  end.
Proof.
  intros Hr. destruct (amap_reachable_inv s Hr) as [H1 H2 H3 H4 H5 H6 H7 H8]. split; [done|].
  assert (Hb : pending s = expected (length (yielded s)) (submitted s) (ended s) -> (0 < max_prefetch)%nat -> (submitted s <= length (yielded s) + max_prefetch + 2)%nat).
  { intros Hp Hm. specialize (H7 Hm). apply (f_equal length) in Hp. unfold pending, expected in Hp. rewrite !length_app, length_map, length_seq in Hp.
    destruct (cons_ s), (prod s); cbn in Hp; lia. }
  destruct (cons_ s) as [|q| |r] eqn:Ec; [auto..|exact H6].
Qed.

(** It never gets stuck: as long as the generator is not over, the reading task, a job or the generator itself can go on, unless the user
    has not asked for the next result. *)
Theorem amap_progress (s : Amap) : rtc amap_step start_amap s -> (forall r, cons_ s <> COver r) -> exists s', amap_step s s'.
Proof.
  intros Hr Ho. destruct (amap_reachable_inv s Hr) as [H1 H2 H3 H4 H5 H6 H7 H8].
  destruct (cons_ s) as [|q| |r] eqn:Ec; [| | |by destruct (Ho r)].
  - destruct (queue s) as [|x q] eqn:Eq.
    + destruct (prod s) as [|q|] eqn:Ep.
      * destruct (produced source !! submitted s) as [a|] eqn:Ea; eexists; apply step_produce; unfold produce; by rewrite Ep, Ea.
      * eexists. apply step_produce. unfold produce. rewrite Ep, Eq. unfold queue_full. cbn. destruct max_prefetch; cbn; reflexivity.
      * exfalso. unfold pending in H5. rewrite Ec, Eq, Ep in H5. cbn in H5. unfold ended, expected in H5. rewrite Ep in H5. destruct (map QJob _); cbn in H5; done.
    + destruct x as [i| |e]; eexists; apply step_consume; unfold consume; by rewrite Ec, Eq.
  - destruct q as [i| |e].
    + assert (Hi : (i < submitted s)%nat).
      { unfold pending in H5. rewrite Ec in H5. destruct (Nat.lt_ge_cases (length (yielded s)) (submitted s)) as [Hlt|Hge]; [rewrite expected_cons in H5 by done; cbn in H5; injection H5 as -> _; done|].
        assert (Hce : length (yielded s) = submitted s) by lia. rewrite Hce, expected_nil in H5. destruct (ended s); [|done]. cbn in H5. by destruct (fails source). }
      destruct (bool_decide (i ∈ finished s)) eqn:Ef.
      * destruct (lookup_lt_is_Some_2 (produced source) i) as [a Ha]; [lia|]. destruct (func a) as [y|e] eqn:Ey; eexists; apply step_consume; unfold consume; by rewrite Ec, Ef, Ha, Ey.
      * eexists. apply (step_job i). unfold finish_job. rewrite (proj2 (Nat.ltb_lt i (submitted s)) Hi), Ef. reflexivity.
    + by destruct H8.
    + eexists. apply step_consume. unfold consume. by rewrite Ec.
  - eexists. apply step_consume. unfold consume. by rewrite Ec.
Qed.
End Amap.

(** ** [async_tee] *)

Section Tee.
Context {A : Type} (source : stream A) (n : nat).

Inductive titem : Type := TItem (x : A) | TExn (e : exn) | TStop.
(** A copy: not started, reading its queue (or suspended at a [yield]), ended, or closed by its user *)
Inductive tee_status : Type := Waiting | Reading | Ended (failure : option exn) | Closed.
Record copy : Type := mkCopy { status : tee_status; tqueue : list titem; received : list A }.
(** [fanout]: not started; reading the source; about to check the consumers, with an item; about to put it; about to send the stop signals; over *)
Inductive fan_state : Type := FIdle | FRead | FCheck (x : A) | FPut (x : A) | FStop | FOver.

Record Tee : Type := mkTee { taken : nat; fan : fan_state; active_consumers : list nat; copies : list copy }.
Definition start_tee : Tee := mkTee 0 FIdle (seq 0 n) (replicate n (mkCopy Waiting [] [])).

Definition put_all (t : titem) (cs : list copy) : list copy := map (fun c => mkCopy (status c) (tqueue c ++ [t]) (received c)) cs.

(** A step of the task.  The queues have no limit, so that putting never waits. *)
Definition fan_step (s : Tee) : option Tee :=
  match fan s with
  | FRead =>
      match produced source !! taken s with
      | Some x => Some (mkTee (S (taken s)) (FCheck x) (active_consumers s) (copies s))
      | None => let cs := match fails source with Some e => put_all (TExn e) (copies s) | None => copies s end in
                Some (mkTee (taken s) FStop (active_consumers s) cs)
      end
  | FCheck x => Some (mkTee (taken s) (match active_consumers s with [] => FStop | _ => FPut x end) (active_consumers s) (copies s))
  | FPut x => Some (mkTee (taken s) FRead (active_consumers s) (put_all (TItem x) (copies s)))
  | FStop => Some (mkTee (taken s) FOver (active_consumers s) (put_all TStop (copies s)))
  | FIdle | FOver => None
  end.

(** The [finally] of a copy: the last one cancels the task, which sends its stop signals. *)
Definition leave (i : nat) (s : Tee) : Tee :=
  let active := filter (fun j => j <> i) (active_consumers s) in
  match active, fan s with
  | [], (FRead | FCheck _ | FPut _ | FStop) => mkTee (taken s) FOver active (put_all TStop (copies s))
  | _, _ => mkTee (taken s) (fan s) active (copies s)
  end.

Definition set_copy (i : nat) (c : copy) (s : Tee) : Tee := mkTee (taken s) (fan s) (active_consumers s) (<[i := c]> (copies s)).

(** A copy starts, takes an item, or is closed.  Closing one that has not started runs no code. *)
Definition start_copy (i : nat) (s : Tee) : option Tee :=
  match copies s !! i with
  | Some (mkCopy Waiting q r) =>
      let s := set_copy i (mkCopy Reading q r) s in
      Some (mkTee (taken s) (match fan s with FIdle => FRead | f => f end) (active_consumers s) (copies s))
  | _ => None
  end.
Definition next_copy (i : nat) (s : Tee) : option Tee :=
  match copies s !! i with
  | Some (mkCopy Reading (TItem x :: q) r) => Some (set_copy i (mkCopy Reading q (r ++ [x])) s)
  | Some (mkCopy Reading (TExn e :: q) r) => Some (leave i (set_copy i (mkCopy (Ended (Some e)) q r) s))
  | Some (mkCopy Reading (TStop :: q) r) => Some (leave i (set_copy i (mkCopy (Ended None) q r) s))
  | _ => None
  end.
Definition close_copy (i : nat) (s : Tee) : option Tee :=
  match copies s !! i with
  | Some (mkCopy Reading q r) => Some (leave i (set_copy i (mkCopy Closed q r) s))
  | Some (mkCopy Waiting q r) => Some (set_copy i (mkCopy Closed q r) s)
  | _ => None
  end.

Inductive tee_step : Tee -> Tee -> Prop :=
  | tee_fan s s' : fan_step s = Some s' -> tee_step s s'
  | tee_start i s s' : start_copy i s = Some s' -> tee_step s s'
  | tee_next i s s' : next_copy i s = Some s' -> tee_step s s'
  | tee_close i s s' : close_copy i s = Some s' -> tee_step s s'.

(** What was put into every queue *)
Definition given (s : Tee) : nat := match fan s with FCheck _ | FPut _ => pred (taken s) | _ => taken s end.
Definition signals (f : fan_state) : list titem :=
  let failure := match fails source with Some e => [TExn e] | None => [] end in
  match f with FStop => failure | FOver => failure ++ [TStop] | _ => [] end.

Definition live (st : tee_status) : bool := match st with Waiting | Reading => true | _ => false end.

Definition copy_ok (s : Tee) (i : nat) (c : copy) : Prop :=
  (received c `prefix_of` produced source) /\
  match status c with
  | Waiting | Reading => i ∈ active_consumers s /\ (map TItem (received c) ++ tqueue c = map TItem (take (given s) (produced source)) ++ signals (fan s))
  | Ended failure => received c = produced source /\ failure = fails source
  | Closed => True
  end.

Record tee_inv (s : Tee) : Prop := {
  te_copies i c : copies s !! i = Some c -> copy_ok s i c;
  te_taken : (taken s <= length (produced source))%nat;
  te_item : match fan s with FCheck x | FPut x => (0 < taken s)%nat /\ produced source !! pred (taken s) = Some x | _ => True end;
  te_done : match fan s with FStop | FOver => active_consumers s <> [] -> taken s = length (produced source) | _ => True end;
}.

Lemma put_all_lookup t cs i c : put_all t cs !! i = Some c -> exists c0, cs !! i = Some c0 /\ c = mkCopy (status c0) (tqueue c0 ++ [t]) (received c0).
Proof. unfold put_all. change (map ?f cs) with (f <$> cs). rewrite list_lookup_fmap. destruct (cs !! i) as [c0|]; [|done]. intros [= <-]. eauto. Qed.

Lemma tee_start_inv : tee_inv start_tee.
Proof.
  split; cbn; [|lia|done|done]. intros i c Hc. apply lookup_replicate in Hc as [-> Hi]. split; [apply prefix_nil|]. cbn. split; [apply elem_of_seq; lia|done].
Qed.

Lemma fan_step_inv s s' : tee_inv s -> fan_step s = Some s' -> tee_inv s'.
Proof.
  intros [H1 H2 H3 H4] Hs. unfold fan_step in Hs. destruct (fan s) as [| |x|x| |] eqn:Ef; [done| | | | |done].
  - destruct (produced source !! taken s) as [x|] eqn:Ex.
    + injection Hs as <-. pose proof (lookup_lt_Some _ _ _ Ex) as Hlt. split; cbn; [|lia|split; [lia|done]|done].
      intros i c Hc. destruct (H1 i c Hc) as [Hp Hst]. split; [done|]. destruct (status c); [| |exact Hst|done];
        (destruct Hst as [Ha Hq]; split; [done|]; unfold given in *; rewrite Ef in Hq; cbn in *; exact Hq).
    + injection Hs as <-. apply lookup_ge_None in Ex. split; cbn; [|done|done|lia].
      intros i c Hc. destruct (fails source) as [e|] eqn:Ee.
      * apply put_all_lookup in Hc as (c0 & Hc0 & ->). destruct (H1 i c0 Hc0) as [Hp Hst]. split; [done|]. cbn [status received tqueue active_consumers].
        destruct (status c0); [| |exact Hst|done]; (destruct Hst as [Ha Hq]; split; [done|]; unfold given, signals in *; rewrite Ef in Hq; cbn in *; rewrite Ee, app_assoc, Hq, app_nil_r; done).
      * destruct (H1 i c Hc) as [Hp Hst]. split; [done|]. destruct (status c); [| |exact Hst|done];
        (destruct Hst as [Ha Hq]; split; [done|]; unfold given, signals in *; rewrite Ef in Hq; cbn in *; rewrite Ee; exact Hq).
  - injection Hs as <-. destruct H3 as [Hpos Hx].
    destruct (active_consumers s) as [|j act] eqn:Ea.
    + split; cbn; [|done|done|done]. intros i c Hc. destruct (H1 i c Hc) as [Hp Hst]. split; [done|].
      destruct (status c); [| |exact Hst|done]; (destruct Hst as [Ha _]; rewrite Ea in Ha; by apply elem_of_nil in Ha).
    + split; cbn; [|done|done|done]. intros i c Hc. destruct (H1 i c Hc) as [Hp Hst]. split; [done|]. unfold copy_ok, given in *. rewrite Ef in Hst. rewrite Ea in Hst. exact Hst.
  - injection Hs as <-. destruct H3 as [Hpos Hx]. split; cbn; [|done|done|done].
    intros i c Hc. apply put_all_lookup in Hc as (c0 & Hc0 & ->). destruct (H1 i c0 Hc0) as [Hp Hst]. split; [done|]. cbn [status received tqueue active_consumers].
    destruct (status c0); [| |exact Hst|done]; (destruct Hst as [Ha Hq]; split; [done|]; unfold given in *; rewrite Ef in Hq; cbn in *;
      rewrite app_nil_r in *; rewrite app_assoc, Hq; replace (taken s) with (S (pred (taken s))) by lia; rewrite (take_S_r _ _ _ Hx); cbn [pred]; by rewrite map_app).
  - injection Hs as <-. split; cbn; [|done|done|exact H4].
    intros i c Hc. apply put_all_lookup in Hc as (c0 & Hc0 & ->). destruct (H1 i c0 Hc0) as [Hp Hst]. split; [done|]. cbn [status received tqueue active_consumers].
    destruct (status c0); [| |exact Hst|done]; (destruct Hst as [Ha Hq]; split; [done|]; unfold given, signals in *; rewrite Ef in Hq; cbn in *; rewrite app_assoc, Hq; by rewrite <- app_assoc).
Qed.

(** A copy that is over leaves. *)
Lemma leave_inv i c s : tee_inv s -> copies s !! i = Some c -> live (status c) = false -> tee_inv (leave i s).
Proof.
  intros [H1 H2 H3 H4] Hi Hl. assert (Hact : forall j c', copies s !! j = Some c' -> live (status c') = true -> j ∈ filter (fun j => j <> i) (active_consumers s)).
  { intros j c' Hj Hlive. apply list_elem_of_filter. destruct (H1 j c' Hj) as [_ Hst]. split; [intros ->; rewrite Hi in Hj; injection Hj as ->; congruence|].
    destruct (status c'); try done; by destruct Hst. }
  assert (Hkeep : tee_inv (mkTee (taken s) (fan s) (filter (fun j => j <> i) (active_consumers s)) (copies s))).
  { split; cbn; [|done|done|].
    - intros j c' Hj. destruct (H1 j c' Hj) as [Hp Hst]. split; [done|]. pose proof (Hact j c' Hj) as Ha. destruct (status c'); [| |exact Hst|done]; (destruct Hst as [_ Hq]; split; [by apply Ha|exact Hq]).
    - destruct (fan s); try done; (intros Hne; apply H4; intros E; rewrite E in Hne; done). }
  unfold leave. destruct (filter (fun j => j <> i) (active_consumers s)) as [|j act] eqn:Ef; [|exact Hkeep].
  assert (Hover : forall cs, (forall j c', cs !! j = Some c' -> exists c0, copies s !! j = Some c0 /\ status c' = status c0 /\ received c' = received c0) -> tee_inv (mkTee (taken s) FOver [] cs)).
  { intros cs Hcs. split; cbn; [|done|done|done]. intros j c' Hj. destruct (Hcs j c' Hj) as (c0 & Hc0 & Hs & Hr). destruct (H1 j c0 Hc0) as [Hp Hst]. unfold copy_ok. rewrite Hs, Hr. split; [done|].
    pose proof (Hact j c0 Hc0) as Ha. destruct (status c0); [| |exact Hst|done]; (specialize (Ha eq_refl); by apply elem_of_nil in Ha). }
  destruct (fan s) eqn:Efan; try exact Hkeep; apply Hover; intros j c' Hj; apply put_all_lookup in Hj as (c0 & Hc0 & ->); eauto.
Qed.

Lemma set_copy_inv i c c' s : tee_inv s -> copies s !! i = Some c -> copy_ok s i c' -> tee_inv (set_copy i c' s).
Proof.
  intros [H1 H2 H3 H4] Hi Hok. split; cbn; [|done|done|done]. intros j c0 Hj. destruct (decide (i = j)) as [<- |Hne].
  - rewrite list_lookup_insert_eq in Hj by (by eapply lookup_lt_Some). injection Hj as <-. exact Hok.
  - rewrite list_lookup_insert_ne in Hj by done. exact (H1 j c0 Hj).
Qed.

Lemma set_copy_lookup i c c' s : copies s !! i = Some c -> copies (set_copy i c' s) !! i = Some c'.
Proof. intros Hi. cbn. apply list_lookup_insert_eq. by eapply lookup_lt_Some. Qed.

Lemma next_copy_inv i s s' : tee_inv s -> next_copy i s = Some s' -> tee_inv s'.
Proof.
  intros Hinv Hs. pose proof Hinv as [H1 H2 H3 H4]. unfold next_copy in Hs. destruct (copies s !! i) as [[st q r]|] eqn:Ei; [|done]. destruct st; try done. destruct q as [|t q]; [done|].
  destruct (H1 i _ Ei) as [Hp Hst]. cbn in Hp, Hst. destruct Hst as [Ha Hq].
  assert (Hpre : forall ys zs (u v : list titem), map TItem ys ++ u = map TItem zs ++ v -> match u with TItem _ :: _ => False | _ => True end -> match v with TItem _ :: _ => False | _ => True end -> ys = zs /\ u = v).
  { induction ys as [|y ys IH]; intros [|z zs] u v E Hu Hv; cbn in E; [done|subst u; done|subst v; done|]. injection E as -> E. destruct (IH _ _ _ E Hu Hv) as [-> ->]. done. }
  assert (Hsig : match signals (fan s) with TItem _ :: _ => False | _ => True end) by (unfold signals; destruct (fan s), (fails source); done).
  destruct t as [x|e|]; injection Hs as <-.
  - eapply set_copy_inv; [done|exact Ei|]. split; cbn.
    + change (TItem x :: q) with (map TItem [x] ++ q) in Hq. rewrite app_assoc, <- map_app in Hq.
      assert (Hpfx : r ++ [x] `prefix_of` take (given s) (produced source)).
      { clear -Hq Hsig. revert Hq. generalize (take (given s) (produced source)), (r ++ [x]). intros l ys. revert l. induction ys as [|y ys IH]; intros l Hq; [apply prefix_nil|].
        destruct l as [|z l]; cbn in Hq; [destruct (signals (fan s)); [done|]; injection Hq as <- _; done|]. injection Hq as -> Hq. apply prefix_cons, IH, Hq. }
      destruct Hpfx as [k Hk]. exists (k ++ drop (given s) (produced source)). rewrite app_assoc, <- Hk. by rewrite take_drop.
    + split; [done|]. rewrite map_app, <- app_assoc. exact Hq.
  - apply (leave_inv i (mkCopy (Ended (Some e)) q r)); [|by eapply set_copy_lookup|done]. eapply set_copy_inv; [done|exact Ei|]. split; [done|]. cbn.
    destruct (Hpre _ _ _ _ Hq I Hsig) as [Hr Hu]. unfold signals in Hu. destruct (fan s) eqn:Ef; try done; destruct (fails source) as [e'|] eqn:Ee; try done; injection Hu as -> _; (split; [|done]).
    all: rewrite Hr; unfold given; rewrite Ef, H4; [apply firstn_all|intros E; rewrite E in Ha; by apply elem_of_nil in Ha].
  - apply (leave_inv i (mkCopy (Ended None) q r)); [|by eapply set_copy_lookup|done]. eapply set_copy_inv; [done|exact Ei|]. split; [done|]. cbn.
    destruct (Hpre _ _ _ _ Hq I Hsig) as [Hr Hu]. unfold signals in Hu. destruct (fan s) eqn:Ef; try done; destruct (fails source) as [e'|] eqn:Ee; try done; (split; [|done]).
    all: rewrite Hr; unfold given; rewrite Ef, H4; [apply firstn_all|intros E; rewrite E in Ha; by apply elem_of_nil in Ha].
Qed.

Lemma tee_step_inv s s' : tee_inv s -> tee_step s s' -> tee_inv s'.
Proof.
  intros Hi Hs. destruct Hs as [s s' Hs|i s s' Hs|i s s' Hs|i s s' Hs]; [by eapply fan_step_inv| |by eapply next_copy_inv|].
  - unfold start_copy in Hs. destruct (copies s !! i) as [[st q r]|] eqn:Ei; [|done]. destruct st; try done. injection Hs as <-.
    assert (Hc : tee_inv (set_copy i (mkCopy Reading q r) s)) by (eapply set_copy_inv; [done|exact Ei|exact (te_copies s Hi i _ Ei)]).
    destruct Hc as [H1 H2 H3 H4]. cbn in *.
    assert (Hnext : forall f, given (mkTee (taken s) f (active_consumers s) []) = given s -> signals f = signals (fan s) ->
      forall j c, <[i:=mkCopy Reading q r]> (copies s) !! j = Some c -> copy_ok (mkTee (taken s) f (active_consumers s) (<[i:=mkCopy Reading q r]> (copies s))) j c).
    { intros f Hg Hf j c Hj. destruct (H1 j c Hj) as [Hp Hst]. split; [done|]. destruct (status c); [| |exact Hst|done]; (destruct Hst as [Ha Hq]; split; [done|];
        change (given (mkTee (taken s) f (active_consumers s) (<[i:=mkCopy Reading q r]> (copies s)))) with (given (mkTee (taken s) f (active_consumers s) [])); rewrite Hg; cbn; rewrite Hf; exact Hq). }
    split; cbn; [apply Hnext; unfold given, signals; by destruct (fan s)|done|by destruct (fan s)|by destruct (fan s)].
  - unfold close_copy in Hs. destruct (copies s !! i) as [[st q r]|] eqn:Ei; [|done]. destruct (te_copies s Hi i _ Ei) as [Hp Hst]. clear Hst.
    destruct st; try done; injection Hs as <-.
    + eapply set_copy_inv; [done|exact Ei|]. by split.
    + apply (leave_inv i (mkCopy Closed q r)); [|by eapply set_copy_lookup|done]. eapply set_copy_inv; [done|exact Ei|]. by split.
Qed.

(** All copies of [async_tee] see the source: under every interleaving, and whatever other copies do (stop early, never start), a copy has received a
    prefix of the items of the source; it ends only after all of them, and in the way the source ended. *)
Theorem tee_copies_agree (s : Tee) (i : nat) (c : copy) : rtc tee_step start_tee s -> copies s !! i = Some c ->
  (received c `prefix_of` produced source) /\ forall failure, status c = Ended failure -> received c = produced source /\ failure = fails source.
Proof.
  intros Hr Hc. assert (Hinv : tee_inv s).
  { assert (Hgen : forall s0, rtc tee_step s0 s -> tee_inv s0 -> tee_inv s).
    { clear Hr Hc. intros s0 Hr. induction Hr as [|s1 s2 s3 H12 H23 IH]; [done|]. intros Hi. apply IH. by eapply tee_step_inv. }
    eapply Hgen; [exact Hr|apply tee_start_inv]. }
  destruct (te_copies s Hinv i c Hc) as [Hp Hst]. split; [done|]. intros failure Hf. by rewrite Hf in Hst.
Qed.
End Tee.

Arguments titem : clear implicits.
Arguments TItem {A}.
Arguments TExn {A}.
Arguments TStop {A}.
Arguments copy : clear implicits.
Arguments mkCopy {A}.
Arguments fan_state : clear implicits.
Arguments FIdle {A}.
Arguments FOver {A}.
Arguments Tee : clear implicits.
Arguments mkTee {A}.
Arguments Amap : clear implicits.

(** ** Concrete runs *)

(** Three arguments, the second of which makes the function fail *)
Definition run_func (x : Z) : result Z := if x =? 2 then Raise ValueError else Ok (x * 10).
Definition run_args : stream Z := mkStream [1; 2; 3] None.
Definition follow {S} (steps : list (S -> option S)) (s : S) : option S := foldl (fun o f => match o with Some s => f s | None => None end) (Some s) steps.

Lemma follow_rtc {S} (R : S -> S -> Prop) (steps : list (S -> option S)) (s s' : S) :
  Forall (fun f => forall x y, f x = Some y -> R x y) steps -> follow steps s = Some s' -> rtc R s s'.
Proof.
  intros Hf. revert s. induction Hf as [|f steps Hf Hrest IH]; intros s Hs; [cbn in Hs; injection Hs as ->; apply rtc_refl|].
  unfold follow in *. cbn in Hs. destruct (f s) as [s1|] eqn:Es; [eapply rtc_l; [by apply Hf|by apply IH]|].
  exfalso. clear -Hs. induction steps as [|g steps IH]; [done|]. by apply IH.
Qed.

(** The second job ends before the first; the first result is yielded, then the failure of the second ends the generator. *)
Definition run_steps : list (Amap Z -> option (Amap Z)) :=
  let p := produce run_args 2 in let c := consume run_func run_args in
  [p; p; p; p; finish_job 1; c; finish_job 0; c; c; c; c].
Definition run_state : Amap Z := default start_amap (follow run_steps start_amap).

Lemma run_reachable : rtc (amap_step run_func run_args 2) start_amap run_state.
Proof.
  apply (follow_rtc _ run_steps); [|vm_compute; reflexivity].
  repeat (apply Forall_cons; split; [intros x y Hxy; first [by apply step_produce|by apply step_consume|by eapply step_job]|]). apply Forall_nil_2.
Qed.

Lemma amap_in_order_witness :
  cons_ run_state = COver (Raise ValueError) /\ yielded run_state = [10] /\ results_ok run_func run_args (yielded run_state).
Proof.
  split; [vm_compute; reflexivity|]. split; [vm_compute; reflexivity|].
  exact (proj1 (amap_in_order run_func run_args 2 run_state run_reachable)).
Defined.

Lemma amap_progress_witness : exists s', amap_step run_func run_args 2 start_amap s'.
Proof. apply (amap_progress run_func run_args 2 start_amap); [apply rtc_refl|intros r; vm_compute; discriminate]. Defined.

(** The first copy reads one item and stops; the second one reads everything. *)
Definition tee_source : stream Z := mkStream [7; 8] (Some ValueError).
Definition tee_steps : list (Tee Z -> option (Tee Z)) :=
  let f := fan_step tee_source in
  [start_copy 0; f; f; f; start_copy 1; next_copy 0; close_copy 0; f; f; f; next_copy 1; f; f; next_copy 1; next_copy 1].
Definition tee_state : Tee Z := default (start_tee 2) (follow tee_steps (start_tee 2)).

Lemma tee_reachable : rtc (tee_step tee_source) (start_tee 2) tee_state.
Proof.
  apply (follow_rtc _ tee_steps); [|vm_compute; reflexivity].
  repeat (apply Forall_cons; split; [intros x y Hxy; first [by apply tee_fan|by eapply tee_start|by eapply tee_next|by eapply tee_close]|]). apply Forall_nil_2.
Qed.

Lemma tee_copies_agree_witness : received <$> copies tee_state !! 1%nat = Some [7; 8] /\ (Some ValueError = fails tee_source).
Proof.
  split; [vm_compute; reflexivity|]. refine (proj2 (proj2 (tee_copies_agree tee_source 2 tee_state 1 (mkCopy (Ended (Some ValueError)) [TStop] [7; 8]) tee_reachable _) (Some ValueError) _)); vm_compute; reflexivity.
Defined.
