(* ===== verification/KeyFiles.v ===== *)
(** * Key files and the identities in protocols ([mesh/utils/key.py], [mesh/mesh_cli/crypto/keygen.py], the caller check and the
    RPC methods of [mesh/subnet/protocols])

    A node keeps its private key in a file; its peer identifier follows from the public key, and is computed in many places: when the
    file is written, when it is read, and from the OpenSSH text of the key that comes with a record or a request.
    What the [cryptography] package does with private keys and with OpenSSH texts, and the protobuf message [PrivateKey], are parameters. *)

From S2P Require Import Prelude DHTID Base58 HashTable Framing PeerIdentity Base64 Validation Crypto Tensors AsyncTools.

Class KeyFiles (PrivateKey PublicKey : Type) := {
  public_of : PrivateKey -> PublicKey;
  private_kind : PrivateKey -> KeyKind;
  private_der : PrivateKey -> bytes;
  private_raw : PrivateKey -> bytes;
  load_der_private_key : bytes -> result PrivateKey;
  ed25519_from_private_bytes : bytes -> result PrivateKey;
  pb_private_key : Z -> bytes -> bytes;
  parse_private_key : bytes -> result (Z * bytes);
  ssh_bytes : PublicKey -> bytes;
  load_ssh_public_key : bytes -> result PublicKey;
  ed25519_from_public_bytes : bytes -> result PublicKey;
}.

(** ** Files *)

(** A file has its contents and can be read-only; [open] of another path to read, or of a read-only file to write, is an [OSError]. *)
Record File : Type := mkFile { contents : bytes; read_only : bool }.
Definition files : Type := pydict string File.

Definition read_file (fs : files) (path : string) : result bytes := rmap contents (of_option OSError (dget fs path)).
Definition write_file (fs : files) (path : string) (data : bytes) : result files :=
  match dget fs path with
  | Some (mkFile _ true) => Raise OSError
  | _ => Ok (dset fs path (mkFile data false))
  end.
Definition chmod_0400 (fs : files) (path : string) : result files :=
  let* f := of_option OSError (dget fs path) in Ok (dset fs path (mkFile (contents f) true)).

Section Keys.
Context {PrivateKey PublicKey : Type} `{KL : KeyLib PublicKey} `{KF : KeyFiles PrivateKey PublicKey} `{VI : Varint}.

(** ** [key.py]: files *)

(** The new private key is an argument; the returned tuple holds it, its encodings and the peer identifier. *)
Definition generate_ed25519_private_key_file (fs : files) (path : string) (private_key : PrivateKey) : result (files * PeerID) :=
  let combined_key_bytes := private_raw private_key ++ raw_bytes (public_of private_key) in
  let* fs := write_file fs path (pb_private_key (key_type_code Ed25519) combined_key_bytes) in
  Ok (fs, PeerID_init (ed25519_peer_bytes (public_of private_key))).

Definition get_ed25519_private_key (fs : files) (identity_path : string) : result PrivateKey :=
  let* data := read_file fs identity_path in
  let* (_, key_data) := parse_private_key data in
  ed25519_from_private_bytes (take 32 key_data).

(** The identifier is made before the file is written. *)
Definition generate_rsa_private_key_file (fs : files) (path : string) (private_key : PrivateKey) : result (files * PeerID) :=
  let* encoded_digest := rsa_peer_bytes (public_of private_key) in
  let* fs := write_file fs path (pb_private_key (key_type_code RSA) (private_der private_key)) in
  Ok (fs, PeerID_init encoded_digest).

Definition get_rsa_private_key (fs : files) (identity_path : string) : result PrivateKey :=
  let* data := read_file fs identity_path in
  let* (_, key_data) := parse_private_key data in
  load_der_private_key key_data.

(** [None] for a key type that the code does not list *)
Definition get_private_key (fs : files) (identity_path : string) : result (option PrivateKey) :=
  let* data := read_file fs identity_path in
  let* (key_type, key_data) := parse_private_key data in
  if key_type =? 0 then rmap Some (load_der_private_key key_data)
  else if key_type =? 1 then rmap Some (ed25519_from_private_bytes (take 32 key_data))
  else if (key_type =? 2) || (key_type =? 3) then Raise ValueError
  else Ok None.

Definition get_peer_id_from_identity_path (fs : files) (identity_path : string) : result (option PeerID) :=
  let* data := read_file fs identity_path in
  let* (key_type, key_data) := parse_private_key data in
  if key_type =? 0 then
    let* private_key := load_der_private_key key_data in
    let* b := rsa_peer_bytes (public_of private_key) in Ok (Some (PeerID_init b))
  else if key_type =? 1 then
    let* private_key := ed25519_from_private_bytes (take 32 key_data) in
    Ok (Some (PeerID_init (ed25519_peer_bytes (public_of private_key))))
  else if (key_type =? 2) || (key_type =? 3) then Raise ValueError
  else Ok None.

(** ** [key.py]: identifiers from OpenSSH texts *)

(** A key that is not Ed25519 has no [public_bytes_raw]. *)
Definition extract_ed25519_peer_id_from_ssh (ssh_public_key : bytes) : result (option PeerID) :=
  let* key := load_ssh_public_key ssh_public_key in
  match key_kind key with
  | Ed25519 => let* pubkey := ed25519_from_public_bytes (raw_bytes key) in Ok (get_ed25519_peer_id pubkey)
  | _ => Raise AttributeError
  end.

(** The kind of the key is not checked. *)
Definition extract_rsa_peer_id_from_ssh (ssh_public_key : bytes) : result PeerID :=
  let* key := load_ssh_public_key ssh_public_key in rmap PeerID_init (rsa_peer_bytes key).

(** [extract_rsa_peer_id], [extract_rsa_peer_id_from_subkey] and [extract_rsa_peer_id_from_record_validator] have the same body. *)
Definition extract_rsa_peer_id (key : bytes) : result PeerID :=
  let* public_key := of_option IndexError (head (findall OWNER_PREFIX key)) in extract_rsa_peer_id_from_ssh public_key.
Definition extract_rsa_peer_id_from_subkey (key : bytes) : result PeerID :=
  let* public_key := of_option IndexError (head (findall OWNER_PREFIX key)) in extract_rsa_peer_id_from_ssh public_key.
Definition extract_rsa_peer_id_from_record_validator (key : bytes) : result PeerID :=
  let* public_key := of_option IndexError (head (findall OWNER_PREFIX key)) in extract_rsa_peer_id_from_ssh public_key.

(** ** [keygen.py] *)

(** The key is written and read back. *)
Definition keygen_rsa (fs : files) (path : string) (private_key : PrivateKey) : result (files * bytes) :=
  let* fs := write_file fs path (pb_private_key (key_type_code RSA) (private_der private_key)) in
  let* data := read_file fs path in
  let* (_, key_data) := parse_private_key data in
  let* private_key := load_der_private_key key_data in
  let* encoded_digest := rsa_peer_bytes (public_of private_key) in
  Ok (fs, encoded_digest).

(** The file becomes read-only. *)
Definition keygen_ed25519 (fs : files) (path : string) (private_key : PrivateKey) : result (files * bytes) :=
  let* fs := write_file fs path (pb_private_key (key_type_code Ed25519) (private_raw private_key ++ raw_bytes (public_of private_key))) in
  let* fs := chmod_0400 fs path in
  let* data := read_file fs path in
  let* (_, key_data) := parse_private_key data in
  let* private_key := ed25519_from_private_bytes (take 32 key_data) in
  let encoded_digest := ed25519_peer_bytes (public_of private_key) in
  let peer_id := PeerID_init encoded_digest in
  if peer_eqb peer_id (OBytes (peer_bytes peer_id)) then Ok (fs, encoded_digest) else Raise AssertionError.

(** Three files of one type: the node, the bootnode and the client *)
Definition keygen_main (fs : files) (key_type : KeyKind) (jobs : list (string * PrivateKey)) : result (files * list bytes) :=
  let generate fs job := match key_type with
    | RSA => keygen_rsa fs job.1 job.2
    | Ed25519 => keygen_ed25519 fs job.1 job.2
    | _ => Raise ValueError
    end in
  foldl (fun acc job => let* (fs, digests) := acc in let* (fs, digest) := generate fs job in Ok (fs, digests ++ [digest])) (Ok (fs, [])) jobs.

(** ** The caller check of the protocols *)

(** [should_process_inference] and [should_process_rpc] *)
Definition should_process {A} (data : A) : bool := true.

Definition check_caller (authorizer : bool) (own : PeerID) (should : bool) (client_public_key : bytes) : result unit :=
  if authorizer then
    let* caller_peer_id := extract_rsa_peer_id_from_ssh client_public_key in
    if negb (peer_eqb caller_peer_id (OPeer own)) && negb should then Raise ValueError else Ok tt
  else Ok tt.

(** [MathProtocol.rpc_math]; [eval] is Python's, followed by [float]. *)
Definition rpc_math {F} (eval : bytes -> result F) (authorizer : bool) (own : PeerID) (now : Z) (client_public_key input : bytes) : result (PeerID * Z * F) :=
  let* _ := check_caller authorizer own (should_process (lit "")) client_public_key in
  let* output := eval input in
  Ok (own, now, output).

(** [MathProtocol.call_math]: an exception is logged, and the answer is [None]. *)
Definition call_math {R} (answer : result R) : option R := match answer with Ok r => Some r | Raise _ => None end.

(** ** [MockProtocol] *)

Record InferenceResponse : Type := mkResponse { ir_peer : PeerID; ir_dht_time : Z; ir_output : bytes; ir_tensors : list Tensor }.

Section Inference.
Context `{Num : Numerics} (USE_LEGACY_BFLOAT16 : bool).
(** The text of a number, and the clock at each message *)
Variable number_text : dtype -> Z -> bytes.
Variable clock : nat -> Z.

(** [str(token_tensor.item())]: only a tensor with one element is a number. *)
Definition item_text (t : Torch) : result bytes :=
  match elems t with [x] => Ok (number_text (t_dtype t) x) | _ => Raise RuntimeError end.

Definition respond (own : PeerID) (i : nat) (token_tensor : Torch) : result InferenceResponse :=
  let* output := item_text token_tensor in
  let* tensor := serialize_torch_tensor USE_LEGACY_BFLOAT16 true NONE token_tensor in
  Ok (mkResponse own (clock i) output [tensor]).

(** A generator that maps the items of a stream: it ends with the first failure. *)
Fixpoint respond_all (own : PeerID) (i : nat) (tokens : list Torch) (failure : option exn) : stream InferenceResponse :=
  match tokens with
  | [] => mkStream [] failure
  | t :: rest =>
      match respond own i t with
      | Ok r => let s := respond_all own (S i) rest failure in mkStream (r :: produced s) (fails s)
      | Raise e => mkStream [] (Some e)
      end
  end.

(** [rpc_inference_stream]; [submit] is the model's. *)
Definition rpc_inference_stream (submit : Torch -> result (stream Torch)) (authorizer : bool) (own : PeerID) (client_public_key : bytes) (request : Tensor)
    : stream InferenceResponse :=
  match (let* tensor := deserialize_torch_tensor request in
         let* _ := check_caller authorizer own (should_process tensor) client_public_key in
         submit tensor) with
  | Ok tokens => respond_all own 0 (produced tokens) (fails tokens)
  | Raise e => mkStream [] (Some e)
  end.

(** The tensors of the responses, up to the first that cannot be read *)
Fixpoint read_tensors (ts : list Tensor) : list Torch * bool :=
  match ts with
  | [] => ([], true)
  | t :: rest => match deserialize_torch_tensor t with Ok x => let '(xs, ok) := read_tensors rest in (x :: xs, ok) | Raise _ => ([], false) end
  end.
Fixpoint read_responses (rs : list InferenceResponse) : list Torch :=
  match rs with
  | [] => []
  | r :: rest => let '(xs, ok) := read_tensors (ir_tensors r) in xs ++ (if ok then read_responses rest else [])
  end.

(** [call_inference_stream]: the request is made outside of the [try]; every exception of the call ends the generator normally. *)
Definition call_inference_stream (tensor : Torch) (on_cpu : bool) (call : Tensor -> result (stream InferenceResponse)) : stream Torch :=
  match serialize_torch_tensor USE_LEGACY_BFLOAT16 on_cpu NONE tensor with
  | Raise e => mkStream [] (Some e)
  | Ok request => match call request with
                  | Ok responses => mkStream (read_responses (produced responses)) None
                  | Raise _ => mkStream [] None
                  end
  end.
End Inference.
End Keys.

(** What is assumed: reading inverts writing, and the public key is of the kind of the private key. *)
Class KeyFilesLaws (PrivateKey PublicKey : Type) `{KeyLib PublicKey} `{KeyFiles PrivateKey PublicKey} : Prop := {
  public_kind sk : key_kind (public_of sk) = private_kind sk;
  parse_private k data : 0 <= k <= 3 -> parse_private_key (pb_private_key k data) = Ok (k, data);
  der_load sk : private_kind sk = RSA -> load_der_private_key (private_der sk) = Ok sk;
  raw_load sk : private_kind sk = Ed25519 -> length (private_raw sk) = 32%nat /\ ed25519_from_private_bytes (private_raw sk) = Ok sk;
  ssh_load pk : load_ssh_public_key (ssh_bytes pk) = Ok pk;
  raw_public pk : key_kind pk = Ed25519 -> ed25519_from_public_bytes (raw_bytes pk) = Ok pk;
}.

Section Facts.
Context {PrivateKey PublicKey : Type} `{KL : KeyLib PublicKey} `{KF : KeyFiles PrivateKey PublicKey} `{LF : !KeyFilesLaws PrivateKey PublicKey} `{VL : VarintLaws}.
Hypothesis sha256_digest : forall m : bytes, sha256 m <> [] /\ Z.of_nat (length (sha256 m)) < 2 ^ 32.

Lemma write_read fs path data fs' : write_file fs path data = Ok fs' ->
  read_file fs' path = Ok data /\ fs' = dset fs path (mkFile data false) /\ forall p, p <> path -> dget fs' p = dget fs p.
Proof.
  unfold write_file, read_file. intros Hw. assert (E : fs' = dset fs path (mkFile data false)) by (destruct (dget fs path) as [[c []]|]; by simplify_eq).
  subst fs'. rewrite dget_dset_eq. split; [done|]. split; [done|]. intros p Hp. by rewrite dget_dset_ne.
Qed.

Lemma writable fs path data : (forall f, dget fs path = Some f -> read_only f = false) -> write_file fs path data = Ok (dset fs path (mkFile data false)).
Proof. unfold write_file. intros Hw. destruct (dget fs path) as [[c []]|]; [by specialize (Hw _ eq_refl)|done|done]. Qed.

Lemma rsa_id pk : exists b, rsa_peer_bytes pk = Ok b.
Proof using VL sha256_digest. destruct (rsa_bytes sha256_digest pk) as (b & Hb & _). by exists b. Qed.

(** A file as the generators write it *)
Definition key_file (fs : files) (path : string) (sk : PrivateKey) : Prop :=
  match private_kind sk with
  | RSA => read_file fs path = Ok (pb_private_key 0 (private_der sk))
  | Ed25519 => read_file fs path = Ok (pb_private_key 1 (private_raw sk ++ raw_bytes (public_of sk)))
  | _ => False
  end.

Lemma key_file_read fs path sk : key_file fs path sk -> get_private_key fs path = Ok (Some sk) /\
  exists p, get_peer_id_from_identity_path fs path = Ok (Some p) /\ get_peer_id_from_pubkey (public_of sk) = Some p.
Proof using LF VL sha256_digest.
  unfold key_file, get_private_key, get_peer_id_from_identity_path, get_peer_id_from_pubkey. rewrite public_kind.
  destruct (private_kind sk) eqn:Ek; [| |done|done]; intros ->; cbn [rbind]; rewrite parse_private by lia; cbn [rbind Z.eqb].
  - rewrite (der_load sk Ek). split; [done|]. destruct (rsa_id (public_of sk)) as [b Hb]. exists (PeerID_init b). cbn [rbind]. rewrite Hb. unfold get_rsa_peer_id. by rewrite Hb.
  - destruct (raw_load sk Ek) as [Hl Hr]. change (1 =? 0) with false. change (1 =? 1) with true. cbn iota. rewrite take_app_length' by done. rewrite Hr.
    split; [done|]. cbn [rbind]. eexists. split; [reflexivity|done].
Qed.

Definition generate (fs : files) (path : string) (sk : PrivateKey) : result (files * PeerID) :=
  match private_kind sk with
  | RSA => generate_rsa_private_key_file fs path sk
  | _ => generate_ed25519_private_key_file fs path sk
  end.

Lemma generated_file fs path sk fs' p : (private_kind sk = RSA \/ private_kind sk = Ed25519) -> generate fs path sk = Ok (fs', p) ->
  key_file fs' path sk /\ (forall q, q <> path -> dget fs' q = dget fs q) /\ get_peer_id_from_pubkey (public_of sk) = Some p.
Proof using LF.
  unfold generate, key_file, get_peer_id_from_pubkey. rewrite public_kind. intros [Hk|Hk]; rewrite Hk.
  - unfold generate_rsa_private_key_file, get_rsa_peer_id. intros Hg. mon_inv. destruct (write_read _ _ _ _ E0) as (Hr & _ & Ho). simplify_eq. by rewrite E.
  - unfold generate_ed25519_private_key_file. cbv zeta. intros Hg. mon_inv. destruct (write_read _ _ _ _ E) as (Hr & _ & Ho). by simplify_eq.
Qed.

(** A generated key file gives back its key, and every way to the peer identifier leads to the same one: the generator, the file, the public key, and the
    OpenSSH text of the public key with the function for its type.  Generating succeeds on a path that can be written, and leaves other files alone. *)
Theorem identity_file_roundtrip (fs : files) (path : string) (sk : PrivateKey) :
  private_kind sk = RSA \/ private_kind sk = Ed25519 -> (forall f, dget fs path = Some f -> read_only f = false) ->
  exists fs' p, generate fs path sk = Ok (fs', p) /\ get_private_key fs' path = Ok (Some sk) /\
    get_peer_id_from_identity_path fs' path = Ok (Some p) /\ extract_peer_id_from_public_key (public_of sk) = Ok (Some p) /\
    match private_kind sk with
    | RSA => extract_rsa_peer_id_from_ssh (ssh_bytes (public_of sk)) = Ok p
    | _ => extract_ed25519_peer_id_from_ssh (ssh_bytes (public_of sk)) = Ok (Some p)
    end /\ forall q, q <> path -> dget fs' q = dget fs q.
Proof using LF VL sha256_digest.
  intros Hk Hw. destruct (rsa_id (public_of sk)) as [b Hb].
  assert (Hg : exists fs' p, generate fs path sk = Ok (fs', p)).
  { unfold generate, generate_rsa_private_key_file, generate_ed25519_private_key_file. cbv zeta. rewrite Hb. destruct Hk as [-> | ->]; cbn [rbind]; rewrite (writable _ _ _ Hw); cbn [rbind]; eauto. }
  destruct Hg as (fs' & p & Hg). exists fs', p. destruct (generated_file _ _ _ _ _ Hk Hg) as (Hf & Ho & Hp).
  destruct (key_file_read _ _ _ Hf) as (Hr & p' & Hi & Hp'). rewrite Hp in Hp'. injection Hp' as <-. repeat split; try done.
  - unfold get_peer_id_from_pubkey, get_rsa_peer_id, extract_peer_id_from_public_key in Hp |- *. rewrite Hb in Hp |- *. destruct (key_kind (public_of sk)); cbn [rbind] in *; unfold get_ed25519_peer_id in Hp; by simplify_eq.
  - unfold extract_rsa_peer_id_from_ssh, extract_ed25519_peer_id_from_ssh. rewrite ssh_load. cbn [rbind]. unfold get_peer_id_from_pubkey, get_rsa_peer_id in Hp. pose proof (public_kind sk) as Hkk.
    destruct Hk as [Hk|Hk]; rewrite Hk in Hkk |- *; rewrite Hkk in Hp; [rewrite Hb in Hp |- *; by simplify_eq|]. rewrite Hkk, (raw_public _ Hkk). cbn [rbind]. by rewrite Hp.
Qed.

(** One file of [keygen] *)
Definition keygen_one (key_type : KeyKind) (fs : files) (path : string) (sk : PrivateKey) : result (files * bytes) :=
  match key_type with RSA => keygen_rsa fs path sk | Ed25519 => keygen_ed25519 fs path sk | _ => Raise ValueError end.

Lemma keygen_one_ok fs path sk : (private_kind sk = RSA \/ private_kind sk = Ed25519) -> (forall f, dget fs path = Some f -> read_only f = false) ->
  exists fs' digest, keygen_one (private_kind sk) fs path sk = Ok (fs', digest) /\ key_file fs' path sk /\
    get_peer_id_from_pubkey (public_of sk) = Some (PeerID_init digest) /\ (forall q, q <> path -> dget fs' q = dget fs q).
Proof using LF VL sha256_digest.
  intros Hk Hw. unfold key_file, get_peer_id_from_pubkey. rewrite public_kind. destruct (rsa_id (public_of sk)) as [b Hb]. destruct Hk as [Hk|Hk]; rewrite Hk.
  - unfold keygen_one, keygen_rsa. rewrite (writable _ _ _ Hw). cbn [rbind]. unfold read_file. rewrite dget_dset_eq. cbn [of_option rmap rbind contents key_type_code].
    rewrite parse_private by lia. cbn [rbind]. rewrite (der_load sk Hk). cbn [rbind]. rewrite Hb. cbn [rbind]. eexists _, b. split; [reflexivity|]. rewrite dget_dset_eq. split; [done|].
    unfold get_rsa_peer_id. rewrite Hb. split; [done|]. intros q Hq. by rewrite dget_dset_ne.
  - destruct (raw_load sk Hk) as [Hl Hr]. unfold keygen_one, keygen_ed25519, chmod_0400. rewrite (writable _ _ _ Hw). cbn [rbind]. rewrite dget_dset_eq. cbn [of_option rbind contents].
    unfold read_file. rewrite dget_dset_eq. cbn [of_option rmap rbind contents key_type_code]. rewrite parse_private by lia. cbn [rbind].
    rewrite take_app_length' by done. rewrite Hr. cbn [rbind]. unfold peer_eqb. rewrite bool_decide_true by done. eexists _, _. split; [reflexivity|]. rewrite dget_dset_eq. split; [done|]. split; [done|].
    intros q Hq. by rewrite !dget_dset_ne.
Qed.

Lemma keygen_loop key_type jobs fs digests0 : key_type = RSA \/ key_type = Ed25519 ->
  NoDup jobs.*1 -> Forall (fun job => private_kind job.2 = key_type /\ forall f, dget fs job.1 = Some f -> read_only f = false) jobs ->
  exists fs' digests,
    foldl (fun acc job => let* (fs, ds) := acc in let* (fs, d) := keygen_one key_type fs job.1 job.2 in Ok (fs, ds ++ [d])) (Ok (fs, digests0)) jobs = Ok (fs', digests0 ++ digests) /\
    Forall2 (fun job d => key_file fs' job.1 job.2 /\ get_peer_id_from_pubkey (public_of job.2) = Some (PeerID_init d)) jobs digests /\
    (forall q, q ∉ jobs.*1 -> dget fs' q = dget fs q).
Proof using LF VL sha256_digest.
  intros Hkt. revert fs digests0. induction jobs as [|[path sk] jobs IH]; intros fs digests0 Hnd Hall.
  - exists fs, []. rewrite app_nil_r. split; [done|]. split; [constructor|done].
  - apply NoDup_cons in Hnd as [Hni Hnd]. apply Forall_cons in Hall as [[Hk Hw] Hall]. cbn [fst snd] in *.
    destruct (keygen_one_ok fs path sk) as (fs1 & d & Hone & Hf & Hp & Ho); [by rewrite Hk|done|]. rewrite Hk in Hone.
    destruct (IH fs1 (digests0 ++ [d])) as (fs' & ds & Hfold & Hall2 & Hother); [done| |].
    { rewrite Forall_forall in Hall |- *. intros job Hj. destruct (Hall job Hj) as [Hjk Hjw]. split; [done|]. rewrite Ho; [done|]. intros <-. apply Hni, list_elem_of_fmap. by exists job. }
    exists fs', (d :: ds). split.
    { rewrite <- app_assoc in Hfold. refine (eq_trans _ Hfold). cbn [foldl fst snd]. f_equal. change (rbind (Ok ?x) ?f) with (f x). cbn beta iota. by rewrite Hone. }
    split.
    + constructor; [|done]. split; [|done]. cbn [fst snd]. unfold key_file, read_file in *. by rewrite (Hother path Hni).
    + intros q Hq. cbn in Hq. apply not_elem_of_cons in Hq as [Hq1 Hq2]. rewrite Hother by done. by apply Ho.
Qed.

(** [keygen] for different paths that can be written succeeds; every file then gives back its key and the identifier that was printed for it. *)
Theorem keygen_files_usable (fs : files) (key_type : KeyKind) (jobs : list (string * PrivateKey)) : key_type = RSA \/ key_type = Ed25519 ->
  NoDup jobs.*1 -> Forall (fun job => private_kind job.2 = key_type /\ forall f, dget fs job.1 = Some f -> read_only f = false) jobs ->
  exists fs' digests, keygen_main fs key_type jobs = Ok (fs', digests) /\
    Forall2 (fun job d => get_private_key fs' job.1 = Ok (Some job.2) /\ get_peer_id_from_identity_path fs' job.1 = Ok (Some (PeerID_init d))) jobs digests.
Proof using LF VL sha256_digest.
  intros Hkt Hnd Hall. destruct (keygen_loop key_type jobs fs [] Hkt Hnd Hall) as (fs' & ds & Hfold & Hall2 & _). exists fs', ds. split; [exact Hfold|].
  eapply Forall2_impl; [exact Hall2|]. cbn beta. intros [path sk] d [Hf Hp]. destruct (key_file_read _ _ _ Hf) as (Hr & p & Hi & Hp'). cbn [fst snd] in *. rewrite Hp in Hp'. by injection Hp' as <-.
Qed.

(** A node with an Ed25519 key does not recognise itself as the caller of [rpc_math] or [rpc_inference_stream]: the check reads the public key as an RSA
    key, whose identifier is never that of an Ed25519 key. *)
Theorem ed25519_caller_not_recognised (sk : PrivateKey) (own : PeerID) : private_kind sk = Ed25519 -> get_peer_id_from_pubkey (public_of sk) = Some own ->
  check_caller true own false (ssh_bytes (public_of sk)) = Raise ValueError.
Proof using LF VL sha256_digest.
  intros Hk Hp. unfold check_caller, extract_rsa_peer_id_from_ssh. rewrite ssh_load. cbn [rbind]. destruct (rsa_bytes sha256_digest (public_of sk)) as (b & Hb & Hcode & _). rewrite Hb. cbn [rmap rbind].
  unfold get_peer_id_from_pubkey in Hp. rewrite public_kind, Hk in Hp. unfold get_ed25519_peer_id in Hp. injection Hp as <-.
  unfold peer_eqb. cbn [peer_bytes PeerID_init]. rewrite bool_decide_false; [done|]. intros ->. by destruct (ed_not_sha256 (public_of sk)).
Qed.
End Facts.

Section InferenceFacts.
Context {PrivateKey PublicKey : Type} `{KL : KeyLib PublicKey} `{KF : KeyFiles PrivateKey PublicKey} `{VI : Varint} `{NL : NumericsLaws}.
Variable legacy : bool.
Variable number_text : dtype -> Z -> bytes.
Variable clock : nat -> Z.

Lemma deserialize_serialize t : proper t -> exists m, serialize_torch_tensor legacy true NONE t = Ok m /\ deserialize_torch_tensor m = Ok t.
Proof using NL.
  intros Hp. exists (compress_none legacy t). split; [done|]. pose proof (deserialize_compress_none legacy t 0 Hp) as Hd. exact Hd.
Qed.

Lemma responses_read own i tokens failure : Forall (fun t => proper t /\ length (elems t) = 1%nat) tokens ->
  read_responses (produced (respond_all legacy number_text clock own i tokens failure)) = tokens /\ fails (respond_all legacy number_text clock own i tokens failure) = failure.
Proof using NL.
  intros Hall. revert i. induction Hall as [|t tokens [Hp Hl] _ IH]; intros i; [done|]. cbn [respond_all]. destruct (deserialize_serialize t Hp) as (m & Hm & Hd).
  unfold respond, item_text. destruct (elems t) as [|x [|]] eqn:Ee; try done. cbn [rbind]. rewrite Hm. cbn [rbind produced fails read_responses read_tensors ir_tensors]. rewrite Hd.
  destruct (IH (S i)) as [-> ->]. done.
Qed.

(** What the model produces arrives: the client of an inference call yields exactly the tensors that the model of the callee produced, in order, when they
    are single numbers.  It then ends normally, also when the model had failed. *)
Theorem inference_delivered (submit : Torch -> result (stream Torch)) (authorizer : bool) (own : PeerID) (client_key : bytes) (caller : PeerID)
    (tensor : Torch) (tokens : stream Torch) :
  proper tensor -> submit tensor = Ok tokens -> Forall (fun t => proper t /\ length (elems t) = 1%nat) (produced tokens) ->
  extract_rsa_peer_id_from_ssh client_key = Ok caller ->
  let served := rpc_inference_stream legacy number_text clock submit authorizer own client_key in
  call_inference_stream legacy tensor true (fun request => Ok (served request)) = mkStream (produced tokens) None.
Proof using NL.
  intros Hp Hs Hall Hc. cbv zeta. unfold call_inference_stream. destruct (deserialize_serialize tensor Hp) as (m & Hm & Hd). rewrite Hm.
  unfold rpc_inference_stream. rewrite Hd. cbn [rbind]. unfold check_caller. rewrite Hc. cbn [rbind]. unfold should_process. rewrite andb_false_r.
  destruct authorizer; cbn [rbind]; rewrite Hs; by destruct (responses_read own 0 (produced tokens) (fails tokens) Hall) as [-> _].
Qed.
End InferenceFacts.

(** ** Witnesses *)

#[local] Existing Instance leb_varint.
#[local] Existing Instance leb_varint_laws.
#[local] Existing Instance toy_keys.

(** Private keys of two kinds; an Ed25519 key is one of two, as 32 equal bytes. *)
Inductive toy_private : Type := ToyRSA (b : bytes) | ToyEd (x : bool).
Definition toy_byte (x : bool) : Z := if x then 1 else 0.

#[local] Instance toy_files : KeyFiles toy_private (KeyKind * bytes) := {|
  public_of sk := match sk with ToyRSA b => (RSA, b) | ToyEd x => (Ed25519, [toy_byte x]) end;
  private_kind sk := match sk with ToyRSA _ => RSA | ToyEd _ => Ed25519 end;
  private_der sk := match sk with ToyRSA b => b | ToyEd x => [toy_byte x] end;
  private_raw sk := match sk with ToyRSA b => b | ToyEd x => replicate 32 (toy_byte x) end;
  load_der_private_key b := Ok (ToyRSA b);
  ed25519_from_private_bytes b := if decide (b = replicate 32 1) then Ok (ToyEd true) else if decide (b = replicate 32 0) then Ok (ToyEd false) else Raise ValueError;
  pb_private_key k data := k :: data;
  parse_private_key b := match b with k :: data => Ok (k, data) | [] => Raise ValueError end;
  ssh_bytes pk := key_type_code pk.1 :: pk.2;
  load_ssh_public_key b := match b with
                           | k :: data => Ok (if k =? 0 then RSA else if k =? 1 then Ed25519 else if k =? 2 then Secp256k1 else ECDSA, data)
                           | [] => Raise ValueError
                           end;
  ed25519_from_public_bytes b := Ok (Ed25519, b) |}.

#[local] Instance toy_files_laws : KeyFilesLaws toy_private (KeyKind * bytes).
Proof.
  split; [by intros []|done|by intros [] |by intros [|[]] |by intros [[] ?]|]. intros [k b] Hk. cbn in *. by subst k.
Qed.

Definition toy_pid (pk : KeyKind * bytes) : PeerID := default (PeerID_init []) (get_peer_id_from_pubkey pk).

Lemma identity_file_roundtrip_witness : exists fs' p, generate [] "server.id" (ToyEd true) = Ok (fs', p) /\
  extract_ed25519_peer_id_from_ssh (ssh_bytes (public_of (ToyEd true))) = Ok (Some p).
Proof.
  destruct (identity_file_roundtrip toy_sha256 [] "server.id" (ToyEd true)) as (fs' & p & Hg & _ & _ & _ & He & _); [by right|done|]. by exists fs', p.
Defined.

Lemma keygen_files_usable_witness : exists fs' digests, keygen_main [] Ed25519 [("node.key"%string, ToyEd true); ("client.key"%string, ToyEd false)] = Ok (fs', digests) /\
  Forall2 (fun job d => get_private_key fs' job.1 = Ok (Some job.2) /\ get_peer_id_from_identity_path fs' job.1 = Ok (Some (PeerID_init d)))
    [("node.key"%string, ToyEd true); ("client.key"%string, ToyEd false)] digests.
Proof. apply (keygen_files_usable toy_sha256); [by right|repeat constructor; set_solver|repeat constructor; done]. Defined.

Lemma ed25519_caller_not_recognised_witness : check_caller true (toy_pid (Ed25519, [1])) false (ssh_bytes (public_of (ToyEd true))) = Raise ValueError.
Proof. apply (ed25519_caller_not_recognised toy_sha256); reflexivity. Defined.

Definition toy_token (x : Z) : Torch := mkTorch int16 [1] [x] false.
Lemma toy_token_proper x : 0 <= x < 2 ^ 16 -> proper (toy_token x) /\ length (elems (toy_token x)) = 1%nat.
Proof. intros Hx. split; [|done]. split; [repeat constructor; lia|]. split; [reflexivity|]. split; [repeat constructor; cbn; lia|]. by split. Qed.

(** The model fails after two tokens; the client sees a complete stream. *)
Lemma inference_delivered_witness :
  call_inference_stream true toy_ints true
    (fun request => Ok (rpc_inference_stream true (fun _ x => [x]) Z.of_nat (fun _ => Ok (mkStream [toy_token 5; toy_token 6] (Some RuntimeError))) true
                          (toy_pid (RSA, [1])) (ssh_bytes (RSA, [2])) request)) = mkStream [toy_token 5; toy_token 6] None.
Proof.
  refine (inference_delivered true _ Z.of_nat (fun _ => Ok (mkStream [toy_token 5; toy_token 6] (Some RuntimeError))) true (toy_pid (RSA, [1])) (ssh_bytes (RSA, [2])) (toy_pid (RSA, [2])) toy_ints _ _ eq_refl _ _).
  - apply toy_proper.
  - constructor; [|constructor; [|constructor]]; apply toy_token_proper; lia.
  - vm_compute. reflexivity.
Defined.
