(* ===== verification/Utilities.v ===== *)
(** * Small utilities ([mesh/utils/performance_ema.py], [networking.py], [ban.py], [reachability.py])

    The moving average of the speed of a task, the choice of an IP address to announce, the bans of peers by the firewall, and
    the checks whether other peers can reach this one.  Clock readings, the answers of the firewall and of other peers are
    arguments; intervals are rationals. *)

From Stdlib Require Import QArith Qminmax Lqa.
From S2P Require Import Prelude DHTID Base58 HashTable Framing PeerIdentity Text Base32 CID Multiaddr MultiaddrFacts.
#[local] Open Scope Z_scope.

(** ** [PerformanceEMA] *)

Section PerformanceEMA.
#[local] Open Scope Q_scope.

Record EMA : Type := mkEMA {
  alpha : Q; eps : Q; num_updates : nat; ema_seconds_per_sample : Q; samples_per_second : Q; timestamp : Q; paused : bool }.
Definition new_ema (alpha eps : Q) (paused : bool) (now : Q) : EMA := mkEMA alpha eps 0 0 eps now paused.

Fixpoint qpow (x : Q) (n : nat) : Q := match n with O => 1 | S n' => x * qpow x n' end.
Definition qmax (x y : Q) : Q := if Qle_bool x y then y else x.
Definition qdiv (x y : Q) : result Q := if Qeq_bool y 0 then Raise ZeroDivisionError else Ok (x / y).

(** [update]: the failed divisions come after the changes of the state. *)
Definition update (e : EMA) (now task_size : Q) (interval : option Q) : EMA * result Q :=
  if Qle_bool task_size 0 then (e, Raise AssertionError)
  else
    let e1 := if paused e then e else mkEMA (alpha e) (eps e) (num_updates e) (ema_seconds_per_sample e) (samples_per_second e) now (paused e) in
    match (match interval with Some i => Some i | None => if paused e then None else Some (now - timestamp e) end) with
    | None => (e1, Raise AssertionError)
    | Some i =>
        let ema := alpha e * i / task_size + (1 - alpha e) * ema_seconds_per_sample e in
        let n := S (num_updates e) in
        let e2 := mkEMA (alpha e) (eps e) n ema (samples_per_second e) (timestamp e1) (paused e) in
        match (let* adjusted_seconds_per_sample := qdiv ema (1 - qpow (1 - alpha e) n) in qdiv 1 (qmax adjusted_seconds_per_sample (eps e))) with
        | Raise x => (e2, Raise x)
        | Ok s => (mkEMA (alpha e) (eps e) n ema s (timestamp e1) (paused e), Ok s)
        end
    end.

Definition reset_timer (e : EMA) (now : Q) : EMA :=
  mkEMA (alpha e) (eps e) (num_updates e) (ema_seconds_per_sample e) (samples_per_second e) now (paused e).
(** Entering and leaving [pause] *)
Definition set_paused (e : EMA) (b : bool) : EMA :=
  mkEMA (alpha e) (eps e) (num_updates e) (ema_seconds_per_sample e) (samples_per_second e) (timestamp e) b.
Definition pause (e : EMA) : EMA * bool := (set_paused e true, paused e).
Definition leave_pause (e : EMA) (was_paused : bool) (now : Q) : EMA := reset_timer (set_paused e was_paused) now.
(** The end of [update_threadsafe], entered at [start_timestamp] *)
Definition update_threadsafe (e : EMA) (start_timestamp now task_size : Q) : EMA * result Q :=
  update e now task_size (Some (now - qmax start_timestamp (timestamp e))).

(** ** Facts *)

Lemma qmax_l x y : x <= qmax x y.
Proof. unfold qmax. destruct (Qle_bool x y) eqn:E; [by apply Qle_bool_iff|lra]. Qed.
Lemma qmax_r x y : y <= qmax x y.
Proof. unfold qmax. destruct (Qle_bool x y) eqn:E; [lra|]. destruct (Qlt_le_dec y x) as [H|H]; [lra|]. apply Qle_bool_iff in H. congruence. Qed.
Lemma qmax_mono x x' y : x <= x' -> qmax x y <= qmax x' y.
Proof. intros Hx. unfold qmax at 1. destruct (Qle_bool x y); [apply qmax_r|]. pose proof (qmax_l x' y). lra. Qed.

Lemma qpow_bounds x n : 0 <= x -> x < 1 -> 0 <= qpow x (S n) /\ qpow x (S n) <= x.
Proof.
  intros H0 H1. assert (Hn : 0 <= qpow x n /\ qpow x n <= 1) by (induction n as [|n IH]; cbn; [lra|nra]). cbn. nra.
Qed.

(** The speed of the tasks so far is between two bounds: so is the adjusted average. *)
Record ema_inv (lo hi : Q) (e : EMA) : Prop := {
  em_lo : lo * (1 - qpow (1 - alpha e) (num_updates e)) <= ema_seconds_per_sample e;
  em_hi : ema_seconds_per_sample e <= hi * (1 - qpow (1 - alpha e) (num_updates e));
  em_speed : num_updates e <> 0%nat -> 1 / qmax hi (eps e) <= samples_per_second e /\ samples_per_second e <= 1 / qmax lo (eps e);
}.

Lemma inv_mono x y : 0 < x -> x <= y -> 1 / y <= 1 / x.
Proof. intros Hx Hy. apply Qle_shift_div_l; [lra|]. assert (E : 1 / y * x == x / y) by (field; lra). rewrite E. apply Qle_shift_div_r; lra. Qed.

Lemma update_inv lo hi e now task_size i e' r : 0 < alpha e -> alpha e <= 1 -> 0 < eps e -> ema_inv lo hi e -> 0 < task_size ->
  lo <= i / task_size -> i / task_size <= hi -> update e now task_size (Some i) = (e', r) ->
  ema_inv lo hi e' /\ alpha e' = alpha e /\ eps e' = eps e /\ num_updates e' = S (num_updates e) /\ r = Ok (samples_per_second e').
Proof.
  intros Ha Ha1 He [Hlo Hhi _] Ht Hil Hih. unfold update. destruct (Qle_bool task_size 0) eqn:Et; [apply Qle_bool_iff in Et; lra|]. cbv zeta.
  assert (Hp : 0 <= qpow (1 - alpha e) (num_updates e)).
  { destruct (num_updates e) as [|n]; [cbn; lra|]. apply qpow_bounds; lra. }
  destruct (qpow_bounds (1 - alpha e) (num_updates e)) as [Hq0 Hq1]; [lra|lra|]. set (q := qpow (1 - alpha e) (S (num_updates e))) in *.
  assert (Hd : 0 < 1 - q) by lra. assert (Hx : alpha e * i / task_size == alpha e * (i / task_size)) by (field; lra).
  assert (Hqe : q == (1 - alpha e) * qpow (1 - alpha e) (num_updates e)) by reflexivity.
  set (ema := alpha e * i / task_size + (1 - alpha e) * ema_seconds_per_sample e). assert (Hl : lo * (1 - q) <= ema) by (unfold ema; rewrite Hx, Hqe; nra).
  assert (Hh : ema <= hi * (1 - q)) by (unfold ema; rewrite Hx, Hqe; nra).
  unfold qdiv. destruct (Qeq_bool (1 - q) 0) eqn:Eq; [apply Qeq_bool_iff in Eq; lra|]. cbn [rbind].
  assert (Hpos : forall x, 0 < qmax x (eps e)) by (intros x; pose proof (qmax_r x (eps e)); lra).
  destruct (Qeq_bool (qmax (ema / (1 - q)) (eps e)) 0) eqn:Em; [apply Qeq_bool_iff in Em; pose proof (Hpos (ema / (1 - q))); lra|]. intros [= <- <-].
  split; [|done]. split; cbn [alpha eps num_updates ema_seconds_per_sample samples_per_second]; [exact Hl|exact Hh|]. intros _. split; apply inv_mono; try apply Hpos; apply qmax_mono.
  - apply Qle_shift_div_r; lra.
  - apply Qle_shift_div_l; lra.
Qed.

Definition run_updates (e : EMA) (tasks : list (Q * Q * Q)) : EMA := foldl (fun e '(now, task_size, interval) => (update e now task_size (Some interval)).1) e tasks.

(** The estimated speed is between the extremes of the measured ones: when every task took between [lo] and [hi] seconds per sample, the estimate
    after any number of updates is between [1 / max(hi, eps)] and [1 / max(lo, eps)] samples per second, and no update fails. *)
Theorem ema_within_measured (a eps0 lo hi now0 : Q) (paused0 : bool) (tasks : list (Q * Q * Q)) : 0 < a -> a <= 1 -> 0 < eps0 -> tasks <> [] ->
  Forall (fun '(_, task_size, interval) => 0 < task_size /\ lo <= interval / task_size /\ interval / task_size <= hi) tasks ->
  let e := run_updates (new_ema a eps0 paused0 now0) tasks in
  num_updates e = length tasks /\ 1 / qmax hi eps0 <= samples_per_second e /\ samples_per_second e <= 1 / qmax lo eps0.
Proof.
  intros Ha Ha1 He Hne Hall. cbv zeta.
  assert (Hgen : forall e, alpha e = a -> eps e = eps0 -> ema_inv lo hi e ->
    ema_inv lo hi (run_updates e tasks) /\ eps (run_updates e tasks) = eps0 /\ num_updates (run_updates e tasks) = (num_updates e + length tasks)%nat).
  { clear Hne. induction Hall as [|[[now t] i] tasks (Ht & Hl & Hh) _ IH]; intros e Hea Hee Hi; [cbn; by rewrite Nat.add_0_r|]. unfold run_updates. cbn [foldl].
    destruct (update e now t (Some i)) as [e' r] eqn:Eu. destruct (update_inv lo hi e now t i e' r) as (Hi' & Ha' & He' & Hn' & _); rewrite ?Hea, ?Hee; try done.
    cbn [fst]. fold (run_updates e' tasks). destruct (IH e') as (H1 & H2 & H3); [congruence|congruence|done|]. split; [done|]. split; [done|]. rewrite H3, Hn'. cbn. lia. }
  destruct (Hgen (new_ema a eps0 paused0 now0)) as (Hi & Hee & Hn); [done|done| |].
  { split; cbn; [lra|lra|done]. }
  cbn in Hn. split; [done|]. destruct (em_speed _ _ _ Hi) as [H1 H2]; [rewrite Hn; by destruct tasks|]. rewrite Hee in H1. rewrite Hee in H2. done.
Qed.

Lemma ema_within_measured_witness :
  let e := run_updates (new_ema (1 # 10) (1 # 1000) false 0) [(1, 2, 4); (3, 1, 3)] in
  num_updates e = 2%nat /\ 1 / qmax 3 (1 # 1000) <= samples_per_second e /\ samples_per_second e <= 1 / qmax 2 (1 # 1000).
Proof. apply (ema_within_measured (1 # 10) (1 # 1000) 2 3 0 false [(1, 2, 4); (3, 1, 3)]); [lra|lra|lra|done|]. repeat constructor; vm_compute; discriminate. Defined.
End PerformanceEMA.

(** ** [choose_ip_address] *)

(** The first result of a loop that returns from inside *)
Fixpoint first_some {A B} (f : A -> result (option B)) (l : list A) : result (option B) :=
  match l with
  | [] => Ok None
  | x :: l' => let* r := f x in match r with Some y => Ok (Some y) | None => first_some f l' end
  end.

Section ChooseIP.
Context `{Varint} `{Multiformats} `{Unicode} `{NetAddr} `{Idna}.
(** [ip_address(value).is_global], by the address blocks of the registries of IANA *)
Variable is_global : text -> result bool.

(** The value of the protocol and whether it is global, if the address has the protocol; one without a value is no IP address. *)
Definition candidate (protocol : text) (addr : Multiaddr) : result (option (text * bool)) :=
  let* has := contains addr (PName protocol) in
  if has then
    let* value := value_for_protocol addr (PName protocol) in
    match value with
    | None => Raise ValueError
    | Some v => let* g := is_global v in Ok (Some (v, g))
    end
  else Ok None.

Definition try_address (need_global : bool) (protocol : text) (addr : Multiaddr) : result (option text) :=
  let* c := candidate protocol addr in
  match c with Some (v, g) => if Bool.eqb g need_global then Ok (Some v) else Ok None | None => Ok None end.

Definition choose_ip_address (maddrs : list Multiaddr) (prefer_global : bool) (protocol_priority : list text) : result text :=
  let* r := first_some (fun need_global => first_some (fun protocol => first_some (try_address need_global protocol) maddrs) protocol_priority)
              [prefer_global; negb prefer_global] in
  of_option ValueError r.

(** ** Facts *)

Lemma first_some_ok {A B} (f : A -> result (option B)) l y : first_some f l = Ok (Some y) <->
  exists l1 x l2, l = l1 ++ x :: l2 /\ f x = Ok (Some y) /\ Forall (fun z => f z = Ok None) l1.
Proof.
  induction l as [|x l IH]; cbn [first_some]; [split; [done|by intros ([]&?&?&?&_)]|]. split.
  - destruct (f x) as [[z|]|] eqn:E; cbn [rbind]; [intros [= ->]; by exists [], x, l| |done]. intros Hf. apply IH in Hf as (l1 & z & l2 & -> & Hz & Hall). exists (x :: l1), z, l2. auto.
  - intros (l1 & z & l2 & El & Hz & Hall). destruct l1 as [|w l1]; cbn in El; injection El as -> ->; [by rewrite Hz|]. inversion Hall as [|? ? Hw Hall']; subst. rewrite Hw. cbn [rbind]. apply IH. by exists l1, z, l2.
Qed.

Lemma first_some_none {A B} (f : A -> result (option B)) l : first_some f l = Ok None <-> Forall (fun x => f x = Ok None) l.
Proof.
  induction l as [|x l IH]; cbn [first_some]; [split; [constructor|done]|]. rewrite Forall_cons, <- IH. destruct (f x) as [[z|]|]; cbn [rbind]; split; intros Hx; try done; destruct Hx; done.
Qed.

Lemma try_address_some need p a v : try_address need p a = Ok (Some v) <-> candidate p a = Ok (Some (v, need)).
Proof.
  unfold try_address. destruct (candidate p a) as [[[v' g]|]|]; cbn [rbind]; [|done..]. destruct g, need; cbn; split; intros E; by simplify_eq.
Qed.

Lemma try_address_none need p a v : try_address need p a = Ok None -> candidate p a <> Ok (Some (v, need)).
Proof. intros Hn Hc. apply try_address_some in Hc. congruence. Qed.

(** [choose_ip_address] returns the value of an address that has the wanted scope if there is one, only otherwise one of the other scope; within the
    scope, it takes the first protocol by priority that any address offers, and the first such address. *)
Theorem choose_ip_best (maddrs : list Multiaddr) (prefer_global : bool) (protocol_priority : list text) (v : text) :
  choose_ip_address maddrs prefer_global protocol_priority = Ok v ->
  exists need protocols1 protocol protocols2 addrs1 addr addrs2,
    protocol_priority = protocols1 ++ protocol :: protocols2 /\ maddrs = addrs1 ++ addr :: addrs2 /\ candidate protocol addr = Ok (Some (v, need)) /\
    (need = prefer_global \/ forall p a w, p ∈ protocol_priority -> a ∈ maddrs -> candidate p a <> Ok (Some (w, prefer_global))) /\
    (forall p a w, p ∈ protocols1 -> a ∈ maddrs -> candidate p a <> Ok (Some (w, need))) /\
    (forall a w, a ∈ addrs1 -> candidate protocol a <> Ok (Some (w, need))).
Proof.
  unfold choose_ip_address. intros Hc. mon_inv. destruct a as [y|]; [|done]. injection Hc as ->. apply first_some_ok in E as (l1 & need & l2 & El & Hp & Hno).
  apply first_some_ok in Hp as (ps1 & p & ps2 & -> & Ha & Hps1). apply first_some_ok in Ha as (as1 & a & as2 & -> & Hv & Has1).
  assert (Hskip : forall need' ps p' a' w, Forall (fun p => first_some (try_address need' p) (as1 ++ a :: as2) = Ok None) ps -> p' ∈ ps -> a' ∈ as1 ++ a :: as2 -> candidate p' a' <> Ok (Some (w, need'))).
  { intros need' ps p' a' w Hall Hp' Ha'. rewrite Forall_forall in Hall. specialize (Hall p' Hp'). apply first_some_none in Hall. rewrite Forall_forall in Hall. by apply try_address_none, Hall. }
  exists need, ps1, p, ps2, as1, a, as2. split; [done|]. split; [done|]. split; [by apply try_address_some|]. split_and!.
  - destruct l1 as [|n1 l1]; [left; cbn in El; congruence|]. right. intros p' a' w Hp' Ha'. cbn in El. injection El as <- El. apply Forall_cons in Hno as [Hno _]. apply first_some_none in Hno. by eapply Hskip.
  - intros p' a' w Hp' Ha'. by eapply Hskip.
  - intros a' w Ha'. rewrite Forall_forall in Has1. by apply try_address_none, Has1.
Qed.
End ChooseIP.

(** ** Bans *)

(** The commands that are given to the firewall *)
Inductive command : Type := UfwDeny (ip : text) | UfwStatus | UfwDeleteDeny (ip : text).

(** [sub in s] *)
Fixpoint is_in (sub s : text) : bool :=
  bool_decide (take (length sub) s = sub) || match s with [] => false | _ :: s' => is_in sub s' end.

(** [subprocess.run(..., check=True)]: a command that fails is a [CalledProcessError]; that one alone is handled. *)
Definition handled {A} (r : result A) (otherwise : A) : result A := match r with Raise CalledProcessError => Ok otherwise | r => r end.

Definition block_ip (run : command -> result text) (ip_address : text) : list command * result bool :=
  ([UfwDeny ip_address], handled (let* _ := run (UfwDeny ip_address) in Ok true) false).

Definition unblock_ip (run : command -> result text) (ip_address : text) : list command * result bool :=
  match run UfwStatus with
  | Raise e => ([UfwStatus], handled (Raise e) false)
  | Ok stdout =>
      if negb (is_in ip_address stdout) then ([UfwStatus], Ok false)
      else ([UfwStatus; UfwDeleteDeny ip_address], handled (let* _ := run (UfwDeleteDeny ip_address) in Ok true) false)
  end.

(** The third part of every address that mentions [/ip4/] *)
Definition peer_ips (multiaddrs : list text) : result (list text) :=
  mapM_r (fun addr => of_option IndexError ((split_on 47 addr) !! 2%nat)) (List.filter (is_in (lit "/ip4/")) multiaddrs).

Fixpoint for_ips (action : text -> list command * result bool) (ips : list text) : list command * result unit :=
  match ips with
  | [] => ([], Ok tt)
  | ip :: rest =>
      let '(cs, r) := action ip in
      match r with Raise e => (cs, Raise e) | Ok _ => let '(cs', r') := for_ips action rest in (cs ++ cs', r') end
  end.

Fixpoint for_peers (action : text -> list command * result bool) (peers_info : pydict text (list text)) (peer_ids : list text) : list command * result unit :=
  match peer_ids with
  | [] => ([], Ok tt)
  | peer_id :: rest =>
      let '(cs, r) := match dget peers_info peer_id with
                      | Some multiaddrs => match peer_ips multiaddrs with Ok ips => for_ips action ips | Raise e => ([], Raise e) end
                      | None => ([], Ok tt)
                      end in
      match r with Raise e => (cs, Raise e) | Ok _ => let '(cs', r') := for_peers action peers_info rest in (cs ++ cs', r') end
  end.

(** [peers] is what [list_peers] gives: identifiers as texts, with the texts of their addresses. *)
Definition ban_peers (run : command -> result text) (peers : list (text * list text)) (peer_ids : list text) : list command * result unit :=
  for_peers (block_ip run) (dict_of_list peers) peer_ids.
Definition unban_peers (run : command -> result text) (peers : list (text * list text)) (peer_ids : list text) : list command * result unit :=
  for_peers (unblock_ip run) (dict_of_list peers) peer_ids.

(** An address of a peer with this IPv4 address *)
Definition direct (ip addr : text) : Prop := (47 ∉ ip) /\ exists rest, addr = lit "/ip4/" ++ ip ++ 47 :: rest.
(** An address of another kind *)
Definition no_ip4 (addr : text) : Prop := is_in (lit "/ip4/") addr = false.

Lemma is_in_prefix sub rest : is_in sub (sub ++ rest) = true.
Proof. destruct (sub ++ rest) eqn:E; cbn [is_in]; rewrite <- E, take_app_length, bool_decide_true by done; done. Qed.

Lemma direct_ip ip addr : direct ip addr -> (split_on 47 addr) !! 2%nat = Some ip.
Proof.
  intros [Hip [rest ->]]. change (lit "/ip4/" ++ ip ++ 47 :: rest) with ([] ++ 47 :: (lit "ip4" ++ 47 :: (ip ++ 47 :: rest))).
  rewrite (split_on_app 47 []), (split_on_app 47 (lit "ip4")), (split_on_app 47 ip), (split_no_sep 47 ip Hip). reflexivity.
Qed.

Lemma peer_ips_direct (addrs : list text) (ips : list text) :
  Forall2 (fun ip addr => direct ip addr) ips (List.filter (is_in (lit "/ip4/")) addrs) -> peer_ips addrs = Ok ips.
Proof.
  unfold peer_ips. generalize (List.filter (is_in (lit "/ip4/")) addrs). intros l Hall. induction Hall as [|ip a ips l Ha _ IH]; [done|]. cbn [mapM_r]. by rewrite (direct_ip _ _ Ha), IH.
Qed.

Lemma block_all run ips : (forall c, run c = Raise CalledProcessError \/ exists t, run c = Ok t) -> for_ips (block_ip run) ips = (map UfwDeny ips, Ok tt).
Proof.
  intros Hrun. induction ips as [|ip ips IH]; [done|]. cbn [for_ips block_ip map]. rewrite IH. destruct (Hrun (UfwDeny ip)) as [-> |[t ->]]; done.
Qed.

(** Banning peers denies exactly the IPv4 addresses of the banned peers that are connected, in order, whether the single commands succeed or fail, when
    their addresses with [/ip4/] start with it. *)
Theorem ban_denies_peer_ips (run : command -> result text) (peers : list (text * list text)) (peer_ids : list text) (ips_of : text -> list text) :
  (forall c, run c = Raise CalledProcessError \/ exists t, run c = Ok t) ->
  (forall p addrs, dget (dict_of_list peers) p = Some addrs -> Forall2 direct (ips_of p) (List.filter (is_in (lit "/ip4/")) addrs)) ->
  ban_peers run peers peer_ids = (map UfwDeny (mjoin (map (fun p => if dmem (dict_of_list peers) p then ips_of p else []) peer_ids)), Ok tt).
Proof.
  intros Hrun Haddr. unfold ban_peers. induction peer_ids as [|p ids IH]; [done|]. cbn [for_peers map]. rewrite IH. change (mjoin (?x :: ?y)) with (x ++ mjoin y). rewrite map_app.
  unfold dmem. destruct (dget (dict_of_list peers) p) as [addrs|] eqn:Ep; [rewrite bool_decide_true by done|by rewrite bool_decide_false]. rewrite (peer_ips_direct _ _ (Haddr p addrs Ep)). by rewrite (block_all run _ Hrun).
Qed.

(** ** Reachability *)

(** What an attempt to ask the validator observes *)
Inductive probe : Type := Answered (success : bool) | ProbeFailed.

(** [validate_reachability]: [attempts] is [floor(wait_time / retry_delay) + 1]; a service that is down does not stop the server. *)
Fixpoint validate_loop (attempts : nat) (attempt_no : nat) (ask : nat -> probe) : result unit :=
  match attempts with
  | O => Raise RuntimeError
  | S n => match ask attempt_no with
           | Answered true | ProbeFailed => Ok tt
           | Answered false => validate_loop n (S attempt_no) ask
           end
  end.
Definition validate_reachability (wait_time retry_delay : Z) (ask : nat -> probe) : result unit :=
  if retry_delay =? 0 then Raise ZeroDivisionError
  else if wait_time / retry_delay + 1 <=? 0 then Raise UnboundLocalError
  else validate_loop (Z.to_nat (wait_time / retry_delay + 1)) 0 ask.

(** [check_direct_reachability]: the answers of the known peers, in the order of the routing table *)
Fixpoint check_loop (answers : list (option bool)) (successes requests max_peers : Z) : Z * Z :=
  match answers with
  | [] => (successes, requests)
  | None :: rest => check_loop rest successes requests max_peers
  | Some probe_available :: rest =>
      let successes := successes + Z.b2z probe_available in let requests := requests + 1 in
      if max_peers <=? requests then (successes, requests) else check_loop rest successes requests max_peers
  end.
Definition check_direct_reachability (answers : list (option bool)) (max_peers : Z) (threshold : Q) : option bool :=
  let '(successes, requests) := check_loop answers 0 0 max_peers in
  if 0 <? requests then Some (Qle_bool threshold (inject_Z successes / inject_Z requests)) else None.

(** [call_check], from the answer of the stub, and [rpc_check], which asks the peer itself when it is not the callee *)
Definition call_check (answer : result bool) : option bool := match answer with Ok b => Some b | Raise _ => None end.
Definition rpc_check (local_id check_peer : PeerID) (ask : PeerID -> result bool) : bool :=
  if peer_eqb check_peer (OPeer local_id) then true else bool_decide (call_check (ask check_peer) = Some true).
(** The time limit of a call *)
Definition check_timeout (wait_timeout : Z) (remote_peer check_peer : PeerID) : Z :=
  if peer_eqb check_peer (OPeer remote_peer) then wait_timeout else wait_timeout * 2.

Lemma check_loop_spec answers : forall s r m, r < m -> let asked := take (Z.to_nat (m - r)) (omap id answers) in
  check_loop answers s r m = (s + Z.of_nat (length (List.filter id asked)), r + Z.of_nat (length asked)).
Proof.
  induction answers as [|[b|] rest IH]; intros s r m Hm; cbv zeta; cbn [check_loop].
  - change (omap id []) with (@nil bool). rewrite take_nil. cbn. f_equal; lia.
  - change (omap id (Some b :: rest)) with (b :: omap id rest). replace (Z.to_nat (m - r)) with (S (Z.to_nat (m - (r + 1)))) by lia. cbn [take List.filter length]. destruct (Z.leb_spec m (r + 1)) as [Hle|Hgt].
    + replace (Z.to_nat (m - (r + 1))) with 0%nat by lia. cbn [take List.filter length]. destruct b; cbn; f_equal; lia.
    + rewrite IH by lia. destruct b; cbn [id Z.b2z length]; f_equal; lia.
  - change (omap id (None :: rest)) with (omap id rest). by rewrite IH.
Qed.

(** The verdict on direct reachability is that of the first [max_peers] peers that answered at all: none if nobody answered, else whether the share of
    those that reached this peer is at least the threshold. *)
Theorem direct_reachability_verdict (answers : list (option bool)) (max_peers : Z) (threshold : Q) : 0 < max_peers ->
  let asked := take (Z.to_nat max_peers) (omap id answers) in
  check_direct_reachability answers max_peers threshold =
    match asked with
    | [] => None
    | _ => Some (Qle_bool threshold (inject_Z (Z.of_nat (length (List.filter id asked))) / inject_Z (Z.of_nat (length asked))))
    end.
Proof.
  intros Hm. cbv zeta. unfold check_direct_reachability. rewrite check_loop_spec by done. cbv zeta. rewrite Z.sub_0_r, !Z.add_0_l. destruct (take _ _) as [|b l]; [done|].
  destruct (Z.ltb_spec 0 (Z.of_nat (length (b :: l)))) as [_|Hc]; [done|cbn in Hc; lia].
Qed.

(** *** Witnesses *)

#[local] Existing Instances leb_varint leb_varint_laws Toy.multiformats Toy.multiformats_laws Toy.unicode.
#[local] Existing Instances ToyAddr.netaddr ToyAddr.netaddr_laws ToyAddr.idna ToyAddr.idna_laws.

Definition toy_maddr (s : string) : Multiaddr := match new_multiaddr (AddrStr (lit s)) REGISTRY with Ok m => m | Raise _ => mkMultiaddr [] REGISTRY end.
(** Addresses that start with 10 are private. *)
Definition toy_global (v : text) : result bool := Ok (negb (bool_decide (take 3 v = lit "10."))).

Lemma choose_ip_best_witness :
  choose_ip_address toy_global [toy_maddr "/ip4/10.0.0.7/tcp/80"; toy_maddr "/ip4/8.8.4.4/tcp/80"] true [lit "ip4"; lit "ip6"] = Ok (lit "8.8.4.4") /\
  exists need addr, candidate toy_global (lit "ip4") addr = Ok (Some (lit "8.8.4.4", need)).
Proof.
  assert (Hc : choose_ip_address toy_global [toy_maddr "/ip4/10.0.0.7/tcp/80"; toy_maddr "/ip4/8.8.4.4/tcp/80"] true [lit "ip4"] = Ok (lit "8.8.4.4")) by (vm_compute; reflexivity).
  split; [vm_compute; reflexivity|].
  destruct (choose_ip_best toy_global _ _ _ _ Hc) as (need & ps1 & p & ps2 & as1 & a & as2 & Hp & _ & Ha & _). destruct ps1 as [|q [|]]; cbn in Hp; [|discriminate..].
  injection Hp as <- _. by exists need, a.
Defined.

Lemma ban_denies_peer_ips_witness :
  ban_peers (fun _ => Raise CalledProcessError) [(lit "Qm1", [lit "/ip4/1.2.3.4/tcp/80"; lit "/dns4/host/tcp/80"]); (lit "Qm2", [lit "/ip4/9.9.9.9/tcp/80"])] [lit "Qm3"; lit "Qm1"] =
  ([UfwDeny (lit "1.2.3.4")], Ok tt).
Proof.
  refine (ban_denies_peer_ips (fun _ => Raise CalledProcessError) _ _ (fun p => if decide (p = lit "Qm1") then [lit "1.2.3.4"] else [lit "9.9.9.9"]) _ _); [by left|].
  assert (Hd : forall ip, (47 ∉ ip) -> direct ip (lit "/ip4/" ++ ip ++ 47 :: lit "tcp/80")) by (intros ip Hip; split; [done|by eexists]).
  intros p addrs. change (dict_of_list _) with [(lit "Qm1", [lit "/ip4/1.2.3.4/tcp/80"; lit "/dns4/host/tcp/80"]); (lit "Qm2", [lit "/ip4/9.9.9.9/tcp/80"])]. cbn [dget].
  destruct (decide (lit "Qm1" = p)) as [<- |H1].
  - intros [= <-]. rewrite decide_True by done. constructor; [|constructor]. apply (Hd (lit "1.2.3.4")). by apply (bool_decide_unpack (47 ∉ lit "1.2.3.4")).
  - destruct (decide (lit "Qm2" = p)) as [<- |H2]; [|done]. intros [= <-]. rewrite decide_False by done. constructor; [|constructor]. apply (Hd (lit "9.9.9.9")). by apply (bool_decide_unpack (47 ∉ lit "9.9.9.9")).
Defined.

Lemma direct_reachability_verdict_witness : check_direct_reachability [None; Some true; Some false; None; Some true; Some false] 3 (1 # 2) = Some true.
Proof. refine (eq_trans (direct_reachability_verdict _ 3 (1 # 2) _) _); [lia|vm_compute; reflexivity]. Defined.
