(* ===== verification/Lifecycle.v ===== *)
(** * The life of a p2p daemon ([P2P.create], [replicate], [shutdown] and the identity files of [mesh/p2p/p2p_daemon.py])

    A [P2P] object owns a child process (the daemon), a connection to it, two tasks and two Unix sockets, or, as a replica, only the
    connection, a task and a socket of its own.  What the system does (starting the process, its output, the connection) is
    an argument.  The options of the command line and the reading of the output of the daemon are in [P2P.v]. *)

From S2P Require Import Prelude DHTID Base58 HashTable Framing PeerIdentity Base64 Validation Crypto Tensors AsyncTools KeyFiles.

(** ** Identity files *)

Section Identity.
Context {PrivateKey PublicKey : Type} `{KL : KeyLib PublicKey} `{KF : KeyFiles PrivateKey PublicKey} `{VI : Varint}.

(** [PeerID.from_identity], from the contents of the file; [None] for a type that the code does not list *)
Definition from_identity_data (data : bytes) : result (option PeerID) :=
  let* (key_type, key_data) := parse_private_key data in
  if key_type =? 0 then
    let* private_key := load_der_private_key key_data in
    let* b := rsa_peer_bytes (public_of private_key) in Ok (Some (PeerID_init b))
  else if key_type =? 1 then
    let* private_key := ed25519_from_private_bytes (take 32 key_data) in
    Ok (Some (PeerID_init (ed25519_peer_bytes (public_of private_key))))
  else if (key_type =? 2) || (key_type =? 3) then Raise ValueError
  else Ok None.

(** [RSAPrivateKey.to_bytes] is the DER encoding, [Ed25519PrivateKey.to_bytes] the raw one, without the public key. *)
Definition generate_rsa_identity (fs : files) (identity_path : string) (private_key : PrivateKey) : result files :=
  let* fs := write_file fs identity_path (pb_private_key (key_type_code RSA) (private_der private_key)) in
  chmod_0400 fs identity_path.
Definition generate_ed25519_identity (fs : files) (identity_path : string) (private_key : PrivateKey) : result files :=
  let* fs := write_file fs identity_path (pb_private_key (key_type_code Ed25519) (private_raw private_key)) in
  chmod_0400 fs identity_path.

(** [is_identity_taken]: a second, anonymous daemon tries to connect to the peer; [anonymous] is the outcome of creating it, [connect] what the
    connection says.  Only a [ControlFailure] means that the identity is free. *)
Definition is_identity_taken (fs : files) (identity_path : string) (anonymous : result unit) (connect : PeerID -> result unit) : result bool :=
  let* data := read_file fs identity_path in
  let* peer_id := from_identity_data data in
  let* _ := anonymous in
  match peer_id with
  | None => Raise AttributeError
  | Some p => match connect p with
              | Ok _ => Ok true
              | Raise ControlFailure => Ok false
              | Raise e => Raise e
              end
  end.

(** The part of [create] about the identity: the option [id] of the daemon *)
Definition prepare_identity (fs : files) (identity_path : option string) (check_if_identity_free need_bootstrap : bool) (new_key : PrivateKey)
    (anonymous : result unit) (connect : PeerID -> result unit) : result (files * option string) :=
  match identity_path with
  | None => Ok (fs, None)
  | Some path =>
      match dget fs path with
      | Some _ =>
          let* taken := if check_if_identity_free && need_bootstrap then is_identity_taken fs path anonymous connect else Ok false in
          if taken then Raise P2PDaemonError else Ok (fs, Some path)
      | None => let* fs := generate_rsa_identity fs path new_key in Ok (fs, Some path)
      end
  end.
End Identity.

(** ** The object and its resources *)

(** The child: [None] for a replica and before the start, else whether it is running; likewise the client and the tasks, which stay when they are
    closed or cancelled. *)
Record P2P : Type := mkP2P {
  child : option bool; alive : bool; client : option bool; reader_task : option bool; listen_task : option bool; daemon_socket : string; client_socket : string }.
Definition new_p2p (daemon_socket client_socket : string) : P2P := mkP2P None false None None None daemon_socket client_socket.

Definition stopped (x : option bool) : option bool := match x with Some _ => Some false | None => None end.
Definition remove_socket (name : string) (sockets : list string) : list string := List.filter (fun s => negb (bool_decide (s = name))) sockets.

#[global] Arguments remove_socket : simpl never.

(** [_terminate], with an event loop that runs: the sockets are removed if they are there. *)
Definition terminate (o : P2P) (sockets : list string) : P2P * list string :=
  let sockets := if bool_decide (child o = Some true) then remove_socket (daemon_socket o) sockets else sockets in
  (mkP2P (stopped (child o)) false (stopped (client o)) (stopped (reader_task o)) (stopped (listen_task o)) (daemon_socket o) (client_socket o),
   remove_socket (client_socket o) sockets).

(** How the start of the daemon ends: its output says that it is ready, nothing comes in time, or the process ends. *)
Inductive startup : Type := StartReady | StartTimeout | StartFailed.

(** [create] after the identity.  An object that is dropped is terminated ([__del__]); a timeout shuts it down before. *)
Definition create (sockets : list string) (daemon client_ : string) (spawn : result unit) (start : startup) (connect : result unit) (identify : result PeerID)
    : (P2P * list string) * result PeerID :=
  let dropped o sockets (e : exn) := (terminate o sockets, Raise e) in
  let o := new_p2p daemon client_ in
  match spawn with
  | Raise e => dropped o sockets e
  | Ok _ =>
      let sockets := daemon :: sockets in
      let o := mkP2P (Some true) true None (Some true) None daemon client_ in
      match start with
      | StartTimeout => let '(o, sockets) := terminate o sockets in dropped o sockets P2PDaemonError
      | StartFailed => dropped (mkP2P (Some false) true None (Some false) None daemon client_) sockets P2PDaemonError
      | StartReady =>
          match connect with
          | Raise e => dropped o sockets e
          | Ok _ =>
              let o := mkP2P (Some true) true (Some true) (Some true) None daemon client_ in
              match identify with
              | Raise e => dropped o sockets e
              | Ok peer_id => ((o, sockets), Ok peer_id)
              end
          end
      end
  end.

(** [replicate]: an object without a child *)
Definition replicate (sockets : list string) (daemon client_ : string) (connect : result unit) (identify : result PeerID) : (P2P * list string) * result PeerID :=
  let o := mkP2P None true None None None daemon client_ in
  match connect with
  | Raise e => (terminate o sockets, Raise e)
  | Ok _ => let o := mkP2P None true (Some true) None None daemon client_ in
            match identify with Raise e => (terminate o sockets, Raise e) | Ok p => ((o, sockets), Ok p) end
  end.

(** [add_binary_stream_handler] starts to listen once, on the socket of the client. *)
Definition start_listening (o : P2P) (sockets : list string) : P2P * list string :=
  match listen_task o with
  | Some _ => (o, sockets)
  | None => (mkP2P (child o) (alive o) (client o) (reader_task o) (Some true) (daemon_socket o) (client_socket o), client_socket o :: sockets)
  end.

(** What may happen to an object: a handler is added, the daemon ends by itself, it is shut down (or dropped). *)
Inductive life : Type := AddHandler | DaemonEnds | Shutdown.
Definition live (s : P2P * list string) (l : life) : P2P * list string :=
  let '(o, sockets) := s in
  match l with
  | AddHandler => start_listening o sockets
  | DaemonEnds => (mkP2P (stopped (child o)) (alive o) (client o) (stopped (reader_task o)) (listen_task o) (daemon_socket o) (client_socket o), sockets)
  | Shutdown => terminate o sockets
  end.

(** ** Facts *)

Lemma remove_socket_in name s sockets : s ∈ remove_socket name sockets <-> s ∈ sockets /\ s <> name.
Proof.
  unfold remove_socket. rewrite !list_elem_of_In, filter_In. split; intros [H1 H2]; (split; [done|]).
  - intros ->. by rewrite bool_decide_true in H2.
  - by rewrite bool_decide_false.
Qed.

Section Fresh.
Variables (sockets : list string) (daemon client_ : string).
Hypothesis fresh : (daemon ∉ sockets) /\ (client_ ∉ sockets) /\ daemon <> client_.

(** A [create] that fails releases what it had started: no daemon of it runs, nothing of it is active, and of its sockets only one can be left, that
    of a daemon that has ended by itself during the start. *)
Theorem create_failure_releases (spawn : result unit) (start : startup) (connect : result unit) (identify : result PeerID) (o : P2P) (sockets' : list string) (e : exn) :
  create sockets daemon client_ spawn start connect identify = ((o, sockets'), Raise e) ->
  child o <> Some true /\ alive o = false /\ client o <> Some true /\ reader_task o <> Some true /\
  forall s, s ∈ sockets' -> s ∈ sockets \/ (s = daemon /\ start = StartFailed).
Proof using fresh.
  destruct fresh as (Hd & Hc & Hdc). unfold create, new_p2p, terminate. cbn [child alive client reader_task listen_task daemon_socket client_socket stopped]. intros Hcr.
  assert (Hrm : forall s, s ∈ remove_socket client_ (remove_socket daemon (daemon :: sockets)) -> s ∈ sockets).
  { intros s. rewrite !remove_socket_in, elem_of_cons. intros [[[-> |] ?] _]; done. }
  destruct spawn as [[]|e0]; [destruct start; [destruct connect as [[]|e0]; [destruct identify as [p|e0]|]| |]|]; try done; rewrite ?bool_decide_true, ?bool_decide_false in Hcr by done;
    simplify_eq; cbn; (split_and!; try done); intros s Hs.
  - left. by apply Hrm.
  - left. by apply Hrm.
  - left. rewrite !(bool_decide_true (_ = _)) in Hs by done. apply remove_socket_in in Hs as [Hs _]. by apply Hrm.
  - rewrite remove_socket_in, elem_of_cons in Hs. destruct Hs as [[-> |Hs] _]; auto.
  - left. by apply remove_socket_in in Hs as [Hs _].
Qed.

(** The state of an object in use *)
Record used (owner : bool) (o : P2P) (sockets' : list string) : Prop := {
  us_daemon : daemon_socket o = daemon; us_client : client_socket o = client_;
  us_child : match child o with Some _ => owner = true | None => owner = false end;
  us_sockets s : s ∈ sockets' -> s ∈ sockets \/ s = client_ \/ (s = daemon /\ owner = true);
  us_kept s : s ∈ sockets -> s ∈ sockets';
}.

Lemma live_used owner o sk l o' sk' : used owner o sk -> live (o, sk) l = (o', sk') -> used owner o' sk'.
Proof using fresh.
  destruct fresh as (Hd & Hc & Hdc). intros [H1 H2 H3 H4 H5] Hl. destruct l; cbn in Hl.
  - unfold start_listening in Hl. destruct (listen_task o); simplify_eq; [by split|]. split; cbn; try done; [intros s Hs; apply elem_of_cons in Hs as [-> |Hs]; [right; by left|by apply H4]|intros s Hs; right; by apply H5].
  - simplify_eq. split; cbn; try done. by destruct (child o).
  - unfold terminate in Hl. simplify_eq. split; cbn; try done; [by destruct (child o)| |].
    + intros s Hs. apply remove_socket_in in Hs as [Hs _]. destruct (bool_decide _); [apply remove_socket_in in Hs as [Hs _]|]; by apply H4.
    + intros s Hs. apply remove_socket_in. split; [|intros ->; by rewrite H2 in Hs]. destruct (bool_decide _); [|by apply H5].
      apply remove_socket_in. split; [by apply H5|intros ->; by rewrite H1 in Hs].
Qed.

Lemma created_used spawn start connect identify o sk p :
  create sockets daemon client_ spawn start connect identify = ((o, sk), Ok p) -> used true o sk /\ child o = Some true /\ (forall s, s ∈ sk -> s ∈ sockets \/ s = daemon).
Proof using fresh.
  unfold create. intros Hc. destruct spawn as [[]|]; [|done]. destruct start; [|cbn in Hc; done|done]. destruct connect as [[]|]; [|done]. destruct identify; [|done]. simplify_eq.
  assert (Hin : forall s, s ∈ daemon :: sockets -> s ∈ sockets \/ s = daemon) by (intros s Hs; apply elem_of_cons in Hs; tauto).
  split; [|done]. split; cbn; try done; [intros s Hs; destruct (Hin s Hs) as [|]; auto|intros s Hs; by right].
Qed.

Lemma replica_used connect identify o sk p : replicate sockets daemon client_ connect identify = ((o, sk), Ok p) -> used false o sk.
Proof using fresh.
  unfold replicate. intros Hc. destruct connect as [[]|]; [|done]. destruct identify; [|done]. simplify_eq. split; cbn; try done. by left.
Qed.

Lemma lives_used owner ls o sk o' sk' : used owner o sk -> foldl live (o, sk) ls = (o', sk') -> used owner o' sk'.
Proof using fresh.
  revert o sk. induction ls as [|l ls IH]; intros o sk Hu Hf; cbn [foldl] in Hf; [by simplify_eq|]. destruct (live (o, sk) l) as [o1 sk1] eqn:El. eapply IH; [|exact Hf]. by eapply live_used.
Qed.

Lemma lives_running ls o sk o' sk' : child o = Some true -> Forall (fun l => l = AddHandler) ls -> foldl live (o, sk) ls = (o', sk') -> child o' = Some true.
Proof.
  revert o sk. induction ls as [|l ls IH]; intros o sk Hch Hall Hf; cbn [foldl] in Hf; [by simplify_eq|]. apply Forall_cons in Hall as [-> Hall].
  destruct (live (o, sk) AddHandler) as [o1 sk1] eqn:El. eapply IH; [|exact Hall|exact Hf]. cbn in El. unfold start_listening in El. destruct (listen_task o); by simplify_eq.
Qed.

(** A shutdown after any use leaves nothing: the daemon does not run, connection and tasks are closed, and the sockets on the disk are those from before; for
    the owner of the daemon, provided that the daemon had not ended by itself.  The shutdown of a replica does not touch the socket of the daemon. *)
Theorem shutdown_releases (owner : bool) (spawn connect : result unit) (start : startup) (identify : result PeerID) (o0 o o' : P2P) (sk0 sk sk' : list string) (p : PeerID) (ls : list life) :
  (if owner then create sockets daemon client_ spawn start connect identify else replicate sockets daemon client_ connect identify) = ((o0, sk0), Ok p) ->
  (owner = true -> Forall (fun l => l = AddHandler) ls) -> foldl live (o0, sk0) ls = (o, sk) -> terminate o sk = (o', sk') ->
  child o' <> Some true /\ client o' <> Some true /\ reader_task o' <> Some true /\ listen_task o' <> Some true /\ alive o' = false /\ (forall s, s ∈ sk' <-> s ∈ sockets).
Proof using fresh.
  destruct fresh as (Hd & Hc & Hdc). intros Hcr Hls Hf Ht. assert (Hu0 : used owner o0 sk0) by (destruct owner; [by eapply created_used|by eapply replica_used]).
  pose proof (lives_used _ _ _ _ _ _ Hu0 Hf) as [H1 H2 H3 H4 H5].
  assert (Hrun : owner = true -> child o = Some true).
  { intros ->. eapply lives_running; [|by apply Hls|exact Hf]. by eapply created_used. }
  unfold terminate in Ht. simplify_eq. cbn. split_and!; try (by destruct (child o), (client o), (reader_task o), (listen_task o)).
  intros s. rewrite remove_socket_in. destruct owner.
  - rewrite Hrun, bool_decide_true by done. rewrite remove_socket_in. split.
    + intros [[Hs Hs1] Hs2]. destruct (H4 s Hs) as [|[|[? _]]]; congruence || done.
    + intros Hs. split_and!; [by apply H5|intros ->; by rewrite H1 in Hs|intros ->; by rewrite H2 in Hs].
  - destruct (child o) as [b|] eqn:Ech; [done|]. rewrite bool_decide_false by done. split.
    + intros [Hs Hs2]. destruct (H4 s Hs) as [|[|[_ ?]]]; congruence || done.
    + intros Hs. split; [by apply H5|intros ->; by rewrite H2 in Hs].
Qed.
End Fresh.

Section IdentityFacts.
Context {PrivateKey PublicKey : Type} `{KL : KeyLib PublicKey} `{KF : KeyFiles PrivateKey PublicKey} `{LF : !KeyFilesLaws PrivateKey PublicKey} `{VL : VarintLaws}.
Hypothesis sha256_digest : forall m : bytes, sha256 m <> [] /\ Z.of_nat (length (sha256 m)) < 2 ^ 32.

(** What [generate_rsa_identity] and [generate_ed25519_identity] have written *)
Definition identity_contents (sk : PrivateKey) : bytes :=
  match private_kind sk with RSA => pb_private_key 0 (private_der sk) | _ => pb_private_key 1 (private_raw sk) end.

Lemma identity_read sk : private_kind sk = RSA \/ private_kind sk = Ed25519 ->
  exists p, from_identity_data (identity_contents sk) = Ok (Some p) /\ get_peer_id_from_pubkey (public_of sk) = Some p.
Proof using LF VL sha256_digest.
  unfold identity_contents, from_identity_data, get_peer_id_from_pubkey. rewrite public_kind. intros [Hk|Hk]; rewrite Hk; rewrite parse_private by lia; cbn [rbind Z.eqb].
  - rewrite (der_load sk Hk). cbn [rbind]. destruct (rsa_id sha256_digest (public_of sk)) as [b Hb]. unfold get_rsa_peer_id. rewrite Hb. cbn [rbind]. eauto.
  - change (1 =? 0) with false. change (1 =? 1) with true. cbn iota. destruct (raw_load sk Hk) as [Hl Hr]. rewrite take_ge by lia. rewrite Hr. cbn [rbind]. unfold get_ed25519_peer_id. eauto.
Qed.

(** A node keeps its identity: starting it with the path of a file that does not exist writes a read-only file with the new key, other files stay; every
    later start reads the same key and changes no file, and is refused only if a peer with this identifier answers. *)
Theorem identity_persists (fs : files) (path : string) (sk : PrivateKey) (check need : bool) (anonymous : result unit) (connect : PeerID -> result unit) :
  private_kind sk = RSA -> dget fs path = None ->
  exists fs1 p, prepare_identity fs (Some path) check need sk anonymous connect = Ok (fs1, Some path) /\
    dget fs1 path = Some (mkFile (identity_contents sk) true) /\ get_peer_id_from_pubkey (public_of sk) = Some p /\ (forall q, q <> path -> dget fs1 q = dget fs q) /\
    forall sk' connect', prepare_identity fs1 (Some path) check need sk' (Ok tt) connect' =
      if check && need then match connect' p with Ok _ => Raise P2PDaemonError | Raise ControlFailure => Ok (fs1, Some path) | Raise e => Raise e end
      else Ok (fs1, Some path).
Proof using LF VL sha256_digest.
  intros Hk Hn. destruct (identity_read sk (or_introl Hk)) as (p & Hread & Hp). exists (dset (dset fs path (mkFile (identity_contents sk) false)) path (mkFile (identity_contents sk) true)), p.
  unfold prepare_identity. rewrite Hn. unfold generate_rsa_identity. rewrite writable by (intros f Hf; congruence). cbn [rbind]. unfold chmod_0400. rewrite dget_dset_eq. cbn [of_option rbind contents].
  unfold identity_contents in Hread |- *. rewrite Hk in Hread |- *. split; [done|]. rewrite dget_dset_eq. split; [done|]. split; [done|]. split; [intros q Hq; by rewrite !dget_dset_ne|].
  intros sk' connect'. destruct (check && need); [|done]. unfold is_identity_taken, read_file. rewrite dget_dset_eq. cbn [of_option rmap rbind contents]. rewrite Hread. cbn [rbind].
  destruct (connect' p) as [[]|[]]; done.
Qed.
End IdentityFacts.

(** ** Witnesses *)

Definition toy_daemon : string := "/tmp/p2pd-1.sock".
Definition toy_client : string := "/tmp/p2pclient-1.sock".
Definition toy_sockets : list string := ["/tmp/p2pd-0.sock"%string].
Lemma toy_fresh : (toy_daemon ∉ toy_sockets) /\ (toy_client ∉ toy_sockets) /\ toy_daemon <> toy_client.
Proof. split_and!; [apply (bool_decide_unpack (toy_daemon ∉ toy_sockets)); done|apply (bool_decide_unpack (toy_client ∉ toy_sockets)); done|done]. Qed.

Lemma create_failure_releases_witness : forall s, s ∈ (create toy_sockets toy_daemon toy_client (Ok tt) StartTimeout (Ok tt) (Ok (PeerID_init []))).1.2 -> s ∈ toy_sockets \/ (s = toy_daemon /\ StartTimeout = StartFailed).
Proof. refine (proj2 (proj2 (proj2 (proj2 (create_failure_releases _ _ _ toy_fresh (Ok tt) StartTimeout (Ok tt) (Ok (PeerID_init [])) _ _ P2PDaemonError _))))). vm_compute. reflexivity. Defined.

Lemma shutdown_releases_witness :
  forall s, s ∈ (live (foldl live (create toy_sockets toy_daemon toy_client (Ok tt) StartReady (Ok tt) (Ok (PeerID_init []))).1 [AddHandler; AddHandler]) Shutdown).2 <-> s ∈ toy_sockets.
Proof.
  refine (proj2 (proj2 (proj2 (proj2 (proj2 (shutdown_releases _ _ _ toy_fresh true (Ok tt) (Ok tt) StartReady (Ok (PeerID_init [])) _ _ _ _ _ _ (PeerID_init []) [AddHandler; AddHandler] _ _ _ _)))))).
  - vm_compute. reflexivity.
  - intros _. by repeat constructor.
  - vm_compute. reflexivity.
  - vm_compute. reflexivity.
Defined.

#[local] Existing Instance leb_varint.
#[local] Existing Instance leb_varint_laws.
#[local] Existing Instance toy_keys.
#[local] Existing Instance toy_files.
#[local] Existing Instance toy_files_laws.

Lemma identity_persists_witness :
  exists fs1, prepare_identity [] (Some "id"%string) true true (ToyRSA [1; 2]) (Ok tt) (fun _ => Raise OSError) = Ok (fs1, Some "id"%string) /\
    prepare_identity fs1 (Some "id"%string) true true (ToyRSA [3]) (Ok tt) (fun _ => Raise ControlFailure) = Ok (fs1, Some "id"%string).
Proof.
  destruct (identity_persists toy_sha256 [] "id" (ToyRSA [1; 2]) true true (Ok tt) (fun _ => Raise OSError)) as (fs1 & p & H1 & _ & _ & _ & H2); [reflexivity..|]. exists fs1. split; [exact H1|]. by rewrite H2.
Defined.
